(* ===== verification/_CoqProject ===== *)
-Q . S2P
Prelude.v
Options.v
SharedMem.v
Ring.v
RawQueue.v
QueuePool.v
QueueOps.v
QueueSpec.v
QueueRead.v
QueueIndex.v
QueueCreate.v
QueueStore.v
QueueSystem.v
QueueFeed.v
QueueTheorems.v
AosSync.v
RobustList.v
MutexProofs.v
MutexProtocol.v
SyncTheorems.v
ByteOrder.v
QueueTypes.v
QueueTypesProofs.v
TypeCache.v
TypesTheorems.v
Time.v
TimeProofs.v
TimeTheorems.v
TypedQueue.v
TypedQueueProofs.v
TypedTheorems.v
Double.v
Serial.v
SensorReader.v
SensorBus.v
SensorProofs.v
Dashboard.v
DashboardTheorems.v
RangeImage.v
FindBlob.v
BlobProofs.v
BlobRows.v
BlobLabels.v
VisionProofs.v
VisionTheorems.v
Bresenham.v
Contour.v
ContourTheorems.v
HierMerge.v
LogFile.v
LogFileProofs.v
LogWriter.v
LogWriterProofs.v
LogTypes.v
LogLive.v
LogTheorems.v
LogFront.v
LogFrontProofs.v
LogAccount.v
LogPipeline.v
PipelineTheorems.v
Starter.v
StarterProofs.v
StarterDeaths.v
StarterTheorems.v
Actions.v
ActionsProofs.v
ActionsTheorems.v
LogDisplay.v
LogDisplayTheorems.v
LogReplay.v
LogReplayTheorems.v
Utilities.v
Joystick.v
Controls.v
ControlTheorems.v
ThreadLocal.v
StlMutex.v
Events.v
Camera.v
