(* ===== verification/Prelude.v ===== *)
(** * The AOS shared-memory runtime and the dashboard built on it

    The repository (src/) is a car dashboard, dashboard/, on top of AOS, a robot
    runtime: processes exchange messages through queues in a shared-memory
    segment, describe the types of the messages there, log through such a queue
    into files that are displayed and replayed, run actions for each other, are
    started and restarted by the starter, drive motors from control loops, and take
    camera images in which they look for blobs.
    This library models these
    parts function by function and proves what makes them correct.

    ** How the code is modelled

    A C++ function is a Rocq function.  [res] is its outcome: a value, or the way
    the program stops ([stop], below); [ST S A] passes a state [S] along, and [wp]
    is the total-correctness triple for it: the computation returns, and what it
    returns satisfies the postcondition.  Integers are [Z] at their width:
    unsigned ones wrap ([uwrap], abbreviated u16, u32, u64), signed overflow is
    undefined ([chk], abbreviated i32, i64), conversions wrap ([swrap]).  Memory is
    a record of the objects in it, a map from addresses to objects, or a list of
    bytes with bounds-checked accesses.  What is not in src/ (the kernel, SDL, the
    generated message classes, libc's clock) is a parameter, a record or a type
    class, with the laws the code relies on; every theorem with such laws has a
    witness in which they hold.

    ** The parts, their files and their theorems

    - Raw queues (src/aos/linux_code/ipc_lib/queue.cc, shared_mem.c, core_lib.c,
      src/aos/common/util/options.h).  Options: sets of options.  SharedMem: the
      segment and its allocator.  RawQueue: the queue objects and every operation
      ([GetMessage], [WriteMessage], [ReadMessage], [ReadMessageIndex],
      [FreeMessage], [Fetch], ...).  Ring, QueuePool, QueueOps: the ring buffer, the
      free list and reference counts, and triples for the helpers.  QueueSpec,
      QueueRead, QueueIndex, QueueCreate: the abstract bounded queue and the
      refinement of each operation.  QueueStore, QueueSystem, QueueFeed: all queues
      of a segment, all clients, one publisher and its subscribers.
      QueueTheorems (C1-C8): refinement on every branch, freshness and conservation
      of messages, creation, safety of any sequence of operations that keeps to
      the ownership rules, delivery in order, refused options.
    - Mutexes, conditions and futexes (aos_sync.cc, src/aos/common/mutex.h and .cc,
      condition.cc, event.cc).  AosSync: every function, both builds, over a record
      of futex calls.  RobustList, MutexProofs: the robust list and one task's
      triples.  MutexProtocol: any number of tasks as a step relation.
      SyncTheorems (C10, C11, C14, C15): locking, unlocking, misuse, trylock, waiting, and
      mutual exclusion for every interleaving, deaths included.
    - Message types (src/aos/common/byteorder.h, queue_types.cc).  ByteOrder,
      QueueTypes, QueueTypesProofs: serialization and printing; TypeCache: the
      cache and its list in shared memory.  TypesTheorems
      (C16-C19): round trip, memory safety on arbitrary bytes, printing in bounds,
      publication.
    - Time (src/aos/common/time.cc, util/phased_loop.cc).  Time, TimeProofs,
      TimeTheorems: arithmetic against nanoseconds, conversions,
      phased loops, the mock clock, and the inputs on which the code stops.
    - Typed queues (src/aos/common/queue.h, src/aos/linux_code/queue-tmpl.h).
      TypedQueue, TypedQueueProofs, TypedTheorems (C26): any number of objects
      on one queue show the values the abstract history says.
    - The dashboard (src/dashboard/).  Double: IEEE arithmetic; Serial: the port;
      SensorReader: the OBD reader over the class [MessageBus], which SensorBus
      instantiates with the typed queues; Dashboard: the SDL program.
      SensorProofs, DashboardTheorems (C28, C30-C32): the
      line protocol, decoding, publication, the gauge, the main loop, the keys.
    - Vision (src/aos/vision/blob/).  RangeImage (range images, thresholding, the
      codec), FindBlob (union-find and the blob finder); BlobProofs, BlobRows, BlobLabels, VisionProofs.
      VisionTheorems (C34-C37): thresholding is exact, the blobs are the connected
      components, merging gives the picture back, the codec round trip, flipping.
      Contour, ContourTheorems (C29; contour.cc, region_alloc.h): the arena and the
      outline of a blob, a closed walk around it.  HierMerge
      (hierarchical_contour_merge.cc): cutting a contour into arcs that are close to
      lines; it ends, and every point is on one arc.  Bresenham (utils/bresenham.cc):
      lines, which are the closest pixels; painting range images.
    - Control loops (src/aos/common/controls/control_loop-tmpl.h).  Controls: a loop,
      its queue objects and what other processes do between any two of its
      operations.  ControlTheorems (C24): every turn of any run, and when motors
      are driven.
    - Cameras and events (src/aos/vision/image/reader.cc, events/).  Camera: the reader
      over a class of ioctls; who has each buffer, and when.  Events: the timeouts of
      the epoll loop are hit on time and never early; the connections of a server are
      those on its list, that the loop watches and that are open (C23).
    - Threads (src/aos/common/once-tmpl.h, stl_mutex.h,
      src/aos/linux_code/complex_thread_local.cc).  ThreadLocal: Once runs its function
      once for any interleaving (C33); thread-local objects are destroyed once, newest
      first.  StlMutex (C22): recursive mutexes for any number of tasks that may die.
    - Log files (src/aos/common/logging/binary_log_file.cc, binary_log_writer.cc).
      LogFile: pages, readers and writers of a file; LogWriter: the log writer's
      loop; LogFileProofs, LogWriterProofs, LogTypes: what readers find, appending,
      types before structs; LogLive: a reader that follows a writer, and the
      specification [log_spec].  LogTheorems (C39): the refinement.
    - The logging front end (implementations.cc, interface.cc, context.cc).
      LogFront: contexts, the stack of implementations, filling in messages,
      corking, and the queue implementation, on the queues of RawQueue and the
      cache of TypeCache.  LogFrontProofs, LogAccount: what a message carries and
      the account of dropped ones.  LogPipeline: a process, the log writer and a
      reader of the file together.  PipelineTheorems (C40, and a theorem about
      corking): every logged message reaches the file in order or is reported as dropped.
    - Readers of log files (log_displayer.cc, replay.cc).  LogDisplay,
      LogDisplayTheorems (C38): options, filters and the printed
      texts; the displayer prints the messages a log writer wrote, those that pass
      the filters, in order.  LogReplay, LogReplayTheorems (C21):
      handlers and the direct queue sender; replaying a log hands every message of
      a handled structure to its handler, or puts it on its queue, as it was.
    - The starter (src/aos/linux_code/starter/starter.cc, run_command.cc).  Starter:
      children, watches of their binaries, signals, timers and the main program, as
      steps of an event loop over a class of system calls.  StarterProofs,
      StarterDeaths, StarterTheorems (C9, C12, C13): every child
      always runs, waits for a restart or is stopped for good; the throttle; the
      signal handler returns; what happens to watches the kernel removes.
    - Actions (src/aos/common/actions/).  Actions: actors, clients and the two typed
      queues between them, as a step relation over all interleavings.
      ActionsProofs, ActionsTheorems (C25, C27): actions run one at a time in
      the order they are enqueued, a finished one is followed by the next, and when
      waiting for an action ends too early.
    - Small utilities (wrapping_counter.cc, transaction.h, linked_list.h,
      team_number.cc).  Utilities: the counter, work stacks and lists whose
      operations are sequences of instructions, hostnames (C20):
      list operations can be undone from any point; the counter follows its total;
      hostnames parse.
    - Joysticks (driver_station_data.cc, joystick_input.cc).  Joystick:
      the logged edges are the changes, and tell the state.

    ** Fuel and bounds

    Recursion that is not structural takes fuel, and running out of it is an
    error ([Fuel]) that the theorems exclude.  A queue without a recycle queue
    needs fuel 1 in each operation; scans of lists in shared memory get one more
    than the number of objects; mutexes get the number of signals; types get their
    nesting depth; [find_blobs] its number of elements; a page of a log file is
    read in at most as many turns as it has bytes; the displayer and the replayer
    need one turn more than there are messages; [ActionQueue::Tick] needs 3; the
    operations of a list one more than the number of elements.  A control loop is run
    for more turns than there are positions to come; the loops of a contour get the
    number of runs, or the distance they walk; merging arcs takes at most three turns for
    each point; a thread's list of destructors and a
    server's list of connections get the number of operations.  Counters are assumed not to
    overflow where the code does not check (31-bit message counters, fewer than
    2^62 bytes of log); the theorems state these bounds.

    ** What is not modelled

    Two operations of one queue are not interleaved inside each other: each runs
    under the queue's mutex, except for the lock-free free list, whose races are
    left out (see the findings of the manifest).  Mapping the segment, choosing log
    file names, sockets, the log streamer, the web server, the IPC benchmark and the
    WPILib drivers are system calls, endless loops around them, or vendored code.
    Profiles, polytopes and the geometry of the vision code are floating-point
    arithmetic on matrices of a vendored library; the viewers are GTK code.  The texts printed by
    the root logger are formats of libc. *)

From Stdlib Require Export ZArith Lia.
From stdpp Require Export option base numbers strings gmap gmultiset list.

#[global] Open Scope Z_scope.

(** ** Outcomes of a C++ computation

    [Fatal] is [LOG(FATAL, ...)], a failed [CHECK] or [aos::Die]; [Abort] is
    [abort()] or an exit; [Undefined] is behaviour the language leaves undefined (signed
    overflow, an access through a wild pointer, an index out of range);
    [Fuel] is only produced by the fuel of a model and never by the program. *)

Inductive stop : Set := Fatal | Abort | Undefined | Fuel.

Inductive res (A : Type) : Type :=
| Ok (a : A)
| Err (s : stop).
Arguments Ok {A} _.
Arguments Err {A} _.

#[global] Instance stop_eq_dec : EqDecision stop.
Proof. solve_decision. Defined.

#[global] Instance res_ret : MRet res := fun A a => Ok a.
#[global] Instance res_bind : MBind res := fun A B f m =>
  match m with Ok a => f a | Err s => Err s end.
#[global] Instance res_fmap : FMap res := fun A B f m =>
  match m with Ok a => Ok (f a) | Err s => Err s end.

(** [of_option s o] reads [o], stopping with [s] when there is nothing. *)
Definition of_option {A} (s : stop) (o : option A) : res A :=
  match o with Some a => Ok a | None => Err s end.

Lemma res_bind_ok {A B} (f : A → res B) (m : res A) b :
  m ≫= f = Ok b ↔ ∃ a, m = Ok a ∧ f a = Ok b.
Proof. destruct m; cbn; naive_solver. Qed.

Lemma res_bind_Ok {A B} (f : A → res B) a : (Ok a ≫= f) = f a.
Proof. done. Qed.

Lemma res_bind_Err {A B} (f : A → res B) e : (Err e ≫= f) = Err e.
Proof. done. Qed.

Lemma of_option_ok {A} s (o : option A) a : of_option s o = Ok a ↔ o = Some a.
Proof. destruct o; cbn; naive_solver. Qed.

(** State-passing computations that can stop. *)
Definition ST (S A : Type) : Type := S → res (A * S).

#[global] Instance st_ret S : MRet (ST S) := fun A a s => Ok (a, s).
#[global] Instance st_bind S : MBind (ST S) := fun A B f m s =>
  match m s with Ok (a, s') => f a s' | Err e => Err e end.

Definition st_get {S} : ST S S := fun s => Ok (s, s).
Definition st_put {S} (s : S) : ST S unit := fun _ => Ok (tt, s).
Definition st_modify {S} (f : S → S) : ST S unit := fun s => Ok (tt, f s).
Definition st_stop {S A} (e : stop) : ST S A := fun _ => Err e.
Definition st_lift {S A} (r : res A) : ST S A := fun s =>
  match r with Ok a => Ok (a, s) | Err e => Err e end.

Lemma st_bind_ok {S A B} (f : A → ST S B) (m : ST S A) s b s' :
  (m ≫= f) s = Ok (b, s') ↔ ∃ a s1, m s = Ok (a, s1) ∧ f a s1 = Ok (b, s').
Proof.
  unfold mbind, st_bind. destruct (m s) as [[a s1]|e]; naive_solver.
Qed.

Lemma st_ret_ok {S A} (a b : A) (s s' : S) :
  (mret a : ST S A) s = Ok (b, s') ↔ b = a ∧ s' = s.
Proof. unfold mret, st_ret. naive_solver. Qed.

(** The forward direction of [bind]: run the first half, then the second. *)
Lemma st_bind_step {S A B} (f : A → ST S B) (m : ST S A) s a s1 :
  m s = Ok (a, s1) → (m ≫= f) s = f a s1.
Proof. unfold mbind, st_bind. by intros ->. Qed.

(** ** Total-correctness triples

    [wp m Q s]: run from [s], [m] returns (it does not stop) and what it
    returns satisfies [Q]. *)

Definition wp {S A} (m : ST S A) (Q : A → S → Prop) (s : S) : Prop :=
  match m s with Ok (a, s') => Q a s' | Err _ => False end.

Section Wp.
Context {S : Type}.
Implicit Types s : S.

Lemma wp_ret {A} (a : A) (Q : A → S → Prop) s : Q a s → wp (mret a) Q s.
Proof. done. Qed.

Lemma wp_bind {A B} (m : ST S A) (f : A → ST S B) Q s :
  wp m (λ a s', wp (f a) Q s') s → wp (m ≫= f) Q s.
Proof.
  unfold wp, mbind, st_bind. by destruct (m s) as [[a s1]|e].
Qed.

Lemma wp_unbind {A B} (m : ST S A) (f : A → ST S B) Q s :
  wp (m ≫= f) Q s → wp m (λ a s', wp (f a) Q s') s.
Proof.
  unfold wp, mbind, st_bind. by destruct (m s) as [[a s1]|e].
Qed.

Lemma wp_mono {A} (m : ST S A) (Q Q' : A → S → Prop) s :
  wp m Q s → (∀ a s', Q a s' → Q' a s') → wp m Q' s.
Proof. unfold wp. destruct (m s) as [[a s1]|e]; auto. Qed.

Lemma wp_lift {A} (r : res A) (a : A) (Q : A → S → Prop) s :
  r = Ok a → Q a s → wp (st_lift r) Q s.
Proof. by intros ->. Qed.

Lemma wp_get (Q : S → S → Prop) s : Q s s → wp st_get Q s.
Proof. done. Qed.

Lemma wp_modify (f : S → S) (Q : unit → S → Prop) s : Q tt (f s) → wp (st_modify f) Q s.
Proof. done. Qed.

(** A triple with a functional post-condition is an equation. *)
Lemma wp_run {A} (m : ST S A) (Q : A → S → Prop) s :
  wp m Q s ↔ ∃ a s', m s = Ok (a, s') ∧ Q a s'.
Proof. unfold wp. destruct (m s) as [[a s1]|e]; naive_solver. Qed.
End Wp.

#[global] Arguments wp : simpl never.

(** Partial-correctness triples for computations that may stop: [wpe E m Q s] says
    that what [m] returns satisfies [Q] and that it stops only in the ways of [E]. *)

Definition wpe {S A} (E : stop → Prop) (m : ST S A) (Q : A → S → Prop) (s : S) : Prop :=
  match m s with Ok (a, s') => Q a s' | Err e => E e end.

Section Wpe.
Context {S : Type} (E : stop → Prop).
Implicit Types s : S.

Lemma wpe_ret {A} (a : A) (Q : A → S → Prop) s : Q a s → wpe E (mret a) Q s.
Proof. done. Qed.

Lemma wpe_bind {A B} (m : ST S A) (f : A → ST S B) Q s :
  wpe E m (λ a s', wpe E (f a) Q s') s → wpe E (m ≫= f) Q s.
Proof. unfold wpe, mbind, st_bind. by destruct (m s) as [[a s1]|e]. Qed.

Lemma wpe_mono {A} (m : ST S A) (Q Q' : A → S → Prop) s :
  wpe E m Q s → (∀ a s', Q a s' → Q' a s') → wpe E m Q' s.
Proof. unfold wpe. destruct (m s) as [[a s1]|e]; auto. Qed.

Lemma wpe_lift {A} (r : res A) (a : A) (Q : A → S → Prop) s :
  r = Ok a → Q a s → wpe E (st_lift r) Q s.
Proof. by intros ->. Qed.

Lemma wpe_stop {A} e (Q : A → S → Prop) s : E e → wpe E (st_stop e) Q s.
Proof. done. Qed.

Lemma wpe_get (Q : S → S → Prop) s : Q s s → wpe E st_get Q s.
Proof. done. Qed.

Lemma wpe_weaken (E' : stop → Prop) {A} (m : ST S A) (Q : A → S → Prop) s :
  (∀ e, E' e → E e) → wpe E' m Q s → wpe E m Q s.
Proof. unfold wpe. destruct (m s) as [[a s1]|e]; auto. Qed.

(** A computation that is known to return. *)
Lemma wpe_wp {A} (m : ST S A) (Q : A → S → Prop) s : wp m Q s → wpe E m Q s.
Proof. unfold wp, wpe. by destruct (m s) as [[a s1]|e]. Qed.

Lemma wpe_ok {A} (m : ST S A) (Q : A → S → Prop) s a s' : wpe E m Q s → m s = Ok (a, s') → Q a s'.
Proof. unfold wpe. intros H Em. by rewrite Em in H. Qed.
End Wpe.

#[global] Arguments wpe : simpl never.

(** ** Machine integers

    A w-bit value is a [Z]; unsigned arithmetic wraps ([uwrap]), a signed
    result outside its type is undefined behaviour ([chk]), and atomic
    read-modify-write operations on signed integers wrap ([swrap]). *)

Definition uwrap (w z : Z) : Z := z mod 2 ^ w.
Definition swrap (w z : Z) : Z := (z + 2 ^ (w - 1)) mod 2 ^ w - 2 ^ (w - 1).

Definition in_unsigned (w z : Z) : Prop := 0 ≤ z < 2 ^ w.
Definition in_signed (w z : Z) : Prop := - 2 ^ (w - 1) ≤ z < 2 ^ (w - 1).

#[global] Instance in_unsigned_dec w z : Decision (in_unsigned w z).
Proof. unfold in_unsigned. apply _. Defined.
#[global] Instance in_signed_dec w z : Decision (in_signed w z).
Proof. unfold in_signed. apply _. Defined.

Definition chk (w z : Z) : res Z :=
  if decide (in_signed w z) then Ok z else Err Undefined.

Abbreviation u8 := (uwrap 8).
Abbreviation u16 := (uwrap 16).
Abbreviation u32 := (uwrap 32).
Abbreviation u64 := (uwrap 64).
Abbreviation i32 := (chk 32).
Abbreviation i64 := (chk 64).

Lemma chk_ok w z : in_signed w z → chk w z = Ok z.
Proof. intros. unfold chk. by rewrite decide_True. Qed.

Lemma chk_inv w z z' : chk w z = Ok z' → z' = z ∧ in_signed w z.
Proof. unfold chk. case_decide; naive_solver. Qed.

Lemma uwrap_small w z : in_unsigned w z → uwrap w z = z.
Proof. intros. by apply Z.mod_small. Qed.

Lemma uwrap_range w z : 0 ≤ w → in_unsigned w (uwrap w z).
Proof. intros. apply Z.mod_pos_bound. lia. Qed.

Lemma swrap_small w z : 0 < w → in_signed w z → swrap w z = z.
Proof.
  unfold swrap, in_signed. intros Hw Hz.
  assert (2 ^ w = 2 * 2 ^ (w - 1)).
  { replace w with (Z.succ (w - 1)) at 1 by lia. rewrite Z.pow_succ_r; lia. }
  rewrite Z.mod_small; lia.
Qed.

(** ** Automation

    [mrun] symbolically executes a monadic program whose components have
    known results; [mstep] is one unfolding of the two binds; [zbool] moves
    boolean integer tests into propositions. *)

Ltac mstep :=
  unfold mbind, st_bind, res_bind, mret, st_ret, res_ret, st_get, st_put,
    st_modify, st_stop, st_lift in *; cbn beta iota in *.

Ltac zbool :=
  repeat match goal with
  | H : (_ =? _) = true |- _ => apply Z.eqb_eq in H
  | H : (_ =? _) = false |- _ => apply Z.eqb_neq in H
  | H : (_ <? _) = true |- _ => apply Z.ltb_lt in H
  | H : (_ <? _) = false |- _ => apply Z.ltb_ge in H
  | H : (_ <=? _) = true |- _ => apply Z.leb_le in H
  | H : (_ <=? _) = false |- _ => apply Z.leb_gt in H
  | H : negb _ = true |- _ => apply negb_true_iff in H
  | H : negb _ = false |- _ => apply negb_false_iff in H
  | H : (_ && _)%bool = true |- _ => apply andb_true_iff in H; destruct H
  | H : (_ || _)%bool = false |- _ => apply orb_false_iff in H; destruct H
  end.

(** Case analysis on the next integer comparison of the goal. *)
Ltac zcase :=
  match goal with
  | |- context [?a =? ?b] => destruct (Z.eqb_spec a b)
  | |- context [?a <? ?b] => destruct (Z.ltb_spec a b)
  | |- context [?a <=? ?b] => destruct (Z.leb_spec a b)
  end.

Create HintDb aos discriminated.
#[export] Hint Resolve chk_ok uwrap_small uwrap_range : aos.

(** ** Sequences of steps *)

Section Steps.
Context {S : Type} (step : S → S → Prop).

Inductive steps : S → S → Prop :=
| steps_refl s : steps s s
| steps_cons s1 s2 s3 : step s1 s2 → steps s2 s3 → steps s1 s3.

Lemma steps_one s1 s2 : step s1 s2 → steps s1 s2.
Proof. intros H. eapply steps_cons; [exact H|constructor]. Qed.

Lemma steps_app s1 s2 s3 : steps s1 s2 → steps s2 s3 → steps s1 s3.
Proof. induction 1; eauto using steps_cons. Qed.

(** Rule induction: what every step preserves holds of what is reachable. *)
Lemma steps_invariant (I : S → Prop) :
  (∀ s s', I s → step s s' → I s') → ∀ s s', steps s s' → I s → I s'.
Proof. intros HI s s' H. induction H; eauto. Qed.
End Steps.
#[export] Hint Constructors steps : aos.
