(* ===== verification/Options.v ===== *)
(** * Options: the type-safe bit sets of aos/common/util/options.h

    [Options<Owner>] wraps an [unsigned int] whose set bits are the chosen
    options; [Option] is one bit.  The theorems say that the three validity
    checks the queues rely on mean what their comments say, bit by bit. *)

From S2P Require Import Prelude.

(** The [Option] and [Options] classes: both hold an [unsigned int]. *)
Record Option := mkOption { bit_ : Z }.
Record Options := mkOptions { bits_ : Z }.

Definition of_Option (o : Option) : Options := mkOptions (bit_ o).
Definition Option_or (a b : Option) : Options := mkOptions (Z.lor (bit_ a) (bit_ b)).
Definition Option_eqb (a b : Option) : bool := bit_ a =? bit_ b.
Definition opt_and (a : Options) (o : Option) : bool :=
  negb (Z.land (bits_ a) (bit_ o) =? 0).
Definition Options_or (a b : Options) : Options := mkOptions (Z.lor (bits_ a) (bits_ b)).
Definition Options_eqb (a b : Options) : bool := bits_ a =? bits_ b.
Definition printable (a : Options) : Z := bits_ a.

(** [__builtin_popcount] on an [unsigned int]. *)
Definition popcount (z : Z) : Z :=
  Z.of_nat (length (filter (λ i, Z.testbit z i = true) (seqZ 0 32))).

Definition NoOthersSet (a o : Options) : bool :=
  Z.land (bits_ a) (u32 (Z.lnot (bits_ o))) =? 0.
Definition ExactlyOneSet (a o : Options) : bool :=
  popcount (Z.land (bits_ a) (bits_ o)) =? 1.
Definition AllSet (a o : Options) : bool :=
  Z.land (bits_ a) (bits_ o) =? bits_ o.

Definition wf_options (a : Options) : Prop := in_unsigned 32 (bits_ a).

Lemma u32_testbit_high z i : in_unsigned 32 z → 32 ≤ i → Z.testbit z i = false.
Proof.
  intros [H0 H] Hi. destruct (decide (z = 0)) as [->|]; [apply Z.bits_0|].
  apply Z.bits_above_log2; [lia|]. apply Z.log2_lt_pow2; [lia|].
  eapply Z.lt_le_trans; [exact H|]. apply Z.pow_le_mono_r; lia.
Qed.

Lemma u32_lnot_testbit z i :
  0 ≤ i < 32 → Z.testbit (u32 (Z.lnot z)) i = negb (Z.testbit z i).
Proof.
  intros. unfold uwrap. rewrite Z.mod_pow2_bits_low by lia.
  apply Z.lnot_spec. lia.
Qed.

Lemma land_zero_bits a b :
  Z.land a b = 0 ↔ ∀ i, 0 ≤ i → (Z.testbit a i && Z.testbit b i)%bool = false.
Proof.
  split.
  - intros H i _. by rewrite <-Z.land_spec, H, Z.bits_0.
  - intros H. apply Z.bits_inj'. intros i Hi.
    rewrite Z.land_spec, Z.bits_0. by apply H.
Qed.

(** No bit of [a] outside of [o]: what [NoOthersSet] documents. *)
Lemma NoOthersSet_iff a o :
  wf_options a →
  NoOthersSet a o = true ↔
  ∀ i, 0 ≤ i → Z.testbit (bits_ a) i = true → Z.testbit (bits_ o) i = true.
Proof.
  intros Ha. unfold NoOthersSet. rewrite Z.eqb_eq, land_zero_bits.
  split; intros H i Hi.
  - intros Hb. destruct (decide (i < 32)).
    + specialize (H i Hi). rewrite Hb, u32_lnot_testbit in H by lia.
      by apply negb_false_iff in H.
    + by rewrite (u32_testbit_high _ i Ha) in Hb by lia.
  - destruct (Z.testbit (bits_ a) i) eqn:Hb; [cbn|done].
    destruct (decide (i < 32)).
    + rewrite u32_lnot_testbit, H by (done || lia). done.
    + by rewrite (u32_testbit_high _ i Ha) in Hb by lia.
Qed.

Lemma AllSet_iff a o :
  AllSet a o = true ↔
  ∀ i, 0 ≤ i → Z.testbit (bits_ o) i = true → Z.testbit (bits_ a) i = true.
Proof.
  unfold AllSet. rewrite Z.eqb_eq. split.
  - intros H i _ Hb. rewrite <-H, Z.land_spec in Hb. by apply andb_true_iff in Hb as [? _].
  - intros H. apply Z.bits_inj'. intros i Hi. rewrite Z.land_spec.
    destruct (Z.testbit (bits_ o) i) eqn:E; [by rewrite H|].
    by rewrite andb_false_r.
Qed.

Lemma filter_length_one {A} (P : A → Prop) `{∀ x, Decision (P x)} (l : list A) :
  NoDup l → length (filter P l) = 1%nat ↔ ∃ x, x ∈ l ∧ P x ∧ ∀ y, y ∈ l → P y → y = x.
Proof.
  intros Hnd. split.
  - intros Hl. destruct (filter P l) as [|x [|]] eqn:E; try done.
    assert (Hx : x ∈ filter P l) by (rewrite E; set_solver).
    apply list_elem_of_filter in Hx as [? ?]. exists x. split_and!; try done.
    intros y Hy HP. assert (y ∈ filter P l) as Hy' by by apply list_elem_of_filter.
    rewrite E in Hy'. set_solver.
  - intros (x & Hx & HP & Hu).
    assert (Hnf : NoDup (filter P l)) by by apply NoDup_filter.
    assert (Hin : x ∈ filter P l) by by apply list_elem_of_filter.
    destruct (filter P l) as [|a [|b r]] eqn:E; [set_solver|done|].
    assert (a ∈ filter P l ∧ b ∈ filter P l) as [Ha Hb] by (rewrite E; set_solver).
    apply list_elem_of_filter in Ha as [? ?], Hb as [? ?].
    assert (a = b) as -> by (rewrite (Hu a), (Hu b); done).
    apply NoDup_cons in Hnf as [? _]. set_solver.
Qed.

(** One bit of the group [o], and only one, is set in [a]. *)
Lemma ExactlyOneSet_iff a o :
  wf_options a →
  ExactlyOneSet a o = true ↔
  ∃ i, 0 ≤ i < 32 ∧ Z.testbit (bits_ a) i = true ∧ Z.testbit (bits_ o) i = true ∧
    ∀ j, 0 ≤ j < 32 → Z.testbit (bits_ a) j = true →
      Z.testbit (bits_ o) j = true → j = i.
Proof.
  intros Ha. unfold ExactlyOneSet, popcount.
  rewrite Z.eqb_eq.
  transitivity (length (filter (λ i, Z.testbit (Z.land (bits_ a) (bits_ o)) i = true)
    (seqZ 0 32)) = 1%nat); [lia|].
  rewrite filter_length_one by apply NoDup_seqZ.
  setoid_rewrite elem_of_seqZ. setoid_rewrite Z.land_spec.
  setoid_rewrite andb_true_iff.
  split; intros (i & H1 & H2 & H3); exists i; split_and!; naive_solver lia.
Qed.
