(* ===== verification/SharedMem.v ===== *)
(** * The shared memory segment: aos/linux_code/ipc_lib/shared_mem.c and core_lib.c

    One segment is mapped at the same address in every process.  Its first
    bytes are an [aos_shm_core]; everything else is handed out by
    [shm_malloc_aligned], a bump allocator that moves down from the end of
    the segment under [msg_alloc_lock].  Addresses are integers; a lock is
    seen by one task as free, held, or left behind by a dead owner (the
    futex word behind it is the subject of the mutex files). *)

From S2P Require Import Prelude.

(** What a task finds when it takes a mutex. *)
Inductive lock_state : Set := Unlocked | Locked | OwnerDied.

#[global] Instance lock_state_eq_dec : EqDecision lock_state.
Proof. solve_decision. Defined.

(** Taking a mutex: the flag is "the previous owner died".  Relocking a
    mutex the task already holds is the EDEADLK path, a [LOG(FATAL)]. *)
Definition lock_take (l : lock_state) : res (bool * lock_state) :=
  match l with
  | Unlocked => Ok (false, Locked)
  | OwnerDied => Ok (true, Locked)
  | Locked => Err Fatal
  end.

(** [aos_global_pointer]: a lock and a pointer shared by everybody. *)
Record aos_global_pointer := mkGlobal { gp_lock : lock_state; gp_pointer : Z }.

Record timespec := mkTimespec { tv_sec : Z; tv_nsec : Z }.

Record aos_shm_core := mkShmCore {
  creation_condition : Z;
  time_offset : timespec;
  msg_alloc_lock : lock_state;
  msg_alloc : Z;
  queues : aos_global_pointer;
  queue_types : aos_global_pointer }.

Record aos_core := mkCore {
  owner : bool;
  shared_mem : Z;
  core_size : Z;
  mem_struct : Z;
  shm_name : string }.

Definition SHM_START : Z := 0x20000000.
Definition SIZEOFSHMSEG : Z := 4096 * 0x3000.
(** [sizeof( *global_core->mem_struct)] with 8-byte pointers. *)
Definition sizeof_aos_shm_core : Z := 120.

Definition set_msg_alloc (a : Z) (c : aos_shm_core) : aos_shm_core :=
  mkShmCore (creation_condition c) (time_offset c) (msg_alloc_lock c) a
    (queues c) (queue_types c).
Definition set_alloc_lock (l : lock_state) (c : aos_shm_core) : aos_shm_core :=
  mkShmCore (creation_condition c) (time_offset c) l (msg_alloc c)
    (queues c) (queue_types c).
Definition set_queues (g : aos_global_pointer) (c : aos_shm_core) : aos_shm_core :=
  mkShmCore (creation_condition c) (time_offset c) (msg_alloc_lock c) (msg_alloc c)
    g (queue_types c).
Definition set_queue_types (g : aos_global_pointer) (c : aos_shm_core) : aos_shm_core :=
  mkShmCore (creation_condition c) (time_offset c) (msg_alloc_lock c) (msg_alloc c)
    (queues c) g.
Definition set_creation (v : Z) (c : aos_shm_core) : aos_shm_core :=
  mkShmCore v (time_offset c) (msg_alloc_lock c) (msg_alloc c) (queues c) (queue_types c).
Definition set_time_offset (t : timespec) (c : aos_shm_core) : aos_shm_core :=
  mkShmCore (creation_condition c) t (msg_alloc_lock c) (msg_alloc c) (queues c) (queue_types c).

(** [memset]ing a mutex to 0 leaves it unlocked. *)
Definition init_shared_mem_core (c : aos_shm_core) : aos_shm_core :=
  mkShmCore (creation_condition c) (mkTimespec 0 0) Unlocked (msg_alloc c)
    (mkGlobal Unlocked 0) (mkGlobal Unlocked 0).

Definition aos_core_get_mem_usage (g : aos_core) (c : aos_shm_core) : Z :=
  core_size g - (msg_alloc c - mem_struct g).

(** [wait_result] is what the kernel's [FUTEX_WAIT] makes [futex_wait]
    return when the condition was not yet set. *)
Definition aos_core_use_address_as_shared_mem (address sz wait_result : Z)
    (g : aos_core) (c : aos_shm_core) : res (aos_core * aos_shm_core) :=
  let g' := mkCore (owner g) (address + sizeof_aos_shm_core) sz address (shm_name g) in
  if owner g then
    let c1 := set_msg_alloc (address + core_size g') c in
    let c2 := init_shared_mem_core c1 in
    Ok (g', set_creation 1 c2)
  else
    let r := if negb (creation_condition c =? 0) then 0 else wait_result in
    if negb (r =? 0) then Err Fatal else Ok (g', c).

Definition aos_8max (l r : Z) : Z := if r <? l then l else r.

Definition effective_alignment (length alignment : Z) : Z :=
  if length <=? 1 then aos_8max alignment 1
  else if length <=? 2 then aos_8max alignment 2
  else if length <=? 4 then aos_8max alignment 4
  else if length <=? 8 then aos_8max alignment 8
  else if length <=? 16 then aos_8max alignment 16
  else aos_8max alignment (if 64 <=? length then 64 else 16).

(** Moving the pointer below address 0 is pointer arithmetic outside of any
    object.  The result of [mutex_grab] is discarded ([NDEBUG]). *)
Definition shm_malloc_aligned (g : aos_core) (length alignment : Z) : ST aos_shm_core Z :=
  λ c,
  let alignment := effective_alignment length alignment in
  '(_, held) ← lock_take (msg_alloc_lock c);
  let c := set_alloc_lock held c in
  if msg_alloc c - length <? 0 then Err Undefined else
  let c := set_msg_alloc (msg_alloc c - length) c in
  let align_extra := u8 (msg_alloc c mod alignment) in
  let c := set_msg_alloc (msg_alloc c - align_extra) c in
  let msg := msg_alloc c in
  if msg <=? shared_mem g then Err Abort else
  Ok (msg, set_alloc_lock Unlocked c).

Definition shm_malloc (g : aos_core) (length : Z) : ST aos_shm_core Z :=
  shm_malloc_aligned g length 0.

(** ** The allocator's contract *)

Definition is_alignment (a : Z) : Prop := 0 ≤ a < 256.

Lemma effective_alignment_bounds length a :
  is_alignment a → 1 ≤ effective_alignment length a < 256 ∧ a ≤ effective_alignment length a.
Proof.
  unfold is_alignment, effective_alignment, aos_8max. intros.
  repeat case_match; zbool; lia.
Qed.

Lemma align_extra_exact a m : 1 ≤ a < 256 → u8 (m mod a) = m mod a.
Proof.
  intros. apply uwrap_small. pose proof (Z.mod_pos_bound m a). unfold in_unsigned.
  cbn; lia.
Qed.

(** The address the allocator arrives at. *)
Definition alloc_address (top length a : Z) : Z := (top - length) / a * a.

Lemma alloc_address_spec top length a :
  1 ≤ a →
  alloc_address top length a mod a = 0 ∧
  alloc_address top length a + length ≤ top ∧
  top < alloc_address top length a + length + a.
Proof.
  unfold alloc_address. intros. rewrite Z.mod_mul by lia.
  pose proof (Z.div_mod (top - length) a). pose proof (Z.mod_pos_bound (top - length) a).
  lia.
Qed.

Lemma shm_malloc_aligned_run g length a c :
  is_alignment a → msg_alloc_lock c ≠ Locked → length ≤ msg_alloc c →
  let r := alloc_address (msg_alloc c) length (effective_alignment length a) in
  shm_malloc_aligned g length a c =
    if r <=? shared_mem g then Err Abort
    else Ok (r, set_alloc_lock Unlocked (set_msg_alloc r c)).
Proof.
  intros Ha Hl Hlen r. destruct (effective_alignment_bounds length a Ha).
  unfold shm_malloc_aligned.
  assert (Hr : msg_alloc c - length
    - u8 ((msg_alloc c - length) mod effective_alignment length a) = r).
  { rewrite align_extra_exact by lia. subst r. unfold alloc_address.
    pose proof (Z.div_mod (msg_alloc c - length) (effective_alignment length a)). lia. }
  destruct (msg_alloc_lock c) eqn:E; try done; cbn; rewrite Hr;
    (destruct (Z.ltb_spec (msg_alloc c - length) 0); [lia|]);
    by destruct (r <=? shared_mem g).
Qed.

(** [n] allocations in a row, as the constructors of queues make them. *)
Fixpoint shm_malloc_list (g : aos_core) (lengths : list Z) : ST aos_shm_core (list Z) :=
  match lengths with
  | [] => mret []
  | len :: rest =>
      p ← shm_malloc g len;
      ps ← shm_malloc_list g rest;
      mret (p :: ps)
  end.

Lemma shm_malloc_ok g len c p c' :
  len ≤ msg_alloc c → shm_malloc g len c = Ok (p, c') →
  shared_mem g < p ∧ p + len ≤ msg_alloc c < p + len + 256 ∧
  p mod effective_alignment len 0 = 0 ∧
  c' = set_alloc_lock Unlocked (set_msg_alloc p c).
Proof.
  intros Hlen H. unfold shm_malloc in H.
  assert (msg_alloc_lock c ≠ Locked) as Hl.
  { intros E. unfold shm_malloc_aligned in H. by rewrite E in H. }
  rewrite shm_malloc_aligned_run in H by (done || (unfold is_alignment; lia) || lia).
  destruct (effective_alignment_bounds len 0) as [? _]; [unfold is_alignment; lia|].
  destruct (alloc_address_spec (msg_alloc c) len (effective_alignment len 0))
    as (? & ? & ?); [lia|].
  case_match eqn:E; [done|]. zbool. simplify_eq. split_and!; done || lia.
Qed.

(** Regions handed out one after the other lie below each other. *)
Inductive descending : Z → list (Z * Z) → Prop :=
| desc_nil top : descending top []
| desc_cons top p len rest :
    p + len ≤ top → descending p rest → descending top ((p, len) :: rest).

Lemma shm_malloc_list_descending g lens c ps c' :
  Forall (λ l, 0 ≤ l) lens → foldr Z.add 0 lens + 255 * Z.of_nat (length lens) ≤ msg_alloc c →
  shm_malloc_list g lens c = Ok (ps, c') →
  descending (msg_alloc c) (zip ps lens) ∧ Forall (λ p, shared_mem g < p) ps ∧
  length ps = length lens ∧ msg_alloc c' ≤ msg_alloc c.
Proof.
  revert c ps. induction lens as [|len lens IH]; intros c ps Hpos Hroom H.
  - apply st_ret_ok in H as [-> ->]. split_and!; [constructor|constructor|done|lia].
  - apply Forall_cons in Hpos as [Hlen Hpos]. cbn [shm_malloc_list] in H.
    apply st_bind_ok in H as (p & c1 & Hp & H).
    apply st_bind_ok in H as (ps' & c2 & Hps & H).
    apply st_ret_ok in H as [-> ->]. cbn [foldr length] in Hroom.
    assert (0 ≤ foldr Z.add 0 lens) by (clear -Hpos; induction Hpos; cbn; lia).
    apply shm_malloc_ok in Hp as (? & ? & _ & ->); [|lia].
    edestruct IH as (? & ? & ? & ?); [exact Hpos| |exact Hps|]; [cbn; lia|].
    cbn in *. split_and!; [constructor; [lia|done]|by constructor|lia|lia].
Qed.

Lemma descending_below top l p len : descending top l → (p, len) ∈ l →
  Forall (λ q, 0 ≤ q.2) l → p + len ≤ top.
Proof.
  induction 1 as [|top' q qlen rest Hq Hd IH]; intros Hin Hpos; [set_solver|].
  apply Forall_cons in Hpos as [? ?]. cbn in *.
  apply elem_of_cons in Hin as [[= -> ->]|Hin]; [lia|].
  specialize (IH Hin ltac:(done)). lia.
Qed.
