(* ===== verification/Ring.v ===== *)
(** * Circular slices of an array

    [slice d L s n] is the list of the [n] elements of [d] met when walking
    from index [s], wrapping at [L].  It is what the ring buffers of the
    queues contain, and it carries the index arithmetic of reading, writing
    and overwriting them. *)

From S2P Require Import Prelude.

Definition at_index (d : list Z) (i : Z) : Z := default 0 (d !! Z.to_nat i).

Definition slice (d : list Z) (L s : Z) (n : nat) : list Z :=
  (λ k : nat, at_index d ((s + Z.of_nat k) mod L)) <$> seq 0 n.

Lemma slice_length d L s n : length (slice d L s n) = n.
Proof. unfold slice. by rewrite length_fmap, length_seq. Qed.

Lemma slice_lookup d L s n k :
  (k < n)%nat → slice d L s n !! k = Some (at_index d ((s + Z.of_nat k) mod L)).
Proof.
  intros Hk. unfold slice. rewrite list_lookup_fmap.
  rewrite (lookup_seq_lt 0 n k Hk). done.
Qed.

Lemma slice_eq d d' L s s' n :
  (∀ k, (k < n)%nat →
     at_index d ((s + Z.of_nat k) mod L) = at_index d' ((s' + Z.of_nat k) mod L)) →
  slice d L s n = slice d' L s' n.
Proof.
  intros H. apply list_eq_same_length with n; [by rewrite slice_length..|].
  intros i x y Hi. rewrite !slice_lookup by done. intros [= <-] [= <-]. by apply H.
Qed.

(** The oldest element is in front, the rest is the slice one further. *)
Lemma slice_cons d L s n :
  0 < L → slice d L s (S n) = at_index d (s mod L) :: slice d L ((s + 1) mod L) n.
Proof.
  intros HL. unfold slice. rewrite <-cons_seq, fmap_cons. f_equal.
  - f_equal. by rewrite Z.add_0_r.
  - rewrite <-fmap_S_seq, <-list_fmap_compose. apply list_fmap_ext.
    intros i k _. cbn. f_equal. rewrite Zplus_mod_idemp_l. f_equal. lia.
Qed.

(** The newest one is at the end. *)
Lemma slice_snoc d L s n :
  slice d L s (S n) = slice d L s n ++ [at_index d ((s + Z.of_nat n) mod L)].
Proof. unfold slice. rewrite seq_S, fmap_app. done. Qed.

Lemma mod_offset_inj L s a b :
  0 ≤ a < L → 0 ≤ b < L → (s + a) mod L = (s + b) mod L → a = b.
Proof.
  intros Ha Hb H.
  pose proof (Z.div_mod (s + a) L ltac:(lia)). pose proof (Z.div_mod (s + b) L ltac:(lia)).
  rewrite H in *. assert ((s + a) / L = (s + b) / L) by nia. lia.
Qed.

(** Storing into the slot behind the slice leaves the slice alone. *)
Lemma slice_insert_beyond d L s n (v : Z) :
  0 < L → Z.of_nat n < L →
  slice (<[Z.to_nat ((s + Z.of_nat n) mod L) := v]> d) L s n = slice d L s n.
Proof.
  intros HL Hn. apply slice_eq. intros k Hk. unfold at_index.
  rewrite list_lookup_insert_ne; [done|]. intros E.
  pose proof (Z.mod_pos_bound (s + Z.of_nat n) L HL).
  pose proof (Z.mod_pos_bound (s + Z.of_nat k) L HL).
  apply Z2Nat.inj in E; [|lia..]. apply mod_offset_inj in E; lia.
Qed.

Lemma at_index_insert d i v :
  0 ≤ i < Z.of_nat (length d) → at_index (<[Z.to_nat i := v]> d) i = v.
Proof.
  intros Hi. unfold at_index. rewrite list_lookup_insert_eq; [done|lia].
Qed.

(** Appending: one store behind the slice makes the slice one longer. *)
Lemma slice_push d L s n v :
  0 < L → Z.of_nat n < L → Z.of_nat (length d) = L →
  slice (<[Z.to_nat ((s + Z.of_nat n) mod L) := v]> d) L s (S n) = slice d L s n ++ [v].
Proof.
  intros HL Hn Hd. rewrite slice_snoc, slice_insert_beyond by done.
  rewrite at_index_insert; [done|]. rewrite Hd. by apply Z.mod_pos_bound.
Qed.

(** How many elements a start and an end delimit. *)
Definition ring_count (L s e : Z) : nat := Z.to_nat ((e - s) mod L).

Lemma ring_count_bound L s e : 0 < L → Z.of_nat (ring_count L s e) < L.
Proof. intros. unfold ring_count. pose proof (Z.mod_pos_bound (e - s) L). lia. Qed.

Lemma ring_end L s e : 0 ≤ e < L → (s + Z.of_nat (ring_count L s e)) mod L = e.
Proof.
  intros. unfold ring_count. pose proof (Z.mod_pos_bound (e - s) L).
  rewrite Z2Nat.id by lia. rewrite Zplus_mod_idemp_r.
  replace (s + (e - s)) with e by lia. by apply Z.mod_small.
Qed.

Lemma ring_count_of_end L s n :
  0 < L → Z.of_nat n < L → ring_count L s ((s + Z.of_nat n) mod L) = n.
Proof.
  intros. unfold ring_count. rewrite Zminus_mod_idemp_l.
  replace (s + Z.of_nat n - s) with (Z.of_nat n) by lia.
  rewrite Z.mod_small by lia. lia.
Qed.

Lemma ring_count_0 L s e :
  0 ≤ s < L → 0 ≤ e < L → ring_count L s e = 0%nat ↔ s = e.
Proof.
  intros Hs He. split.
  - intros Hc. pose proof (ring_end L s e He) as Hend. rewrite Hc in Hend.
    rewrite Z.add_0_r, Z.mod_small in Hend; done.
  - intros ->. unfold ring_count. rewrite Z.sub_diag. done.
Qed.

(** The index arithmetic behind the two ends. *)
Lemma ring_full L s e :
  0 ≤ s < L → 0 ≤ e < L →
  (e + 1) mod L = s ↔ Z.of_nat (ring_count L s e) = L - 1.
Proof.
  intros Hs He. split.
  - intros <-. unfold ring_count. rewrite Zminus_mod_idemp_r.
    replace (e - (e + 1)) with (L - 1 + (-1) * L) by lia.
    rewrite Z_mod_plus_full, Z.mod_small by lia. lia.
  - intros Hc. rewrite <-(ring_end L s e He), Hc, Zplus_mod_idemp_l.
    replace (s + (L - 1) + 1) with (s + 1 * L) by lia.
    rewrite Z_mod_plus_full, Z.mod_small by lia. done.
Qed.

Lemma ring_count_push L s e :
  0 ≤ s < L → 0 ≤ e < L → (e + 1) mod L ≠ s →
  ring_count L s ((e + 1) mod L) = S (ring_count L s e).
Proof.
  intros Hs He Hne. pose proof (ring_count_bound L s e ltac:(lia)).
  assert (Z.of_nat (ring_count L s e) ≠ L - 1) by by rewrite <-ring_full.
  rewrite <-(ring_end L s e He) at 1. rewrite Zplus_mod_idemp_l.
  replace (s + Z.of_nat (ring_count L s e) + 1)
    with (s + Z.of_nat (S (ring_count L s e))) by lia.
  apply ring_count_of_end; lia.
Qed.

Lemma ring_count_pop L s e n :
  0 ≤ s < L → 0 ≤ e < L → ring_count L s e = S n → ring_count L ((s + 1) mod L) e = n.
Proof.
  intros Hs He Hc. pose proof (ring_count_bound L s e ltac:(lia)).
  rewrite <-(ring_end L s e He), Hc.
  replace ((s + Z.of_nat (S n)) mod L) with (((s + 1) mod L + Z.of_nat n) mod L).
  - apply ring_count_of_end; lia.
  - rewrite Zplus_mod_idemp_l. f_equal. lia.
Qed.

(** Walking back from the end. *)
Lemma ring_back L s e k :
  0 ≤ s < L → 0 ≤ e < L → (k ≤ ring_count L s e)%nat →
  (e - Z.of_nat k) mod L = (s + Z.of_nat (ring_count L s e - k)) mod L.
Proof.
  intros Hs He Hk. rewrite <-(ring_end L s e He) at 1. rewrite Zminus_mod_idemp_l.
  f_equal. lia.
Qed.

#[export] Hint Resolve slice_length ring_count_bound : aos.
