(* ===== verification/RawQueue.v ===== *)
(** * RawQueue: aos/linux_code/ipc_lib/queue.cc and queue.h

    A queue is a ring of message pointers protected by [data_lock_], a pool
    of messages of which the unused ones are chained into the list
    [free_messages_], and one reference count per message.  All of it lives
    in shared memory, so the model is one store ([shm]) that holds every
    queue object and every message header by address; the member functions
    are computations on that store.  This file translates the operations;
    their theorems are in the files that follow it.

    A [Condition::Wait] releases [data_lock_], sleeps and takes the lock
    again, after which both loops of the source re-evaluate their condition
    from the member variables: waiting is therefore a result ([WWait],
    [RWait]) and resuming is running the operation again.  A
    [Condition::Broadcast] is recorded in [signals].  The compare-and-swap
    loops on [free_messages_] run here without interference; their
    interleavings are the subject of [FreeList].  The build defines
    [NDEBUG], so [assert]s do nothing: the facts they state are theorems. *)

From S2P Require Import Prelude Options SharedMem.

(** ** Data *)

Record MessageHeader := mkHeader { next : Z; ref_count_ : Z }.

Record RawQueue := mkQueue {
  name_ : string;
  length_ : Z;
  hash_ : Z;
  queue_length_ : Z;
  next_ : Z;
  recycle_ : Z;
  data_lock_ : lock_state;
  data_length_ : Z;
  data_start_ : Z;
  data_end_ : Z;
  messages_ : Z;
  data_ : list Z;
  msg_length_ : Z;
  free_messages_ : Z;
  writable_start_ : bool;
  readable_waiting_ : bool }.

Inductive cond : Set := Readable | Writable.

#[global] Instance cond_eq_dec : EqDecision cond.
Proof. solve_decision. Defined.

(** Everything that lives in (or describes) the shared segment. *)
Record shm := mkShm {
  global_core : aos_core;
  shm_core : aos_shm_core;
  queue_objects : gmap Z RawQueue;
  headers : gmap Z MessageHeader;
  signals : list (Z * cond) }.

Abbreviation M := (ST shm).

Definition kPeek : Option := mkOption 0x0001.
Definition kFromEnd : Option := mkOption 0x0002.
Definition kNonBlock : Option := mkOption 0x0004.
Definition kBlock : Option := mkOption 0x0008.
Definition kOverride : Option := mkOption 0x0010.
Definition kExtraMessages : Z := 20.

(** Layout with 8-byte pointers. *)
Definition sizeof_MessageHeader : Z := 16.
Definition sizeof_RawQueue : Z := 144.

Section Setters.
Variable q : RawQueue.
Definition set_next (v : Z) := mkQueue (name_ q) (length_ q) (hash_ q) (queue_length_ q)
  v (recycle_ q) (data_lock_ q) (data_length_ q) (data_start_ q) (data_end_ q) (messages_ q)
  (data_ q) (msg_length_ q) (free_messages_ q) (writable_start_ q) (readable_waiting_ q).
Definition set_recycle (v : Z) := mkQueue (name_ q) (length_ q) (hash_ q) (queue_length_ q)
  (next_ q) v (data_lock_ q) (data_length_ q) (data_start_ q) (data_end_ q) (messages_ q)
  (data_ q) (msg_length_ q) (free_messages_ q) (writable_start_ q) (readable_waiting_ q).
Definition set_lock (v : lock_state) := mkQueue (name_ q) (length_ q) (hash_ q) (queue_length_ q)
  (next_ q) (recycle_ q) v (data_length_ q) (data_start_ q) (data_end_ q) (messages_ q)
  (data_ q) (msg_length_ q) (free_messages_ q) (writable_start_ q) (readable_waiting_ q).
Definition set_start (v : Z) := mkQueue (name_ q) (length_ q) (hash_ q) (queue_length_ q)
  (next_ q) (recycle_ q) (data_lock_ q) (data_length_ q) v (data_end_ q) (messages_ q)
  (data_ q) (msg_length_ q) (free_messages_ q) (writable_start_ q) (readable_waiting_ q).
Definition set_ring (d : list Z) (e m : Z) := mkQueue (name_ q) (length_ q) (hash_ q)
  (queue_length_ q) (next_ q) (recycle_ q) (data_lock_ q) (data_length_ q) (data_start_ q)
  e m d (msg_length_ q) (free_messages_ q) (writable_start_ q) (readable_waiting_ q).
Definition set_free (v : Z) := mkQueue (name_ q) (length_ q) (hash_ q) (queue_length_ q)
  (next_ q) (recycle_ q) (data_lock_ q) (data_length_ q) (data_start_ q) (data_end_ q)
  (messages_ q) (data_ q) (msg_length_ q) v (writable_start_ q) (readable_waiting_ q).
Definition set_writable_start (v : bool) := mkQueue (name_ q) (length_ q) (hash_ q)
  (queue_length_ q) (next_ q) (recycle_ q) (data_lock_ q) (data_length_ q) (data_start_ q)
  (data_end_ q) (messages_ q) (data_ q) (msg_length_ q) (free_messages_ q) v
  (readable_waiting_ q).
Definition set_readable_waiting (v : bool) := mkQueue (name_ q) (length_ q) (hash_ q)
  (queue_length_ q) (next_ q) (recycle_ q) (data_lock_ q) (data_length_ q) (data_start_ q)
  (data_end_ q) (messages_ q) (data_ q) (msg_length_ q) (free_messages_ q)
  (writable_start_ q) v.
End Setters.

(** ** Access to the store *)

Definition get_queue (this : Z) : M RawQueue := λ s,
  match queue_objects s !! this with Some q => Ok (q, s) | None => Err Undefined end.

Definition upd_queue (this : Z) (f : RawQueue → RawQueue) : M unit := λ s,
  match queue_objects s !! this with
  | Some q => Ok (tt, mkShm (global_core s) (shm_core s) (<[this := f q]> (queue_objects s))
                        (headers s) (signals s))
  | None => Err Undefined
  end.

Definition new_queue (this : Z) (q : RawQueue) : M unit := λ s,
  Ok (tt, mkShm (global_core s) (shm_core s) (<[this := q]> (queue_objects s))
            (headers s) (signals s)).

Definition get_header (h : Z) : M MessageHeader := λ s,
  match headers s !! h with Some x => Ok (x, s) | None => Err Undefined end.

Definition put_header (h : Z) (x : MessageHeader) : M unit := λ s,
  Ok (tt, mkShm (global_core s) (shm_core s) (queue_objects s) (<[h := x]> (headers s))
            (signals s)).

(** Storing through a header pointer that does not exist is undefined. *)
Definition upd_header (h : Z) (f : MessageHeader → MessageHeader) : M unit :=
  x ← get_header h; put_header h (f x).

Definition broadcast (this : Z) (c : cond) : M unit := λ s,
  Ok (tt, mkShm (global_core s) (shm_core s) (queue_objects s) (headers s)
            (signals s ++ [(this, c)])).

Definition malloc (len : Z) : M Z := λ s,
  match shm_malloc (global_core s) len (shm_core s) with
  | Ok (p, c) => Ok (p, mkShm (global_core s) c (queue_objects s) (headers s) (signals s))
  | Err e => Err e
  end.

Definition get_queues : M aos_global_pointer := λ s, Ok (queues (shm_core s), s).
Definition put_queues (g : aos_global_pointer) : M unit := λ s,
  Ok (tt, mkShm (global_core s) (set_queues g (shm_core s)) (queue_objects s)
            (headers s) (signals s)).

(** [data_[i]] *)
Definition data_at (q : RawQueue) (i : Z) : res Z :=
  if i <? 0 then Err Undefined else of_option Undefined (data_ q !! Z.to_nat i).

(** ** Message headers *)

Definition MessageHeader_Get (msg : Z) : Z := msg - sizeof_MessageHeader.

(** Atomic arithmetic wraps. *)
Definition ref_count_sub (h : MessageHeader) : MessageHeader :=
  mkHeader (next h) (swrap 32 (ref_count_ h - 1)).
Definition ref_count_add (h : MessageHeader) : MessageHeader :=
  mkHeader (next h) (swrap 32 (ref_count_ h + 1)).
Definition set_ref_count (v : Z) (h : MessageHeader) : MessageHeader :=
  mkHeader (next h) v.

(** ** Indices *)

Definition index_add1 (q : RawQueue) (index : Z) : res Z :=
  r ← i32 (index + 1);
  if r =? data_length_ q then Ok 0 else Ok r.

Definition is_readable (q : RawQueue) : bool := negb (data_end_ q =? data_start_ q).
Definition is_writable (q : RawQueue) : res bool :=
  r ← index_add1 q (data_end_ q);
  Ok (negb (r =? data_start_ q)).

Definition LastMessageIndex (q : RawQueue) : res Z :=
  pos ← i32 (data_end_ q - 1);
  if pos <? 0 then i32 (data_length_ q - 1) else Ok pos.

(** ** Reference counts and the pool *)

Definition IncrementMessageReferenceCount (msg : Z) : M unit :=
  upd_header (MessageHeader_Get msg) ref_count_add.

Definition GetMessage (this : Z) : M Z :=
  q ← get_queue this;
  let header := free_messages_ q in
  if header =? 0 then st_stop Fatal else
  h ← get_header header;
  _ ← upd_queue this (λ q, set_free q (next h));
  _ ← upd_header header (set_ref_count 1);
  mret (header + sizeof_MessageHeader).

(** The compare-and-swap that puts [header] at the front of the free list. *)
Definition push_free (this header : Z) : M unit :=
  q ← get_queue this;
  _ ← upd_header header (λ h, mkHeader (free_messages_ q) (ref_count_ h));
  upd_queue this (λ q, set_free q header).

(** ** Locking [data_lock_] through an [IPCMutexLocker] that checks [owner_died] *)

Definition lock_data (this : Z) : M unit :=
  q ← get_queue this;
  '(died, l) ← st_lift (lock_take (data_lock_ q));
  _ ← upd_queue this (λ q, set_lock q l);
  if (died : bool) then st_stop Fatal else mret tt.

Definition unlock_data (this : Z) : M unit := upd_queue this (λ q, set_lock q Unlocked).

(** ** Writing *)

Inductive wres : Set := WDone (ok : bool) | WWait.

(** How the loop that looks for room ends. *)
Inductive room : Set := Room (new_end : Z) | Refused | MustWait.

(** [DoFreeMessage] of a queue with a recycle queue writes to that queue,
    which can free one of its own messages: the four functions are mutually
    recursive.  [dec] is [DecrementMessageReferenceCount], tied below. *)
Section Recycle.
Variable dec : Z → Z → M unit.

Fixpoint write_room (n : nat) (this msg : Z) (options : Options) : M room :=
  match n with
  | O => st_stop Fuel
  | S n =>
      q ← get_queue this;
      new_end ← st_lift (index_add1 q (data_end_ q));
      if negb (new_end =? data_start_ q) then mret (Room new_end)
      else if opt_and options kNonBlock then
        _ ← dec this msg;
        mret Refused
      else if opt_and options kOverride then
        oldest ← st_lift (data_at q (data_start_ q));
        _ ← dec this oldest;
        q ← get_queue this;
        start ← st_lift (index_add1 q (data_start_ q));
        _ ← upd_queue this (λ q, set_start q start);
        write_room n this msg options
      else mret MustWait
  end.

(** [data_[data_end_] = msg; ++messages_; data_end_ = new_end;] *)
Definition write_slot (this msg new_end : Z) : M unit :=
  q ← get_queue this;
  _ ← st_lift (data_at q (data_end_ q));
  m ← st_lift (i32 (messages_ q + 1));
  upd_queue this (λ q, set_ring q (<[Z.to_nat (data_end_ q) := msg]> (data_ q)) new_end m).

Definition DoWriteMessage_ (this msg : Z) (options : Options) : M wres :=
  _ ← lock_data this;
  r ← write_room 2 this msg options;
  match r with
  | MustWait => _ ← unlock_data this; mret WWait
  | Refused => _ ← unlock_data this; mret (WDone false)
  | Room new_end =>
      _ ← write_slot this msg new_end;
      q ← get_queue this;
      let signal_readable := readable_waiting_ q in
      _ ← upd_queue this (λ q, set_readable_waiting q false);
      _ ← unlock_data this;
      _ ← (if signal_readable then broadcast this Readable else mret tt);
      mret (WDone true)
  end.

Definition kWriteFailureOptions : Options :=
  Options_or (Option_or kNonBlock kBlock) (of_Option kOverride).

Definition WriteMessage_ (this msg : Z) (options : Options) : M wres :=
  if negb (NoOthersSet options kWriteFailureOptions) then st_stop Fatal
  else if negb (ExactlyOneSet options kWriteFailureOptions) then st_stop Fatal
  else DoWriteMessage_ this msg options.

(** [recycle_->WriteMessage(msg, kOverride)] never waits; its result is
    tested and [false] aborts. *)
Definition DoFreeMessage_ (this msg : Z) : M unit :=
  q ← get_queue this;
  let header := MessageHeader_Get msg in
  header ←
    (if negb (recycle_ q =? 0) then
       new_msg ← GetMessage (recycle_ q);
       if new_msg =? 0 then mret header else
       _ ← upd_header header ref_count_add;
       w ← WriteMessage_ (recycle_ q) msg (of_Option kOverride);
       match w with
       | WDone true => mret (MessageHeader_Get new_msg)
       | _ => st_stop Abort
       end
     else mret header);
  push_free this header.

Definition DecrementMessageReferenceCount_ (this msg : Z) : M unit :=
  let header := MessageHeader_Get msg in
  _ ← upd_header header ref_count_sub;
  h ← get_header header;
  if ref_count_ h =? 0 then DoFreeMessage_ this msg else mret tt.
End Recycle.

(** [fuel] bounds how many recycle queues one free goes through. *)
Fixpoint DecrementMessageReferenceCount (fuel : nat) (this msg : Z) : M unit :=
  match fuel with
  | O => st_stop Fuel
  | S fuel => DecrementMessageReferenceCount_ (DecrementMessageReferenceCount fuel) this msg
  end.

Definition DoFreeMessage (fuel : nat) := DoFreeMessage_ (DecrementMessageReferenceCount fuel).
Definition DoWriteMessage (fuel : nat) := DoWriteMessage_ (DecrementMessageReferenceCount fuel).
Definition WriteMessage (fuel : nat) := WriteMessage_ (DecrementMessageReferenceCount fuel).

Definition FreeMessage (fuel : nat) (this msg : Z) : M unit :=
  if negb (msg =? 0) then DecrementMessageReferenceCount fuel this msg else mret tt.

(** ** Reading *)

Inductive rres : Set := RDone (msg : Z) | RWait.

(** [ReadCommonStart]: [index] is [*index] when one was passed. *)
Inductive rstart : Set := Start | Nothing | Wait.

Definition read_blocked (q : RawQueue) (index : option Z) : bool :=
  (data_start_ q =? data_end_ q)
  || match index with Some i => messages_ q <=? i | None => false end.

Definition ReadCommonStart (this : Z) (options : Options) (index : option Z) : M rstart :=
  q ← get_queue this;
  if read_blocked q index then
    if opt_and options kNonBlock then mret Nothing
    else _ ← upd_queue this (λ q, set_readable_waiting q true); mret Wait
  else
    w ← st_lift (is_writable q);
    _ ← upd_queue this (λ q, set_writable_start q w);
    mret Start.

Definition ReadCommonEnd (this : Z) : M unit :=
  q ← get_queue this;
  w ← st_lift (is_writable q);
  if (w : bool) then
    if negb (writable_start_ q) then broadcast this Writable else mret tt
  else mret tt.

(** [data_start_ = index_add1(data_start_);], returning the old value. *)
Definition advance_start (this : Z) : M Z :=
  q ← get_queue this;
  let pos := data_start_ q in
  start ← st_lift (index_add1 q pos);
  _ ← upd_queue this (λ q, set_start q start);
  mret pos.

(** The loop of [kFromEnd] without [kPeek]: pull out and release every
    message but the last, which is returned. *)
Fixpoint read_drain (n fuel : nat) (this : Z) : M Z :=
  match n with
  | O => st_stop Fuel
  | S n =>
      pos ← advance_start this;
      q ← get_queue this;
      m ← st_lift (data_at q pos);
      if data_start_ q =? data_end_ q then mret m
      else
        _ ← DecrementMessageReferenceCount fuel this m;
        read_drain n fuel this
  end.

Definition DoReadMessage (fuel : nat) (this : Z) (options : Options) : M rres :=
  _ ← lock_data this;
  r ← ReadCommonStart this options None;
  match r with
  | Nothing => _ ← unlock_data this; mret (RDone 0)
  | Wait => _ ← unlock_data this; mret RWait
  | Start =>
      q ← get_queue this;
      msg ←
        (if opt_and options kFromEnd then
           if opt_and options kPeek then
             i ← st_lift (LastMessageIndex q);
             m ← st_lift (data_at q i);
             _ ← IncrementMessageReferenceCount m;
             mret m
           else read_drain (Z.to_nat (data_length_ q)) fuel this
         else
           m ← st_lift (data_at q (data_start_ q));
           _ ← (if opt_and options kPeek then IncrementMessageReferenceCount m
                else _ ← advance_start this; mret tt);
           mret m);
      _ ← ReadCommonEnd this;
      _ ← unlock_data this;
      mret (RDone msg)
  end.

(** Where a read with an index starts, and the index it leaves. *)
Definition index_position (q : RawQueue) (options : Options) (index : Z) : res (Z * Z) :=
  if opt_and options kFromEnd then
    i ← LastMessageIndex q;
    Ok (i, messages_ q)
  else
    unread_messages ← i32 (messages_ q - index);
    current_messages ← i32 (data_end_ q - data_start_ q);
    current_messages ← (if current_messages <? 0
                        then i32 (current_messages + data_length_ q)
                        else Ok current_messages);
    here ←
      (if current_messages <? unread_messages then
         index' ← i32 (messages_ q - current_messages);
         Ok (data_start_ q, index')
       else
         my_start ← i32 (data_end_ q - unread_messages);
         my_start ← (if my_start <? 0 then i32 (my_start + data_length_ q) else Ok my_start);
         Ok (my_start, index));
    let '(my_start, index) := (here : Z * Z) in
    if negb (opt_and options kPeek)
    then index' ← i32 (index + 1); Ok (my_start, index')
    else Ok (my_start, index).

Definition DoReadMessageIndex (this : Z) (options : Options) (index : Z) : M (rres * Z) :=
  _ ← lock_data this;
  r ← ReadCommonStart this options (Some index);
  match r with
  | Nothing => _ ← unlock_data this; mret (RDone 0, index)
  | Wait => _ ← unlock_data this; mret (RWait, index)
  | Start =>
      q ← get_queue this;
      '(pos, index') ← st_lift (index_position q options index);
      msg ← st_lift (data_at q pos);
      _ ← IncrementMessageReferenceCount msg;
      _ ← ReadCommonEnd this;
      _ ← unlock_data this;
      mret (RDone msg, index')
  end.

Definition kValidReadOptions : Options :=
  Options_or (Options_or (Option_or kPeek kFromEnd) (of_Option kNonBlock)) (of_Option kBlock).
Definition kBlockChoices : Options := Option_or kNonBlock kBlock.
Definition kFromEndAndPeek : Options := Option_or kFromEnd kPeek.

Definition CheckReadOptions (options : Options) : res unit :=
  if negb (NoOthersSet options kValidReadOptions) then Err Fatal
  else if negb (ExactlyOneSet options kBlockChoices) then Err Fatal
  else Ok tt.

Definition ReadMessage (fuel : nat) (this : Z) (options : Options) : M rres :=
  _ ← st_lift (CheckReadOptions options);
  DoReadMessage fuel this options.

Definition ReadMessageIndex (this : Z) (options : Options) (index : Z) : M (rres * Z) :=
  _ ← st_lift (CheckReadOptions options);
  if AllSet options kFromEndAndPeek then st_stop Fatal
  else DoReadMessageIndex this options index.

(** [FreeMessages]: the length of the free list. *)
Fixpoint count_free (n : nat) (header : Z) (hs : gmap Z MessageHeader) : res Z :=
  match n with
  | O => Err Fuel
  | S n =>
      if header =? 0 then Ok 0 else
      h ← of_option Undefined (hs !! header);
      r ← count_free n (next h) hs;
      Ok (r + 1)
  end.

Definition FreeMessages (this : Z) : M Z :=
  q ← get_queue this;
  s ← st_get;
  st_lift (count_free (S (size (headers s))) (free_messages_ q) (headers s)).

(** ** Creating and finding queues *)

Fixpoint make_messages (n : nat) (msg_length previous : Z) : M Z :=
  match n with
  | O => mret previous
  | S n =>
      message ← malloc msg_length;
      _ ← put_header message (mkHeader previous 0);
      make_messages n msg_length message
  end.

(** The constructor; [this] is the address placement new was given. *)
Definition RawQueue_construct (this : Z) (name : string) (length hash queue_length : Z) : M unit :=
  if queue_length <? 1 then st_stop Fatal else
  _ ← malloc (Z.of_nat (String.length name) + 1);
  data_length ← st_lift (i32 (queue_length + 1));
  _ ← malloc (8 * data_length);
  let msg_length := u64 (length + sizeof_MessageHeader) in
  total ← st_lift (i32 (queue_length + kExtraMessages));
  free ← make_messages (Z.to_nat total) msg_length 0;
  new_queue this (mkQueue name length hash queue_length 0 0 Unlocked data_length 0 0 0
    (replicate (Z.to_nat data_length) 0) msg_length free false false).

Definition queue_matches (q : RawQueue) (name : string) (length hash queue_length : Z) : bool :=
  bool_decide (name_ q = name) && (length_ q =? length) && (hash_ q =? hash)
  && (queue_length_ q =? queue_length).

Inductive found : Set := Found (q : Z) | NotFound (last : Z).

(** The scan of the linked list of queues from [current] (not NULL). *)
Fixpoint fetch_scan (n : nat) (current : Z) (name : string)
    (length hash queue_length : Z) : M found :=
  match n with
  | O => st_stop Fuel
  | S n =>
      q ← get_queue current;
      if queue_matches q name length hash queue_length then mret (Found current)
      else if next_ q =? 0 then mret (NotFound current)
      else fetch_scan n (next_ q) name length hash queue_length
  end.

Definition Fetch (name : string) (length hash queue_length : Z) : M Z :=
  g ← get_queues;
  '(died, l) ← st_lift (lock_take (gp_lock g));
  _ ← put_queues (mkGlobal l (gp_pointer g));
  if (died : bool) then st_stop Fatal else
  s ← st_get;
  r ← (if negb (gp_pointer g =? 0)
       then fetch_scan (S (size (queue_objects s))) (gp_pointer g) name length hash queue_length
       else mret (NotFound 0));
  match r with
  | Found current =>
      _ ← put_queues (mkGlobal Unlocked (gp_pointer g));
      mret current
  | NotFound current =>
      r ← malloc sizeof_RawQueue;
      _ ← RawQueue_construct r name length hash queue_length;
      _ ← (if current =? 0 then put_queues (mkGlobal Unlocked r)
           else _ ← upd_queue current (λ q, set_next q r);
                put_queues (mkGlobal Unlocked (gp_pointer g)));
      mret r
  end.

Definition Fetch_recycle (name : string) (length hash queue_length
    recycle_hash recycle_length : Z) : M (Z * Z) :=
  r ← Fetch name length hash queue_length;
  rec ← Fetch name length recycle_hash recycle_length;
  _ ← upd_queue r (λ q, set_recycle q rec);
  if r =? rec then
    _ ← upd_queue r (λ q, set_recycle q 0);
    st_stop Abort
  else mret (r, rec).
