(* ===== verification/QueuePool.v ===== *)
(** * The message pool of a queue: reference counts and the free list

    [pool_inv hs free pool U] says that the headers [pool] are well managed
    in the header store [hs]: the list that starts at [free] is a
    duplicate-free chain of pool members, every reference in the multiset
    [U] is to a pool member outside of that list, and the reference count of
    each pool member outside of the list is its (positive) multiplicity in
    [U].  The operations of [RawQueue] that touch counts are shown to move
    [U] the way their names say. *)

From S2P Require Import Prelude Options SharedMem RawQueue.

(** ** Triples of the store accesses *)

Definition with_queue (s : shm) (this : Z) (q : RawQueue) : shm :=
  mkShm (global_core s) (shm_core s) (<[this := q]> (queue_objects s)) (headers s) (signals s).
Definition with_headers (s : shm) (hs : gmap Z MessageHeader) : shm :=
  mkShm (global_core s) (shm_core s) (queue_objects s) hs (signals s).
Definition with_signals (s : shm) (l : list (Z * cond)) : shm :=
  mkShm (global_core s) (shm_core s) (queue_objects s) (headers s) l.

Section Access.
Implicit Types (s : shm) (this h : Z).

Lemma wp_get_queue this q Q s :
  queue_objects s !! this = Some q → Q q s → wp (get_queue this) Q s.
Proof. intros H HQ. unfold wp, get_queue. by rewrite H. Qed.

Lemma wp_upd_queue this f q Q s :
  queue_objects s !! this = Some q →
  Q tt (with_queue s this (f q)) → wp (upd_queue this f) Q s.
Proof. intros H HQ. unfold wp, upd_queue. by rewrite H. Qed.

Lemma wp_get_header h x Q s :
  headers s !! h = Some x → Q x s → wp (get_header h) Q s.
Proof. intros H HQ. unfold wp, get_header. by rewrite H. Qed.

Lemma wp_upd_header h f x Q s :
  headers s !! h = Some x →
  Q tt (with_headers s (<[h := f x]> (headers s))) → wp (upd_header h f) Q s.
Proof.
  intros H HQ. apply wp_bind, (wp_get_header _ x); [done|]. exact HQ.
Qed.

Lemma wp_broadcast this c Q s :
  Q tt (with_signals s (signals s ++ [(this, c)])) → wp (broadcast this c) Q s.
Proof. done. Qed.
End Access.

(** ** The free list *)

Fixpoint chain (hs : gmap Z MessageHeader) (h : Z) (l : list Z) : Prop :=
  match l with
  | [] => h = 0
  | x :: l => h = x ∧ x ≠ 0 ∧ ∃ hd, hs !! x = Some hd ∧ chain hs (next hd) l
  end.

Lemma chain_insert hs h l x v : x ∉ l → chain hs h l → chain (<[x := v]> hs) h l.
Proof.
  revert h. induction l as [|y l IH]; intros h Hx; cbn; [done|].
  intros (-> & ? & hd & Hhd & Hc). split_and!; [done..|].
  exists hd. rewrite lookup_insert_ne by set_solver. split; [done|].
  apply IH; set_solver.
Qed.

Lemma chain_count hs h l n :
  chain hs h l → (length l < n)%nat → count_free n h hs = Ok (Z.of_nat (length l)).
Proof.
  revert h n. induction l as [|x l IH]; intros h n; cbn.
  - intros ->. destruct n; [lia|]. done.
  - intros (-> & Hx & hd & Hhd & Hc) Hn. destruct n as [|n]; [lia|]. cbn.
    rewrite (proj2 (Z.eqb_neq _ _) Hx), Hhd. cbn. rewrite (IH _ n Hc) by lia. cbn. f_equal. lia.
Qed.

(** ** The invariant *)

Record pool_at (hs : gmap Z MessageHeader) (free : Z) (pool : gset Z)
    (U : gmultiset Z) (fl : list Z) : Prop := mkPoolAt {
  pool_chain : chain hs free fl;
  pool_nodup : NoDup fl;
  pool_free_in : ∀ h, h ∈ fl → h ∈ pool;
  pool_header : ∀ h, h ∈ pool → 0 < h ∧ is_Some (hs !! h);
  pool_used : ∀ m, m ∈ U → MessageHeader_Get m ∈ pool ∧ MessageHeader_Get m ∉ fl;
  pool_count : ∀ h x, h ∈ pool → h ∉ fl → hs !! h = Some x →
    h + sizeof_MessageHeader ∈ U ∧
    ref_count_ x = Z.of_nat (multiplicity (h + sizeof_MessageHeader) U);
  pool_small : Z.of_nat (size U) < 2 ^ 31 - 1 }.

Definition pool_inv hs free pool U : Prop := ∃ fl, pool_at hs free pool U fl.

Lemma Get_msg h : MessageHeader_Get (h + sizeof_MessageHeader) = h.
Proof. unfold MessageHeader_Get. lia. Qed.
Lemma msg_Get m : MessageHeader_Get m + sizeof_MessageHeader = m.
Proof. unfold MessageHeader_Get. lia. Qed.

Lemma size_list_disj (l : list Z) : size (list_to_set_disj l : gmultiset Z) = length l.
Proof.
  induction l as [|x l IH]; [done|].
  rewrite list_to_set_disj_cons, gmultiset_size_disj_union, gmultiset_size_singleton. cbn. lia.
Qed.

Lemma size_dom_le (U : gmultiset Z) : (size (dom U) ≤ size U)%nat.
Proof.
  induction U as [|x U IH] using gmultiset_ind; [done|].
  rewrite gmultiset_size_disj_union, gmultiset_size_singleton.
  transitivity (size ({[x]} ∪ dom U : gset Z)).
  - apply subseteq_size. intros y. rewrite elem_of_union, elem_of_singleton, !gmultiset_elem_of_dom.
    multiset_solver.
  - rewrite size_union_alt, size_singleton.
    pose proof (subseteq_size (dom U ∖ {[x]}) (dom U) ltac:(set_solver)). lia.
Qed.

(** Multisets one element larger or smaller. *)
Section Multiset.
Implicit Types (a m : Z) (U : gmultiset Z).
Lemma ms_add_self m U : m ∈ {[+ m +]} ⊎ U.
Proof. clear. multiset_solver. Qed.
Lemma ms_add_other a m U : a ∈ U → a ∈ {[+ m +]} ⊎ U.
Proof. clear. multiset_solver. Qed.
Lemma ms_add_inv a m U : a ∈ {[+ m +]} ⊎ U → a = m ∨ a ∈ U.
Proof. clear. multiset_solver. Qed.
Lemma ms_sub_in a m U : a ∈ U ∖ {[+ m +]} → a ∈ U.
Proof. clear. multiset_solver. Qed.
Lemma ms_sub_other a m U : a ∈ U → a ≠ m → a ∈ U ∖ {[+ m +]}.
Proof. clear. multiset_solver. Qed.
Lemma ms_sub_size m U : (size (U ∖ {[+ m +]}) ≤ size U)%nat.
Proof. apply gmultiset_subseteq_size. clear. multiset_solver. Qed.
Lemma ms_sub_mult m U : multiplicity m (U ∖ {[+ m +]}) = (multiplicity m U - 1)%nat.
Proof. by rewrite multiplicity_difference, multiplicity_singleton_eq. Qed.
Lemma ms_sub_mult_ne a m U : a ≠ m → multiplicity a (U ∖ {[+ m +]}) = multiplicity a U.
Proof. intros. rewrite multiplicity_difference, multiplicity_singleton_ne by done. lia. Qed.
End Multiset.
#[export] Hint Resolve ms_add_self ms_add_other ms_sub_in ms_sub_other : aos.

Lemma multiplicity_size (m : Z) (U : gmultiset Z) : (multiplicity m U ≤ size U)%nat.
Proof.
  induction U as [|x U IH] using gmultiset_ind.
  - rewrite multiplicity_empty. lia.
  - rewrite multiplicity_disj_union, gmultiset_size_disj_union, gmultiset_size_singleton.
    destruct (decide (m = x)) as [->|].
    + rewrite multiplicity_singleton_eq. lia.
    + rewrite multiplicity_singleton_ne by done. lia.
Qed.

Lemma pool_used_header hs free pool U fl m :
  pool_at hs free pool U fl → m ∈ U →
  ∃ x, hs !! MessageHeader_Get m = Some x ∧
    ref_count_ x = Z.of_nat (multiplicity m U) ∧ 0 < ref_count_ x < 2 ^ 31 - 1.
Proof.
  intros HP Hm. destruct (pool_used _ _ _ _ _ HP m Hm) as [Hin Hnf].
  destruct (pool_header _ _ _ _ _ HP _ Hin) as [_ [x Hx]].
  destruct (pool_count _ _ _ _ _ HP _ _ Hin Hnf Hx) as [_ Hc].
  rewrite msg_Get in Hc. exists x. split_and!; [done|done| |].
  - rewrite elem_of_multiplicity in Hm. lia.
  - pose proof (multiplicity_size m U). pose proof (pool_small _ _ _ _ _ HP). lia.
Qed.

(** Taking another reference to a used message. *)
Lemma pool_inc hs free pool U x m :
  pool_inv hs free pool U → m ∈ U → Z.of_nat (size U) + 1 < 2 ^ 31 - 1 →
  hs !! MessageHeader_Get m = Some x →
  pool_inv (<[MessageHeader_Get m := ref_count_add x]> hs) free pool ({[+ m +]} ⊎ U).
Proof.
  intros [fl HP] Hm Hsz Hx. exists fl.
  destruct (pool_used _ _ _ _ _ HP m Hm) as [Hin Hnf].
  destruct (pool_used_header _ _ _ _ _ m HP Hm) as (x' & Hx' & Hc & Hb).
  rewrite Hx in Hx'. injection Hx' as <-.
  destruct HP as [P1 P2 P3 P4 P5 P6 P7]. split.
  - by apply chain_insert.
  - done.
  - done.
  - intros h Hh. destruct (P4 h Hh) as [? ?]. split; [done|].
    apply lookup_insert_is_Some'. by right.
  - intros m' [->|Hm']%ms_add_inv; by apply P5.
  - intros h y Hh Hhf Hy. destruct (decide (h = MessageHeader_Get m)) as [->|Hne].
    + rewrite lookup_insert_eq in Hy. injection Hy as <-. rewrite msg_Get.
      split; [apply ms_add_self|]. cbn [ref_count_ ref_count_add]. rewrite Hc, swrap_small; [|lia|unfold in_signed; cbn; lia].
      rewrite multiplicity_disj_union, multiplicity_singleton_eq. lia.
    + rewrite lookup_insert_ne in Hy by done. destruct (P6 h y Hh Hhf Hy) as [? ->].
      split; [by apply ms_add_other|]. rewrite multiplicity_disj_union.
      rewrite multiplicity_singleton_ne; [lia|].
      intros <-. by rewrite Get_msg in Hne.
  - rewrite gmultiset_size_disj_union, gmultiset_size_singleton. lia.
Qed.

(** Dropping a reference that is not the last one. *)
Lemma pool_dec_keep hs free pool U x m :
  pool_inv hs free pool U → m ∈ U → hs !! MessageHeader_Get m = Some x →
  ref_count_ (ref_count_sub x) ≠ 0 →
  pool_inv (<[MessageHeader_Get m := ref_count_sub x]> hs) free pool (U ∖ {[+ m +]}).
Proof.
  intros [fl HP] Hm Hx Hnz. exists fl.
  destruct (pool_used _ _ _ _ _ HP m Hm) as [Hin Hnf].
  destruct (pool_used_header _ _ _ _ _ m HP Hm) as (x' & Hx' & Hc & Hb).
  rewrite Hx in Hx'. injection Hx' as <-. cbn in Hnz.
  rewrite swrap_small in Hnz by (lia || (unfold in_signed; cbn; lia)).
  destruct HP as [P1 P2 P3 P4 P5 P6 P7].
  pose proof (ms_sub_mult m U) as Hmul.
  split.
  - by apply chain_insert.
  - done.
  - done.
  - intros h Hh. destruct (P4 h Hh) as [? ?]. split; [done|].
    apply lookup_insert_is_Some'. by right.
  - intros m' Hm'. apply P5. eauto with aos.
  - intros h y Hh Hhf Hy. destruct (decide (h = MessageHeader_Get m)) as [->|Hne].
    + rewrite lookup_insert_eq in Hy. injection Hy as <-. rewrite msg_Get.
      split; [apply elem_of_multiplicity; rewrite Hmul; lia|].
      cbn [ref_count_ ref_count_sub]. rewrite swrap_small; [|lia|unfold in_signed; cbn; lia]. rewrite Hmul. lia.
    + rewrite lookup_insert_ne in Hy by done. destruct (P6 h y Hh Hhf Hy) as [? ->].
      assert (h + sizeof_MessageHeader ≠ m) by (intros <-; by rewrite Get_msg in Hne).
      rewrite ms_sub_mult_ne by done. split; [by apply ms_sub_other|done].
  - pose proof (ms_sub_size m U). lia.
Qed.

(** Dropping the last reference puts the message on the free list. *)
Lemma pool_dec_free hs free pool U x m :
  pool_inv hs free pool U → m ∈ U → hs !! MessageHeader_Get m = Some x →
  ref_count_ (ref_count_sub x) = 0 →
  pool_inv (<[MessageHeader_Get m := mkHeader free 0]> hs) (MessageHeader_Get m) pool
    (U ∖ {[+ m +]}) ∧ m ∉ U ∖ {[+ m +]}.
Proof.
  intros [fl HP] Hm Hx Hz.
  destruct (pool_used _ _ _ _ _ HP m Hm) as [Hin Hnf].
  destruct (pool_used_header _ _ _ _ _ m HP Hm) as (x' & Hx' & Hc & Hb).
  rewrite Hx in Hx'. injection Hx' as <-. cbn in Hz.
  rewrite swrap_small in Hz by (lia || (unfold in_signed; cbn; lia)).
  destruct HP as [P1 P2 P3 P4 P5 P6 P7].
  assert (Hgone : m ∉ U ∖ {[+ m +]}).
  { intros Hin'. rewrite elem_of_multiplicity in Hin'.
    rewrite ms_sub_mult in Hin'. lia. }
  split; [|done]. exists (MessageHeader_Get m :: fl). split.
  - cbn. split_and!; [done|pose proof (P4 _ Hin); lia|].
    eexists. split; [apply lookup_insert_eq|]. cbn. by apply chain_insert.
  - by constructor.
  - intros h Hh. apply elem_of_cons in Hh as [->|]; [done|by apply P3].
  - intros h Hh. destruct (P4 h Hh) as [? ?]. split; [done|].
    apply lookup_insert_is_Some'. by right.
  - intros m' Hm'. destruct (P5 m' (ms_sub_in _ _ _ Hm')) as [? ?]. split; [done|].
    rewrite not_elem_of_cons. split; [|done]. intros E.
    assert (m' = m) as -> by (unfold MessageHeader_Get in E; lia). done.
  - intros h y Hh Hhf Hy. apply not_elem_of_cons in Hhf as [Hne Hhf].
    rewrite lookup_insert_ne in Hy by done. destruct (P6 h y Hh Hhf Hy) as [? ->].
    assert (h + sizeof_MessageHeader ≠ m) by (intros <-; by rewrite Get_msg in Hne).
    rewrite ms_sub_mult_ne by done. split; [by apply ms_sub_other|done].
  - pose proof (ms_sub_size m U). lia.
Qed.

(** Taking the head of the free list. *)
Lemma pool_pop hs free pool U :
  pool_inv hs free pool U → free ≠ 0 → Z.of_nat (size U) + 1 < 2 ^ 31 - 1 →
  ∃ x, hs !! free = Some x ∧ (free + sizeof_MessageHeader ∉ U) ∧
    pool_inv (<[free := set_ref_count 1 x]> hs) (next x) pool
      ({[+ free + sizeof_MessageHeader +]} ⊎ U).
Proof.
  intros [fl HP] Hne Hsz. destruct HP as [P1 P2 P3 P4 P5 P6 P7].
  destruct fl as [|h fl]; cbn in P1; [done|].
  destruct P1 as (-> & _ & x & Hx & Hc). apply NoDup_cons in P2 as [Hn Hnd].
  assert (Hnu : h + sizeof_MessageHeader ∉ U).
  { intros Hin. destruct (P5 _ Hin) as [_ Hnf]. rewrite Get_msg in Hnf. set_solver. }
  assert (Hmul : multiplicity (h + sizeof_MessageHeader) U = 0%nat).
  { destruct (multiplicity _ U) eqn:E; [done|].
    exfalso. apply Hnu, elem_of_multiplicity. lia. }
  exists x. split_and!; [done|done|]. exists fl. split.
  - by apply chain_insert.
  - done.
  - intros h' ?. apply P3. set_solver.
  - intros h' Hh. destruct (P4 h' Hh) as [? ?]. split; [done|].
    apply lookup_insert_is_Some'. by right.
  - intros m [->|Hm]%ms_add_inv.
    + rewrite Get_msg. split; [apply P3; set_solver|done].
    + destruct (P5 m Hm). split; [done|set_solver].
  - intros h' y Hh Hhf Hy. destruct (decide (h' = h)) as [->|Hne'].
    + rewrite lookup_insert_eq in Hy. injection Hy as <-. split; [apply ms_add_self|].
      rewrite multiplicity_disj_union, multiplicity_singleton_eq, Hmul. done.
    + rewrite lookup_insert_ne in Hy by done.
      destruct (P6 h' y Hh ltac:(set_solver) Hy) as [? ->]. split; [by apply ms_add_other|].
      rewrite multiplicity_disj_union, multiplicity_singleton_ne; [lia|].
      unfold sizeof_MessageHeader. lia.
  - rewrite gmultiset_size_disj_union, gmultiset_size_singleton. lia.
Qed.

(** Conservation: a free or a used message, and nothing else. *)
Lemma pool_conservation hs free pool U fl :
  pool_at hs free pool U fl →
  pool = list_to_set fl ∪ set_map MessageHeader_Get (dom U) ∧
  (list_to_set fl : gset Z) ## set_map MessageHeader_Get (dom U).
Proof.
  intros [P1 P2 P3 P4 P5 P6 P7]. split.
  - apply set_eq. intros h. rewrite elem_of_union, elem_of_list_to_set, elem_of_map. split.
    + intros Hh. destruct (decide (h ∈ fl)) as [|Hnf]; [by left|right].
      destruct (P4 h Hh) as [_ [x Hx]]. destruct (P6 h x Hh Hnf Hx) as [Hin _].
      exists (h + sizeof_MessageHeader). rewrite Get_msg.
      split; [done|]. by apply gmultiset_elem_of_dom.
    + intros [|(m & -> & Hm)]; [by apply P3|].
      apply P5. by apply gmultiset_elem_of_dom.
  - intros h Hh (m & -> & Hm)%elem_of_map. apply elem_of_list_to_set in Hh.
    apply gmultiset_elem_of_dom in Hm. by destruct (P5 m Hm).
Qed.

Lemma pool_free_count hs free pool U fl :
  pool_at hs free pool U fl → (length fl + size (dom U) = size pool)%nat.
Proof.
  intros HP. destruct (pool_conservation _ _ _ _ _ HP) as [-> Hd].
  rewrite size_union by done. rewrite size_list_to_set by apply HP.
  unfold set_map. rewrite size_list_to_set.
  - by rewrite length_fmap.
  - apply NoDup_fmap_2; [|apply NoDup_elements]. intros a b. unfold MessageHeader_Get. lia.
Qed.
