(* ===== verification/QueueOps.v ===== *)
(** * The ring of a queue and the triples of its operations

    [contents q] is the list of messages a queue holds, oldest first.  This
    file shows how [index_add1], [write_slot], [advance_start] and the read
    positions act on it, and gives the triples of the building blocks
    ([lock_data], [DecrementMessageReferenceCount], [write_room], ...) for a
    queue without a recycle queue.  [QueueSpec] assembles them. *)

From S2P Require Import Prelude Options SharedMem Ring RawQueue QueuePool.

(** ** The ring *)

Definition count (q : RawQueue) : nat :=
  ring_count (data_length_ q) (data_start_ q) (data_end_ q).

Definition contents (q : RawQueue) : list Z :=
  slice (data_ q) (data_length_ q) (data_start_ q) (count q).

Record ring_wf (q : RawQueue) : Prop := mkRingWf {
  rw_cap : 1 ≤ queue_length_ q;
  rw_len : data_length_ q = queue_length_ q + 1;
  rw_int : data_length_ q < 2 ^ 31;
  rw_data : Z.of_nat (length (data_ q)) = data_length_ q;
  rw_start : 0 ≤ data_start_ q < data_length_ q;
  rw_end : 0 ≤ data_end_ q < data_length_ q;
  rw_messages : Z.of_nat (count q) ≤ messages_ q < 2 ^ 31 }.

(** The two moves of the ring. *)
Definition push (q : RawQueue) (m : Z) : RawQueue :=
  set_ring q (<[Z.to_nat (data_end_ q) := m]> (data_ q))
    ((data_end_ q + 1) mod data_length_ q) (messages_ q + 1).
Definition pop (q : RawQueue) : RawQueue :=
  set_start q ((data_start_ q + 1) mod data_length_ q).

Definition full (q : RawQueue) : Prop := Z.of_nat (count q) = queue_length_ q.
#[global] Instance full_dec q : Decision (full q).
Proof. unfold full. apply _. Defined.

Lemma contents_length q : length (contents q) = count q.
Proof. apply slice_length. Qed.

Section RingFacts.
Variable q : RawQueue.
Hypothesis W : ring_wf q.

Lemma ring_len_pos : 0 < data_length_ q.
Proof. destruct W; lia. Qed.

Lemma index_add1_eq i :
  0 ≤ i < data_length_ q → index_add1 q i = Ok ((i + 1) mod data_length_ q).
Proof.
  intros Hi. destruct W. unfold index_add1.
  rewrite chk_ok by (unfold in_signed; cbn; lia). rewrite res_bind_Ok.
  destruct (Z.eqb_spec (i + 1) (data_length_ q)) as [E|E].
  - by rewrite E, Z.mod_same by lia.
  - by rewrite Z.mod_small by lia.
Qed.

Lemma full_end : (data_end_ q + 1) mod data_length_ q = data_start_ q ↔ full q.
Proof.
  destruct W. unfold full. rewrite ring_full by done. unfold count. lia.
Qed.

Lemma is_writable_eq : is_writable q = Ok (negb (bool_decide (full q))).
Proof.
  unfold is_writable. rewrite index_add1_eq by apply W. rewrite res_bind_Ok. f_equal. f_equal.
  symmetry. destruct (Z.eqb_spec ((data_end_ q + 1) mod data_length_ q) (data_start_ q)).
  - apply bool_decide_eq_true_2. by apply full_end.
  - apply bool_decide_eq_false_2. by rewrite <-full_end.
Qed.

Lemma data_at_eq i : 0 ≤ i < data_length_ q → data_at q i = Ok (at_index (data_ q) i).
Proof.
  intros Hi. unfold data_at. destruct (Z.ltb_spec i 0); [lia|].
  destruct W. unfold at_index.
  destruct (lookup_lt_is_Some_2 (data_ q) (Z.to_nat i)) as [x Hx]; [lia|].
  by rewrite Hx.
Qed.

Lemma count_bound : Z.of_nat (count q) ≤ queue_length_ q.
Proof.
  pose proof (ring_count_bound (data_length_ q) (data_start_ q) (data_end_ q) ring_len_pos).
  destruct W. unfold count. lia.
Qed.

Lemma empty_iff : data_start_ q = data_end_ q ↔ contents q = [].
Proof.
  destruct W. rewrite <-(ring_count_0 (data_length_ q)) by done.
  rewrite <-length_zero_iff_nil, contents_length. done.
Qed.

Lemma contents_push m : ¬ full q → contents (push q m) = contents q ++ [m].
Proof.
  intros Hf. unfold contents, count, push. cbn.
  rewrite <-full_end in Hf. destruct W.
  rewrite ring_count_push by done.
  rewrite <-(ring_end (data_length_ q) (data_start_ q) (data_end_ q)) at 1 by done.
  apply slice_push; [lia|apply ring_count_bound; lia|done].
Qed.

Lemma push_wf m : ¬ full q → messages_ q + 1 < 2 ^ 31 → ring_wf (push q m).
Proof.
  intros Hf Hm. pose proof Hf as Hf'. rewrite <-full_end in Hf. destruct W.
  split; cbn; try done.
  - by rewrite length_insert.
  - apply Z.mod_pos_bound. lia.
  - unfold count, push. cbn. rewrite ring_count_push by done.
    unfold count in *. lia.
Qed.

Lemma contents_pop x l : contents q = x :: l → contents (pop q) = l.
Proof.
  intros Hc. assert (Hn : count q = S (length l)) by by rewrite <-contents_length, Hc.
  unfold contents in *. rewrite Hn in Hc. rewrite slice_cons in Hc by apply ring_len_pos.
  injection Hc as _ <-. unfold pop, count. cbn.
  rewrite (ring_count_pop _ _ _ (length l)); [done|apply W..|done].
Qed.

Lemma contents_head x l : contents q = x :: l → at_index (data_ q) (data_start_ q) = x.
Proof.
  intros Hc. assert (Hn : count q = S (length l)) by by rewrite <-contents_length, Hc.
  unfold contents in Hc. rewrite Hn, slice_cons in Hc by apply ring_len_pos.
  injection Hc as <- _. f_equal. symmetry. apply Z.mod_small, W.
Qed.

Lemma pop_wf : contents q ≠ [] → ring_wf (pop q).
Proof.
  intros Hne. destruct (contents q) as [|x l] eqn:Hc; [done|].
  assert (Hn : count q = S (length l)) by by rewrite <-contents_length, Hc.
  assert (Hn' : count (pop q) = length l) by by rewrite <-contents_length, (contents_pop x l).
  destruct W. split; try done.
  - cbn. apply Z.mod_pos_bound. lia.
  - rewrite Hn'. cbn. lia.
Qed.

(** [contents[k]], for [k] counted back from the newest. *)
Lemma contents_back k :
  (k < count q)%nat →
  contents q !! (count q - S k)%nat =
    Some (at_index (data_ q) ((data_end_ q - Z.of_nat (S k)) mod data_length_ q)).
Proof.
  intros Hk. unfold contents. rewrite slice_lookup by lia.
  rewrite (ring_back _ (data_start_ q) (data_end_ q) (S k)) by (apply W || (unfold count in *; lia)).
  done.
Qed.

Lemma LastMessageIndex_eq :
  LastMessageIndex q = Ok ((data_end_ q - 1) mod data_length_ q).
Proof.
  destruct W. unfold LastMessageIndex.
  rewrite (chk_ok 32 (data_end_ q - 1)) by (unfold in_signed; cbn; lia). rewrite res_bind_Ok.
  destruct (Z.ltb_spec (data_end_ q - 1) 0).
  - rewrite chk_ok by (unfold in_signed; cbn; lia).
    f_equal. replace (data_end_ q - 1) with (data_length_ q - 1 + (-1) * data_length_ q) by lia.
    rewrite Z_mod_plus_full, Z.mod_small; lia.
  - by rewrite Z.mod_small by lia.
Qed.

Lemma contents_last :
  contents q ≠ [] →
  last (contents q) = Some (at_index (data_ q) ((data_end_ q - 1) mod data_length_ q)).
Proof.
  intros Hne. rewrite last_lookup, contents_length.
  assert (0 < count q)%nat as Hp.
  { rewrite <-contents_length. destruct (contents q); [done|cbn; lia]. }
  pose proof (contents_back 0 Hp) as Hb. change (Z.of_nat 1) with 1 in Hb.
  rewrite <-Hb. f_equal. lia.
Qed.
End RingFacts.

(** Fields the ring does not look at. *)
Definition same_ring (q q' : RawQueue) : Prop :=
  queue_length_ q' = queue_length_ q ∧ data_length_ q' = data_length_ q ∧
  data_ q' = data_ q ∧ data_start_ q' = data_start_ q ∧ data_end_ q' = data_end_ q ∧
  messages_ q' = messages_ q.

Lemma same_ring_contents q q' : same_ring q q' → contents q' = contents q.
Proof. intros (_ & E1 & E2 & E3 & E4 & _). unfold contents, count. congruence. Qed.

Lemma same_ring_wf q q' : same_ring q q' → ring_wf q → ring_wf q'.
Proof.
  intros (E0 & E1 & E2 & E3 & E4 & E5) [].
  assert (count q' = count q) by (unfold count; congruence).
  split; congruence.
Qed.

(** ** States of the store that differ in one queue *)

Definition at_queue (s : shm) (this : Z) (q : RawQueue) (hs : gmap Z MessageHeader)
    (sig : list (Z * cond)) : shm :=
  mkShm (global_core s) (shm_core s) (<[this := q]> (queue_objects s)) hs sig.

Lemma at_queue_id s this q :
  queue_objects s !! this = Some q → s = at_queue s this q (headers s) (signals s).
Proof. intros H. unfold at_queue. rewrite insert_id by done. by destruct s. Qed.

Lemma at_queue_lookup s this q hs sig :
  queue_objects (at_queue s this q hs sig) !! this = Some q.
Proof. apply lookup_insert_eq. Qed.

Section AtQueue.
Context (s : shm) (this : Z).
Implicit Types (q : RawQueue) (hs : gmap Z MessageHeader) (sig : list (Z * cond)).

Lemma wp_get_at q hs sig Q :
  Q q (at_queue s this q hs sig) → wp (get_queue this) Q (at_queue s this q hs sig).
Proof. apply wp_get_queue, at_queue_lookup. Qed.

Lemma wp_upd_at f q hs sig Q :
  Q tt (at_queue s this (f q) hs sig) → wp (upd_queue this f) Q (at_queue s this q hs sig).
Proof.
  intros HQ. eapply wp_upd_queue; [apply at_queue_lookup|].
  unfold with_queue, at_queue. cbn. rewrite insert_insert_eq. exact HQ.
Qed.

Lemma wp_upd_header_at h f x q hs sig Q :
  hs !! h = Some x → Q tt (at_queue s this q (<[h := f x]> hs) sig) →
  wp (upd_header h f) Q (at_queue s this q hs sig).
Proof. intros H HQ. by eapply wp_upd_header. Qed.

Lemma wp_broadcast_at c q hs sig Q :
  Q tt (at_queue s this q hs (sig ++ [(this, c)])) →
  wp (broadcast this c) Q (at_queue s this q hs sig).
Proof. done. Qed.

Lemma wp_lock_data q hs sig Q :
  data_lock_ q = Unlocked → Q tt (at_queue s this (set_lock q Locked) hs sig) →
  wp (lock_data this) Q (at_queue s this q hs sig).
Proof.
  intros Hl HQ. apply wp_bind, wp_get_at, wp_bind. rewrite Hl.
  eapply wp_lift; [done|]. by apply wp_bind, wp_upd_at.
Qed.

Lemma wp_unlock_data q hs sig Q :
  Q tt (at_queue s this (set_lock q Unlocked) hs sig) →
  wp (unlock_data this) Q (at_queue s this q hs sig).
Proof. intros. by apply wp_upd_at. Qed.
End AtQueue.

(** What the pool operations leave alone. *)
Definition frame (pool : gset Z) (hs hs' : gmap Z MessageHeader) : Prop :=
  ∀ h, h ∉ pool → hs' !! h = hs !! h.

Lemma frame_refl pool hs : frame pool hs hs.
Proof. done. Qed.
Lemma frame_trans pool h1 h2 h3 : frame pool h1 h2 → frame pool h2 h3 → frame pool h1 h3.
Proof. unfold frame. intros H1 H2 h Hh. by rewrite H2, H1. Qed.
Lemma frame_insert pool hs h x : h ∈ pool → frame pool hs (<[h := x]> hs).
Proof. intros Hh h' Hh'. apply lookup_insert_ne. set_solver. Qed.
#[export] Hint Resolve frame_refl frame_trans frame_insert : aos.

(** ** Triples of the pool operations *)

Section PoolOps.
Context (s : shm) (this : Z) (pool : gset Z).
Implicit Types (q : RawQueue) (hs : gmap Z MessageHeader) (sig : list (Z * cond)).

Lemma wp_dec n q hs sig U m :
  recycle_ q = 0 → pool_inv hs (free_messages_ q) pool U → m ∈ U →
  wp (DecrementMessageReferenceCount (S n) this m) (λ _ s',
    ∃ free' hs', s' = at_queue s this (set_free q free') hs' sig ∧
      pool_inv hs' free' pool (U ∖ {[+ m +]}) ∧ frame pool hs hs')
    (at_queue s this q hs sig).
Proof.
  intros Hr HP Hm. pose proof HP as [fl HP'].
  destruct (pool_used _ _ _ _ _ HP' m Hm) as [Hin _].
  destruct (pool_used_header _ _ _ _ _ m HP' Hm) as (x & Hx & _ & _).
  cbn [DecrementMessageReferenceCount]. unfold DecrementMessageReferenceCount_.
  apply wp_bind. eapply wp_upd_header_at; [done|].
  apply wp_bind. eapply wp_get_header; [apply lookup_insert_eq|].
  destruct (Z.eqb_spec (ref_count_ (ref_count_sub x)) 0) as [Hz|Hnz].
  - unfold DoFreeMessage_. apply wp_bind, wp_get_at. rewrite Hr. cbn.
    apply wp_bind, wp_ret. apply wp_bind, wp_get_at.
    apply wp_bind. eapply wp_upd_header_at; [apply lookup_insert_eq|].
    apply wp_upd_at. eexists _, _. split; [done|].
    rewrite insert_insert_eq. cbn [ref_count_ next] in *. rewrite Hz.
    destruct (pool_dec_free _ _ _ _ x m HP Hm Hx Hz) as [? _].
    split; [done|by apply frame_insert].
  - apply wp_ret. exists (free_messages_ q), (<[MessageHeader_Get m := ref_count_sub x]> hs).
    split_and!; [by destruct q| |by apply frame_insert].
    by apply pool_dec_keep.
Qed.

Lemma wp_inc q hs sig U m :
  pool_inv hs (free_messages_ q) pool U → m ∈ U → Z.of_nat (size U) + 1 < 2 ^ 31 - 1 →
  wp (IncrementMessageReferenceCount m) (λ _ s',
    ∃ hs', s' = at_queue s this q hs' sig ∧
      pool_inv hs' (free_messages_ q) pool ({[+ m +]} ⊎ U) ∧ frame pool hs hs')
    (at_queue s this q hs sig).
Proof.
  intros HP Hm Hsz. pose proof HP as [fl HP'].
  destruct (pool_used _ _ _ _ _ HP' m Hm) as [Hin _].
  destruct (pool_used_header _ _ _ _ _ m HP' Hm) as (x & Hx & _ & _).
  eapply wp_upd_header_at; [done|]. eexists. split; [done|].
  split; [by apply pool_inc|by apply frame_insert].
Qed.

Lemma wp_GetMessage q hs sig U :
  pool_inv hs (free_messages_ q) pool U → free_messages_ q ≠ 0 →
  Z.of_nat (size U) + 1 < 2 ^ 31 - 1 →
  wp (GetMessage this) (λ m s',
    ∃ free' hs', s' = at_queue s this (set_free q free') hs' sig ∧
      (m ∉ U) ∧ m ≠ 0 ∧ pool_inv hs' free' pool ({[+ m +]} ⊎ U) ∧ frame pool hs hs')
    (at_queue s this q hs sig).
Proof.
  intros HP Hf Hsz. pose proof HP as [fl HP'].
  assert (Hin : free_messages_ q ∈ pool).
  { destruct HP' as [Hc _ Hsub _ _ _ _]. destruct fl; [done|]. destruct Hc as (-> & _).
    apply Hsub. set_solver. }
  destruct (pool_header _ _ _ _ _ HP' _ Hin) as [Hpos _].
  destruct (pool_pop _ _ _ _ HP Hf Hsz) as (x & Hx & Hnu & HP2).
  unfold GetMessage. apply wp_bind, wp_get_at. rewrite (proj2 (Z.eqb_neq _ _) Hf).
  apply wp_bind. eapply wp_get_header; [done|].
  apply wp_bind, wp_upd_at. apply wp_bind. eapply wp_upd_header_at; [done|].
  apply wp_ret. eexists _, _. split; [done|].
  split_and!; [done|unfold sizeof_MessageHeader; lia|done|by apply frame_insert].
Qed.
End PoolOps.

(** An exhausted pool is a [LOG(FATAL)]. *)
Lemma GetMessage_exhausted s this q :
  queue_objects s !! this = Some q → free_messages_ q = 0 → GetMessage this s = Err Fatal.
Proof.
  intros Hq Hf. unfold GetMessage, mbind, st_bind, get_queue. rewrite Hq, Hf. done.
Qed.
