(* ===== verification/QueueSpec.v ===== *)
(** * What a queue promises, and that RawQueue keeps it

    The abstract queue is a bounded list of messages.  [spec_write],
    [spec_read] and [spec_read_index] say what each operation does to it;
    the theorems show that the ring buffer with its reference counts
    implements them on every branch, that it never stops, and that the pool
    neither leaks nor frees a message somebody still refers to.  They are
    about a queue without a recycle queue, used by one task at a time
    ([data_lock_] makes the operations atomic). *)

From S2P Require Import Prelude Options SharedMem Ring RawQueue QueuePool QueueOps.

(** ** The abstract queue *)

Inductive wmode : Set := NonBlocking | Overriding | Blocking.

Definition mode_of (o : Options) : wmode :=
  if opt_and o kNonBlock then NonBlocking
  else if opt_and o kOverride then Overriding else Blocking.

Definition spec_write (cap : Z) (mode : wmode) (items : list Z) (msg : Z) : wres * list Z :=
  if Z.of_nat (length items) <? cap then (WDone true, items ++ [msg])
  else match mode with
       | NonBlocking => (WDone false, items)
       | Overriding => (WDone true, drop 1 items ++ [msg])
       | Blocking => (WWait, items)
       end.

(** The message a read takes and what is left of the queue. *)
Definition spec_read (from_end peek : bool) (items : list Z) : option (Z * list Z) :=
  m ← (if from_end then last items else head items);
  Some (m, if peek then items else if from_end then [] else drop 1 items).

(** Messages are numbered from 0 in the order they were written; with
    [total] written so far the queue holds the last ones.  A read with an
    index takes the oldest available message whose number is at least the
    index. *)
Definition spec_read_index (from_end peek : bool) (total : Z) (items : list Z) (index : Z)
    : option (Z * Z) :=
  let oldest := total - Z.of_nat (length items) in
  if from_end then m ← last items; Some (m, total)
  else
    let number := Z.max index oldest in
    m ← items !! Z.to_nat (number - oldest);
    Some (m, if peek then number else number + 1).

(** What of a queue object never changes once it is in the list. *)
Definition ident (q : RawQueue) : string * Z * Z * Z * Z * Z :=
  (name_ q, length_ q, hash_ q, queue_length_ q, next_ q, recycle_ q).

(** ** The invariant of one queue *)

Record queue_inv (s : shm) (this : Z) (q : RawQueue) (pool : gset Z)
    (held : gmultiset Z) : Prop := mkQueueInv {
  qi_object : queue_objects s !! this = Some q;
  qi_ring : ring_wf q;
  qi_lock : data_lock_ q = Unlocked;
  qi_recycle : recycle_ q = 0;
  qi_pool : pool_inv (headers s) (free_messages_ q) pool (list_to_set_disj (contents q) ⊎ held) }.

(** [s'] is [s] except for this queue and the headers of its pool. *)
Definition only_queue (s s' : shm) (this : Z) (pool : gset Z) : Prop :=
  (∃ q' hs' sig', s' = at_queue s this q' hs' sig' ∧ frame pool (headers s) hs').

Lemma queue_inv_at s this q hs sig pool held :
  ring_wf q → data_lock_ q = Unlocked → recycle_ q = 0 →
  pool_inv hs (free_messages_ q) pool (list_to_set_disj (contents q) ⊎ held) →
  queue_inv (at_queue s this q hs sig) this q pool held.
Proof. intros. split; try done. apply at_queue_lookup. Qed.

Lemma unlocked_id q : data_lock_ q = Unlocked → set_lock (set_lock q Locked) Unlocked = q.
Proof. intros H. destruct q. cbn in *. by subst. Qed.

Lemma set_free_unlock q f :
  data_lock_ q = Unlocked →
  set_lock (set_free (set_lock q Locked) f) Unlocked = set_free q f.
Proof. intros H. destruct q. cbn in *. by subst. Qed.

Lemma contents_full q : ring_wf q → Z.of_nat (length (contents q)) <? queue_length_ q = negb (bool_decide (full q)).
Proof.
  intros W. rewrite contents_length. pose proof (count_bound q W). unfold full.
  destruct (Z.ltb_spec (Z.of_nat (count q)) (queue_length_ q));
    case_bool_decide; (done || lia).
Qed.

(** ** Writing *)

(** What [write_slot] does to the ring. *)
Lemma wp_write_slot s this q hs sig m Q :
  ring_wf q → messages_ q + 1 < 2 ^ 31 →
  Q tt (at_queue s this (push q m) hs sig) →
  wp (write_slot this m ((data_end_ q + 1) mod data_length_ q)) Q (at_queue s this q hs sig).
Proof.
  intros W Hm HQ. unfold write_slot. apply wp_bind, wp_get_at, wp_bind.
  eapply wp_lift; [apply data_at_eq; [done|apply W]|].
  apply wp_bind. eapply wp_lift; [apply chk_ok|].
  - destruct W. unfold in_signed. cbn. lia.
  - by apply wp_upd_at.
Qed.

(** The end of a successful write, from the store on. *)
Definition written (q : RawQueue) (m : Z) : RawQueue :=
  set_lock (set_readable_waiting (push q m) false) Unlocked.

Definition readable_signal (this : Z) (q : RawQueue) : list (Z * cond) :=
  if readable_waiting_ q then [(this, Readable)] else [].

Lemma written_contents q m :
  ring_wf q → ¬ full q → contents (written q m) = contents q ++ [m].
Proof.
  intros W Hf. rewrite <-(contents_push q W m Hf). apply same_ring_contents. done.
Qed.

Lemma written_wf q m :
  ring_wf q → ¬ full q → messages_ q + 1 < 2 ^ 31 → ring_wf (written q m).
Proof.
  intros W Hf Hm. eapply same_ring_wf; [|by apply (push_wf q W m)]. done.
Qed.

(** Moving a message from a holder into the queue keeps every count. *)
Lemma held_to_ring (l : list Z) (held : gmultiset Z) m :
  m ∈ held →
  list_to_set_disj (l ++ [m]) ⊎ held ∖ {[+ m +]} = list_to_set_disj l ⊎ held.
Proof.
  intros Hm. rewrite list_to_set_disj_app, list_to_set_disj_cons, list_to_set_disj_nil.
  generalize (list_to_set_disj l : gmultiset Z). intros R. multiset_solver.
Qed.

Lemma ring_drop_head (l : list Z) (held : gmultiset Z) x :
  (list_to_set_disj (x :: l) ⊎ held) ∖ {[+ x +]} = list_to_set_disj l ⊎ held.
Proof.
  rewrite list_to_set_disj_cons. generalize (list_to_set_disj l : gmultiset Z).
  intros R. multiset_solver.
Qed.

Lemma elem_of_ring_head (l : list Z) (held : gmultiset Z) x :
  x ∈ list_to_set_disj (x :: l) ⊎ held.
Proof.
  rewrite list_to_set_disj_cons. generalize (list_to_set_disj l : gmultiset Z).
  intros R. multiset_solver.
Qed.

Lemma held_drop (R held : gmultiset Z) m :
  m ∈ held → (R ⊎ held) ∖ {[+ m +]} = R ⊎ held ∖ {[+ m +]}.
Proof. clear. multiset_solver. Qed.

Lemma elem_of_held (R held : gmultiset Z) m : m ∈ held → m ∈ R ⊎ held.
Proof. clear. multiset_solver. Qed.

Section Write.
Context (s : shm) (this : Z) (pool : gset Z) (held : gmultiset Z) (m : Z) (n : nat).
Context (o : Options).
Implicit Types (q : RawQueue) (hs : gmap Z MessageHeader) (sig : list (Z * cond)).

Notation dec := (DecrementMessageReferenceCount (S n)).

Lemma wp_room_free k q hs sig Q :
  ring_wf q → ¬ full q →
  Q (Room ((data_end_ q + 1) mod data_length_ q)) (at_queue s this q hs sig) →
  wp (write_room dec (S k) this m o) Q (at_queue s this q hs sig).
Proof.
  intros W Hf HQ. cbn [write_room]. apply wp_bind, wp_get_at, wp_bind.
  eapply wp_lift; [apply index_add1_eq; [done|apply W]|].
  destruct (Z.eqb_spec ((data_end_ q + 1) mod data_length_ q) (data_start_ q)) as [E|E].
  - by apply full_end in E.
  - by apply wp_ret.
Qed.

(** The first test of the loop on a full queue. *)
Lemma wp_room_full k q hs sig Q :
  ring_wf q → full q →
  wp (if opt_and o kNonBlock then _ ← dec this m; mret Refused
      else if opt_and o kOverride then
        oldest ← st_lift (data_at q (data_start_ q));
        _ ← dec this oldest;
        q ← get_queue this;
        start ← st_lift (index_add1 q (data_start_ q));
        _ ← upd_queue this (λ q, set_start q start);
        write_room dec k this m o
      else mret MustWait) Q (at_queue s this q hs sig) →
  wp (write_room dec (S k) this m o) Q (at_queue s this q hs sig).
Proof.
  intros W Hf HQ. cbn [write_room]. apply wp_bind, wp_get_at, wp_bind.
  eapply wp_lift; [apply index_add1_eq; [done|apply W]|].
  apply full_end in Hf; [|done]. rewrite Hf, Z.eqb_refl. exact HQ.
Qed.

(** The tail of [DoWriteMessage] once there is room. *)
Lemma wp_write_tail q hs sig :
  ring_wf q → ¬ full q → messages_ q + 1 < 2 ^ 31 → recycle_ q = 0 →
  pool_inv hs (free_messages_ q) pool (list_to_set_disj (contents q) ⊎ held) → m ∈ held →
  wp (_ ← write_slot this m ((data_end_ q + 1) mod data_length_ q);
      q ← get_queue this;
      let signal_readable := readable_waiting_ q in
      _ ← upd_queue this (λ q, set_readable_waiting q false);
      _ ← unlock_data this;
      _ ← (if signal_readable then broadcast this Readable else mret tt);
      mret (WDone true))
    (λ r s', r = WDone true ∧
       s' = at_queue s this (written q m) hs (sig ++ readable_signal this q) ∧
       queue_inv s' this (written q m) pool (held ∖ {[+ m +]}))
    (at_queue s this q hs sig).
Proof.
  intros W Hf Hmax Hr HP Hm.
  apply wp_bind, wp_write_slot; [done..|]. apply wp_bind, wp_get_at.
  apply wp_bind, wp_upd_at, wp_bind, wp_unlock_data.
  assert (HI : queue_inv (at_queue s this (written q m) hs (sig ++ readable_signal this q))
    this (written q m) pool (held ∖ {[+ m +]})).
  { apply queue_inv_at; [by apply written_wf|done|done|].
    rewrite written_contents by done. by rewrite held_to_ring. }
  apply wp_bind. unfold readable_signal in *. cbn.
  destruct (readable_waiting_ q); apply wp_ret; split_and!; try done.
  all: by rewrite app_nil_r in *.
Qed.
End Write.

(** The abstract effect of a write on the holders and the count. *)
Definition held_after (r : wres) (m : Z) (held : gmultiset Z) : gmultiset Z :=
  match r with WWait => held | WDone _ => held ∖ {[+ m +]} end.

Definition total_after (r : wres) (total : Z) : Z :=
  match r with WDone true => total + 1 | _ => total end.

Definition write_signals (this : Z) (q : RawQueue) (r : wres) : list (Z * cond) :=
  match r with WDone true => readable_signal this q | _ => [] end.

Definition valid_write (o : Options) : bool :=
  NoOthersSet o kWriteFailureOptions && ExactlyOneSet o kWriteFailureOptions.

(** Everything a write promises, as a relation between the two states. *)
Record write_post (s : shm) (this : Z) (q : RawQueue) (pool : gset Z)
    (held : gmultiset Z) (m : Z) (mode : wmode) (r : wres) (s' : shm) (q' : RawQueue) : Prop :=
  mkWritePost {
  wp_inv : queue_inv s' this q' pool (held_after r m held);
  wp_spec : spec_write (queue_length_ q) mode (contents q) m = (r, contents q');
  wp_total : messages_ q' = total_after r (messages_ q);
  wp_ident : ident q' = ident q;
  wp_sig : signals s' = signals s ++ write_signals this q r;
  wp_only : only_queue s s' this pool }.

Lemma only_queue_at s this q hs sig pool :
  frame pool (headers s) hs → only_queue s (at_queue s this q hs sig) this pool.
Proof. intros. by exists q, hs, sig. Qed.

Section WriteTheorem.
Context (s : shm) (this : Z) (q : RawQueue) (pool : gset Z) (held : gmultiset Z).
Context (m : Z) (n : nat) (o : Options).
Hypothesis I : queue_inv s this q pool held.
Hypothesis Hm : m ∈ held.
Hypothesis Hmax : messages_ q + 1 < 2 ^ 31.

Notation ql := (set_lock q Locked).

Lemma ql_wf : ring_wf ql.
Proof. eapply same_ring_wf; [|apply I]. done. Qed.
Lemma ql_contents : contents ql = contents q.
Proof. by apply same_ring_contents. Qed.
Lemma ql_full : full ql ↔ full q.
Proof. done. Qed.

Lemma write_not_full :
  ¬ full q →
  wp (DoWriteMessage (S n) this m o) (λ r s', ∃ q',
    write_post s this q pool held m (mode_of o) r s' q') s.
Proof.
  intros Hf. rewrite (at_queue_id s this q (qi_object _ _ _ _ _ I)) at 1.
  apply wp_bind, wp_lock_data; [apply I|].
  apply wp_bind, wp_room_free; [apply ql_wf|done|].
  eapply wp_mono; [eapply (wp_write_tail s this pool held); try apply I; [apply ql_wf|done..]|].
  cbn beta. intros r s' (-> & -> & HI). exists (written ql m). split; [done|..].
  - unfold spec_write. rewrite contents_full by apply I. rewrite bool_decide_false by done.
    cbn [negb]. f_equal. rewrite <-ql_contents. symmetry.
    by apply written_contents; [apply ql_wf|].
  - done.
  - done.
  - done.
  - by apply only_queue_at.
Qed.

Lemma write_refused :
  full q → opt_and o kNonBlock = true →
  wp (DoWriteMessage (S n) this m o) (λ r s', ∃ q',
    write_post s this q pool held m (mode_of o) r s' q') s.
Proof.
  intros Hf Ho. rewrite (at_queue_id s this q (qi_object _ _ _ _ _ I)) at 1.
  apply wp_bind, wp_lock_data; [apply I|].
  apply wp_bind, wp_room_full; [apply ql_wf|done|]. rewrite Ho.
  apply wp_bind. eapply wp_mono.
  { eapply (wp_dec s this pool n ql); [apply I|apply I|by apply elem_of_held]. }
  cbn beta. intros _ s1 (free' & hs' & -> & HP & Hfr).
  apply wp_ret. apply wp_bind, wp_unlock_data, wp_ret.
  rewrite set_free_unlock by apply I.
  exists (set_free q free'). split.
  - apply queue_inv_at; [eapply same_ring_wf; [|apply I]; done|apply I..|].
    cbn [held_after]. by rewrite <-held_drop.
  - unfold spec_write, mode_of. rewrite contents_full, Ho by apply I.
    rewrite bool_decide_true by done. done.
  - done.
  - done.
  - cbn. by rewrite app_nil_r.
  - by apply only_queue_at.
Qed.

Lemma write_waits :
  full q → opt_and o kNonBlock = false → opt_and o kOverride = false →
  wp (DoWriteMessage (S n) this m o) (λ r s', ∃ q',
    write_post s this q pool held m (mode_of o) r s' q') s.
Proof.
  intros Hf Ho Ho'. rewrite (at_queue_id s this q (qi_object _ _ _ _ _ I)) at 1.
  apply wp_bind, wp_lock_data; [apply I|].
  apply wp_bind, wp_room_full; [apply ql_wf|done|]. rewrite Ho, Ho'.
  apply wp_ret, wp_bind, wp_unlock_data, wp_ret.
  rewrite unlocked_id by apply I. exists q. split.
  - apply queue_inv_at; apply I.
  - unfold spec_write, mode_of. rewrite contents_full, Ho, Ho' by apply I.
    rewrite bool_decide_true by done. done.
  - done.
  - done.
  - cbn. by rewrite app_nil_r.
  - by apply only_queue_at.
Qed.

Lemma full_nonempty : full q → ∃ x l, contents q = x :: l.
Proof.
  intros Hf. destruct (contents q) as [|x l] eqn:E; [|by eauto].
  apply (f_equal length) in E. rewrite contents_length in E.
  unfold full in Hf. destruct (qi_ring _ _ _ _ _ I). cbn in E. lia.
Qed.

Lemma write_overrides :
  full q → opt_and o kNonBlock = false → opt_and o kOverride = true →
  wp (DoWriteMessage (S n) this m o) (λ r s', ∃ q',
    write_post s this q pool held m (mode_of o) r s' q') s.
Proof.
  intros Hf Ho Ho'. destruct (full_nonempty Hf) as (x & l & Hc).
  rewrite (at_queue_id s this q (qi_object _ _ _ _ _ I)) at 1.
  apply wp_bind, wp_lock_data; [apply I|].
  apply wp_bind, wp_room_full; [apply ql_wf|done|]. rewrite Ho, Ho'.
  apply wp_bind. eapply wp_lift; [apply data_at_eq; apply ql_wf|].
  rewrite (contents_head ql ql_wf x l) by by rewrite ql_contents.
  apply wp_bind. eapply wp_mono.
  { eapply (wp_dec s this pool n ql); [apply I|apply I|]. rewrite Hc. apply elem_of_ring_head. }
  cbn beta. intros _ s1 (free' & hs' & -> & HP & Hfr).
  set (qf := set_free ql free').
  assert (Wf : ring_wf qf) by (eapply same_ring_wf; [|apply ql_wf]; done).
  assert (Hcf : contents qf = x :: l) by (rewrite <-Hc; by apply same_ring_contents).
  apply wp_bind, wp_get_at, wp_bind. eapply wp_lift; [apply index_add1_eq; apply Wf|].
  apply wp_bind, wp_upd_at.
  assert (Wp : ring_wf (pop qf)) by (apply pop_wf; [done|by rewrite Hcf]).
  assert (Hcp : contents (pop qf) = l) by (by apply (contents_pop qf Wf x)).
  assert (Hnf : ¬ full (pop qf)).
  { unfold full in *. rewrite <-contents_length in *. rewrite Hcp. rewrite Hc in Hf.
    cbn in *. lia. }
  apply (wp_room_free s this m n o 0 (pop qf)); [done..|].
  eapply wp_mono; [eapply (wp_write_tail s this pool held m (pop qf)); try done|].
  - apply I.
  - rewrite Hcp. rewrite Hc, ring_drop_head in HP. exact HP.
  - cbn beta. intros r s' (-> & -> & HI). exists (written (pop qf) m). split; [done|..].
    + unfold spec_write, mode_of. rewrite contents_full, Ho, Ho' by apply I.
      rewrite bool_decide_true by done. cbn. f_equal. rewrite Hc. cbn.
      rewrite written_contents by done. by rewrite Hcp.
    + done.
    + done.
    + done.
    + by apply only_queue_at.
Qed.

Lemma DoWriteMessage_refines :
  wp (DoWriteMessage (S n) this m o) (λ r s', ∃ q',
    write_post s this q pool held m (mode_of o) r s' q') s.
Proof.
  destruct (decide (full q)); [|by apply write_not_full].
  destruct (opt_and o kNonBlock) eqn:?; [by apply write_refused|].
  destruct (opt_and o kOverride) eqn:?; [by apply write_overrides|by apply write_waits].
Qed.
End WriteTheorem.
