(* ===== verification/QueueRead.v ===== *)
(** * Reading from a queue

    [DoReadMessage] and [DoReadMessageIndex] against the abstract queue of
    [QueueSpec]: which message is returned, what stays in the ring, how the
    reference moves to the reader, and which condition is broadcast. *)

From S2P Require Import Prelude Options SharedMem Ring RawQueue QueuePool QueueOps QueueSpec.

(** The broadcast of [ReadCommonEnd]: the read made a full queue writable. *)
Definition writable_signal (this : Z) (q q' : RawQueue) : list (Z * cond) :=
  if bool_decide (full q) && negb (bool_decide (full q')) then [(this, Writable)] else [].

Lemma wp_advance s this q hs sig Q :
  ring_wf q → Q (data_start_ q) (at_queue s this (pop q) hs sig) →
  wp (advance_start this) Q (at_queue s this q hs sig).
Proof.
  intros W HQ. unfold advance_start. apply wp_bind, wp_get_at, wp_bind.
  eapply wp_lift; [apply index_add1_eq; [done|apply W]|].
  by apply wp_bind, wp_upd_at, wp_ret.
Qed.

(** A queue that is [q] but for its start and its free list. *)
Definition moved (q : RawQueue) (start free : Z) : RawQueue := set_free (set_start q start) free.

Lemma moved_self q : moved q (data_start_ q) (free_messages_ q) = q.
Proof. by destruct q. Qed.
Lemma moved_pop q : pop q = moved q ((data_start_ q + 1) mod data_length_ q) (free_messages_ q).
Proof. by destruct q. Qed.

(** The draining loop leaves an empty ring and returns the newest message. *)
Lemma wp_drain fuel s this pool held y l q hs sig n :
  ring_wf q → recycle_ q = 0 → contents q = y :: l → (length l < n)%nat →
  pool_inv hs (free_messages_ q) pool (list_to_set_disj (contents q) ⊎ held) →
  wp (read_drain n (S fuel) this) (λ m s', ∃ start' free' hs',
    s' = at_queue s this (moved q start' free') hs' sig ∧
    last (contents q) = Some m ∧ contents (moved q start' free') = [] ∧
    ring_wf (moved q start' free') ∧
    pool_inv hs' free' pool ({[+ m +]} ⊎ held) ∧ frame pool hs hs')
    (at_queue s this q hs sig).
Proof.
  revert y q hs n. induction l as [|z l IH]; intros y q hs n W Hr Hc Hn HP;
    (destruct n as [|n]; [lia|]); cbn [read_drain].
  all: assert (Wp : ring_wf (pop q)) by (apply pop_wf; [done|by rewrite Hc]).
  all: pose proof (contents_pop q W _ _ Hc) as Hcp.
  all: apply wp_bind, wp_advance; [done|]; apply wp_bind, wp_get_at, wp_bind.
  all: (eapply wp_lift; [apply (data_at_eq (pop q) Wp); apply W|]).
  all: change (data_ (pop q)) with (data_ q); rewrite (contents_head q W _ _ Hc).
  - apply (empty_iff _ Wp) in Hcp as Hse. rewrite Hse, Z.eqb_refl. apply wp_ret.
    rewrite moved_pop in *. eexists _, _, hs. split; [done|].
    rewrite Hc. split_and!; [done|done|done| |done].
    rewrite Hc, list_to_set_disj_cons, list_to_set_disj_nil, (right_id_L ∅ (⊎)) in HP. done.
  - destruct (Z.eqb_spec (data_start_ (pop q)) (data_end_ (pop q))) as [E|E].
    { apply (empty_iff _ Wp) in E. congruence. }
    apply wp_bind. eapply wp_mono.
    { eapply (wp_dec s this pool fuel (pop q)); [done|exact HP|].
      rewrite Hc. apply elem_of_ring_head. }
    cbn beta. intros _ s1 (free1 & hs1 & -> & HP1 & Hf1). rewrite Hc, ring_drop_head in HP1.
    assert (W1 : ring_wf (set_free (pop q) free1)) by (eapply same_ring_wf; [|exact Wp]; done).
    assert (Hc1 : contents (set_free (pop q) free1) = z :: l)
      by (rewrite <-Hcp; by apply same_ring_contents).
    eapply wp_mono; [eapply (IH z (set_free (pop q) free1) hs1 n); try done; [cbn in Hn; lia|]|].
    { by rewrite Hc1. }
    cbn beta. intros m s2 (st & fr & hs2 & -> & Hl & He & We & HP2 & Hf2).
    exists st, fr, hs2. rewrite Hc1 in Hl. rewrite Hc.
    split_and!; [done|by rewrite last_cons_cons|done|done|done|by eapply frame_trans].
Qed.

(** ** ReadMessage *)

Definition valid_read (o : Options) : bool :=
  NoOthersSet o kValidReadOptions && ExactlyOneSet o kBlockChoices.

(** Everything a read that found a message promises. *)
Record read_post (s : shm) (this : Z) (q : RawQueue) (pool : gset Z) (held : gmultiset Z)
    (m : Z) (items : list Z) (s' : shm) (q' : RawQueue) : Prop := mkReadPost {
  rp_inv : queue_inv s' this q' pool ({[+ m +]} ⊎ held);
  rp_items : contents q' = items;
  rp_total : messages_ q' = messages_ q;
  rp_ident : ident q' = ident q;
  rp_sig : signals s' = signals s ++ writable_signal this q q';
  rp_only : only_queue s s' this pool }.

(** ... and a read that did not find one. *)
Record nothing_post (s : shm) (this : Z) (q : RawQueue) (pool : gset Z) (held : gmultiset Z)
    (o : Options) (s' : shm) (q' : RawQueue) : Prop := mkNothingPost {
  np_inv : queue_inv s' this q' pool held;
  np_items : contents q' = contents q;
  np_total : messages_ q' = messages_ q;
  np_ident : ident q' = ident q;
  np_waiting : readable_waiting_ q' = (if opt_and o kNonBlock then readable_waiting_ q else true);
  np_sig : signals s' = signals s;
  np_only : only_queue s s' this pool }.

Definition nothing_result (o : Options) : rres :=
  if opt_and o kNonBlock then RDone 0 else RWait.

(** A queue as a reader sees it after taking the lock and starting. *)
Notation started q := (set_writable_start (set_lock q Locked) (negb (bool_decide (full q)))).

Lemma wp_read_start s this q hs sig o i Q :
  ring_wf q → read_blocked q i = false →
  Q Start (at_queue s this (started q) hs sig) →
  wp (ReadCommonStart this o i) Q (at_queue s this (set_lock q Locked) hs sig).
Proof.
  intros W Hb HQ. unfold ReadCommonStart. apply wp_bind, wp_get_at.
  change (read_blocked (set_lock q Locked) i) with (read_blocked q i). rewrite Hb.
  apply wp_bind. eapply wp_lift; [exact (is_writable_eq q W)|].
  by apply wp_bind, wp_upd_at, wp_ret.
Qed.

(** The common end of all reads: the broadcast, then the unlock. *)
Lemma wp_read_end s this q q1 hs sig m pool held (A : Type) (r : A) :
  ring_wf q1 → recycle_ q1 = 0 → writable_start_ q1 = negb (bool_decide (full q)) →
  frame pool (headers s) hs →
  messages_ q1 = messages_ q → ident q1 = ident q →
  pool_inv hs (free_messages_ q1) pool (list_to_set_disj (contents q1) ⊎ ({[+ m +]} ⊎ held)) →
  sig = signals s →
  wp (_ ← ReadCommonEnd this; _ ← unlock_data this; mret r)
    (λ a s', a = r ∧ ∃ q', read_post s this q pool held m (contents q1) s' q')
    (at_queue s this q1 hs sig).
Proof.
  intros W Hr Hw Hf Hms Hql HP ->. set (q2 := set_lock q1 Unlocked).
  assert (HI : ∀ sig, queue_inv (at_queue s this q2 hs sig) this q2 pool ({[+ m +]} ⊎ held)).
  { intros sig. apply queue_inv_at; [eapply same_ring_wf; [|exact W]; done|done|done|done]. }
  assert (Hdone : ∀ sig, sig = signals s ++ writable_signal this q q2 →
    ∃ q', read_post s this q pool held m (contents q1) (at_queue s this q2 hs sig) q').
  { intros sig ->. exists q2. by split; [apply HI|..|apply only_queue_at]. }
  unfold ReadCommonEnd. apply wp_bind, wp_bind, wp_get_at, wp_bind.
  eapply wp_lift; [by apply is_writable_eq|]. rewrite Hw.
  unfold writable_signal in Hdone. change (full q2) with (full q1) in Hdone.
  destruct (bool_decide (full q)), (bool_decide (full q1)); cbn [andb negb] in Hdone |- *;
    [apply wp_ret|apply wp_broadcast_at|apply wp_ret|apply wp_ret];
    apply wp_bind, wp_unlock_data, wp_ret; (split; [done|]); apply Hdone;
    by rewrite ?app_nil_r.
Qed.

Lemma held_take (R held : gmultiset Z) m :
  {[+ m +]} ⊎ (R ⊎ held) = R ⊎ ({[+ m +]} ⊎ held).
Proof. clear. multiset_solver. Qed.

Lemma ring_take_head (l : list Z) (held : gmultiset Z) x :
  list_to_set_disj (x :: l) ⊎ held = list_to_set_disj l ⊎ ({[+ x +]} ⊎ held).
Proof.
  rewrite list_to_set_disj_cons. generalize (list_to_set_disj l : gmultiset Z).
  intros R. multiset_solver.
Qed.

Lemma elem_of_ring (l : list Z) (held : gmultiset Z) x :
  x ∈ l → x ∈ list_to_set_disj l ⊎ held.
Proof.
  intros Hx. apply gmultiset_elem_of_disj_union. left. by apply elem_of_list_to_set_disj.
Qed.

Section Read.
Context (s : shm) (this : Z) (q : RawQueue) (pool : gset Z) (held : gmultiset Z).
Context (n : nat) (o : Options).
Hypothesis I : queue_inv s this q pool held.

(** What both kinds of read do when [ReadCommonStart] finds nothing. *)
Lemma nothing_branch (A : Type) (f : rres → A) (k : rstart → M A) :
  k Nothing = (_ ← unlock_data this; mret (f (RDone 0))) →
  k Wait = (_ ← unlock_data this; mret (f RWait)) →
  wp (if opt_and o kNonBlock then mret Nothing
      else _ ← upd_queue this (λ q, set_readable_waiting q true); mret Wait)
    (λ a s1, wp (k a)
      (λ r s', r = f (nothing_result o) ∧ ∃ q', nothing_post s this q pool held o s' q') s1)
    (at_queue s this (set_lock q Locked) (headers s) (signals s)).
Proof.
  intros Hn Hw. unfold nothing_result. destruct (opt_and o kNonBlock) eqn:Ho.
  - apply wp_ret. rewrite Hn. apply wp_bind, wp_unlock_data, wp_ret. split; [done|].
    rewrite unlocked_id by apply I. exists q.
    split; rewrite ?Ho; [apply queue_inv_at; apply I|done..|by apply only_queue_at].
  - apply wp_bind, wp_upd_at, wp_ret. rewrite Hw. apply wp_bind, wp_unlock_data, wp_ret. split; [done|].
    exists (set_lock (set_readable_waiting (set_lock q Locked) true) Unlocked).
    split; rewrite ?Ho; [|by apply same_ring_contents|done..|by apply only_queue_at].
    apply queue_inv_at; [eapply same_ring_wf; [|apply I]; done|done|apply I..].
Qed.

Lemma read_empty :
  contents q = [] →
  wp (DoReadMessage n this o) (λ r s',
    r = nothing_result o ∧ ∃ q', nothing_post s this q pool held o s' q') s.
Proof.
  intros Hc.
  rewrite (at_queue_id s this q (qi_object _ _ _ _ _ I)) at 1.
  apply wp_bind, wp_lock_data; [apply I|]. apply wp_bind. unfold ReadCommonStart.
  apply wp_bind, wp_get_at.
  assert (read_blocked (set_lock q Locked) None = true) as ->.
  { unfold read_blocked. cbn.
    apply (empty_iff q (qi_ring _ _ _ _ _ I)) in Hc. by rewrite Hc, Z.eqb_refl. }
  by eapply (nothing_branch _ (λ r, r)).
Qed.

Lemma ring_not_blocked x l : contents q = x :: l → read_blocked q None = false.
Proof.
  intros Hc. unfold read_blocked. cbn. rewrite orb_false_r. apply Z.eqb_neq. intros E.
  apply (empty_iff q (qi_ring _ _ _ _ _ I)) in E. congruence.
Qed.

Lemma started_wf : ring_wf (started q).
Proof. eapply same_ring_wf; [|apply I]. done. Qed.
Lemma started_contents : contents (started q) = contents q.
Proof. by apply same_ring_contents. Qed.

(** Taking a message out of the front. *)
Lemma read_front x l :
  contents q = x :: l → opt_and o kFromEnd = false → opt_and o kPeek = false →
  wp (DoReadMessage n this o) (λ r s', r = RDone x ∧
    ∃ q', read_post s this q pool held x l s' q') s.
Proof.
  intros Hc Hfe Hpk. pose proof started_wf as W.
  rewrite (at_queue_id s this q (qi_object _ _ _ _ _ I)) at 1.
  apply wp_bind, wp_lock_data; [apply I|]. apply wp_bind, wp_read_start.
  { apply I. } { by eapply ring_not_blocked. }
  apply wp_bind, wp_get_at, wp_bind. rewrite Hfe, Hpk.
  apply wp_bind. eapply wp_lift; [apply data_at_eq; apply W|].
  rewrite (contents_head _ W x l) by by rewrite started_contents.
  apply wp_bind, wp_bind, wp_advance; [done|]. apply wp_ret, wp_ret.
  assert (Hcp : contents (pop (started q)) = l)
    by (apply (contents_pop _ W x); by rewrite started_contents).
  eapply wp_mono; [eapply (wp_read_end s this q (pop (started q)) _ _ x pool held); try done|].
  - apply pop_wf; [done|]. by rewrite started_contents, Hc.
  - apply I.
  - rewrite Hcp. pose proof (qi_pool _ _ _ _ _ I) as HP.
    rewrite Hc, ring_take_head in HP. exact HP.
  - cbn beta. by rewrite Hcp.
Qed.

(** Looking at a message and leaving it in. *)
Lemma read_peek i m :
  contents q ≠ [] → at_index (data_ q) i = m → m ∈ contents q → 0 ≤ i < data_length_ q →
  Z.of_nat (size (list_to_set_disj (contents q) ⊎ held : gmultiset Z)) + 1 < 2 ^ 31 - 1 →
  wp (m ← st_lift (data_at (started q) i); _ ← IncrementMessageReferenceCount m; mret m)
    (λ m' s', m' = m ∧ ∃ hs', s' = at_queue s this (started q) hs' (signals s) ∧
       frame pool (headers s) hs' ∧
       pool_inv hs' (free_messages_ q) pool
         (list_to_set_disj (contents q) ⊎ ({[+ m +]} ⊎ held)))
    (at_queue s this (started q) (headers s) (signals s)).
Proof.
  intros Hne <- Hin Hi Hsz. pose proof started_wf as W.
  apply wp_bind. eapply wp_lift; [by apply data_at_eq|].
  apply wp_bind. eapply wp_mono.
  { eapply (wp_inc s this pool (started q)); [apply I|by apply elem_of_ring|done]. }
  cbn beta. intros _ s' (hs' & -> & HP & Hf). apply wp_ret. split; [done|].
  exists hs'. rewrite <-held_take. done.
Qed.

Lemma DoReadMessage_peek i m :
  contents q ≠ [] → opt_and o kPeek = true →
  (if opt_and o kFromEnd then last (contents q) else head (contents q)) = Some m →
  i = (if opt_and o kFromEnd then (data_end_ q - 1) mod data_length_ q else data_start_ q) →
  Z.of_nat (size (list_to_set_disj (contents q) ⊎ held : gmultiset Z)) + 1 < 2 ^ 31 - 1 →
  wp (DoReadMessage n this o) (λ r s', r = RDone m ∧
    ∃ q', read_post s this q pool held m (contents q) s' q') s.
Proof.
  intros Hne Hpk Hm Hi Hsz. pose proof started_wf as W.
  pose proof (qi_ring _ _ _ _ _ I) as Wq.
  assert (Hpos : contents q ≠ [] → at_index (data_ q) i = m ∧ m ∈ contents q ∧
    0 ≤ i < data_length_ q).
  { intros _. subst i. destruct (opt_and o kFromEnd).
    - rewrite (contents_last q Wq Hne) in Hm. injection Hm as <-. split_and!; try done.
      + apply last_Some_elem_of. by apply contents_last.
      + apply Z.mod_pos_bound, (ring_len_pos q Wq).
      + apply Z.mod_pos_bound, (ring_len_pos q Wq).
    - destruct (contents q) as [|x l] eqn:Hc; [done|]. injection Hm as <-.
      rewrite (contents_head q Wq _ _ Hc). split_and!; [done|set_solver|apply Wq..]. }
  destruct (Hpos Hne) as (Hat & Hin & Hbd).
  assert (Hend : ∀ hs', frame pool (headers s) hs' → pool_inv hs' (free_messages_ q) pool
         (list_to_set_disj (contents q) ⊎ ({[+ m +]} ⊎ held)) →
    wp (_ ← ReadCommonEnd this; _ ← unlock_data this; mret (RDone m))
     (λ r s', r = RDone m ∧ ∃ q', read_post s this q pool held m (contents q) s' q')
     (at_queue s this (started q) hs' (signals s))).
  { intros hs' Hf HP.
    apply (wp_read_end s this q (started q) hs' _ m pool held); try done; apply I || apply W. }
  rewrite (at_queue_id s this q (qi_object _ _ _ _ _ I)) at 1.
  destruct (contents q) as [|x0 l0] eqn:Hc; [done|].
  apply wp_bind, wp_lock_data; [apply I|]. apply wp_bind, wp_read_start.
  { apply I. } { by eapply ring_not_blocked. }
  apply wp_bind, wp_get_at, wp_bind. rewrite <-Hc in *. rewrite Hpk. subst i.
  destruct (opt_and o kFromEnd).
  - apply wp_bind. eapply wp_lift; [by apply LastMessageIndex_eq|].
    eapply wp_mono; [by eapply (read_peek _ m)|]. cbn beta.
    intros m' s1 (-> & hs' & -> & Hf & HP). by apply Hend.
  - eapply wp_mono; [by eapply (read_peek _ m)|]. cbn beta.
    intros m' s1 (-> & hs' & -> & Hf & HP). by apply Hend.
Qed.

(** Draining everything but the newest message. *)
Lemma read_from_end k x l :
  n = S k → contents q = x :: l → opt_and o kFromEnd = true → opt_and o kPeek = false →
  wp (DoReadMessage n this o) (λ r s', ∃ m, r = RDone m ∧ last (contents q) = Some m ∧
    ∃ q', read_post s this q pool held m [] s' q') s.
Proof.
  intros -> Hc Hfe Hpk. pose proof started_wf as W.
  rewrite (at_queue_id s this q (qi_object _ _ _ _ _ I)) at 1.
  apply wp_bind, wp_lock_data; [apply I|]. apply wp_bind, wp_read_start.
  { apply I. } { by eapply ring_not_blocked. }
  apply wp_bind, wp_get_at, wp_bind. rewrite Hfe, Hpk.
  eapply wp_mono.
  { eapply (wp_drain k s this pool held x l (started q)); try done; try apply I.
    pose proof (count_bound q (qi_ring _ _ _ _ _ I)) as Hb.
    rewrite <-contents_length, Hc in Hb. destruct (qi_ring _ _ _ _ _ I). cbn in *. lia. }
  cbn beta. intros m s1 (st & fr & hs' & -> & Hl & He & We & HP & Hf).
  eapply wp_mono.
  { eapply (wp_read_end s this q (moved (started q) st fr) hs' _ m pool held _ (RDone m));
      try done; [apply I|].
    rewrite He, list_to_set_disj_nil, (left_id_L ∅ (⊎)). exact HP. }
  cbn beta. intros r s2 (-> & q' & Hp). exists m. rewrite He in Hp.
  rewrite <-started_contents. eauto.
Qed.
End Read.
