(* ===== verification/QueueIndex.v ===== *)
(** * Reading with an index

    [DoReadMessageIndex] keeps, for every reader, the number of the next
    message it wants.  [index_position] is shown to find the oldest message
    in the ring that is not older than that. *)

From S2P Require Import Prelude Options SharedMem Ring RawQueue QueuePool QueueOps QueueSpec.
From S2P Require Import QueueRead.

Section IndexPosition.
Variable q : RawQueue.
Hypothesis W : ring_wf q.
Hypothesis Hne : contents q ≠ [].

Notation L := (data_length_ q).
Notation c := (count q).

Lemma count_positive : (0 < c)%nat.
Proof. rewrite <-contents_length. destruct (contents q); [done|cbn; lia]. Qed.

(** [current_messages], computed with a conditional addition. *)
Lemma current_messages_eq :
  (current_messages ← i32 (data_end_ q - data_start_ q);
   if current_messages <? 0 then i32 (current_messages + L) else Ok current_messages)
  = Ok (Z.of_nat c).
Proof.
  destruct W. rewrite chk_ok by (unfold in_signed; cbn; lia). rewrite res_bind_Ok.
  unfold count, ring_count.
  pose proof (Z.mod_pos_bound (data_end_ q - data_start_ q) L ltac:(lia)).
  rewrite Z2Nat.id by lia. destruct (Z.ltb_spec (data_end_ q - data_start_ q) 0).
  - rewrite chk_ok by (unfold in_signed; cbn; lia). f_equal.
    apply Z.mod_unique with (-1); lia.
  - by rewrite Z.mod_small by lia.
Qed.

(** [my_start], stepping back from the end with a conditional addition. *)
Lemma my_start_eq k :
  (k ≤ c)%nat →
  (my_start ← i32 (data_end_ q - Z.of_nat k);
   if my_start <? 0 then i32 (my_start + L) else Ok my_start)
  = Ok ((data_end_ q - Z.of_nat k) mod L).
Proof.
  intros Hk. pose proof (count_bound q W). destruct W.
  rewrite chk_ok by (unfold in_signed; cbn; lia). rewrite res_bind_Ok.
  destruct (Z.ltb_spec (data_end_ q - Z.of_nat k) 0).
  - rewrite chk_ok by (unfold in_signed; cbn; lia). f_equal.
    apply Z.mod_unique with (-1); lia.
  - by rewrite Z.mod_small by lia.
Qed.

(** The position read and the index left, for both branches. *)
Lemma index_position_eq o index m index' :
  0 ≤ index < messages_ q →
  spec_read_index (opt_and o kFromEnd) (opt_and o kPeek) (messages_ q) (contents q) index
    = Some (m, index') →
  ∃ pos, index_position q o index = Ok (pos, index') ∧ 0 ≤ pos < L ∧
    at_index (data_ q) pos = m ∧ m ∈ contents q.
Proof.
  intros Hi. unfold spec_read_index, index_position.
  destruct (opt_and o kFromEnd).
  { rewrite (contents_last q W Hne). cbn. intros [= <- <-].
    exists ((data_end_ q - 1) mod L). rewrite (LastMessageIndex_eq q W).
    split_and!; [done|apply Z.mod_pos_bound, (ring_len_pos q W)..|done|].
    by apply last_Some_elem_of, contents_last. }
  rewrite contents_length. pose proof count_positive as Hc.
  pose proof (count_bound q W) as Hcb. pose proof W as [].
  set (k := Z.to_nat (Z.min (messages_ q - index) (Z.of_nat c))).
  assert (Hk : (1 ≤ k ≤ c)%nat) by lia.
  assert (Hnum : Z.max index (messages_ q - Z.of_nat c) = messages_ q - Z.of_nat k) by lia.
  rewrite Hnum.
  replace (Z.to_nat (messages_ q - Z.of_nat k - (messages_ q - Z.of_nat c)))
    with (c - S (k - 1))%nat by lia.
  rewrite (contents_back q W) by lia.
  replace (S (k - 1)) with k by lia. intros [= <- <-].
  assert (Hin : at_index (data_ q) ((data_end_ q - Z.of_nat k) mod L) ∈ contents q).
  { apply list_elem_of_lookup. exists (c - S (k - 1))%nat.
    rewrite (contents_back q W) by lia. by replace (S (k - 1)) with k by lia. }
  exists ((data_end_ q - Z.of_nat k) mod L).
  split; [|split; [apply Z.mod_pos_bound, (ring_len_pos q W)|done]].
  rewrite (chk_ok 32 (messages_ q - index)) by (unfold in_signed; cbn; lia).
  rewrite res_bind_Ok. pose proof current_messages_eq as Hcm.
  revert Hcm. destruct (chk 32 (data_end_ q - data_start_ q)) as [d|]; intros Hcm; [|done].
  rewrite res_bind_Ok in Hcm. rewrite res_bind_Ok, Hcm, res_bind_Ok.
  destruct (Z.ltb_spec (Z.of_nat c) (messages_ q - index)).
  - rewrite (chk_ok 32 (messages_ q - Z.of_nat c)) by (unfold in_signed; cbn; lia).
    rewrite !res_bind_Ok. assert (k = c) as -> by lia.
    replace ((data_end_ q - Z.of_nat c) mod L) with (data_start_ q).
    2: { symmetry. unfold count.
    rewrite (ring_back L (data_start_ q) (data_end_ q)) by (done || lia).
    rewrite Nat.sub_diag, Z.add_0_r. by apply Z.mod_small. }
    destruct (opt_and o kPeek); cbn [negb]; [done|].
    rewrite chk_ok by (unfold in_signed; cbn; lia). done.
  - replace (messages_ q - index) with (Z.of_nat k) by lia.
    pose proof (my_start_eq k ltac:(lia)) as Hms.
    revert Hms. destruct (chk 32 (data_end_ q - Z.of_nat k)) as [e|]; intros Hms; [|done].
    rewrite res_bind_Ok in Hms. rewrite res_bind_Ok, Hms, !res_bind_Ok.
    replace index with (messages_ q - Z.of_nat k) by lia.
    destruct (opt_and o kPeek); cbn [negb]; [done|].
    rewrite chk_ok by (unfold in_signed; cbn; lia). done.
Qed.
End IndexPosition.

(** ** DoReadMessageIndex *)

Section ReadIndex.
Context (s : shm) (this : Z) (q : RawQueue) (pool : gset Z) (held : gmultiset Z).
Context (o : Options) (index : Z).
Hypothesis I : queue_inv s this q pool held.

(** Nothing new: either a refusal or a wait, and the index stays. *)
Lemma read_index_blocked :
  read_blocked q (Some index) = true →
  wp (DoReadMessageIndex this o index) (λ r s',
    r = (nothing_result o, index) ∧ ∃ q', nothing_post s this q pool held o s' q') s.
Proof.
  intros Hb. rewrite (at_queue_id s this q (qi_object _ _ _ _ _ I)) at 1.
  apply wp_bind, wp_lock_data; [apply I|]. apply wp_bind. unfold ReadCommonStart.
  apply wp_bind, wp_get_at.
  change (read_blocked (set_lock q Locked) (Some index)) with (read_blocked q (Some index)).
  rewrite Hb. by eapply (nothing_branch _ _ _ _ _ _ I _ (λ r, (r, index))).
Qed.

Lemma read_index_found m index' :
  contents q ≠ [] → 0 ≤ index < messages_ q →
  spec_read_index (opt_and o kFromEnd) (opt_and o kPeek) (messages_ q) (contents q) index
    = Some (m, index') →
  Z.of_nat (size (list_to_set_disj (contents q) ⊎ held : gmultiset Z)) + 1 < 2 ^ 31 - 1 →
  wp (DoReadMessageIndex this o index) (λ r s', r = (RDone m, index') ∧
    ∃ q', read_post s this q pool held m (contents q) s' q') s.
Proof.
  intros Hne Hi Hsp Hsz. pose proof (qi_ring _ _ _ _ _ I) as W.
  assert (Hb : read_blocked q (Some index) = false).
  { unfold read_blocked. apply orb_false_iff. split.
    - apply Z.eqb_neq. intros E. by apply (empty_iff q W) in E.
    - apply Z.leb_gt. lia. }
  destruct (index_position_eq q W Hne o index m index' Hi Hsp)
    as (pos & Hp & Hbd & Hat & Hin).
  rewrite (at_queue_id s this q (qi_object _ _ _ _ _ I)) at 1.
  apply wp_bind, wp_lock_data; [apply I|]. apply wp_bind, wp_read_start; [done..|].
  apply wp_bind, wp_get_at, wp_bind. eapply wp_lift; [exact Hp|].
  apply wp_bind. eapply wp_lift.
  { exact (data_at_eq q W pos Hbd). } rewrite Hat.
  apply wp_bind. eapply wp_mono.
  { eapply (wp_inc s this pool (started q)); [apply I|by apply elem_of_ring|done]. }
  cbn beta. intros _ s' (hs' & -> & HP & Hf). rewrite held_take in HP.
  apply (wp_read_end s this q (started q) hs' _ m pool held); try done; [|apply I].
  eapply same_ring_wf; [|exact W]. done.
Qed.
End ReadIndex.

(** ** Histories

    [history] is every message written so far, in order: the queue holds its
    end, and its length is [messages_]. *)

Definition holds_history (q : RawQueue) (history : list Z) : Prop :=
  messages_ q = Z.of_nat (length history) ∧ contents q `suffix_of` history.

(** In terms of the history, a read with an index takes entry
    [max index oldest]. *)
Lemma spec_read_index_history q history peek index m index' :
  holds_history q history → 0 ≤ index →
  spec_read_index false peek (messages_ q) (contents q) index = Some (m, index') →
  let number := Z.max index (messages_ q - Z.of_nat (length (contents q))) in
  history !! Z.to_nat number = Some m ∧ index' = if peek then number else number + 1.
Proof.
  intros [Ht [pre ->]] Hi. unfold spec_read_index. rewrite Ht, length_app.
  intros H. apply bind_Some in H as (m' & Hm & [= <- <-]). split; [|done].
  rewrite lookup_app_r by lia. rewrite <-Hm. f_equal. lia.
Qed.

Lemma spec_write_history q q' history mode m r :
  holds_history q history → spec_write (queue_length_ q) mode (contents q) m = (r, contents q') →
  messages_ q' = total_after r (messages_ q) →
  holds_history q' (match r with WDone true => history ++ [m] | _ => history end).
Proof.
  intros [Ht [pre Hpre]] Hs Htot. unfold spec_write in Hs.
  destruct (Z.of_nat (length (contents q)) <? queue_length_ q); [|destruct mode];
    injection Hs as <- Hc; cbn in Htot; (split; [rewrite ?length_app; cbn; lia|]);
    rewrite <-Hc, Hpre.
  - exists pre. by rewrite app_assoc.
  - by exists pre.
  - exists (pre ++ take 1 (contents q)). by rewrite <-!app_assoc, (app_assoc (take _ _)), take_drop.
  - by exists pre.
Qed.
