(* ===== verification/QueueCreate.v ===== *)
(** * Creating and finding queues

    [Fetch] keeps a linked list of all queues in shared memory and creates a
    queue the first time its key (name, message length, hash, queue length)
    is asked for.  A new queue is empty, every message of its pool is free,
    and none of its memory overlaps anything handed out before. *)

From S2P Require Import Prelude Options SharedMem Ring RawQueue QueuePool QueueOps QueueSpec.

(** ** Allocation in the store *)

Definition with_core (s : shm) (c : aos_shm_core) : shm :=
  mkShm (global_core s) c (queue_objects s) (headers s) (signals s).

(** [n] bytes (and the alignment) still fit above [shared_mem]. *)
Definition room_for (s : shm) (n : Z) : Prop :=
  0 ≤ shared_mem (global_core s) ∧
  shared_mem (global_core s) + n + 256 ≤ msg_alloc (shm_core s).

Lemma wp_malloc s len Q :
  0 ≤ len → msg_alloc_lock (shm_core s) = Unlocked → room_for s len →
  (∀ p, shared_mem (global_core s) < p → p + len ≤ msg_alloc (shm_core s) < p + len + 256 →
     Q p (with_core s (set_msg_alloc p (shm_core s)))) →
  wp (malloc len) Q s.
Proof.
  intros Hlen Hl [H0 Hroom] HQ. unfold wp, malloc, shm_malloc.
  pose proof (shm_malloc_aligned_run (global_core s) len 0 (shm_core s)) as Hrun.
  cbn zeta in Hrun. rewrite Hrun; [|unfold is_alignment; lia|by rewrite Hl|lia]. clear Hrun.
  destruct (effective_alignment_bounds len 0) as [? _]; [unfold is_alignment; lia|].
  destruct (alloc_address_spec (msg_alloc (shm_core s)) len (effective_alignment len 0))
    as (_ & ? & ?); [lia|].
  destruct (Z.leb_spec (alloc_address (msg_alloc (shm_core s)) len (effective_alignment len 0))
    (shared_mem (global_core s))); [lia|].
  replace (set_alloc_lock Unlocked _) with
    (set_msg_alloc (alloc_address (msg_alloc (shm_core s)) len (effective_alignment len 0))
       (shm_core s)); [apply HQ; lia|].
  unfold set_alloc_lock, set_msg_alloc. cbn. by rewrite Hl.
Qed.

(** ** The pool of a new queue *)

Lemma chain_extend hs h l x v :
  chain hs h l → x ≠ 0 → x ∉ l → next v = h → chain (<[x := v]> hs) x (x :: l).
Proof.
  intros Hc Hx Hn Hv. cbn. split_and!; [done|done|]. exists v.
  rewrite lookup_insert_eq. split; [done|]. rewrite Hv. by apply chain_insert.
Qed.

(** What [make_messages] has allocated when it returns [free]. *)
Record made (s s' : shm) (n : nat) (len : Z) (old fl : list Z) (free : Z) : Prop := mkMade {
  made_core : global_core s' = global_core s ∧ queue_objects s' = queue_objects s ∧
    signals s' = signals s;
  made_shm : shm_core s' = set_msg_alloc (msg_alloc (shm_core s')) (shm_core s);
  made_chain : chain (headers s') free (fl ++ old);
  made_nodup : NoDup fl;
  made_length : length fl = n;
  made_range : ∀ h, h ∈ fl → shared_mem (global_core s) < h ∧
    msg_alloc (shm_core s') ≤ h < msg_alloc (shm_core s) ∧ is_Some (headers s' !! h);
  made_other : ∀ h, h ∉ fl → headers s' !! h = headers s !! h;
  made_alloc : msg_alloc (shm_core s) - Z.of_nat n * (len + 256) ≤ msg_alloc (shm_core s')
    ≤ msg_alloc (shm_core s) }.

Lemma wp_make_messages n len previous old s :
  16 ≤ len → msg_alloc_lock (shm_core s) = Unlocked →
  room_for s (Z.of_nat n * (len + 256)) →
  chain (headers s) previous old → (∀ h, h ∈ old → msg_alloc (shm_core s) ≤ h) →
  wp (make_messages n len previous) (λ free s', ∃ fl, made s s' n len old fl free) s.
Proof.
  revert previous old s. induction n as [|n IH]; intros previous old s Hlen Hl Hroom Hc Hold.
  - apply wp_ret. exists []. split; cbn; try done; [by destruct s as [? [] ? ? ?]|constructor|set_solver|lia].
  - cbn [make_messages]. destruct Hroom as [H0 Hroom].
    apply wp_bind, wp_malloc; [lia|done|split; lia|]. intros p Hp1 Hp2.
    apply wp_bind. set (s1 := with_core s (set_msg_alloc p (shm_core s))).
    set (s2 := with_headers s1 (<[p := mkHeader previous 0]> (headers s1))).
    change (wp (make_messages n len p) (λ free s', ∃ fl, made s s' (S n) len old fl free) s2).
    assert (Hnew : p ∉ old) by (intros Hin; apply Hold in Hin; lia).
    eapply wp_mono; [apply (IH p (p :: old) s2)|].
    + done.
    + done.
    + split; cbn; lia.
    + apply (chain_extend (headers s) previous); [done|lia|done|done].
    + intros h [->|Hh]%elem_of_cons; cbn; [lia|]. apply Hold in Hh. lia.
    + cbn beta. intros free s' [fl Hm].
      destruct Hm as [(M1 & M2 & M3) M4 M5 M6 M7 M8 M9 M10]. cbn in *.
      assert (Hpf : p ∉ fl).
      { intros Hin. apply M8 in Hin as (_ & ? & _). lia. }
      exists (fl ++ [p]). split.
      * by rewrite M1, M2, M3.
      * rewrite M4. by destruct (shm_core s).
      * by rewrite <-app_assoc.
      * apply NoDup_app. split_and!; [done|set_solver|apply NoDup_singleton].
      * rewrite length_app. cbn. lia.
      * intros h [Hh|Hh%list_elem_of_singleton]%elem_of_app.
        -- destruct (M8 h Hh) as (? & ? & ?). split_and!; try done; lia.
        -- subst h. split_and!; [lia|lia|lia|]. rewrite M9 by done.
           rewrite lookup_insert_eq. done.
      * intros h Hh. rewrite M9 by set_solver. apply lookup_insert_ne. set_solver.
      * lia.
Qed.

(** ** The constructor *)

(** Bytes a queue takes at most (alignment included). *)
Definition queue_bytes (name : string) (length queue_length : Z) : Z :=
  Z.of_nat (String.length name) + 8 * (queue_length + 1)
  + (queue_length + kExtraMessages) * (length + sizeof_MessageHeader + 256)
  + sizeof_RawQueue + 4 * 256.

Definition queue_params (length queue_length : Z) : Prop :=
  0 ≤ length < 2 ^ 32 ∧ 1 ≤ queue_length < 2 ^ 31 - 20.

(** A store where new addresses really are new. *)
Record store_fresh (s : shm) : Prop := mkFresh {
  sf_lock : msg_alloc_lock (shm_core s) = Unlocked;
  sf_queues : ∀ p q, queue_objects s !! p = Some q → msg_alloc (shm_core s) ≤ p;
  sf_headers : ∀ h x, headers s !! h = Some x → msg_alloc (shm_core s) ≤ h }.

Definition new_raw_queue (name : string) (length hash queue_length free : Z) : RawQueue :=
  mkQueue name length hash queue_length 0 0 Unlocked (queue_length + 1) 0 0 0
    (replicate (Z.to_nat (queue_length + 1)) 0) (length + sizeof_MessageHeader) free false false.

Lemma new_raw_queue_wf name length hash ql free :
  queue_params length ql → ring_wf (new_raw_queue name length hash ql free).
Proof.
  intros [_ Hq]. split; cbn; try lia.
  - rewrite length_replicate. lia.
  - unfold count, ring_count. cbn. rewrite Z.mod_0_l by lia. lia.
Qed.

Lemma new_raw_queue_contents name length hash ql free :
  contents (new_raw_queue name length hash ql free) = [].
Proof.
  unfold contents, count, ring_count. cbn. rewrite Zmod_0_l. done.
Qed.

(** What the constructor leaves behind, besides the queue itself. *)
Record constructed (s s' : shm) (this : Z) (q : RawQueue) (pool : gset Z) : Prop := mkConstructed {
  con_inv : queue_inv s' this q pool ∅;
  con_empty : contents q = [];
  con_total : messages_ q = 0;
  con_fresh : store_fresh s';
  con_objects : queue_objects s' = <[this := q]> (queue_objects s);
  con_headers : ∀ h, h ∉ pool → headers s' !! h = headers s !! h;
  con_pool : ∀ h, h ∈ pool → headers s !! h = None ∧ shared_mem (global_core s) < h;
  con_shm : shm_core s' = set_msg_alloc (msg_alloc (shm_core s')) (shm_core s);
  con_core : global_core s' = global_core s;
  con_signals : signals s' = signals s;
  con_size : Z.of_nat (size pool) = queue_length_ q + kExtraMessages }.

Lemma fresh_pool_at hs free fl :
  chain hs free fl → NoDup fl → (∀ h, h ∈ fl → 0 < h ∧ is_Some (hs !! h)) →
  pool_inv hs free (list_to_set fl) ∅.
Proof.
  intros Hc Hn Hh. exists fl. split; [done|done|..].
  - intros h. by rewrite elem_of_list_to_set.
  - intros h. rewrite elem_of_list_to_set. apply Hh.
  - intros m Hm. exfalso. multiset_solver.
  - intros h x Hin Hnf. by apply elem_of_list_to_set in Hin.
  - rewrite gmultiset_size_empty. done.
Qed.

Lemma wp_RawQueue_construct s this name length hash ql :
  store_fresh s → queue_params length ql → msg_alloc (shm_core s) ≤ this →
  room_for s (queue_bytes name length ql - sizeof_RawQueue - 256) →
  wp (RawQueue_construct this name length hash ql) (λ _ s',
    ∃ q pool, constructed s s' this q pool ∧ queue_matches q name length hash ql = true ∧
      next_ q = 0) s.
Proof.
  intros [F1 F2 F3] Hpar Hthis [R0 R1]. pose proof Hpar as [Hl Hq].
  unfold queue_bytes, sizeof_RawQueue, sizeof_MessageHeader, kExtraMessages in R1.
  unfold RawQueue_construct. destruct (Z.ltb_spec ql 1); [lia|].
  apply wp_bind, wp_malloc; [lia|done|split; nia|]. intros p1 P1 P1'.
  apply wp_bind. eapply wp_lift; [apply chk_ok; unfold in_signed; cbn; lia|].
  apply wp_bind, wp_malloc; [lia|done|split; cbn; nia|]. cbn [shm_core with_core]. intros p2 P2 P2'.
  cbn in P2, P2'. apply wp_bind.
  eapply wp_lift; [apply chk_ok; unfold in_signed, kExtraMessages; cbn; lia|].
  assert (Hml : u64 (length + sizeof_MessageHeader) = length + 16).
  { rewrite uwrap_small; [done|]. unfold in_unsigned, sizeof_MessageHeader. cbn; lia. }
  rewrite Hml. apply wp_bind. eapply wp_mono.
  { apply (wp_make_messages _ (length + 16) 0 []); [lia|done| |done|set_solver].
    split; cbn; unfold kExtraMessages; [done|]. rewrite Z2Nat.id by lia. nia. }
  cbn beta. intros free s' [fl Hm]. destruct Hm as [(M1 & M2 & M3) M4 M5 M6 M7 M8 M9 M10].
  cbn in M1, M2, M3, M4, M8, M9, M10. rewrite app_nil_r in M5.
  unfold wp, new_queue. set (q := new_raw_queue name length hash ql free).
  exists q, (list_to_set fl). split; [|split].
  - split.
    + split; [apply lookup_insert_eq|by apply new_raw_queue_wf|done|done|].
      unfold q. rewrite new_raw_queue_contents, list_to_set_disj_nil, (left_id_L ∅ (⊎)).
      apply fresh_pool_at; try done. intros h Hh. destruct (M8 h Hh) as (? & ? & ?). split; [lia|done].
    + apply new_raw_queue_contents.
    + done.
    + split; cbn.
      * by rewrite M4.
      * intros p q0. rewrite M2. intros [[<- _]|[_ H1%F2]]%lookup_insert_Some; lia.
      * intros h x Hx. destruct (decide (h ∈ fl)) as [Hin|Hin]; [apply M8 in Hin; lia|].
        rewrite M9 in Hx by done. apply F3 in Hx. lia.
    + cbn. by rewrite M2.
    + intros h Hh. cbn. rewrite elem_of_list_to_set in Hh. by rewrite M9.
    + intros h Hh%elem_of_list_to_set. destruct (M8 h Hh) as (? & ? & _). split; [|lia].
      destruct (headers s !! h) as [x|] eqn:E; [|done]. apply F3 in E. lia.
    + cbn. rewrite M4. by destruct (shm_core s).
    + done.
    + done.
    + rewrite size_list_to_set, M7 by done. cbn. unfold kExtraMessages. lia.
  - unfold queue_matches. cbn. by rewrite bool_decide_true, !Z.eqb_refl.
  - done.
Qed.
