(* ===== verification/QueueStore.v ===== *)
(** * All queues of the segment: the store invariant and [RawQueue::Fetch]

    The queues form a list linked through [next_], started by
    [aos_core::queues].  [store_inv] says that each of them satisfies its own
    invariant, that their message pools do not overlap, and that memory below
    [msg_alloc] is unused; every operation on one queue keeps it, and [Fetch]
    extends the list by at most one queue. *)

From S2P Require Import Prelude Options SharedMem Ring RawQueue QueuePool QueueOps QueueSpec.
From S2P Require Import QueueRead QueueCreate.

(** ** The list of queues *)

Fixpoint qchain (qs : gmap Z RawQueue) (p : Z) (l : list Z) : Prop :=
  match l with
  | [] => p = 0
  | x :: l => p = x ∧ x ≠ 0 ∧ ∃ q, qs !! x = Some q ∧ qchain qs (next_ q) l
  end.

Lemma qchain_insert qs p l x v : x ∉ l → qchain qs p l → qchain (<[x := v]> qs) p l.
Proof.
  revert p. induction l as [|y l IH]; intros p Hx; cbn; [done|].
  intros (-> & ? & q & Hq & Hc). split_and!; [done..|].
  exists q. rewrite lookup_insert_ne by set_solver. split; [done|]. apply IH; set_solver.
Qed.

Lemma qchain_nonzero qs p l x : qchain qs p l → x ∈ l → x ≠ 0.
Proof.
  revert p. induction l as [|y l IH]; intros p; [set_solver|].
  intros (-> & ? & q & _ & Hc) [->|Hx]%elem_of_cons; eauto.
Qed.

(** Updating a queue without touching its [next_] keeps the list. *)
Lemma qchain_update qs p l x q v :
  qs !! x = Some q → next_ v = next_ q → qchain qs p l → qchain (<[x := v]> qs) p l.
Proof.
  intros Hq Hn. revert p. induction l as [|y l IH]; intros p; cbn; [done|].
  intros (-> & ? & q' & Hq' & Hc). split_and!; [done..|].
  destruct (decide (x = y)) as [->|Hne].
  - exists v. rewrite lookup_insert_eq. simplify_eq. rewrite Hn. auto.
  - exists q'. rewrite lookup_insert_ne by done. auto.
Qed.

(** Linking [r] behind the last queue. *)
Lemma qchain_link qs p l x q r v :
  qchain qs p (l ++ [x]) → NoDup (l ++ [x]) → qs !! x = Some q → r ≠ 0 → r ∉ l ++ [x] →
  next_ v = 0 →
  qchain (<[x := set_next q r]> (<[r := v]> qs)) p ((l ++ [x]) ++ [r]).
Proof.
  intros Hc Hn Hq Hr Hnr Hv. revert p Hc Hn Hnr.
  induction l as [|y l IH]; intros p; cbn [app qchain].
  - intros (-> & Hx & q' & Hq' & H0) _ Hnr. split_and!; [done..|].
    exists (set_next q r). rewrite lookup_insert_eq. split; [done|]. split_and!; [done..|].
    exists v. rewrite lookup_insert_ne by set_solver. by rewrite lookup_insert_eq.
  - intros (-> & Hy & q' & Hq' & Hc) [Hy' Hn]%NoDup_cons Hnr. split_and!; [done..|].
    exists q'. rewrite !lookup_insert_ne by set_solver. split; [done|].
    apply IH; [done|done|set_solver].
Qed.

(** ** Searching *)

Record queue_key := mkKey { k_name : string; k_length : Z; k_hash : Z; k_queue_length : Z }.

Definition matches (k : queue_key) (q : RawQueue) : bool :=
  queue_matches q (k_name k) (k_length k) (k_hash k) (k_queue_length k).

(** The first queue of [l] with key [k]. *)
Fixpoint find_key (qs : gmap Z RawQueue) (k : queue_key) (l : list Z) : option Z :=
  match l with
  | [] => None
  | x :: l =>
      match qs !! x with
      | Some q => if matches k q then Some x else find_key qs k l
      | None => find_key qs k l
      end
  end.

Lemma find_key_cons qs k x l q :
  qs !! x = Some q →
  find_key qs k (x :: l) = if matches k q then Some x else find_key qs k l.
Proof. cbn. by intros ->. Qed.

Lemma find_key_elem qs k l x :
  find_key qs k l = Some x → x ∈ l ∧ ∃ q, qs !! x = Some q ∧ matches k q = true.
Proof.
  induction l as [|y l IH]; cbn; [done|].
  destruct (qs !! y) as [q|] eqn:E; [destruct (matches k q) eqn:Em|].
  - intros [= ->]. split; [left|eauto].
  - intros (? & ?)%IH. split; [by right|done].
  - intros (? & ?)%IH. split; [by right|done].
Qed.

Lemma wp_fetch_scan n p l x k s :
  qchain (queue_objects s) p (x :: l) → (length l < n)%nat →
  fetch_scan n p (k_name k) (k_length k) (k_hash k) (k_queue_length k) s =
    Ok (match find_key (queue_objects s) k (x :: l) with
        | Some c => Found c
        | None => NotFound (default x (last (x :: l)))
        end, s).
Proof.
  revert p x n. induction l as [|y l IH]; intros p x n Hc Hn;
    (destruct n as [|n]; [cbn in Hn; lia|]);
    destruct Hc as (-> & Hx & q & Hq & Hc); cbn [fetch_scan];
    rewrite (find_key_cons _ _ _ _ q Hq);
    erewrite st_bind_step by (unfold get_queue; rewrite Hq; done);
    fold (matches k q); destruct (matches k q) eqn:E; try done.
  - cbn in Hc. by rewrite Hc.
  - cbn [length] in Hn. pose proof Hc as (Hy & Hy0 & _).
    rewrite (proj2 (Z.eqb_neq (next_ q) 0)) by congruence.
    rewrite (IH (next_ q) y n Hc ltac:(lia)).
    destruct (find_key (queue_objects s) k (y :: l)); [done|].
    rewrite !last_cons. by destruct (last l).
Qed.

Lemma qchain_length s p l :
  qchain (queue_objects s) p l → NoDup l → (length l ≤ size (queue_objects s))%nat.
Proof.
  intros Hc Hn. rewrite <-size_dom, <-(size_list_to_set (C := gset Z) l Hn).
  apply subseteq_size. intros x Hx%elem_of_list_to_set. apply elem_of_dom.
  clear Hn. revert p Hc. induction l as [|y l IH]; intros p; [set_solver|].
  cbn. intros (-> & _ & q & Hq & Hc). apply elem_of_cons in Hx as [->|Hx]; eauto.
Qed.

(** ** The invariant of the whole store *)

Record store_inv (s : shm) (l : list Z) (pool : Z → gset Z) (held : Z → gmultiset Z) : Prop :=
  mkStoreInv {
  si_chain : qchain (queue_objects s) (gp_pointer (queues (shm_core s))) l;
  si_lock : gp_lock (queues (shm_core s)) = Unlocked;
  si_nodup : NoDup l;
  si_dom : ∀ t q, queue_objects s !! t = Some q → t ∈ l;
  si_queue : ∀ t, t ∈ l → ∃ q, queue_inv s t q (pool t) (held t);
  si_disjoint : ∀ t u, t ∈ l → u ∈ l → t ≠ u → pool t ## pool u;
  si_fresh : store_fresh s }.

(** The headers a queue looks at are the ones of its pool. *)
Lemma pool_inv_frame hs hs' free pool U :
  pool_inv hs free pool U → (∀ h, h ∈ pool → hs' !! h = hs !! h) → pool_inv hs' free pool U.
Proof.
  intros [fl [P1 P2 P3 P4 P5 P6 P7]] Hh. exists fl. split; try done.
  - clear -P1 P3 Hh. revert free P1. induction fl as [|x fl IH]; [done|].
    intros f. cbn. intros (-> & ? & hd & Hhd & Hc). split_and!; [done..|]. exists hd.
    rewrite Hh by (apply P3; left). split; [done|]. apply IH; [|done]. intros; apply P3. by right.
  - intros h Hin. rewrite Hh by done. auto.
  - intros h x Hin. rewrite Hh by done. auto.
Qed.

(** A queue does not see what happens to another one. *)
Lemma queue_inv_frame s t q pool held s' u pool' :
  queue_inv s t q pool held → only_queue s s' u pool' → t ≠ u → pool ## pool' →
  queue_inv s' t q pool held.
Proof.
  intros [I1 I2 I3 I4 I5] (q' & hs' & sig' & -> & Hf) Hne Hd.
  split; try done.
  - cbn. by rewrite lookup_insert_ne.
  - eapply pool_inv_frame; [exact I5|]. intros h Hh. apply Hf. set_solver.
Qed.

Definition upd_held (held : Z → gmultiset Z) (t : Z) (h : gmultiset Z) : Z → gmultiset Z :=
  λ u, if decide (u = t) then h else held u.

Lemma upd_held_eq held t h : upd_held held t h t = h.
Proof. unfold upd_held. by rewrite decide_True. Qed.

Lemma ident_next q q' : ident q' = ident q → next_ q' = next_ q.
Proof. unfold ident. congruence. Qed.

(** Every operation on one queue keeps the whole store consistent. *)
Lemma store_inv_update s s' l pool held t q q' held' :
  store_inv s l pool held → t ∈ l → queue_inv s t q (pool t) (held t) →
  queue_inv s' t q' (pool t) held' → ident q' = ident q → only_queue s s' t (pool t) →
  store_inv s' l pool (upd_held held t held').
Proof.
  intros SI Ht I I' Hid Ho. pose proof Ho as (q1 & hs' & sig' & -> & Hf).
  pose proof (qi_object _ _ _ _ _ I') as Hq'. rewrite at_queue_lookup in Hq'. injection Hq' as <-.
  destruct SI as [C1 C2 C3 C4 C5 C6 [F1 F2 F3]].
  split; try done.
  - cbn. eapply qchain_update; [apply I|by apply ident_next|done].
  - intros u v. cbn. rewrite lookup_insert_Some. intros [[<- _]|[_ ?]]; eauto.
  - intros u Hu. unfold upd_held. case_decide as Hd; [subst u; eauto|].
    destruct (C5 u Hu) as [qu Hqu]. exists qu. eapply queue_inv_frame; eauto.
  - split; cbn; [done| |].
    + intros p v. rewrite lookup_insert_Some. intros [[<- _]|[_ ?]]; [|eauto]. eapply F2, I.
    + intros h x Hx. destruct (decide (h ∈ pool t)) as [Hin|Hin].
      * destruct I as [_ _ _ _ [fl HP]]. destruct (pool_header _ _ _ _ _ HP h Hin) as (_ & y & Hy).
        eauto.
      * rewrite (Hf h Hin) in Hx. eauto.
Qed.

(** ** Adding a queue to the store *)

Definition upd_pool (pool : Z → gset Z) (t : Z) (P : gset Z) : Z → gset Z :=
  λ u, if decide (u = t) then P else pool u.

Lemma upd_pool_eq pool t P : upd_pool pool t P t = P.
Proof. unfold upd_pool. by rewrite decide_True. Qed.
Lemma upd_pool_ne pool t u P : u ≠ t → upd_pool pool t P u = pool u.
Proof. intros. unfold upd_pool. by rewrite decide_False. Qed.
Lemma upd_held_ne held t u h : u ≠ t → upd_held held t h u = held u.
Proof. intros. unfold upd_held. by rewrite decide_False. Qed.

Lemma pool_headers s t q pool held h :
  queue_inv s t q pool held → h ∈ pool → is_Some (headers s !! h).
Proof. intros [_ _ _ _ [fl HP]] Hh. by apply (pool_header _ _ _ _ _ HP). Qed.

Lemma store_inv_extend s s2 s3 s4 l pool held r q P p' :
  store_inv s l pool held → constructed s2 s3 r q P → r ∉ l →
  headers s2 = headers s → queue_objects s2 = queue_objects s →
  headers s4 = headers s3 → msg_alloc (shm_core s4) = msg_alloc (shm_core s3) →
  msg_alloc_lock (shm_core s4) = Unlocked →
  queues (shm_core s4) = mkGlobal Unlocked p' →
  (∀ t qt, t ∈ l → queue_objects s !! t = Some qt →
     ∃ n, queue_objects s4 !! t = Some (set_next qt n)) →
  queue_objects s4 !! r = Some q → (∀ t qt, queue_objects s4 !! t = Some qt → t ∈ l ++ [r]) →
  qchain (queue_objects s4) p' (l ++ [r]) →
  store_inv s4 (l ++ [r]) (upd_pool pool r P) (upd_held held r ∅).
Proof.
  intros SI [K1 K2 _ [K3 K3' K3''] K4 K5 K6 K7 K8 K9 K10] Hr E2 E2' E4 Em El Eq Hold Hnew Hdom Hc.
  destruct SI as [C1 C2 C3 C4 C5 C6 [F1 F2 F3]].
  assert (Hsep : ∀ t, t ∈ l → pool t ## P).
  { intros t Ht h Hh HP. destruct (C5 t Ht) as [qt It].
    destruct (pool_headers _ _ _ _ _ h It Hh) as [x Hx]. apply K6 in HP as [HP _].
    rewrite E2 in HP. congruence. }
  assert (Hobj : ∀ t qt, queue_objects s4 !! t = Some qt → msg_alloc (shm_core s3) ≤ t).
  { intros t qt [Ht| ->%list_elem_of_singleton]%Hdom%elem_of_app; [|eapply K3', K1].
    destruct (C5 t Ht) as [q0 [I1 _ _ _ _]]. apply (K3' t q0).
    rewrite K4, E2', lookup_insert_ne by set_solver. done. }
  split.
  - by rewrite Eq.
  - by rewrite Eq.
  - apply NoDup_app. split_and!; [done|set_solver|apply NoDup_singleton].
  - done.
  - intros t [Ht| ->%list_elem_of_singleton]%elem_of_app.
    + assert (t ≠ r) by set_solver. rewrite upd_pool_ne, upd_held_ne by done.
      destruct (C5 t Ht) as [qt [I1 I2 I3 I4 I5]]. destruct (Hold t qt Ht I1) as [n Hn].
      exists (set_next qt n). split; [done|eapply same_ring_wf; [|exact I2]; done|done|done|].
      eapply pool_inv_frame; [exact I5|]. intros h Hh. rewrite E4.
      rewrite K5, E2; [done|]. specialize (Hsep t Ht). set_solver.
    + rewrite upd_pool_eq, upd_held_eq. exists q. destruct K1 as [_ I2 I3 I4 I5].
      split; try done. by rewrite E4.
  - intros t u [Ht| ->%list_elem_of_singleton]%elem_of_app
      [Hu| ->%list_elem_of_singleton]%elem_of_app Hne.
    + rewrite !upd_pool_ne by set_solver. auto.
    + rewrite upd_pool_eq, upd_pool_ne by set_solver. auto.
    + rewrite upd_pool_eq, upd_pool_ne by set_solver. symmetry. auto.
    + done.
  - split; [done| |].
    + intros t qt Ht. rewrite Em. eauto.
    + intros h x. rewrite E4, Em. apply K3''.
Qed.

(** ** Fetch *)

(** The other queues only ever see their [next_] change. *)
Definition same_queues (s s' : shm) (l : list Z) : Prop :=
  ∀ t q, t ∈ l → queue_objects s !! t = Some q →
    ∃ n, queue_objects s' !! t = Some (set_next q n).

(** What [Fetch] promises when no queue had the key: a new empty queue at the
    end of the list, with a full pool. *)
Record fetched_new (s s' : shm) (l : list Z) (pool : Z → gset Z) (held : Z → gmultiset Z)
    (k : queue_key) (r : Z) (q : RawQueue) (P : gset Z) : Prop := mkFetchedNew {
  fn_new : r ∉ l;
  fn_inv : store_inv s' (l ++ [r]) (upd_pool pool r P) (upd_held held r ∅);
  fn_object : queue_objects s' !! r = Some q;
  fn_key : matches k q = true;
  fn_empty : contents q = [] ∧ messages_ q = 0;
  fn_size : Z.of_nat (size P) = k_queue_length k + kExtraMessages;
  fn_same : same_queues s s' l }.

Definition fetch_post (s : shm) (l : list Z) (pool : Z → gset Z) (held : Z → gmultiset Z)
    (k : queue_key) (r : Z) (s' : shm) : Prop :=
  match find_key (queue_objects s) k l with
  | Some c => r = c ∧ s' = s
  | None => ∃ q P, fetched_new s s' l pool held k r q P
  end.

Definition locked_queues (s : shm) : shm :=
  with_core s (set_queues (mkGlobal Locked (gp_pointer (queues (shm_core s)))) (shm_core s)).

Lemma unlock_queues s :
  gp_lock (queues (shm_core s)) = Unlocked →
  with_core (locked_queues s) (set_queues (mkGlobal Unlocked (gp_pointer (queues (shm_core s))))
    (shm_core (locked_queues s))) = s.
Proof.
  intros H. destruct s as [? [? ? ? ? [? ?] ?] ? ? ?]. cbn in *. by subst.
Qed.

Lemma matches_length k q : matches k q = true → queue_length_ q = k_queue_length k.
Proof. unfold matches, queue_matches. intros H. by zbool. Qed.

(** Allocating the object, running the constructor and linking it in. *)
Lemma wp_fetch_new s l pool held k :
  store_inv s l pool held → queue_params (k_length k) (k_queue_length k) →
  room_for s (queue_bytes (k_name k) (k_length k) (k_queue_length k)) →
  wp (r ← malloc sizeof_RawQueue;
      _ ← RawQueue_construct r (k_name k) (k_length k) (k_hash k) (k_queue_length k);
      _ ← (if default 0 (last l) =? 0 then put_queues (mkGlobal Unlocked r)
           else _ ← upd_queue (default 0 (last l)) (λ q, set_next q r);
                put_queues (mkGlobal Unlocked (gp_pointer (queues (shm_core s)))));
      mret r)
    (λ r s', ∃ q P, fetched_new s s' l pool held k r q P) (locked_queues s).
Proof.
  intros SI Hpar Hroom. pose proof (si_fresh _ _ _ _ SI) as [F1 F2 F3].
  assert (0 ≤ queue_bytes (k_name k) (k_length k) (k_queue_length k) - sizeof_RawQueue - 256).
  { unfold queue_bytes, sizeof_RawQueue, kExtraMessages, sizeof_MessageHeader.
    destruct Hpar. nia. }
  destruct Hroom as [R0 R1].
  apply wp_bind, wp_malloc; [done|done|split; [done|unfold sizeof_RawQueue in *; cbn; lia]|].
  cbn. intros r Hr1 Hr2. set (s2 := with_core _ _).
  apply wp_bind. eapply wp_mono.
  { apply (wp_RawQueue_construct s2); [|done|cbn; lia|split; [done|]].
    - split; [done| |]; cbn; [intros ? ? ?%F2|intros ? ? ?%F3]; unfold sizeof_RawQueue in *; lia.
    - cbn. unfold sizeof_RawQueue in *. lia. }
  cbn beta. intros _ s3 (q & P & HC & Hk & Hn0).
  assert (Hrl : r ∉ l).
  { intros Hin. destruct (si_queue _ _ _ _ SI r Hin) as [q0 I0]. pose proof (F2 _ _ (qi_object _ _ _ _ _ I0)).
    unfold sizeof_RawQueue in *. lia. }
  assert (Hfin : ∀ s4 p', headers s4 = headers s3 →
    shm_core s4 = set_queues (mkGlobal Unlocked p') (shm_core s3) →
    same_queues s s4 l → queue_objects s4 !! r = Some q →
    (∀ t qt, queue_objects s4 !! t = Some qt → t ∈ l ++ [r]) →
    qchain (queue_objects s4) p' (l ++ [r]) →
    ∃ q P, fetched_new s s4 l pool held k r q P).
  { intros s4 p' E1 E2 E3 E4 E5 E6. exists q, P. split; try done.
    - eapply store_inv_extend; try done; rewrite ?E2; try done. cbn. apply HC.
    - split; apply HC.
    - rewrite (con_size _ _ _ _ _ HC). by rewrite (matches_length k). }
  pose proof (con_objects _ _ _ _ _ HC) as Ho. cbn in Ho.
  destruct SI as [C1 C2 C3 C4 C5 C6 _].
  destruct (last l) as [x|] eqn:El.
  - apply last_Some in El as [l' ->].
    destruct (C5 x) as [qx [Hx _ _ _ _]]; [set_solver|].
    assert (x ≠ 0) by (eapply qchain_nonzero; [exact C1|set_solver]).
    change (default 0 (Some x)) with x. rewrite (proj2 (Z.eqb_neq x 0)) by done.
    apply wp_bind, wp_bind, (wp_upd_queue _ _ qx).
    { rewrite Ho, lookup_insert_ne by set_solver. done. }
    apply wp_ret.
    eapply Hfin; try done; cbn; rewrite ?Ho.
    + intros t qt Ht Hqt. cbn. rewrite ?Ho. destruct (decide (t = x)) as [->|Hne].
      * rewrite lookup_insert_eq. simplify_eq. eauto.
      * rewrite !lookup_insert_ne by set_solver. exists (next_ qt). rewrite Hqt. by destruct qt.
    + rewrite lookup_insert_ne by set_solver. apply lookup_insert_eq.
    + intros t qt. rewrite !lookup_insert_Some. intros [[<- _]|[_ [[<- _]|[_ ?%C4]]]]; set_solver.
    + apply qchain_link; try done. lia.
  - apply last_None in El as ->. change (default 0 None) with 0. rewrite Z.eqb_refl.
    apply wp_bind, wp_ret. eapply Hfin; try done; cbn; rewrite ?Ho.
    + intros t qt Ht. set_solver.
    + apply lookup_insert_eq.
    + intros t qt. rewrite lookup_insert_Some. intros [[<- _]|[_ ?%C4]]; set_solver.
    + split_and!; [done|lia|]. exists q. by rewrite lookup_insert_eq.
Qed.

(** Memory is only needed when there is no such queue yet. *)
Lemma wp_Fetch_room s l pool held k :
  store_inv s l pool held →
  (find_key (queue_objects s) k l = None →
    queue_params (k_length k) (k_queue_length k) ∧
    room_for s (queue_bytes (k_name k) (k_length k) (k_queue_length k))) →
  wp (Fetch (k_name k) (k_length k) (k_hash k) (k_queue_length k))
    (fetch_post s l pool held k) s.
Proof.
  intros SI Hroom. pose proof SI as [C1 C2 C3 C4 C5 C6 _].
  unfold Fetch. apply wp_bind. unfold get_queues, wp at 1. cbn beta iota.
  rewrite C2. apply wp_bind. eapply wp_lift; [done|]. cbn beta iota.
  apply wp_bind. change (wp ?m ?Q s) with (Q tt (locked_queues s)). cbn beta.
  apply wp_bind, wp_get, wp_bind.
  assert (Hscan : ∀ Q : found → shm → Prop,
    Q (match find_key (queue_objects s) k l with
       | Some c => Found c | None => NotFound (default 0 (last l)) end) (locked_queues s) →
    wp (if negb (gp_pointer (queues (shm_core s)) =? 0)
        then fetch_scan (S (size (queue_objects (locked_queues s)))) (gp_pointer (queues (shm_core s)))
               (k_name k) (k_length k) (k_hash k) (k_queue_length k)
        else mret (NotFound 0)) Q (locked_queues s)).
  { intros Q HQ. destruct l as [|x l].
    - cbn in C1. rewrite C1. exact HQ.
    - pose proof C1 as (Hp & Hx & _). rewrite (proj2 (Z.eqb_neq _ 0)) by congruence. cbn [negb].
      unfold wp. erewrite wp_fetch_scan; [|exact C1|].
      + revert HQ. cbn [queue_objects locked_queues with_core].
        destruct (find_key _ _ _); [done|]. rewrite last_cons. by destruct (last l).
      + apply (qchain_length (locked_queues s)) in C1; [|done]. cbn in *. lia. }
  apply Hscan. unfold fetch_post. revert Hroom. destruct (find_key (queue_objects s) k l) as [c|]; intros Hroom.
  - apply wp_bind, wp_ret. unfold put_queues, wp. split; [done|]. by apply unlock_queues.
  - destruct (Hroom eq_refl). by apply wp_fetch_new.
Qed.

Lemma wp_Fetch s l pool held k :
  store_inv s l pool held → queue_params (k_length k) (k_queue_length k) →
  room_for s (queue_bytes (k_name k) (k_length k) (k_queue_length k)) →
  wp (Fetch (k_name k) (k_length k) (k_hash k) (k_queue_length k))
    (fetch_post s l pool held k) s.
Proof. intros. by apply wp_Fetch_room. Qed.

Lemma wp_Fetch_found s l pool held k t :
  store_inv s l pool held → find_key (queue_objects s) k l = Some t →
  Fetch (k_name k) (k_length k) (k_hash k) (k_queue_length k) s = Ok (t, s).
Proof.
  intros SI Hk. assert (H := wp_Fetch_room s l pool held k SI).
  apply wp_run in H as (r & s' & -> & HP); [|by rewrite Hk].
  unfold fetch_post in HP. rewrite Hk in HP. by destruct HP as [-> ->].
Qed.

(** Asking for the same queue again finds it. *)
Lemma find_key_app qs k l1 l2 :
  find_key qs k (l1 ++ l2) =
    match find_key qs k l1 with Some c => Some c | None => find_key qs k l2 end.
Proof.
  induction l1 as [|x l1 IH]; cbn; [done|].
  destruct (qs !! x) as [q|]; [destruct (matches k q); [done|]|]; exact IH.
Qed.

Lemma same_queues_find s s' l k :
  same_queues s s' l → (∀ t, t ∈ l → is_Some (queue_objects s !! t)) →
  find_key (queue_objects s') k l = find_key (queue_objects s) k l.
Proof.
  induction l as [|x l IH]; intros Hs Hl; cbn; [done|].
  destruct (Hl x ltac:(left)) as [q Hq]. destruct (Hs x q ltac:(left) Hq) as [n Hn].
  rewrite Hq, Hn. change (matches k (set_next q n)) with (matches k q).
  rewrite IH; [done| |]; [intros t ? Ht; apply Hs; by right|intros t Ht; apply Hl; by right].
Qed.

Lemma fetched_find s l pool held k r s' :
  store_inv s l pool held → fetch_post s l pool held k r s' →
  ∃ l' pool' held', store_inv s' l' pool' held' ∧ l `prefix_of` l' ∧
    find_key (queue_objects s') k l' = Some r.
Proof.
  intros SI. unfold fetch_post. destruct (find_key _ k l) as [c|] eqn:E.
  - intros [-> ->]. exists l, pool, held. split_and!; [done|done|done].
  - intros (q & P & [N1 N2 N3 N4 N5 N6 N7]). eexists _, _, _. split_and!; [exact N2|by exists [r]|].
    rewrite find_key_app, (same_queues_find s), E; [cbn; by rewrite N3, N4|done|].
    intros t Ht. destruct (si_queue _ _ _ _ SI t Ht) as [q0 I0]. eexists. apply I0.
Qed.
