(* ===== verification/QueueSystem.v ===== *)
(** * Clients of the queues

    The operations of [RawQueue] as clients call them, with a ledger of the
    messages each queue has handed out.  [allowed] is the discipline of
    queue.h: only write or free messages you own, pass valid options, do not
    run out of memory or of 31-bit counters.  Under it no operation stops,
    and the store stays consistent for all queues at once. *)

From S2P Require Import Prelude Options SharedMem Ring RawQueue QueuePool QueueOps QueueSpec.
From S2P Require Import QueueRead QueueIndex QueueCreate QueueStore.

(** ** One operation on one queue *)

(** How many references a queue and its clients hold. *)
Definition references (q : RawQueue) (held : gmultiset Z) : Z :=
  Z.of_nat (size (list_to_set_disj (contents q) ⊎ held : gmultiset Z)).

Definition references_max : Z := 2 ^ 31 - 2.

Section One.
Context (s : shm) (this : Z) (q : RawQueue) (pool : gset Z) (held : gmultiset Z).
Hypothesis I : queue_inv s this q pool held.

(** What a read returns, by the abstract queue. *)
Definition read_outcome (o : Options) (r : rres) (s' : shm) (q' : RawQueue) : Prop :=
  match spec_read (opt_and o kFromEnd) (opt_and o kPeek) (contents q) with
  | Some (m, items) => r = RDone m ∧ read_post s this q pool held m items s' q'
  | None => r = nothing_result o ∧ nothing_post s this q pool held o s' q'
  end.

Lemma DoReadMessage_refines n o :
  references q held < references_max →
  wp (DoReadMessage (S n) this o) (λ r s', ∃ q', read_outcome o r s' q') s.
Proof.
  intros Hsz. unfold read_outcome, spec_read.
  destruct (contents q) as [|x l] eqn:Hc.
  - eapply wp_mono; [by apply (read_empty s this q pool held)|]. cbn beta.
    intros r s' (-> & q' & H). exists q'. by destruct (opt_and o kFromEnd).
  - destruct (opt_and o kPeek) eqn:Hp.
    + assert (∃ m, (if opt_and o kFromEnd then last (contents q) else head (contents q)) = Some m)
        as [m Hm].
      { destruct (opt_and o kFromEnd); rewrite Hc; [|by eexists].
        rewrite last_cons. destruct (last l); by eexists. }
      eapply wp_mono.
      { eapply (DoReadMessage_peek s this q pool held (S n) o I _ m);
          [by rewrite Hc|done|exact Hm|done|].
        unfold references, references_max in Hsz. lia. }
      cbn beta. intros r s' (-> & q' & H). exists q'. rewrite Hc in *. rewrite Hm. done.
    + destruct (opt_and o kFromEnd) eqn:He.
      * eapply wp_mono; [by eapply (read_from_end s this q pool held (S n) o I n x l)|].
        cbn beta. intros r s' (m & -> & Hm & q' & H). exists q'. rewrite Hc in Hm. by rewrite Hm.
      * eapply wp_mono; [by eapply (read_front s this q pool held (S n) o I x l)|].
        cbn beta. intros r s' (-> & q' & H). exists q'. done.
Qed.

Definition index_outcome (o : Options) (index : Z) (r : rres * Z) (s' : shm) (q' : RawQueue)
    : Prop :=
  if read_blocked q (Some index)
  then r = (nothing_result o, index) ∧ nothing_post s this q pool held o s' q'
  else ∃ m index',
    spec_read_index (opt_and o kFromEnd) (opt_and o kPeek) (messages_ q) (contents q) index
      = Some (m, index') ∧ r = (RDone m, index') ∧
    read_post s this q pool held m (contents q) s' q'.

(** A reader that is not blocked has a message to read. *)
Lemma spec_read_index_some from_end peek index :
  contents q ≠ [] → 0 ≤ index < messages_ q →
  ∃ m index', spec_read_index from_end peek (messages_ q) (contents q) index = Some (m, index').
Proof.
  intros Hne Hi. unfold spec_read_index. destruct from_end.
  - destruct (contents q) as [|x l]; [done|]. rewrite last_cons.
    destruct (last l); cbn; eauto.
  - set (k := Z.to_nat _). destruct (contents q !! k) as [m|] eqn:E; [cbn; eauto|].
    apply lookup_ge_None in E. assert (length (contents q) ≠ 0%nat) by (by destruct (contents q)). subst k. lia.
Qed.

Lemma DoReadMessageIndex_refines o index :
  0 ≤ index → references q held < references_max →
  wp (DoReadMessageIndex this o index) (λ r s', ∃ q', index_outcome o index r s' q') s.
Proof.
  intros Hi Hsz. unfold index_outcome. destruct (read_blocked q (Some index)) eqn:Hb.
  - eapply wp_mono; [by apply (read_index_blocked s this q pool held)|]. naive_solver.
  - unfold read_blocked in Hb. apply orb_false_iff in Hb as [Hb1 Hb2]. zbool.
    assert (contents q ≠ []).
    { intros E. by apply (empty_iff q (qi_ring _ _ _ _ _ I)) in E. }
    destruct (spec_read_index_some (opt_and o kFromEnd) (opt_and o kPeek) index)
      as (m & index' & Hm); [done|lia|].
    eapply wp_mono.
    { eapply (read_index_found s this q pool held o index I m index'); [done|lia|done|].
      unfold references, references_max in Hsz. lia. }
    cbn beta. intros r s' (-> & q' & HP). exists q', m, index'. done.
Qed.

(** Freeing gives up one reference. *)
Record free_post (m : Z) (s' : shm) (q' : RawQueue) : Prop := mkFreePost {
  fp_inv : queue_inv s' this q' pool (held ∖ {[+ m +]});
  fp_items : contents q' = contents q;
  fp_total : messages_ q' = messages_ q;
  fp_ident : ident q' = ident q;
  fp_sig : signals s' = signals s;
  fp_only : only_queue s s' this pool }.

Lemma held_message_nonzero m : m ∈ held → m ≠ 0.
Proof.
  intros Hm ->. destruct I as [_ _ _ _ [fl HP]].
  destruct (pool_used _ _ _ _ _ HP 0) as [H _]; [by apply elem_of_held|].
  apply (pool_header _ _ _ _ _ HP) in H as [H _]. unfold MessageHeader_Get, sizeof_MessageHeader in H. lia.
Qed.

Lemma FreeMessage_post n m :
  m ∈ held → wp (FreeMessage (S n) this m) (λ _ s', ∃ q', free_post m s' q') s.
Proof.
  intros Hm. unfold FreeMessage. rewrite (proj2 (Z.eqb_neq m 0)) by by apply held_message_nonzero.
  cbn [negb]. rewrite (at_queue_id s this q (qi_object _ _ _ _ _ I)) at 1.
  eapply wp_mono; [eapply (wp_dec s this pool n q); [apply I|apply I|by apply elem_of_held]|].
  cbn beta. intros _ s' (free' & hs' & -> & HP & Hf). exists (set_free q free').
  split; [|by apply same_ring_contents|done..|by apply only_queue_at].
  rewrite held_drop in HP by done.
  apply queue_inv_at; [eapply same_ring_wf; [|apply I]; done|apply I..|].
  by rewrite (same_ring_contents q).
Qed.
End One.

(** ** Taking a message *)

Section Get.
Context (s : shm) (this : Z) (q : RawQueue) (pool : gset Z) (held : gmultiset Z).
Hypothesis I : queue_inv s this q pool held.

(** The message was nobody's, and now has one owner. *)
Record get_post (m : Z) (s' : shm) (q' : RawQueue) : Prop := mkGetPost {
  gp_inv : queue_inv s' this q' pool ({[+ m +]} ⊎ held);
  gp_fresh : m ∉ held ∧ m ∉ contents q;
  gp_nonnull : m ≠ 0;
  gp_items : contents q' = contents q;
  gp_total : messages_ q' = messages_ q;
  gp_ident : ident q' = ident q;
  gp_sig : signals s' = signals s;
  gp_only : only_queue s s' this pool }.

Lemma GetMessage_post :
  free_messages_ q ≠ 0 → references q held < references_max →
  wp (GetMessage this) (λ m s', ∃ q', get_post m s' q') s.
Proof.
  intros Hf Hsz. rewrite (at_queue_id s this q (qi_object _ _ _ _ _ I)) at 1.
  eapply wp_mono.
  { eapply (wp_GetMessage s this pool q); [apply I|done|].
    unfold references, references_max in Hsz. lia. }
  cbn beta. intros m s' (free' & hs' & -> & Hm & Hm0 & HP & Hfr). exists (set_free q free').
  split; [|..|by apply only_queue_at]; try done.
  - apply queue_inv_at; [eapply same_ring_wf; [|apply I]; done|apply I..|].
    rewrite (same_ring_contents q) by done. by rewrite <-held_take.
  - split; intros Hin; apply Hm; [by apply elem_of_held|by apply elem_of_ring].
Qed.
End Get.

(** ** The number of free messages *)

Lemma FreeMessages_eq s this q pool held :
  queue_inv s this q pool held →
  FreeMessages this s =
    Ok (Z.of_nat (size pool)
        - Z.of_nat (size (dom (list_to_set_disj (contents q) ⊎ held : gmultiset Z))), s).
Proof.
  intros I. pose proof (qi_pool _ _ _ _ _ I) as [fl HP].
  unfold FreeMessages. erewrite st_bind_step by (unfold get_queue; by rewrite (qi_object _ _ _ _ _ I)).
  erewrite st_bind_step by done. unfold st_lift.
  assert (Hlen : (length fl ≤ size (headers s))%nat).
  { rewrite <-size_dom, <-(size_list_to_set (C := gset Z) fl) by apply HP.
    apply subseteq_size. intros h Hh%elem_of_list_to_set. apply elem_of_dom.
    by apply (pool_header _ _ _ _ _ HP), (pool_free_in _ _ _ _ _ HP). }
  rewrite (chain_count _ _ fl) by (apply HP || lia).
  pose proof (pool_free_count _ _ _ _ _ HP). do 2 f_equal. lia.
Qed.

(** ** The operations of all clients *)

Inductive op : Type :=
| OpGet (t : Z)
| OpWrite (t m : Z) (o : Options)
| OpRead (t : Z) (o : Options)
| OpReadIndex (t : Z) (o : Options) (index : Z)
| OpFree (t m : Z)
| OpFetch (k : queue_key).

Inductive result : Set :=
| RMsg (m : Z) | RWrite (w : wres) | RRead (r : rres) | RIndex (r : rres) (index : Z)
| RFreed | RQueue (t : Z).

Definition run_op (p : op) : M result :=
  match p with
  | OpGet t => m ← GetMessage t; mret (RMsg m)
  | OpWrite t m o => w ← WriteMessage 1 t m o; mret (RWrite w)
  | OpRead t o => r ← ReadMessage 1 t o; mret (RRead r)
  | OpReadIndex t o i => '(r, i') ← ReadMessageIndex t o i; mret (RIndex r i')
  | OpFree t m => _ ← FreeMessage 1 t m; mret RFreed
  | OpFetch k =>
      t ← Fetch (k_name k) (k_length k) (k_hash k) (k_queue_length k); mret (RQueue t)
  end.

Definition gain (held : Z → gmultiset Z) (t m : Z) : Z → gmultiset Z :=
  upd_held held t ({[+ m +]} ⊎ held t).

(** A read that returns a message makes its caller an owner of it. *)
Definition read_ledger (held : Z → gmultiset Z) (t : Z) (r : rres) : Z → gmultiset Z :=
  match r with
  | RDone m => if m =? 0 then held else gain held t m
  | RWait => held
  end.

Definition ledger (l : list Z) (held : Z → gmultiset Z) (p : op) (r : result) : Z → gmultiset Z :=
  match p, r with
  | OpGet t, RMsg m => gain held t m
  | OpWrite t m _, RWrite w => upd_held held t (held_after w m (held t))
  | OpRead t _, RRead r => read_ledger held t r
  | OpReadIndex t _ _, RIndex r _ => read_ledger held t r
  | OpFree t m, RFreed => upd_held held t (held t ∖ {[+ m +]})
  | OpFetch _, RQueue t => if decide (t ∈ l) then held else upd_held held t ∅
  | _, _ => held
  end.

Definition queues_after (l : list Z) (p : op) (r : result) : list Z :=
  match p, r with
  | OpFetch _, RQueue t => if decide (t ∈ l) then l else l ++ [t]
  | _, _ => l
  end.

(** The clients' side of the contract. *)
Definition allowed (s : shm) (l : list Z) (held : Z → gmultiset Z) (p : op) : Prop :=
  match p with
  | OpGet t => t ∈ l ∧ ∀ q, queue_objects s !! t = Some q →
      free_messages_ q ≠ 0 ∧ references q (held t) < references_max
  | OpWrite t m o => t ∈ l ∧ valid_write o = true ∧ m ∈ held t ∧
      ∀ q, queue_objects s !! t = Some q → messages_ q + 1 < 2 ^ 31
  | OpRead t o => t ∈ l ∧ valid_read o = true ∧
      ∀ q, queue_objects s !! t = Some q → references q (held t) < references_max
  | OpReadIndex t o i => t ∈ l ∧ valid_read o = true ∧ AllSet o kFromEndAndPeek = false ∧ 0 ≤ i ∧
      ∀ q, queue_objects s !! t = Some q → references q (held t) < references_max
  | OpFree t m => t ∈ l ∧ m ∈ held t
  | OpFetch k => queue_params (k_length k) (k_queue_length k) ∧
      room_for s (queue_bytes (k_name k) (k_length k) (k_queue_length k))
  end.

Lemma store_inv_held s l pool held held' :
  (∀ t, t ∈ l → held' t = held t) → store_inv s l pool held → store_inv s l pool held'.
Proof.
  intros He [C1 C2 C3 C4 C5 C6 C7]. split; try done.
  intros t Ht. rewrite He by done. auto.
Qed.

Lemma upd_held_self held t u : upd_held held t (held t) u = held u.
Proof. unfold upd_held. case_decide; congruence. Qed.

Lemma WriteMessage_valid n t m o s :
  valid_write o = true → WriteMessage n t m o s = DoWriteMessage n t m o s.
Proof.
  unfold valid_write, WriteMessage, WriteMessage_. intros [-> ->]%andb_true_iff. done.
Qed.

Lemma CheckReadOptions_valid o : valid_read o = true → CheckReadOptions o = Ok tt.
Proof. unfold valid_read, CheckReadOptions. intros [-> ->]%andb_true_iff. done. Qed.

Lemma ReadMessage_valid n t o s :
  valid_read o = true → ReadMessage n t o s = DoReadMessage n t o s.
Proof. intros H. unfold ReadMessage. by rewrite CheckReadOptions_valid. Qed.

Lemma ReadMessageIndex_valid t o i s :
  valid_read o = true → AllSet o kFromEndAndPeek = false →
  ReadMessageIndex t o i s = DoReadMessageIndex t o i s.
Proof. intros H Ha. unfold ReadMessageIndex. rewrite CheckReadOptions_valid, Ha by done. done. Qed.

Section Safe.
Context (s : shm) (l : list Z) (pool : Z → gset Z) (held : Z → gmultiset Z).
Hypothesis SI : store_inv s l pool held.

Definition op_post (p : op) (r : result) (s' : shm) : Prop :=
  ∃ pool', store_inv s' (queues_after l p r) pool' (ledger l held p r).

(** From a post-condition of one queue to the whole store. *)
Lemma op_post_update t q q' s' held' P :
  t ∈ l → queue_inv s t q (pool t) (held t) → queue_inv s' t q' (pool t) held' →
  ident q' = ident q → only_queue s s' t (pool t) →
  (∀ u, u ∈ l → P u = upd_held held t held' u) → ∃ pool', store_inv s' l pool' P.
Proof.
  intros. exists pool. eapply store_inv_held; [eassumption|]. by eapply store_inv_update.
Qed.

Lemma read_post_update t q q' s' r :
  t ∈ l → queue_inv s t q (pool t) (held t) →
  (∃ m items, r = RDone m ∧ read_post s t q (pool t) (held t) m items s' q') ∨
  (∃ o, r = nothing_result o ∧ nothing_post s t q (pool t) (held t) o s' q') →
  ∃ pool', store_inv s' l pool' (read_ledger held t r).
Proof.
  intros Ht I [(m & items & -> & [R1 R2 R3 R4 R5 R6])|(o & -> & [N1 N2 N3 N4 N5 N6 N7])].
  - cbn. rewrite (proj2 (Z.eqb_neq m 0)).
    + by eapply (op_post_update t q q').
    + eapply held_message_nonzero; [exact R1|]. apply ms_add_self.
  - eapply (op_post_update t q q'); try done. intros u _. rewrite upd_held_self.
    unfold nothing_result. by destruct (opt_and o kNonBlock).
Qed.

Lemma op_safe p : allowed s l held p → wp (run_op p) (op_post p) s.
Proof.
  destruct p as [t|t m o|t o|t o i|t m|k]; cbn [allowed run_op].
  - intros [Ht Hq]. destruct (si_queue _ _ _ _ SI t Ht) as [q I].
    destruct (Hq q (qi_object _ _ _ _ _ I)). apply wp_bind. eapply wp_mono; [by eapply GetMessage_post|].
    cbn beta. intros m s' (q' & []). by eapply (op_post_update t q q').
  - intros (Ht & Ho & Hm & Hq). destruct (si_queue _ _ _ _ SI t Ht) as [q I].
    pose proof (Hq q (qi_object _ _ _ _ _ I)). apply wp_bind. unfold wp.
    rewrite WriteMessage_valid by done. eapply wp_mono; [by eapply DoWriteMessage_refines|].
    cbn beta. intros w s' (q' & []). by eapply (op_post_update t q q').
  - intros (Ht & Ho & Hq). destruct (si_queue _ _ _ _ SI t Ht) as [q I].
    pose proof (Hq q (qi_object _ _ _ _ _ I)). apply wp_bind. unfold wp.
    rewrite ReadMessage_valid by done. eapply wp_mono; [by eapply DoReadMessage_refines|].
    cbn beta. intros r s' (q' & Hr). eapply (read_post_update t q q'); [done|done|].
    unfold read_outcome in Hr. destruct (spec_read _ _ _) as [[m items]|]; naive_solver.
  - intros (Ht & Ho & Ha & Hi & Hq). destruct (si_queue _ _ _ _ SI t Ht) as [q I].
    pose proof (Hq q (qi_object _ _ _ _ _ I)). apply wp_bind. unfold wp.
    rewrite ReadMessageIndex_valid by done. eapply wp_mono; [by eapply DoReadMessageIndex_refines|].
    cbn beta. intros [r i'] s' (q' & Hr). eapply (read_post_update t q q'); [done|done|].
    unfold index_outcome in Hr. destruct (read_blocked _ _).
    + destruct Hr as [[= -> ->] ?]. eauto.
    + destruct Hr as (m & i2 & _ & [= -> ->] & ?). eauto.
  - intros (Ht & Hm). destruct (si_queue _ _ _ _ SI t Ht) as [q I].
    apply wp_bind. eapply wp_mono; [by eapply FreeMessage_post|].
    cbn beta. intros _ s' (q' & []). by eapply (op_post_update t q q').
  - intros (Hpar & Hroom). apply wp_bind. eapply wp_mono; [by eapply wp_Fetch|].
    intros r s' Hr. apply wp_ret. unfold op_post. cbn [queues_after ledger]. revert Hr.
    unfold fetch_post. destruct (find_key _ _ _) as [c|] eqn:E.
    + intros [-> ->]. apply find_key_elem in E as [Hin _]. rewrite !decide_True by done. eauto.
    + intros (q & P & [N1 N2 N3 N4 N5 N6 N7]). rewrite !decide_False by done. eauto.
Qed.
End Safe.

(** ** Runs *)

(** The store together with what the clients know: which queues exist and
    which messages they hold. *)
Record system := mkSystem { sys_shm : shm; sys_queues : list Z; sys_held : Z → gmultiset Z }.

Inductive sys_step : system → system → Prop :=
| sys_op s l held p r s' :
    allowed s l held p → run_op p s = Ok (r, s') →
    sys_step (mkSystem s l held) (mkSystem s' (queues_after l p r) (ledger l held p r)).

Definition sys_inv (y : system) : Prop :=
  ∃ pool, store_inv (sys_shm y) (sys_queues y) pool (sys_held y).

Lemma sys_step_inv y y' : sys_inv y → sys_step y y' → sys_inv y'.
Proof.
  intros [pool SI] Hst. destruct Hst as [s l held p r s' Ha Hr]. cbn in SI. pose proof (op_safe _ _ _ _ SI p Ha) as H.
  unfold wp in H. by rewrite Hr in H.
Qed.

(** The segment as its creator leaves it. *)
Definition initial_shm (g : aos_core) (c : aos_shm_core) : shm := mkShm g c ∅ ∅ [].

Lemma initial_inv address sz g g' c c' :
  owner g = true → aos_core_use_address_as_shared_mem address sz 0 g c = Ok (g', c') →
  sys_inv (mkSystem (initial_shm g' c') [] (λ _, ∅)).
Proof.
  intros Ho H. unfold aos_core_use_address_as_shared_mem in H. rewrite Ho in H.
  injection H as <- <-. exists (λ _, ∅). split; try done; [constructor|set_solver..].
Qed.
