(* ===== verification/QueueFeed.v ===== *)
(** * Publishing and subscribing

    The way processes use a queue: a publisher takes a message, fills it in
    and writes it with [kOverride]; a subscriber polls with its own index and
    frees what it got.  Against the abstract description (a list of everything
    ever published and a position in it) the subscriber sees every message in
    order, skipping only what was overridden before it came back. *)

From S2P Require Import Prelude Options SharedMem Ring RawQueue QueuePool QueueOps QueueSpec.
From S2P Require Import QueueRead QueueIndex QueueCreate QueueStore QueueSystem.

(** ** The clients *)

Definition post (t : Z) : M Z :=
  m ← GetMessage t;
  w ← WriteMessage 1 t m (of_Option kOverride);
  match w with WDone true => mret m | _ => st_stop Abort end.

Definition poll (t index : Z) : M (option Z * Z) :=
  '(r, index') ← ReadMessageIndex t (of_Option kNonBlock) index;
  match r with
  | RDone m =>
      if m =? 0 then mret (None, index')
      else _ ← FreeMessage 1 t m; mret (Some m, index')
  | RWait => st_stop Abort
  end.

Inductive event : Set := Post | Poll.
Inductive out : Set := Posted (m : Z) | Polled (r : option Z) (index : Z).

Fixpoint feed (t index : Z) (evs : list event) : M (list out) :=
  match evs with
  | [] => mret []
  | Post :: evs => m ← post t; outs ← feed t index evs; mret (Posted m :: outs)
  | Poll :: evs =>
      '(r, index') ← poll t index; outs ← feed t index' evs; mret (Polled r index' :: outs)
  end.

(** ** The abstract description *)

Definition spec_poll (cap : Z) (written : list Z) (index : Z) : option Z * Z :=
  let total := Z.of_nat (length written) in
  if total <=? index then (None, index)
  else let number := Z.max index (total - cap) in (written !! Z.to_nat number, number + 1).

Fixpoint spec_feed (cap : Z) (written : list Z) (index : Z) (evs : list event) (outs : list out)
    : Prop :=
  match evs, outs with
  | [], [] => True
  | Post :: evs, Posted m :: outs => spec_feed cap (written ++ [m]) index evs outs
  | Poll :: evs, Polled r index' :: outs =>
      (r, index') = spec_poll cap written index ∧ spec_feed cap written index' evs outs
  | _, _ => False
  end.

(** The numbers of the messages a subscriber received. *)
Fixpoint received (outs : list out) : list Z :=
  match outs with
  | [] => []
  | Polled (Some _) index' :: outs => index' - 1 :: received outs
  | _ :: outs => received outs
  end.

Fixpoint increasing_from (b : Z) (l : list Z) : Prop :=
  match l with [] => True | x :: l => b ≤ x ∧ increasing_from (x + 1) l end.

Lemma spec_feed_increasing cap written index evs outs :
  1 ≤ cap → 0 ≤ index → spec_feed cap written index evs outs →
  increasing_from index (received outs).
Proof.
  intros Hcap. revert written index outs.
  induction evs as [|[] evs IH]; intros written index [|[m|r i'] outs] Hi; cbn; try done.
  - intros H. by eapply IH.
  - unfold spec_poll. intros [E H].
    destruct (Z.leb_spec (Z.of_nat (length written)) index).
    + injection E as -> ->. by eapply IH.
    + injection E as -> ->. set (num := Z.max index (Z.of_nat (length written) - cap)) in *.
      destruct (lookup_lt_is_Some_2 written (Z.to_nat num)) as [x Hx]; [lia|].
      rewrite Hx. cbn. split; [lia|].
      replace (num + 1 - 1 + 1) with (num + 1) by lia. eapply IH; [|exact H]. lia.
Qed.

(** ** The queue carries them *)

Lemma give_back (m : Z) : ({[+ m +]} ⊎ ∅) ∖ {[+ m +]} = (∅ : gmultiset Z).
Proof. multiset_solver. Qed.

Lemma ident_cap q q' : ident q' = ident q → queue_length_ q' = queue_length_ q.
Proof. unfold ident. congruence. Qed.

Section Feed.
Context (this : Z) (pool : gset Z) (cap : Z).

Record feed_inv (s : shm) (q : RawQueue) (written : list Z) : Prop := mkFeedInv {
  fi_queue : queue_inv s this q pool ∅;
  fi_cap : queue_length_ q = cap;
  fi_pool : cap < Z.of_nat (size pool);
  fi_bound : cap < 2 ^ 31 - 4;
  fi_history : holds_history q written;
  fi_full : Z.of_nat (length (contents q)) = Z.min (Z.of_nat (length written)) cap }.

Lemma feed_references s q written :
  feed_inv s q written → references q ∅ ≤ cap ∧ references q ∅ < references_max.
Proof.
  intros [I <- _ Hb _ Hf]. unfold references.
  rewrite (right_id_L ∅ (⊎)), size_list_disj. unfold references_max.
  pose proof (count_bound q (qi_ring _ _ _ _ _ I)). rewrite contents_length in *. lia.
Qed.

Lemma wp_post s q written :
  feed_inv s q written → messages_ q + 1 < 2 ^ 31 →
  wp (post this) (λ m s', ∃ q', feed_inv s' q' (written ++ [m]) ∧ messages_ q' = messages_ q + 1) s.
Proof.
  intros F Hm. pose proof F as [I Hc Hp Hb Hh Hf].
  destruct (feed_references s q written F) as [Hr1 Hr2].
  assert (free_messages_ q ≠ 0) as Hfr.
  { destruct (qi_pool _ _ _ _ _ I) as [fl HP]. pose proof (pool_free_count _ _ _ _ _ HP).
    pose proof (size_dom_le (list_to_set_disj (contents q) ⊎ ∅)). unfold references in Hr1.
    pose proof (pool_chain _ _ _ _ _ HP) as Hch. destruct fl; [cbn in *; lia|].
    by destruct Hch as (-> & ? & _). }
  unfold post. apply wp_bind. eapply wp_mono; [by apply (GetMessage_post s this q pool ∅)|].
  cbn beta. intros m s1 (q1 & [G1 G2 G3 G4 G5 G6 G7 G8]).
  apply wp_bind. unfold wp. rewrite WriteMessage_valid by done.
  assert (queue_length_ q1 = queue_length_ q) as Hql by (by apply ident_cap).
  eapply wp_mono.
  { eapply (DoWriteMessage_refines s1 this q1 pool ({[+ m +]} ⊎ ∅)); [done| |by rewrite G5].
    apply ms_add_self. }
  cbn beta. intros w s2 (q2 & [W1 W2 W3 W4 W5 W6]).
  assert (Hcap : 1 ≤ cap) by (destruct (qi_ring _ _ _ _ _ I); lia).
  assert (holds_history q1 written) as Hh1 by (unfold holds_history; by rewrite G4, G5).
  pose proof (spec_write_history q1 q2 written _ m w Hh1 W2 W3) as Hh2.
  unfold spec_write in W2. rewrite G4 in W2.
  assert (w = WDone true ∧ Z.of_nat (length (contents q2)) =
    Z.min (Z.of_nat (length (contents q)) + 1) cap) as [-> Hlen].
  { rewrite Hql, Hc in W2. destruct (Z.ltb_spec (Z.of_nat (length (contents q))) cap);
      injection W2 as <- W2; rewrite <-W2; (split; [done|]);
      rewrite length_app, ?length_drop; cbn; lia. }
  apply wp_ret. exists q2. split; [|rewrite W3; cbn; lia].
  cbn [held_after] in W1. split; try done.
  - by rewrite give_back in W1.
  - by rewrite (ident_cap _ _ W4), Hql.
  - rewrite length_app. cbn. lia.
Qed.

Lemma wp_poll s q written index :
  feed_inv s q written → 0 ≤ index →
  wp (poll this index) (λ r s', r = spec_poll cap written index ∧
    ∃ q', feed_inv s' q' written ∧ messages_ q' = messages_ q) s.
Proof.
  intros F Hi. pose proof F as [I Hc Hp Hb Hh Hf].
  destruct (feed_references s q written F) as [Hr1 Hr2].
  unfold poll. apply wp_bind. unfold wp. rewrite ReadMessageIndex_valid by done.
  eapply wp_mono; [by apply (DoReadMessageIndex_refines s this q pool ∅ I (of_Option kNonBlock))|].
  cbn beta. intros [r i'] s1 (q1 & H). pose proof Hh as [Hm _].
  unfold index_outcome, read_blocked in H.
  assert (Hcap : 1 ≤ cap) by (destruct (qi_ring _ _ _ _ _ I); lia).
  assert (data_start_ q = data_end_ q ↔ length written = 0%nat) as Hempty.
  { rewrite (empty_iff q (qi_ring _ _ _ _ _ I)). split.
    - intros E. rewrite E in Hf. cbn in Hf. lia.
    - intros E. apply length_zero_iff_nil. lia. }
  unfold spec_poll. destruct (Z.leb_spec (Z.of_nat (length written)) index) as [Hle|Hlt].
  - assert (messages_ q <=? index = true) as E by (apply Z.leb_le; lia).
    rewrite E, orb_true_r in H. destruct H as [[= -> ->] [N1 N2 N3 N4 N5 N6 N7]].
    apply wp_ret. split; [done|]. exists q1. split; [|done].
    split; try done; [by rewrite (ident_cap _ _ N4)|unfold holds_history; by rewrite N2, N3|by rewrite N2].
  - assert (messages_ q <=? index = false) as E by (apply Z.leb_gt; lia).
    rewrite E, orb_false_r, (proj2 (Z.eqb_neq (data_start_ q) (data_end_ q))) in H
      by (rewrite Hempty; lia).
    destruct H as (m & i2 & Hs & [= -> ->] & [R1 R2 R3 R4 R5 R6]).
    change (opt_and (of_Option kNonBlock) kFromEnd) with false in Hs.
    change (opt_and (of_Option kNonBlock) kPeek) with false in Hs.
    apply (spec_read_index_history q written) in Hs as [Hw ->]; [|done|done].
    assert (Hin : m ∈ {[+ m +]} ⊎ (∅ : gmultiset Z)) by apply ms_add_self.
    rewrite (proj2 (Z.eqb_neq m 0)) by (by eapply held_message_nonzero).
    apply wp_bind. eapply wp_mono; [by eapply FreeMessage_post|].
    cbn beta. intros _ s2 (q2 & [F1 F2 F3 F4 F5 F6]). apply wp_ret. cbn zeta.
    replace (Z.max index (messages_ q - Z.of_nat (length (contents q))))
      with (Z.max index (Z.of_nat (length written) - cap)) in * by lia.
    split; [by rewrite Hw|]. exists q2. split; [|by rewrite F3].
    rewrite give_back in F1.
    split; try done; [by rewrite (ident_cap _ _ F4), (ident_cap _ _ R4)|
      unfold holds_history; by rewrite F2, F3, R2, R3|by rewrite F2, R2].
Qed.

Lemma wp_feed evs s q written index :
  feed_inv s q written → 0 ≤ index → messages_ q + Z.of_nat (length evs) < 2 ^ 31 →
  wp (feed this index evs) (λ outs s', spec_feed cap written index evs outs) s.
Proof.
  revert s q written index. induction evs as [|[] evs IH]; intros s q written index F Hi Hm;
    cbn [feed length] in *; [by apply wp_ret|..]; apply wp_bind.
  - eapply wp_mono; [eapply (wp_post s q); [done|lia]|]. cbn beta. intros m s' (q' & F' & Hm').
    apply wp_bind. eapply wp_mono; [eapply IH; [exact F'|done|lia]|]. done.
  - eapply wp_mono; [by eapply (wp_poll s q)|]. cbn beta. intros [r i'] s' (Hr & q' & F' & Hm').
    apply wp_bind. eapply wp_mono; [eapply (IH s' q'); [exact F'| |lia]|done].
    unfold spec_poll in Hr. destruct (_ <=? _); injection Hr as -> ->; lia.
Qed.
End Feed.
