(* ===== verification/QueueTheorems.v ===== *)
(** * What the queues guarantee

    The theorems about [RawQueue], stated on the functions of queue.cc, each
    with a run on a concrete store. *)

From S2P Require Import Prelude Options SharedMem Ring RawQueue QueuePool QueueOps QueueSpec.
From S2P Require Import QueueRead QueueIndex QueueCreate QueueStore QueueSystem QueueFeed.

(** ** A concrete store

    One queue at address 1000 with room for two messages and a pool of three:
    message 116 is in the queue, 216 is held by a client, 300 is free. *)
Module Sample.
Definition core : aos_core := mkCore true 120 4096 0 "".
Definition sc : aos_shm_core :=
  mkShmCore 1 (mkTimespec 0 0) Unlocked 100 (mkGlobal Unlocked 1000) (mkGlobal Unlocked 0).
Definition q : RawQueue :=
  mkQueue "q" 8 7 2 0 0 Unlocked 3 0 1 1 [116; 0; 0] 24 300 false true.
Definition hs : gmap Z MessageHeader :=
  <[100 := mkHeader 0 1]> (<[200 := mkHeader 300 1]> (<[300 := mkHeader 0 0]> ∅)).
Definition s : shm := mkShm core sc {[1000 := q]} hs [].
Definition pool : gset Z := {[100; 200; 300]}.
Definition held : gmultiset Z := {[+ 216 +]}.

Lemma q_wf : ring_wf q.
Proof. split; cbn; try lia; done. Qed.

Lemma sample_inv : queue_inv s 1000 q pool held.
Proof.
  split; [done|apply q_wf|done|done|]. exists [300].
  assert (Hc : list_to_set_disj (contents q) ⊎ held = ({[+ 116; 216 +]} : gmultiset Z)).
  { vm_compute (contents q). cbn. unfold held. multiset_solver. }
  rewrite Hc. split.
  - cbn. split_and!; [done|done|]. exists (mkHeader 0 0). done.
  - apply NoDup_singleton.
  - set_solver.
  - intros h Hh. unfold pool in Hh. 
    assert (h = 100 ∨ h = 200 ∨ h = 300) as [-> |[-> | ->]] by set_solver; (split; [lia|by eexists]).
  - intros m Hm. assert (m = 116 ∨ m = 216) as [-> | ->] by multiset_solver;
      unfold MessageHeader_Get, sizeof_MessageHeader, pool; set_solver.
  - intros h x Hh Hn. unfold pool in Hh.
    assert (h = 100 ∨ h = 200) as [-> | ->] by set_solver; intros [= <-];
      (split; [unfold sizeof_MessageHeader; multiset_solver|done]).
  - done.
Qed.
End Sample.

(** ** Writing *)

(** C1: [WriteMessage] implements the abstract bounded queue on every branch.
    With valid options and a message the caller owns it returns (for any fuel
    above 0, since the queue has no recycle queue), its result and the new
    contents are the ones of [spec_write] (append, refuse, override the
    oldest message, or wait), the message counter counts exactly the stored
    messages, the reference to the message (and to an overridden one) is
    accounted for, readers that wait are signalled exactly once, and nothing
    outside this queue and its pool changes. *)
Theorem WriteMessage_refines s this q pool held m o n :
  queue_inv s this q pool held → m ∈ held → messages_ q + 1 < 2 ^ 31 →
  valid_write o = true →
  ∃ r s' q', WriteMessage (S n) this m o s = Ok (r, s') ∧
    write_post s this q pool held m (mode_of o) r s' q'.
Proof.
  intros I Hm Hmax Ho. rewrite WriteMessage_valid by done.
  destruct (proj1 (wp_run _ _ _) (DoWriteMessage_refines s this q pool held m n o I Hm Hmax))
    as (r & s' & Hr & q' & HP). eauto.
Qed.

Lemma WriteMessage_refines_witness :
  ∃ r s' q', WriteMessage 1 1000 216 (of_Option kNonBlock) Sample.s = Ok (r, s') ∧
    write_post Sample.s 1000 Sample.q Sample.pool Sample.held 216 NonBlocking r s' q'.
Proof.
  apply (WriteMessage_refines Sample.s 1000 Sample.q Sample.pool Sample.held 216
    (of_Option kNonBlock) 0 Sample.sample_inv).
  - unfold Sample.held. multiset_solver.
  - cbn. lia.
  - reflexivity.
Defined.

(** ** Reading *)

(** C2: [ReadMessage] implements the abstract read on every branch: the
    oldest message, the newest one ([kFromEnd], which drains and releases the
    rest), or a look at one of them ([kPeek]); the caller becomes an owner of
    what it gets, writers that wait for room are signalled exactly when the
    read made room, and an empty queue gives NULL or makes the reader wait
    with [readable_waiting_] set. *)
Theorem ReadMessage_refines s this q pool held o n :
  queue_inv s this q pool held → references q held < references_max → valid_read o = true →
  ∃ r s' q', ReadMessage (S n) this o s = Ok (r, s') ∧ read_outcome s this q pool held o r s' q'.
Proof.
  intros I Hsz Ho. rewrite ReadMessage_valid by done.
  destruct (proj1 (wp_run _ _ _) (DoReadMessage_refines s this q pool held I n o Hsz))
    as (r & s' & Hr & q' & HP). eauto.
Qed.

Lemma ReadMessage_refines_witness :
  ∃ r s' q', ReadMessage 1 1000 (Option_or kFromEnd kNonBlock) Sample.s = Ok (r, s') ∧
    read_outcome Sample.s 1000 Sample.q Sample.pool Sample.held (Option_or kFromEnd kNonBlock) r s' q'.
Proof.
  apply (ReadMessage_refines Sample.s 1000 Sample.q Sample.pool Sample.held
    (Option_or kFromEnd kNonBlock) 0 Sample.sample_inv); reflexivity.
Defined.

(** C3: [ReadMessageIndex] finds the position by modular arithmetic on the
    ring; what it returns is what the numbering of messages says: the oldest
    available message whose number is at least the caller's index (or the
    newest one with [kFromEnd]), with the index moved behind it unless
    peeking.  The queue keeps its messages, and a reader that has seen
    everything gets NULL or waits with its index unchanged. *)
Theorem ReadMessageIndex_refines s this q pool held o index :
  queue_inv s this q pool held → references q held < references_max → 0 ≤ index →
  valid_read o = true → AllSet o kFromEndAndPeek = false →
  ∃ r s' q', ReadMessageIndex this o index s = Ok (r, s') ∧
    index_outcome s this q pool held o index r s' q'.
Proof.
  intros I Hsz Hi Ho Ha. rewrite ReadMessageIndex_valid by done.
  destruct (proj1 (wp_run _ _ _) (DoReadMessageIndex_refines s this q pool held I o index Hi Hsz))
    as (r & s' & Hr & q' & HP). eauto.
Qed.

Lemma ReadMessageIndex_refines_witness :
  ∃ r s' q', ReadMessageIndex 1000 (of_Option kNonBlock) 0 Sample.s = Ok (r, s') ∧
    index_outcome Sample.s 1000 Sample.q Sample.pool Sample.held (of_Option kNonBlock) 0 r s' q'.
Proof.
  apply (ReadMessageIndex_refines Sample.s 1000 Sample.q Sample.pool Sample.held
    (of_Option kNonBlock) 0 Sample.sample_inv); try reflexivity; lia.
Defined.

(** ** The message pool *)

(** C4: [GetMessage] hands out a message that is neither in the queue nor
    held by anybody, or stops with [LOG(FATAL)] exactly when every message of
    the pool is in use. *)
Theorem GetMessage_fresh s this q pool held :
  queue_inv s this q pool held → references q held < references_max →
  if decide (Z.of_nat (size pool)
      = Z.of_nat (size (dom (list_to_set_disj (contents q) ⊎ held : gmultiset Z))))
  then GetMessage this s = Err Fatal
  else ∃ m s' q', GetMessage this s = Ok (m, s') ∧ get_post s this q pool held m s' q'.
Proof.
  intros I Hsz. pose proof (qi_pool _ _ _ _ _ I) as [fl HP].
  pose proof (pool_free_count _ _ _ _ _ HP) as Hc. pose proof (pool_chain _ _ _ _ _ HP) as Hch.
  case_decide as Hd.
  - apply (GetMessage_exhausted s this q); [apply I|].
    destruct fl; [done|cbn in Hc; lia].
  - assert (free_messages_ q ≠ 0) as Hf.
    { destruct fl; [cbn in Hc; lia|]. by destruct Hch as (-> & ? & _). }
    destruct (proj1 (wp_run _ _ _) (GetMessage_post s this q pool held I Hf Hsz))
      as (m & s' & Hr & q' & Hp). eauto.
Qed.

Lemma GetMessage_fresh_witness :
  ∃ m s' q', GetMessage 1000 Sample.s = Ok (m, s') ∧
    get_post Sample.s 1000 Sample.q Sample.pool Sample.held m s' q'.
Proof.
  exact (GetMessage_fresh Sample.s 1000 Sample.q Sample.pool Sample.held Sample.sample_inv eq_refl).
Defined.

(** C5: conservation of messages: [FreeMessages] counts the pool minus the
    distinct messages in the queue or in a client's hands, so no message is
    ever lost and none is free while somebody refers to it. *)
Theorem FreeMessages_conservation s this q pool held :
  queue_inv s this q pool held →
  FreeMessages this s =
    Ok (Z.of_nat (size pool)
        - Z.of_nat (size (dom (list_to_set_disj (contents q) ⊎ held : gmultiset Z))), s).
Proof. apply FreeMessages_eq. Qed.

Lemma FreeMessages_conservation_witness :
  FreeMessages 1000 Sample.s = Ok (1, Sample.s).
Proof.
  exact (FreeMessages_conservation Sample.s 1000 Sample.q Sample.pool Sample.held Sample.sample_inv).
Defined.

(** ** Creating and finding queues *)

(** An empty segment of 16 MiB, as its creator leaves it. *)
Module Fresh.
Definition core0 : aos_core := mkCore true 0 0 0 "".
Definition sc0 : aos_shm_core :=
  mkShmCore 0 (mkTimespec 0 0) Locked 0 (mkGlobal Locked 1) (mkGlobal Locked 1).
Definition core : aos_core :=
  mkCore true (SHM_START + sizeof_aos_shm_core) 0x1000000 SHM_START "".
Definition sc : aos_shm_core :=
  mkShmCore 1 (mkTimespec 0 0) Unlocked (SHM_START + 0x1000000)
    (mkGlobal Unlocked 0) (mkGlobal Unlocked 0).
Definition s : shm := initial_shm core sc.
Definition key : queue_key := mkKey "position" 32 5 3.

Lemma created :
  aos_core_use_address_as_shared_mem SHM_START 0x1000000 0 core0 sc0 = Ok (core, sc).
Proof. reflexivity. Qed.

Lemma fresh_inv : store_inv s [] (λ _, ∅) (λ _, ∅).
Proof. split; try done; [constructor|set_solver..]. Qed.

Lemma params : queue_params (k_length key) (k_queue_length key).
Proof. unfold queue_params. cbn. lia. Qed.

Lemma room : room_for s (queue_bytes (k_name key) (k_length key) (k_queue_length key)).
Proof. split; vm_compute; congruence. Qed.
End Fresh.

(** C6: [Fetch] either returns the queue that already has the key, leaving
    the shared memory as it was, or appends a new empty queue whose pool of
    [queue_length + 20] messages overlaps nothing that existed; the queues
    that were there keep everything but their [next_] link, and a second
    [Fetch] with the same key returns the same queue. *)
Theorem Fetch_correct s l pool held k :
  store_inv s l pool held → queue_params (k_length k) (k_queue_length k) →
  room_for s (queue_bytes (k_name k) (k_length k) (k_queue_length k)) →
  ∃ t s', Fetch (k_name k) (k_length k) (k_hash k) (k_queue_length k) s = Ok (t, s') ∧
    fetch_post s l pool held k t s' ∧
    Fetch (k_name k) (k_length k) (k_hash k) (k_queue_length k) s' = Ok (t, s').
Proof.
  intros SI Hpar Hroom.
  destruct (proj1 (wp_run _ _ _) (wp_Fetch s l pool held k SI Hpar Hroom)) as (t & s' & Hr & HP).
  exists t, s'. split_and!; [done|done|].
  destruct (fetched_find s l pool held k t s' SI HP) as (l' & pool' & held' & SI' & _ & Hf).
  by eapply wp_Fetch_found.
Qed.

Lemma Fetch_correct_witness :
  ∃ t s', Fetch "position" 32 5 3 Fresh.s = Ok (t, s') ∧
    fetch_post Fresh.s [] (λ _, ∅) (λ _, ∅) Fresh.key t s' ∧
    Fetch "position" 32 5 3 s' = Ok (t, s').
Proof.
  exact (Fetch_correct Fresh.s [] (λ _, ∅) (λ _, ∅) Fresh.key Fresh.fresh_inv Fresh.params Fresh.room).
Defined.

(** ** All clients together *)

(** C7: from the segment its creator initialised, whatever operations clients
    perform in whatever order while respecting the ownership rules, every
    queue keeps its ring, pool and reference-count invariants, the pools stay
    disjoint, and the next operation that respects the rules returns instead
    of stopping. *)
Theorem clients_never_crash address sz g g' c c' y :
  owner g = true → aos_core_use_address_as_shared_mem address sz 0 g c = Ok (g', c') →
  steps sys_step (mkSystem (initial_shm g' c') [] (λ _, ∅)) y →
  sys_inv y ∧
  ∀ p, allowed (sys_shm y) (sys_queues y) (sys_held y) p →
    ∃ r s', run_op p (sys_shm y) = Ok (r, s').
Proof.
  intros Ho Hc Hst.
  assert (sys_inv y) as Hy.
  { eapply (steps_invariant sys_step sys_inv sys_step_inv); [exact Hst|]. by eapply initial_inv. }
  split; [done|]. intros p Ha. destruct Hy as [pool SI].
  pose proof (op_safe _ _ _ _ SI p Ha) as H. apply wp_run in H as (r & s' & H & _). eauto.
Qed.

Lemma clients_never_crash_witness :
  sys_inv (mkSystem Fresh.s [] (λ _, ∅)) ∧ ∃ r s', run_op (OpFetch Fresh.key) Fresh.s = Ok (r, s').
Proof.
  destruct (clients_never_crash SHM_START 0x1000000 Fresh.core0 Fresh.core Fresh.sc0 Fresh.sc
    (mkSystem Fresh.s [] (λ _, ∅)) eq_refl Fresh.created (steps_refl _ _)) as [H1 H2].
  split; [exact H1|]. apply (H2 (OpFetch Fresh.key)). exact (conj Fresh.params Fresh.room).
Defined.

(** C8: publishing and subscribing end to end: on a newly fetched queue any
    sequence of publications (take, write with [kOverride]) and polls (read
    with an index, free) runs to its end, with no limit but the 31-bit
    counter; each poll returns the message the abstract subscriber expects
    (the next one it has not seen, or the oldest that was not overridden, or
    nothing when it has seen everything), so the numbers of the received
    messages strictly increase. *)
Theorem subscriber_sees_in_order s l pool held k evs :
  store_inv s l pool held → queue_params (k_length k) (k_queue_length k) →
  room_for s (queue_bytes (k_name k) (k_length k) (k_queue_length k)) →
  find_key (queue_objects s) k l = None → Z.of_nat (length evs) < 2 ^ 31 →
  ∃ outs s',
    (t ← Fetch (k_name k) (k_length k) (k_hash k) (k_queue_length k); feed t 0 evs) s
      = Ok (outs, s') ∧
    spec_feed (k_queue_length k) [] 0 evs outs ∧ increasing_from 0 (received outs).
Proof.
  intros SI Hpar Hroom Hnew Hlen. apply wp_run, wp_bind.
  eapply wp_mono; [by apply (wp_Fetch s l pool held)|]. intros t s1. unfold fetch_post.
  rewrite Hnew. intros (q & P & [N1 N2 N3 N4 [N5 Hm0] N6 N7]).
  destruct (si_queue _ _ _ _ N2 t ltac:(set_solver)) as [q' I].
  rewrite upd_pool_eq, upd_held_eq in I. pose proof (qi_object _ _ _ _ _ I) as Hq.
  assert (q' = q) as -> by congruence.
  eapply wp_mono; [eapply (wp_feed t P (k_queue_length k) evs s1 q [] 0); [|done|lia]|].
  - split; [done|by apply matches_length|unfold kExtraMessages in N6; lia|destruct Hpar; lia|..].
    + split; [done|]. by rewrite N5.
    + rewrite N5. cbn. destruct Hpar. lia.
  - cbn beta. intros outs s2 H. split; [done|].
    eapply spec_feed_increasing; [| |exact H]; [destruct Hpar; lia|done].
Qed.

Lemma subscriber_sees_in_order_witness :
  ∃ outs s',
    (t ← Fetch "position" 32 5 3; feed t 0 [Post; Poll; Poll; Post; Post; Post; Post; Poll]) Fresh.s
      = Ok (outs, s') ∧
    spec_feed 3 [] 0 [Post; Poll; Poll; Post; Post; Post; Post; Poll] outs ∧
    increasing_from 0 (received outs).
Proof.
  apply (subscriber_sees_in_order Fresh.s [] (λ _, ∅) (λ _, ∅) Fresh.key
    [Post; Poll; Poll; Post; Post; Post; Post; Poll] Fresh.fresh_inv Fresh.params Fresh.room eq_refl).
  cbn. lia.
Defined.

(** ** Misuse *)

(** Options that are not exactly one way to block, or that mean nothing
    for the operation, stop the program before the queue is touched, and so
    does a read with an index that asks for [kFromEnd | kPeek]; what counts
    as such is a statement about the bits. *)
Theorem invalid_options_are_fatal s this m o index n :
  (valid_write o = false → WriteMessage n this m o s = Err Fatal) ∧
  (valid_read o = false →
     ReadMessage n this o s = Err Fatal ∧ ReadMessageIndex this o index s = Err Fatal) ∧
  (AllSet o kFromEndAndPeek = true → ReadMessageIndex this o index s = Err Fatal).
Proof.
  assert (Hr : valid_read o = false → CheckReadOptions o = Err Fatal).
  { unfold valid_read, CheckReadOptions.
    destruct (NoOthersSet o kValidReadOptions); [|done]. cbn. by intros ->. }
  split_and!.
  - unfold valid_write, WriteMessage, WriteMessage_.
    destruct (NoOthersSet o kWriteFailureOptions); [|done]. cbn. by intros ->.
  - intros H%Hr. unfold ReadMessage, ReadMessageIndex, mbind, st_bind, st_lift. by rewrite H.
  - intros Ha. unfold ReadMessageIndex, mbind, st_bind, st_lift.
    destruct (valid_read o) eqn:E; [|by rewrite Hr].
    rewrite CheckReadOptions_valid by done. by rewrite Ha.
Qed.

Lemma invalid_options_are_fatal_witness :
  WriteMessage 1 1000 216 (Option_or kBlock kNonBlock) Sample.s = Err Fatal.
Proof.
  apply (proj1 (invalid_options_are_fatal Sample.s 1000 216 (Option_or kBlock kNonBlock) 0 1)).
  reflexivity.
Defined.
