(* ===== verification/AosSync.v ===== *)
(** * Mutexes, conditions and futexes: aos/linux_code/ipc_lib/aos_sync.cc

    A mutex is a 32-bit futex word (0, or the owner's TID with the flags
    FUTEX_WAITERS and FUTEX_OWNER_DIED) and two links of the owner's robust
    list, which the kernel walks when a task dies.  The kernel and the other
    tasks are parameters ([Kernel]): before every access to a word other
    tasks may have changed it ([interfere]), and a system call returns a
    result and the word it leaves.  The functions are the ones of the file,
    for one task; the observers of the robustness test and the
    ThreadSanitizer shadow mutexes are compiled out. *)

From S2P Require Import Prelude.

Definition FUTEX_WAITERS : Z := 0x80000000.
Definition FUTEX_OWNER_DIED : Z := 0x40000000.
Definition FUTEX_TID_MASK : Z := 0x3fffffff.

Definition EINTR : Z := 4.
Definition EAGAIN : Z := 11.
Definition EDEADLK : Z := 35.
Definition ETIMEDOUT : Z := 110.
Definition INT_MAX : Z := 2 ^ 31 - 1.

(** The TID and the owner-died flag of a word. *)
Definition tid_of (w : Z) : Z := Z.land w FUTEX_TID_MASK.
Definition died (w : Z) : bool := negb (Z.land w FUTEX_OWNER_DIED =? 0).

Record aos_mutex := mkMutex { m_next : Z; m_previous : Z; m_futex : Z }.

Record aos_robust_list_head := mkRobust {
  rh_next : Z; rh_futex_offset : Z; rh_pending_next : Z }.

(** [offsetof(aos_mutex, futex) - offsetof(aos_mutex, next)] *)
Definition futex_offset : Z := 16.

(** ** The kernel

    [K] is whatever the kernel and the other tasks remember.  Each call gets
    the word at the address and gives the result (0 or a negated errno), the
    new [K] and the word. *)
Class Kernel (K : Type) := {
  interfere : Z → K → Z → K * Z;
  sys_lock_pi : Z → Z → bool → K → Z → Z * K * Z;
  sys_trylock_pi : Z → Z → K → Z → Z * K * Z;
  sys_unlock_pi : Z → Z → K → Z → Z * K * Z;
  sys_wait : Z → Z → bool → K → Z → Z * K * Z;
  sys_wake : Z → Z → K → Z → Z * K * Z;
  sys_wait_requeue_pi : Z → Z → Z → K → Z → Z * K * Z;
  (** What FUTEX_WAIT_REQUEUE_PI does to the mutex before it returns 0. *)
  requeue_handover : Z → Z → K → Z → unit * K * Z;
  sys_cmp_requeue_pi : Z → Z → Z → Z → K → Z → Z * K * Z;
  sys_gettid : K → Z;
  sys_set_robust_list : Z → K → Z * K }.

Section Sync.
Context {K : Type} `{Kernel K}.
(** The address of the thread's [robust_head], and whether the build uses
    the REQUEUE_PI operations. *)
Context (head : Z) (USE_REQUEUE_PI : bool).

Record sync := mkSync {
  mutexes : gmap Z aos_mutex;
  words : gmap Z Z;
  kern : K;
  my_tid : Z;
  robust_head : aos_robust_list_head;
  robust_list_offset : Z }.

Notation MS := (ST sync).

Definition set_mutexes (ms : gmap Z aos_mutex) (s : sync) : sync :=
  mkSync ms (words s) (kern s) (my_tid s) (robust_head s) (robust_list_offset s).
Definition set_words (ws : gmap Z Z) (s : sync) : sync :=
  mkSync (mutexes s) ws (kern s) (my_tid s) (robust_head s) (robust_list_offset s).
Definition set_kern (k : K) (s : sync) : sync :=
  mkSync (mutexes s) (words s) k (my_tid s) (robust_head s) (robust_list_offset s).
Definition set_tid (t : Z) (s : sync) : sync :=
  mkSync (mutexes s) (words s) (kern s) t (robust_head s) (robust_list_offset s).
Definition set_head (h : aos_robust_list_head) (s : sync) : sync :=
  mkSync (mutexes s) (words s) (kern s) (my_tid s) h (robust_list_offset s).
Definition set_offset (o : Z) (s : sync) : sync :=
  mkSync (mutexes s) (words s) (kern s) (my_tid s) (robust_head s) o.

Definition set_pending (v : Z) (h : aos_robust_list_head) : aos_robust_list_head :=
  mkRobust (rh_next h) (rh_futex_offset h) v.
Definition set_head_next (v : Z) (h : aos_robust_list_head) : aos_robust_list_head :=
  mkRobust v (rh_futex_offset h) (rh_pending_next h).

Definition get_mutex (m : Z) : MS aos_mutex := λ s,
  match mutexes s !! m with Some x => Ok (x, s) | None => Err Undefined end.
Definition upd_mutex (m : Z) (f : aos_mutex → aos_mutex) : MS unit := λ s,
  match mutexes s !! m with
  | Some x => Ok (tt, set_mutexes (<[m := f x]> (mutexes s)) s)
  | None => Err Undefined
  end.

Definition with_next (v : Z) (x : aos_mutex) : aos_mutex := mkMutex v (m_previous x) (m_futex x).
Definition with_previous (v : Z) (x : aos_mutex) : aos_mutex := mkMutex (m_next x) v (m_futex x).
Definition with_futex (v : Z) (x : aos_mutex) : aos_mutex := mkMutex (m_next x) (m_previous x) v.

(** *** Atomic access to a mutex's futex and to a plain word *)

(** Run [f] on the word of mutex [m], after the others had their chance. *)
Definition on_futex {A} (m : Z) (f : K → Z → A * K * Z) : MS A := λ s,
  match mutexes s !! m with
  | Some x =>
      let '(k, w) := interfere m (kern s) (m_futex x) in
      let '(a, k', w') := f k w in
      Ok (a, set_kern k' (set_mutexes (<[m := with_futex w' x]> (mutexes s)) s))
  | None => Err Undefined
  end.
Definition on_word {A} (c : Z) (f : K → Z → A * K * Z) : MS A := λ s,
  match words s !! c with
  | Some w0 =>
      let '(k, w) := interfere c (kern s) w0 in
      let '(a, k', w') := f k w in
      Ok (a, set_kern k' (set_words (<[c := w']> (words s)) s))
  | None => Err Undefined
  end.

Definition atomic_load (k : K) (w : Z) : Z * K * Z := (w, k, w).
Definition compare_and_swap_val (before after : Z) (k : K) (w : Z) : Z * K * Z :=
  (w, k, if w =? before then after else w).
Definition compare_and_swap (before after : Z) (k : K) (w : Z) : bool * K * Z :=
  (w =? before, k, if w =? before then after else w).
Definition atomic_store (v : Z) (k : K) (w : Z) : unit * K * Z := (tt, k, v).
Definition atomic_and (mask : Z) (k : K) (w : Z) : unit * K * Z := (tt, k, Z.land w mask).
Definition atomic_add_fetch (v : Z) (k : K) (w : Z) : Z * K * Z := (u32 (w + v), k, u32 (w + v)).
Definition atomic_exchange (v : Z) (k : K) (w : Z) : Z * K * Z := (w, k, v).

(** *** The robust list *)

Definition kRobustListOr : Z := 1.
Definition robust_head_next_value : Z := head.
Definition next_is_head (next : Z) : bool := next =? robust_head_next_value.
Definition robust_head_mutex : Z := robust_head_next_value.
(** [&m->next] is [m]; uintptr_t arithmetic is modulo 2^64. *)
Definition mutex_to_next (offset m : Z) : Z := Z.lor (u64 (m + offset)) kRobustListOr.
Definition next_to_mutex (offset next : Z) : Z :=
  if negb (offset =? 0) && next_is_head next then next
  else u64 (Z.ldiff next kRobustListOr - offset).

(** Stores through an [aos_mutex*] that may be the head's pseudo-mutex. *)
Definition store_next (m v : Z) : MS unit :=
  if m =? head then st_modify (λ s, set_head (set_head_next v (robust_head s)) s)
  else upd_mutex m (with_next v).
Definition load_next (m : Z) : MS Z := λ s,
  if m =? head then Ok (rh_next (robust_head s), s)
  else match mutexes s !! m with Some x => Ok (m_next x, s) | None => Err Undefined end.

Definition put_pending (v : Z) : MS unit :=
  st_modify (λ s, set_head (set_pending v (robust_head s)) s).

Definition Adder_begin (m : Z) : MS unit :=
  s ← st_get; put_pending (mutex_to_next (robust_list_offset s) m).
Definition Adder_end : MS unit := put_pending 0.

Definition Add (m : Z) : MS unit :=
  s ← st_get;
  let old_head_next_value := rh_next (robust_head s) in
  _ ← upd_mutex m (with_next old_head_next_value);
  _ ← store_next head (mutex_to_next (robust_list_offset s) m);
  _ ← upd_mutex m (with_previous robust_head_mutex);
  if negb (next_is_head old_head_next_value)
  then upd_mutex (next_to_mutex (robust_list_offset s) old_head_next_value) (with_previous m)
  else mret tt.

Definition Remover_begin (m : Z) : MS unit :=
  s ← st_get;
  _ ← put_pending (mutex_to_next (robust_list_offset s) m);
  x ← get_mutex m;
  let previous := m_previous x in
  let next_value := m_next x in
  _ ← store_next previous (m_next x);
  if negb (next_is_head next_value)
  then upd_mutex (next_to_mutex (robust_list_offset s) next_value) (with_previous previous)
  else mret tt.
Definition Remover_end : MS unit := put_pending 0.

Definition Init : MS unit :=
  _ ← st_modify (set_head (mkRobust robust_head_next_value futex_offset 0));
  r ← (λ s, let '(r, k) := sys_set_robust_list robust_head_next_value (kern s) in
            Ok (r, set_kern k s));
  if negb (r =? 0) then st_stop Fatal else mret tt.

(** The walk of [SetRobustListOffset]; [n] bounds the number of locked mutexes. *)
Fixpoint adjust_offsets (n : nat) (offset_change m : Z) : MS unit :=
  match n with
  | O => st_stop Fuel
  | S n =>
      v ← load_next m;
      if next_is_head v then mret tt
      else
        _ ← store_next m (u64 (v + offset_change));
        s ← st_get;
        adjust_offsets n offset_change (next_to_mutex (robust_list_offset s) (u64 (v + offset_change)))
  end.

Definition SetRobustListOffset (offset : Z) : MS unit :=
  s ← st_get;
  let offset_change := u64 (offset - robust_list_offset s) in
  _ ← st_modify (set_offset offset);
  adjust_offsets (S (size (mutexes s))) offset_change robust_head_mutex.

Definition HaveLockedMutexes (s : sync) : bool :=
  negb (rh_next (robust_head s) =? robust_head_next_value).

(** *** The thread's identity *)

Definition initialize_in_new_thread : MS unit :=
  _ ← st_modify (λ s, set_tid (sys_gettid (kern s)) s);
  Init.

Definition get_tid : MS Z :=
  s ← st_get;
  _ ← (if my_tid s =? 0 then initialize_in_new_thread else mret tt);
  s ← st_get;
  mret (u32 (my_tid s)).

Definition atfork_child : MS unit := st_modify (set_tid 0).

(** *** Mutexes *)

(** [PELOG(FATAL)], after resetting [pending_next]. *)
Definition fatal {A} : MS A := _ ← put_pending 0; st_stop Fatal.

Definition mutex_finish_lock (m : Z) : MS Z :=
  value ← on_futex m atomic_load;
  if died value then
    _ ← on_futex m (atomic_and (Z.lxor FUTEX_OWNER_DIED (2 ^ 32 - 1)));
    mret 1
  else mret 0.

(** [fuel] bounds how often a signal interrupts the wait. *)
Fixpoint mutex_do_get (fuel : nat) (m : Z) (signals_fail timeout : bool) (tid : Z) : MS Z :=
  match fuel with
  | O => st_stop Fuel
  | S fuel =>
      swapped ← on_futex m (compare_and_swap 0 tid);
      if (swapped : bool) then mret 0
      else
        ret ← on_futex m (sys_lock_pi m tid timeout);
        if negb (ret =? 0) then
          if timeout && (ret =? - ETIMEDOUT) then mret 3
          else if ret =? - EINTR then
            if signals_fail then mret 2 else mutex_do_get fuel m signals_fail timeout tid
          else fatal
        else mutex_finish_lock m
  end.

Definition mutex_get (fuel : nat) (m : Z) (signals_fail timeout : bool) : MS Z :=
  tid ← get_tid;
  _ ← Adder_begin m;
  r ← mutex_do_get fuel m signals_fail timeout tid;
  _ ← (if (r =? 0) || (r =? 1) then Add m else mret tt);
  _ ← Adder_end;
  mret r.

Definition mutex_lock (fuel : nat) (m : Z) : MS Z := mutex_get fuel m true false.
Definition mutex_lock_timeout (fuel : nat) (m : Z) : MS Z := mutex_get fuel m true true.
Definition mutex_grab (fuel : nat) (m : Z) : MS Z := mutex_get fuel m false false.

Definition mutex_unlock (m : Z) : MS unit :=
  tid ← get_tid;
  value ← on_futex m atomic_load;
  if negb (tid_of value =? tid) then fatal
  else
    _ ← Remover_begin m;
    swapped ← on_futex m (compare_and_swap tid 0);
    _ ← (if negb swapped then
           ret ← on_futex m (sys_unlock_pi m tid);
           if negb (ret =? 0) then fatal else mret tt
         else mret tt);
    Remover_end.

Definition mutex_trylock (m : Z) : MS Z :=
  tid ← get_tid;
  _ ← Adder_begin m;
  c ← on_futex m (compare_and_swap_val 0 tid);
  if negb (c =? 0) then
    if negb (died c) then _ ← Adder_end; mret 4
    else
      ret ← on_futex m (sys_trylock_pi m tid);
      if ret =? 0 then
        _ ← Add m;
        r ← mutex_finish_lock m;
        _ ← Adder_end;
        mret r
      else if ret =? - EAGAIN then _ ← Adder_end; mret 4
      else fatal
  else
    _ ← Add m;
    _ ← Adder_end;
    mret 0.

Definition mutex_islocked (m : Z) : MS bool :=
  tid ← get_tid;
  value ← on_futex m atomic_load;
  mret (tid_of value =? tid).

(** *** Conditions *)

Fixpoint wake_requeue (fuel : nat) (c m number_requeue new_value : Z) : MS unit :=
  match fuel with
  | O => st_stop Fuel
  | S fuel =>
      ret ← on_word c (sys_cmp_requeue_pi c number_requeue m new_value);
      if ret <? 0 then
        if ret =? - EAGAIN then
          new_value ← on_word c atomic_load;
          wake_requeue fuel c m number_requeue new_value
        else fatal
      else mret tt
  end.

Definition condition_wake (fuel : nat) (c m number_requeue : Z) : MS unit :=
  new_value ← on_word c (atomic_add_fetch 1);
  if USE_REQUEUE_PI then wake_requeue fuel c m number_requeue new_value
  else
    ret ← on_word c (sys_wake c (Z.min (Z.max number_requeue 1) (INT_MAX - 4096)));
    if u32 (- 4096) <? u32 ret then fatal else mret tt.

Definition condition_signal (fuel : nat) (c m : Z) : MS unit := condition_wake fuel c m 0.
Definition condition_broadcast (fuel : nat) (c m : Z) : MS unit := condition_wake fuel c m INT_MAX.

(** The system call on the condition; it also relocks the mutex. *)
Definition wait_requeue_pi (c wait_start m tid : Z) : MS Z :=
  ret ← on_word c (sys_wait_requeue_pi c wait_start m);
  _ ← (if ret =? 0 then on_futex m (requeue_handover m tid) else mret tt);
  mret ret.

(** [fuel] bounds the signals, of the wait and of the relocking. *)
Fixpoint condition_sleep (fuel : nat) (c m wait_start tid : Z) : MS Z :=
  match fuel with
  | O => st_stop Fuel
  | S fuel =>
      ret ← (if USE_REQUEUE_PI then wait_requeue_pi c wait_start m tid
             else on_word c (sys_wait c wait_start false));
      if negb (ret =? 0) then
        if ret =? - EAGAIN then
          r ← mutex_do_get (S fuel) m false false tid;
          _ ← Add m;
          mret r
        else if ret =? - EINTR then condition_sleep fuel c m wait_start tid
        else fatal
      else if USE_REQUEUE_PI then
        _ ← Add m;
        mutex_finish_lock m
      else
        r ← mutex_do_get (S fuel) m false false tid;
        _ ← Add m;
        mret r
  end.

Definition condition_wait (fuel : nat) (c m : Z) : MS Z :=
  tid ← get_tid;
  wait_start ← on_word c atomic_load;
  _ ← mutex_unlock m;
  _ ← Adder_begin m;
  r ← condition_sleep fuel c m wait_start tid;
  _ ← Adder_end;
  mret r.

(** *** Plain futexes; an error is the pair of -1 and errno *)

Definition futex_wait_timeout (m : Z) (timeout : bool) : MS (Z * Z) :=
  v ← on_word m atomic_load;
  if negb (v =? 0) then mret (0, 0)
  else
    ret ← on_word m (sys_wait m 0 timeout);
    if negb (ret =? 0) then
      if ret =? - EINTR then mret (1, 0)
      else if ret =? - ETIMEDOUT then mret (2, 0)
      else if negb (ret =? - EAGAIN) then mret (-1, - ret)
      else mret (0, 0)
    else mret (0, 0).

Definition futex_wait (m : Z) : MS (Z * Z) := futex_wait_timeout m false.

Definition futex_set_value (m value : Z) : MS (Z * Z) :=
  _ ← on_word m (atomic_store value);
  r ← on_word m (sys_wake m (INT_MAX - 4096));
  if u32 (- 4096) <? u32 r then mret (-1, - r) else mret (r, 0).

Definition futex_set (m : Z) : MS (Z * Z) := futex_set_value m 1.

Definition futex_unset (m : Z) : MS Z :=
  v ← on_word m (atomic_exchange 0);
  mret (if v =? 0 then 1 else 0).

(** ** aos::Mutex, aos::Condition and aos::Event on top of them *)

Inductive MutexState : Set := kLocked | kLockFailed | kOwnerDied.

Definition Mutex_Lock (fuel : nat) (m : Z) : MS bool :=
  ret ← mutex_grab fuel m;
  if ret =? 0 then mret false else if ret =? 1 then mret true else st_stop Fatal.

Definition Mutex_Unlock (m : Z) : MS unit := mutex_unlock m.

Definition Mutex_TryLock (m : Z) : MS MutexState :=
  ret ← mutex_trylock m;
  if ret =? 0 then mret kLocked
  else if ret =? 1 then mret kOwnerDied
  else if ret =? 4 then mret kLockFailed
  else st_stop Fatal.

Definition Mutex_OwnedBySelf (m : Z) : MS bool := mutex_islocked m.

Definition Mutex_destroy (m : Z) : MS unit :=
  l ← mutex_islocked m; if (l : bool) then st_stop Fatal else mret tt.

(** [MutexLocker]: construct, run the body, destruct. *)
Definition MutexLocker {A} (fuel : nat) (m : Z) (body : MS A) : MS A :=
  d ← Mutex_Lock fuel m;
  if (d : bool) then st_stop Fatal
  else a ← body; _ ← Mutex_Unlock m; mret a.

(** [IPCMutexLocker]: the body gets [owner_died()] and says whether it asked. *)
Definition IPCMutexLocker {A} (fuel : nat) (m : Z) (body : bool → MS (A * bool)) : MS A :=
  d ← Mutex_Lock fuel m;
  '(a, checked) ← body d;
  if negb checked then st_stop Fatal else _ ← Mutex_Unlock m; mret a.

Definition IPCRecursiveMutexLocker {A} (fuel : nat) (m : Z) (body : bool → MS (A * bool)) : MS A :=
  owned ← Mutex_OwnedBySelf m;
  let locked := negb owned in
  d ← (if locked then Mutex_Lock fuel m else mret false);
  '(a, checked) ← body d;
  if negb checked then st_stop Fatal
  else _ ← (if locked then Mutex_Unlock m else mret tt); mret a.

Definition Condition_Wait (fuel : nat) (c m : Z) : MS bool :=
  ret ← condition_wait fuel c m; mret (ret =? 1).
Definition Condition_Signal (fuel : nat) (c m : Z) : MS unit := condition_signal fuel c m.
Definition Condition_Broadcast (fuel : nat) (c m : Z) : MS unit := condition_broadcast fuel c m.

Fixpoint Event_Wait (fuel : nat) (e : Z) : MS unit :=
  match fuel with
  | O => st_stop Fuel
  | S fuel =>
      '(ret, _) ← futex_wait e;
      if ret =? 1 then Event_Wait fuel e
      else if ret =? 0 then mret tt
      else st_stop Fatal
  end.

Fixpoint Event_WaitTimeout (fuel : nat) (e : Z) : MS bool :=
  match fuel with
  | O => st_stop Fuel
  | S fuel =>
      '(ret, _) ← futex_wait_timeout e true;
      if ret =? 1 then Event_WaitTimeout fuel e
      else if ret =? 0 then mret true
      else if ret =? 2 then mret false
      else st_stop Fatal
  end.

Definition Event_Set (e : Z) : MS unit :=
  '(r, _) ← futex_set e; if r =? -1 then st_stop Fatal else mret tt.
Definition Event_Clear (e : Z) : MS bool := r ← futex_unset e; mret (r =? 0).
End Sync.
