(* ===== verification/RobustList.v ===== *)
(** * The robust list of a task

    [my_robust_list] keeps the mutexes a task holds in a doubly linked list
    the kernel can walk: forward pointers carry an offset and the PI flag,
    backward pointers are plain, and the head has no backward pointer.
    [robust s l] says that the links spell the list [l]; adding and removing
    in constant time do what they say. *)

From S2P Require Import Prelude AosSync.

(** ** Encoded pointers *)

(** Mutexes are 8-byte aligned, and so is every offset used with them. *)
Definition addr_ok (m : Z) : Prop := 0 < m < 2 ^ 64 ∧ m mod 2 = 0.

Lemma even_u64 z : z mod 2 = 0 → u64 z mod 2 = 0.
Proof.
  intros Hz. unfold uwrap. replace (2 ^ 64) with (2 * 2 ^ 63) by reflexivity.
  rewrite Z.rem_mul_r by lia. rewrite Hz.
  replace (0 + 2 * ((z / 2) mod 2 ^ 63)) with ((z / 2) mod 2 ^ 63 * 2) by lia.
  apply Z.mod_mul. lia.
Qed.

Lemma even_lor_1 z : z mod 2 = 0 → Z.lor z 1 = z + 1.
Proof.
  intros Hz. rewrite <-Z.add_lor_land. replace (Z.land z 1) with 0; [lia|].
  change 1 with (Z.ones 1). by rewrite Z.land_ones.
Qed.

Lemma odd_ldiff_1 z : z mod 2 = 0 → Z.ldiff (z + 1) 1 = z.
Proof.
  intros Hz. change 1 with (Z.ones 1) at 2. rewrite Z.ldiff_ones_r by lia.
  rewrite Z.shiftr_div_pow2, Z.shiftl_mul_pow2 by lia. change (2 ^ 1) with 2.
  Z.to_euclidean_division_equations. lia.
Qed.

Section Encoding.
Context (head offset : Z).
Hypothesis Hhead : head mod 2 = 0.
Hypothesis Hoff : offset mod 2 = 0.

Lemma offset_even m : addr_ok m → u64 (m + offset) mod 2 = 0.
Proof. intros [_ Hm]. apply even_u64. rewrite Zplus_mod, Hm, Hoff. done. Qed.

Lemma mutex_to_next_eq m : addr_ok m → mutex_to_next offset m = u64 (m + offset) + 1.
Proof. intros. apply even_lor_1. by apply offset_even. Qed.

Lemma mutex_to_next_not_head m : addr_ok m → next_is_head head (mutex_to_next offset m) = false.
Proof.
  intros Hm. apply Z.eqb_neq. rewrite mutex_to_next_eq by done. unfold robust_head_next_value.
  pose proof (offset_even m Hm). intros E. rewrite <-E, Zplus_mod, H in Hhead. done.
Qed.

Lemma next_to_mutex_to_next m :
  addr_ok m → next_to_mutex head offset (mutex_to_next offset m) = m.
Proof.
  intros Hm. unfold next_to_mutex. rewrite mutex_to_next_not_head, andb_false_r by done.
  rewrite mutex_to_next_eq by done. unfold kRobustListOr.
  rewrite odd_ldiff_1 by by apply offset_even.
  unfold uwrap. rewrite Zminus_mod_idemp_l. replace (m + offset - offset) with m by lia.
  apply Z.mod_small. destruct Hm. lia.
Qed.
End Encoding.

(** ** Segments of the list

    [seg p v l q u]: from a link with value [v] held by [p], through the
    mutexes [l], to the last one [q] whose link has value [u]. *)
Section Seg.
Context (offset : Z).
Implicit Types (ms : gmap Z aos_mutex) (l : list Z).

Fixpoint seg ms (p v : Z) l (q u : Z) : Prop :=
  match l with
  | [] => p = q ∧ v = u
  | m :: l => v = mutex_to_next offset m ∧
      ∃ x, ms !! m = Some x ∧ m_previous x = p ∧ seg ms m (m_next x) l q u
  end.

Lemma seg_app ms p v l1 l2 q u :
  seg ms p v (l1 ++ l2) q u ↔ ∃ r w, seg ms p v l1 r w ∧ seg ms r w l2 q u.
Proof.
  revert p v. induction l1 as [|m l1 IH]; intros p v; cbn.
  - naive_solver.
  - setoid_rewrite IH. naive_solver.
Qed.

(** Only the links of the members matter. *)
Lemma seg_links ms ms' p v l q u :
  (∀ m x, m ∈ l → ms !! m = Some x →
     ∃ x', ms' !! m = Some x' ∧ m_next x' = m_next x ∧ m_previous x' = m_previous x) →
  seg ms p v l q u → seg ms' p v l q u.
Proof.
  revert p v. induction l as [|m l IH]; intros p v Hl; cbn; [done|].
  intros (-> & x & Hx & Hp & Hs). split; [done|].
  destruct (Hl m x ltac:(left) Hx) as (x' & Hx' & En & Ep). exists x'.
  rewrite Ep, En. split_and!; [done..|]. apply IH; [|done]. intros; apply Hl; [by right|done].
Qed.

Lemma seg_insert ms p v l q u m x :
  m ∉ l → seg ms p v l q u → seg (<[m := x]> ms) p v l q u.
Proof.
  intros Hm. apply seg_links. intros m' x' Hin Hx'. exists x'.
  by rewrite lookup_insert_ne by set_solver.
Qed.

Lemma seg_last ms p v l a q u :
  seg ms p v (l ++ [a]) q u → q = a ∧ ∃ x, ms !! a = Some x ∧ m_next x = u.
Proof.
  rewrite seg_app. intros (r & w & _ & _ & x & Hx & _ & <- & <-). eauto.
Qed.

(** Redirecting the last link. *)
Lemma seg_set_last ms p v l a x u u' :
  a ∉ l → ms !! a = Some x → seg ms p v (l ++ [a]) a u →
  seg (<[a := with_next u' x]> ms) p v (l ++ [a]) a u'.
Proof.
  intros Ha Hx. rewrite !seg_app. intros (r & w & Hs & -> & y & Hy & Hp & _ & _).
  exists r, (mutex_to_next offset a). split; [by apply seg_insert|].
  split; [done|]. exists (with_next u' x). rewrite lookup_insert_eq. simplify_eq. done.
Qed.

(** Redirecting the first back link. *)
Lemma seg_set_first ms p p' v y x l q u :
  y ∉ l → ms !! y = Some x → seg ms p v (y :: l) q u →
  seg (<[y := with_previous p' x]> ms) p' v (y :: l) q u.
Proof.
  intros Hy Hx (-> & x0 & Hx0 & _ & Hs). split; [done|]. exists (with_previous p' x).
  rewrite lookup_insert_eq. simplify_eq. split_and!; [done..|]. by apply seg_insert.
Qed.
End Seg.

(** ** The invariant and the two operations *)

Section Robust.
Context {K : Type} `{Kernel K} (head : Z).

Record robust (s : sync (K := K)) (l : list Z) : Prop := mkRobustInv {
  rb_seg : ∃ q, seg (robust_list_offset s) (mutexes s) head (rh_next (robust_head s)) l q head;
  rb_nodup : NoDup l;
  rb_addr : ∀ m, m ∈ l → addr_ok m;
  rb_head : head mod 2 = 0 ∧ head ∉ l;
  rb_offset : robust_list_offset s mod 2 = 0 }.

Implicit Types (s : sync (K := K)) (l : list Z).

Lemma wp_get_mutex m x Q s :
  mutexes s !! m = Some x → Q x s → wp (get_mutex m) Q s.
Proof. intros Hx HQ. unfold wp, get_mutex. by rewrite Hx. Qed.

Lemma wp_upd_mutex m f x Q s :
  mutexes s !! m = Some x →
  Q tt (set_mutexes (<[m := f x]> (mutexes s)) s) → wp (upd_mutex m f) Q s.
Proof. intros Hx HQ. unfold wp, upd_mutex. by rewrite Hx. Qed.

(** What an update of the links leaves alone. *)
Definition same_rest s s' : Prop :=
  words s' = words s ∧ kern s' = kern s ∧ my_tid s' = my_tid s ∧
  robust_list_offset s' = robust_list_offset s ∧
  rh_pending_next (robust_head s') = rh_pending_next (robust_head s) ∧
  ∀ m, m_futex <$> mutexes s' !! m = m_futex <$> mutexes s !! m.

Lemma futex_insert (ms : gmap Z aos_mutex) m x y m' :
  ms !! m = Some x → m_futex y = m_futex x →
  m_futex <$> (<[m := y]> ms) !! m' = m_futex <$> ms !! m'.
Proof.
  intros Hx Hy. destruct (decide (m' = m)) as [->|]; [|by rewrite lookup_insert_ne].
  rewrite lookup_insert_eq, Hx. cbn. by rewrite Hy.
Qed.

Lemma wp_Add s l m x :
  robust s l → mutexes s !! m = Some x → m ∉ l → addr_ok m → m ≠ head →
  wp (Add head m) (λ _ s', robust s' (m :: l) ∧ same_rest s s') s.
Proof.
  intros [[q Hs] Hn Ha [Hh Hh'] Ho] Hx Hm Hok Hne. unfold Add.
  apply wp_bind, wp_get, wp_bind, (wp_upd_mutex _ _ x); [done|].
  apply wp_bind. unfold store_next. rewrite Z.eqb_refl.
  unfold st_modify, wp at 1. cbn beta iota.
  apply wp_bind. eapply wp_upd_mutex; [apply lookup_insert_eq|].
  cbn. rewrite insert_insert_eq.
  set (x' := with_previous (robust_head_mutex head) (with_next (rh_next (robust_head s)) x)).
  assert (Hwf : ∀ s', robust_list_offset s' = robust_list_offset s →
    rh_next (robust_head s') = mutex_to_next (robust_list_offset s) m →
    (∃ q, seg (robust_list_offset s) (mutexes s') head (mutex_to_next (robust_list_offset s) m)
       (m :: l) q head) → robust s' (m :: l)).
  { intros s' E1 E2 E3. split; rewrite ?E1, ?E2; try done.
    - by constructor.
    - intros m' [->|?]%elem_of_cons; auto.
    - split; [done|]. set_solver. }
  destruct l as [|y l].
  - destruct Hs as [-> Hv]. rewrite Hv. unfold next_is_head, robust_head_next_value.
    rewrite Z.eqb_refl. apply wp_ret. split.
    + apply Hwf; [done..|]. exists m. cbn. split; [done|]. exists x'.
      rewrite lookup_insert_eq. split_and!; done.
    + split_and!; try done. cbn. intros m'. by apply (futex_insert _ _ x).
  - pose proof Hs as (Hv & y0 & Hy0 & _ & _).
    assert (addr_ok y) by (apply Ha; left). assert (m ≠ y) by set_solver.
    rewrite Hv, mutex_to_next_not_head, next_to_mutex_to_next by done. cbn [negb].
    eapply wp_upd_mutex; [cbn; by rewrite lookup_insert_ne|]. cbn. split.
    + apply Hwf; [done..|]. exists q. cbn [mutexes set_mutexes set_head].
      split; [done|]. exists x'. rewrite lookup_insert_ne, lookup_insert_eq by done.
      split_and!; [done..|]. cbn [m_next x' with_previous with_next].
      eapply seg_set_first; [by apply NoDup_cons in Hn as [? _]|by rewrite lookup_insert_ne|].
      apply seg_insert; [done|exact Hs].
    + split_and!; try done. cbn. intros m'.
      rewrite (futex_insert _ y y0) by (rewrite ?lookup_insert_ne; done).
      by apply (futex_insert _ _ x).
Qed.

(** The state while [pending_next] announces an operation on [m]. *)
Definition pending (v : Z) s : sync := set_head (set_pending v (robust_head s)) s.

Lemma robust_pending v s l : robust s l → robust (pending v s) l.
Proof. intros [? ? ? ? ?]. by split. Qed.

(** The link that points at a member: its predecessor's, or the head's. *)
Lemma seg_predecessor off (ms : gmap Z aos_mutex) v l1 m l2 q u :
  seg off ms head v (l1 ++ m :: l2) q u →
  ∃ p x, ms !! m = Some x ∧ m_previous x = p ∧
    seg off ms head v l1 p (mutex_to_next off m) ∧ seg off ms m (m_next x) l2 q u ∧
    p = default head (last l1).
Proof.
  rewrite seg_app. intros (p & w & Hs & -> & x & Hx & Hp & Hs2). exists p, x.
  split_and!; try done.
  destruct (last l1) as [a|] eqn:E.
  - apply last_Some in E as [l' ->]. by apply seg_last in Hs as [-> _].
  - apply last_None in E as ->. by destruct Hs.
Qed.

(** The second half of the removal: the successor's back link. *)
Lemma wp_fix_successor s m p l2 (P : sync → Prop) q :
  NoDup l2 → (∀ y, y ∈ l2 → addr_ok y) → head mod 2 = 0 → robust_list_offset s mod 2 = 0 →
  ∀ v, seg (robust_list_offset s) (mutexes s) m v l2 q head →
  (∀ s', seg (robust_list_offset s) (mutexes s') p v l2 (if l2 is [] then p else q) head →
     (∀ z, z ∉ l2 → mutexes s' !! z = mutexes s !! z) →
     robust_head s' = robust_head s → same_rest s s' → P s') →
  wp (if negb (next_is_head head v)
      then upd_mutex (next_to_mutex head (robust_list_offset s) v) (with_previous p)
      else mret tt) (λ _ s', P s') s.
Proof.
  intros Hn Ha Hh Ho v Hs HP. destruct l2 as [|y l2].
  - destruct Hs as [_ ->]. unfold next_is_head, robust_head_next_value.
    rewrite Z.eqb_refl. apply wp_ret. by apply HP.
  - pose proof Hs as (Hv & y0 & Hy0 & _ & _).
    assert (addr_ok y) by (apply Ha; left).
    rewrite Hv, mutex_to_next_not_head, next_to_mutex_to_next by done. cbn [negb].
    apply (wp_upd_mutex _ _ y0); [done|]. apply HP; cbn.
    + eapply seg_set_first; [by apply NoDup_cons in Hn as [? _]|done|exact Hs].
    + intros z Hz. rewrite lookup_insert_ne by set_solver. done.
    + done.
    + split_and!; try done. cbn. intros z. by apply (futex_insert _ _ y0).
Qed.

Lemma same_rest_trans s1 s2 s3 : same_rest s1 s2 → same_rest s2 s3 → same_rest s1 s3.
Proof.
  intros (A1 & A2 & A3 & A4 & A5 & A6) (B1 & B2 & B3 & B4 & B5 & B6).
  split_and!; [congruence..|]. intros m. by rewrite B6, A6.
Qed.

Lemma wp_Remover s l1 m l2 :
  robust s (l1 ++ m :: l2) →
  wp (Remover_begin head m) (λ _ s', robust s' (l1 ++ l2) ∧
    same_rest (pending (mutex_to_next (robust_list_offset s) m) s) s') s.
Proof.
  intros [[q Hs] Hn Ha [Hh Hh'] Ho].
  destruct (seg_predecessor _ _ _ _ _ _ _ _ Hs) as (p & x & Hx & Hp & Hs1 & Hs2 & Hpl).
  apply NoDup_app in Hn as (Hn1 & Hd & [Hm2 Hn2]%NoDup_cons).
  unfold Remover_begin. apply wp_bind, wp_get, wp_bind.
  unfold put_pending, st_modify, wp at 1. cbn beta iota.
  fold (pending (mutex_to_next (robust_list_offset s) m) s).
  set (s1 := pending _ s).
  apply wp_bind, (wp_get_mutex _ x); [done|]. rewrite Hp. clear Hp.
  assert (Hfin : ∀ s' q', (∃ v', rh_next (robust_head s') = v' ∧
    seg (robust_list_offset s) (mutexes s') head v' (l1 ++ l2) q' head) →
    same_rest s1 s' → robust s' (l1 ++ l2) ∧ same_rest s1 s').
  { intros s' q' (v' & Hv' & Hsg) Hr. split; [|done].
    pose proof Hr as (_ & _ & _ & E & _). split; rewrite ?E; [|..|done].
    - exists q'. by rewrite Hv'.
    - apply NoDup_app. split_and!; [done|set_solver|done].
    - intros y Hy. apply Ha. set_solver.
    - split; [done|]. set_solver. }
  assert (Ha2 : ∀ y, y ∈ l2 → addr_ok y) by (intros; apply Ha; set_solver).
  destruct (last l1) as [a|] eqn:El.
  - apply last_Some in El as [l ->]. cbn in Hpl. subst p.
    pose proof Hs1 as [_ (xa & Hxa & Hna)]%seg_last.
    apply NoDup_app in Hn1 as (Hn1 & Hda & _).
    assert (a ≠ head) by set_solver.
    apply wp_bind. unfold store_next. rewrite (proj2 (Z.eqb_neq a head)) by done.
    apply (wp_upd_mutex _ _ xa); [done|].
    assert (Hal : a ∉ l) by set_solver. assert (Hal2 : a ∉ l2) by set_solver.
    set (s2 := set_mutexes _ s1).
    eapply (wp_fix_successor s2 m a l2 _ q); try done.
    { by apply seg_insert. }
    intros s' Hsg Hoth Hrh Hr. eapply Hfin.
    + eexists. split; [by rewrite Hrh|]. apply seg_app.
      exists a, (m_next x). split; [|exact Hsg].
      eapply (seg_links _ (<[a := with_next (m_next x) xa]> (mutexes s))).
      * intros y z Hy Hz. exists z. rewrite Hoth; [done|]. set_solver.
      * by eapply seg_set_last.
    + eapply same_rest_trans; [|exact Hr]. split_and!; try done.
      cbn. intros z. by apply (futex_insert _ _ xa).
  - apply last_None in El as ->. cbn in Hpl. subst p.
    apply wp_bind. unfold store_next. rewrite Z.eqb_refl.
    unfold st_modify, wp at 1. cbn beta iota. set (s2 := set_head _ s1).
    eapply (wp_fix_successor s2 m head l2 _ q); try done.
    intros s' Hsg Hoth Hrh Hr. eapply Hfin; [|by eapply same_rest_trans; [|exact Hr]].
    eexists. split; [by rewrite Hrh|]. exact Hsg.
Qed.
End Robust.
