(* ===== verification/MutexProofs.v ===== *)
(** * What the mutex functions guarantee to one task

    [KernelLaws] is what the code relies on from the kernel and the other
    tasks, as futex(2) and the robust-futex documents describe it.  Under
    these laws the mutexes whose word carries the task's TID are exactly the
    ones on its robust list, before and after every operation. *)

From S2P Require Import Prelude AosSync RobustList.

(** ** Words *)

Definition is_tid (t : Z) : Prop := 0 < t < 2 ^ 30.

Lemma tid_of_tid t : is_tid t → tid_of t = t.
Proof.
  intros. unfold tid_of, FUTEX_TID_MASK. change 0x3fffffff with (Z.ones 30).
  rewrite Z.land_ones by lia. apply Z.mod_small. unfold is_tid in *. lia.
Qed.

Lemma died_tid t : is_tid t → died t = false.
Proof.
  intros Ht. unfold died. apply negb_false_iff, Z.eqb_eq.
  unfold FUTEX_OWNER_DIED. change 0x40000000 with (2 ^ 30). apply Z.bits_inj'. intros n Hn.
  rewrite Z.land_spec, Z.pow2_bits_eqb, Z.bits_0 by lia.
  destruct (Z.eqb_spec 30 n) as [<-|]; [|by rewrite andb_false_r].
  rewrite Z.bits_above_log2; [done|unfold is_tid in *; lia|]. apply Z.log2_lt_pow2; unfold is_tid in *; lia.
Qed.

Definition clear_died : Z := Z.lxor FUTEX_OWNER_DIED (2 ^ 32 - 1).

Lemma tid_of_clear w : tid_of (Z.land w clear_died) = tid_of w.
Proof. unfold tid_of. by rewrite <-Z.land_assoc. Qed.

Lemma died_clear w : died (Z.land w clear_died) = false.
Proof. unfold died. rewrite <-Z.land_assoc. by rewrite Z.land_0_r. Qed.

Lemma tid_of_0 : tid_of 0 = 0.
Proof. done. Qed.

(** ** The laws *)

Class KernelLaws (K : Type) `{Kernel K} (tid : Z) := {
  (** How many more signals can interrupt the task's waits. *)
  signals_left : K → nat;
  law_tid : is_tid tid;
  (** Other tasks neither take a lock away from its owner nor make it one's. *)
  law_interfere m k w k' w' : interfere m k w = (k', w') →
    (signals_left k' ≤ signals_left k)%nat ∧
    (tid_of w = tid → tid_of w' = tid ∧ died w' = died w) ∧ (tid_of w ≠ tid → tid_of w' ≠ tid);
  (** FUTEX_LOCK_PI: 0 means the caller owns the lock; a second lock is a
      deadlock; a signal or a time-out leave the lock alone. *)
  law_lock m t k w r k' w' : sys_lock_pi m tid t k w = (r, k', w') →
    (signals_left k' ≤ signals_left k)%nat ∧
    (tid_of w = tid → r = - EDEADLK) ∧
    (tid_of w ≠ tid →
       (r = 0 ∧ tid_of w' = tid) ∨
       (r = - EINTR ∧ tid_of w' ≠ tid ∧ (signals_left k' < signals_left k)%nat) ∨
       (r = - ETIMEDOUT ∧ tid_of w' ≠ tid ∧ t = true));
  (** FUTEX_TRYLOCK_PI: taken, or somebody else was faster. *)
  law_trylock m k w r k' w' : sys_trylock_pi m tid k w = (r, k', w') →
    (signals_left k' ≤ signals_left k)%nat ∧
    (tid_of w ≠ tid → (r = 0 ∧ tid_of w' = tid) ∨ (r = - EAGAIN ∧ tid_of w' ≠ tid));
  (** FUTEX_UNLOCK_PI by the owner succeeds and passes the lock on. *)
  law_unlock m k w r k' w' : sys_unlock_pi m tid k w = (r, k', w') →
    (signals_left k' ≤ signals_left k)%nat ∧ (tid_of w = tid → r = 0 ∧ tid_of w' ≠ tid);
  (** FUTEX_WAIT on a condition: woken, the value had changed, or a signal. *)
  law_wait c v k w r k' w' : sys_wait c v false k w = (r, k', w') →
    (signals_left k' ≤ signals_left k)%nat ∧
    (r = 0 ∨ r = - EAGAIN ∨ (r = - EINTR ∧ (signals_left k' < signals_left k)%nat));
  (** FUTEX_WAIT_REQUEUE_PI: the same, and 0 means the mutex is locked again. *)
  law_wait_requeue c v m k w r k' w' : sys_wait_requeue_pi c v m k w = (r, k', w') →
    (signals_left k' ≤ signals_left k)%nat ∧
    (r = 0 ∨ r = - EAGAIN ∨ (r = - EINTR ∧ (signals_left k' < signals_left k)%nat));
  law_handover m k w u k' w' : requeue_handover m tid k w = (u, k', w') → tid_of w' = tid }.

Section Mutex.
Context {K : Type} `{KernelLaws K tid} (head : Z).
Notation sync := (sync (K := K)).
Implicit Types (s : sync) (l : list Z).

(** The task's view: the words that carry its TID are the mutexes on its
    robust list, and no operation is half done. *)
Record sync_inv s l : Prop := mkSyncInv {
  sy_robust : robust head s l;
  sy_tid : my_tid s = tid;
  sy_owned : ∀ m x, mutexes s !! m = Some x → tid_of (m_futex x) = tid ↔ m ∈ l;
  sy_dom : ∀ m, m ∈ l → is_Some (mutexes s !! m);
  sy_pending : rh_pending_next (robust_head s) = 0 }.

(** A mutex the task can use. *)
Definition usable s m : Prop := addr_ok m ∧ m ≠ head ∧ is_Some (mutexes s !! m).

(** [s'] is [s] with another word in [m] and another kernel state. *)
Definition at_word s m w k : sync :=
  match mutexes s !! m with
  | Some x => set_kern k (set_mutexes (<[m := with_futex w x]> (mutexes s)) s)
  | None => s
  end.

Lemma wp_on_futex {A} m x (f : K → Z → A * K * Z) Q s :
  mutexes s !! m = Some x →
  (∀ k w a k' w', interfere m (kern s) (m_futex x) = (k, w) → f k w = (a, k', w') →
     Q a (at_word s m w' k')) →
  wp (on_futex m f) Q s.
Proof.
  intros Hx HQ. unfold wp, on_futex, at_word in *. rewrite Hx in *.
  destruct (interfere m (kern s) (m_futex x)) as [k w] eqn:E1.
  destruct (f k w) as [[a k'] w'] eqn:E2. by eapply HQ.
Qed.

Lemma at_word_lookup s m w k x :
  mutexes s !! m = Some x → mutexes (at_word s m w k) !! m = Some (with_futex w x).
Proof. intros Hx. unfold at_word. rewrite Hx. apply lookup_insert_eq. Qed.

Lemma at_word_twice s m w k w2 k2 :
  at_word (at_word s m w k) m w2 k2 = at_word s m w2 k2.
Proof.
  unfold at_word at 1 3. destruct (mutexes s !! m) as [x|] eqn:Hx.
  - rewrite (at_word_lookup _ _ _ _ x) by done. unfold at_word. rewrite Hx.
    unfold set_kern, set_mutexes. cbn. by rewrite insert_insert_eq.
  - unfold at_word. by rewrite Hx, Hx.
Qed.

Lemma at_word_robust s l m w k : robust head s l → robust head (at_word s m w k) l.
Proof.
  intros R. unfold at_word. destruct (mutexes s !! m) as [x|] eqn:Hx; [|done].
  destruct R as [[q Hs] ? ? ? ?]. split; try done. exists q. cbn.
  eapply seg_links; [|exact Hs]. intros m' x' Hin Hx'.
  destruct (decide (m' = m)) as [->|].
  - exists (with_futex w x). rewrite lookup_insert_eq. simplify_eq. done.
  - exists x'. by rewrite lookup_insert_ne.
Qed.

(** The calls of this file that run on [at_word] states, from [s]. *)
Lemma kern_at_word s m w k x : mutexes s !! m = Some x → kern (at_word s m w k) = k.
Proof. intros Hx. unfold at_word. by rewrite Hx. Qed.

Lemma wp_finish s m x w0 k0 :
  mutexes s !! m = Some x → tid_of w0 = tid →
  wp (mutex_finish_lock m) (λ r s', r = (if died w0 then 1 else 0) ∧
    ∃ w k, s' = at_word s m w k ∧ tid_of w = tid ∧ died w = false) (at_word s m w0 k0).
Proof.
  intros Hx Hw0. unfold mutex_finish_lock. apply wp_bind.
  eapply wp_on_futex; [by apply at_word_lookup|]. cbn [m_futex with_futex].
  intros k w a k' w' Hi [= <- <- <-]. rewrite at_word_twice.
  apply law_interfere in Hi as (_ & Hi & _). destruct (Hi Hw0) as [Hw <-].
  destruct (died w) eqn:Ed.
  - apply wp_bind. eapply wp_on_futex; [by apply at_word_lookup|]. cbn [m_futex with_futex].
    intros k1 w1 a1 k1' w1' Hi1 [= <- <- <-]. rewrite at_word_twice. apply wp_ret.
    split; [done|]. eexists _, _. split; [done|].
    change (Z.lxor FUTEX_OWNER_DIED (2 ^ 32 - 1)) with clear_died.
    rewrite tid_of_clear, died_clear. split; [|done].
    apply law_interfere in Hi1 as (_ & Hi1 & _). by apply Hi1.
  - apply wp_ret. split; [done|]. eauto.
Qed.

Notation left := (signals_left (K := K) (tid := tid)).

(** The results of an attempt to lock, with the word it leaves. *)
Definition get_result (signals_fail timeout : bool) (r w : Z) : Prop :=
  ((r = 0 ∨ r = 1) ∧ tid_of w = tid ∧ died w = false) ∨
  (r = 2 ∧ signals_fail = true ∧ tid_of w ≠ tid) ∨
  (r = 3 ∧ timeout = true ∧ tid_of w ≠ tid).

Lemma wp_do_get fuel m x signals_fail timeout s w0 k0 :
  mutexes s !! m = Some x → tid_of w0 ≠ tid → (left k0 < fuel)%nat →
  wp (mutex_do_get fuel m signals_fail timeout tid)
    (λ r s', ∃ w k, s' = at_word s m w k ∧ get_result signals_fail timeout r w)
    (at_word s m w0 k0).
Proof.
  intros Hx. revert w0 k0. induction fuel as [|fuel IH]; intros w0 k0 Hw0 Hf; [lia|].
  cbn [mutex_do_get]. apply wp_bind. eapply wp_on_futex; [by apply at_word_lookup|].
  cbn [m_futex with_futex]. rewrite (kern_at_word _ _ _ _ x) by done.
  intros k w a k' w' Hi [= <- <- <-]. rewrite at_word_twice.
  apply law_interfere in Hi as (Hl & _ & Hi). specialize (Hi Hw0).
  destruct (Z.eqb_spec w 0) as [->|Hne].
  - apply wp_ret. exists tid, k. split; [done|]. left.
    split_and!; [by left|apply tid_of_tid, law_tid|apply died_tid, law_tid].
  - apply wp_bind. eapply wp_on_futex; [by apply at_word_lookup|].
    cbn [m_futex with_futex]. rewrite (kern_at_word _ _ _ _ x) by done.
    intros k1 w1 r k2 w2 Hi1 Hk. rewrite at_word_twice.
    apply law_interfere in Hi1 as (Hl1 & _ & Hi1). specialize (Hi1 Hi).
    apply law_lock in Hk as (Hl2 & _ & Hk). destruct (Hk Hi1) as [[-> Ht]|[(-> & Ht & Hlt)|(-> & Ht & ->)]].
    + cbn. eapply wp_mono; [by eapply (wp_finish s m x w2 k2)|]. cbn beta.
      intros r s' (-> & w3 & k3 & -> & Hw3 & Hd3). exists w3, k3. split; [done|]. left.
      split_and!; [|done..]. destruct (died w2); auto.
    + change (negb (- EINTR =? 0)) with true. change (- EINTR =? - ETIMEDOUT) with false.
      change (- EINTR =? - EINTR) with true. rewrite andb_false_r.
      destruct signals_fail.
      * apply wp_ret. exists w2, k2. split; [done|]. right. by left.
      * apply IH; [done|lia].
    + change (negb (- ETIMEDOUT =? 0)) with true. change (- ETIMEDOUT =? - ETIMEDOUT) with true.
      cbn [andb]. apply wp_ret. exists w2, k2. split; [done|]. right. by right.
Qed.

(** A second lock by the owner is fatal. *)
Lemma do_get_deadlock fuel m x signals_fail timeout s :
  mutexes s !! m = Some x → tid_of (m_futex x) = tid →
  mutex_do_get (S fuel) m signals_fail timeout tid s = Err Fatal.
Proof.
  intros Hx Ht. cbn [mutex_do_get]. unfold on_futex, mbind, st_bind. rewrite Hx.
  destruct (interfere m (kern s) (m_futex x)) as [k w] eqn:Hi.
  apply law_interfere in Hi as (_ & Hi & _). destruct (Hi Ht) as [Hw _].
  assert (Hw0 : w ≠ 0).
  { intros ->. rewrite tid_of_0 in Hw. pose proof (law_tid (K := K) (tid := tid)) as Hk.
    unfold is_tid in Hk. lia. }
  unfold compare_and_swap at 1. rewrite (proj2 (Z.eqb_neq w 0)) by done.
  cbn [mutexes set_kern set_mutexes kern]. rewrite lookup_insert_eq. cbn [m_futex with_futex].
  destruct (interfere m k w) as [k1 w1] eqn:Hi1.
  apply law_interfere in Hi1 as (_ & Hi1 & _). destruct (Hi1 Hw) as [Hw1 _].
  destruct (sys_lock_pi m tid timeout k1 w1) as [[r k2] w2] eqn:Hk.
  apply law_lock in Hk as (_ & Hk & _). rewrite (Hk Hw1).
  change (negb (- EDEADLK =? 0)) with true. change (- EDEADLK =? - ETIMEDOUT) with false.
  change (- EDEADLK =? - EINTR) with false. rewrite andb_false_r. done.
Qed.

(** ** Whole operations *)

Lemma tid_pos : 0 < tid < 2 ^ 30.
Proof. apply law_tid. Qed.

Lemma wp_get_tid s Q : my_tid s = tid → Q tid s → wp (get_tid head) Q s.
Proof.
  intros Ht HQ. pose proof tid_pos. unfold get_tid. apply wp_bind, wp_get, wp_bind.
  rewrite Ht, (proj2 (Z.eqb_neq tid 0)) by lia. apply wp_ret, wp_bind, wp_get, wp_ret.
  rewrite Ht, uwrap_small; [done|]. unfold in_unsigned. cbn in *. lia.
Qed.

Lemma futex_at_word s m w k x z :
  mutexes s !! m = Some x →
  m_futex <$> mutexes (at_word s m w k) !! z =
    if decide (z = m) then Some w else m_futex <$> mutexes s !! z.
Proof.
  intros Hx. unfold at_word. rewrite Hx. cbn. case_decide as E.
  - subst z. by rewrite lookup_insert_eq.
  - by rewrite lookup_insert_ne.
Qed.

(** The invariant from the robust list and the words. *)
Lemma sync_inv_intro s s' l l' m x w :
  sync_inv s l → mutexes s !! m = Some x → robust head s' l' → my_tid s' = my_tid s →
  rh_pending_next (robust_head s') = 0 →
  (∀ z, m_futex <$> mutexes s' !! z =
     if decide (z = m) then Some w else m_futex <$> mutexes s !! z) →
  (∀ z, z ≠ m → z ∈ l' ↔ z ∈ l) → (tid_of w = tid ↔ m ∈ l') →
  sync_inv s' l'.
Proof.
  intros [I1 I2 I3 I4 I5] Hx R Ht Hp Hw Hl Hm. split; [done|congruence| | |done].
  - intros z y Hy. specialize (Hw z). rewrite Hy in Hw. cbn in Hw. case_decide as E.
    + subst z. injection Hw as ->. done.
    + destruct (mutexes s !! z) as [y'|] eqn:Ey; [|done]. injection Hw as ->.
      rewrite Hl by done. by apply I3.
  - intros z Hz. specialize (Hw z). case_decide as E.
    + destruct (mutexes s' !! z); [by eexists|done].
    + destruct (I4 z) as [y Hy]; [by apply Hl|]. rewrite Hy in Hw.
      destruct (mutexes s' !! z); [by eexists|done].
Qed.

(** The changes an operation makes besides the invariant: other tasks'
    words and links aside, only [m]'s word, the links and the kernel. *)
Lemma at_word_tid s m w k : my_tid (at_word s m w k) = my_tid s.
Proof. unfold at_word. by destruct (mutexes s !! m). Qed.
Lemma at_word_offset s m w k : robust_list_offset (at_word s m w k) = robust_list_offset s.
Proof. unfold at_word. by destruct (mutexes s !! m). Qed.
Lemma at_word_head s m w k : robust_head (at_word s m w k) = robust_head s.
Proof. unfold at_word. by destruct (mutexes s !! m). Qed.
Lemma at_word_self s m x : mutexes s !! m = Some x → at_word s m (m_futex x) (kern s) = s.
Proof.
  intros Hx. unfold at_word. rewrite Hx. destruct s. cbn in *.
  unfold set_kern, set_mutexes. cbn. f_equal. apply insert_id. rewrite Hx. by destruct x.
Qed.

(** The word of [m] after an operation on it, everything else as before. *)
Lemma fmap_futex_lookup s m w : m_futex <$> mutexes s !! m = Some w →
  ∃ y, mutexes s !! m = Some y ∧ m_futex y = w.
Proof. destruct (mutexes s !! m) as [y|]; cbn; intros [= <-]; eauto. Qed.

(** [m] is on the list and its word is [w], [pending_next] still set. *)
Record acquired s l m w s' : Prop := mkAcquired {
  aq_robust : robust head s' (m :: l);
  aq_tid : my_tid s' = my_tid s;
  aq_words : ∀ z, m_futex <$> mutexes s' !! z =
    if decide (z = m) then Some w else m_futex <$> mutexes s !! z }.

Lemma wp_Add_acquired s l m x w k v :
  sync_inv s l → usable s m → m ∉ l → mutexes s !! m = Some x →
  wp (Add head m) (λ _ s', acquired s l m w s') (at_word (pending v s) m w k).
Proof.
  intros I (Ha & Hne & _) Hm Hx. eapply wp_mono.
  { eapply (wp_Add head _ l m (with_futex w x)); try done.
    - apply at_word_robust, robust_pending, I.
    - by apply at_word_lookup. }
  cbn beta. intros _ s' [R (E1 & E2 & E3 & E4 & E5 & E6)]. split; [done| |].
  - by rewrite E3, at_word_tid.
  - intros z. rewrite E6. by rewrite (futex_at_word _ _ _ _ x).
Qed.

Lemma acquired_inv s l m x w s' :
  sync_inv s l → mutexes s !! m = Some x → acquired s l m w s' → tid_of w = tid →
  sync_inv (pending 0 s') (m :: l).
Proof.
  intros I Hx [R E1 E2] Hw. eapply (sync_inv_intro s _ l (m :: l) m x w); try done.
  - by apply (robust_pending head 0).
  - set_solver.
  - split; [set_solver|done].
Qed.

(** [mutex_finish_lock] on an acquired mutex. *)
Lemma wp_finish_acquired s l m w s' :
  acquired s l m w s' → tid_of w = tid →
  wp (mutex_finish_lock m) (λ r s2, r = (if died w then 1 else 0) ∧
    ∃ w2, acquired s l m w2 s2 ∧ tid_of w2 = tid) s'.
Proof.
  intros [R E1 E2] Hw. destruct (fmap_futex_lookup s' m w) as (y & Hy & Hyw).
  { rewrite E2. by rewrite decide_True. }
  rewrite <-(at_word_self s' m y) by done. rewrite Hyw.
  eapply wp_mono; [by apply (wp_finish s' m y)|]. cbn beta.
  intros r s2 (-> & w2 & k2 & -> & Hw2 & _). split; [done|]. exists w2. split; [|done].
  split; [by apply at_word_robust|by rewrite at_word_tid|].
  intros z. rewrite (futex_at_word _ _ _ _ y) by done. case_decide; [done|].
  rewrite E2. by rewrite decide_False.
Qed.

Lemma wp_adder_end (A : Type) (r : A) s (Q : A → sync → Prop) :
  Q r (pending 0 s) → wp (_ ← Adder_end; mret r) Q s.
Proof. done. Qed.

Lemma wp_mutex_get fuel s l m signals_fail timeout :
  sync_inv s l → usable s m → m ∉ l → (left (kern s) < fuel)%nat →
  wp (mutex_get head fuel m signals_fail timeout)
    (λ r s', ((r = 0 ∨ r = 1) ∧ sync_inv s' (m :: l)) ∨
       (((r = 2 ∧ signals_fail = true) ∨ (r = 3 ∧ timeout = true)) ∧ sync_inv s' l)) s.
Proof.
  intros I U Hm Hf. pose proof U as (Ha & Hne & x & Hx).
  unfold mutex_get. apply wp_bind, wp_get_tid; [apply I|].
  apply wp_bind. unfold Adder_begin. apply wp_bind, wp_get.
  unfold put_pending, st_modify, wp at 1. cbn beta iota.
  fold (pending (mutex_to_next (robust_list_offset s) m) s). set (v := mutex_to_next _ m).
  assert (Ht : tid_of (m_futex x) ≠ tid).
  { intros E. by apply (sy_owned _ _ I m x Hx) in E. }
  apply wp_bind. rewrite <-(at_word_self (pending v s) m x) by done.
  eapply wp_mono; [by apply (wp_do_get fuel m x)|]. cbn beta.
  intros r s' (w & k & -> & [(Hr & Hw & _)|Hr]).
  - assert ((r =? 0) || (r =? 1) = true) as -> by (destruct Hr as [-> | ->]; done).
    apply wp_bind. eapply wp_mono; [by eapply (wp_Add_acquired s l m x)|]. cbn beta.
    intros _ s' Hq. apply wp_adder_end. left. split; [done|]. by eapply acquired_inv.
  - assert ((r =? 0) || (r =? 1) = false) as -> by (destruct Hr as [(-> & _)|(-> & _)]; done).
    apply wp_bind, wp_ret, wp_bind.
    unfold Adder_end, put_pending, st_modify, wp at 1. cbn beta iota. apply wp_ret. right.
    split; [naive_solver|].
    eapply (sync_inv_intro s _ l l m x w); try done.
    + apply (robust_pending head 0), at_word_robust, robust_pending, I.
    + cbn. by rewrite at_word_tid.
    + intros z. cbn. by rewrite (futex_at_word _ _ _ _ x).
    + split; [naive_solver|done].
Qed.

Lemma wp_mutex_unlock s l1 m l2 :
  sync_inv s (l1 ++ m :: l2) →
  wp (mutex_unlock head m)
    (λ _ s', sync_inv s' (l1 ++ l2) ∧ (left (kern s') ≤ left (kern s))%nat ∧
       words s' = words s ∧ ∀ z, is_Some (mutexes s' !! z) ↔ is_Some (mutexes s !! z)) s.
Proof.
  intros I. destruct (sy_dom _ _ I m ltac:(set_solver)) as [x Hx].
  assert (Ht : tid_of (m_futex x) = tid) by (apply (sy_owned _ _ I m x Hx); set_solver).
  unfold mutex_unlock. apply wp_bind, wp_get_tid; [apply I|].
  apply wp_bind. apply (wp_on_futex m x); [done|]. intros k w a k' w' Hi [= <- <- <-].
  apply law_interfere in Hi as (Hl & Hi & _). destruct (Hi Ht) as [Hw _].
  rewrite Hw, Z.eqb_refl. cbn [negb]. apply wp_bind.
  eapply wp_mono; [apply (wp_Remover head _ l1 m l2), at_word_robust, I|]. cbn beta.
  intros _ s2 [R (E1 & E2 & E3 & E4 & E5 & E6)].
  destruct (fmap_futex_lookup s2 m w) as (x2 & Hx2 & Hwx2).
  { rewrite E6. cbn. rewrite (futex_at_word _ _ _ _ x) by done. by rewrite decide_True. }
  cbn in E1, E2, E3. rewrite (kern_at_word _ _ _ _ x) in E2 by done.
  assert (Hnd : m ∉ l1 ++ l2).
  { pose proof (rb_nodup _ _ _ (sy_robust _ _ I)) as Hn.
    apply NoDup_app in Hn as (_ & Hd & [Hm2 _]%NoDup_cons). set_solver. }
  assert (Hfin : ∀ w' k', tid_of w' ≠ tid → (left k' ≤ left (kern s))%nat →
    wp Remover_end (λ _ s', sync_inv s' (l1 ++ l2) ∧ (left (kern s') ≤ left (kern s))%nat ∧
      words s' = words s ∧ ∀ z, is_Some (mutexes s' !! z) ↔ is_Some (mutexes s !! z))
      (at_word s2 m w' k')).
  { intros w' k' Hw' Hk'. unfold Remover_end, put_pending, st_modify, wp. cbn beta iota.
    assert (Hf : ∀ z, m_futex <$> mutexes (at_word s2 m w' k') !! z =
      if decide (z = m) then Some w' else m_futex <$> mutexes s !! z).
    { intros z. rewrite (futex_at_word _ _ _ _ x2) by done. case_decide; [done|].
      rewrite E6. cbn. rewrite (futex_at_word _ _ _ _ x) by done. by rewrite decide_False. }
    split_and!.
    - eapply (sync_inv_intro s _ (l1 ++ m :: l2) (l1 ++ l2) m x w'); try done.
      + by apply (robust_pending head 0), at_word_robust.
      + cbn. by rewrite at_word_tid, E3, at_word_tid.
      + set_solver.
    - cbn. by rewrite (kern_at_word _ _ _ _ x2).
    - cbn. unfold at_word. rewrite Hx2. cbn. rewrite E1. unfold at_word. by rewrite Hx.
    - intros z. cbn. specialize (Hf z). case_decide as Ez.
      + subst z. rewrite Hx. split; [by eexists|]. by destruct (mutexes (at_word s2 m w' k') !! m).
      + revert Hf. destruct (mutexes s !! z), (mutexes (at_word s2 m w' k') !! z); cbn;
          intros; split; intros [? ?]; naive_solver. }
  apply wp_bind. apply (wp_on_futex m x2); [done|]. rewrite E2, Hwx2.
  intros k1 w1 a1 k1' w1' Hi1 [= <- <- <-].
  apply law_interfere in Hi1 as (Hl1 & Hi1 & _). destruct (Hi1 Hw) as [Hw1 _].
  apply wp_bind. destruct (Z.eqb_spec w1 tid) as [->|Hne]; cbn [negb].
  - apply wp_ret, Hfin; [|lia]. rewrite tid_of_0. pose proof tid_pos. lia.
  - apply wp_bind. eapply wp_on_futex; [by apply at_word_lookup|].
    rewrite (kern_at_word _ _ _ _ x2) by done. cbn [m_futex with_futex].
    intros k2 w2 r k3 w3 Hi2 Hk. rewrite at_word_twice.
    apply law_interfere in Hi2 as (Hl2 & Hi2 & _). destruct (Hi2 Hw1) as [Hw2 _].
    apply law_unlock in Hk as (Hl3 & Hk). destruct (Hk Hw2) as [-> Hw3].
    cbn. apply wp_ret, Hfin; [done|lia].
Qed.

(** Unlocking what one does not hold is fatal. *)
Lemma mutex_unlock_not_owner s l m :
  sync_inv s l → is_Some (mutexes s !! m) → m ∉ l → mutex_unlock head m s = Err Fatal.
Proof.
  intros I [x Hx] Hm. assert (Ht : tid_of (m_futex x) ≠ tid).
  { intros E. by apply (sy_owned _ _ I m x Hx) in E. }
  unfold mutex_unlock.
  assert (Hg : get_tid head s = Ok (tid, s)).
  { destruct (proj1 (wp_run _ _ _) (wp_get_tid s (λ a b, a = tid ∧ b = s) (sy_tid _ _ I) (conj eq_refl eq_refl)))
      as (a & b & -> & -> & ->). done. }
  erewrite st_bind_step by exact Hg. unfold on_futex, mbind, st_bind. rewrite Hx.
  destruct (interfere m (kern s) (m_futex x)) as [k w] eqn:Hi.
  apply law_interfere in Hi as (_ & _ & Hi). cbn.
  by rewrite (proj2 (Z.eqb_neq _ _) (Hi Ht)).
Qed.

Lemma not_owned_word s l m x : sync_inv s l → mutexes s !! m = Some x → m ∉ l →
  tid_of (m_futex x) ≠ tid.
Proof. intros I Hx Hm E. by apply (sy_owned _ _ I m x Hx) in E. Qed.

(** An attempt that leaves [m] to somebody else. *)
Lemma not_acquired s l m x w k v :
  sync_inv s l → mutexes s !! m = Some x → m ∉ l → tid_of w ≠ tid →
  sync_inv (pending 0 (at_word (pending v s) m w k)) l.
Proof.
  intros I Hx Hm Hw. eapply (sync_inv_intro s _ l l m x w); try done.
  - apply (robust_pending head 0), at_word_robust, robust_pending, I.
  - cbn. by rewrite at_word_tid.
  - intros z. cbn. by rewrite (futex_at_word _ _ _ _ x).
Qed.

Lemma wp_mutex_trylock s l m :
  sync_inv s l → usable s m → m ∉ l →
  wp (mutex_trylock head m)
    (λ r s', ((r = 0 ∨ r = 1) ∧ sync_inv s' (m :: l)) ∨ (r = 4 ∧ sync_inv s' l)) s.
Proof.
  intros I U Hm. pose proof U as (Ha & Hne & x & Hx).
  pose proof (not_owned_word s l m x I Hx Hm) as Ht.
  unfold mutex_trylock. apply wp_bind, wp_get_tid; [apply I|].
  apply wp_bind. unfold Adder_begin. apply wp_bind, wp_get.
  unfold put_pending, st_modify, wp at 1. cbn beta iota.
  fold (pending (mutex_to_next (robust_list_offset s) m) s). set (v := mutex_to_next _ m).
  apply wp_bind. apply (wp_on_futex m x); [done|]. intros k w a k' w' Hi [= <- <- <-].
  apply law_interfere in Hi as (_ & _ & Hi). specialize (Hi Ht).
  destruct (Z.eqb_spec w 0) as [->|Hw0]; cbn [negb].
  - apply wp_bind. eapply wp_mono; [by eapply (wp_Add_acquired s l m x)|]. cbn beta.
    intros _ s' Hq. apply wp_adder_end. left. split; [by left|].
    eapply acquired_inv; try done. apply tid_of_tid, law_tid.
  - destruct (died w); cbn [negb].
    2:{ apply wp_adder_end. right. split; [done|]. by eapply not_acquired. }
    apply wp_bind. eapply wp_on_futex; [by apply at_word_lookup|]. cbn [m_futex with_futex].
    intros k1 w1 r k2 w2 Hi1 Hk. rewrite at_word_twice.
    apply law_interfere in Hi1 as (_ & _ & Hi1). specialize (Hi1 Hi).
    apply law_trylock in Hk as (_ & Hk). destruct (Hk Hi1) as [[-> Hw2]|[-> Hw2]].
    + cbn. apply wp_bind. eapply wp_mono; [by eapply (wp_Add_acquired s l m x)|]. cbn beta.
      intros _ s' Hq. apply wp_bind. eapply wp_mono; [by eapply wp_finish_acquired|]. cbn beta.
      intros r s2 (-> & w3 & Hq3 & Hw3). apply wp_adder_end. left.
      split; [destruct (died w2); auto|]. by eapply acquired_inv.
    + change (- EAGAIN =? 0) with false. change (- EAGAIN =? - EAGAIN) with true.
      apply wp_adder_end. right. split; [done|]. by eapply not_acquired.
Qed.

(** ** Conditions *)

Lemma wp_on_word {A} c w0 (f : K → Z → A * K * Z) Q s :
  words s !! c = Some w0 →
  (∀ k w a k' w', interfere c (kern s) w0 = (k, w) → f k w = (a, k', w') →
     Q a (set_kern k' (set_words (<[c := w']> (words s)) s))) →
  wp (on_word c f) Q s.
Proof.
  intros Hw HQ. unfold wp, on_word. rewrite Hw.
  destruct (interfere c (kern s) w0) as [k w] eqn:E1.
  destruct (f k w) as [[a k'] w'] eqn:E2. by eapply HQ.
Qed.

(** The parts of the state a condition works on do not matter to the rest. *)
Definition at_cond s ws k : sync := set_kern k (set_words ws s).

Lemma at_cond_inv s l ws k : sync_inv s l → sync_inv (at_cond s ws k) l.
Proof. intros [[] ? ? ? ?]. by split. Qed.

Lemma at_cond_usable s m ws k : usable s m → usable (at_cond s ws k) m.
Proof. done. Qed.

Lemma wp_condition_sleep (requeue : bool) fuel c m v s l ws k wait_start :
  sync_inv s l → usable s m → m ∉ l → is_Some (ws !! c) → (left k < fuel)%nat →
  wp (r ← condition_sleep head requeue fuel c m wait_start tid; _ ← Adder_end; mret r)
    (λ r s', (r = 0 ∨ r = 1) ∧ sync_inv s' (m :: l)) (at_cond (pending v s) ws k).
Proof.
  intros I U Hm. pose proof U as (Ha & Hne & x & Hx). revert ws k.
  induction fuel as [|fuel IH]; intros ws k [w0 Hw0] Hf; [lia|].
  assert (Hrelock : ∀ ws k, (left k < S fuel)%nat →
    wp (r ← (r ← mutex_do_get (S fuel) m false false tid; _ ← Add head m; mret r);
        _ ← Adder_end; mret r)
      (λ r s', (r = 0 ∨ r = 1) ∧ sync_inv s' (m :: l)) (at_cond (pending v s) ws k)).
  { intros ws1 k1 Hk1. set (s1 := at_cond s ws1 k1).
    assert (sync_inv s1 l) as I1 by by apply at_cond_inv.
    change (at_cond (pending v s) ws1 k1) with (pending v s1).
    apply wp_bind, wp_bind. rewrite <-(at_word_self (pending v s1) m x) by done.
    eapply wp_mono; [apply (wp_do_get (S fuel) m x); [done|by eapply not_owned_word|done]|].
    cbn beta. intros r s' (w & k2 & -> & [(Hr & Hw & _)|[(_ & ? & _)|(_ & ? & _)]]); [|done..].
    apply wp_bind. eapply wp_mono; [by eapply (wp_Add_acquired s1 l m x)|]. cbn beta.
    intros _ s2 Hq. apply wp_ret, wp_adder_end. split; [done|]. by eapply acquired_inv. }
  cbn [condition_sleep]. apply wp_bind.
  destruct requeue.
  - unfold wait_requeue_pi. apply wp_bind, wp_bind, (wp_on_word c w0); [done|].
    intros k1 w1 r k2 w2 Hi Hk. apply law_interfere in Hi as (Hl1 & _ & _).
    apply law_wait_requeue in Hk as (Hl2 & [-> |[-> |[-> Hl3]]]); cbn in Hl1.
    + cbn. apply wp_bind. apply (wp_on_futex m x); [done|]. intros k3 w3 u k4 w4 _ Hh.
      apply law_handover in Hh. apply wp_ret. cbn.
      set (ws' := <[c := w2]> ws). set (s1 := at_cond s ws' k2).
      change (wp ?p ?Q ?st) with (wp p Q (at_word (pending v s1) m w4 k4)).
      apply wp_bind. eapply wp_mono; [by eapply (wp_Add_acquired s1 l m x); [apply at_cond_inv|..]|].
      cbn beta. intros _ s2 Hq. eapply wp_mono; [by eapply wp_finish_acquired|]. cbn beta.
      intros r s3 (-> & w5 & Hq5 & Hw5). apply wp_adder_end.
      split; [destruct (died w4); auto|]. eapply acquired_inv; [| |done|done]; [by apply at_cond_inv|done].
    + change (- EAGAIN =? 0) with false. cbn [negb]. apply wp_bind, wp_ret, wp_ret.
      change (- EAGAIN =? - EAGAIN) with true. apply wp_unbind, (Hrelock (<[c := w2]> ws) k2). lia.
    + change (- EINTR =? 0) with false. cbn [negb]. apply wp_bind, wp_ret, wp_ret.
      change (- EINTR =? - EAGAIN) with false. change (- EINTR =? - EINTR) with true.
      apply wp_unbind, (IH (<[c := w2]> ws) k2); [|lia]. by rewrite lookup_insert_eq.
  - apply wp_bind, (wp_on_word c w0); [done|].
    intros k1 w1 r k2 w2 Hi Hk. apply law_interfere in Hi as (Hl1 & _ & _).
    apply law_wait in Hk as (Hl2 & [-> |[-> |[-> Hl3]]]); cbn in Hl1.
    + apply wp_unbind, (Hrelock (<[c := w2]> ws) k2). lia.
    + apply wp_unbind, (Hrelock (<[c := w2]> ws) k2). lia.
    + apply wp_unbind, (IH (<[c := w2]> ws) k2); [|lia]. by rewrite lookup_insert_eq.
Qed.

Lemma wp_condition_wait (requeue : bool) fuel c s l1 m l2 :
  sync_inv s (l1 ++ m :: l2) → usable s m → is_Some (words s !! c) →
  (left (kern s) < fuel)%nat →
  wp (condition_wait head requeue fuel c m)
    (λ r s', (r = 0 ∨ r = 1) ∧ sync_inv s' (m :: l1 ++ l2)) s.
Proof.
  intros I U [w0 Hw0] Hf. unfold condition_wait.
  apply wp_bind, wp_get_tid; [apply I|]. apply wp_bind, (wp_on_word c w0); [done|].
  intros k w a k' w' Hi [= <- <- <-]. apply law_interfere in Hi as (Hl & _ & _).
  set (s1 := set_kern k _). assert (sync_inv s1 (l1 ++ m :: l2)) as I1 by by apply at_cond_inv.
  apply wp_bind. eapply wp_mono; [by apply (wp_mutex_unlock s1 l1 m l2)|]. cbn beta.
  intros _ s2 (I2 & Hl2 & Hws & Hdom). cbn in Hl2, Hws.
  assert (Hnd : m ∉ l1 ++ l2).
  { pose proof (rb_nodup _ _ _ (sy_robust _ _ I)) as Hn.
    apply NoDup_app in Hn as (_ & Hd & [Hm2 _]%NoDup_cons). set_solver. }
  apply wp_bind. unfold Adder_begin. apply wp_bind, wp_get.
  unfold put_pending, st_modify, wp at 1. cbn beta iota.
  fold (pending (mutex_to_next (robust_list_offset s2) m) s2). set (v := mutex_to_next _ m).
  replace (pending v s2) with (at_cond (pending v s2) (words s2) (kern s2)) by by destruct s2.
  apply (wp_condition_sleep requeue fuel c m v s2 (l1 ++ l2) (words s2) (kern s2)).
  - done.
  - destruct U as (? & ? & Hx). split_and!; [done..|]. by apply Hdom.
  - done.
  - rewrite Hws. by rewrite lookup_insert_eq.
  - lia.
Qed.
End Mutex.
