(* ===== verification/MutexProtocol.v ===== *)
(** * Many tasks on one mutex

    The atomic accesses of [mutex_do_get], [mutex_finish_lock] and
    [mutex_unlock] as steps of any number of tasks on one futex word, in any
    interleaving, with signals and with tasks that die.  The kernel's part
    (PI-futex and robust-futex handling) is a class of relations with the
    properties the kernel documents for it. *)

From S2P Require Import Prelude AosSync MutexProofs.

Definition waiters (w : Z) : bool := negb (Z.land w FUTEX_WAITERS =? 0).

(** Where a task is: outside; after a failed compare-and-swap, about to call
    FUTEX_LOCK_PI; asleep in it; back from it with the lock; inside; after a
    failed release, about to call FUTEX_UNLOCK_PI; dead. *)
Inductive pc : Set := Outside | Locking | Sleeping | Granted | Inside | Releasing | Dead.

Record world := mkWorld { word : Z; pcs : gmap Z pc }.

(** The kernel's transitions of the word: a task finds the lock without an
    owner, goes to sleep, an owner hands over or finds nobody, an owner dies
    (handing over or not). *)
Class PiKernel := {
  k_take : Z → Z → Z → Prop;
  k_sleep : Z → Z → Z → Prop;
  k_hand : Z → Z → Z → Prop;
  k_release : Z → Z → Prop;
  k_die : Z → Z → Prop;
  k_die_hand : Z → Z → Z → Prop;
  k_take_law t w w' : k_take t w w' →
    tid_of w = 0 ∧ tid_of w' = t ∧ (waiters w = true → waiters w' = true);
  k_sleep_law t w w' : k_sleep t w w' →
    tid_of w ≠ 0 ∧ tid_of w' = tid_of w ∧ waiters w' = true;
  k_hand_law u w w' : k_hand u w w' → tid_of w' = u ∧ waiters w' = true;
  k_release_law w w' : k_release w w' → tid_of w' = 0;
  k_die_law w w' : k_die w w' →
    tid_of w' = 0 ∧ died w' = true ∧ (waiters w = true → waiters w' = true);
  k_die_hand_law u w w' : k_die_hand u w w' →
    tid_of w' = u ∧ died w' = true ∧ waiters w' = true }.

Section Protocol.
Context `{PiKernel}.
Implicit Types (W : world) (t u w : Z).

Definition at_pc W t p : Prop := pcs W !! t = Some p.
Definition go W t p w : world := mkWorld w (<[t := p]> (pcs W)).
Definition sleepers W : Prop := ∃ u, at_pc W u Sleeping.

Inductive step : world → world → Prop :=
(** [compare_and_swap(&m->futex, 0, tid)] of [mutex_do_get] *)
| st_cas W t b w' : at_pc W t Outside → compare_and_swap 0 t tt (word W) = (b, tt, w') →
    step W (go W t (if b then Inside else Locking) w')
(** FUTEX_LOCK_PI: the lock has no owner, or one goes to sleep *)
| st_take W t w' : at_pc W t Locking → k_take t (word W) w' → step W (go W t Granted w')
| st_sleep W t w' : at_pc W t Locking → tid_of (word W) ≠ t → k_sleep t (word W) w' →
    step W (go W t Sleeping w')
(** a signal: EINTR makes the loop start again *)
| st_signal W t : at_pc W t Sleeping → step W (go W t Outside (word W))
(** the kernel wakes a sleeper, which tries again in the kernel *)
| st_wake W t : at_pc W t Sleeping → step W (go W t Locking (word W))
(** [mutex_finish_lock] *)
| st_finish W t w' : at_pc W t Granted →
    w' = (if died (word W) then Z.land (word W) clear_died else word W) →
    step W (go W t Inside w')
(** [compare_and_swap(&m->futex, tid, 0)] of [mutex_unlock] *)
| st_unlock W t b w' : at_pc W t Inside → compare_and_swap t 0 tt (word W) = (b, tt, w') →
    step W (go W t (if b then Outside else Releasing) w')
(** FUTEX_UNLOCK_PI *)
| st_release W t w' : at_pc W t Releasing → ¬ sleepers W → k_release (word W) w' →
    step W (go W t Outside w')
| st_hand W t u w' : at_pc W t Releasing → at_pc W u Sleeping → k_hand u (word W) w' →
    step W (go (go W t Outside w') u Granted w')
(** an owner dies and the kernel walks its robust list *)
| st_die W t p w' : at_pc W t p → p = Granted ∨ p = Inside ∨ p = Releasing →
    k_die (word W) w' → step W (go W t Dead w')
| st_die_hand W t p u w' : at_pc W t p → p = Granted ∨ p = Inside ∨ p = Releasing →
    at_pc W u Sleeping → k_die_hand u (word W) w' →
    step W (go (go W t Dead w') u Granted w').

Definition owns (p : pc) : bool :=
  match p with Granted | Inside | Releasing => true | _ => false end.

Record world_inv W : Prop := mkWorldInv {
  wi_tid : ∀ t p, pcs W !! t = Some p → is_tid t;
  wi_owner : ∀ t p, pcs W !! t = Some p → owns p = true ↔ tid_of (word W) = t;
  wi_waiters : sleepers W → waiters (word W) = true }.

(** One task moves from [p0] to [p] and the word becomes [w]. *)
Lemma world_inv_go W t p0 p w :
  world_inv W → pcs W !! t = Some p0 →
  (owns p = true ↔ tid_of w = t) →
  (∀ u q, u ≠ t → pcs W !! u = Some q → owns q = true ↔ tid_of w = u) →
  ((∃ u, u ≠ t ∧ at_pc W u Sleeping) ∨ p = Sleeping → waiters w = true) →
  world_inv (go W t p w).
Proof.
  intros [I1 I2 I3] Hp Ht Hu Hs. split; cbn.
  - intros u q. rewrite lookup_insert_Some. intros [[<- _]|[_ ?]]; eauto.
  - intros u q. rewrite lookup_insert_Some. intros [[<- <-]|[? ?]]; [done|]. by apply Hu.
  - intros [u Hsl]. unfold at_pc in Hsl. cbn in Hsl.
    apply lookup_insert_Some in Hsl as [[<- ->]|[? ?]]; apply Hs; [by right|left]. by exists u.
Qed.

(** While the word names no owner nobody owns; while it names one, that is
    the only one. *)
Lemma owner_others W t w p :
  world_inv W → pcs W !! t = Some p → tid_of (word W) = t ∨ tid_of (word W) = 0 →
  tid_of w = t ∨ tid_of w = 0 →
  ∀ u q, u ≠ t → pcs W !! u = Some q → owns q = true ↔ tid_of w = u.
Proof.
  intros [I1 I2 I3] Hp Hw Hw' u q Hne Hq. rewrite (I2 u q Hq).
  pose proof (I1 u q Hq) as Hu. unfold is_tid in Hu. split; intros E; exfalso; lia.
Qed.

Lemma waiters_tid t : is_tid t → waiters t = false.
Proof.
  intros Ht. unfold waiters. apply negb_false_iff, Z.eqb_eq.
  unfold FUTEX_WAITERS. change 0x80000000 with (2 ^ 31). apply Z.bits_inj'. intros n Hn.
  rewrite Z.land_spec, Z.pow2_bits_eqb, Z.bits_0 by lia.
  destruct (Z.eqb_spec 31 n) as [<-|]; [|by rewrite andb_false_r].
  rewrite Z.bits_above_log2; [done|unfold is_tid in *; lia|].
  assert (Z.log2 t < 30) by (apply Z.log2_lt_pow2; unfold is_tid in *; lia). lia.
Qed.

Lemma waiters_clear w : waiters (Z.land w clear_died) = waiters w.
Proof. unfold waiters. by rewrite <-Z.land_assoc. Qed.

(** The lock goes from [t] directly to the sleeper [u]. *)
Lemma world_inv_hand W t u p w p0 :
  world_inv W → pcs W !! t = Some p0 → owns p0 = true → at_pc W u Sleeping →
  owns p = false → p ≠ Sleeping → tid_of w = u → waiters w = true →
  world_inv (go (go W t p w) u Granted w).
Proof.
  intros I Ht Hown Hu Hp Hps Hw Hws. pose proof I as [I1 I2 I3].
  assert (t ≠ u) by (intros ->; unfold at_pc in Hu; congruence || (rewrite Hu in Ht; by injection Ht as <-)).
  pose proof (proj1 (I2 t p0 Ht) Hown) as Hto.
  split; cbn; [| |done].
  - intros v q. rewrite !lookup_insert_Some. intros [[<- _]|[_ [[<- _]|[_ ?]]]]; eauto.
  - intros v q. rewrite !lookup_insert_Some. intros [[<- <-]|[Hv [[<- <-]|[Hv' Hq]]]].
    + done.
    + rewrite Hp. split; [done|congruence].
    + rewrite (I2 v q Hq). split; intros; congruence.
Qed.

Lemma no_sleepers W : world_inv W → waiters (word W) = false → ∀ u, ¬ at_pc W u Sleeping.
Proof. intros I Hw u Hu. assert (sleepers W) as Hs by by exists u. apply (wi_waiters W I) in Hs. congruence. Qed.

Lemma world_inv_step W W' : world_inv W → step W W' → world_inv W'.
Proof.
  intros I Hst. pose proof I as [I1 I2 I3].
  destruct Hst as [W t b w' Ht Hc|W t w' Ht Hk|W t w' Ht Hne Hk|W t Ht|W t Ht|W t w' Ht ->
    |W t b w' Ht Hc|W t w' Ht Hns Hk|W t u w' Ht Hu Hk|W t p w' Ht Hp Hk|W t p u w' Ht Hp Hu Hk];
    pose proof (I1 t _ Ht) as Htid; pose proof Htid as [Hpos _];
    pose proof (I2 t _ Ht) as Hown.
  - injection Hc as <- <-. destruct (Z.eqb_spec (word W) 0) as [E|E].
    + pose proof (no_sleepers W I ltac:(by rewrite E)) as Hns.
      eapply world_inv_go; [done|exact Ht|cbn; rewrite tid_of_tid by done; done| |naive_solver].
      eapply owner_others; [done|exact Ht|right; by rewrite E|left; by apply tid_of_tid].
    + eapply world_inv_go; [done|exact Ht|exact Hown|intros; by apply I2|].
      intros [[u [_ Hu]]|?]; [|done]. apply I3. by exists u.
  - apply k_take_law in Hk as (E1 & E2 & E3).
    eapply world_inv_go; [done|exact Ht|done| |].
    + eapply owner_others; [done|exact Ht|by right|by left].
    + intros [[u [_ Hu]]|?]; [|done]. apply E3, I3. by exists u.
  - apply k_sleep_law in Hk as (E1 & E2 & E3).
    eapply world_inv_go; [done|exact Ht|rewrite E2; exact Hown|rewrite E2; intros; by apply I2|done].
  - eapply world_inv_go; [done|exact Ht|exact Hown|intros; by apply I2|].
    intros _. apply I3. by exists t.
  - eapply world_inv_go; [done|exact Ht|exact Hown|intros; by apply I2|].
    intros _. apply I3. by exists t.
  - assert (Heq : tid_of (if died (word W) then Z.land (word W) clear_died else word W)
      = tid_of (word W)) by (destruct (died (word W)); [apply tid_of_clear|done]).
    eapply world_inv_go; [done|exact Ht|rewrite Heq; exact Hown|rewrite Heq; intros; by apply I2|].
    intros [[u [_ Hu]]|?]; [|done].
    assert (waiters (word W) = true) by (apply I3; by exists u).
    destruct (died (word W)); [by rewrite waiters_clear|done].
  - injection Hc as <- <-. destruct (Z.eqb_spec (word W) t) as [E|E].
    + pose proof (no_sleepers W I ltac:(rewrite E; by apply waiters_tid)) as Hns.
      eapply world_inv_go; [done|exact Ht|cbn; rewrite tid_of_0; split; [done|lia]| |naive_solver].
      eapply owner_others; [done|exact Ht|left; by apply Hown|by right].
    + eapply world_inv_go; [done|exact Ht|exact Hown|intros; by apply I2|].
      intros [[u [_ Hu]]|?]; [|done]. apply I3. by exists u.
  - apply k_release_law in Hk.
    eapply world_inv_go; [done|exact Ht|cbn; split; [done|lia]| |].
    + eapply owner_others; [done|exact Ht|left; by apply Hown|by right].
    + intros [[u [_ Hu]]|?]; [|done]. destruct Hns. by exists u.
  - apply k_hand_law in Hk as [E1 E2]. by eapply world_inv_hand.
  - apply k_die_law in Hk as (E1 & E2 & E3).
    assert (owns p = true) as Hop by naive_solver.
    eapply world_inv_go; [done|exact Ht|cbn; split; [done|lia]| |].
    + eapply owner_others; [done|exact Ht|left; by apply Hown|by right].
    + intros [[u [_ Hu]]|?]; [|done]. apply E3, I3. by exists u.
  - apply k_die_hand_law in Hk as (E1 & E2 & E3).
    assert (owns p = true) as Hop by naive_solver. by eapply world_inv_hand.
Qed.

(** Everybody outside and the word 0. *)
Definition start (tasks : list Z) : world := mkWorld 0 (list_to_map ((λ t, (t, Outside)) <$> tasks)).

Lemma start_inv tasks : Forall is_tid tasks → world_inv (start tasks).
Proof.
  intros Ht. assert (Hl : ∀ t p, pcs (start tasks) !! t = Some p → p = Outside ∧ is_tid t).
  { intros t p Hp%elem_of_list_to_map_2. apply list_elem_of_fmap in Hp as (u & [= -> ->] & Hu).
    split; [done|]. by eapply Forall_forall in Ht. }
  split.
  - intros t p Hp. by apply Hl in Hp as [_ ?].
  - intros t p [-> [? _]]%Hl. cbn. rewrite tid_of_0. split; [done|lia].
  - intros [u [? _]%Hl]. done.
Qed.
End Protocol.
