(* ===== verification/SyncTheorems.v ===== *)
(** * What the synchronisation primitives guarantee

    The theorems about aos_sync.cc, with a concrete kernel as the witness of
    the laws they rest on. *)

From S2P Require Import Prelude AosSync RobustList MutexProofs MutexProtocol.

(** ** A kernel that keeps the laws

    Its state is the number of signals still to be delivered; it interrupts
    every wait until they are used up, then grants what is asked. *)
Module SampleKernel.
Definition granted (tid w : Z) : Z := Z.lor tid (Z.land w FUTEX_OWNER_DIED).

Definition interruptible (k : nat) (w w' : Z) : Z * nat * Z :=
  match k with S k => (- EINTR, k, w) | O => (0, O, w') end.

#[global] Instance kernel : Kernel nat := {
  interfere _ k w := (k, w);
  sys_lock_pi _ tid _ k w :=
    if tid_of w =? tid then (- EDEADLK, k, w) else interruptible k w (granted tid w);
  sys_trylock_pi _ tid k w := (0, k, granted tid w);
  sys_unlock_pi _ _ k _ := (0, k, 0);
  sys_wait _ v _ k w := if w =? v then interruptible k w w else (- EAGAIN, k, w);
  sys_wake _ _ k w := (0, k, w);
  sys_wait_requeue_pi _ v _ k w := if w =? v then interruptible k w w else (- EAGAIN, k, w);
  requeue_handover _ tid k w := (tt, k, granted tid w);
  sys_cmp_requeue_pi _ _ _ _ k w := (0, k, w);
  sys_gettid _ := 77;
  sys_set_robust_list _ k := (0, k) }.

Lemma tid_of_granted tid w : is_tid tid → tid_of (granted tid w) = tid.
Proof.
  intros Ht. unfold granted, tid_of. rewrite Z.land_lor_distr_l.
  rewrite <-Z.land_assoc. change (Z.land FUTEX_OWNER_DIED FUTEX_TID_MASK) with 0.
  rewrite Z.land_0_r, Z.lor_0_r. by apply tid_of_tid.
Qed.

Lemma interruptible_law k w w' r k' w'' :
  interruptible k w w' = (r, k', w'') →
  (k' ≤ k)%nat ∧ ((r = 0 ∧ w'' = w') ∨ (r = - EINTR ∧ w'' = w ∧ (k' < k)%nat)).
Proof. destruct k; cbn; intros [= <- <- <-]; (split; [lia|]); [by left|right]. split_and!; [done..|lia]. Qed.

#[global] Instance laws tid : is_tid tid → KernelLaws nat tid.
Proof.
  intros Ht. refine {| signals_left k := k; law_tid := Ht |}.
  - cbn. intros m k w k' w' [= <- <-]. auto.
  - cbn. intros m t k w r k' w'. destruct (Z.eqb_spec (tid_of w) tid) as [E|E].
    + intros [= <- <- <-]. split_and!; auto; done.
    + intros Hi%interruptible_law. destruct Hi as [? Hi]. split_and!; [done..|]. intros _.
      destruct Hi as [[-> ->]|(-> & -> & ?)]; [left|right; left; done].
      split; [done|]. by apply tid_of_granted.
  - cbn. intros m k w r k' w' [= <- <- <-]. split; [done|]. intros _. left.
    split; [done|]. by apply tid_of_granted.
  - cbn. intros m k w r k' w' [= <- <- <-]. split; [done|]. intros _. split; [done|].
    rewrite tid_of_0. unfold is_tid in Ht. lia.
  - cbn. intros c v k w r k' w'. destruct (w =? v).
    + intros Hi%interruptible_law. destruct Hi as [? Hi]. split; [done|]. naive_solver.
    + intros [= <- <- <-]. auto.
  - cbn. intros c v m k w r k' w'. destruct (w =? v).
    + intros Hi%interruptible_law. destruct Hi as [? Hi]. split; [done|]. naive_solver.
    + intros [= <- <- <-]. auto.
  - cbn. intros m k w u k' w' [= <- <- <-]. by apply tid_of_granted.
Defined.

Lemma is_tid_77 : is_tid 77.
Proof. unfold is_tid. lia. Qed.
#[global] Instance laws77 : KernelLaws nat 77 := laws 77 is_tid_77.

(** Task 77 holds the mutex at 2000; the one at 3000 was left by a task
    that died; two signals are on their way. *)
Definition head : Z := 64.
Definition s : sync (K := nat) :=
  mkSync {[2000 := mkMutex 64 64 77; 3000 := mkMutex 0 0 FUTEX_OWNER_DIED]} {[500 := 9]} 2%nat 77
    (mkRobust 2001 futex_offset 0) 0.

Lemma kernel_inv : sync_inv (tid := 77) head s [2000].
Proof.
  split.
  - split.
    + exists 2000. cbn. split; [done|]. exists (mkMutex 64 64 77). done.
    + apply NoDup_singleton.
    + intros m ->%list_elem_of_singleton. unfold addr_ok. split; [lia|done].
    + split; [done|]. unfold head. set_solver.
    + done.
  - done.
  - intros m x. cbn. rewrite lookup_insert_Some, lookup_singleton_Some.
    intros [[<- <-]|[? [<- <-]]]; rewrite list_elem_of_singleton; done.
  - intros m ->%list_elem_of_singleton. by eexists.
  - done.
Qed.

Lemma usable3000 : usable head s 3000.
Proof. split_and!; [split; [lia|done]|done|by eexists]. Qed.
Lemma usable2000 : usable head s 2000.
Proof. split_and!; [split; [lia|done]|done|by eexists]. Qed.
End SampleKernel.

(** ** One task *)

Section Claims.
Context {K : Type} `{KernelLaws K tid} (head : Z).

(** C10: locking a mutex one does not hold (with any number of signals
    below the fuel) returns 0 or 1 and then the word carries the caller's
    TID and the mutex is at the head of its robust list; or, only where the
    caller allowed it, 2 (signal) or 3 (time-out), and nothing has changed.
    In all cases the mutexes marked with the caller's TID are exactly the
    ones on its robust list and no operation is left pending. *)
Theorem mutex_get_correct fuel s l m signals_fail timeout :
  sync_inv (tid := tid) head s l → usable head s m → m ∉ l →
  (signals_left (kern s) < fuel)%nat →
  ∃ r s', mutex_get head fuel m signals_fail timeout s = Ok (r, s') ∧
    (((r = 0 ∨ r = 1) ∧ sync_inv (tid := tid) head s' (m :: l)) ∨
     (((r = 2 ∧ signals_fail = true) ∨ (r = 3 ∧ timeout = true)) ∧
      sync_inv (tid := tid) head s' l)).
Proof. intros I U Hm Hf. apply wp_run. by apply wp_mutex_get. Qed.

(** C11: [mutex_unlock] of a mutex the task holds takes it off the robust
    list, wherever in the list it is, and gives the word up, both with and
    without waiters. *)
Theorem mutex_unlock_correct s l1 m l2 :
  sync_inv (tid := tid) head s (l1 ++ m :: l2) →
  ∃ s', mutex_unlock head m s = Ok (tt, s') ∧ sync_inv (tid := tid) head s' (l1 ++ l2).
Proof.
  intros I. destruct (proj1 (wp_run _ _ _) (wp_mutex_unlock head s l1 m l2 I))
    as ([] & s' & Hr & I' & _). eauto.
Qed.

(** Misuse stops the program: locking a mutex the task already holds
    (the kernel reports the deadlock) and unlocking one it does not hold. *)
Theorem mutex_misuse_is_fatal fuel s l m signals_fail timeout :
  sync_inv (tid := tid) head s l → is_Some (mutexes s !! m) →
  if decide (m ∈ l) then mutex_do_get (S fuel) m signals_fail timeout tid s = Err Fatal
  else mutex_unlock head m s = Err Fatal.
Proof.
  intros I Hm. case_decide as Hin; [|by eapply mutex_unlock_not_owner].
  destruct Hm as [x Hx]. apply (do_get_deadlock _ _ x); [done|].
  by apply (sy_owned _ _ _ I m x Hx).
Qed.

(** [mutex_trylock] never blocks: it takes the mutex (0, or 1 when its
    owner had died) or returns 4 and leaves everything as it was. *)
Theorem mutex_trylock_correct s l m :
  sync_inv (tid := tid) head s l → usable head s m → m ∉ l →
  ∃ r s', mutex_trylock head m s = Ok (r, s') ∧
    (((r = 0 ∨ r = 1) ∧ sync_inv (tid := tid) head s' (m :: l)) ∨
     (r = 4 ∧ sync_inv (tid := tid) head s' l)).
Proof. intros I U Hm. apply wp_run. by apply wp_mutex_trylock. Qed.

(** C14: [condition_wait], in both builds (with and without REQUEUE_PI),
    releases the mutex, survives signals and lost races, and returns with
    the mutex held again and on the robust list. *)
Theorem condition_wait_relocks requeue fuel c s l1 m l2 :
  sync_inv (tid := tid) head s (l1 ++ m :: l2) → usable head s m → is_Some (words s !! c) →
  (signals_left (kern s) < fuel)%nat →
  ∃ r s', condition_wait head requeue fuel c m s = Ok (r, s') ∧
    (r = 0 ∨ r = 1) ∧ sync_inv (tid := tid) head s' (m :: l1 ++ l2).
Proof. intros I U Hc Hf. apply wp_run. by apply wp_condition_wait. Qed.
End Claims.

Lemma mutex_get_correct_witness :
  ∃ r s', mutex_get SampleKernel.head 3 3000 false false SampleKernel.s = Ok (r, s') ∧
    (((r = 0 ∨ r = 1) ∧ sync_inv (tid := 77) SampleKernel.head s' [3000; 2000]) ∨
     (((r = 2 ∧ false = true) ∨ (r = 3 ∧ false = true)) ∧
      sync_inv (tid := 77) SampleKernel.head s' [2000])).
Proof.
  apply (mutex_get_correct SampleKernel.head 3 SampleKernel.s [2000] 3000 false false
    SampleKernel.kernel_inv SampleKernel.usable3000).
  - set_solver.
  - cbn. lia.
Defined.

Lemma mutex_unlock_correct_witness :
  ∃ s', mutex_unlock SampleKernel.head 2000 SampleKernel.s = Ok (tt, s') ∧
    sync_inv (tid := 77) SampleKernel.head s' [].
Proof. exact (mutex_unlock_correct SampleKernel.head SampleKernel.s [] 2000 [] SampleKernel.kernel_inv). Defined.

Lemma mutex_misuse_is_fatal_witness :
  mutex_do_get 1 2000 false false 77 SampleKernel.s = Err Fatal.
Proof.
  exact (mutex_misuse_is_fatal SampleKernel.head 0 SampleKernel.s [2000] 2000 false false
    SampleKernel.kernel_inv (ex_intro _ _ eq_refl)).
Defined.

Lemma mutex_trylock_correct_witness :
  ∃ r s', mutex_trylock SampleKernel.head 3000 SampleKernel.s = Ok (r, s') ∧
    (((r = 0 ∨ r = 1) ∧ sync_inv (tid := 77) SampleKernel.head s' [3000; 2000]) ∨
     (r = 4 ∧ sync_inv (tid := 77) SampleKernel.head s' [2000])).
Proof.
  apply (mutex_trylock_correct SampleKernel.head SampleKernel.s [2000] 3000
    SampleKernel.kernel_inv SampleKernel.usable3000). set_solver.
Defined.

Lemma condition_wait_relocks_witness :
  ∃ r s', condition_wait SampleKernel.head true 3 500 2000 SampleKernel.s = Ok (r, s') ∧
    (r = 0 ∨ r = 1) ∧ sync_inv (tid := 77) SampleKernel.head s' [2000].
Proof.
  apply (condition_wait_relocks SampleKernel.head true 3 500 SampleKernel.s [] 2000 []
    SampleKernel.kernel_inv SampleKernel.usable2000).
  - by eexists.
  - cbn. lia.
Defined.

(** ** All tasks *)

(** The transitions Linux makes. *)
Module SamplePi.
Definition flags (w : Z) : Z := Z.land w (Z.lor FUTEX_OWNER_DIED FUTEX_WAITERS).

Lemma tid_of_lor a b : tid_of (Z.lor a b) = Z.lor (tid_of a) (tid_of b).
Proof. unfold tid_of. apply Z.land_lor_distr_l. Qed.
Lemma tid_of_flags w : tid_of (flags w) = 0.
Proof. unfold tid_of, flags. rewrite <-Z.land_assoc. apply Z.land_0_r. Qed.
Lemma waiters_lor a b : waiters (Z.lor a b) = waiters a || waiters b.
Proof.
  unfold waiters. rewrite Z.land_lor_distr_l.
  destruct (Z.eqb_spec (Z.land a FUTEX_WAITERS) 0) as [->|Ha];
    destruct (Z.eqb_spec (Z.land b FUTEX_WAITERS) 0) as [->|Hb]; cbn; try done;
    apply negb_true_iff, Z.eqb_neq; rewrite Z.lor_eq_0_iff; tauto.
Qed.
Lemma waiters_flags w : waiters (flags w) = waiters w.
Proof. unfold waiters, flags. by rewrite <-Z.land_assoc. Qed.
Lemma died_lor_flag a : died (Z.lor a FUTEX_OWNER_DIED) = true.
Proof.
  unfold died. rewrite Z.land_lor_distr_l. apply negb_true_iff, Z.eqb_neq.
  rewrite Z.lor_eq_0_iff. intros [_ E]. done.
Qed.

#[global] Instance pi : PiKernel.
Proof.
  refine {|
    k_take := λ t w w', is_tid t ∧ tid_of w = 0 ∧ w' = Z.lor t (flags w);
    k_sleep := λ t w w', tid_of w ≠ 0 ∧ w' = Z.lor w FUTEX_WAITERS;
    k_hand := λ u w w', is_tid u ∧ w' = Z.lor u FUTEX_WAITERS;
    k_release := λ w w', w' = 0;
    k_die := λ w w', w' = Z.lor (Z.land w FUTEX_WAITERS) FUTEX_OWNER_DIED;
    k_die_hand := λ u w w', is_tid u ∧ w' = Z.lor (Z.lor u FUTEX_WAITERS) FUTEX_OWNER_DIED |}; cbn beta.
  - intros t w w' (Ht & H0 & ->). rewrite tid_of_lor, tid_of_flags, Z.lor_0_r, (tid_of_tid t) by done.
    split_and!; [done..|]. rewrite waiters_lor, waiters_flags. intros ->. apply orb_true_r.
  - intros t w w' (H0 & ->). rewrite tid_of_lor, waiters_lor.
    change (tid_of FUTEX_WAITERS) with 0. rewrite Z.lor_0_r. split_and!; [done..|apply orb_true_r].
  - intros u w w' (Hu & ->). rewrite tid_of_lor, waiters_lor.
    change (tid_of FUTEX_WAITERS) with 0. rewrite Z.lor_0_r, (tid_of_tid u) by done.
    split; [done|apply orb_true_r].
  - intros w w' ->. done.
  - intros w w' ->. rewrite tid_of_lor, waiters_lor, died_lor_flag. split_and!; [|done|].
    + unfold tid_of. rewrite <-Z.land_assoc. apply Z.lor_eq_0_iff. split; [apply Z.land_0_r|done].
    + intros Hw. apply orb_true_iff. left. unfold waiters in *. by rewrite <-Z.land_assoc, Z.land_diag.
  - intros u w w' (Hu & ->). rewrite !tid_of_lor, !waiters_lor, died_lor_flag.
    change (tid_of FUTEX_WAITERS) with 0. change (tid_of FUTEX_OWNER_DIED) with 0.
    rewrite !Z.lor_0_r, (tid_of_tid u) by done. split_and!; [done..|].
    change (waiters FUTEX_WAITERS) with true. by rewrite orb_true_r.
Defined.
End SamplePi.


