(* ===== verification/ByteOrder.v ===== *)
(** * Byte order: aos/common/byteorder.h

    Values are copied to and from memory with [memcpy] and swapped between
    host (little-endian) and network order.  Memory is a list of bytes. *)

From S2P Require Import Prelude.

Abbreviation bytes := (list Z).

Definition is_byte (b : Z) : Prop := 0 ≤ b < 256.

(** [memcpy] of an [n]-byte integer into memory and out of it. *)
Fixpoint le_split (n : nat) (v : Z) : bytes :=
  match n with O => [] | S n => v mod 256 :: le_split n (v / 256) end.

Fixpoint le_combine (l : bytes) : Z :=
  match l with [] => 0 | b :: l => b + 256 * le_combine l end.

(** [be64toh] and the rest, on a little-endian host. *)
Definition byteswap (n : nat) (v : Z) : Z := le_combine (rev (le_split n v)).
Definition htobe (n : nat) (v : Z) : Z := byteswap n v.
Definition betoh (n : nat) (v : Z) : Z := byteswap n v.

Definition copier (n : nat) (function : Z → Z) (inp : bytes) : bytes :=
  le_split n (function (le_combine (take n inp))).

Definition do_ntoh_copy (n : nat) (inp : bytes) : bytes :=
  match n with 1%nat => take 1 inp | _ => copier n (betoh n) inp end.
Definition do_hton_copy (n : nat) (host : bytes) : bytes :=
  match n with 1%nat => take 1 host | _ => copier n (htobe n) host end.

(** [ntoh]/[hton] on a value of [n] bytes, [to_host]/[to_network] on memory. *)
Definition ntoh (n : nat) (net : Z) : Z := le_combine (do_ntoh_copy n (le_split n net)).
Definition hton (n : nat) (host : Z) : Z := le_combine (do_hton_copy n (le_split n host)).
Definition to_host (n : nat) (inp : bytes) : Z := le_combine (do_ntoh_copy n inp).
Definition to_network (n : nat) (host : Z) : bytes := do_hton_copy n (le_split n host).
Definition to_network_bytes (n : nat) (host : bytes) : bytes := do_hton_copy n host.
Definition to_host_bytes (n : nat) (inp : bytes) : bytes := do_ntoh_copy n inp.

(** ** Their meaning *)

Lemma le_split_length n v : length (le_split n v) = n.
Proof. revert v. induction n; intros v; cbn; auto. Qed.

Lemma le_split_bytes n v : Forall is_byte (le_split n v).
Proof.
  revert v. induction n; intros v; cbn; constructor; auto.
  apply Z.mod_pos_bound. lia.
Qed.

Lemma le_combine_split n v : le_combine (le_split n v) = v mod 256 ^ Z.of_nat n.
Proof.
  revert v. induction n as [|n IH]; intros v; cbn [le_split le_combine].
  - cbn. by rewrite Z.mod_1_r.
  - rewrite IH, Nat2Z.inj_succ, Z.pow_succ_r by lia.
    rewrite Z.rem_mul_r by lia. done.
Qed.

Lemma le_split_combine l : Forall is_byte l → le_split (length l) (le_combine l) = l.
Proof.
  induction 1 as [|b l Hb Hl IH]; cbn; [done|]. unfold is_byte in Hb.
  rewrite (Z.mul_comm 256), Z.mod_add, Z.div_add by lia.
  rewrite Z.mod_small, Z.div_small, Z.add_0_l by lia. by rewrite IH.
Qed.

Lemma le_combine_bound l : Forall is_byte l → 0 ≤ le_combine l < 256 ^ Z.of_nat (length l).
Proof.
  induction 1 as [|b l Hb Hl IH]; cbn [le_combine length]; [done|].
  rewrite Nat2Z.inj_succ, Z.pow_succ_r by lia. unfold is_byte in Hb. lia.
Qed.

Lemma copier_swap n l :
  Forall is_byte l → length l = n → copier n (byteswap n) l = rev l.
Proof.
  intros Hl Hn. unfold copier, byteswap. rewrite take_ge by lia. subst n.
  rewrite le_split_combine by done.
  rewrite <-(length_rev l) at 1. apply le_split_combine. by apply Forall_rev.
Qed.

Lemma do_hton_copy_rev n l : Forall is_byte l → length l = n → do_hton_copy n l = rev l.
Proof.
  intros Hl Hn. destruct n as [|[|n]]; cbn [do_hton_copy]; [by apply copier_swap| |by apply copier_swap].
  destruct l as [|b [|? ?]]; done.
Qed.

Lemma do_ntoh_copy_rev n l : Forall is_byte l → length l = n → do_ntoh_copy n l = rev l.
Proof. apply do_hton_copy_rev. Qed.

(** Network order is most significant byte first. *)
Lemma to_network_eq n v : to_network n v = rev (le_split n v).
Proof. apply do_hton_copy_rev; [apply le_split_bytes|apply le_split_length]. Qed.

Lemma to_network_length n v : length (to_network n v) = n.
Proof. by rewrite to_network_eq, length_rev, le_split_length. Qed.

Lemma to_network_bytes_ok n v : Forall is_byte (to_network n v).
Proof. rewrite to_network_eq. apply Forall_rev, le_split_bytes. Qed.

Lemma take_copy n inp rest : length inp = n → do_ntoh_copy n (inp ++ rest) = do_ntoh_copy n inp.
Proof.
  intros Hn. destruct n as [|[|n]]; cbn [do_ntoh_copy]; unfold copier;
    rewrite take_app_le by lia; try done.
Qed.

(** Reading what was written, whatever follows it in memory. *)
Lemma to_host_to_network n v rest :
  in_unsigned (8 * Z.of_nat n) v → to_host n (to_network n v ++ rest) = v.
Proof.
  intros Hv. unfold to_host. rewrite take_copy by apply to_network_length.
  rewrite do_ntoh_copy_rev by (apply to_network_bytes_ok || apply to_network_length).
  rewrite to_network_eq, rev_involutive, le_combine_split.
  apply Z.mod_small. unfold in_unsigned in Hv.
  replace (256 ^ Z.of_nat n) with (2 ^ (8 * Z.of_nat n)); [done|]. by rewrite Z.pow_mul_r by lia.
Qed.

Lemma to_host_range n inp :
  (n ≤ length inp)%nat → Forall is_byte inp → in_unsigned (8 * Z.of_nat n) (to_host n inp).
Proof.
  intros Hn Hb. unfold to_host. rewrite <-(take_drop n inp).
  rewrite take_copy by (rewrite length_take; lia).
  rewrite do_ntoh_copy_rev by (rewrite ?length_take; (lia || by apply Forall_take)).
  pose proof (le_combine_bound (rev (take n inp)) ltac:(by apply Forall_rev, Forall_take)) as H.
  rewrite length_rev, length_take, Nat.min_l in H by lia.
  unfold in_unsigned. by rewrite Z.pow_mul_r by lia.
Qed.
