(* ===== verification/QueueTypes.v ===== *)
(** * Message types: aos/common/queue_types.cc and queue_types.h

    A [MessageType] describes the layout of a queue's messages.  Processes
    exchange the descriptions through shared memory in serialized form, so
    that any of them can print any message.  Memory is a list of bytes; a
    read or write outside of a buffer is undefined. *)

From S2P Require Import Prelude ByteOrder.

Record Field := mkField { f_type : Z; f_length : Z; f_name : bytes }.

Record MessageType := mkType {
  super_size : Z;
  id : Z;
  name : bytes;
  number_fields : Z;
  fields : list Field }.

#[global] Instance Field_eq_dec : EqDecision Field.
Proof. solve_decision. Defined.
#[global] Instance MessageType_eq_dec : EqDecision MessageType.
Proof. solve_decision. Defined.

(** The public constructor; [number_fields] is a uint16_t. *)
Definition MessageType_new (super_size id : Z) (name : bytes) (fs : list Field) : MessageType :=
  mkType (u16 super_size) id name (u16 (Z.of_nat (length fs))) fs.

Definition IsPrimitive (type_id : Z) : bool := negb (Z.land type_id 0x2000 =? 0).

Definition Sizeof (type_id : Z) : Z :=
  if IsPrimitive type_id then u32 (Z.land type_id 0xFFFF - 0x2000)
  else Z.land type_id 0xFFFF.

(** ** Writing into a buffer *)

Definition put (pos : Z) (bs : bytes) (buffer : bytes) : res bytes :=
  if (pos <? 0) || (Z.of_nat (length buffer) <? pos + Z.of_nat (length bs)) then Err Undefined
  else Ok (take (Z.to_nat pos) buffer ++ bs ++ drop (Z.to_nat pos + length bs) buffer).

(** The fields a loop up to [number_fields] looks at. *)
Definition loop_fields (t : MessageType) : res (list Field) :=
  if Z.of_nat (length (fields t)) <? number_fields t then Err Undefined
  else Ok (take (Z.to_nat (number_fields t)) (fields t)).

Definition field_size (acc : Z) (f : Field) : Z :=
  u16 (u16 (u16 (u16 (acc + 4) + 4) + 2) + Z.of_nat (length (f_name f))).

Definition write_field (st : res (bytes * Z)) (f : Field) : res (bytes * Z) :=
  '(buffer, pos) ← st;
  buffer ← put pos (to_network 4 (f_type f)) buffer;
  let pos := pos + 4 in
  buffer ← put pos (to_network 4 (f_length f)) buffer;
  let pos := pos + 4 in
  let length_ := u16 (Z.of_nat (length (f_name f))) in
  buffer ← put pos (to_network 2 length_) buffer;
  let pos := pos + 2 in
  buffer ← put pos (take (Z.to_nat length_) (f_name f)) buffer;
  let pos := pos + length_ in
  Ok (buffer, pos).

(** The result is [ssize_t]: the bytes written or -1. *)
Definition Serialize (t : MessageType) (buffer : bytes) (max_bytes : Z) : res (Z * bytes) :=
  fs ← loop_fields t;
  let fields_size := fold_left field_size fs 0 in
  let name_size := Z.of_nat (length (name t)) in
  if max_bytes <? 4 + 2 + 2 + 2 + name_size + fields_size then Ok (-1, buffer)
  else
    buffer ← put 0 (to_network 2 (super_size t)) buffer;
    buffer ← put 2 (to_network 4 (id t)) buffer;
    let length_ := u16 name_size in
    buffer ← put 6 (to_network 2 length_) buffer;
    buffer ← put 8 (to_network 2 (number_fields t)) buffer;
    buffer ← put 10 (take (Z.to_nat length_) (name t)) buffer;
    let pos := 10 + name_size in
    '(buffer, pos) ← fold_left write_field fs (Ok (buffer, pos));
    Ok (pos, buffer).

(** ** Reading *)

(** [n] bytes at [pos] *)
Definition get (pos : Z) (n : nat) (buffer : bytes) : res bytes :=
  if (pos <? 0) || (Z.of_nat (length buffer) <? pos + Z.of_nat n) then Err Undefined
  else Ok (take n (drop (Z.to_nat pos) buffer)).

Definition get_int (pos : Z) (n : nat) (buffer : bytes) : res Z :=
  b ← get pos n buffer; Ok (to_host n b).

(** The loop over the fields: [None] is [return nullptr]. *)
Fixpoint read_fields (n : nat) (buffer : bytes) (pos nbytes : Z) (deserialize_length : bool)
    : res (option (list Field) * Z) :=
  match n with
  | O => Ok (Some [], nbytes)
  | S n =>
      if nbytes <? 4 + 2 + (if deserialize_length then 4 else 0) then Ok (None, nbytes)
      else
        let nbytes := u64 (nbytes - (4 + 2)) in
        ty ← get_int pos 4 buffer;
        let pos := pos + 4 in
        here ← (if deserialize_length then
                  l ← get_int pos 4 buffer; Ok (l, pos + 4, u64 (nbytes - 4))
                else Ok (0, pos, nbytes));
        let '(len, pos, nbytes) := (here : Z * Z * Z) in
        name_length ← get_int pos 2 buffer;
        let pos := pos + 2 in
        if nbytes <? name_length then Ok (None, nbytes)
        else
          let nbytes := u64 (nbytes - name_length) in
          nm ← get pos (Z.to_nat name_length) buffer;
          rest ← read_fields n buffer (pos + name_length) nbytes deserialize_length;
          let '(fs, nbytes) := (rest : option (list Field) * Z) in
          Ok (match fs with Some fs => Some (mkField ty len nm :: fs) | None => None end, nbytes)
  end.

Definition Deserialize (buffer : bytes) (nbytes : Z) (deserialize_length : bool)
    : res (option MessageType * Z) :=
  if nbytes <? 2 + 4 + 2 + 2 then Ok (None, nbytes)
  else
    let nbytes := u64 (nbytes - (2 + 4 + 2 + 2)) in
    super_size ← get_int 0 2 buffer;
    id ← get_int 2 4 buffer;
    name_length ← get_int 6 2 buffer;
    number_fields ← get_int 8 2 buffer;
    if nbytes <? name_length then Ok (None, nbytes)
    else
      let nbytes := u64 (nbytes - name_length) in
      nm ← get 10 (Z.to_nat name_length) buffer;
      rest ← read_fields (Z.to_nat number_fields) buffer (10 + name_length) nbytes deserialize_length;
      let '(fs, nbytes) := (rest : option (list Field) * Z) in
      Ok (match fs with
          | Some fs => Some (mkType super_size id nm number_fields fs)
          | None => None
          end, nbytes).

(** ** Printing

    A printer gets the room left in the output and the input bytes, and
    returns what it wrote (with the final NUL, where the source puts one),
    the room left and the input bytes left; [None] is [return false].  The
    caller drops a callee's NUL by moving its pointer back one byte.
    [PrintField] is generated code. *)

Definition printed : Type := option (bytes * Z * Z).

Definition comma : Z := 44.
Definition space : Z := 32.
Definition colon : Z := 58.
Definition lbracket : Z := 91.
Definition rbracket : Z := 93.
Definition lbrace : Z := 123.
Definition rbrace : Z := 125.

Section Print.
Variable PrintField : Z → bytes → Z → Z → res printed.
(** [type_cache::Get] *)
Variable Get : Z → res MessageType.

(** The input pointer after [before - after] bytes were consumed. *)
Definition advance (input : bytes) (before after : Z) : bytes :=
  drop (Z.to_nat (before - after)) input.

(** A separator, unless this is the first element. *)
Definition separate (first : bool) (out_bytes : Z) : option (bytes * Z) :=
  if first then Some ([], out_bytes)
  else if out_bytes <? 2 then None else Some ([comma; space], out_bytes - 2).

(** The trailing NUL of a callee is overwritten. *)
Definition ignore_nul (p : printed) : printed :=
  match p with
  | Some (text, out_bytes, in_bytes) => Some (take (length text - 1) text, out_bytes + 1, in_bytes)
  | None => None
  end.

(** One element of an array, or a field that is not one. *)
Definition print_element (print_message : Z → bytes → Z → MessageType → res printed)
    (out_bytes : Z) (input : bytes) (in_bytes type_id : Z) : res printed :=
  if IsPrimitive type_id then PrintField out_bytes input in_bytes type_id
  else
    t ← Get type_id;
    p ← print_message out_bytes input in_bytes t;
    Ok (ignore_nul p).

Section Array.
Variable print_message : Z → bytes → Z → MessageType → res printed.

Fixpoint array_loop (n : nat) (first : bool) (out_bytes : Z) (input : bytes)
    (in_bytes type_id : Z) : res printed :=
  match n with
  | O => Ok (Some ([], out_bytes, in_bytes))
  | S n =>
      match separate first out_bytes with
      | None => Ok None
      | Some (sep, out_bytes) =>
          e ← print_element print_message out_bytes input in_bytes type_id;
          match (e : printed) with
          | None => Ok None
          | Some (text, out_bytes', in_bytes') =>
              r ← array_loop n false out_bytes' (advance input in_bytes in_bytes')
                    in_bytes' type_id;
              match (r : printed) with
              | None => Ok None
              | Some (rest, o, i) => Ok (Some (sep ++ text ++ rest, o, i))
              end
          end
      end
  end.

Definition PrintArray (out_bytes : Z) (input : bytes) (in_bytes type_id len : Z) : res printed :=
  if out_bytes <? 1 then Ok None
  else
    r ← array_loop (Z.to_nat len) true (out_bytes - 1) input in_bytes type_id;
    match (r : printed) with
    | None => Ok None
    | Some (text, out_bytes, in_bytes) =>
        if out_bytes <? 2 then Ok None
        else Ok (Some ([lbracket] ++ text ++ [rbracket; 0], out_bytes - 2, in_bytes))
    end.

Fixpoint fields_loop (fs : list Field) (first : bool) (out_bytes : Z) (input : bytes)
    (in_bytes : Z) : res printed :=
  match fs with
  | [] => Ok (Some ([], out_bytes, in_bytes))
  | f :: fs =>
      match separate first out_bytes with
      | None => Ok None
      | Some (sep, out_bytes) =>
          let name_size := Z.of_nat (length (f_name f)) in
          if out_bytes <? name_size + 1 then Ok None
          else
            let out_bytes := out_bytes - (name_size + 1) in
            let type_id := f_type f in
            e ← (if 0 <? f_length f then
                   p ← PrintArray out_bytes input in_bytes type_id (f_length f);
                   Ok (ignore_nul p)
                 else print_element print_message out_bytes input in_bytes type_id);
            match (e : printed) with
            | None => Ok None
            | Some (text, out_bytes', in_bytes') =>
                r ← fields_loop fs false out_bytes' (advance input in_bytes in_bytes') in_bytes';
                match (r : printed) with
                | None => Ok None
                | Some (rest, o, i) =>
                    Ok (Some (sep ++ f_name f ++ [colon] ++ text ++ rest, o, i))
                end
            end
      end
  end.
End Array.

(** [fuel] bounds the nesting of message types. *)
Fixpoint PrintMessage (fuel : nat) (out_bytes : Z) (input : bytes) (in_bytes : Z)
    (t : MessageType) : res printed :=
  match fuel with
  | O => Err Fuel
  | S fuel =>
      let in_bytes := u64 (in_bytes - super_size t) in
      let input := drop (Z.to_nat (super_size t)) input in
      let name_size := Z.of_nat (length (name t)) in
      if out_bytes <? name_size + 1 then Ok None
      else
        fs ← loop_fields t;
        r ← fields_loop (PrintMessage fuel) fs true (out_bytes - (name_size + 1)) input in_bytes;
        match (r : printed) with
        | None => Ok None
        | Some (text, out_bytes, in_bytes) =>
            if out_bytes <? 2 then Ok None
            else Ok (Some (name t ++ [lbrace] ++ text ++ [rbrace; 0], out_bytes - 2, in_bytes))
        end
  end.

(** *** Matrices (stored column after column, printed row by row) *)

Fixpoint cols_loop (n : nat) (col : Z) (first : bool) (row rows : Z) (element_size : Z)
    (out_bytes : Z) (input : bytes) (type_id : Z) : res (option (bytes * Z)) :=
  match n with
  | O => Ok (Some ([], out_bytes))
  | S n =>
      match separate first out_bytes with
      | None => Ok None
      | Some (sep, out_bytes) =>
          p ← PrintField out_bytes (drop (Z.to_nat ((row + col * rows) * element_size)) input)
                element_size type_id;
          match (p : printed) with
          | None => Ok None
          | Some (text, out_bytes', input_bytes) =>
              if negb (input_bytes =? 0) then Err Fatal
              else
                r ← cols_loop n (col + 1) false row rows element_size out_bytes' input type_id;
                match (r : option (bytes * Z)) with
                | None => Ok None
                | Some (rest, o) => Ok (Some (sep ++ text ++ rest, o))
                end
          end
      end
  end.

Fixpoint rows_loop (n : nat) (row : Z) (first : bool) (rows cols : Z) (element_size : Z)
    (out_bytes : Z) (input : bytes) (type_id : Z) : res (option (bytes * Z)) :=
  match n with
  | O => Ok (Some ([], out_bytes))
  | S n =>
      match separate first out_bytes with
      | None => Ok None
      | Some (sep, out_bytes) =>
          if out_bytes <? 1 then Ok None
          else
            c ← cols_loop (Z.to_nat cols) 0 true row rows element_size (out_bytes - 1) input type_id;
            match (c : option (bytes * Z)) with
            | None => Ok None
            | Some (text, out_bytes) =>
                if out_bytes <? 1 then Ok None
                else
                  r ← rows_loop n (row + 1) false rows cols element_size (out_bytes - 1) input type_id;
                  match (r : option (bytes * Z)) with
                  | None => Ok None
                  | Some (rest, o) =>
                      Ok (Some (sep ++ [lbracket] ++ text ++ [rbracket] ++ rest, o))
                  end
            end
      end
  end.

Definition PrintMatrix (out_bytes : Z) (input : bytes) (type_id rows cols : Z)
    : res (option (bytes * Z)) :=
  if negb (IsPrimitive type_id) then Err Fatal
  else
    let element_size := Sizeof type_id in
    if out_bytes <? 1 then Ok None
    else
      r ← rows_loop (Z.to_nat rows) 0 true rows cols element_size (out_bytes - 1) input type_id;
      match (r : option (bytes * Z)) with
      | None => Ok None
      | Some (text, out_bytes) =>
          if out_bytes <? 2 then Ok None
          else Ok (Some ([lbracket] ++ text ++ [rbracket; 0], out_bytes - 2))
      end.
End Print.

(** [for (i = 0; i < rows * cols; ++i)] with a swap of each element. *)
Fixpoint matrix_loop (n : nat) (i element_size : Z) (output input : bytes) : res bytes :=
  match n with
  | O => Ok output
  | S n =>
      if bool_decide (element_size ∈ [1; 2; 4; 8]) then
        e ← get (i * element_size) (Z.to_nat element_size) input;
        output ← put (i * element_size) (to_network_bytes (Z.to_nat element_size) e) output;
        matrix_loop n (i + 1) element_size output input
      else Err Fatal
  end.

Definition SerializeMatrix (type_id : Z) (output input : bytes) (rows cols : Z) : res bytes :=
  if negb (IsPrimitive type_id) then Err Fatal
  else
    n ← i32 (rows * cols);
    matrix_loop (Z.to_nat n) 0 (Sizeof type_id) output input.
