(* ===== verification/QueueTypesProofs.v ===== *)
(** * Serialized message types: round trip and memory safety *)

From S2P Require Import Prelude ByteOrder QueueTypes.

(** ** The wire format *)

Definition encode_field (f : Field) : bytes :=
  to_network 4 (f_type f) ++ to_network 4 (f_length f)
  ++ to_network 2 (Z.of_nat (length (f_name f))) ++ f_name f.

Definition encode_fields (fs : list Field) : bytes := concat (encode_field <$> fs).

Definition encode_type (t : MessageType) : bytes :=
  to_network 2 (super_size t) ++ to_network 4 (id t)
  ++ to_network 2 (Z.of_nat (length (name t))) ++ to_network 2 (number_fields t)
  ++ name t ++ encode_fields (fields t).

(** Values that fit their C++ types. *)
Record wf_field (f : Field) : Prop := mkWfField {
  wff_type : in_unsigned 32 (f_type f);
  wff_length : in_unsigned 32 (f_length f);
  wff_name : in_unsigned 16 (Z.of_nat (length (f_name f))) }.

Record wf_type (t : MessageType) : Prop := mkWfType {
  wft_super : in_unsigned 16 (super_size t);
  wft_id : in_unsigned 32 (id t);
  wft_name : in_unsigned 16 (Z.of_nat (length (name t)));
  wft_number : number_fields t = Z.of_nat (length (fields t));
  wft_fields : Forall wf_field (fields t);
  wft_size : in_unsigned 16 (Z.of_nat (length (encode_fields (fields t)))) }.

Lemma encode_field_length f : length (encode_field f) = (10 + length (f_name f))%nat.
Proof. unfold encode_field. rewrite !length_app, !to_network_length. lia. Qed.

Lemma encode_fields_cons f fs : encode_fields (f :: fs) = encode_field f ++ encode_fields fs.
Proof. done. Qed.

Lemma encode_type_length t :
  length (encode_type t) = (10 + length (name t) + length (encode_fields (fields t)))%nat.
Proof. unfold encode_type. rewrite !length_app, !to_network_length. lia. Qed.

Lemma fields_below fs : (10 * length fs ≤ length (encode_fields fs))%nat.
Proof.
  induction fs as [|f fs IH]; [done|]. rewrite encode_fields_cons, length_app, encode_field_length.
  cbn [length]. lia.
Qed.

Lemma number_fits t : wf_type t → in_unsigned 16 (number_fields t).
Proof.
  intros [_ _ _ -> _ Hs]. pose proof (fields_below (fields t)). unfold in_unsigned in *. lia.
Qed.

(** ** Buffers *)

Lemma put_at pos bs pre old :
  pos = Z.of_nat (length pre) → (length bs ≤ length old)%nat →
  put pos bs (pre ++ old) = Ok ((pre ++ bs) ++ drop (length bs) old).
Proof.
  intros -> Hl. unfold put. rewrite length_app.
  destruct (Z.ltb_spec (Z.of_nat (length pre)) 0); [lia|].
  destruct (Z.ltb_spec (Z.of_nat (length pre + length old))
    (Z.of_nat (length pre) + Z.of_nat (length bs))); [lia|].
  cbn. rewrite Nat2Z.id, take_app_length, drop_app_ge by lia.
  rewrite <-app_assoc. do 4 f_equal. lia.
Qed.

Lemma get_at pos n pre x rest :
  pos = Z.of_nat (length pre) → length x = n → get pos n (pre ++ x ++ rest) = Ok x.
Proof.
  intros -> <-. unfold get. rewrite !length_app.
  destruct (Z.ltb_spec (Z.of_nat (length pre)) 0); [lia|].
  destruct (Z.ltb_spec (Z.of_nat (length pre + (length x + length rest)))
    (Z.of_nat (length pre) + Z.of_nat (length x))); [lia|].
  cbn. by rewrite Nat2Z.id, drop_app_length, take_app_length.
Qed.

Lemma get_int_at pos n v pre rest :
  pos = Z.of_nat (length pre) → in_unsigned (8 * Z.of_nat n) v →
  get_int pos n (pre ++ to_network n v ++ rest) = Ok v.
Proof.
  intros Hp Hv. unfold get_int. rewrite get_at by (done || apply to_network_length).
  rewrite res_bind_Ok. f_equal. rewrite <-(app_nil_r (to_network n v)). by apply to_host_to_network.
Qed.

(** ** Serialize *)

Lemma field_size_exact acc f :
  wf_field f → 0 ≤ acc → in_unsigned 16 (acc + Z.of_nat (length (encode_field f))) →
  field_size acc f = acc + Z.of_nat (length (encode_field f)).
Proof.
  intros [_ _ Hn] Ha Hs. rewrite encode_field_length in *. unfold field_size, in_unsigned in *.
  rewrite (uwrap_small 16 (acc + 4)), (uwrap_small 16 (acc + 4 + 4)),
    (uwrap_small 16 (acc + 4 + 4 + 2)), uwrap_small; unfold in_unsigned; lia.
Qed.

Lemma fields_size_exact fs acc :
  Forall wf_field fs → 0 ≤ acc → in_unsigned 16 (acc + Z.of_nat (length (encode_fields fs))) →
  fold_left field_size fs acc = acc + Z.of_nat (length (encode_fields fs)).
Proof.
  revert acc. induction fs as [|f fs IH]; intros acc Hf Ha Hs; cbn [fold_left].
  - cbn. lia.
  - apply Forall_cons in Hf as [Hf Hfs]. rewrite encode_fields_cons, length_app in *.
    unfold in_unsigned in *.
    rewrite field_size_exact by (done || unfold in_unsigned; lia).
    rewrite IH by (done || unfold in_unsigned; lia). lia.
Qed.

Lemma loop_fields_all t : number_fields t = Z.of_nat (length (fields t)) → loop_fields t = Ok (fields t).
Proof.
  intros E. unfold loop_fields. rewrite E, Z.ltb_irrefl, Nat2Z.id. by rewrite firstn_all.
Qed.

(** One step of writing: [bs] goes behind [pre], consuming [old]. *)
Ltac put_step :=
  rewrite put_at by (rewrite ?length_app, ?to_network_length, ?length_drop; cbn; lia);
  rewrite res_bind_Ok.

Lemma write_field_at f pre old :
  wf_field f → (length (encode_field f) ≤ length old)%nat →
  write_field (Ok (pre ++ old, Z.of_nat (length pre))) f =
    Ok ((pre ++ encode_field f) ++ drop (length (encode_field f)) old,
        Z.of_nat (length (pre ++ encode_field f))).
Proof.
  intros [_ _ Hn] Hl. rewrite encode_field_length in Hl. unfold write_field.
  rewrite res_bind_Ok. rewrite (uwrap_small 16) by done. rewrite Nat2Z.id, firstn_all.
  do 4 put_step.
  rewrite !to_network_length, !drop_drop, !length_app, encode_field_length.
  unfold encode_field. rewrite <-!app_assoc. f_equal. f_equal. lia.
Qed.

Lemma write_fields_at fs pre old :
  Forall wf_field fs → (length (encode_fields fs) ≤ length old)%nat →
  fold_left write_field fs (Ok (pre ++ old, Z.of_nat (length pre))) =
    Ok ((pre ++ encode_fields fs) ++ drop (length (encode_fields fs)) old,
        Z.of_nat (length (pre ++ encode_fields fs))).
Proof.
  revert pre old. induction fs as [|f fs IH]; intros pre old Hf Hl; cbn [fold_left].
  - cbn. by rewrite app_nil_r.
  - apply Forall_cons in Hf as [Hf Hfs]. rewrite encode_fields_cons, length_app in *.
    rewrite write_field_at by (done || lia). rewrite IH by (done || rewrite length_drop; lia).
    rewrite drop_drop, <-!app_assoc. done.
Qed.

Lemma Serialize_fits t buffer max_bytes :
  wf_type t → Z.of_nat (length (encode_type t)) ≤ max_bytes ≤ Z.of_nat (length buffer) →
  Serialize t buffer max_bytes =
    Ok (Z.of_nat (length (encode_type t)), encode_type t ++ drop (length (encode_type t)) buffer).
Proof.
  intros W Hm. pose proof W as [W1 W2 W3 W4 W5 W6]. rewrite encode_type_length in *.
  unfold Serialize. rewrite loop_fields_all by done. rewrite res_bind_Ok.
  rewrite fields_size_exact by (done || lia).
  destruct (Z.ltb_spec max_bytes (4 + 2 + 2 + 2 + Z.of_nat (length (name t))
    + (0 + Z.of_nat (length (encode_fields (fields t)))))); [lia|].
  rewrite (uwrap_small 16) by done. rewrite Nat2Z.id, firstn_all.
  rewrite (put_at 0 _ [] buffer) by (rewrite ?to_network_length; done || lia). rewrite res_bind_Ok.
  do 4 put_step.
  rewrite !to_network_length, !drop_drop.
  match goal with |- context [fold_left write_field _ (Ok (?p ++ _, ?pos))] =>
    replace pos with (Z.of_nat (length p))
      by (rewrite !length_app, !to_network_length; cbn; lia) end.
  rewrite write_fields_at by (done || rewrite length_drop; lia).
  rewrite res_bind_Ok, drop_drop.
  unfold encode_type. rewrite !length_app, !to_network_length. cbn [app length].
  rewrite <-!app_assoc. do 2 f_equal; lia.
Qed.

Lemma Serialize_too_small t buffer max_bytes :
  wf_type t → max_bytes < Z.of_nat (length (encode_type t)) →
  Serialize t buffer max_bytes = Ok (-1, buffer).
Proof.
  intros W Hm. pose proof W as [W1 W2 W3 W4 W5 W6]. rewrite encode_type_length in *.
  unfold Serialize. rewrite loop_fields_all by done. rewrite res_bind_Ok.
  rewrite fields_size_exact by (done || lia).
  destruct (Z.ltb_spec max_bytes (4 + 2 + 2 + 2 + Z.of_nat (length (name t))
    + (0 + Z.of_nat (length (encode_fields (fields t)))))); [done|lia].
Qed.

(** ** Deserialize of what was serialized *)

Ltac sub_step z := rewrite (uwrap_small 64 z) by (unfold in_unsigned in *; lia).

Lemma read_fields_at fs pre rest nbytes :
  Forall wf_field fs → Z.of_nat (length (encode_fields fs)) ≤ nbytes < 2 ^ 64 →
  read_fields (length fs) (pre ++ encode_fields fs ++ rest) (Z.of_nat (length pre)) nbytes true =
    Ok (Some fs, nbytes - Z.of_nat (length (encode_fields fs))).
Proof.
  revert pre nbytes. induction fs as [|f fs IH]; intros pre nbytes Hf Hn; cbn [read_fields length].
  - cbn. do 2 f_equal. lia.
  - apply Forall_cons in Hf as [[F1 F2 F3] Hfs].
    rewrite encode_fields_cons, length_app, encode_field_length in *.
    destruct (Z.ltb_spec nbytes (4 + 2 + 4)); [lia|]. sub_step (nbytes - (4 + 2)).
    unfold encode_field. rewrite <-!app_assoc.
    rewrite (get_int_at (Z.of_nat (length pre))) by done. rewrite res_bind_Ok.
    rewrite (app_assoc pre), (get_int_at (Z.of_nat (length pre) + 4)) by (rewrite ?length_app, ?to_network_length; (done || lia)).
    rewrite !res_bind_Ok. cbn zeta iota beta.
    rewrite (app_assoc (pre ++ _)), get_int_at by (rewrite ?length_app, ?to_network_length; (done || lia)).
    rewrite res_bind_Ok. sub_step (nbytes - (4 + 2) - 4).
    destruct (Z.ltb_spec (nbytes - (4 + 2) - 4) (Z.of_nat (length (f_name f)))); [lia|].
    sub_step (nbytes - (4 + 2) - 4 - Z.of_nat (length (f_name f))).
    rewrite (app_assoc ((pre ++ _) ++ _)), get_at
      by (rewrite ?length_app, ?to_network_length, ?Nat2Z.id; (done || lia)).
    rewrite res_bind_Ok, (app_assoc (((pre ++ _) ++ _) ++ _)).
    match goal with |- context [read_fields _ (?p ++ _) ?pos _ _] =>
      replace pos with (Z.of_nat (length p)) by (rewrite !length_app, !to_network_length; lia) end.
    rewrite IH by (done || lia). rewrite res_bind_Ok. cbn zeta iota beta.
    destruct f. do 2 f_equal. lia.
Qed.

Lemma Deserialize_encoded t rest nbytes :
  wf_type t → Z.of_nat (length (encode_type t)) ≤ nbytes < 2 ^ 64 →
  Deserialize (encode_type t ++ rest) nbytes true =
    Ok (Some t, nbytes - Z.of_nat (length (encode_type t))).
Proof.
  intros W Hn. pose proof (number_fits t W) as Wn. pose proof W as [W1 W2 W3 W4 W5 W6].
  rewrite encode_type_length in *. unfold Deserialize.
  destruct (Z.ltb_spec nbytes (2 + 4 + 2 + 2)); [lia|]. sub_step (nbytes - (2 + 4 + 2 + 2)).
  unfold encode_type. rewrite <-!app_assoc.
  pose proof (get_int_at 0 2 (super_size t) []) as E0. cbn [app] in E0.
  rewrite E0 by done. rewrite res_bind_Ok. clear E0.
  rewrite (get_int_at 2 4) by (rewrite ?to_network_length; done). rewrite res_bind_Ok.
  rewrite (app_assoc (to_network 2 _)), (get_int_at 6 2) by (rewrite ?length_app, ?to_network_length; done).
  rewrite res_bind_Ok.
  rewrite (app_assoc (_ ++ to_network 4 _)), (get_int_at 8 2) by (rewrite ?length_app, ?to_network_length; done).
  rewrite res_bind_Ok.
  destruct (Z.ltb_spec (nbytes - (2 + 4 + 2 + 2)) (Z.of_nat (length (name t)))); [lia|].
  sub_step (nbytes - (2 + 4 + 2 + 2) - Z.of_nat (length (name t))).
  rewrite (app_assoc ((_ ++ to_network 4 _) ++ _)), get_at
    by (rewrite ?length_app, ?to_network_length, ?Nat2Z.id; done).
  rewrite res_bind_Ok, (app_assoc (((_ ++ to_network 4 _) ++ _) ++ _)).
  match goal with |- context [read_fields _ (?p ++ _) ?pos _ _] =>
    replace pos with (Z.of_nat (length p)) by (rewrite !length_app, !to_network_length; lia) end.
  rewrite W4, Nat2Z.id, read_fields_at by (done || lia).
  rewrite res_bind_Ok. cbn zeta iota beta. destruct t. cbn in *. subst. do 2 f_equal. lia.
Qed.

(** ** Deserialize of anything

    Whatever the bytes are, nothing outside the first [*bytes] is read. *)

Lemma get_ok pos n buffer :
  0 ≤ pos → pos + Z.of_nat n ≤ Z.of_nat (length buffer) →
  get pos n buffer = Ok (take n (drop (Z.to_nat pos) buffer)).
Proof.
  intros H0 Hl. unfold get. destruct (Z.ltb_spec pos 0); [lia|].
  destruct (Z.ltb_spec (Z.of_nat (length buffer)) (pos + Z.of_nat n)); [lia|done].
Qed.

Lemma get_int_ok pos n buffer :
  0 ≤ pos → pos + Z.of_nat n ≤ Z.of_nat (length buffer) → Forall is_byte buffer →
  ∃ v, get_int pos n buffer = Ok v ∧ in_unsigned (8 * Z.of_nat n) v.
Proof.
  intros H0 Hl Hb. unfold get_int. rewrite get_ok by done. eexists. split; [done|].
  apply to_host_range; [rewrite length_take, length_drop; lia|].
  by apply Forall_take, Forall_drop.
Qed.

Lemma read_fields_safe n buffer pos nbytes dl :
  Forall is_byte buffer → 0 ≤ pos → 0 ≤ nbytes < 2 ^ 64 →
  pos + nbytes ≤ Z.of_nat (length buffer) →
  ∃ r left, read_fields n buffer pos nbytes dl = Ok (r, left) ∧ 0 ≤ left ≤ nbytes.
Proof.
  intros Hb. revert pos nbytes. induction n as [|n IH]; intros pos nbytes Hp Hn Hl; cbn [read_fields].
  { eexists _, _. split; [done|lia]. }
  destruct (Z.ltb_spec nbytes (4 + 2 + (if dl then 4 else 0))) as [|Hge];
    [eexists _, _; split; [done|lia]|].
  assert (0 ≤ nbytes - (4 + 2)) by (destruct dl; lia).
  sub_step (nbytes - (4 + 2)).
  destruct (get_int_ok pos 4 buffer) as (ty & -> & Hty); [lia..|done|]. rewrite res_bind_Ok.
  set (here := if dl then _ else _).
  assert (∃ len pos' nb', here = Ok (len, pos', nb') ∧ 0 ≤ nb' ∧ pos + 4 ≤ pos' ∧
    pos' + nb' = pos + 4 + (nbytes - (4 + 2)) ∧ nb' ≤ nbytes - (4 + 2)) as (len & pos' & nb' & -> & ? & ? & ? & ?).
  { subst here. destruct dl.
    - destruct (get_int_ok (pos + 4) 4 buffer) as (l & -> & _); [lia..|done|].
      rewrite res_bind_Ok. sub_step (nbytes - (4 + 2) - 4).
      eexists _, _, _. split; [done|]. lia.
    - eexists _, _, _. split; [done|]. lia. }
  rewrite res_bind_Ok. cbn beta iota zeta.
  destruct (get_int_ok pos' 2 buffer) as (nl & -> & Hnl); [lia..|done|]. rewrite res_bind_Ok.
  unfold in_unsigned in Hnl.
  destruct (Z.ltb_spec nb' nl); [eexists _, _; split; [done|lia]|].
  sub_step (nb' - nl). rewrite get_ok by lia. rewrite res_bind_Ok.
  destruct (IH (pos' + 2 + nl) (nb' - nl)) as (r & left & -> & ?); [lia..|].
  rewrite res_bind_Ok. cbn beta iota zeta. eexists _, _. split; [done|]. lia.
Qed.

Lemma Deserialize_safe buffer nbytes dl :
  Forall is_byte buffer → 0 ≤ nbytes < 2 ^ 64 → nbytes ≤ Z.of_nat (length buffer) →
  ∃ r left, Deserialize buffer nbytes dl = Ok (r, left) ∧ 0 ≤ left ≤ nbytes.
Proof.
  intros Hb Hn Hl. unfold Deserialize.
  destruct (Z.ltb_spec nbytes (2 + 4 + 2 + 2)); [eexists _, _; split; [done|lia]|].
  sub_step (nbytes - (2 + 4 + 2 + 2)).
  destruct (get_int_ok 0 2 buffer) as (v1 & -> & _); [lia..|done|]. rewrite res_bind_Ok.
  destruct (get_int_ok 2 4 buffer) as (v2 & -> & _); [lia..|done|]. rewrite res_bind_Ok.
  destruct (get_int_ok 6 2 buffer) as (nl & -> & Hnl); [lia..|done|]. rewrite res_bind_Ok.
  destruct (get_int_ok 8 2 buffer) as (nf & -> & _); [lia..|done|]. rewrite res_bind_Ok.
  unfold in_unsigned in Hnl.
  destruct (Z.ltb_spec (nbytes - (2 + 4 + 2 + 2)) nl); [eexists _, _; split; [done|lia]|].
  sub_step (nbytes - (2 + 4 + 2 + 2) - nl). rewrite get_ok by lia. rewrite res_bind_Ok.
  destruct (read_fields_safe (Z.to_nat nf) buffer (10 + nl) (nbytes - (2 + 4 + 2 + 2) - nl) dl)
    as (r & left & -> & ?); [done|lia..|].
  rewrite res_bind_Ok. cbn beta iota zeta. eexists _, _. split; [done|]. lia.
Qed.

(** ** Printing stays inside the output

    What is promised of the generated [PrintField], and then of everything
    built on it: the text is exactly as long as the room it used. *)

Definition print_fits (out_bytes : Z) (p : printed) : Prop :=
  match p with
  | None => True
  | Some (text, room, _) => 0 ≤ room ∧ Z.of_nat (length text) + room = out_bytes
  end.

Definition ends_in_nul (p : printed) : Prop :=
  match p with None => True | Some (text, _, _) => last text = Some 0 end.

Class PrintFieldSpec (PrintField : Z → bytes → Z → Z → res printed) : Prop := {
  PrintField_ok o i n t : 0 ≤ o → ∃ p, PrintField o i n t = Ok p ∧ print_fits o p }.

Section PrintProofs.
Context (PrintField : Z → bytes → Z → Z → res printed) `{!PrintFieldSpec PrintField}.
Context (Get : Z → res MessageType).

(** A result, where there is one, fits. *)
Definition fits (o : Z) (r : res printed) : Prop := ∀ p, r = Ok p → print_fits o p.
Definition fits_nul (o : Z) (r : res printed) : Prop :=
  ∀ p, r = Ok p → print_fits o p ∧ ends_in_nul p.

Lemma ignore_nul_fits o p :
  print_fits o p → ends_in_nul p → print_fits o (ignore_nul p).
Proof.
  destruct p as [[[text room] n]|]; cbn; [|done]. intros [H1 H2] Hn. split; [lia|].
  rewrite length_take. assert (length text ≠ 0%nat) by (intros E; apply length_zero_iff_nil in E; by subst).
  lia.
Qed.

Lemma separate_fits first o sep o' :
  0 ≤ o → separate first o = Some (sep, o') → 0 ≤ o' ∧ Z.of_nat (length sep) + o' = o.
Proof.
  intros Ho. unfold separate. destruct first; [intros [= <- <-]; cbn; lia|].
  destruct (Z.ltb_spec o 2); [done|]. intros [= <- <-]. cbn. lia.
Qed.

Section Level.
Context (pm : Z → bytes → Z → MessageType → res printed).
Hypothesis pm_fits : ∀ o i n t, 0 ≤ o → fits_nul o (pm o i n t).

Lemma print_element_fits o i n t : 0 ≤ o → fits o (print_element PrintField Get pm o i n t).
Proof.
  intros Ho p. unfold print_element. destruct (IsPrimitive t).
  - destruct (PrintField_ok o i n t Ho) as (p' & -> & Hp'). by intros [= <-].
  - intros Hp. apply res_bind_ok in Hp as (ty & _ & Hp). apply res_bind_ok in Hp as (p' & Hp' & [= <-]).
    destruct (pm_fits o i n ty Ho p' Hp'). by apply ignore_nul_fits.
Qed.

Lemma array_loop_fits k first o i n t :
  0 ≤ o → fits o (array_loop PrintField Get pm k first o i n t).
Proof.
  revert first o i n. induction k as [|k IH]; intros first o i n Ho p; cbn [array_loop].
  - intros [= <-]. cbn. lia.
  - destruct (separate first o) as [[sep o1]|] eqn:Es; [|intros [= <-]; done].
    destruct (separate_fits _ _ _ _ Ho Es) as [Ho1 Hsep]. intros Hp.
    apply res_bind_ok in Hp as (e & He & Hp). apply print_element_fits in He; [|done].
    destruct e as [[[text o2] n2]|]; [|by injection Hp as <-]. destruct He as [Ho2 He].
    apply res_bind_ok in Hp as (r & Hr & Hp). apply IH in Hr; [|done].
    destruct r as [[[rest o3] n3]|]; [|by injection Hp as <-]. destruct Hr as [Ho3 Hr].
    injection Hp as <-. cbn. rewrite !length_app. lia.
Qed.

Lemma PrintArray_fits o i n t len : 0 ≤ o → fits_nul o (PrintArray PrintField Get pm o i n t len).
Proof.
  intros Ho p. unfold PrintArray. destruct (Z.ltb_spec o 1); [by intros [= <-]|]. intros Hp.
  apply res_bind_ok in Hp as (r & Hr & Hp). apply array_loop_fits in Hr; [|lia].
  destruct r as [[[text o1] n1]|]; [|by injection Hp as <-]. destruct Hr as [Ho1 Hr].
  destruct (Z.ltb_spec o1 2); [by injection Hp as <-|]. injection Hp as <-. split.
  - cbn. rewrite !length_app. cbn. lia.
  - unfold ends_in_nul. change (lbracket :: text ++ [rbracket; 0]) with ([lbracket] ++ text ++ [rbracket; 0]).
    by rewrite app_assoc, last_app.
Qed.

Lemma fields_loop_fits fs first o i n :
  0 ≤ o → fits o (fields_loop PrintField Get pm fs first o i n).
Proof.
  revert first o i n. induction fs as [|f fs IH]; intros first o i n Ho p; cbn [fields_loop].
  - intros [= <-]. cbn. lia.
  - destruct (separate first o) as [[sep o1]|] eqn:Es; [|intros [= <-]; done].
    destruct (separate_fits _ _ _ _ Ho Es) as [Ho1 Hsep].
    destruct (Z.ltb_spec o1 (Z.of_nat (length (f_name f)) + 1)); [by intros [= <-]|]. intros Hp.
    apply res_bind_ok in Hp as (e & He & Hp).
    assert (print_fits (o1 - (Z.of_nat (length (f_name f)) + 1)) e) as Hfit.
    { destruct (0 <? f_length f).
      - apply res_bind_ok in He as (p' & Hp' & [= <-]).
        apply PrintArray_fits in Hp' as [? ?]; [|lia]. by apply ignore_nul_fits.
      - apply print_element_fits in He; [done|lia]. }
    destruct e as [[[text o2] n2]|]; [|by injection Hp as <-]. destruct Hfit as [Ho2 Hfit].
    apply res_bind_ok in Hp as (r & Hr & Hp). apply IH in Hr; [|done].
    destruct r as [[[rest o3] n3]|]; [|by injection Hp as <-]. destruct Hr as [Ho3 Hr].
    injection Hp as <-. cbn. rewrite !length_app. cbn [length]. rewrite length_app. lia.
Qed.
End Level.

Lemma PrintMessage_fits fuel o i n t :
  0 ≤ o → fits_nul o (PrintMessage PrintField Get fuel o i n t).
Proof.
  revert o i n t. induction fuel as [|fuel IH]; intros o i n t Ho p; cbn [PrintMessage]; [done|].
  destruct (Z.ltb_spec o (Z.of_nat (length (name t)) + 1)); [by intros [= <-]|]. intros Hp.
  apply res_bind_ok in Hp as (fs & _ & Hp). apply res_bind_ok in Hp as (r & Hr & Hp).
  apply fields_loop_fits in Hr; [|done|lia].
  destruct r as [[[text o1] n1]|]; [|by injection Hp as <-]. destruct Hr as [Ho1 Hr].
  destruct (Z.ltb_spec o1 2); [by injection Hp as <-|]. injection Hp as <-. split.
  - cbn. rewrite !length_app. cbn [length]. rewrite length_app. cbn. lia.
  - unfold ends_in_nul. change (lbrace :: text ++ [rbrace; 0]) with ([lbrace] ++ text ++ [rbrace; 0]).
    by rewrite !app_assoc, last_app.
Qed.

(** *** Printing returns *)

(** Every type a message refers to is known, to a nesting depth of [n]. *)
Fixpoint known (n : nat) (t : MessageType) : Prop :=
  match n with
  | O => False
  | S n =>
      number_fields t ≤ Z.of_nat (length (fields t)) ∧
      ∀ f, f ∈ fields t → IsPrimitive (f_type f) = true ∨
        ∃ t', Get (f_type f) = Ok t' ∧ known n t'
  end.

Section Returns.
Context (pm : Z → bytes → Z → MessageType → res printed).
Hypothesis pm_fits : ∀ o i n t, 0 ≤ o → fits_nul o (pm o i n t).

Definition element_ok (ty : Z) : Prop :=
  IsPrimitive ty = true ∨
  ∃ t', Get ty = Ok t' ∧ ∀ o i n, 0 ≤ o → ∃ p, pm o i n t' = Ok p.

Lemma print_element_returns o i n ty :
  0 ≤ o → element_ok ty → ∃ p, print_element PrintField Get pm o i n ty = Ok p ∧ print_fits o p.
Proof.
  intros Ho He. assert (∃ p, print_element PrintField Get pm o i n ty = Ok p) as [p Hp].
  { unfold print_element. destruct (IsPrimitive ty) eqn:E.
    - destruct (PrintField_ok o i n ty Ho) as (p & -> & _). eauto.
    - destruct He as [?|(t' & -> & Hr)]; [congruence|]. rewrite res_bind_Ok.
      destruct (Hr o i n Ho) as [p ->]. eexists. done. }
  exists p. split; [done|]. by eapply print_element_fits.
Qed.

Lemma array_loop_returns k first o i n ty :
  0 ≤ o → element_ok ty → ∃ p, array_loop PrintField Get pm k first o i n ty = Ok p.
Proof.
  intros Ho He. revert first o i n Ho.
  induction k as [|k IH]; intros first o i n Ho; cbn [array_loop]; [eauto|].
  destruct (separate first o) as [[sep o1]|] eqn:Es; [|eauto].
  destruct (separate_fits _ _ _ _ Ho Es) as [Ho1 _].
  destruct (print_element_returns o1 i n ty Ho1 He) as (e & -> & Hfit). rewrite res_bind_Ok.
  destruct e as [[[text o2] n2]|]; [|eauto]. destruct Hfit as [Ho2 _].
  destruct (IH false o2 (advance i n n2) n2 Ho2) as [r ->]. rewrite res_bind_Ok.
  destruct r as [[[? ?] ?]|]; eauto.
Qed.

Lemma PrintArray_returns o i n ty len :
  0 ≤ o → element_ok ty → ∃ p, PrintArray PrintField Get pm o i n ty len = Ok p.
Proof.
  intros Ho He. unfold PrintArray. destruct (Z.ltb_spec o 1); [eauto|].
  destruct (array_loop_returns (Z.to_nat len) true (o - 1) i n ty) as [r ->]; [lia|done|].
  rewrite res_bind_Ok. destruct r as [[[? o1] ?]|]; [|eauto]. destruct (o1 <? 2); eauto.
Qed.

Lemma fields_loop_returns fs first o i n :
  0 ≤ o → (∀ f, f ∈ fs → element_ok (f_type f)) →
  ∃ p, fields_loop PrintField Get pm fs first o i n = Ok p.
Proof.
  revert first o i n. induction fs as [|f fs IH]; intros first o i n Ho Hf; cbn [fields_loop]; [eauto|].
  destruct (separate first o) as [[sep o1]|] eqn:Es; [|eauto].
  destruct (separate_fits _ _ _ _ Ho Es) as [Ho1 _].
  destruct (Z.ltb_spec o1 (Z.of_nat (length (f_name f)) + 1)); [eauto|].
  set (o1' := o1 - _). assert (Hel : element_ok (f_type f)) by (apply Hf; left).
  assert (∃ e, (if 0 <? f_length f then
      p ← PrintArray PrintField Get pm o1' i n (f_type f) (f_length f); Ok (ignore_nul p)
    else print_element PrintField Get pm o1' i n (f_type f)) = Ok e ∧ print_fits o1' e)
    as (e & -> & Hfit).
  { destruct (0 <? f_length f).
    - destruct (PrintArray_returns o1' i n (f_type f) (f_length f)) as [p Hp]; [lia|done|].
      rewrite Hp. eexists. split; [done|].
      destruct (PrintArray_fits pm pm_fits o1' i n (f_type f) (f_length f) ltac:(lia) p Hp).
      by apply ignore_nul_fits.
    - apply print_element_returns; [lia|done]. }
  rewrite res_bind_Ok. destruct e as [[[text o2] n2]|]; [|eauto]. destruct Hfit as [Ho2 _].
  destruct (IH false o2 (advance i n n2) n2 Ho2) as [r ->]; [intros; apply Hf; by right|].
  rewrite res_bind_Ok. destruct r as [[[? ?] ?]|]; eauto.
Qed.
End Returns.

Lemma PrintMessage_returns fuel o i n t :
  0 ≤ o → known fuel t → ∃ p, PrintMessage PrintField Get fuel o i n t = Ok p.
Proof.
  revert o i n t. induction fuel as [|fuel IH]; intros o i n t Ho; cbn [PrintMessage known]; [done|].
  intros [Hn Hf]. destruct (Z.ltb_spec o (Z.of_nat (length (name t)) + 1)); [eauto|].
  unfold loop_fields. destruct (Z.ltb_spec (Z.of_nat (length (fields t))) (number_fields t)); [lia|].
  rewrite res_bind_Ok.
  destruct (fields_loop_returns (PrintMessage PrintField Get fuel)
    (λ o i n t Ho, PrintMessage_fits fuel o i n t Ho) (take (Z.to_nat (number_fields t)) (fields t))
    true (o - (Z.of_nat (length (name t)) + 1)) (drop (Z.to_nat (super_size t)) i)
    (u64 (n - super_size t))) as [r ->]; [lia| |].
  - intros f Hin. apply elem_of_take in Hin as (k & Hk & _). apply list_elem_of_lookup_2 in Hk.
    destruct (Hf f Hk) as [?|(t' & Hg & Hk')]; [by left|right]. exists t'. split; [done|].
    intros o' i' n' Ho'. by apply IH.
  - rewrite res_bind_Ok. destruct r as [[[? o1] ?]|]; [|eauto]. destruct (o1 <? 2); eauto.
Qed.
End PrintProofs.
