(* ===== verification/TypeCache.v ===== *)
(** * The type cache: namespace type_cache of aos/common/queue_types.cc

    Each process caches the message types it knows; [AddShm] publishes one
    (and, recursively, the types of its fields) in a list in shared memory,
    where [Get] of any other process finds it. *)

From S2P Require Import Prelude SharedMem ByteOrder QueueTypes QueueTypesProofs.

Record CacheEntry := mkEntry { ce_type : MessageType; ce_in_shm : bool }.

Record ShmType := mkShmType { sh_id : Z; sh_next : Z; sh_serialized : bytes }.

(** One process and the part of the segment the cache uses.  [cache_lock]
    is only ever taken and released inside one function. *)
Record types := mkTypes {
  cache : gmap Z CacheEntry;
  shm_types : gmap Z ShmType;
  tc_core : aos_core;
  tc_shm : aos_shm_core;
  core_is_init : bool }.

Definition sizeof_ShmType : Z := 24.
Definition buffer_size : Z := 768.

Abbreviation MT := (ST types).

Definition set_cache (c : gmap Z CacheEntry) (s : types) : types :=
  mkTypes c (shm_types s) (tc_core s) (tc_shm s) (core_is_init s).
Definition set_shm_types (m : gmap Z ShmType) (s : types) : types :=
  mkTypes (cache s) m (tc_core s) (tc_shm s) (core_is_init s).
Definition set_tc_shm (c : aos_shm_core) (s : types) : types :=
  mkTypes (cache s) (shm_types s) (tc_core s) c (core_is_init s).

Definition Add (t : MessageType) : MT unit := λ s,
  match cache s !! id t with
  | None => Ok (tt, set_cache (<[id t := mkEntry t false]> (cache s)) s)
  | Some _ => Ok (tt, s)
  end.

(** [while (c != nullptr)] of [Get]; [n] bounds the length of the list. *)
Fixpoint find_shm (n : nat) (c type_id : Z) (m : gmap Z ShmType) : res (option ShmType) :=
  match n with
  | O => Err Fuel
  | S n =>
      if c =? 0 then Ok None
      else
        x ← of_option Undefined (m !! c);
        if sh_id x =? type_id then Ok (Some x) else find_shm n (sh_next x) type_id m
  end.

Definition Get (type_id : Z) : MT MessageType := λ s,
  match cache s !! type_id with
  | Some e => Ok (ce_type e, s)
  | None =>
      if core_is_init s then
        match find_shm (S (size (shm_types s))) (gp_pointer (queue_types (tc_shm s)))
                type_id (shm_types s) with
        | Err e => Err e
        | Ok None => Err Fatal
        | Ok (Some x) =>
            match Deserialize (sh_serialized x) (Z.of_nat (length (sh_serialized x))) true with
            | Err e => Err e
            (* [*type] with a null pointer *)
            | Ok (None, _) => Err Undefined
            | Ok (Some t, _) => Ok (t, set_cache (<[type_id := mkEntry t true]> (cache s)) s)
            end
        end
      else Err Fatal
  end.

(** The walk of [AddShm] from a non-null node: the node with this id, or the
    last one. *)
Inductive walked : Set := Here | Last (c : Z).

Fixpoint walk (n : nat) (c type_id : Z) (m : gmap Z ShmType) : res walked :=
  match n with
  | O => Err Fuel
  | S n =>
      x ← of_option Undefined (m !! c);
      if sh_id x =? type_id then Ok Here
      else if sh_next x =? 0 then Ok (Last c)
      else walk n (sh_next x) type_id m
  end.

Definition lock_types : MT unit := λ s,
  match lock_take (gp_lock (queue_types (tc_shm s))) with
  | Ok (false, l) =>
      Ok (tt, set_tc_shm (set_queue_types (mkGlobal l (gp_pointer (queue_types (tc_shm s))))
            (tc_shm s)) s)
  | Ok (true, _) => Err Fatal
  | Err e => Err e
  end.
Definition unlock_types : MT unit := λ s,
  Ok (tt, set_tc_shm (set_queue_types (mkGlobal Unlocked (gp_pointer (queue_types (tc_shm s))))
        (tc_shm s)) s).

Definition types_malloc (len : Z) : MT Z := λ s,
  match shm_malloc (tc_core s) len (tc_shm s) with
  | Ok (p, c) => Ok (p, set_tc_shm c s)
  | Err e => Err e
  end.

(** Everything under the two locks: whether the type was new, and its fields. *)
Definition publish (stack : bytes) (type_id : Z) : MT (option (list Field)) :=
  s ← st_get;
  (* [cache.at] throws *)
  e ← st_lift (of_option Abort (cache s !! type_id));
  if ce_in_shm e then mret None
  else
    fs ← st_lift (loop_fields (ce_type e));
    _ ← lock_types;
    s ← st_get;
    let current := gp_pointer (queue_types (tc_shm s)) in
    w ← (if negb (current =? 0)
         then st_lift (walk (S (size (shm_types s))) current type_id (shm_types s))
         else mret (Last 0));
    match w with
    | Here =>
        _ ← st_modify (λ s, set_cache (<[type_id := mkEntry (ce_type e) true]> (cache s)) s);
        _ ← unlock_types;
        mret None
    | Last current =>
        '(size, buffer) ← st_lift (Serialize (ce_type e) stack buffer_size);
        if size =? -1 then st_stop Fatal
        else
          shm ← types_malloc (sizeof_ShmType + size);
          _ ← st_modify (λ s, set_shm_types
                (<[shm := mkShmType type_id 0 (take (Z.to_nat size) buffer)]> (shm_types s)) s);
          _ ← (if current =? 0
               then st_modify (λ s, set_tc_shm
                      (set_queue_types (mkGlobal (gp_lock (queue_types (tc_shm s))) shm) (tc_shm s)) s)
               else λ s,
                 match shm_types s !! current with
                 | Some x => Ok (tt, set_shm_types
                       (<[current := mkShmType (sh_id x) shm (sh_serialized x)]> (shm_types s)) s)
                 | None => Err Undefined
                 end);
          _ ← unlock_types;
          mret (Some fs)
    end.

(** [stack] is the content of the uninitialised [buffer]; [fuel] bounds the
    nesting of types. *)
Fixpoint AddShm (stack : bytes) (fuel : nat) (type_id : Z) : MT unit :=
  match fuel with
  | O => st_stop Fuel
  | S fuel =>
      s ← st_get;
      if negb (core_is_init s) then st_stop Fatal
      else
        r ← publish stack type_id;
        match r with
        | None => mret tt
        | Some fs =>
            foldr (λ f (k : MT unit),
              _ ← (if IsPrimitive (f_type f) then mret tt else AddShm stack fuel (f_type f)); k)
              (mret tt) fs
        end
  end.

(** Runs that return or find the segment full ([abort] in [shm_malloc]). *)
Abbreviation safe := (wpe (λ e, e = Abort)).

(** ** The list in shared memory

    Type ids are hashes that stand for one type everywhere: [reg]. *)
Section Types.
Context (reg : Z → MessageType).

Implicit Types (m : gmap Z ShmType) (l : list (Z * Z)).

(** A type that can be published. *)
Definition storable (i : Z) : Prop :=
  wf_type (reg i) ∧ Z.of_nat (length (encode_type (reg i))) ≤ buffer_size.

(** [l] lists the addresses and ids. *)
Fixpoint tchain m (p : Z) l : Prop :=
  match l with
  | [] => p = 0
  | (a, i) :: l => p = a ∧ a ≠ 0 ∧ storable i ∧
      ∃ x, m !! a = Some x ∧ sh_id x = i ∧ sh_serialized x = encode_type (reg i) ∧
        tchain m (sh_next x) l
  end.

Lemma tchain_insert m p l a x : a ∉ l.*1 → tchain m p l → tchain (<[a := x]> m) p l.
Proof.
  revert p. induction l as [|[b i] l IH]; intros p Ha; cbn; [done|].
  intros (-> & ? & ? & y & Hy & ? & ? & Hc). split_and!; [done..|]. exists y.
  rewrite lookup_insert_ne by set_solver. split_and!; [done..|]. apply IH; set_solver.
Qed.

(** What a search finds carries the right bytes. *)
Lemma find_published m p l n i :
  tchain m p l → (length l < n)%nat → i ∈ l.*2 →
  ∃ x, find_shm n p i m = Ok (Some x) ∧ sh_serialized x = encode_type (reg i) ∧ storable i.
Proof.
  revert p n. induction l as [|[a j] l IH]; intros p n Hc Hn Hi; [by apply elem_of_nil in Hi|].
  destruct n; [cbn in Hn; lia|].
  destruct Hc as (-> & Ha & Hw & x & Hx & Hj & Hs & Hc). cbn [find_shm].
  rewrite (proj2 (Z.eqb_neq a 0)) by done. rewrite Hx. cbn [of_option]. rewrite res_bind_Ok.
  destruct (Z.eqb_spec (sh_id x) i) as [E|E].
  - exists x. subst. done.
  - apply IH; [done|cbn in Hn; lia|]. cbn in Hi. apply elem_of_cons in Hi as [->|?]; [congruence|done].
Qed.

Lemma tchain_walk m p l n i a j :
  tchain m p ((a, j) :: l) → (length l < n)%nat →
  walk n p i m = Ok (if decide (i ∈ j :: l.*2) then Here else Last (default a (last (l.*1)))).
Proof.
  revert p a j n. induction l as [|[b k] l IH]; intros p a j n Hc Hn; (destruct n; [cbn in Hn; lia|]);
    destruct Hc as (-> & Ha & Hw & x & Hx & Hj & _ & Hc); cbn [walk]; rewrite Hx; cbn [of_option];
    rewrite res_bind_Ok; (destruct (Z.eqb_spec (sh_id x) i) as [E|E];
      [rewrite decide_True by (subst; left); done|]).
  - cbn in Hc. rewrite Hc. cbn. rewrite decide_False; [done|].
    intros [->|?%elem_of_nil]%elem_of_cons; congruence || done.
  - pose proof Hc as (Hb & Hb0 & _). rewrite (proj2 (Z.eqb_neq (sh_next x) 0)) by congruence.
    rewrite (IH (sh_next x) b k n Hc) by (cbn in Hn; lia).
    cbn [fmap list_fmap]. do 2 f_equal. case_decide as Hd.
    + rewrite decide_True by by right. done.
    + rewrite decide_False by (intros [->|?]%elem_of_cons; [congruence|done]).
      rewrite last_cons. by destruct (last (l.*1)).
Qed.

(** Appending a node. *)
Lemma tchain_link m p l a x b y i :
  tchain m p (l ++ [a]) → NoDup ((l ++ [a]).*1) → m !! a.1 = Some x → b ≠ 0 →
  b ∉ (l ++ [a]).*1 → sh_id y = i → sh_next y = 0 → sh_serialized y = encode_type (reg i) →
  storable i →
  tchain (<[a.1 := mkShmType (sh_id x) b (sh_serialized x)]> (<[b := y]> m)) p ((l ++ [a]) ++ [(b, i)]).
Proof.
  intros Hc Hn Hx Hb Hnb Hi Hy Hs Hw. revert p Hc Hn Hnb.
  induction l as [|[c j] l IH]; intros p; cbn [app tchain fmap list_fmap fst].
  - destruct a as [a k]. cbn [fst] in *. intros (-> & Ha & Hwk & x' & Hx' & Hk & Hsk & _) _ Hnb.
    assert (x' = x) as -> by congruence. assert (a ≠ b) by (intros ->; apply Hnb; left).
    split_and!; [done..|]. eexists. rewrite lookup_insert_eq.
    do 3 (split; [done|]). do 3 (split; [done|]). exists y. rewrite lookup_insert_ne by done.
    by rewrite lookup_insert_eq.
  - intros (-> & Hc0 & Hwj & z & Hz & Hj & Hsj & Hc) [Hc1 Hn]%NoDup_cons Hnb.
    assert (b ≠ c) by (intros ->; apply Hnb; left).
    assert (a.1 ≠ c) by (intros E; apply Hc1; rewrite fmap_app, <-E; apply elem_of_app; right; left).
    split_and!; [done..|]. exists z. rewrite !lookup_insert_ne by done.
    split_and!; [done..|]. apply IH; [done|done|]. intros Hin. apply Hnb. by right.
Qed.

(** ** The invariant of a process and the segment *)

Record types_inv (s : types) l : Prop := mkTypesInv {
  ti_chain : tchain (shm_types s) (gp_pointer (queue_types (tc_shm s))) l;
  ti_nodup : NoDup (l.*1);
  ti_lock : gp_lock (queue_types (tc_shm s)) = Unlocked ∧ msg_alloc_lock (tc_shm s) = Unlocked;
  ti_fresh : ∀ a x, shm_types s !! a = Some x → msg_alloc (tc_shm s) ≤ a;
  ti_cache : ∀ i e, cache s !! i = Some e →
    ce_type e = reg i ∧ storable i;
  ti_flag : ∀ i e, cache s !! i = Some e → ce_in_shm e = true → i ∈ l.*2;
  ti_segment : 1024 ≤ shared_mem (tc_core s) < msg_alloc (tc_shm s);
  ti_init : core_is_init s = true }.

(** What [AddShm] leaves alone: which types the process knows. *)
Definition same_cache (s s' : types) : Prop := dom (cache s') = dom (cache s).

Definition locked (s : types) : types :=
  set_tc_shm (set_queue_types (mkGlobal Locked (gp_pointer (queue_types (tc_shm s)))) (tc_shm s)) s.

Lemma tchain_elem m p l q : tchain m p l → q ∈ l → ∃ x, m !! q.1 = Some x.
Proof.
  revert p. induction l as [|[a i] l IH]; intros p; [by intros _ ?%elem_of_nil|].
  cbn. intros (-> & _ & _ & x & Hx & _ & _ & Hc) [->|Hq]%elem_of_cons; eauto.
Qed.

Lemma tchain_nonzero m p l q : tchain m p l → q ∈ l → q.1 ≠ 0.
Proof.
  revert p. induction l as [|[a i] l IH]; intros p; [by intros _ ?%elem_of_nil|].
  cbn. intros (-> & Ha & _ & x & Hx & _ & _ & Hc) [->|Hq]%elem_of_cons; eauto.
Qed.

Lemma tchain_length s l :
  types_inv s l → (length l ≤ size (shm_types s))%nat.
Proof.
  intros [Hc Hn _ _ _ _ _ _]. rewrite <-(length_fmap fst l), <-size_dom,
    <-(size_list_to_set (C := gset Z) (l.*1) Hn).
  apply subseteq_size. intros a (q & -> & Hq)%elem_of_list_to_set%list_elem_of_fmap.
  apply elem_of_dom. by eapply tchain_elem.
Qed.

Lemma walk_types s l i :
  types_inv s l → l ≠ [] →
  walk (S (size (shm_types s))) (gp_pointer (queue_types (tc_shm s))) i (shm_types s) =
    Ok (if decide (i ∈ l.*2) then Here else Last (default 0 (last (l.*1)))).
Proof.
  intros I Hl. pose proof (tchain_length s l I). destruct l as [|[a j] l]; [done|].
  rewrite (tchain_walk _ _ l _ i a j) by (apply I || (cbn in *; lia)).
  cbn [fmap list_fmap fst snd]. rewrite last_cons. by destruct (last _).
Qed.

(** Allocating the node. *)
Lemma safe_malloc (s : types) len Q :
  0 ≤ len ≤ 1024 → msg_alloc_lock (tc_shm s) = Unlocked →
  1024 ≤ shared_mem (tc_core s) < msg_alloc (tc_shm s) →
  (∀ p, shared_mem (tc_core s) < p → p + len ≤ msg_alloc (tc_shm s) →
     Q p (set_tc_shm (set_msg_alloc p (tc_shm s)) s)) →
  safe (types_malloc len) Q s.
Proof.
  intros Hlen Hl Hseg HQ. unfold wpe, types_malloc, shm_malloc.
  pose proof (shm_malloc_aligned_run (tc_core s) len 0 (tc_shm s)) as Hrun.
  cbn zeta in Hrun. rewrite Hrun; [|unfold is_alignment; lia|by rewrite Hl|lia].
  destruct (effective_alignment_bounds len 0) as [? _]; [unfold is_alignment; lia|].
  destruct (alloc_address_spec (msg_alloc (tc_shm s)) len (effective_alignment len 0))
    as (_ & ? & ?); [lia|].
  set (r := alloc_address _ _ _) in *.
  destruct (Z.leb_spec r (shared_mem (tc_core s))); [done|].
  replace (set_alloc_lock Unlocked (set_msg_alloc r (tc_shm s))) with (set_msg_alloc r (tc_shm s)).
  - by apply HQ.
  - unfold set_alloc_lock, set_msg_alloc. cbn. by rewrite Hl.
Qed.

(** A new node at the end of the list keeps the invariant. *)
Lemma types_inv_extend s s' l i p p' :
  types_inv s l → storable i →
  shared_mem (tc_core s) < p → p + sizeof_ShmType ≤ msg_alloc (tc_shm s) →
  tchain (shm_types s') p' (l ++ [(p, i)]) →
  (∀ a x, shm_types s' !! a = Some x → a = p ∨ is_Some (shm_types s !! a)) →
  tc_shm s' = set_queue_types (mkGlobal Unlocked p') (set_msg_alloc p (tc_shm s)) →
  cache s' = cache s → tc_core s' = tc_core s → core_is_init s' = true →
  types_inv s' (l ++ [(p, i)]).
Proof.
  intros [C1 C2 C3 C4 C5 C6 C7 C8] Hw Hp Hp' Hc Hdom Eshm Ec Ecore Ei.
  unfold sizeof_ShmType in Hp'.
  assert (p ∉ l.*1).
  { intros (q & -> & Hq)%list_elem_of_fmap. destruct (tchain_elem _ _ _ _ C1 Hq) as [x Hx].
    apply C4 in Hx. lia. }
  split; rewrite ?Eshm, ?Ec, ?Ecore; cbn; try done.
  - rewrite fmap_app. apply NoDup_app. split_and!; [done| |apply NoDup_singleton].
    intros a Ha ->%list_elem_of_singleton. done.
  - by destruct C3.
  - intros a x Hx. apply Hdom in Hx as [->|[y Hy]]; [lia|]. apply C4 in Hy. lia.
  - intros j e Hj Hf. rewrite fmap_app. apply elem_of_app. left. eauto.
  - lia.
Qed.

Lemma publish_safe stack s l i :
  types_inv s l → is_Some (cache s !! i) → Z.of_nat (length stack) = buffer_size →
  safe (publish stack i) (λ r s', ∃ l', types_inv s' l' ∧ l `prefix_of` l' ∧ i ∈ l'.*2 ∧
    same_cache s s' ∧ ((r = None ∧ i ∈ l.*2) ∨ r = Some (fields (reg i)))) s.
Proof.
  intros I [e He] Hst. pose proof I as [C1 C2 [C3 C3'] C4 C5 C6 C7 C8].
  destruct (C5 i e He) as (Et & Hsto); pose proof Hsto as [Hw Hlen].
  unfold publish. apply wpe_bind. change (safe st_get ?Q s) with (Q s s). cbn beta.
  apply wpe_bind. eapply wpe_lift; [rewrite He; done|].
  destruct (ce_in_shm e) eqn:Ef.
  { exists l. split_and!; [done|done|by eapply C6|done|]. left. split; [done|by eapply C6]. }
  apply wpe_bind. rewrite Et. eapply wpe_lift; [apply loop_fields_all, Hw|].
  apply wpe_bind. unfold lock_types, wpe at 1. rewrite C3. cbn [lock_take].
  fold (locked s). apply wpe_bind. change (safe st_get ?Q ?x) with (Q x x). cbn beta.
  set (w := if decide (i ∈ l.*2) then Here else Last (default 0 (last (l.*1)))).
  apply wpe_bind.
  assert (Hwalk : ∀ Q : walked → types → Prop, Q w (locked s) →
    safe (if negb (gp_pointer (queue_types (tc_shm (locked s))) =? 0)
          then st_lift (walk (S (size (shm_types (locked s))))
                 (gp_pointer (queue_types (tc_shm (locked s)))) i (shm_types (locked s)))
          else mret (Last 0)) Q (locked s)).
  { intros Q HQ. destruct l as [|[a j] l].
    - cbn in C1. cbn. rewrite C1. exact HQ.
    - cbn. pose proof C1 as (Ha & Ha0 & _). rewrite (proj2 (Z.eqb_neq _ 0)) by congruence. cbn [negb].
      eapply wpe_lift; [by apply walk_types|exact HQ]. }
  apply Hwalk. clear Hwalk. subst w. case_decide as Hin.
  - exists l. split_and!; [|done|done| |by left].
    + destruct s as [? ? ? [? ? ? ? [? ?] ?] ?]. cbn in *. subst.
      split; cbn; try done; intros j e'; rewrite lookup_insert_Some;
        intros [[<- <-]|[_ Hj]]; eauto.
    + unfold same_cache. cbn. rewrite dom_insert_L. apply elem_of_dom_2 in He. set_solver.
  - apply wpe_bind. eapply wpe_lift.
    { apply Serialize_fits; [done|]. lia. }
    pose proof (encode_type_length (reg i)) as Hel.
    destruct (Z.eqb_spec (Z.of_nat (length (encode_type (reg i)))) (-1)); [lia|].
    rewrite Nat2Z.id, take_app_length.
    apply wpe_bind, safe_malloc; [unfold sizeof_ShmType, buffer_size in *; lia|done|done|].
    cbn [tc_core tc_shm locked set_tc_shm]. intros p Hp1 Hp2. cbn in Hp2.
    assert (Hp3 : p + sizeof_ShmType ≤ msg_alloc (tc_shm s)) by lia.
    assert (Hpl : p ∉ l.*1).
    { intros (q & -> & Hq)%list_elem_of_fmap. destruct (tchain_elem _ _ _ _ C1 Hq) as [x Hx].
      apply C4 in Hx. unfold sizeof_ShmType in *. lia. }
    apply wpe_bind. change (safe (st_modify ?f) ?Q ?x) with (Q tt (f x)). cbn beta.
    apply wpe_bind.
    set (node := mkShmType i 0 (encode_type (reg i))).
    destruct (last (l.*1)) as [a|] eqn:El.
    + apply last_Some in El as [l1 El].
      assert (∃ l0 q, l = l0 ++ [q] ∧ q.1 = a) as (l0 & q & -> & Hqa).
      { destruct l as [|q l0 _] using rev_ind; [by destruct l1|]. exists l0, q. split; [done|].
        rewrite fmap_app in El. by apply app_inj_tail in El as [_ ?]. }
      change (default 0 (Some a)) with a.
      assert (a ≠ 0) by (subst a; eapply tchain_nonzero; [exact C1|set_solver]).
      rewrite (proj2 (Z.eqb_neq a 0)) by done.
      destruct (tchain_elem _ _ _ q C1 ltac:(set_solver)) as [x Hx]. rewrite Hqa in Hx.
      assert (a ≠ p). { intros ->. apply Hpl. rewrite El. set_solver. }
      unfold wpe at 1. cbn. rewrite lookup_insert_ne by done. rewrite Hx. cbn.
      exists ((l0 ++ [q]) ++ [(p, i)]).
      split_and!; [|by eexists|rewrite fmap_app; set_solver|done|by right].
      eapply (types_inv_extend s); try done.
      * cbn. subst a. eapply tchain_link; try done. lia.
      * cbn. intros b z. rewrite !lookup_insert_Some.
        intros [[<- _]|[_ [[<- _]|[_ ?]]]]; [right; by eexists|by left|right; by eexists].
    + assert (l = []) as -> by (apply last_None in El; by destruct l).
      change (default 0 None) with 0. rewrite Z.eqb_refl.
      change (safe (st_modify ?f) ?Q ?x) with (Q tt (f x)). cbn beta.
      exists ([] ++ [(p, i)]). split_and!; [|by eexists|set_solver|done|by right].
      eapply (types_inv_extend s); try done.
      * cbn. split_and!; [done|lia|done|]. exists node. by rewrite lookup_insert_eq.
      * cbn. intros b z. rewrite lookup_insert_Some. intros [[<- _]|[_ ?]]; [by left|right; by eexists].
Qed.

(** Every type [i] refers to is in the process' cache, to depth [n]. *)
Fixpoint deep (k : gset Z) (n : nat) (i : Z) : Prop :=
  match n with
  | O => False
  | S n => i ∈ k ∧ ∀ f, f ∈ fields (reg i) → IsPrimitive (f_type f) = true ∨ deep k n (f_type f)
  end.

Definition published l i : Prop := i ∈ l.*2.
Definition fields_published l i : Prop :=
  ∀ f, f ∈ fields (reg i) → IsPrimitive (f_type f) = true ∨ published l (f_type f).

Lemma published_prefix l l' i : l `prefix_of` l' → published l i → published l' i.
Proof. intros [k ->] H. unfold published. rewrite fmap_app. apply elem_of_app. by left. Qed.

Lemma AddShm_safe stack n s l i :
  types_inv s l → deep (dom (cache s)) n i → Z.of_nat (length stack) = buffer_size →
  safe (AddShm stack n i) (λ _ s', ∃ l', types_inv s' l' ∧ l `prefix_of` l' ∧ published l' i ∧
    same_cache s s' ∧ (published l i ∨ fields_published l' i)) s.
Proof.
  intros I Hd Hst. revert s l i I Hd.
  induction n as [|n IH]; intros s l i I Hd; [done|]. destruct Hd as [Hi Hf].
  cbn [AddShm]. apply wpe_bind. change (safe st_get ?Q ?x) with (Q x x). cbn beta.
  rewrite (ti_init _ _ I). cbn [negb]. apply wpe_bind.
  eapply wpe_mono; [by apply (publish_safe stack s l); [|apply elem_of_dom|]|].
  cbn beta. intros r s1 (l1 & I1 & Hp1 & Hi1 & Hc1 & [[-> Hin]| ->]).
  { exists l1. split_and!; [done..|]. by left. }
  (* the fields, one after the other *)
  cut (∀ fs s1 l1, types_inv s1 l1 → l `prefix_of` l1 → published l1 i → same_cache s s1 →
    (∀ f, f ∈ fs → IsPrimitive (f_type f) = true ∨ deep (dom (cache s)) n (f_type f)) →
    safe (foldr (λ f (k : MT unit),
        _ ← (if IsPrimitive (f_type f) then mret tt else AddShm stack n (f_type f)); k) (mret tt) fs)
      (λ _ s', ∃ l', types_inv s' l' ∧ l1 `prefix_of` l' ∧ l `prefix_of` l' ∧ published l' i ∧
        same_cache s s' ∧
        ∀ f, f ∈ fs → IsPrimitive (f_type f) = true ∨ published l' (f_type f)) s1).
  { intros Hloop. eapply wpe_mono; [by apply (Hloop (fields (reg i)) s1 l1)|].
    cbn beta. intros _ s' (l' & ? & ? & ? & ? & ? & ?). exists l'. split_and!; [done..|]. by right. }
  clear s1 l1 I1 Hp1 Hi1 Hc1 Hf.
  induction fs as [|f fs IHf]; intros s1 l1 I1 Hp1 Hi1 Hc1 Hf; cbn [foldr].
  - exists l1. split_and!; try done. intros f ?%elem_of_nil. done.
  - apply wpe_bind. destruct (IsPrimitive (f_type f)) eqn:Ep.
    + change (safe (mret tt) ?Q ?x) with (Q tt x). cbn beta.
      eapply wpe_mono; [apply (IHf s1 l1); try done; intros; apply Hf; by right|].
      cbn beta. intros _ s' (l' & ? & ? & ? & ? & ? & Hfs). exists l'. split_and!; try done.
      intros g [->|?]%elem_of_cons; auto.
    + destruct (Hf f ltac:(left)) as [?|Hd]; [congruence|].
      eapply wpe_mono; [apply (IH s1 l1); [done|]; unfold same_cache in Hc1; by rewrite Hc1|].
      cbn beta. intros _ s2 (l2 & I2 & Hp2 & Hi2 & Hc2 & _).
      eapply wpe_mono; [apply (IHf s2 l2); try done|].
      * by etrans.
      * by eapply published_prefix.
      * unfold same_cache in *. congruence.
      * intros; apply Hf; by right.
      * cbn beta. intros _ s' (l' & ? & Hpp & ? & ? & ? & Hfs). exists l'. split_and!; try done.
        -- by etrans.
        -- intros g [->|?]%elem_of_cons; [|auto]. right. exact (published_prefix l2 l' _ Hpp Hi2).
Qed.

(** Any process finds what is published, and gets exactly that type. *)
Lemma Get_published s l i :
  types_inv s l → published l i → ∃ s', Get i s = Ok (reg i, s') ∧ types_inv s' l.
Proof.
  intros I Hi. pose proof I as [C1 C2 C3 C4 C5 C6 C7 C8]. unfold Get.
  destruct (cache s !! i) as [e|] eqn:E.
  { destruct (C5 i e E) as [-> _]. eauto. }
  rewrite C8.
  destruct (find_published (shm_types s) _ l (S (size (shm_types s))) i C1) as (x & -> & -> & Hsto);
    [pose proof (tchain_length s l I); lia|done|].
  pose proof Hsto as [Hw _]. pose proof (number_fits (reg i) Hw) as Hnf. pose proof (encode_type_length (reg i)) as Hlen.
  assert (Hsz : Z.of_nat (length (encode_type (reg i))) < 2 ^ 64).
  { rewrite Hlen. destruct Hw. unfold in_unsigned in *. lia. }
  pose proof (Deserialize_encoded (reg i) [] (Z.of_nat (length (encode_type (reg i)))) Hw ltac:(lia)) as HD.
  rewrite app_nil_r in HD. rewrite HD. eexists. split; [done|].
  split; try done; cbn.
  - intros j e. rewrite lookup_insert_Some. intros [[<- <-]|[_ ?]]; [|eauto].
    done.
  - intros j e. rewrite lookup_insert_Some. intros [[<- _]|[_ ?]]; eauto.
Qed.
End Types.
