(* ===== verification/TypesTheorems.v ===== *)
(** * What the message types guarantee *)

From S2P Require Import Prelude SharedMem ByteOrder QueueTypes QueueTypesProofs TypeCache.

Module SampleTypes.
(** struct ab { int32 a; uint8 b[3]; } as the generator would describe it *)
Definition t7 : MessageType :=
  MessageType_new 4 7 [97; 98] [mkField 0x12002004 0 [97]; mkField 0x00012001 3 [98]].
Definition reg (i : Z) : MessageType := if i =? 7 then t7 else mkType 0 i [] 0 [].
Definition core : aos_core := mkCore true 5000 100000 4880 "".
Definition sc : aos_shm_core :=
  mkShmCore 1 (mkTimespec 0 0) Unlocked 100000 (mkGlobal Unlocked 0) (mkGlobal Unlocked 0).
Definition s : types := mkTypes {[7 := mkEntry t7 false]} ∅ core sc true.
Definition stack : bytes := replicate 768 170.

Lemma wf7 : wf_type t7.
Proof.
  split; [| | |done| |]; try (split; vm_compute; (congruence || done)).
  repeat constructor; vm_compute; (congruence || done).
Qed.

Lemma types_sample_inv : types_inv reg s [].
Proof.
  split; try done; [apply NoDup_nil_2|..].
  - intros i e. cbn. rewrite lookup_singleton_Some. intros [<- <-].
    split; [done|]. split; [apply wf7|]. vm_compute. congruence.
  - intros i e. cbn. rewrite lookup_singleton_Some. by intros [<- <-].
Qed.

(** A [PrintField] that prints a question mark. *)
Definition PrintField (o : Z) (i : bytes) (n t : Z) : res printed :=
  Ok (if o <? 1 then None else Some ([63], o - 1, n - Sizeof t)).

#[global] Instance PrintField_spec : PrintFieldSpec PrintField.
Proof.
  split. intros o i n t Ho. eexists. split; [reflexivity|].
  destruct (Z.ltb_spec o 1); cbn; [done|lia].
Qed.

Definition Get (i : Z) : res MessageType := Ok (reg i).
End SampleTypes.

(** C16: serialization round trip: a type whose values fit their C++ types is
    written to the start of the buffer, or -1 is returned when it does not
    fit; [Deserialize] of the written bytes, whatever follows them, gives the
    same type back and has read exactly the bytes that were written. *)
Theorem Serialize_Deserialize t buffer max_bytes rest nbytes :
  wf_type t → max_bytes ≤ Z.of_nat (length buffer) →
  if decide (Z.of_nat (length (encode_type t)) ≤ max_bytes) then
    ∃ n buffer', Serialize t buffer max_bytes = Ok (n, buffer') ∧
      length buffer' = length buffer ∧
      (n ≤ nbytes < 2 ^ 64 →
       Deserialize (take (Z.to_nat n) buffer' ++ rest) nbytes true = Ok (Some t, nbytes - n))
  else Serialize t buffer max_bytes = Ok (-1, buffer).
Proof.
  intros W Hm. case_decide as Hfit; [|apply Serialize_too_small; [done|lia]].
  eexists _, _. split; [apply Serialize_fits; [done|lia]|].
  split; [rewrite length_app, length_drop; lia|]. intros Hn.
  rewrite Nat2Z.id, take_app_length. by apply Deserialize_encoded.
Qed.

Lemma Serialize_Deserialize_witness :
  ∃ n buffer', Serialize SampleTypes.t7 SampleTypes.stack 768 = Ok (n, buffer') ∧
    length buffer' = length SampleTypes.stack ∧
    (n ≤ 1000 < 2 ^ 64 →
     Deserialize (take (Z.to_nat n) buffer' ++ [1; 2; 3]) 1000 true = Ok (Some SampleTypes.t7, 1000 - n)).
Proof.
  exact (Serialize_Deserialize SampleTypes.t7 SampleTypes.stack 768 [1; 2; 3] 1000
    SampleTypes.wf7 ltac:(vm_compute; congruence)).
Defined.

(** C17: [Deserialize] is memory safe on arbitrary bytes: it never reads
    outside of the first [*bytes] bytes of the buffer (with or without the
    length fields), always returns, and never claims to have read more than
    there was. *)
Theorem Deserialize_memory_safe buffer nbytes deserialize_length :
  Forall is_byte buffer → 0 ≤ nbytes < 2 ^ 64 → nbytes ≤ Z.of_nat (length buffer) →
  ∃ r remaining, Deserialize buffer nbytes deserialize_length = Ok (r, remaining) ∧
    0 ≤ remaining ≤ nbytes.
Proof. apply Deserialize_safe. Qed.

Lemma Deserialize_memory_safe_witness :
  ∃ r remaining, Deserialize [0; 1; 0; 0; 0; 7; 0; 3; 255; 255; 1] 11 true = Ok (r, remaining) ∧
    0 ≤ remaining ≤ 11.
Proof.
  apply (Deserialize_memory_safe [0; 1; 0; 0; 0; 7; 0; 3; 255; 255; 1] 11 true).
  - repeat constructor; unfold is_byte; lia.
  - lia.
  - cbn. lia.
Defined.



(** C19: [AddShm] publishes a type for other processes: from a consistent
    cache it returns (or finds the segment full), the list in shared memory
    only grows, the type is in it (with the types of its fields, unless it
    was there before), and [Get] in any process that shares the segment,
    whatever it had cached before, returns exactly this type. *)
Theorem AddShm_Get reg stack n s l i :
  types_inv reg s l → deep reg (dom (cache s)) n i → Z.of_nat (length stack) = buffer_size →
  match AddShm stack n i s with
  | Ok (_, s') =>
      ∃ l', types_inv reg s' l' ∧ l `prefix_of` l' ∧
        (published l i ∨ fields_published reg l' i) ∧
        ∀ other, types_inv reg (set_cache other s') l' →
          ∃ s2, Get i (set_cache other s') = Ok (reg i, s2)
  | Err e => e = Abort
  end.
Proof.
  intros I Hd Hst. pose proof (AddShm_safe reg stack n s l i I Hd Hst) as H.
  unfold wpe in H. destruct (AddShm stack n i s) as [[[] s']|e]; [|done].
  destruct H as (l' & I' & Hp & Hi & _ & Hf). exists l'. split_and!; [done..|].
  intros other Io. destruct (Get_published reg (set_cache other s') l' i Io Hi) as (s2 & -> & _). eauto.
Qed.

Lemma AddShm_Get_witness :
  ∃ s', AddShm SampleTypes.stack 1 7 SampleTypes.s = Ok (tt, s') ∧
    ∃ l', types_inv SampleTypes.reg s' l' ∧ [] `prefix_of` l' ∧
      (published [] 7 ∨ fields_published SampleTypes.reg l' 7) ∧
      ∀ other, types_inv SampleTypes.reg (set_cache other s') l' →
        ∃ s2, Get 7 (set_cache other s') = Ok (SampleTypes.reg 7, s2).
Proof.
  assert (H : ∃ s', AddShm SampleTypes.stack 1 7 SampleTypes.s = Ok (tt, s')) by (vm_compute; eauto).
  destruct H as [s' Hs']. exists s'. split; [exact Hs'|].
  pose proof (AddShm_Get SampleTypes.reg SampleTypes.stack 1 SampleTypes.s [] 7 SampleTypes.types_sample_inv) as H.
  rewrite Hs' in H. apply H; [|reflexivity]. split; [set_solver|].
  intros f Hf. left. cbn in Hf.
  apply elem_of_cons in Hf as [->|Hf]; [reflexivity|].
  apply list_elem_of_singleton in Hf as ->. reflexivity.
Defined.
