(* ===== verification/Time.v ===== *)
(** * Time: aos/common/time.cc, time.h, util/phased_loop.* and util/log_interval.h

    A [Time] is seconds and nanoseconds in two int32_t, with
    [0 <= nsec_ < kNSecInSec].  Signed arithmetic that leaves its type is
    undefined; conversions to a narrower type wrap.  The functions on
    [double]s are not modelled. *)

From S2P Require Import Prelude SharedMem.

Record Time := mkTime { sec_ : Z; nsec_ : Z }.

#[global] Instance Time_eq_dec : EqDecision Time.
Proof. solve_decision. Defined.

Definition kNSecInSec : Z := 1000000000.
Definition kNSecInMSec : Z := 1000000.
Definition kNSecInUSec : Z := 1000.
Definition kMSecInSec : Z := 1000.
Definition kUSecInSec : Z := 1000000.

(** An implicit conversion to int32_t. *)
Abbreviation narrow := (swrap 32).

(** C++ division: truncating, undefined for 0 and on overflow. *)
Definition cdiv (w a b : Z) : res Z := if b =? 0 then Err Undefined else chk w (Z.quot a b).
Definition cmod (w a b : Z) : res Z :=
  if b =? 0 then Err Undefined else _ ← chk w (Z.quot a b); Ok (Z.rem a b).

(** ** Construction *)

Definition CheckImpl (nsec : Z) : res unit :=
  if (kNSecInSec <=? nsec) || (nsec <? 0) then Err Fatal else Ok tt.

Definition CheckConstexpr (nsec : Z) : res Z := _ ← CheckImpl nsec; Ok nsec.

(** The constructor from two int32_t; its arguments were converted. *)
Definition Time_new (sec nsec : Z) : res Time :=
  n ← CheckConstexpr (narrow nsec); Ok (mkTime (narrow sec) n).

Definition kZero : Time := mkTime 0 0.

Definition of_timespec (v : timespec) : res Time := Time_new (tv_sec v) (tv_nsec v).
Definition ToTimespec (t : Time) : timespec := mkTimespec (sec_ t) (nsec_ t).
(** A timeval as a pair of seconds and microseconds. *)
Definition of_timeval (v : Z * Z) : res Time :=
  us ← i64 (v.2 * kNSecInUSec); Time_new v.1 us.
Definition ToTimeval (t : Time) : Z * Z := (sec_ t, Z.quot (nsec_ t) kNSecInUSec).

Definition InNS (nseconds : Z) : res Time :=
  if nseconds <? 0 then
    n1 ← i64 (nseconds - 1);
    Time_new (Z.quot n1 kNSecInSec - 1) (Z.rem n1 kNSecInSec + 1 + kNSecInSec)
  else Time_new (Z.quot nseconds kNSecInSec) (Z.rem nseconds kNSecInSec).

Definition InUS (useconds : Z) : res Time :=
  if useconds <? 0 then
    Time_new (Z.quot (useconds + 1) kUSecInSec - 1)
      ((Z.rem (useconds + 1) kUSecInSec - 1) * kNSecInUSec + kNSecInSec)
  else Time_new (Z.quot useconds kUSecInSec) (Z.rem useconds kUSecInSec * kNSecInUSec).

Definition InMS (mseconds : Z) : res Time :=
  if mseconds <? 0 then
    Time_new (Z.quot (mseconds + 1) kMSecInSec - 1)
      ((Z.rem (mseconds + 1) kMSecInSec - 1) * kNSecInMSec + kNSecInSec)
  else Time_new (Z.quot mseconds kMSecInSec) (Z.rem mseconds kMSecInSec * kNSecInMSec).

Definition FromRate (hertz : Z) : res Time :=
  n ← cdiv 32 kNSecInSec hertz; Time_new 0 n.

Definition ToNSec (t : Time) : Z := sec_ t * kNSecInSec + nsec_ t.
Definition ToMSec (t : Time) : Z := sec_ t * kMSecInSec + Z.quot (nsec_ t) kNSecInMSec.
Definition ToUSec (t : Time) : Z := sec_ t * kUSecInSec + Z.quot (nsec_ t) kNSecInUSec.

Definition set_sec (v : Z) (t : Time) : Time := mkTime v (nsec_ t).
Definition set_nsec (v : Z) (t : Time) : res Time := _ ← CheckImpl v; Ok (mkTime (sec_ t) v).

(** ** Arithmetic *)

Definition Time_add (a b : Time) : res Time :=
  sec ← i32 (sec_ a + sec_ b);
  nsec ← i32 (nsec_ a + nsec_ b);
  if kNSecInSec <=? nsec then
    nsec ← i32 (nsec - kNSecInSec);
    sec ← i32 (sec + 1);
    Ok (mkTime sec nsec)
  else Ok (mkTime sec nsec).

(** The common end of the other operators. *)
Definition borrow (sec nsec : Z) : res Time :=
  if nsec <? 0 then
    nsec ← i32 (nsec + kNSecInSec);
    sec ← i32 (sec - 1);
    Ok (mkTime sec nsec)
  else Ok (mkTime sec nsec).

Definition Time_sub (a b : Time) : res Time :=
  sec ← i32 (sec_ a - sec_ b);
  nsec ← i32 (nsec_ a - nsec_ b);
  borrow sec nsec.

Definition Time_mul (a : Time) (rhs : Z) : res Time :=
  temp ← i64 (nsec_ a * rhs);
  sec ← i32 (sec_ a * rhs);
  let nsec := narrow (Z.rem temp kNSecInSec) in
  d ← i64 (temp - nsec);
  s ← i64 (sec + Z.quot d kNSecInSec);
  borrow (narrow s) nsec.

Definition Time_div (a : Time) (rhs : Z) : res Time :=
  r ← cmod 32 (sec_ a) rhs;
  k ← cdiv 32 kNSecInSec rhs;
  p ← i32 (r * k);
  q ← cdiv 32 (nsec_ a) rhs;
  nsec ← i32 (p + q);
  sec ← cdiv 32 (sec_ a) rhs;
  borrow sec nsec.

Definition Time_mod (a : Time) (rhs : Z) : res Time :=
  r ← cmod 64 (ToNSec a) rhs;
  let nsec := narrow r in
  k ← i32 (Z.quot rhs kNSecInSec + 1);
  d ← i32 (k * kNSecInSec);
  wraps ← cdiv 32 nsec d;
  sec ← i32 (wraps + Z.quot rhs kNSecInSec);
  w ← i32 (kNSecInSec * wraps);
  nsec ← i32 (nsec - w);
  borrow sec nsec.

Definition Time_neg (a : Time) : res Time :=
  m ← i32 (- sec_ a);
  s ← i32 (m - 1);
  Time_new s (kNSecInSec - nsec_ a).

Definition Time_eqb (a b : Time) : bool := (sec_ a =? sec_ b) && (nsec_ a =? nsec_ b).
Definition Time_ltb (a b : Time) : bool :=
  (sec_ a <? sec_ b) || ((sec_ a =? sec_ b) && (nsec_ a <? nsec_ b)).
Definition Time_gtb (a b : Time) : bool :=
  (sec_ b <? sec_ a) || ((sec_ a =? sec_ b) && (nsec_ b <? nsec_ a)).
Definition Time_leb (a b : Time) : bool :=
  (sec_ a <? sec_ b) || ((sec_ a =? sec_ b) && (nsec_ a <=? nsec_ b)).
Definition Time_geb (a b : Time) : bool :=
  (sec_ b <? sec_ a) || ((sec_ a =? sec_ b) && (nsec_ b <=? nsec_ a)).

Definition IsWithin (a other : Time) (amount : Z) : bool :=
  let temp := ToNSec a - ToNSec other in
  (temp <=? amount) && (- amount <=? temp).

Definition abs (a : Time) : res Time :=
  if Time_gtb a kZero then Ok a
  else if nsec_ a =? 0 then m ← i32 (- sec_ a); Time_new m 0
  else m ← i32 (- sec_ a); s ← i32 (m - 1); Time_new s (kNSecInSec - nsec_ a).

(** ** Clocks

    [clock_gettime] is a parameter of each call: the timespec it gives. *)

Record clock_state := mkClock {
  mock_time_enabled : bool;
  current_mock_time : Time;
  (** [time_offset] of the segment, when there is one *)
  segment_offset : option timespec }.

Abbreviation MC := (ST clock_state).

Definition NowImpl (reading : timespec) : MC Time := λ s,
  t ← of_timespec reading;
  o ← of_timespec (default (mkTimespec 0 0) (segment_offset s));
  r ← Time_add t o;
  Ok (r, s).

Definition Now (reading : timespec) : MC Time := λ s,
  if mock_time_enabled s then Ok (current_mock_time s, s) else NowImpl reading s.

Definition EnableMockTime (now : Time) : MC unit := λ s,
  Ok (tt, mkClock true now (segment_offset s)).
Definition DisableMockTime : MC unit := λ s,
  Ok (tt, mkClock false (current_mock_time s) (segment_offset s)).
Definition SetMockTime (now : Time) : MC unit := λ s,
  if negb (mock_time_enabled s) then Err Fatal
  else Ok (tt, mkClock true now (segment_offset s)).
Definition UpdateMockTime (reading : timespec) : MC unit :=
  t ← NowImpl reading; SetMockTime t.
Definition IncrementMockTime (reading : timespec) (amount : Time) : MC unit :=
  t ← Now reading; t ← st_lift (Time_add t amount); SetMockTime t.

(** [TimeFreezer] around a body. *)
Definition TimeFreezer {A} (reading : timespec) (body : MC A) : MC A :=
  t ← Now reading;
  _ ← EnableMockTime t;
  a ← body;
  _ ← DisableMockTime;
  mret a.

Definition set_segment_offset (t : timespec) : MC unit := λ s,
  match segment_offset s with
  | Some _ => Ok (tt, mkClock (mock_time_enabled s) (current_mock_time s) (Some t))
  | None => Err Fatal
  end.

Definition OffsetToNow (reading : timespec) (now : Time) : MC unit :=
  _ ← set_segment_offset (mkTimespec 0 0);
  t ← Now reading;
  d ← st_lift (Time_sub now t);
  set_segment_offset (ToTimespec d).

(** ** Sleeping

    [clock_nanosleep]'s results in order: 0, EINTR (4), or another error;
    with what remained of a relative sleep.  The result is the list of
    requests made. *)

Fixpoint SleepUntil_loop (request : timespec) (results : list Z) : res (list timespec) :=
  match results with
  | [] => Err Fuel
  | failure :: results =>
      if failure =? 0 then Ok [request]
      else if negb (failure =? 4) then Err Fatal
      else r ← SleepUntil_loop request results; Ok (request :: r)
  end.

Definition SleepUntil (time : Time) (results : list Z) : res (list timespec) :=
  SleepUntil_loop (ToTimespec time) results.

Fixpoint SleepFor_loop (converted : timespec) (results : list (Z * timespec)) : res (list timespec) :=
  match results with
  | [] => Err Fuel
  | (failure, remaining) :: results =>
      if failure =? 0 then Ok [converted]
      else if negb (failure =? 4) then Err Fatal
      else r ← SleepFor_loop remaining results; Ok (converted :: r)
  end.

Definition SleepFor (time : Time) (results : list (Z * timespec)) : res (list timespec) :=
  SleepFor_loop (ToTimespec time) results.

(** ** PhasedLoop *)

Record PhasedLoop := mkLoop { interval_ : Time; offset_ : Time; last_time_ : Time }.

Definition check (b : bool) : res unit := if b then Ok tt else Err Fatal.

Definition next_phase (l : PhasedLoop) (now : Time) : res Time :=
  d ← Time_sub now (offset_ l);
  n ← i64 (ToNSec d + 1);
  k ← cdiv 64 n (ToNSec (interval_ l));
  m ← i64 (k * ToNSec (interval_ l));
  base ← InNS m;
  t ← Time_add base (if Time_ltb now (offset_ l) then kZero else interval_ l);
  Time_add t (offset_ l).

Definition Iterate (l : PhasedLoop) (now : Time) : res (Z * PhasedLoop) :=
  next_time ← next_phase l now;
  difference ← Time_sub next_time (last_time_ l);
  q ← cdiv 64 (ToNSec difference) (ToNSec (interval_ l));
  let result := narrow q in
  p ← Time_mul (interval_ l) result;
  _ ← check (Time_eqb difference p);
  e ← Time_sub next_time (offset_ l);
  r ← cmod 64 (ToNSec e) (ToNSec (interval_ l));
  _ ← check (r =? 0);
  _ ← check (Time_geb next_time now);
  w ← Time_sub next_time now;
  _ ← check (Time_leb w (interval_ l));
  Ok (result, mkLoop (interval_ l) (offset_ l) next_time).

Definition PhasedLoop_Reset (l : PhasedLoop) (now : Time) : res PhasedLoop :=
  t ← Time_sub now (interval_ l);
  '(_, l) ← Iterate l t;
  Ok l.

Definition PhasedLoop_new (interval offset now : Time) : res PhasedLoop :=
  _ ← check (Time_geb offset kZero);
  _ ← check (Time_gtb interval kZero);
  _ ← check (Time_ltb offset interval);
  PhasedLoop_Reset (mkLoop interval offset offset) now.

Definition PhasedLoopXMS (ms offset : Z) (now : Time) : res timespec :=
  frequency ← InMS ms;
  let f := narrow (ToNSec frequency) in
  q ← Time_div now f;
  p ← Time_mul q f;
  a ← Time_add p frequency;
  o ← InUS offset;
  t ← Time_add a o;
  Ok (ToTimespec t).

(** ** LogInterval: the time is what [Now] returned *)

Record LogInterval := mkInterval { count_ : Z; li_interval : Time; last_done_ : Time }.

Definition LogInterval_new (interval : Time) : LogInterval := mkInterval 0 interval (mkTime 0 0).

Definition WantToLog (l : LogInterval) (now : Time) : res LogInterval :=
  let last := if count_ l =? 0 then now else last_done_ l in
  c ← i32 (count_ l + 1);
  Ok (mkInterval c (li_interval l) last).

Definition ShouldLog (l : LogInterval) (now : Time) : res (bool * LogInterval) :=
  d ← Time_sub now (last_done_ l);
  let r := Time_geb d (li_interval l) && (0 <? count_ l) in
  Ok (r, if r then mkInterval (count_ l) (li_interval l) now else l).

Definition Count (l : LogInterval) : Z * LogInterval :=
  (count_ l, mkInterval 0 (li_interval l) (last_done_ l)).
