(* ===== verification/TimeProofs.v ===== *)
(** * Time arithmetic is exact nanosecond arithmetic *)

From S2P Require Import Prelude SharedMem Time.

Abbreviation G := 1000000000 (only parsing).

(** ** Times as numbers of nanoseconds *)

Definition valid (t : Time) : Prop := in_signed 32 (sec_ t) ∧ 0 ≤ nsec_ t < G.

Definition of_ns (n : Z) : Time := mkTime (n / G) (n mod G).

(** Numbers of nanoseconds that a [Time] can hold, but for the last second. *)
Definition roomy (n : Z) : Prop := - (2 ^ 31 - 1) * G ≤ n < (2 ^ 31 - 1) * G.

Lemma ToNSec_of_ns n : ToNSec (of_ns n) = n.
Proof. unfold ToNSec, of_ns, kNSecInSec. cbn [sec_ nsec_]. pose proof (Z.div_mod n G). lia. Qed.

Lemma of_ns_ToNSec t : 0 ≤ nsec_ t < G → of_ns (ToNSec t) = t.
Proof.
  intros H. unfold of_ns, ToNSec, kNSecInSec. destruct t as [s n]. cbn [sec_ nsec_] in *.
  rewrite Z.div_add_l, Z.div_small, Z.add_0_r by lia.
  by rewrite Z.add_comm, Z.mod_add, Z.mod_small by lia.
Qed.

Lemma of_ns_valid n : roomy n → valid (of_ns n).
Proof.
  unfold roomy, valid, in_signed, of_ns. cbn [sec_ nsec_]. intros H.
  pose proof (Z.div_mod n G). pose proof (Z.mod_pos_bound n G). cbn. lia.
Qed.

(** A pair that adds up to [n] with a proper second part is [of_ns n]. *)
Lemma of_ns_eq s r n : s * G + r = n → 0 ≤ r < G → mkTime s r = of_ns n.
Proof. intros <- Hr. rewrite <-(of_ns_ToNSec (mkTime s r)) by done. done. Qed.

Ltac rchk z := rewrite (chk_ok 32 z) by (unfold in_signed; cbn; lia); rewrite res_bind_Ok.
Ltac rchk64 z := rewrite (chk_ok 64 z) by (unfold in_signed; cbn; lia); rewrite res_bind_Ok.

Section Arith.
Implicit Types a b : Time.

Lemma borrow_eq s r n :
  s * G + r = n → - G ≤ r < G → roomy n → borrow s r = Ok (of_ns n).
Proof.
  intros E Hr Hn. unfold borrow, roomy, kNSecInSec in *. destruct (Z.ltb_spec r 0).
  - rchk (r + G). rchk (s - 1). f_equal. apply of_ns_eq; lia.
  - f_equal. apply of_ns_eq; lia.
Qed.

Lemma add_eq a b :
  valid a → valid b → roomy (ToNSec a + ToNSec b) →
  Time_add a b = Ok (of_ns (ToNSec a + ToNSec b)).
Proof.
  intros [A1 A2] [B1 B2] H. unfold Time_add, ToNSec, roomy, kNSecInSec, in_signed in *. cbn in A1, B1.
  rchk (sec_ a + sec_ b). rchk (nsec_ a + nsec_ b).
  destruct (Z.leb_spec G (nsec_ a + nsec_ b)).
  - rchk (nsec_ a + nsec_ b - G). rchk (sec_ a + sec_ b + 1). f_equal. apply of_ns_eq; lia.
  - f_equal. apply of_ns_eq; lia.
Qed.

Lemma sub_eq a b :
  valid a → valid b → roomy (ToNSec a - ToNSec b) →
  Time_sub a b = Ok (of_ns (ToNSec a - ToNSec b)).
Proof.
  intros [A1 A2] [B1 B2] H. unfold Time_sub, ToNSec, roomy, kNSecInSec, in_signed in *. cbn in A1, B1.
  rchk (sec_ a - sec_ b). rchk (nsec_ a - nsec_ b).
  apply borrow_eq; unfold roomy; lia.
Qed.

Lemma mul_eq a r :
  valid a → in_signed 32 r → in_signed 32 (sec_ a * r) → roomy (ToNSec a * r) →
  Time_mul a r = Ok (of_ns (ToNSec a * r)).
Proof.
  intros [A1 A2] Hr Hs H. unfold Time_mul, ToNSec, roomy, kNSecInSec, in_signed in *. cbn in A1, Hr, Hs.
  rchk64 (nsec_ a * r). rchk (sec_ a * r).
  set (t := nsec_ a * r) in *.
  pose proof (Z.quot_rem' t G) as Hq. pose proof (Z.rem_bound_abs t G ltac:(lia)) as Hb.
  rewrite (swrap_small 32 (Z.rem t G)) by (unfold in_signed; cbn; lia).
  assert (Hd : Z.quot (t - Z.rem t G) G = Z.quot t G).
  { replace (t - Z.rem t G) with (Z.quot t G * G) by lia. apply Z.quot_mul. lia. }
  assert (Ht : - (2 ^ 31 * G) ≤ t ≤ 2 ^ 31 * G) by (subst t; nia).
  rchk64 (t - Z.rem t G). rewrite Hd. rchk64 (sec_ a * r + Z.quot t G).
  rewrite (swrap_small 32 (sec_ a * r + Z.quot t G)) by (unfold in_signed; cbn; lia).
  apply borrow_eq; unfold roomy; lia.
Qed.
End Arith.

(** ** Order *)

Lemma ltb_ns a b : valid a → valid b → Time_ltb a b = (ToNSec a <? ToNSec b).
Proof.
  intros [_ A] [_ B]. unfold Time_ltb, ToNSec, kNSecInSec.
  destruct (Z.ltb_spec (sec_ a) (sec_ b)), (Z.eqb_spec (sec_ a) (sec_ b)),
    (Z.ltb_spec (nsec_ a) (nsec_ b)),
    (Z.ltb_spec (sec_ a * G + nsec_ a) (sec_ b * G + nsec_ b)); cbn; (done || lia).
Qed.
Lemma leb_ns a b : valid a → valid b → Time_leb a b = (ToNSec a <=? ToNSec b).
Proof.
  intros [_ A] [_ B]. unfold Time_leb, ToNSec, kNSecInSec.
  destruct (Z.ltb_spec (sec_ a) (sec_ b)), (Z.eqb_spec (sec_ a) (sec_ b)),
    (Z.leb_spec (nsec_ a) (nsec_ b)),
    (Z.leb_spec (sec_ a * G + nsec_ a) (sec_ b * G + nsec_ b)); cbn; (done || lia).
Qed.
Lemma gtb_ns a b : valid a → valid b → Time_gtb a b = (ToNSec b <? ToNSec a).
Proof.
  intros A B. rewrite <-ltb_ns by done. unfold Time_gtb, Time_ltb. by rewrite (Z.eqb_sym (sec_ a)).
Qed.
Lemma geb_ns a b : valid a → valid b → Time_geb a b = (ToNSec b <=? ToNSec a).
Proof.
  intros A B. rewrite <-leb_ns by done. unfold Time_geb, Time_leb. by rewrite (Z.eqb_sym (sec_ a)).
Qed.
Lemma eqb_ns a b : valid a → valid b → Time_eqb a b = (ToNSec a =? ToNSec b).
Proof.
  intros [_ A] [_ B]. unfold Time_eqb, ToNSec, kNSecInSec.
  destruct (Z.eqb_spec (sec_ a) (sec_ b)), (Z.eqb_spec (nsec_ a) (nsec_ b)),
    (Z.eqb_spec (sec_ a * G + nsec_ a) (sec_ b * G + nsec_ b)); cbn; (done || lia).
Qed.

(** ** Conversions *)

Lemma Time_new_eq s n t :
  s * G + n = t → 0 ≤ n < G → in_signed 32 s → Time_new s n = Ok (of_ns t).
Proof.
  intros E Hn Hs. unfold Time_new, CheckConstexpr, CheckImpl, kNSecInSec.
  rewrite !swrap_small by (done || unfold in_signed; cbn; lia).
  destruct (Z.leb_spec G n); [lia|]. destruct (Z.ltb_spec n 0); [lia|]. cbn.
  f_equal. by apply of_ns_eq.
Qed.

Lemma Time_new_fatal s n : G ≤ n < 2 ^ 31 ∨ - 2 ^ 31 ≤ n < 0 → Time_new s n = Err Fatal.
Proof.
  intros Hn. unfold Time_new, CheckConstexpr, CheckImpl, kNSecInSec.
  rewrite (swrap_small 32 n) by (unfold in_signed; cbn; lia).
  destruct (Z.leb_spec G n); [done|]. destruct (Z.ltb_spec n 0); [done|lia].
Qed.

(** Negative multiples of a second, and one nanosecond more than such a
    multiple, are not representable by [InNS]'s formula. *)
Definition InNS_bad (n : Z) : bool := (n <? 0) && ((1 - n) mod G <? 2).

Lemma InNS_eq n :
  roomy n → InNS n = if InNS_bad n then Err Fatal else Ok (of_ns n).
Proof.
  unfold roomy, InNS, InNS_bad, kNSecInSec. intros Hn. destruct (Z.ltb_spec n 0); cbn [andb].
  - rchk64 (n - 1).
    assert (Hq : Z.quot (n - 1) G = - ((1 - n) / G)).
    { replace (n - 1) with (- (1 - n)) by lia. rewrite Z.quot_opp_l by lia. by rewrite Z.quot_div_nonneg by lia. }
    assert (Hr : Z.rem (n - 1) G = - ((1 - n) mod G)).
    { replace (n - 1) with (- (1 - n)) by lia. rewrite Z.rem_opp_l by lia. by rewrite Z.rem_mod_nonneg by lia. }
    rewrite Hq, Hr. pose proof (Z.div_mod (1 - n) G). pose proof (Z.mod_pos_bound (1 - n) G).
    destruct (Z.ltb_spec ((1 - n) mod G) 2).
    + apply Time_new_fatal. lia.
    + apply Time_new_eq; [lia|lia|]. unfold in_signed. cbn. lia.
  - rewrite Z.quot_div_nonneg, Z.rem_mod_nonneg by lia.
    pose proof (Z.div_mod n G). pose proof (Z.mod_pos_bound n G).
    apply Time_new_eq; [lia|lia|]. unfold in_signed. cbn. lia.
Qed.

(** Microseconds and milliseconds, any int. *)
Lemma InUnits_eq unit n u :
  unit * u = G → 1 < u → 0 < unit → - 2 ^ 31 ≤ n < 2 ^ 31 →
  (if n <? 0 then Time_new (Z.quot (n + 1) u - 1) ((Z.rem (n + 1) u - 1) * unit + G)
   else Time_new (Z.quot n u) (Z.rem n u * unit)) = Ok (of_ns (n * unit)).
Proof.
  intros Hu Hu1 Hun Hn. destruct (Z.ltb_spec n 0).
  - assert (Hq : Z.quot (n + 1) u = - ((- n - 1) / u)).
    { replace (n + 1) with (- (- n - 1)) by lia. rewrite Z.quot_opp_l by lia. by rewrite Z.quot_div_nonneg by lia. }
    assert (Hr : Z.rem (n + 1) u = - ((- n - 1) mod u)).
    { replace (n + 1) with (- (- n - 1)) by lia. rewrite Z.rem_opp_l by lia. by rewrite Z.rem_mod_nonneg by lia. }
    rewrite Hq, Hr. pose proof (Z.div_mod (- n - 1) u ltac:(lia)) as Hd.
    pose proof (Z.mod_pos_bound (- n - 1) u ltac:(lia)) as Hm.
    set (d := (- n - 1) / u) in *. set (m := (- n - 1) mod u) in *.
    apply Time_new_eq; [nia|nia|]. unfold in_signed. cbn. nia.
  - rewrite Z.quot_div_nonneg, Z.rem_mod_nonneg by lia.
    pose proof (Z.div_mod n u ltac:(lia)) as Hd. pose proof (Z.mod_pos_bound n u ltac:(lia)) as Hm.
    set (d := n / u) in *. set (m := n mod u) in *.
    apply Time_new_eq; [nia|nia|]. unfold in_signed. cbn. nia.
Qed.

Lemma InUS_eq n : in_signed 32 n → InUS n = Ok (of_ns (n * 1000)).
Proof.
  unfold in_signed. cbn. intros Hn. unfold InUS, kUSecInSec, kNSecInUSec, kNSecInSec.
  apply (InUnits_eq 1000 n 1000000); lia.
Qed.
Lemma InMS_eq n : in_signed 32 n → InMS n = Ok (of_ns (n * 1000000)).
Proof.
  unfold in_signed. cbn. intros Hn. unfold InMS, kMSecInSec, kNSecInMSec, kNSecInSec.
  apply (InUnits_eq 1000000 n 1000); lia.
Qed.

(** ** Division by a divisor of a second is floor division *)

Lemma cdiv_ok w a b : 0 < b → in_signed w (Z.quot a b) → cdiv w a b = Ok (Z.quot a b).
Proof.
  intros Hb Hq. unfold cdiv. rewrite (proj2 (Z.eqb_neq b 0)) by lia. by apply chk_ok.
Qed.
Lemma cmod_ok w a b : 0 < b → in_signed w (Z.quot a b) → cmod w a b = Ok (Z.rem a b).
Proof.
  intros Hb Hq. unfold cmod. rewrite (proj2 (Z.eqb_neq b 0)) by lia. by rewrite chk_ok.
Qed.

Lemma quot_small_range a b : 0 < b → in_signed 32 a → in_signed 32 (Z.quot a b).
Proof.
  unfold in_signed. cbn. intros Hb Ha. pose proof (Z.quot_rem' a b).
  pose proof (Z.rem_bound_abs a b ltac:(lia)). pose proof (Z.rem_sign_mul a b ltac:(lia)).
  split; nia.
Qed.

Lemma div_eq a r :
  valid a → 0 < r < 2 ^ 31 → G mod r = 0 → Time_div a r = Ok (of_ns (ToNSec a / r)).
Proof.
  intros [A1 A2] Hr Hd. unfold Time_div, kNSecInSec.
  assert (Hk : G = r * (G / r)) by (apply Z_div_exact_full_2; [lia|done]).
  set (k := G / r) in *.
  pose proof (quot_small_range (sec_ a) r ltac:(lia) A1) as Hqs.
  rewrite (cmod_ok 32 (sec_ a)), res_bind_Ok by (done || lia).
  assert (Hkq : Z.quot G r = k) by (by rewrite Z.quot_div_nonneg by lia).
  assert (0 < k ≤ G) by nia.
  rewrite (cdiv_ok 32 G), res_bind_Ok by (rewrite ?Hkq; unfold in_signed; cbn; lia). rewrite Hkq.
  pose proof (Z.quot_rem' (sec_ a) r) as Hs. pose proof (Z.rem_bound_abs (sec_ a) r ltac:(lia)) as Hrb.
  set (q := Z.quot (sec_ a) r) in *. set (m := Z.rem (sec_ a) r) in *.
  assert (- G < m * k < G) by nia.
  rchk (m * k).
  assert (Hn : Z.quot (nsec_ a) r = nsec_ a / r) by (rewrite Z.quot_div_nonneg by lia; done).
  pose proof (Z.div_mod (nsec_ a) r ltac:(lia)) as Hnd. pose proof (Z.mod_pos_bound (nsec_ a) r ltac:(lia)).
  set (e := nsec_ a / r) in *. assert (0 ≤ e < k) by nia.
  rewrite (cdiv_ok 32 (nsec_ a)), res_bind_Ok by (rewrite ?Hn; unfold in_signed; cbn; lia). rewrite Hn.
  rchk (m * k + e).
  rewrite (cdiv_ok 32 (sec_ a)), res_bind_Ok by (done || lia). fold q.
  assert (HT : ToNSec a / r = q * G + m * k + e).
  { unfold ToNSec, kNSecInSec. symmetry. apply (Z.div_unique _ _ _ (nsec_ a mod r)); [lia|]. nia. }
  rewrite HT. unfold in_signed in *. cbn in *.
  assert (m * k + e < G) by nia.
  unfold borrow, kNSecInSec. destruct (Z.ltb_spec (m * k + e) 0).
  - assert (q < 0 ∨ 0 < - m) by nia.
    assert (- 2 ^ 31 < q). { assert (m ≤ 0) by nia. nia. }
    rchk (m * k + e + G). rchk (q - 1). f_equal. apply of_ns_eq; lia.
  - f_equal. apply of_ns_eq; lia.
Qed.

(** ** Modulus below a second is the remainder with the dividend's sign *)

Lemma ToNSec_bound a : valid a → - (2 ^ 31 * G) ≤ ToNSec a < 2 ^ 31 * G.
Proof. intros [A1 A2]. unfold in_signed, ToNSec, kNSecInSec in *. cbn in *. lia. Qed.

Lemma mod_eq a r :
  valid a → r ≠ 0 → Z.abs r < G → Time_mod a r = Ok (of_ns (Z.rem (ToNSec a) r)).
Proof.
  intros V Hr Hlt. pose proof (ToNSec_bound a V) as Hb. unfold Time_mod, cmod, kNSecInSec.
  rewrite (proj2 (Z.eqb_neq r 0)) by done.
  pose proof (Z.quot_rem' (ToNSec a) r) as Hq. pose proof (Z.rem_bound_abs (ToNSec a) r Hr) as Hm.
  pose proof (Z.rem_sign_mul (ToNSec a) r Hr) as Hsg.
  rewrite (chk_ok 64 (Z.quot (ToNSec a) r)) by (unfold in_signed; cbn; nia).
  rewrite !res_bind_Ok. set (m := Z.rem (ToNSec a) r) in *.
  rewrite (swrap_small 32 m) by (unfold in_signed; cbn; lia).
  assert (Hrq : Z.quot r G = 0) by (apply Z.quot_small_iff; lia). rewrite Hrq.
  rchk (0 + 1). rchk ((0 + 1) * G).
  assert (Hw : Z.quot m ((0 + 1) * G) = 0) by (apply Z.quot_small_iff; lia).
  rewrite (cdiv_ok 32 m), res_bind_Ok by (rewrite ?Hw; unfold in_signed; cbn; lia). rewrite Hw.
  rchk (0 + 0). rchk (G * 0). rchk (m - G * 0).
  apply borrow_eq; unfold roomy; lia.
Qed.

(** ** Negation and absolute value *)

Lemma neg_eq a : valid a → - 2 ^ 31 < sec_ a →
  Time_neg a = if nsec_ a =? 0 then Err Fatal else Ok (of_ns (- ToNSec a)).
Proof.
  intros [A1 A2] Hs. unfold Time_neg, ToNSec, kNSecInSec, in_signed in *. cbn in A1.
  rchk (- sec_ a). rewrite (chk_ok 32 (- sec_ a - 1)), res_bind_Ok by (unfold in_signed; cbn; lia).
  destruct (Z.eqb_spec (nsec_ a) 0) as [E|E].
  - apply Time_new_fatal. lia.
  - apply Time_new_eq; [lia|lia|]. unfold in_signed. cbn. lia.
Qed.

Lemma abs_eq a : valid a → - 2 ^ 31 < sec_ a → abs a = Ok (of_ns (Z.abs (ToNSec a))).
Proof.
  intros V Hs. pose proof V as [A1 A2]. unfold abs. rewrite gtb_ns by (done || (split; cbn; done || lia)).
  change (ToNSec kZero) with 0. destruct (Z.ltb_spec 0 (ToNSec a)).
  - rewrite Z.abs_eq by lia. by rewrite of_ns_ToNSec.
  - rewrite Z.abs_neq by lia. unfold ToNSec, kNSecInSec, in_signed in *. cbn in A1.
    destruct (Z.eqb_spec (nsec_ a) 0) as [E|E].
    + rchk (- sec_ a). apply Time_new_eq; [lia|lia|]. unfold in_signed. cbn. lia.
    + rchk (- sec_ a). rewrite (chk_ok 32 (- sec_ a - 1)), res_bind_Ok by (unfold in_signed; cbn; lia).
      apply Time_new_eq; [lia|lia|]. unfold in_signed. cbn. lia.
Qed.

(** ** PhasedLoop

    The next phase after [n] is the smallest [offset + k * interval] above it. *)

Definition next_ns (i o n : Z) : Z := ((n - o) / i + 1) * i + o.

Definition loop_bound : Z := 2 ^ 28 * G.

Record loop_ok (l : PhasedLoop) : Prop := mkLoopOk {
  lo_interval : valid (interval_ l) ∧ 0 < ToNSec (interval_ l) ≤ loop_bound;
  lo_offset : valid (offset_ l) ∧ 0 ≤ ToNSec (offset_ l) < ToNSec (interval_ l);
  lo_last : valid (last_time_ l) ∧ Z.abs (ToNSec (last_time_ l)) ≤ 2 * loop_bound;
  lo_phase : (ToNSec (last_time_ l) - ToNSec (offset_ l)) mod ToNSec (interval_ l) = 0 }.

Section Loop.
Context (l : PhasedLoop) (now : Time).
Hypothesis LO : loop_ok l.
Hypothesis Hnow : valid now.
Hypothesis Hn : Z.abs (ToNSec now) ≤ loop_bound.

Notation i := (ToNSec (interval_ l)).
Notation o := (ToNSec (offset_ l)).
Notation n := (ToNSec now).

(** What the code adds to the offset. *)
Definition code_base : Z := Z.quot (n - o + 1) i * i.
Definition code_next : Z := code_base + (if n <? o then 0 else i) + o.

Lemma div_neg_shift d k : 0 < k → (- d - 1) / k = - (d / k) - 1.
Proof.
  intros Hk. symmetry. apply (Z.div_unique _ _ _ (k - 1 - d mod k)).
  - pose proof (Z.mod_pos_bound d k Hk). lia.
  - pose proof (Z.div_mod d k). lia.
Qed.

(** Where the two agree: always before the offset, and otherwise unless
    [now] is one nanosecond before a phase. *)
Lemma code_next_eq :
  code_next = if (negb (n <? o)) && ((n - o + 1) mod i =? 0) then next_ns i o n + i
              else next_ns i o n.
Proof.
  destruct LO as [[Vi Hi] [Vo Ho] _ _]. unfold code_next, code_base, next_ns.
  destruct (Z.ltb_spec n o); cbn [negb andb].
  - assert (Z.quot (n - o + 1) i = - ((- (n - o) - 1) / i)) as ->.
    { replace (n - o + 1) with (- (- (n - o) - 1)) by lia. rewrite Z.quot_opp_l by lia.
      by rewrite Z.quot_div_nonneg by lia. }
    rewrite div_neg_shift by lia. lia.
  - rewrite Z.quot_div_nonneg by lia.
    pose proof (Z.div_mod (n - o) i ltac:(lia)) as Hd. pose proof (Z.mod_pos_bound (n - o) i ltac:(lia)).
    destruct (Z.eqb_spec ((n - o + 1) mod i) 0) as [E|E].
    + apply Z_div_exact_full_2 in E; [|lia].
      assert ((n - o + 1) / i = (n - o) / i + 1) by nia. lia.
    + assert ((n - o + 1) / i = (n - o) / i).
      { symmetry. apply (Z.div_unique _ _ _ ((n - o) mod i + 1)); [|lia].
        destruct (decide ((n - o) mod i + 1 = i)) as [E1|]; [|lia]. exfalso. apply E.
        replace (n - o + 1) with (((n - o) / i + 1) * i) by lia. apply Z.mod_mul. lia. }
      lia.
Qed.

Lemma next_ns_bounds : n < next_ns i o n ≤ n + i.
Proof.
  destruct LO as [[Vi Hi] [Vo Ho] _ _]. unfold next_ns.
  pose proof (Z.div_mod (n - o) i ltac:(lia)). pose proof (Z.mod_pos_bound (n - o) i ltac:(lia)). lia.
Qed.

Lemma code_next_bounds : n < code_next ≤ n + 2 * i.
Proof.
  pose proof next_ns_bounds. destruct LO as [[Vi Hi] _ _ _]. rewrite code_next_eq.
  destruct (negb _ && _); lia.
Qed.

Definition phase_bad : bool := (n <? o) && InNS_bad code_base.

Lemma next_phase_eq :
  next_phase l now = if phase_bad then Err Fatal else Ok (of_ns code_next).
Proof.
  pose proof code_next_bounds as Hb. pose proof LO as [[Vi Hi] [Vo Ho] _ _].
  unfold loop_bound in *. unfold next_phase, phase_bad.
  rewrite sub_eq, res_bind_Ok by (done || unfold roomy; lia). rewrite ToNSec_of_ns.
  rchk64 (n - o + 1).
  assert (Hbase : code_base = code_next - (if n <? o then 0 else i) - o) by (unfold code_next; lia).
  rewrite ltb_ns by done.
  assert (- (2 ^ 31 - 1) * G ≤ code_base < (2 ^ 31 - 1) * G) by (destruct (n <? o); lia).
  assert (Hq : in_signed 64 (Z.quot (n - o + 1) i)).
  { unfold in_signed. cbn. unfold code_base in *. nia. }
  rewrite cdiv_ok, res_bind_Ok by (done || lia). fold code_base.
  rchk64 code_base. rewrite InNS_eq by done.
  assert (Hbad : (n <? o) = false → InNS_bad code_base = false).
  { intros E. unfold InNS_bad. apply andb_false_iff. left. apply Z.ltb_ge. unfold code_base.
    apply Z.ltb_ge in E. rewrite Z.quot_div_nonneg by lia. pose proof (Z.div_pos (n - o + 1) i). nia. }
  destruct (n <? o) eqn:E; cbn [andb]; [destruct (InNS_bad code_base); [done|]|rewrite Hbad by done];
    rewrite res_bind_Ok.
  - rewrite add_eq, res_bind_Ok; [|by apply of_ns_valid|done|rewrite ToNSec_of_ns; change (ToNSec kZero) with 0; unfold roomy; lia].
    rewrite ToNSec_of_ns. change (ToNSec kZero) with 0.
    rewrite add_eq; [|apply of_ns_valid; unfold roomy; lia|done|rewrite ToNSec_of_ns; unfold roomy; lia].
    rewrite ToNSec_of_ns. unfold code_next. rewrite E. done.
  - rewrite add_eq, res_bind_Ok; [|by apply of_ns_valid|done|rewrite ToNSec_of_ns; unfold roomy; lia].
    rewrite ToNSec_of_ns.
    rewrite add_eq; [|apply of_ns_valid; unfold roomy; lia|done|rewrite ToNSec_of_ns; unfold roomy; lia].
    rewrite ToNSec_of_ns. unfold code_next. rewrite E. done.
Qed.

Lemma phase_multiple :
  (code_next - ToNSec (last_time_ l)) = (code_next - ToNSec (last_time_ l)) / i * i ∧
  (code_next - o) mod i = 0.
Proof.
  destruct LO as [[Vi Hi] [Vo Ho] [Vl Hl] Hp].
  assert (Hc : (code_next - o) mod i = 0).
  { rewrite code_next_eq by done. destruct (negb _ && _); unfold next_ns.
    - replace (_ - o) with (((n - o) / i + 2) * i) by lia. apply Z.mod_mul. lia.
    - replace (_ - o) with (((n - o) / i + 1) * i) by lia. apply Z.mod_mul. lia. }
  split; [|done].
  pose proof (Z.div_mod (code_next - ToNSec (last_time_ l)) i ltac:(lia)) as Hd.
  assert ((code_next - ToNSec (last_time_ l)) mod i = 0); [|lia].
  replace (code_next - ToNSec (last_time_ l)) with ((code_next - o) - (ToNSec (last_time_ l) - o)) by lia.
  rewrite Zminus_mod, Hc, Hp. by rewrite Zmod_0_l.
Qed.

(** Everything [Iterate] checks, in nanoseconds. *)
Lemma Iterate_eq :
  let r := (code_next - ToNSec (last_time_ l)) / i in
  in_signed 32 r →
  Iterate l now =
    if phase_bad then Err Fatal
    else if (negb (n <? o)) && ((n - o + 1) mod i =? 0) then Err Fatal
    else Ok (r, mkLoop (interval_ l) (offset_ l) (of_ns (next_ns i o n))).
Proof.
  intros r Hr. pose proof code_next_bounds as Hb. destruct phase_multiple as [Hm Hm'].
  pose proof LO as [[Vi Hi] [Vo Ho] [Vl Hl] Hp]. fold r in Hm. unfold loop_bound in *.
  unfold Iterate. rewrite next_phase_eq. destruct phase_bad; [done|]. rewrite res_bind_Ok.
  assert (Vn : valid (of_ns code_next)) by (apply of_ns_valid; unfold roomy; lia).
  rewrite (sub_eq (of_ns code_next) (last_time_ l)), res_bind_Ok by (done || rewrite ?ToNSec_of_ns; unfold roomy; lia).
  rewrite !ToNSec_of_ns.
  assert (Hq : Z.quot (code_next - ToNSec (last_time_ l)) i = r) by (rewrite Hm; apply Z.quot_mul; lia).
  rewrite cdiv_ok, res_bind_Ok by (rewrite ?Hq; unfold in_signed in *; cbn in *; lia). rewrite Hq.
  rewrite (swrap_small 32 r) by (done || lia).
  pose proof Vi as [Vi1 Vi2].
  assert (in_signed 32 (sec_ (interval_ l) * r)).
  { unfold in_signed, ToNSec, kNSecInSec in *. cbn in *. nia. }
  rewrite mul_eq, res_bind_Ok by (done || (unfold roomy; lia)).
  rewrite eqb_ns, !ToNSec_of_ns by (apply of_ns_valid; unfold roomy; lia).
  rewrite (Z.mul_comm i r), <-Hm, Z.eqb_refl. cbn [check]. rewrite res_bind_Ok.
  rewrite (sub_eq (of_ns code_next) (offset_ l)), res_bind_Ok by (done || rewrite ?ToNSec_of_ns; unfold roomy; lia).
  rewrite !ToNSec_of_ns.
  assert (Hrem : Z.rem (code_next - o) i = 0) by (apply Z.rem_mod_eq_0; [lia|done]).
  rewrite cmod_ok, res_bind_Ok; [|lia|]; cycle 1.
  { pose proof (Z.quot_rem' (code_next - o) i). unfold in_signed. cbn. nia. }
  rewrite Hrem, Z.eqb_refl. cbn [check]. rewrite res_bind_Ok.
  rewrite geb_ns, ToNSec_of_ns by done.
  destruct (Z.leb_spec n code_next); [|lia]. cbn [check]. rewrite res_bind_Ok.
  rewrite (sub_eq (of_ns code_next) now), res_bind_Ok by (done || rewrite ?ToNSec_of_ns; unfold roomy; lia).
  rewrite ToNSec_of_ns, leb_ns, ToNSec_of_ns by (done || (apply of_ns_valid; unfold roomy; lia)).
  pose proof next_ns_bounds. rewrite code_next_eq by done.
  destruct (negb (n <? o) && ((n - o + 1) mod i =? 0)) eqn:E.
  - destruct (Z.leb_spec (next_ns i o n + i - n) i); [lia|done].
  - destruct (Z.leb_spec (next_ns i o n - n) i); [done|lia].
Qed.
End Loop.
