(* ===== verification/TimeTheorems.v ===== *)
(** * What Time and PhasedLoop guarantee *)

From S2P Require Import Prelude SharedMem Time TimeProofs.

(** Sums, differences and comparisons of times are sums, differences and
    comparisons of nanoseconds: within the range of an int32_t of seconds
    nothing overflows, [0 <= nsec_ < kNSecInSec] is kept, and the results are
    exact, negative times included. *)
Theorem time_add_sub_exact a b :
  valid a → valid b →
  (roomy (ToNSec a + ToNSec b) →
     ∃ t, Time_add a b = Ok t ∧ valid t ∧ ToNSec t = ToNSec a + ToNSec b) ∧
  (roomy (ToNSec a - ToNSec b) →
     ∃ t, Time_sub a b = Ok t ∧ valid t ∧ ToNSec t = ToNSec a - ToNSec b) ∧
  Time_ltb a b = (ToNSec a <? ToNSec b) ∧ Time_leb a b = (ToNSec a <=? ToNSec b) ∧
  Time_eqb a b = (ToNSec a =? ToNSec b).
Proof.
  intros Va Vb. split_and!.
  - intros H. eexists. split; [by apply add_eq|]. split; [by apply of_ns_valid|apply ToNSec_of_ns].
  - intros H. eexists. split; [by apply sub_eq|]. split; [by apply of_ns_valid|apply ToNSec_of_ns].
  - by apply ltb_ns.
  - by apply leb_ns.
  - by apply eqb_ns.
Qed.

Lemma time_add_sub_exact_witness :
  ∃ t, Time_add (mkTime (-5) 700000000) (mkTime 3 600000000) = Ok t ∧ valid t ∧
    ToNSec t = ToNSec (mkTime (-5) 700000000) + ToNSec (mkTime 3 600000000).
Proof.
  refine (proj1 (time_add_sub_exact (mkTime (-5) 700000000) (mkTime 3 600000000) _ _) _);
    try (unfold roomy; vm_compute; split; congruence);
    (split; [split; cbn; lia|cbn; lia]).
Defined.

(** Multiplication by an int32_t is exact, division by a divisor of a
    second is the floor of the exact quotient (also for negative times), and
    modulus by less than a second is the remainder of the nanoseconds, with
    the sign of the dividend; above a second it is not: 5 s modulo 1.5 s gives
    1.5 s. *)
Theorem time_mul_div_mod a r :
  valid a →
  (in_signed 32 r → in_signed 32 (sec_ a * r) → roomy (ToNSec a * r) →
     ∃ t, Time_mul a r = Ok t ∧ valid t ∧ ToNSec t = ToNSec a * r) ∧
  (0 < r < 2 ^ 31 → kNSecInSec mod r = 0 →
     ∃ t, Time_div a r = Ok t ∧ ToNSec t = ToNSec a / r) ∧
  (r ≠ 0 → Z.abs r < kNSecInSec → ∃ t, Time_mod a r = Ok t ∧ ToNSec t = Z.rem (ToNSec a) r) ∧
  Time_mod (mkTime 5 0) 1500000000 = Ok (mkTime 1 500000000).
Proof.
  intros V. split_and!.
  - intros. eexists. split; [by apply mul_eq|]. split; [by apply of_ns_valid|apply ToNSec_of_ns].
  - intros. eexists. split; [by apply div_eq|apply ToNSec_of_ns].
  - intros. eexists. split; [by apply mod_eq|apply ToNSec_of_ns].
  - reflexivity.
Qed.

Lemma time_mul_div_mod_witness :
  (∃ t, Time_div (mkTime (-3) 700000000) 8 = Ok t ∧ ToNSec t = ToNSec (mkTime (-3) 700000000) / 8) ∧
  (∃ t, Time_mod (mkTime (-3) 700000000) 8 = Ok t ∧ ToNSec t = Z.rem (ToNSec (mkTime (-3) 700000000)) 8).
Proof.
  destruct (time_mul_div_mod (mkTime (-3) 700000000) 8 ltac:(split; [split; cbn; lia|cbn; lia])) as (_ & Hd & Hm & _).
  split; [apply Hd; [lia|reflexivity]|apply Hm; [lia|reflexivity]].
Defined.

(** Conversions: any int of micro- or milliseconds becomes exactly that
    time; a number of nanoseconds does too, except that for a negative
    multiple of a second (or one nanosecond more than one) [InNS] computes
    [nsec_ >= kNSecInSec] and stops the program; negation stops the program
    exactly when [nsec_] is 0 (where [abs] is right), and is exact otherwise. *)
Theorem time_conversions :
  (∀ n, in_signed 32 n → ∃ t, InUS n = Ok t ∧ ToNSec t = n * kNSecInUSec) ∧
  (∀ n, in_signed 32 n → ∃ t, InMS n = Ok t ∧ ToNSec t = n * kNSecInMSec) ∧
  (∀ n, roomy n →
     if InNS_bad n then InNS n = Err Fatal else ∃ t, InNS n = Ok t ∧ ToNSec t = n) ∧
  (∀ a, valid a → - 2 ^ 31 < sec_ a →
     (if nsec_ a =? 0 then Time_neg a = Err Fatal
      else ∃ t, Time_neg a = Ok t ∧ ToNSec t = - ToNSec a) ∧
     ∃ t, abs a = Ok t ∧ ToNSec t = Z.abs (ToNSec a)).
Proof.
  split_and!.
  - intros n Hn. eexists. split; [by apply InUS_eq|apply ToNSec_of_ns].
  - intros n Hn. eexists. split; [by apply InMS_eq|apply ToNSec_of_ns].
  - intros n Hn. rewrite InNS_eq by done. destruct (InNS_bad n); [done|].
    eexists. split; [done|apply ToNSec_of_ns].
  - intros a V Hs. split.
    + rewrite neg_eq by done. destruct (nsec_ a =? 0); [done|].
      eexists. split; [done|apply ToNSec_of_ns].
    + eexists. split; [by apply abs_eq|apply ToNSec_of_ns].
Qed.

(** [PhasedLoop::Iterate] moves to the first phase
    [offset + k * interval] strictly after [now], at most one interval away,
    and returns the number of phases passed since the last one, which is
    exact.  It stops the program (its own CHECK fails) exactly when [now] is
    not before the offset and one nanosecond before a phase, or, before the
    offset, when it runs into [InNS]'s bad values. *)
Theorem phased_loop_iterate l now :
  loop_ok l → valid now → Z.abs (ToNSec now) ≤ loop_bound →
  let i := ToNSec (interval_ l) in
  let o := ToNSec (offset_ l) in
  let n := ToNSec now in
  in_signed 32 ((code_next l now - ToNSec (last_time_ l)) / i) →
  if phase_bad l now || (negb (n <? o) && ((n - o + 1) mod i =? 0))
  then Iterate l now = Err Fatal
  else ∃ r l', Iterate l now = Ok (r, l') ∧ loop_ok l' ∧
    n < ToNSec (last_time_ l') ≤ n + i ∧
    ToNSec (last_time_ l') = next_ns i o n ∧
    r * i = ToNSec (last_time_ l') - ToNSec (last_time_ l) ∧
    interval_ l' = interval_ l ∧ offset_ l' = offset_ l.
Proof.
  intros LO V Hn i o n Hr. rewrite (Iterate_eq l now LO V Hn Hr). fold i o n.
  destruct (phase_bad l now); [done|].
  pose proof (next_ns_bounds l now LO) as Hb. fold i o n in Hb.
  destruct (phase_multiple l now LO Hn) as [Hm Hm'].
  pose proof (code_next_eq l now LO Hn) as Hc. fold i o n in Hc, Hm, Hm'.
  cbn [orb]. destruct (negb (n <? o) && ((n - o + 1) mod i =? 0)); [done|]. rewrite Hc in *.
  eexists _, _. split; [done|]. cbn [interval_ offset_ last_time_]. rewrite ToNSec_of_ns.
  destruct LO as [L1 L2 L3 L4]. unfold loop_bound in *. fold i in L1, L2. fold o in L2.
  split_and!; try done; try lia.
  split; cbn [interval_ offset_ last_time_]; try done.
  - rewrite ToNSec_of_ns. split; [apply of_ns_valid; unfold roomy; lia|]. unfold loop_bound. lia.
  - by rewrite ToNSec_of_ns.
Qed.

Lemma phased_loop_iterate_witness :
  ∃ r l', Iterate (mkLoop (mkTime 0 100000000) (mkTime 0 1000000) (mkTime 0 1000000)) (mkTime 0 600000000)
      = Ok (r, l') ∧ ToNSec (last_time_ l') = 601000000.
Proof.
  destruct (phased_loop_iterate (mkLoop (mkTime 0 100000000) (mkTime 0 1000000) (mkTime 0 1000000))
    (mkTime 0 600000000)) as (r & l' & H1 & _ & _ & H2 & _).
  - split; cbn; repeat split; (lia || done || (vm_compute; congruence)).
  - split; [split; cbn; lia|cbn; lia].
  - vm_compute. congruence.
  - split; vm_compute; congruence.
  - exists r, l'. split; [exact H1|exact H2].
Defined.

Lemma Now_real reading c off t o r :
  of_timespec reading = Ok t → of_timespec off = Ok o → Time_add t o = Ok r →
  Now reading (mkClock false c (Some off)) = Ok (r, mkClock false c (Some off)).
Proof.
  intros Ht Ho Hr. unfold Now, NowImpl. cbn [mock_time_enabled segment_offset].
  change (default (mkTimespec 0 0) (Some off)) with off. by rewrite Ht, !res_bind_Ok, Ho, !res_bind_Ok, Hr.
Qed.

(** After [OffsetToNow now] the clock, read at the same instant, shows
    [now]; while a [TimeFreezer] is alive every reading is the one it was
    made at, and mocking is off again afterwards. *)
Theorem clock_control s reading now t0 other {A} (body : MC A) :
  mock_time_enabled s = false → segment_offset s ≠ None →
  of_timespec reading = Ok t0 → valid now → valid t0 → roomy (ToNSec now - ToNSec t0) →
  roomy (ToNSec now) →
  (∃ s', OffsetToNow reading now s = Ok (tt, s') ∧ Now reading s' = Ok (now, s')) ∧
  (∀ t s1, Now reading s = Ok (t, s1) →
     Now other (mkClock true t (segment_offset s)) = Ok (t, mkClock true t (segment_offset s)) ∧
     ∀ a s2, body (mkClock true t (segment_offset s)) = Ok (a, s2) →
       TimeFreezer reading body s =
         Ok (a, mkClock false (current_mock_time s2) (segment_offset s2))).
Proof.
  intros Hm Hs Ht Vn Vt Hr Hrn. destruct s as [m c off]. cbn in Hm, Hs. subst m.
  destruct off as [off|]; [|done]. clear Hs.
  assert (Hz : of_timespec (mkTimespec 0 0) = Ok (mkTime 0 0)) by reflexivity.
  assert (Ht0 : Time_add t0 (mkTime 0 0) = Ok t0).
  { pose proof (ToNSec_bound t0 Vt). destruct Vt as [V1 V2].
    unfold Time_add, in_signed, kNSecInSec in *. cbn [sec_ nsec_] in *. rewrite !Z.add_0_r.
    rchk (sec_ t0). rchk (nsec_ t0). destruct (Z.leb_spec 1000000000 (nsec_ t0)); [lia|]. by destruct t0. }
  split.
  - eexists. split.
    + unfold OffsetToNow. erewrite st_bind_step by done.
      erewrite st_bind_step by (by apply (Now_real _ _ _ t0 (mkTime 0 0) t0)).
      unfold mbind, st_bind, st_lift. rewrite sub_eq by done. done.
    + cbn [mock_time_enabled current_mock_time].
      set (d := of_ns (ToNSec now - ToNSec t0)). assert (Vd : valid d) by by apply of_ns_valid.
      assert (of_timespec (ToTimespec d) = Ok d) as Hd.
      { unfold of_timespec, ToTimespec. cbn [tv_sec tv_nsec].
        rewrite (Time_new_eq (sec_ d) (nsec_ d) (ToNSec d)); [|done|apply Vd|apply Vd].
        f_equal. apply of_ns_ToNSec, Vd. }
      apply (Now_real _ _ _ t0 d); [done|done|].
      assert (Hsum : ToNSec t0 + ToNSec d = ToNSec now) by (unfold d; rewrite ToNSec_of_ns; lia).
      rewrite add_eq, Hsum by (rewrite ?Hsum; done). by rewrite of_ns_ToNSec by apply Vn.
  - intros t s1 HN. split; [done|]. intros a s2 Hb.
    assert (s1 = mkClock false c (Some off)) as ->.
    { unfold Now, NowImpl in HN. cbn [mock_time_enabled] in HN. rewrite Ht, res_bind_Ok in HN.
      apply res_bind_ok in HN as (? & _ & HN). apply res_bind_ok in HN as (? & _ & [= _ <-]). done. }
    unfold TimeFreezer. rewrite (st_bind_step _ _ _ _ _ HN). cbn [segment_offset] in Hb.
    unfold mbind, st_bind, EnableMockTime. cbn [segment_offset]. rewrite Hb. done.
Qed.

Lemma clock_control_witness :
  ∃ s', OffsetToNow (mkTimespec 100 5) (mkTime 7 3) (mkClock false kZero (Some (mkTimespec 0 0)))
      = Ok (tt, s') ∧ Now (mkTimespec 100 5) s' = Ok (mkTime 7 3, s').
Proof.
  refine (proj1 (clock_control (mkClock false kZero (Some (mkTimespec 0 0))) (mkTimespec 100 5)
    (mkTime 7 3) (mkTime 100 5) (mkTimespec 0 0) (Now (mkTimespec 0 0)) eq_refl _ eq_refl _ _ _ _));
    [done|split; [split; cbn; lia|cbn; lia]|split; [split; cbn; lia|cbn; lia]|..];
    unfold roomy; vm_compute; split; congruence.
Defined.
