(* ===== verification/TypedQueue.v ===== *)
(** * Typed queues: aos/common/queue.h, queue.cc and aos/linux_code/queue-tmpl.h

    [Queue<T>] is the object a process uses to send and receive messages of
    one type: it finds its [RawQueue] on first use, keeps an index of its own
    and owns at most one message through a [ScopedMessagePtr].  The bodies of
    messages live in shared memory next to the headers: [cells] maps the
    address of a message to the [T] stored there.  The members of [T] that the
    build generates ([Zero], the builder's setters) are a value and a function
    on the body. *)

From S2P Require Import Prelude Options SharedMem RawQueue ByteOrder QueueTypes Time.

(** ** The base class of all messages *)

Record Message (V : Type) := mkMessage { sent_time : Time; body : V }.
Arguments mkMessage {V} _ _.
Arguments sent_time {V} _.
Arguments body {V} _.

(** [Message::Zero]: the two setters of [Time], the second of which checks. *)
Definition Message_Zero (t : Time) : res Time := set_nsec 0 (set_sec 0 t).

(** [Message::Size], [Serialize] and [Deserialize]: the common field. *)
Definition Message_Size : Z := 8.

Definition Message_Serialize (t : Time) (buffer : bytes) : res (Z * bytes) :=
  buffer ← put 0 (to_network 4 (sec_ t)) buffer;
  buffer ← put 4 (to_network 4 (nsec_ t)) buffer;
  Ok (Message_Size, buffer).

(** [to_host] into an [int32_t]. *)
Definition get_int32 (pos : Z) (buffer : bytes) : res Z :=
  v ← get_int pos 4 buffer; Ok (swrap 32 v).

Definition Message_Deserialize (t : Time) (buffer : bytes) : res (Z * Time) :=
  sec ← get_int32 0 buffer;
  nsec ← get_int32 4 buffer;
  t ← set_nsec nsec (set_sec sec t);
  Ok (Message_Size, t).

(** ** Owned messages and queue objects *)

Record ScopedMessagePtr := mkScoped { sp_queue_ : Z; sp_msg_ : Z }.

Record Queue := mkTyped {
  queue_name_ : string;
  queue_ : Z;
  index_ : Z;
  queue_msg_ : ScopedMessagePtr }.

Definition Queue_new (queue_name : string) : Queue := mkTyped queue_name 0 0 (mkScoped 0 0).

(** What [sizeof(T)], [T::kHash] and [T::kQueueLength] are. *)
Record message_class := mkClass { sizeof_T : Z; kHash : Z; kQueueLength : Z }.

Section Typed.
Context {V : Type} (T : message_class) (zero : V).

(** Shared memory as this process sees it: the queues, the bodies. *)
Record world := mkWorld { mem : shm; cells : gmap Z (Message V) }.

Notation MW := (ST world).

Definition set_mem (s : shm) (w : world) : world := mkWorld s (cells w).
Definition set_cells (c : gmap Z (Message V)) (w : world) : world := mkWorld (mem w) c.

(** A queue operation on the shared memory. *)
Definition raw {A} (p : M A) : MW A := λ w,
  match p (mem w) with Ok (a, s) => Ok (a, set_mem s w) | Err e => Err e end.

(** Stores and loads through a [T*]; NULL is not an object. *)
Definition store_cell (m : Z) (v : Message V) : MW unit := λ w,
  if m =? 0 then Err Undefined else Ok (tt, set_cells (<[m := v]> (cells w)) w).
Definition load_cell (m : Z) : MW (Message V) := λ w,
  if m =? 0 then Err Undefined
  else match cells w !! m with Some v => Ok (v, w) | None => Err Undefined end.

(** ** ScopedMessagePtr *)

Definition reset (p : ScopedMessagePtr) (msg : Z) : MW ScopedMessagePtr :=
  _ ← (if negb (sp_queue_ p =? 0) && negb (sp_msg_ p =? 0)
       then raw (FreeMessage 1 (sp_queue_ p) (sp_msg_ p)) else mret tt);
  mret (mkScoped (sp_queue_ p) msg).

Definition set_queue (p : ScopedMessagePtr) (queue : Z) : ScopedMessagePtr :=
  mkScoped queue (sp_msg_ p).

(** [msg_->SetTimeToNow()] with the clock showing [now]. *)
Definition SetTimeToNow (m : Z) (now : Time) : MW unit :=
  v ← load_cell m; store_cell m (mkMessage now (body v)).

(** The result of a write that may have to wait: the pointer is given up
    only when the call returns. *)
Definition Send (p : ScopedMessagePtr) (now : Time) : MW (bool * ScopedMessagePtr) :=
  _ ← SetTimeToNow (sp_msg_ p) now;
  r ← raw (WriteMessage 1 (sp_queue_ p) (sp_msg_ p) (of_Option kOverride));
  match r with
  | WDone b => mret (b, mkScoped (sp_queue_ p) 0)
  | WWait => st_stop Abort
  end.

Definition SendBlocking (p : ScopedMessagePtr) (now : Time)
    : MW (option bool * ScopedMessagePtr) :=
  _ ← SetTimeToNow (sp_msg_ p) now;
  r ← raw (WriteMessage 1 (sp_queue_ p) (sp_msg_ p) (of_Option kBlock));
  match r with
  | WDone b => mret (Some b, mkScoped (sp_queue_ p) 0)
  | WWait => mret (None, p)
  end.

(** The destructor. *)
Definition ScopedMessagePtr_destroy (p : ScopedMessagePtr) : MW unit :=
  _ ← reset p 0; mret tt.

(** ** Queue<T> *)

Definition Init (o : Queue) : MW Queue :=
  if queue_ o =? 0 then
    q ← raw (Fetch (queue_name_ o) (sizeof_T T) (kHash T) (kQueueLength T));
    mret (mkTyped (queue_name_ o) q (index_ o) (set_queue (queue_msg_ o) q))
  else mret o.

Definition Clear (o : Queue) : MW Queue :=
  if negb (queue_ o =? 0) then
    p ← reset (queue_msg_ o) 0;
    mret (mkTyped (queue_name_ o) 0 0 (set_queue p 0))
  else mret (mkTyped (queue_name_ o) (queue_ o) 0 (queue_msg_ o)).

(** [ReadMessageIndex(options, &index_)]; [None] is a wait. *)
Definition read_index (o : Queue) (options : Options) : MW (option Z * Queue) :=
  '(r, i) ← raw (ReadMessageIndex (queue_ o) options (index_ o));
  let o := mkTyped (queue_name_ o) (queue_ o) i (queue_msg_ o) in
  match r with RDone m => mret (Some m, o) | RWait => mret (None, o) end.

Definition adopt (o : Queue) (msg : Z) : MW Queue :=
  p ← reset (queue_msg_ o) msg;
  mret (mkTyped (queue_name_ o) (queue_ o) (index_ o) p).

Definition FetchNext (o : Queue) : MW (bool * Queue) :=
  o ← Init o;
  '(msg, o) ← read_index o (of_Option kNonBlock);
  match msg with
  | Some msg =>
      o ← (if negb (msg =? 0) then adopt o msg else mret o);
      mret (negb (msg =? 0), o)
  | None => st_stop Abort
  end.

(** [false]: the caller waits and calls again when it is woken up. *)
Definition FetchNextBlocking (o : Queue) : MW (bool * Queue) :=
  o ← Init o;
  '(msg, o) ← read_index o (of_Option kBlock);
  match msg with
  | Some msg => o ← adopt o msg; mret (true, o)
  | None => mret (false, o)
  end.

Definition kLatestOptions : Options := Option_or kFromEnd kNonBlock.

Definition FetchLatest (o : Queue) : MW (bool * Queue) :=
  o ← Init o;
  '(msg, o) ← read_index o kLatestOptions;
  match msg with
  | Some msg =>
      if negb (msg =? 0) && negb (msg =? sp_msg_ (queue_msg_ o)) then
        o ← adopt o msg;
        mret (true, o)
      else
        _ ← raw (FreeMessage 1 (queue_ o) msg);
        mret (false, o)
  | None => st_stop Abort
  end.

Definition FetchAnother (o : Queue) : MW (bool * Queue) :=
  '(b, o) ← FetchLatest o;
  if (b : bool) then mret (true, o) else FetchNextBlocking o.

(** [get()], [operator->]: the message that was fetched. *)
Definition current (o : Queue) (w : world) : res (Message V) :=
  match load_cell (sp_msg_ (queue_msg_ o)) w with Ok (v, _) => Ok v | Err e => Err e end.

Definition Age (o : Queue) (now : Time) (w : world) : res Time :=
  v ← current o w; Time_sub now (sent_time v).

Definition IsNewerThan (o : Queue) (now age : Time) (w : world) : res bool :=
  if sp_msg_ (queue_msg_ o) =? 0 then Ok false
  else a ← Age o now w; Ok (Time_ltb a age).

Definition IsNewerThanMS (o : Queue) (now : Time) (age : Z) (w : world) : res bool :=
  t ← InMS age; IsNewerThan o now t w.

(** [ret->Zero()] leaves the time zero and a zeroed body. *)
Definition MakeRawMessage (o : Queue) : MW Z :=
  ret ← raw (GetMessage (queue_ o));
  _ ← store_cell ret (mkMessage kZero zero);
  mret ret.

Definition MakeMessage (o : Queue) : MW (ScopedMessagePtr * Queue) :=
  o ← Init o;
  m ← MakeRawMessage o;
  mret (mkScoped (queue_ o) m, o).

(** [MakeWithBuilder().field(...)....Send()]: [fill] is what the setters
    do to the body. *)
Definition send_built (o : Queue) (fill : V → V) (now : Time) : MW (bool * Queue) :=
  '(p, o) ← MakeMessage o;
  v ← load_cell (sp_msg_ p);
  _ ← store_cell (sp_msg_ p) (mkMessage (sent_time v) (fill (body v)));
  '(b, p) ← Send p now;
  _ ← ScopedMessagePtr_destroy p;
  mret (b, o).
End Typed.

Arguments world : clear implicits.
Arguments mkWorld {V} _ _.
