(* ===== verification/TypedQueueProofs.v ===== *)
(** * Typed queues carry values

    Any number of processes share one queue of messages of one type.  Against
    the abstract description (the list of values sent so far, and for each
    object a position in it and the value it shows) every fetch shows the
    value that was sent, and the value an object shows never changes behind
    its back although messages are recycled all the time. *)

From S2P Require Import Prelude Options SharedMem Ring RawQueue QueuePool QueueOps QueueSpec.
From S2P Require Import QueueRead QueueIndex QueueCreate QueueStore QueueSystem QueueFeed Time.
From S2P Require Import TypedQueue.

(** ** The abstract description *)

(** The position of an object and the value it shows. *)
Record view (V : Type) := mkView { v_index : Z; v_value : option V }.
Arguments mkView {V} _ _.
Arguments v_index {V} _.
Arguments v_value {V} _.

Definition spec_next {V} (cap : Z) (sent : list V) (x : view V) : bool * view V :=
  let total := Z.of_nat (length sent) in
  if total <=? v_index x then (false, x)
  else let number := Z.max (v_index x) (total - cap) in
    (true, mkView (number + 1) (sent !! Z.to_nat number)).

Definition spec_latest {V} (sent : list V) (x : view V) : bool * view V :=
  let total := Z.of_nat (length sent) in
  if total <=? v_index x then (false, x) else (true, mkView total (last sent)).

(** ** Running a queue operation on the shared memory *)

Lemma wp_raw {V A} (p : M A) (Q : A → world V → Prop) w :
  wp p (λ a s, Q a (set_mem s w)) (mem w) → wp (raw p) Q w.
Proof. unfold wp, raw. by destruct (p (mem w)) as [[a s]|]. Qed.

Lemma wp_store_cell {V} m v (Q : unit → world V → Prop) w :
  m ≠ 0 → Q tt (set_cells (<[m := v]> (cells w)) w) → wp (store_cell m v) Q w.
Proof. intros. unfold wp, store_cell. by rewrite (proj2 (Z.eqb_neq m 0)). Qed.

Lemma wp_load_cell {V} m v (Q : Message V → world V → Prop) w :
  m ≠ 0 → cells w !! m = Some v → Q v w → wp (load_cell m) Q w.
Proof. intros Hm Hc HQ. unfold wp, load_cell. by rewrite (proj2 (Z.eqb_neq m 0)), Hc by done. Qed.

(** ** The invariant *)

(** What an object owns. *)
Definition own (m : Z) : gmultiset Z := if m =? 0 then ∅ else {[+ m +]}.

Lemma own_in m : m ≠ 0 → m ∈ own m.
Proof. intros. unfold own. rewrite (proj2 (Z.eqb_neq m 0)) by done. multiset_solver. Qed.

Lemma own_zero (held : gmultiset Z) : own 0 ⊎ held = held.
Proof. apply (left_id_L ∅ (⊎)). Qed.

Lemma own_nonzero m : m ≠ 0 → own m = {[+ m +]}.
Proof. intros. unfold own. by rewrite (proj2 (Z.eqb_neq m 0)). Qed.

Lemma own_size m : (size (own m) ≤ 1)%nat.
Proof. unfold own. case_match; [rewrite gmultiset_size_empty|rewrite gmultiset_size_singleton]; lia. Qed.

Lemma swap_held (m c : Z) (others : gmultiset Z) :
  c ≠ 0 → ({[+ m +]} ⊎ (own c ⊎ others)) ∖ {[+ c +]} = {[+ m +]} ⊎ others.
Proof. intros. rewrite own_nonzero by done. multiset_solver. Qed.

Lemma give_back_held (m : Z) (held : gmultiset Z) : ({[+ m +]} ⊎ held) ∖ {[+ m +]} = held.
Proof. multiset_solver. Qed.

Section Typed.
Context {V : Type} (T : message_class) (zero : V) (this : Z) (pool : gset Z) (cap : Z).
Notation msg := (Message V).
Implicit Types (w : world V) (q : RawQueue) (o : Queue) (sent : list msg).

(** At most this many messages may be in clients' hands at once. *)
Definition spare : nat := 19.

Record typed_inv w q (held : gmultiset Z) (written : list Z) sent : Prop := mkTypedInv {
  ti_queue : queue_inv (mem w) this q pool held;
  ti_cap : queue_length_ q = cap;
  ti_pool : cap + Z.of_nat spare < Z.of_nat (size pool);
  ti_bound : cap < 2 ^ 31 - 64;
  ti_history : holds_history q written;
  ti_full : Z.of_nat (length (contents q)) = Z.min (Z.of_nat (length written)) cap;
  ti_nodup : NoDup (contents q);
  ti_sent : length sent = length written;
  ti_cells : ∀ k m v, written !! k = Some m → sent !! k = Some v →
    Z.of_nat (length written) - cap ≤ Z.of_nat k → cells w !! m = Some v }.

(** An object that has found its queue and shows [x]. *)
Record obj_ok w o (written : list Z) (x : view msg) : Prop := mkObjOk {
  ok_queue : queue_ o = this;
  ok_ptr : sp_queue_ (queue_msg_ o) = this;
  ok_this : this ≠ 0;
  ok_index : index_ o = v_index x;
  ok_range : 0 ≤ v_index x ≤ Z.of_nat (length written);
  ok_value : v_value x = (if sp_msg_ (queue_msg_ o) =? 0 then None
                          else cells w !! sp_msg_ (queue_msg_ o));
  ok_shown : sp_msg_ (queue_msg_ o) ≠ 0 → is_Some (v_value x);
  ok_seen : ∀ k m, written !! k = Some m → v_index x ≤ Z.of_nat k →
    m ≠ sp_msg_ (queue_msg_ o) }.

Definition owned o : gmultiset Z := own (sp_msg_ (queue_msg_ o)).

(** *** Consequences *)

Lemma typed_cap_pos w q held written sent : typed_inv w q held written sent → 1 ≤ cap.
Proof. intros [I <- _ _ _ _ _ _ _]. destruct (qi_ring _ _ _ _ _ I). lia. Qed.

Lemma typed_references w q held written sent :
  typed_inv w q held written sent → (size held ≤ spare)%nat →
  references q held ≤ cap + Z.of_nat (size held) ∧ references q held < references_max.
Proof.
  intros [I Hc _ Hb _ Hf _ _ _] Hs. unfold references.
  rewrite gmultiset_size_disj_union, size_list_disj. unfold references_max, spare in *. lia.
Qed.

Lemma typed_free w q held written sent :
  typed_inv w q held written sent → (size held ≤ spare)%nat → free_messages_ q ≠ 0.
Proof.
  intros F Hs. destruct (typed_references _ _ _ _ _ F Hs) as [Hr _].
  destruct F as [I _ Hp _ _ _ _ _ _]. destruct (qi_pool _ _ _ _ _ I) as [fl HP].
  pose proof (pool_free_count _ _ _ _ _ HP).
  pose proof (size_dom_le (list_to_set_disj (contents q) ⊎ held)). unfold references in Hr.
  pose proof (pool_chain _ _ _ _ _ HP) as Hch. destruct fl; [cbn in *; lia|].
  by destruct Hch as (-> & ? & _).
Qed.

(** The contents are the last entries of the history. *)
Lemma typed_contents w q held written sent :
  typed_inv w q held written sent →
  contents q = drop (length written - length (contents q)) written.
Proof.
  intros [_ _ _ _ [_ [pre E]] _ _ _ _]. rewrite E at 2. rewrite drop_app_length'; [done|].
  rewrite E, length_app. lia.
Qed.

Lemma typed_lookup w q held written sent k m :
  typed_inv w q held written sent → written !! k = Some m →
  Z.of_nat (length written) - cap ≤ Z.of_nat k →
  contents q !! (k - (length written - length (contents q)))%nat = Some m.
Proof.
  intros F Hk Hlo. pose proof (lookup_lt_Some _ _ _ Hk).
  pose proof (typed_contents _ _ _ _ _ F) as E. destruct F as [_ _ _ _ _ Hf _ _ _].
  assert (Hd : (length written - length (contents q) ≤ k)%nat) by lia.
  set (d := (length written - length (contents q))%nat) in *.
  rewrite E, lookup_drop, <-Hk. f_equal. lia.
Qed.

(** Entries that are still in the queue are different messages. *)
Lemma typed_distinct w q held written sent j k m m' :
  typed_inv w q held written sent → written !! j = Some m → written !! k = Some m' →
  Z.of_nat (length written) - cap ≤ Z.of_nat j → (j < k)%nat → m ≠ m'.
Proof.
  intros F Hj Hk Hlo Hlt ->.
  pose proof (typed_lookup _ _ _ _ _ _ _ F Hj Hlo) as Aj.
  pose proof (typed_lookup _ _ _ _ _ _ _ F Hk ltac:(lia)) as Ak.
  pose proof (lookup_lt_Some _ _ _ Hk).
  pose proof (NoDup_lookup _ _ _ _ (ti_nodup _ _ _ _ _ F) Aj Ak) as E.
  pose proof (ti_full _ _ _ _ _ F). lia.
Qed.

(** Moving from one state of the queue to another that keeps what it holds. *)
Lemma typed_inv_keep w w' q q' held held' written sent :
  typed_inv w q held written sent → queue_inv (mem w') this q' pool held' →
  cells w' = cells w → contents q' = contents q → messages_ q' = messages_ q →
  ident q' = ident q → typed_inv w' q' held' written sent.
Proof.
  intros [I Hc Hp Hb [Hh1 Hh2] Hf Hn Hs Hv] I' Ec Eq Em Ei.
  split; rewrite ?Eq, ?Ec; try done.
  - by rewrite (ident_cap _ _ Ei).
  - split; [by rewrite Em|by rewrite Eq].
Qed.

Lemma obj_ok_cells w w' o written x : cells w' = cells w → obj_ok w o written x → obj_ok w' o written x.
Proof. intros E []. split; rewrite ?E; done. Qed.

(** *** The operations of an object *)

Lemma wp_adopt w q o m others written sent :
  typed_inv w q ({[+ m +]} ⊎ (owned o ⊎ others)) written sent →
  sp_queue_ (queue_msg_ o) = this → this ≠ 0 → m ≠ 0 →
  wp (adopt o m) (λ o' w',
    o' = mkTyped (queue_name_ o) (queue_ o) (index_ o) (mkScoped this m) ∧
    cells w' = cells w ∧
    ∃ q', typed_inv w' q' (own m ⊎ others) written sent ∧ messages_ q' = messages_ q) w.
Proof.
  intros F Hp Ht Hm. rewrite (own_nonzero m) by done.
  unfold adopt, reset. rewrite Hp, (proj2 (Z.eqb_neq this 0)) by done. cbn [negb andb].
  apply wp_bind, wp_bind.
  destruct (Z.eqb_spec (sp_msg_ (queue_msg_ o)) 0) as [E|Hc]; cbn [negb].
  - do 3 apply wp_ret. split_and!; [done..|]. exists q. split; [|done].
    unfold owned in F. by rewrite E, own_zero in F.
  - apply wp_raw. eapply wp_mono.
    { eapply FreeMessage_post; [apply F|]. unfold owned. rewrite own_nonzero by done. multiset_solver. }
    cbn beta. intros _ s (q' & [F1 F2 F3 F4 F5 F6]). do 2 apply wp_ret.
    split_and!; [done..|]. exists q'. split; [|done].
    unfold owned in F1. rewrite swap_held in F1 by done. by eapply typed_inv_keep.
Qed.

(** What a read through the object's index gives. *)
Definition read_gives (options : Options) q o (r : option Z * Queue) : Prop :=
  if messages_ q <=? index_ o
  then r = (Some 0, o)
  else ∃ m i', spec_read_index (opt_and options kFromEnd) false (messages_ q) (contents q)
      (index_ o) = Some (m, i') ∧ m ≠ 0 ∧
    r = (Some m, mkTyped (queue_name_ o) (queue_ o) i' (queue_msg_ o)).

Lemma wp_read_index w q o options held written sent :
  typed_inv w q held written sent → (size held ≤ spare)%nat → queue_ o = this → 0 ≤ index_ o →
  valid_read options = true → opt_and options kNonBlock = true → opt_and options kPeek = false →
  AllSet options kFromEndAndPeek = false →
  wp (read_index o options) (λ r w',
    read_gives options q o r ∧ cells w' = cells w ∧
    ∃ q', typed_inv w' q' (match r.1 with Some m => own m ⊎ held | None => held end) written sent ∧
      messages_ q' = messages_ q) w.
Proof.
  intros F Hs Hq Hi Hv Hn Hpk Ha. pose proof (typed_cap_pos _ _ _ _ _ F) as Hcap.
  destruct (typed_references _ _ _ _ _ F Hs) as [_ Hr].
  pose proof F as [I Hc _ _ [Ht _] Hf _ _ _].
  unfold read_index. rewrite Hq. apply wp_bind, wp_raw. unfold wp at 1.
  rewrite ReadMessageIndex_valid by done.
  eapply wp_mono; [by apply (DoReadMessageIndex_refines (mem w) this q pool held I options)|].
  cbn beta. intros [r i'] s (q' & H). unfold index_outcome, read_blocked in H. unfold read_gives.
  assert (data_start_ q = data_end_ q ↔ messages_ q = 0) as Hempty.
  { rewrite (empty_iff q (qi_ring _ _ _ _ _ I)). rewrite <-length_zero_iff_nil. lia. }
  destruct (Z.leb_spec (messages_ q) (index_ o)) as [Hle|Hlt].
  - rewrite orb_true_r in H.
    destruct H as [[= -> ->] [N1 N2 N3 N4 N5 N6 N7]].
    unfold nothing_result. rewrite Hn. apply wp_ret.
    split_and!; [by destruct o; cbn in *; subst|done|]. exists q'. split; [|done].
    cbn [fst]. rewrite own_zero. by eapply typed_inv_keep.
  - rewrite orb_false_r, (proj2 (Z.eqb_neq _ _)) in H
      by (rewrite Hempty; lia).
    destruct H as (m & i2 & Hm & [= -> ->] & [R1 R2 R3 R4 R5 R6]). rewrite Hpk in Hm.
    assert (m ≠ 0) as Hm0 by (eapply held_message_nonzero; [exact R1|apply ms_add_self]).
    apply wp_ret. split_and!; [exists m, i2; by rewrite Hq|done|]. exists q'. split; [|done].
    cbn [fst]. rewrite own_nonzero by done. by eapply typed_inv_keep.
Qed.

(** An object that takes number [n] shows its value from then on. *)
Lemma obj_ok_adopted w w' q held written sent o (n : nat) i m (x : view msg) :
  obj_ok w o written x → typed_inv w' q held written sent → written !! n = Some m → m ≠ 0 →
  Z.of_nat (length written) - cap ≤ Z.of_nat n → i = Z.of_nat n + 1 →
  obj_ok w' (mkTyped (queue_name_ o) (queue_ o) i (mkScoped this m)) written
    (mkView i (sent !! n)).
Proof.
  intros [O1 O2 O3 _ _ _ _ _] F Hn Hm Hlo ->. pose proof (lookup_lt_Some _ _ _ Hn) as Hlt.
  destruct (lookup_lt_is_Some_2 sent n) as [v Hv]; [by rewrite (ti_sent _ _ _ _ _ F)|].
  pose proof (ti_cells _ _ _ _ _ F n m v Hn Hv Hlo) as Hcell.
  split; cbn; try done; [lia| |].
  { by rewrite (proj2 (Z.eqb_neq m 0)), Hv, Hcell. }
  intros k m' Hk Hle ->. eapply (typed_distinct _ _ _ _ _ n k m m F); [done..|lia|done].
Qed.

(** What a fetch does to the object, the others undisturbed. *)
Definition fetch_post_typed (spec : bool * view msg) w q others written sent
    (r : bool * Queue) w' : Prop :=
  r.1 = spec.1 ∧ obj_ok w' r.2 written spec.2 ∧ cells w' = cells w ∧
  ∃ q', typed_inv w' q' (owned r.2 ⊎ others) written sent ∧ messages_ q' = messages_ q.

Lemma Init_done w o Q : queue_ o ≠ 0 → Q o w → wp (Init T o) Q w.
Proof. intros. unfold Init. rewrite (proj2 (Z.eqb_neq _ _)) by done. by apply wp_ret. Qed.

Lemma wp_FetchNext w q o others written sent x :
  typed_inv w q (owned o ⊎ others) written sent → obj_ok w o written x →
  (size (owned o ⊎ others) ≤ spare)%nat →
  wp (FetchNext T o) (fetch_post_typed (spec_next cap sent x) w q others written sent) w.
Proof.
  intros F O Hs. pose proof O as [O1 O2 O3 O4 O5 O6 O7 O8].
  unfold FetchNext. apply wp_bind, Init_done; [by rewrite O1|].
  apply wp_bind. eapply wp_mono; [eapply (wp_read_index w q o (of_Option kNonBlock)); (done || lia)|].
  cbn beta. intros [r o'] w1 (Hr & Hc & q1 & F1 & Hm1). unfold read_gives in Hr.
  pose proof F as [_ _ _ _ [Ht _] Hf _ Hsent _]. pose proof (typed_cap_pos _ _ _ _ _ F).
  unfold spec_next. rewrite Hsent, <-O4, <-Ht.
  destruct (Z.leb_spec (messages_ q) (index_ o)) as [Hle|Hlt].
  - injection Hr as -> ->. cbn [Z.eqb negb]. apply wp_bind, wp_ret, wp_ret.
    cbn [fst] in F1. rewrite own_zero in F1.
    split_and!; [done|by eapply obj_ok_cells|done|by exists q1].
  - destruct Hr as (m & i' & Hsp & Hm0 & [= -> ->]). change (opt_and (of_Option kNonBlock) kFromEnd) with false in Hsp.
    apply (spec_read_index_history q written) in Hsp as [Hw ->]; [|apply F|lia].
    cbn [fst] in F1. rewrite (own_nonzero m) in F1 by done.
    rewrite (proj2 (Z.eqb_neq m 0)) by done. cbn [negb].
    apply wp_bind. eapply wp_mono; [eapply (wp_adopt w1 q1 _ m others written sent); [exact F1|done..]|].
    cbn beta. intros o2 w2 (-> & Hc2 & q2 & F2 & Hm2). apply wp_ret. cbn [fst snd queue_name_ queue_ index_].
    set (num := Z.max (index_ o) (messages_ q - Z.of_nat (length (contents q)))) in *.
    replace (Z.max (index_ o) (messages_ q - cap)) with num by lia.
    pose proof (lookup_lt_Some _ _ _ Hw).
    split_and!; [done| |by rewrite Hc2|].
    + eapply (obj_ok_adopted w w2 q2); [done|exact F2|done|done|lia|lia].
    + exists q2. unfold owned. cbn. split; [done|]. by rewrite Hm2.
Qed.

Lemma wp_FetchLatest w q o others written sent x :
  typed_inv w q (owned o ⊎ others) written sent → obj_ok w o written x →
  (size (owned o ⊎ others) ≤ spare)%nat →
  wp (FetchLatest T o) (fetch_post_typed (spec_latest sent x) w q others written sent) w.
Proof.
  intros F O Hs. pose proof O as [O1 O2 O3 O4 O5 O6 O7 O8].
  unfold FetchLatest. apply wp_bind, Init_done; [by rewrite O1|].
  apply wp_bind. eapply wp_mono; [eapply (wp_read_index w q o kLatestOptions); (done || lia)|].
  cbn beta. intros [r o'] w1 (Hr & Hc & q1 & F1 & Hm1). unfold read_gives in Hr.
  pose proof F as [_ _ _ _ [Ht [pre Hpre]] Hf _ Hsent _]. pose proof (typed_cap_pos _ _ _ _ _ F).
  unfold spec_latest. rewrite Hsent, <-O4, <-Ht.
  destruct (Z.leb_spec (messages_ q) (index_ o)) as [Hle|Hlt].
  - injection Hr as -> ->. cbn [Z.eqb negb andb]. apply wp_bind, wp_raw.
    unfold FreeMessage. cbn [Z.eqb negb]. do 2 apply wp_ret.
    cbn [fst] in F1. rewrite own_zero in F1.
    split_and!; [done|by eapply obj_ok_cells|done|]. exists q1. split; [|done].
    by eapply typed_inv_keep; [exact F1|apply F1|..].
  - destruct Hr as (m & i' & Hsp & Hm0 & [= -> ->]). change (opt_and kLatestOptions kFromEnd) with true in Hsp.
    unfold spec_read_index in Hsp. destruct (last (contents q)) as [m'|] eqn:Hl; [|done].
    injection Hsp as -> <-. cbn [fst] in F1. rewrite (own_nonzero m) in F1 by done.
    assert (Hw : written !! (length written - 1)%nat = Some m).
    { rewrite last_lookup in Hl. rewrite Hpre, lookup_app_r, length_app by (rewrite length_app; lia).
      rewrite <-Hl. f_equal. lia. }
    rewrite (proj2 (Z.eqb_neq m 0)) by done. cbn [negb andb queue_msg_].
    rewrite (proj2 (Z.eqb_neq m (sp_msg_ (queue_msg_ o)))) by (eapply O8; [exact Hw|lia]). cbn [negb].
    apply wp_bind. eapply wp_mono; [eapply (wp_adopt w1 q1 _ m others written sent); [exact F1|done..]|].
    cbn beta. intros o2 w2 (-> & Hc2 & q2 & F2 & Hm2). apply wp_ret. cbn [fst snd queue_name_ queue_ index_].
    rewrite last_lookup, Hsent, <-Nat.sub_1_r.
    split_and!; [done| |by rewrite Hc2|].
    + eapply (obj_ok_adopted w w2 q2); [done|exact F2|done|done|lia|lia].
    + exists q2. unfold owned. cbn. split; [done|]. by rewrite Hm2.
Qed.

(** *** Sending *)

(** A new message [m] with the value [v] was stored and written. *)
Lemma typed_inv_sent w w' q q' held written sent m v :
  typed_inv w q held written sent → queue_inv (mem w') this q' pool held →
  m ∉ contents q → cells w' = <[m := v]> (cells w) →
  spec_write cap Overriding (contents q) m = (WDone true, contents q') →
  messages_ q' = messages_ q + 1 → ident q' = ident q →
  typed_inv w' q' held (written ++ [m]) (sent ++ [v]).
Proof.
  intros F I' Hm Ec Hw Ht Ei. pose proof (typed_cap_pos _ _ _ _ _ F).
  pose proof F as [I Hc Hp Hb Hh Hf Hn Hs Hv].
  assert (Hc' : contents q' = contents q ++ [m] ∧ Z.of_nat (length (contents q)) < cap ∨
    contents q' = drop 1 (contents q) ++ [m] ∧ Z.of_nat (length (contents q)) = cap).
  { unfold spec_write in Hw. destruct (Z.ltb_spec (Z.of_nat (length (contents q))) cap);
      injection Hw as <-; [by left|right; split; [done|lia]]. }
  split; try done.
  - by rewrite (ident_cap _ _ Ei).
  - eapply (spec_write_history q q' written _ m (WDone true)); [done|by rewrite Hc|done].
  - rewrite length_app. destruct Hc' as [[-> ?]|[-> ?]]; rewrite length_app, ?length_drop; cbn; lia.
  - assert (NoDup (contents q ++ [m])) as Hnd.
    { apply NoDup_app. split_and!; [done| |apply NoDup_singleton]. set_solver. }
    destruct Hc' as [[-> ?]|[-> ?]]; [done|].
    destruct (contents q); [done|]. cbn. rewrite drop_0. by apply NoDup_cons in Hnd as [_ ?].
  - rewrite !length_app. cbn. lia.
  - intros k m' v' Hk Hv' Hlo. rewrite length_app in Hlo. cbn in Hlo. rewrite Ec.
    apply lookup_app_Some in Hk as [Hk|[Hge Hk]].
    + pose proof (lookup_lt_Some _ _ _ Hk). rewrite lookup_app_l in Hv' by lia.
      rewrite lookup_insert_ne; [eapply Hv; [done..|lia]|]. intros ->.
      apply Hm. eapply list_elem_of_lookup_2, (typed_lookup _ _ _ _ _ _ _ F Hk). lia.
    + apply list_lookup_singleton_Some in Hk as [Hk <-].
      rewrite lookup_app_r in Hv' by lia. apply list_lookup_singleton_Some in Hv' as [_ <-].
      apply lookup_insert_eq.
Qed.

Lemma wp_send_built w q o held written sent x fill now :
  typed_inv w q held written sent → obj_ok w o written x →
  (size held ≤ spare)%nat → messages_ q + 1 < 2 ^ 31 →
  wp (send_built T zero o fill now) (λ r w', r = (true, o) ∧ ∃ m q',
    typed_inv w' q' held (written ++ [m]) (sent ++ [mkMessage now (fill zero)]) ∧
    messages_ q' = messages_ q + 1 ∧ m ≠ 0 ∧ m ∉ held ∧
    ∀ m', m' ∈ held → cells w' !! m' = cells w !! m') w.
Proof.
  intros F O Hs Hmax. pose proof O as [O1 O2 O3 _ _ _ _ _].
  pose proof (typed_free _ _ _ _ _ F Hs) as Hfree.
  destruct (typed_references _ _ _ _ _ F Hs) as [_ Hr].
  unfold send_built, MakeMessage, MakeRawMessage.
  apply wp_bind, wp_bind, Init_done; [by rewrite O1|]. rewrite O1. do 2 apply wp_bind.
  apply wp_raw. eapply wp_mono; [eapply (GetMessage_post (mem w) this q pool held); [apply F|done..]|].
  cbn beta. intros m s1 (q1 & [G1 [G2a G2b] G3 G4 G5 G6 G7 G8]).
  apply wp_bind, wp_store_cell; [done|]. do 2 apply wp_ret.
  cbn [sp_msg_ sp_queue_ queue_]. apply wp_bind.
  eapply wp_load_cell; [done|apply lookup_insert_eq|].
  apply wp_bind, wp_store_cell; [done|]. unfold Send, SetTimeToNow. cbn [sp_msg_ sp_queue_].
  do 3 apply wp_bind.
  eapply wp_load_cell; [done|apply lookup_insert_eq|]. apply wp_store_cell; [done|].
  apply wp_bind, wp_raw. unfold wp at 1. rewrite WriteMessage_valid by done.
  eapply wp_mono; [eapply (DoWriteMessage_refines _ this q1 pool ({[+ m +]} ⊎ held));
    [exact G1|apply ms_add_self|by rewrite G5]|].
  cbn beta. intros r s2 (q2 & [W1 W2 W3 W4 W5 W6]).
  change (mode_of (of_Option kOverride)) with Overriding in W2.
  rewrite G4, (ident_cap _ _ G6), (ti_cap _ _ _ _ _ F) in W2.
  assert (r = WDone true) as ->.
  { unfold spec_write in W2. by destruct (_ <? _); injection W2 as <- _. }
  cbn [held_after] in W1. rewrite give_back_held in W1.
  apply wp_ret. unfold ScopedMessagePtr_destroy, reset. cbn [sp_msg_ sp_queue_].
  rewrite andb_false_r. repeat (apply wp_bind || apply wp_ret).
  split; [by destruct o; cbn in *; subst|]. exists m, q2. split_and!; [|by rewrite W3, G5|done|done|].
  - eapply (typed_inv_sent w _ q q2); [done|exact W1|done| |done|by rewrite W3, G5|by rewrite W4].
    cbn. by rewrite !insert_insert_eq.
  - intros m' Hm'. cbn. rewrite !lookup_insert_ne by (by intros ->). done.
Qed.

(** What another object shows does not change when a message is sent. *)
Lemma obj_ok_sent w w' o held written m x :
  obj_ok w o written x → owned o ⊆ held → m ≠ 0 → m ∉ held →
  (∀ m', m' ∈ held → cells w' !! m' = cells w !! m') → obj_ok w' o (written ++ [m]) x.
Proof.
  intros [O1 O2 O3 O4 O5 O6 O7 O8] Hsub Hm0 Hm Hcells.
  assert (sp_msg_ (queue_msg_ o) ≠ 0 → sp_msg_ (queue_msg_ o) ∈ held) as Hin.
  { intros H%own_in. unfold owned in Hsub. multiset_solver. }
  split; try done.
  - rewrite length_app. cbn. lia.
  - rewrite O6. destruct (Z.eqb_spec (sp_msg_ (queue_msg_ o)) 0); [done|]. by rewrite Hcells by auto.
  - intros k m' [Hk|[_ Hk]]%lookup_app_Some Hle; [by eapply O8|].
    apply list_lookup_singleton_Some in Hk as [_ <-]. intros ->.
    by apply Hm, Hin.
Qed.

(** ** Many objects on one queue *)

Inductive action : Type :=
| ASend (i : nat) (fill : V → V) (now : Time)
| ANext (i : nat)
| ALatest (i : nat).

(** What the message pointer of an object shows. *)
Definition shows o w : option msg :=
  match current o w with Ok v => Some v | Err _ => None end.

Definition act (objs : list Queue) (a : action) : ST (world V) (bool * option msg * list Queue) :=
  let on (i : nat) (f : Queue → ST (world V) (bool * Queue)) :=
    match objs !! i with
    | None => st_stop Undefined
    | Some o => '(b, o) ← f o; w ← st_get; mret (b, shows o w, <[i := o]> objs)
    end in
  match a with
  | ASend i fill now => on i (λ o, send_built T zero o fill now)
  | ANext i => on i (FetchNext T)
  | ALatest i => on i (FetchLatest T)
  end.

Fixpoint run (objs : list Queue) (acts : list action) : ST (world V) (list (bool * option msg)) :=
  match acts with
  | [] => mret []
  | a :: acts => '(r, objs) ← act objs a; rs ← run objs acts; mret (r :: rs)
  end.

(** The same on the abstract description. *)
Definition spec_act sent (views : list (view msg)) (a : action)
    : option (bool * option msg * (list msg * list (view msg))) :=
  let on (i : nat) (f : view msg → bool * view msg) :=
    x ← views !! i;
    let '(b, x) := f x in
    Some (b, v_value x, (sent, <[i := x]> views)) in
  match a with
  | ASend i fill now =>
      x ← views !! i; Some (true, v_value x, (sent ++ [mkMessage now (fill zero)], views))
  | ANext i => on i (spec_next cap sent)
  | ALatest i => on i (spec_latest sent)
  end.

Fixpoint spec_run sent (views : list (view msg)) (acts : list action)
    : list (bool * option msg) :=
  match acts with
  | [] => []
  | a :: acts =>
      match spec_act sent views a with
      | Some (r, (sent, views)) => r :: spec_run sent views acts
      | None => []
      end
  end.

Fixpoint all_owned (objs : list Queue) : gmultiset Z :=
  match objs with [] => ∅ | o :: objs => owned o ⊎ all_owned objs end.

Record bus_inv w q (objs : list Queue) (written : list Z) sent (views : list (view msg)) : Prop :=
  mkBusInv {
  bus_typed : typed_inv w q (all_owned objs) written sent;
  bus_objs : Forall2 (λ o x, obj_ok w o written x) objs views;
  bus_few : (length objs ≤ spare)%nat }.

Lemma all_owned_split objs i o :
  objs !! i = Some o → all_owned objs = owned o ⊎ all_owned (delete i objs).
Proof.
  revert i. induction objs as [|a objs IH]; intros [|i] H; cbn in *; try done.
  - by injection H as ->.
  - rewrite (IH i H). rewrite !(assoc_L (⊎)). by rewrite (comm_L (⊎) (owned a)).
Qed.

Lemma all_owned_insert objs i o o' :
  objs !! i = Some o → all_owned (<[i := o']> objs) = owned o' ⊎ all_owned (delete i objs).
Proof.
  revert i. induction objs as [|a objs IH]; intros [|i] H; cbn in *; try done.
  etransitivity; [exact (f_equal (λ h, owned a ⊎ h) (IH i H))|]. rewrite !(assoc_L (⊎)). by rewrite (comm_L (⊎) (owned a)).
Qed.

Lemma all_owned_size objs : (size (all_owned objs) ≤ length objs)%nat.
Proof.
  induction objs as [|a objs IH]; cbn; [by rewrite gmultiset_size_empty|].
  rewrite gmultiset_size_disj_union. pose proof (own_size (sp_msg_ (queue_msg_ a))).
  unfold owned. lia.
Qed.

Lemma all_owned_in objs o : o ∈ objs → owned o ⊆ all_owned objs.
Proof.
  intros [i Hi]%list_elem_of_lookup. rewrite (all_owned_split objs i o Hi). multiset_solver.
Qed.

Lemma shows_ok w o written x : obj_ok w o written x → shows o w = v_value x.
Proof.
  intros [_ _ _ _ _ O6 O7 _]. unfold shows, current, load_cell. rewrite O6.
  destruct (Z.eqb_spec (sp_msg_ (queue_msg_ o)) 0); [done|].
  destruct (O7 ltac:(done)) as [v Hv]. rewrite O6 in Hv. by rewrite Hv.
Qed.

(** A fetch by one of the objects. *)
Lemma wp_act_fetch w q objs written sent views i o x (f : Queue → ST (world V) (bool * Queue)) spec :
  bus_inv w q objs written sent views → objs !! i = Some o → views !! i = Some x →
  wp (f o) (fetch_post_typed spec w q (all_owned (delete i objs)) written sent) w →
  wp ('(b, o) ← f o; w ← st_get; mret (b, shows o w, <[i := o]> objs)) (λ r w',
    r.1 = (spec.1, v_value spec.2) ∧
    ∃ q', bus_inv w' q' r.2 written sent (<[i := spec.2]> views) ∧ messages_ q' = messages_ q) w.
Proof.
  intros [F Hobjs Hfew] Ho Hx Hf. apply wp_bind. eapply wp_mono; [exact Hf|].
  cbn beta. intros [b o'] w' (Hb & O' & Hc & q' & F' & Hm'). cbn [fst snd] in *.
  apply wp_bind, wp_get, wp_ret. cbn [fst snd].
  split; [by rewrite Hb, (shows_ok _ _ _ _ O')|].
  exists q'. split; [|done]. split.
  - by rewrite (all_owned_insert _ _ o).
  - apply Forall2_insert; [|done]. eapply Forall2_impl; [exact Hobjs|].
    intros. by eapply obj_ok_cells.
  - by rewrite length_insert.
Qed.

Lemma wp_act w q objs written sent views a r sent' views' :
  bus_inv w q objs written sent views → messages_ q + 1 < 2 ^ 31 →
  spec_act sent views a = Some (r, (sent', views')) →
  wp (act objs a) (λ ro w', ro.1 = r ∧ ∃ q' written',
    bus_inv w' q' ro.2 written' sent' views' ∧ messages_ q' ≤ messages_ q + 1) w.
Proof.
  intros B Hmax Hspec. pose proof B as [F Hobjs Hfew].
  pose proof (all_owned_size objs) as Hsz.
  assert (Hget : ∀ i x, views !! i = Some x → ∃ o, objs !! i = Some o ∧ obj_ok w o written x).
  { intros i x Hx. exact (Forall2_lookup_r _ _ _ _ _ Hobjs Hx). }
  assert (Hsize : ∀ i o, objs !! i = Some o → (size (owned o ⊎ all_owned (delete i objs)) ≤ spare)%nat).
  { intros i o Ho. rewrite <-(all_owned_split objs i o Ho). lia. }
  destruct a as [i fill now|i|i]; cbn [act spec_act] in *;
    apply bind_Some in Hspec as (x & Hx & Hspec);
    destruct (Hget i x Hx) as (o & Ho & O); rewrite Ho.
  - injection Hspec as <- <- <-. apply wp_bind.
    eapply wp_mono; [eapply (wp_send_built w q o); (done || lia)|].
    cbn beta. intros [b o'] w' ([= -> ->] & m & q' & F' & Hm' & Hm0 & Hfr & Hcells).
    apply wp_bind, wp_get, wp_ret. cbn [fst snd].
    assert (O' : ∀ o x, o ∈ objs → obj_ok w o written x → obj_ok w' o (written ++ [m]) x).
    { intros o' x' Hin Ho'. eapply (obj_ok_sent w w' o' (all_owned objs)); [done|by apply all_owned_in|done..]. }
    split; [by rewrite (shows_ok _ _ _ _ (O' o x ltac:(by eapply list_elem_of_lookup_2) O))|].
    exists q', (written ++ [m]). split; [|lia]. rewrite list_insert_id by done. split; [done| |done].
    apply Forall2_same_length_lookup. apply Forall2_same_length_lookup in Hobjs as [Hl Hobjs].
    split; [done|]. intros j o' x' Hj Hj'. eapply O', Hobjs; [by eapply list_elem_of_lookup_2|done..].
  - destruct (spec_next cap sent x) as [b x'] eqn:Es. injection Hspec as <- <- <-.
    eapply wp_mono; [eapply (wp_act_fetch w q objs written sent views i o x (FetchNext T) (b, x') B Ho Hx)|].
    + rewrite <-Es. eapply wp_FetchNext; [|done|by apply Hsize]. by rewrite <-all_owned_split.
    + cbn beta. intros ro w' (Hr & q' & B' & Hm'). split; [done|]. exists q', written. split; [done|lia].
  - destruct (spec_latest sent x) as [b x'] eqn:Es. injection Hspec as <- <- <-.
    eapply wp_mono; [eapply (wp_act_fetch w q objs written sent views i o x (FetchLatest T) (b, x') B Ho Hx)|].
    + rewrite <-Es. eapply wp_FetchLatest; [|done|by apply Hsize]. by rewrite <-all_owned_split.
    + cbn beta. intros ro w' (Hr & q' & B' & Hm'). split; [done|]. exists q', written. split; [done|lia].
Qed.

(** Actions name existing objects. *)
Definition actor (a : action) : nat := match a with ASend i _ _ => i | ANext i => i | ALatest i => i end.

Lemma wp_run_bus acts w q objs written sent views :
  bus_inv w q objs written sent views → messages_ q + Z.of_nat (length acts) < 2 ^ 31 →
  Forall (λ a, (actor a < length objs)%nat) acts →
  wp (run objs acts) (λ rs w', rs = spec_run sent views acts) w.
Proof.
  revert w q objs written sent views.
  induction acts as [|a acts IH]; intros w q objs written sent views B Hmax Hact; cbn [run spec_run length] in *;
    [by apply wp_ret|]. apply Forall_cons in Hact as [Ha Hact].
  assert (∃ r sent' views', spec_act sent views a = Some (r, (sent', views')) ∧ length views' = length views)
    as (r & sent' & views' & Hs & Hlen).
  { assert (length objs = length views) as El by (eapply Forall2_length, B). rewrite El in Ha.
    destruct (lookup_lt_is_Some_2 views (actor a) Ha) as [x Hx].
    destruct a as [i f now|i|i]; cbn in *; rewrite Hx; cbn; [by eauto|..].
    - destruct (spec_next cap sent x) as [b x']. do 3 eexists. split; [done|]. by rewrite length_insert.
    - destruct (spec_latest sent x) as [b x']. do 3 eexists. split; [done|]. by rewrite length_insert. }
  rewrite Hs. apply wp_bind. eapply wp_mono; [eapply (wp_act w q); [exact B|lia|exact Hs]|].
  cbn beta. intros [r' objs'] w' (Hr & q' & written' & B' & Hm'). cbn in Hr. subst r'. cbn [snd] in B'.
  apply wp_bind. eapply wp_mono; [eapply (IH w' q' objs' written'); [exact B'|lia|]|].
  - rewrite (Forall2_length _ _ _ (bus_objs _ _ _ _ _ _ B')), Hlen,
      <-(Forall2_length _ _ _ (bus_objs _ _ _ _ _ _ B)). done.
  - cbn beta. intros rs w2 ->. by apply wp_ret.
Qed.
End Typed.
