(* ===== verification/TypedTheorems.v ===== *)
(** * What typed queues guarantee *)

From S2P Require Import Prelude Options SharedMem Ring RawQueue QueuePool QueueOps QueueSpec.
From S2P Require Import QueueRead QueueIndex QueueCreate QueueStore QueueSystem QueueFeed.
From S2P Require Import QueueTheorems ByteOrder QueueTypes QueueTypesProofs Time TypedQueue.
From S2P Require Import TypedQueueProofs.

(** ** Finding the queue *)

Section Attach.
Context {V : Type} (T : message_class) (name : string).
Implicit Types w : world V.

Definition key : queue_key := mkKey name (sizeof_T T) (kHash T) (kQueueLength T).

(** An object that has found the queue at [t] and not read anything. *)
Definition attached (t : Z) : Queue := mkTyped name t 0 (mkScoped t 0).

Lemma wp_Init_attach (Q : Queue → world V → Prop) w :
  wp (Fetch name (sizeof_T T) (kHash T) (kQueueLength T))
    (λ t s, Q (attached t) (set_mem s w)) (mem w) →
  wp (Init T (Queue_new name)) Q w.
Proof. intros H. unfold Init. cbn [queue_ Queue_new Z.eqb]. apply wp_bind, wp_raw. exact H. Qed.

(** Further objects find the same queue and change nothing. *)
Lemma wp_attach_more n l pool held t w (Q : list Queue → world V → Prop) :
  store_inv (mem w) l pool held → find_key (queue_objects (mem w)) key l = Some t →
  Q (replicate n (attached t)) w → wp (mapM (Init T) (replicate n (Queue_new name))) Q w.
Proof.
  intros SI Hk. revert Q. induction n as [|n IH]; intros Q HQ; cbn; [by apply wp_ret|].
  apply wp_bind, wp_Init_attach. unfold wp at 1.
  pose proof (wp_Fetch_found _ _ _ _ _ _ SI Hk) as E. cbn in E. rewrite E.
  apply wp_bind. destruct w. cbn. apply IH. by apply wp_ret.
Qed.
End Attach.

(** ** Values on the bus *)

(** C26: any number of [Queue<T>] objects in up to 19 processes share one
    queue: the first [Init] creates it, the others find it, and whatever
    sends, [FetchNext]s and [FetchLatest]s follow, each returns (nothing
    stops) what the list of sent values says: a fetch is true exactly when
    something new was sent since, it then shows the next value that was not
    overridden (or the newest one), with the time it was sent, and the value
    an object shows stays the same until its own next successful fetch, no
    matter how often the others send. *)
Theorem typed_queue_values {V} (T : message_class) (zero : V) name n s c l pool held acts :
  store_inv s l pool held → find_key (queue_objects s) (key T name) l = None →
  queue_params (sizeof_T T) (kQueueLength T) → kQueueLength T < 2 ^ 31 - 64 →
  room_for s (queue_bytes name (sizeof_T T) (kQueueLength T)) →
  (1 ≤ n ≤ spare)%nat → Forall (λ a, (actor a < n)%nat) acts → Z.of_nat (length acts) < 2 ^ 31 →
  ∃ w', (objs ← mapM (Init T) (replicate n (Queue_new name)); run T zero objs acts) (mkWorld s c)
    = Ok (spec_run zero (kQueueLength T) [] (replicate n (mkView 0 None)) acts, w').
Proof.
  intros SI Hnew Hpar Hcap Hroom Hn Hact Hlen.
  enough (wp (objs ← mapM (Init T) (replicate n (Queue_new name)); run T zero objs acts)
    (λ rs _, rs = spec_run zero (kQueueLength T) [] (replicate n (mkView 0 None)) acts) (mkWorld s c)) as H.
  { apply wp_run in H as (rs & w' & H & ->). by exists w'. }
  apply wp_bind. destruct n as [|n]; [lia|]. cbn [replicate mapM].
  apply wp_bind, wp_Init_attach.
  eapply wp_mono; [exact (wp_Fetch s l pool held (key T name) SI Hpar Hroom)|].
  intros t s1 HP. pose proof HP as HP'. unfold fetch_post in HP. rewrite Hnew in HP.
  destruct HP as (q & P & [N1 N2 N3 N4 [N5 Hm0] N6 N7]).
  destruct (fetched_find s l pool held (key T name) t s1 SI HP') as (l' & pool' & held' & SI' & _ & Hf).
  apply wp_bind. eapply (wp_attach_more T name n); [exact SI'|exact Hf|]. apply wp_ret.
  destruct (si_queue _ _ _ _ N2 t ltac:(set_solver)) as [q' I].
  rewrite upd_pool_eq, upd_held_eq in I. pose proof (qi_object _ _ _ _ _ I) as Hq.
  assert (q' = q) as -> by congruence. cbn [set_mem mem cells].
  assert (t ≠ 0) as Ht.
  { eapply qchain_nonzero; [apply N2|]. set_solver. }
  change (attached name t :: replicate n (attached name t)) with (replicate (S n) (attached name t)).
  eapply (wp_run_bus T zero t P (kQueueLength T) acts _ q _ [] []); [|lia|by rewrite length_replicate].
  assert (all_owned (replicate (S n) (attached name t)) = ∅) as Hown.
  { clear. induction (S n) as [|m IH]; [done|]. cbn [replicate all_owned]. rewrite IH.
    apply (own_zero ∅). }
  split.
  - rewrite Hown. split; try done.
    + by apply (matches_length (key T name)).
    + unfold kExtraMessages in N6. unfold spare. cbn in N6. lia.
    + split; [by rewrite Hm0|by rewrite N5].
    + rewrite N5. cbn. unfold queue_params in Hpar. lia.
    + rewrite N5. constructor.
  - apply (Forall2_replicate _ (S n)). split; try done; cbn; lia.
  - rewrite length_replicate. lia.
Qed.

Definition sample_class : message_class := mkClass 32 5 3.

Lemma typed_queue_values_witness :
  ∃ w', (objs ← mapM (Init sample_class) (replicate 2 (Queue_new "sensors"));
         run sample_class 0 objs [ASend 0 (λ _, 7) kZero; ANext 1; ALatest 0; ANext 1])
      (mkWorld Fresh.s ∅)
    = Ok ([(true, None); (true, Some (mkMessage kZero 7)); (true, Some (mkMessage kZero 7));
           (false, Some (mkMessage kZero 7))], w').
Proof.
  apply (typed_queue_values sample_class 0 "sensors" 2 Fresh.s ∅ [] (λ _, ∅) (λ _, ∅)
    [ASend 0 (λ _, 7) kZero; ANext 1; ALatest 0; ANext 1] Fresh.fresh_inv).
  - reflexivity.
  - unfold queue_params. cbn. lia.
  - cbn. lia.
  - split; vm_compute; congruence.
  - unfold spare. lia.
  - repeat constructor; cbn; lia.
  - cbn. lia.
Defined.

(** ** The common field of messages on the wire *)

Lemma to_network_mod n v : to_network n (v mod 256 ^ Z.of_nat n) = to_network n v.
Proof.
  rewrite !to_network_eq, <-le_combine_split. f_equal.
  rewrite <-(le_split_length n v) at 1. apply le_split_combine, le_split_bytes.
Qed.

(** A 32-bit signed value written in network order is read back. *)
Lemma get_int32_at pos v pre rest :
  pos = Z.of_nat (length pre) → in_signed 32 v →
  get_int32 pos (pre ++ to_network 4 v ++ rest) = Ok v.
Proof.
  intros -> Hv. unfold get_int32. rewrite <-to_network_mod, get_int_at.
  - rewrite res_bind_Ok. f_equal. unfold swrap, in_signed in *. cbn in Hv.
    change (256 ^ Z.of_nat 4) with (2 ^ 32). rewrite Z.add_mod_idemp_l by done.
    cbn. rewrite Z.mod_small; lia.
  - done.
  - apply Z.mod_pos_bound. done.
Qed.

(** [Message::Serialize] and [Deserialize] are inverse: the time a
    message was sent at, negative seconds included, comes back from the 8
    bytes written in network order, whatever the receiving message held, and
    bytes behind them are left alone; a nanosecond field that is not one is
    stopped by the check of [set_nsec]. *)
Theorem message_time_roundtrip (t t0 : Time) (old rest : list Z) nsec :
  in_signed 32 (sec_ t) → 0 ≤ nsec_ t < kNSecInSec → length old = 8%nat →
  in_signed 32 nsec → nsec < 0 ∨ kNSecInSec ≤ nsec →
  (∃ b, Message_Serialize t (old ++ rest) = Ok (Message_Size, b ++ rest) ∧
     length b = 8%nat ∧ Message_Deserialize t0 (b ++ rest) = Ok (Message_Size, t)) ∧
  Message_Deserialize t0 (to_network 4 (sec_ t) ++ to_network 4 nsec ++ rest) = Err Fatal.
Proof.
  intros Hs Hn Hl Hb Hbad.
  assert (Hread : ∀ n, in_signed 32 n →
    Message_Deserialize t0 (to_network 4 (sec_ t) ++ to_network 4 n ++ rest) =
    (t ← set_nsec n (set_sec (sec_ t) t0); Ok (Message_Size, t))).
  { intros n Hn'. unfold Message_Deserialize.
    pose proof (get_int32_at 0 (sec_ t) [] (to_network 4 n ++ rest)) as E. cbn [app] in E.
    rewrite E, res_bind_Ok by done.
    by rewrite (get_int32_at 4 n (to_network 4 (sec_ t))) by (rewrite ?to_network_length; done). }
  split.
  - exists (to_network 4 (sec_ t) ++ to_network 4 (nsec_ t)). split_and!.
    + unfold Message_Serialize.
      assert (∃ a b, old = a ++ b ∧ length a = 4%nat ∧ length b = 4%nat) as (a & b & -> & Ha & Hb').
      { exists (take 4 old), (drop 4 old). rewrite take_drop, length_take, length_drop. split_and!; [done|lia|lia]. }
      rewrite <-app_assoc.
      pose proof (put_at 0 (to_network 4 (sec_ t)) [] (a ++ b ++ rest)) as E. cbn [app] in E.
      rewrite E by (rewrite ?length_app, ?to_network_length; cbn; lia). rewrite res_bind_Ok.
      rewrite to_network_length, drop_app_length' by done.
      rewrite (put_at 4) by (rewrite ?length_app, ?to_network_length; cbn; lia).
      rewrite res_bind_Ok, to_network_length, drop_app_length' by done. by rewrite <-app_assoc.
    + rewrite length_app, !to_network_length. done.
    + rewrite <-app_assoc, Hread by (unfold in_signed, kNSecInSec in *; cbn; lia).
      unfold set_nsec, CheckImpl. rewrite (proj2 (Z.leb_gt _ _)), (proj2 (Z.ltb_ge _ _)) by lia.
      by destruct t.
  - rewrite Hread by done. unfold set_nsec, CheckImpl.
    destruct Hbad; [rewrite (proj2 (Z.ltb_lt _ _)), orb_true_r by lia; done|].
    by rewrite (proj2 (Z.leb_le _ _)) by lia.
Qed.

Lemma message_time_roundtrip_witness :
  (∃ b, Message_Serialize (mkTime (-5) 7) (replicate 8 0 ++ [1]) = Ok (Message_Size, b ++ [1]) ∧
     length b = 8%nat ∧ Message_Deserialize kZero (b ++ [1]) = Ok (Message_Size, mkTime (-5) 7)) ∧
  Message_Deserialize kZero (to_network 4 (-5) ++ to_network 4 (-1) ++ [1]) = Err Fatal.
Proof.
  apply (message_time_roundtrip (mkTime (-5) 7) kZero (replicate 8 0) [1] (-1));
    unfold in_signed, kNSecInSec; cbn; try lia; done.
Defined.
