(* ===== verification/Double.v ===== *)
(** * double: IEEE 754 binary64 arithmetic

    The dashboard computes with [double].  Its operations are the ones of
    the Standard Library's specification floats at 53 bits of precision,
    rounding to nearest even: executable and exact in every bit. *)

From Stdlib Require Export SpecFloat.
From S2P Require Import Prelude.

Abbreviation double := spec_float.

Definition dadd : double → double → double := SFadd 53 1024.
Definition dsub : double → double → double := SFsub 53 1024.
Definition dmul : double → double → double := SFmul 53 1024.
Definition ddiv : double → double → double := SFdiv 53 1024.
Definition dltb : double → double → bool := SFltb.

(** The conversion of an [int]. *)
Definition double_of_Z (z : Z) : double := binary_normalize 53 1024 z 0 false.

(** [m * 2 ^ e] *)
Definition dyadic (m e : Z) : double := binary_normalize 53 1024 m e false.

(** Truncation towards 0, for a conversion to an integer type. *)
Definition trunc (d : double) : option Z :=
  match d with
  | S754_zero _ => Some 0
  | S754_finite s m e =>
      let a := if 0 <=? e then Zpos m * 2 ^ e else Zpos m / 2 ^ (- e) in
      Some (if s then - a else a)
  | _ => None
  end.

(** A conversion to [int] of a value outside of it is undefined. *)
Definition int_of_double (d : double) : res Z :=
  z ← of_option Undefined (trunc d); i32 z.

(** ** The order *)

Lemma dltb_irrefl a : dltb a a = false.
Proof.
  unfold dltb, SFltb, SFcompare. destruct a as [[]|[]| |[] m e]; try done;
    rewrite Z.compare_refl; change PosDef.Pos.compare_cont with Pos.compare_cont;
    change (Pos.compare_cont Eq m m) with (m ?= m)%positive; by rewrite Pos.compare_refl.
Qed.

(** [<] on doubles is transitive (a NaN is not related to anything). *)
Lemma dltb_trans a b c : dltb a b = true → dltb b c = true → dltb a c = true.
Proof.
  unfold dltb, SFltb, SFcompare. change PosDef.Pos.compare_cont with Pos.compare_cont.
  destruct a as [[]|[]| |[] m e], b as [[]|[]| |[] m' e'], c as [[]|[]| |[] m'' e''];
    try done; repeat change (Pos.compare_cont Eq ?x ?y) with (x ?= y)%positive.
  - destruct (Z.compare_spec e e'), (Z.compare_spec e' e''), (Z.compare_spec e e'');
      try done; try lia; subst.
    destruct (Pos.compare_spec m m'), (Pos.compare_spec m' m''), (Pos.compare_spec m m''); cbn; try done; lia.
  - destruct (Z.compare_spec e e'), (Z.compare_spec e' e''), (Z.compare_spec e e'');
      try done; try lia; subst.
    destruct (Pos.compare_spec m m'), (Pos.compare_spec m' m''), (Pos.compare_spec m m''); cbn; try done; lia.
Qed.
