(* ===== verification/Serial.v ===== *)
(** * The serial port: dashboard/serial.cc

    A character buffer is the list of bytes of its block: its length is what
    the allocator really gave, which is at least what was asked for, and its
    first contents are whatever was there.  An access outside of the block is
    undefined.  The kernel's side (the device, the allocator, the terminal
    settings) is the class [Platform]. *)

From S2P Require Import Prelude ByteOrder QueueTypes QueueTypesProofs.

(** ** C strings *)

Definition chars (s : string) : bytes := map (λ c, Z.of_nat (Ascii.nat_of_ascii c)) (String.list_ascii_of_string s).

(** A string literal, with its terminator. *)
Definition lit (s : string) : bytes := chars s ++ [0].

(** [%d] *)
Fixpoint dec_digits (fuel : nat) (n : Z) : bytes :=
  match fuel with
  | O => []
  | S fuel => if n <? 10 then [48 + n] else dec_digits fuel (n / 10) ++ [48 + n mod 10]
  end.
Definition decimal (n : Z) : bytes := if n <? 0 then 45 :: dec_digits 20 (- n) else dec_digits 20 n.

(** The characters before the first NUL; there must be one in the block. *)
Fixpoint cstr (b : bytes) : res bytes :=
  match b with
  | [] => Err Undefined
  | c :: b => if c =? 0 then Ok [] else s ← cstr b; Ok (c :: s)
  end.

Definition strlen (b : bytes) : res Z := s ← cstr b; Ok (Z.of_nat (length s)).

Definition strcmp_eq (a b : bytes) : res bool :=
  x ← cstr a; y ← cstr b; Ok (bool_decide (x = y)).

Definition strcpy (dst src : bytes) : res bytes := s ← cstr src; put 0 (s ++ [0]) dst.

Definition strcat (dst src : bytes) : res bytes :=
  n ← strlen dst; s ← cstr src; put n (s ++ [0]) dst.

(** At most [n] characters, padded with NULs up to [n]. *)
Fixpoint strn (n : nat) (src : bytes) : res bytes :=
  match n with
  | O => Ok []
  | S n =>
      match src with
      | [] => Err Undefined
      | c :: src => if c =? 0 then Ok (replicate (S n) 0) else s ← strn n src; Ok (c :: s)
      end
  end.

Definition strncpy (dst src : bytes) (n : nat) : res bytes := s ← strn n src; put 0 s dst.

(** [b[i]] *)
Definition char_at (b : bytes) (i : Z) : res Z :=
  if i <? 0 then Err Undefined else of_option Undefined (b !! Z.to_nat i).

(** ** The platform *)

Record termios := mkTermios {
  c_iflag : Z; c_oflag : Z; c_cflag : Z; c_lflag : Z; c_vmin : Z; c_vtime : Z }.

Class Platform (K : Type) := {
  (** [open(port_name_, ...)]: the descriptor or -1. *)
  sys_open : string → K → Z * K;
  (** One [read] of one byte: a byte, or nothing ([rx_length <= 0]). *)
  sys_read : Z → K → option Z * K;
  (** [write]: how many bytes the device took, or -1. *)
  sys_write : Z → bytes → K → Z * K;
  sys_close : Z → K → K;
  (** The block [malloc] or [new char[n]] returns, with its contents. *)
  sys_malloc : Z → K → bytes * K;
  (** [tcgetattr]: the settings, unless it failed. *)
  sys_tcgetattr : Z → K → option termios * K;
  sys_tcsetattr : Z → termios → K → Z * K;
  cfsetispeed : termios → Z → termios }.

Definition B38400 : Z := 0xf.
Definition CSIZE : Z := 0x30.
Definition CS8 : Z := 0x30.
Definition CSTOPB : Z := 0x40.
Definition CREAD : Z := 0x80.
Definition PARENB : Z := 0x100.
Definition CLOCAL : Z := 0x800.
Definition CRTSCTS : Z := 0x80000000.

(** [c_cflag &= ~mask] and [c_cflag |= mask], 32 bits wide. *)
Definition clear_flag (mask : Z) (t : termios) : termios :=
  mkTermios (c_iflag t) (c_oflag t) (Z.land (c_cflag t) (u32 (Z.lnot mask))) (c_lflag t)
    (c_vmin t) (c_vtime t).
Definition set_flag (mask : Z) (t : termios) : termios :=
  mkTermios (c_iflag t) (c_oflag t) (Z.lor (c_cflag t) mask) (c_lflag t) (c_vmin t) (c_vtime t).

(** [cfmakeraw], as termios(3) describes it. *)
Definition cfmakeraw (t : termios) : termios :=
  mkTermios (Z.land (c_iflag t) (u32 (Z.lnot 0x5eb))) (Z.land (c_oflag t) (u32 (Z.lnot 0x1)))
    (Z.lor (Z.land (c_cflag t) (u32 (Z.lnot (Z.lor CSIZE PARENB)))) CS8)
    (Z.land (c_lflag t) (u32 (Z.lnot 0x804b))) (c_vmin t) (c_vtime t).

Section Serial.
Context {K : Type} `{!Platform K}.

Record port := mkPort { dev : K; serial_fd_ : Z }.

Notation MP := (ST port).

Definition port_name_ : string := "/dev/ttyUSB0".

(** One call of the platform. *)
Definition sys {A} (f : K → A * K) : MP A := λ p,
  let '(a, k) := f (dev p) in Ok (a, mkPort k (serial_fd_ p)).

Definition alloc (n : Z) : MP bytes := sys (sys_malloc n).

Definition get_fd : MP Z := λ p, Ok (serial_fd_ p, p).

(** [do { complain; sleep(1); } while (serial_fd_ == -1)]: nothing in the
    loop opens the port again. *)
Fixpoint wait_open (fuel : nat) : MP unit :=
  match fuel with
  | O => st_stop Fuel
  | S fuel => fd ← get_fd; if fd =? -1 then wait_open fuel else mret tt
  end.

Definition configure (t : termios) : termios :=
  let t := cfsetispeed t B38400 in
  let t := clear_flag PARENB t in
  let t := clear_flag CSTOPB t in
  let t := clear_flag CSIZE t in
  let t := set_flag CS8 t in
  let t := clear_flag CRTSCTS t in
  let t := mkTermios (c_iflag t) (c_oflag t) (c_cflag t) (c_lflag t) 1 5 in
  let t := set_flag (Z.lor CREAD CLOCAL) t in
  cfmakeraw t.

Definition Init (fuel : nat) : MP unit :=
  fd ← sys (sys_open port_name_);
  _ ← (λ p, Ok (tt, mkPort (dev p) fd));
  _ ← wait_open fuel;
  got ← sys (sys_tcgetattr fd);
  let t := default (mkTermios 0 0 0 0 0 0) got in
  _ ← sys (sys_tcsetattr fd (configure t));
  mret tt.

Definition CR : Z := 13.

(** The block has [len + 1] bytes by contract; the terminator goes to
    index [len + 1]. *)
Definition Write (command_parameter : bytes) : MP unit :=
  fd ← get_fd;
  if negb (fd =? -1) then
    len ← st_lift (strlen command_parameter);
    command ← alloc (len + 1);
    command ← st_lift (strcpy command command_parameter);
    command ← st_lift (put len [CR] command);
    command ← st_lift (put (len + 1) [0] command);
    text ← st_lift (cstr command);
    _ ← sys (sys_write fd text);
    mret tt
  else mret tt.

(** [fuel] bounds the calls of [read]; [pos] is [b - buffer]. *)
Fixpoint read_loop (fuel : nat) (pos : Z) (buffer : bytes) : MP bytes :=
  match fuel with
  | O => st_stop Fuel
  | S fuel =>
      fd ← get_fd;
      rx ← sys (sys_read fd);
      match rx with
      | None => read_loop fuel pos buffer
      | Some c =>
          if c =? CR then st_lift (put pos [0] buffer)
          else
            buffer ← st_lift (put pos [c] buffer);
            read_loop fuel (pos + 1) buffer
      end
  end.

Definition Read (fuel : nat) (buffer : bytes) : MP bytes := read_loop fuel 0 buffer.

Fixpoint wait_loop (n fuel : nat) (response expected_response : bytes) : MP bool :=
  match n with
  | O => mret false
  | S n =>
      response ← Read fuel response;
      eq ← st_lift (strcmp_eq response expected_response);
      if (eq : bool) then mret true else wait_loop n fuel response expected_response
  end.

Definition WaitForResponse (fuel : nat) (expected_response : bytes) (max_iterations : Z) : MP bool :=
  response ← alloc 500;
  wait_loop (Z.to_nat max_iterations) fuel response expected_response.

Definition Close : MP unit := fd ← get_fd; sys (λ k, (tt, sys_close fd k)).
End Serial.

Arguments port : clear implicits.

(** ** C strings *)

Lemma cstr_app s rest : 0 ∉ s → cstr (s ++ 0 :: rest) = Ok s.
Proof.
  induction s as [|c s IH]; intros H; cbn; [done|].
  rewrite (proj2 (Z.eqb_neq c 0)), IH by set_solver. done.
Qed.

Lemma strlen_app s rest : 0 ∉ s → strlen (s ++ 0 :: rest) = Ok (Z.of_nat (length s)).
Proof. intros. unfold strlen. by rewrite cstr_app. Qed.

Lemma cstr_inv b s : cstr b = Ok s → 0 ∉ s ∧ ∃ rest, b = s ++ 0 :: rest.
Proof.
  revert s. induction b as [|c b IH]; intros s; cbn; [done|].
  destruct (Z.eqb_spec c 0) as [->|Hc].
  - intros [= <-]. split; [set_solver|by exists b].
  - intros H. apply res_bind_ok in H as (s' & Hs & [= <-]). destruct (IH s' Hs) as [H0 [rest ->]].
    split; [set_solver|by exists rest].
Qed.

Lemma chars_nonzero s : forallb (λ c, negb (c =? 0)) (chars s) = true → 0 ∉ chars s.
Proof.
  intros H Hin. rewrite forallb_forall in H. apply list_elem_of_In in Hin.
  specialize (H 0 Hin). done.
Qed.

Lemma strcmp_eq_lit s rest t :
  0 ∉ s → 0 ∉ chars t → strcmp_eq (s ++ 0 :: rest) (lit t) = Ok (bool_decide (s = chars t)).
Proof. intros. unfold strcmp_eq, lit. by rewrite !cstr_app. Qed.

(** Past the end of the block. *)
Lemma put_outside pos bs b :
  Z.of_nat (length b) < pos + Z.of_nat (length bs) → put pos bs b = Err Undefined.
Proof.
  intros. unfold put. destruct (Z.ltb_spec (Z.of_nat (length b)) (pos + Z.of_nat (length bs))); [|lia].
  by rewrite orb_true_r.
Qed.

(** One more character at the end of what was written. *)
Lemma put_one pre c x old :
  put (Z.of_nat (length pre)) [c] (pre ++ x :: old) = Ok ((pre ++ [c]) ++ old).
Proof. rewrite put_at by (cbn; lia). done. Qed.

Section Lines.
Context {K : Type} `{!Platform K}.
Implicit Types (k : K) (p : port K).

(** [n] calls of [read] starting at [k] deliver [bs] and end at [k']. *)
Inductive delivers (fd : Z) : nat → K → bytes → K → Prop :=
| del_nil k : delivers fd 0 k [] k
| del_idle n k k1 bs k2 :
    sys_read fd k = (None, k1) → delivers fd n k1 bs k2 → delivers fd (S n) k bs k2
| del_byte n k c k1 bs k2 :
    sys_read fd k = (Some c, k1) → delivers fd n k1 bs k2 → delivers fd (S n) k (c :: bs) k2.

(** A line: its characters, then a CR. *)
Definition line_arrives (fd : Z) (n : nat) (k : K) (line : bytes) (k' : K) : Prop :=
  ∃ k1, delivers fd n k line k1 ∧ sys_read fd k1 = (Some CR, k') ∧ CR ∉ line.

(** A line that fits is stored with a terminator in place of the CR. *)
Lemma read_loop_line fd n k line k1 k' pre old fuel :
  delivers fd n k line k1 → sys_read fd k1 = (Some CR, k') → CR ∉ line →
  (length line < length old)%nat → (n < fuel)%nat →
  read_loop fuel (Z.of_nat (length pre)) (pre ++ old) (mkPort k fd) =
    Ok (pre ++ line ++ 0 :: drop (S (length line)) old, mkPort k' fd).
Proof.
  intros H Hcr. revert pre old fuel.
  induction H as [k|n k k1 bs k2 Hr H IH|n k c k1 bs k2 Hr H IH];
    intros pre old [|fuel] Hno Hlen Hf; try lia; cbn [read_loop];
    (erewrite st_bind_step by done); (erewrite st_bind_step by (unfold sys; cbn; by rewrite ?Hr, ?Hcr)); cbn beta iota.
  - destruct old as [|x old]; [cbn in Hlen; lia|]. rewrite Z.eqb_refl.
    unfold st_lift. rewrite put_one. cbn. by rewrite <-app_assoc.
  - apply IH; [done|done|done|lia].
  - destruct old as [|x old]; [cbn in Hlen; lia|].
    rewrite (proj2 (Z.eqb_neq c CR)) by set_solver.
    erewrite st_bind_step by (unfold st_lift; by rewrite put_one).
    replace (Z.of_nat (length pre) + 1) with (Z.of_nat (length (pre ++ [c]))) by (rewrite length_app; cbn; lia).
    rewrite IH by (set_solver || done || (cbn in *; lia)).
    rewrite <-app_assoc. done.
Qed.

(** A line that does not fit runs over the end of the buffer. *)
Lemma read_loop_overrun fd n k line k' pre old fuel :
  delivers fd n k line k' → CR ∉ line → (length old < length line)%nat → (n ≤ fuel)%nat →
  read_loop fuel (Z.of_nat (length pre)) (pre ++ old) (mkPort k fd) = Err Undefined.
Proof.
  intros H. revert pre old fuel.
  induction H as [k|n k k1 bs k2 Hr H IH|n k c k1 bs k2 Hr H IH];
    intros pre old [|fuel] Hno Hlen Hf; cbn [length] in *; try lia; cbn [read_loop];
    (erewrite st_bind_step by done); (erewrite st_bind_step by (unfold sys; cbn; by rewrite Hr)); cbn beta iota.
  - apply IH; [done|done|lia].
  - rewrite (proj2 (Z.eqb_neq c CR)) by set_solver.
    destruct old as [|x old].
    + unfold st_lift, mbind, st_bind. rewrite put_outside; [done|]. rewrite length_app. cbn. lia.
    + erewrite st_bind_step by (unfold st_lift; by rewrite put_one).
      replace (Z.of_nat (length pre) + 1) with (Z.of_nat (length (pre ++ [c]))) by (rewrite length_app; cbn; lia).
      apply IH; [set_solver|cbn in *; lia|lia].
Qed.

Lemma Read_line fd n k line k' buffer fuel :
  line_arrives fd n k line k' → (length line < length buffer)%nat → (n < fuel)%nat →
  Read fuel buffer (mkPort k fd) = Ok (line ++ 0 :: drop (S (length line)) buffer, mkPort k' fd).
Proof. intros (k1 & H & Hcr & Hno) Hl Hf. exact (read_loop_line fd n k line k1 k' [] buffer fuel H Hcr Hno Hl Hf). Qed.

(** What [Write] does, by the size of the block the allocator returned. *)
Lemma Write_eq fd k cmd block k1 :
  fd ≠ -1 → 0 ∉ cmd → sys_malloc (Z.of_nat (length cmd) + 1) k = (block, k1) →
  Write (cmd ++ [0]) (mkPort k fd) =
    if decide (length cmd + 2 ≤ length block)%nat
    then Ok (tt, mkPort (sys_write fd (cmd ++ [CR]) k1).2 fd) else Err Undefined.
Proof.
  intros Hfd H0 Hm. unfold Write. erewrite st_bind_step by done. cbn [serial_fd_].
  rewrite (proj2 (Z.eqb_neq fd (-1))) by done. cbn [negb].
  erewrite st_bind_step by (unfold st_lift; by rewrite strlen_app).
  erewrite st_bind_step by (unfold alloc, sys; cbn; by rewrite Hm). cbn [serial_fd_].
  destruct (decide (length cmd + 1 ≤ length block)%nat) as [Hs|Hs].
  - assert (strcpy block (cmd ++ [0]) = Ok ((cmd ++ [0]) ++ drop (length cmd + 1) block)) as Ec.
    { unfold strcpy. rewrite cstr_app, res_bind_Ok by done.
      pose proof (put_at 0 (cmd ++ [0]) [] block) as E. cbn [app] in E.
      rewrite E by (rewrite ?length_app; cbn; lia). by rewrite length_app. }
    erewrite st_bind_step by (unfold st_lift; by rewrite Ec).
    assert (put (Z.of_nat (length cmd)) [CR] ((cmd ++ [0]) ++ drop (length cmd + 1) block) =
      Ok ((cmd ++ [CR]) ++ drop (length cmd + 1) block)) as Ecr.
    { rewrite <-app_assoc. cbn [app]. by rewrite put_one. }
    erewrite st_bind_step by (unfold st_lift; by rewrite Ecr).
    replace (Z.of_nat (length cmd) + 1) with (Z.of_nat (length (cmd ++ [CR]))) by (rewrite length_app; cbn; lia).
    case_decide as Hd.
    + destruct (drop (length cmd + 1) block) as [|x rest] eqn:Ed.
      { apply (f_equal length) in Ed. rewrite length_drop in Ed. cbn in Ed. lia. }
      erewrite st_bind_step by (unfold st_lift; by rewrite put_one).
      erewrite st_bind_step; [|unfold st_lift; rewrite <-app_assoc; cbn [app];
        rewrite cstr_app; [done|unfold CR; set_solver]].
      unfold mbind, st_bind, sys. cbn. by destruct (sys_write _ _ _).
    + unfold st_lift, mbind, st_bind. rewrite put_outside; [done|].
      rewrite !length_app, length_drop. cbn. lia.
  - rewrite decide_False by lia. unfold st_lift, mbind, st_bind, strcpy. rewrite cstr_app by done.
    unfold mbind, res_bind. rewrite put_outside; [done|]. rewrite length_app. cbn. lia.
Qed.
End Lines.
