(* ===== verification/SensorReader.v ===== *)
(** * The sensor reader: dashboard/sensor_reader.cc and sensors.q

    The process asks the car's diagnostic interface (an ELM327 on the serial
    port) for one value after the other, decodes the hexadecimal answer and
    publishes it.  The queue object [sensors_queue] is used through the
    interface [MessageBus]. *)

From S2P Require Import Prelude ByteOrder QueueTypes Time Double TypedQueueProofs Serial.

(** ** The message *)

Record SensorsQueue := mkSensors { rpm : double; mph : double; coolant_temp : double }.

Definition zero_sensors : SensorsQueue :=
  mkSensors (S754_zero false) (S754_zero false) (S754_zero false).

(** ** What a client sees of a queue object of type [V] *)

Class MessageBus (S V : Type) := {
  bus_fetch_next : ST S bool;
  bus_fetch_latest : ST S bool;
  (** [MakeWithBuilder()], the setters, [Send()]. *)
  bus_send : (V → V) → ST S bool;
  (** [operator->] *)
  bus_current : S → res V;
  (** The values sent so far and what this object shows of them. *)
  bus_shows : S → list V → view V → Prop }.

(** What it promises: [cap] is the queue's length. *)
Class BusLaws (S V : Type) `{!MessageBus S V} (zero : V) (cap : Z) := {
  bus_range s sent x : bus_shows s sent x → 0 ≤ v_index x ≤ Z.of_nat (length sent);
  bus_next_ok s sent x : bus_shows s sent x →
    wp bus_fetch_next (λ b s', b = (spec_next cap sent x).1 ∧
      bus_shows s' sent (spec_next cap sent x).2) s;
  bus_latest_ok s sent x : bus_shows s sent x →
    wp bus_fetch_latest (λ b s', b = (spec_latest sent x).1 ∧
      bus_shows s' sent (spec_latest sent x).2) s;
  bus_send_ok s sent x f : bus_shows s sent x → Z.of_nat (length sent) + 1 < 2 ^ 31 →
    wp (bus_send f) (λ b s', b = true ∧ bus_shows s' (sent ++ [f zero]) x) s;
  bus_current_ok s sent x v : bus_shows s sent x → v_value x = Some v → bus_current s = Ok v }.

(** ** Decoding *)

Definition kPidCodeRpm : bytes := lit "0C".
Definition kPidCodeMph : bytes := lit "0D".
Definition kPidCodeCoolantTemp : bytes := lit "05".

(** [strtol(s, NULL, 16)] *)
Definition is_space (c : Z) : bool := ((9 <=? c) && (c <=? 13)) || (c =? 32).

Fixpoint skip_spaces (s : bytes) : bytes :=
  match s with c :: s' => if is_space c then skip_spaces s' else s | [] => [] end.

Definition hex_value (c : Z) : option Z :=
  if (48 <=? c) && (c <=? 57) then Some (c - 48)
  else if (65 <=? c) && (c <=? 70) then Some (c - 55)
  else if (97 <=? c) && (c <=? 102) then Some (c - 87)
  else None.

Fixpoint hex_digits (acc : Z) (s : bytes) : Z :=
  match s with
  | c :: s => match hex_value c with Some d => hex_digits (acc * 16 + d) s | None => acc end
  | [] => acc
  end.

(** An optional [0x] is skipped when a digit follows it. *)
Definition skip_0x (s : bytes) : bytes :=
  match s with
  | 48 :: x :: d :: s' =>
      if ((x =? 120) || (x =? 88)) && bool_decide (is_Some (hex_value d)) then d :: s' else s
  | _ => s
  end.

Definition LONG_MAX : Z := 2 ^ 63 - 1.
Definition LONG_MIN : Z := - 2 ^ 63.

Definition strtol16 (s : bytes) : Z :=
  let s := skip_spaces s in
  let '(neg, s) :=
    match s with
    | 45 :: s => (true, s)
    | 43 :: s => (false, s)
    | _ => (false, s)
    end in
  let v := hex_digits 0 (skip_0x s) in
  if neg then Z.max LONG_MIN (- v) else Z.min LONG_MAX v.

(** [for (j = i; j < strlen(response) - 1; j++) response[j] = response[j + 1]] *)
Fixpoint shift_loop (n : nat) (j : Z) (b : bytes) : res bytes :=
  match n with
  | O => Err Fuel
  | S n =>
      len ← strlen b;
      if j <? u64 (len - 1) then
        c ← char_at b (j + 1);
        b ← put j [c] b;
        shift_loop n (j + 1) b
      else Ok b
  end.

(** The loop that cuts out the spaces. *)
Fixpoint squeeze_loop (n : nat) (i : Z) (b : bytes) : res bytes :=
  match n with
  | O => Err Fuel
  | S n =>
      len ← strlen b;
      if i <? len then
        c ← char_at b i;
        b ← (if c =? 32 then
               b ← shift_loop (S (length b)) i b;
               len ← strlen b;
               put (len - 1) [0] b
             else Ok b);
        squeeze_loop n (i + 1) b
      else Ok b
  end.

Section Reader.
Context {K : Type} `{!Platform K} {S : Type} `{!MessageBus S SensorsQueue}.

(** The process: the port, the queue object, the three [static double]s. *)
Record reader := mkReader {
  serial_ : port K;
  sensors_queue : S;
  last_rpm : double; last_mph : double; last_coolant_temp : double }.

Notation MR := (ST reader).

Definition on_serial {A} (m : ST (port K) A) : MR A := λ r,
  match m (serial_ r) with
  | Ok (a, p) => Ok (a, mkReader p (sensors_queue r) (last_rpm r) (last_mph r) (last_coolant_temp r))
  | Err e => Err e
  end.
Definition on_bus {A} (m : ST S A) : MR A := λ r,
  match m (sensors_queue r) with
  | Ok (a, b) => Ok (a, mkReader (serial_ r) b (last_rpm r) (last_mph r) (last_coolant_temp r))
  | Err e => Err e
  end.
Definition set_last (rpm mph coolant_temp : double) : MR unit :=
  st_modify (λ r, mkReader (serial_ r) (sensors_queue r) rpm mph coolant_temp).

(** The 6 characters in front of the number are cut off by moving the
    pointer: what follows is the block from there. *)
Definition ProcessHexData (response_parameter : bytes) : MR Z :=
  response ← on_serial (alloc 500);
  response ← st_lift (strcpy response response_parameter);
  let response := drop 6 response in
  response ← st_lift (squeeze_loop (Datatypes.S (length response)) 0 response);
  s ← st_lift (cstr response);
  mret (swrap 32 (strtol16 s)).

(** 1.609, rounded to a double. *)
Definition d1_609 : double := dyadic 7246291800439128 (-52).

(** Start from the newest message, if there is one. *)
Definition refresh_last : MR unit :=
  fresh ← on_bus bus_fetch_latest;
  if (fresh : bool) then
    r ← st_get;
    v ← st_lift (bus_current (sensors_queue r));
    set_last (rpm v) (mph v) (coolant_temp v)
  else mret tt.

(** Update the value [id] names; [false] is an unknown id. *)
Definition update_last (id : bytes) (parsed_data : Z) : MR bool :=
  r ← st_get;
  is_rpm ← st_lift (strcmp_eq id kPidCodeRpm);
  if (is_rpm : bool) then
    _ ← set_last (ddiv (double_of_Z parsed_data) (double_of_Z 4)) (last_mph r)
          (last_coolant_temp r);
    mret true
  else
    is_mph ← st_lift (strcmp_eq id kPidCodeMph);
    if (is_mph : bool) then
      _ ← set_last (last_rpm r) (ddiv (double_of_Z parsed_data) d1_609) (last_coolant_temp r);
      mret true
    else
      is_temp ← st_lift (strcmp_eq id kPidCodeCoolantTemp);
      if (is_temp : bool) then
        celsius ← st_lift (i32 (parsed_data - 40));
        _ ← set_last (last_rpm r) (last_mph r)
              (dadd (ddiv (dmul (double_of_Z celsius) (double_of_Z 9)) (double_of_Z 5))
                 (double_of_Z 32));
        mret true
      else mret false.

Definition send_last : MR unit :=
  r ← st_get;
  _ ← on_bus (bus_send (λ _, mkSensors (last_rpm r) (last_mph r) (last_coolant_temp r)));
  mret tt.

Definition WriteDataToQueue (data : bytes) : MR unit :=
  parsed_data ← ProcessHexData data;
  id ← on_serial (alloc 500);
  id ← st_lift (strncpy id (drop 3 data) 2);
  id ← st_lift (put 2 [0] id);
  _ ← refresh_last;
  known ← update_last id parsed_data;
  if (known : bool) then send_last else mret tt.

Definition ProcessData (fuel : nat) : MR unit :=
  response ← on_serial (alloc 500);
  response ← on_serial (Read fuel response);
  c ← st_lift (char_at response 0);
  if c =? 62 then
    response ← on_serial (Read fuel response);
    WriteDataToQueue response
  else mret tt.

Definition SendPidCode (fuel : nat) (pid_code : bytes) : MR unit :=
  pid ← on_serial (alloc 500);
  pid ← st_lift (strcat pid (lit "01"));
  pid ← st_lift (strcat pid pid_code);
  _ ← on_serial (Write pid);
  ProcessData fuel.

(** Up to three lines, until the interface gives up. *)
Fixpoint ping_loop (n fuel : nat) (response : bytes) : ST (port K) unit :=
  match n with
  | O => mret tt
  | Datatypes.S n =>
      response ← Read fuel response;
      eq ← st_lift (strcmp_eq response (lit "UNABLE TO CONNECT"));
      if (eq : bool) then mret tt else ping_loop n fuel response
  end.

(** [ecu_detected] is set at the end of the first iteration. *)
Definition Reset (fuel : nat) : MR unit :=
  on_serial (
    _ ← Serial.Init fuel;
    _ ← Write (lit "atz");
    _ ← WaitForResponse fuel (lit "ELM327 v1.5") 10;
    _ ← Write (lit "at@1");
    _ ← WaitForResponse fuel (lit "OBDII to RS232 Interpreter") 10;
    _ ← Write (lit "at0");
    _ ← WaitForResponse fuel (lit "?") 10;
    _ ← Write (lit "0100");
    _ ← WaitForResponse fuel (lit ">0100") 10;
    _ ← WaitForResponse fuel (lit "SEARCHING...") 10;
    response ← alloc 500;
    ping_loop 3 fuel response).

(** One round of the constructor's [while (true)]: the values printed at
    its end are read through the pointer of the queue object. *)
Definition reader_round (fuel : nat) : MR unit :=
  _ ← SendPidCode fuel kPidCodeRpm;
  _ ← SendPidCode fuel kPidCodeMph;
  _ ← SendPidCode fuel kPidCodeCoolantTemp;
  _ ← on_bus bus_fetch_latest;
  r ← st_get;
  _ ← st_lift (bus_current (sensors_queue r));
  mret tt.

Fixpoint reader_rounds (n fuel : nat) : MR unit :=
  match n with O => mret tt | Datatypes.S n => _ ← reader_round fuel; reader_rounds n fuel end.

(** The constructor, for [n] rounds. *)
Definition SensorReader (n fuel : nat) : MR unit :=
  _ ← Reset fuel; reader_rounds n fuel.
End Reader.

Arguments reader : clear implicits.
