(* ===== verification/SensorBus.v ===== *)
(** * The queue object as a message bus

    [Queue<T>] keeps the promises its clients rely on: the operations of
    queue-tmpl.h on shared memory are an instance of [MessageBus], and the
    theorems about typed queues discharge [BusLaws]. *)

From S2P Require Import Prelude Options SharedMem Ring RawQueue QueuePool QueueOps QueueSpec.
From S2P Require Import QueueRead QueueIndex QueueCreate QueueStore QueueSystem QueueFeed Time.
From S2P Require Import TypedQueue TypedQueueProofs TypedTheorems Double Serial SensorReader.

(** A process with one queue object; [clock] gives its readings of the time. *)
Record client (V : Type) := mkClient {
  c_world : world V; c_queue : Queue; c_clock : nat → Time; c_calls : nat }.
Arguments mkClient {V} _ _ _ _.
Arguments c_world {V} _.
Arguments c_queue {V} _.
Arguments c_clock {V} _ _.
Arguments c_calls {V} _.

(** What the bodies of the messages show. *)
Definition view_body {V} (x : view (Message V)) : view V := mkView (v_index x) (body <$> v_value x).

Lemma spec_next_body {V} cap (sent : list (Message V)) x :
  spec_next cap (map body sent) (view_body x) =
    ((spec_next cap sent x).1, view_body (spec_next cap sent x).2).
Proof.
  unfold spec_next. rewrite length_map. cbn [v_index view_body]. case_match; [done|].
  unfold view_body. cbn. change (map body sent) with (body <$> sent). by rewrite list_lookup_fmap.
Qed.

Lemma spec_latest_body {V} (sent : list (Message V)) x :
  spec_latest (map body sent) (view_body x) = ((spec_latest sent x).1, view_body (spec_latest sent x).2).
Proof.
  unfold spec_latest. rewrite length_map. cbn [v_index view_body]. case_match; [done|].
  unfold view_body. cbn. change (map body sent) with (body <$> sent). by rewrite fmap_last.
Qed.

Section Bus.
Context {V : Type} (T : message_class) (zero : V) (this : Z) (pool : gset Z) (cap : Z).

(** An operation of the object. *)
Definition on_queue {A} (f : Queue → ST (world V) (A * Queue)) : ST (client V) A := λ c,
  match f (c_queue c) (c_world c) with
  | Ok ((a, o), w) => Ok (a, mkClient w o (c_clock c) (c_calls c))
  | Err e => Err e
  end.

Definition send_now (fill : V → V) : ST (client V) bool := λ c,
  match send_built T zero (c_queue c) fill (c_clock c (c_calls c)) (c_world c) with
  | Ok ((b, o), w) => Ok (b, mkClient w o (c_clock c) (S (c_calls c)))
  | Err e => Err e
  end.

Definition client_shows (c : client V) (sent : list V) (x : view V) : Prop :=
  ∃ q written msgs y, typed_inv this pool cap (c_world c) q (owned (c_queue c)) written msgs ∧
    obj_ok this (c_world c) (c_queue c) written y ∧ sent = map body msgs ∧ x = view_body y.

#[global] Instance typed_bus : MessageBus (client V) V := {|
  bus_fetch_next := on_queue (FetchNext T);
  bus_fetch_latest := on_queue (FetchLatest T);
  bus_send := send_now;
  bus_current c := v ← current (c_queue c) (c_world c); Ok (body v);
  bus_shows := client_shows |}.

Lemma wp_on_queue {A} (f : Queue → ST (world V) (A * Queue)) (Q : A → client V → Prop) c :
  wp (f (c_queue c)) (λ r w, Q r.1 (mkClient w r.2 (c_clock c) (c_calls c))) (c_world c) →
  wp (on_queue f) Q c.
Proof. unfold wp, on_queue. by destruct (f _ _) as [[[a o] w]|]. Qed.

(** A fetch of the object is a fetch of the bus. *)
Lemma client_fetch spec sent x (f : Queue → ST (world V) (bool * Queue)) c
    (spec_b : list (Message V) → view (Message V) → bool * view (Message V)) :
  (∀ msgs y, spec (map body msgs) (view_body y) = ((spec_b msgs y).1, view_body (spec_b msgs y).2)) →
  (∀ q o written msgs y, typed_inv this pool cap (c_world c) q (owned o ⊎ ∅) written msgs →
    obj_ok this (c_world c) o written y → (size (owned o ⊎ ∅) ≤ spare)%nat →
    wp (f o) (fetch_post_typed this pool cap (spec_b msgs y) (c_world c) q ∅ written msgs) (c_world c)) →
  client_shows c sent x →
  wp (on_queue f) (λ b c', b = (spec sent x).1 ∧ client_shows c' sent (spec sent x).2) c.
Proof.
  intros Hspec Hf (q & written & msgs & y & F & O & -> & ->). rewrite Hspec.
  apply wp_on_queue. eapply wp_mono.
  - apply (Hf q (c_queue c) written msgs y); [by rewrite (right_id_L ∅ (⊎))|done|].
    rewrite (right_id_L ∅ (⊎)). pose proof (own_size (sp_msg_ (queue_msg_ (c_queue c)))).
    unfold owned, spare. lia.
  - intros [b o] w (Hb & O' & _ & q' & F' & _). split; [done|]. cbn [snd c_world c_queue].
    rewrite (right_id_L ∅ (⊎)) in F'. by exists q', written, msgs, (spec_b msgs y).2.
Qed.

#[global] Instance typed_bus_laws : BusLaws (client V) V zero cap.
Proof.
  split; change bus_shows with client_shows.
  - intros c sent x (q & written & msgs & y & F & O & -> & ->). cbn. rewrite length_map.
    rewrite (ti_sent _ _ _ _ _ _ _ _ F). apply O.
  - intros c sent x H. eapply client_fetch; [apply spec_next_body| |exact H].
    intros. by apply wp_FetchNext.
  - intros c sent x H. eapply (client_fetch spec_latest); [apply spec_latest_body| |exact H].
    intros. by eapply wp_FetchLatest.
  - intros c sent x f (q & written & msgs & y & F & O & -> & ->) Hlen.
    rewrite length_map, (ti_sent _ _ _ _ _ _ _ _ F) in Hlen.
    pose proof (wp_send_built T zero this pool cap (c_world c) q (c_queue c) (owned (c_queue c))
      written msgs y f (c_clock c (c_calls c)) F O) as H.
    apply wp_run in H as ([b o] & w & E & [= -> ->] & m & q' & F' & _ & Hm0 & Hm & Hcells).
    + unfold wp. cbn. unfold send_now. rewrite E. split; [done|].
      exists q', (written ++ [m]), (msgs ++ [mkMessage (c_clock c (c_calls c)) (f zero)]), y.
      split_and!; [done| |by rewrite map_app|done].
      by eapply (obj_ok_sent this (c_world c) w _ (owned (c_queue c))).
    + pose proof (own_size (sp_msg_ (queue_msg_ (c_queue c)))). unfold owned, spare. lia.
    + destruct (ti_history _ _ _ _ _ _ _ _ F) as [-> _]. done.
  - intros c sent x v (q & written & msgs & y & F & O & -> & ->) Hv. cbn in Hv.
    apply fmap_Some in Hv as (m & Hm & ->).
    pose proof (shows_ok this (c_world c) (c_queue c) written y O) as Hsh. rewrite Hm in Hsh.
    unfold shows in Hsh. cbn. destruct (current (c_queue c) (c_world c)); [|done].
    by injection Hsh as ->.
Qed.
End Bus.
