(* ===== verification/SensorProofs.v ===== *)
(** * Decoding and publishing sensor values *)

From S2P Require Import Prelude ByteOrder QueueTypes QueueTypesProofs Time Double TypedQueueProofs.
From S2P Require Import Serial SensorReader.

(** ** Cutting out spaces *)

Lemma char_at_mid pre c rest : char_at (pre ++ c :: rest) (Z.of_nat (length pre)) = Ok c.
Proof.
  unfold char_at. destruct (Z.ltb_spec (Z.of_nat (length pre)) 0); [lia|].
  by rewrite Nat2Z.id, list_lookup_middle.
Qed.

(** Strings short enough for [size_t] arithmetic. *)
Definition short (b : bytes) : Prop := Z.of_nat (length b) < 2 ^ 63.

Lemma shift_loop_eq n a x b rest :
  0 ∉ a ++ x :: b → short (a ++ x :: b) → (length b < n)%nat →
  ∃ y, y ≠ 0 ∧ shift_loop n (Z.of_nat (length a)) (a ++ x :: b ++ 0 :: rest)
    = Ok (a ++ b ++ y :: 0 :: rest).
Proof.
  revert a x n. induction b as [|c b IH]; intros a x [|n] H0 Hs Hn; cbn [length] in *; try lia.
  - exists x. split; [set_solver|]. cbn [shift_loop app].
    change (a ++ x :: 0 :: rest) with (a ++ [x] ++ 0 :: rest).
    rewrite app_assoc, strlen_app, res_bind_Ok by done. unfold short in Hs. rewrite !length_app in *. cbn in *.
    rewrite uwrap_small by (split; cbn; lia).
    by destruct (Z.ltb_spec (Z.of_nat (length a)) (Z.of_nat (length a + 1) - 1)); [lia|].
  - destruct (IH (a ++ [c]) c n) as (y & Hy & E); [set_solver|..|lia|].
    { unfold short in *. rewrite !length_app in *. cbn in *. lia. }
    exists y. split; [done|]. cbn [shift_loop app].
    assert (strlen (a ++ x :: c :: b ++ 0 :: rest) = Ok (Z.of_nat (length a + S (S (length b))))) as ->.
    { pose proof (strlen_app (a ++ x :: c :: b) rest H0) as E'. rewrite <-app_assoc in E'. cbn in E'.
      by rewrite E', length_app. }
    rewrite res_bind_Ok. unfold short in Hs. rewrite length_app in Hs. cbn in Hs.
    rewrite uwrap_small by (split; cbn; lia).
    destruct (Z.ltb_spec (Z.of_nat (length a)) (Z.of_nat (length a + S (S (length b))) - 1)); [|lia].
    replace (Z.of_nat (length a) + 1) with (Z.of_nat (length (a ++ [x]))) by (rewrite length_app; cbn; lia).
    rewrite (app_assoc a [x] (c :: b ++ 0 :: rest) : a ++ x :: c :: b ++ 0 :: rest = _), char_at_mid, res_bind_Ok.
    rewrite <-app_assoc. cbn [app]. rewrite put_one, res_bind_Ok.
    replace (length (a ++ [x])) with (length (a ++ [c])) by (by rewrite !length_app).
    rewrite E, <-app_assoc. done.
Qed.

(** What the loop computes: the character behind a space that was cut out is
    not looked at. *)
Fixpoint squeeze (s : bytes) : bytes :=
  match s with
  | [] => []
  | c :: s' =>
      if c =? 32 then match s' with [] => [] | d :: s' => d :: squeeze s' end
      else c :: squeeze s'
  end.

Lemma squeeze_loop_eq m n a s rest :
  (length s ≤ m)%nat → 0 ∉ a ++ s → short (a ++ s) → (length s < n)%nat →
  ∃ rest', squeeze_loop n (Z.of_nat (length a)) (a ++ s ++ 0 :: rest) = Ok (a ++ squeeze s ++ 0 :: rest').
Proof.
  revert a s n rest. induction m as [|m IH]; intros a s [|n] rest Hm H0 Hs Hn; cbn [length] in *; try lia;
    cbn [squeeze_loop]; pose proof (strlen_app (a ++ s) rest H0) as El; rewrite <-app_assoc in El;
    rewrite El, res_bind_Ok; clear El; rewrite length_app.
  - destruct s; [|cbn in Hm; lia]. cbn.
    destruct (Z.ltb_spec (Z.of_nat (length a)) (Z.of_nat (length a + 0))); [lia|]. by exists rest.
  - destruct s as [|c s]; cbn [length] in *.
    { destruct (Z.ltb_spec (Z.of_nat (length a)) (Z.of_nat (length a + 0))); [lia|]. by exists rest. }
    destruct (Z.ltb_spec (Z.of_nat (length a)) (Z.of_nat (length a + S (length s)))); [|lia].
    cbn [app]. rewrite char_at_mid, res_bind_Ok. cbn [squeeze].
    replace (Z.of_nat (length a) + 1) with (Z.of_nat (length (a ++ [c]))) by (rewrite length_app; cbn; lia).
    destruct (Z.eqb_spec c 32) as [->|Hc].
    + destruct (shift_loop_eq (S (length (a ++ 32 :: s ++ 0 :: rest))) a 32 s rest) as (y & Hy & Es);
        [done|done|rewrite !length_app; cbn; rewrite length_app; lia|].
      rewrite Es, res_bind_Ok.
      assert (strlen (a ++ s ++ y :: 0 :: rest) = Ok (Z.of_nat (length (a ++ s) + 1))) as ->.
      { pose proof (strlen_app ((a ++ s) ++ [y]) rest) as E. rewrite <-!app_assoc in E. cbn [app] in E.
                rewrite E by set_solver. rewrite !length_app. do 2 f_equal. cbn. lia. }
      rewrite res_bind_Ok.
      replace (Z.of_nat (length (a ++ s) + 1) - 1) with (Z.of_nat (length (a ++ s))) by lia.
      rewrite app_assoc, put_one, res_bind_Ok, <-app_assoc, <-app_assoc. cbn [app].
      destruct s as [|d s].
      * destruct n as [|n]; [lia|]. exists (0 :: rest). cbn [squeeze_loop app].
        rewrite strlen_app, res_bind_Ok by set_solver. rewrite length_app.
        by destruct (Z.ltb_spec (Z.of_nat (length a + length [32])) (Z.of_nat (length a))); [cbn in *; lia|].
      * destruct (IH (a ++ [d]) s n (0 :: rest)) as (rest' & E); [cbn in *; lia|set_solver| |cbn in *; lia|].
        { unfold short in *. rewrite !length_app in *. cbn in *. lia. }
        exists rest'. rewrite <-!app_assoc in E. rewrite length_app in E |- *. exact E.
    + rewrite res_bind_Ok. destruct (IH (a ++ [c]) s n rest) as (rest' & E); [lia|set_solver| |lia|].
      { unfold short in *. rewrite !length_app in *. cbn in *. lia. }
      exists rest'. rewrite <-!app_assoc in E. exact E.
Qed.

(** Without two spaces in a row all of them go. *)
Fixpoint single_spaced (s : bytes) : bool :=
  match s with
  | [] => true
  | c :: s' => (negb (c =? 32) || match s' with [] => true | d :: _ => negb (d =? 32) end) && single_spaced s'
  end.

Lemma squeeze_filter m s : (length s ≤ m)%nat → single_spaced s = true →
  squeeze s = filter (λ c, c ≠ 32) s.
Proof.
  revert s. induction m as [|m IH]; intros [|c s] Hm H; cbn [length] in *; try lia; try done.
  cbn [single_spaced] in H. apply andb_true_iff in H as [H1 H2]. cbn [squeeze].
  destruct (Z.eqb_spec c 32) as [->|Hc].
  - rewrite filter_cons_False by (by intros []). destruct s as [|d s]; [done|]. cbn in H1.
    cbn [single_spaced] in H2. apply andb_true_iff in H2 as [_ H2]. zbool.
    rewrite filter_cons_True by done. f_equal. apply IH; [cbn in *; lia|done].
  - rewrite filter_cons_True by done. f_equal. apply IH; [lia|done].
Qed.

(** ** Hexadecimal numbers *)

Definition hexd (d : Z) : Z := if d <? 10 then 48 + d else 55 + d.

(** A byte as two upper-case digits. *)
Definition hex2 (b : Z) : bytes := [hexd (b / 16); hexd (b mod 16)].

(** Bytes the way the interface prints them, a space behind each. *)
Definition payload (bs : bytes) : bytes := concat (map (λ b, hex2 b ++ [32]) bs).

Definition be_value (acc : Z) (bs : bytes) : Z := fold_left (λ a b, a * 256 + b) bs acc.

Definition nibble (d : Z) : Prop := 0 ≤ d < 16.

Lemma hexd_range d : nibble d → 48 ≤ hexd d ≤ 57 ∨ 65 ≤ hexd d ≤ 70.
Proof. unfold nibble, hexd. destruct (Z.ltb_spec d 10); lia. Qed.

Lemma hex_value_hexd d : nibble d → hex_value (hexd d) = Some d.
Proof.
  intros Hd. unfold hex_value, hexd, nibble in *. destruct (Z.ltb_spec d 10).
  - rewrite !(proj2 (Z.leb_le _ _)) by lia. cbn. f_equal. lia.
  - rewrite (proj2 (Z.leb_gt (55 + d) 57)), andb_false_r by lia.
    rewrite !(proj2 (Z.leb_le _ _)) by lia. cbn. f_equal. lia.
Qed.

Lemma byte_nibbles b : is_byte b → nibble (b / 16) ∧ nibble (b mod 16).
Proof. unfold is_byte, nibble. intros. pose proof (Z.mod_pos_bound b 16). split; [|lia]. split; [apply Z.div_pos; lia|apply Z.div_lt_upper_bound; lia]. Qed.

Definition digits (bs : bytes) : bytes := concat (map hex2 bs).

Lemma digits_value bs acc : Forall is_byte bs → hex_digits acc (digits bs) = be_value acc bs.
Proof.
  intros H. revert acc. induction H as [|b bs Hb H IH]; intros acc; cbn; [done|].
  destruct (byte_nibbles b Hb). rewrite !hex_value_hexd by done.
  rewrite IH. unfold be_value. cbn. f_equal. pose proof (Z.div_mod b 16). lia.
Qed.

Lemma be_value_app acc bs : be_value acc bs = acc * 256 ^ Z.of_nat (length bs) + be_value 0 bs.
Proof.
  revert acc. induction bs as [|b bs IH]; intros acc; cbn [be_value fold_left length].
  - unfold be_value. cbn. lia.
  - change (fold_left _ bs (?x * 256 + b)) with (be_value (x * 256 + b) bs).
    rewrite (IH (acc * 256 + b)), (IH (0 * 256 + b)), Nat2Z.inj_succ, Z.pow_succ_r by lia. ring.
Qed.

Lemma be_value_bound bs : Forall is_byte bs → 0 ≤ be_value 0 bs < 256 ^ Z.of_nat (length bs).
Proof.
  induction 1 as [|b bs Hb H IH]; [done|]. cbn [length].
  change (be_value 0 (b :: bs)) with (be_value (0 * 256 + b) bs).
  rewrite be_value_app, Nat2Z.inj_succ, Z.pow_succ_r by lia. unfold is_byte in Hb. nia.
Qed.

Lemma strtol16_digits bs : Forall is_byte bs → strtol16 (digits bs) = Z.min LONG_MAX (be_value 0 bs).
Proof.
  intros H. rewrite <-digits_value by done. unfold strtol16. destruct H as [|b bs Hb H]; [done|].
  destruct (byte_nibbles b Hb) as [H1 H2]. cbn [digits map concat hex2 app].
  pose proof (hexd_range _ H1) as R1. pose proof (hexd_range _ H2) as R2.
  set (c := hexd (b / 16)) in *. set (d := hexd (b mod 16)) in *.
  cbn [skip_spaces]. unfold is_space.
  rewrite (proj2 (Z.leb_gt c 13)), andb_false_r, (proj2 (Z.eqb_neq c 32)) by lia. cbn [orb].
  assert (Hm : ∀ A (x y z : A) s, match c :: s with 45 :: _ => x | 43 :: _ => y | _ => z end = z).
  { intros. destruct c as [|p|p]; try done. do 6 (destruct p; try done; try lia). }
  rewrite (Hm (bool * bytes)%type (true, d :: concat (map hex2 bs)) (false, d :: concat (map hex2 bs))
    (false, c :: d :: concat (map hex2 bs)) (d :: concat (map hex2 bs)) :
    match c :: d :: concat (map hex2 bs) with
    | 45 :: s => (true, s) | 43 :: s => (false, s) | _ => (false, c :: d :: concat (map hex2 bs)) end = _).
  f_equal. f_equal. unfold skip_0x.
  destruct (concat (map hex2 bs)) as [|e s]; [by destruct c as [|p|p]; try done; do 6 (destruct p; try done)|].
  rewrite (proj2 (Z.eqb_neq d 120)), (proj2 (Z.eqb_neq d 88)) by lia. cbn.
  by destruct c as [|p|p]; try done; do 6 (destruct p; try done).
Qed.

(** ** The text of a response *)

Lemma payload_digits bs : Forall is_byte bs → filter (λ c, c ≠ 32) (payload bs) = digits bs.
Proof.
  induction 1 as [|b bs Hb H IH]; [done|]. destruct (byte_nibbles b Hb) as [H1 H2].
  pose proof (hexd_range _ H1). pose proof (hexd_range _ H2).
  cbn [payload map concat hex2 app]. rewrite !filter_cons_True by lia.
  rewrite filter_cons_False by (by intros []). cbn. do 2 f_equal. exact IH.
Qed.

Lemma payload_spaced bs : Forall is_byte bs → single_spaced (payload bs) = true.
Proof.
  induction 1 as [|b bs Hb H IH]; [done|]. destruct (byte_nibbles b Hb) as [H1 H2].
  pose proof (hexd_range _ H1). pose proof (hexd_range _ H2).
  change (payload (b :: bs)) with (hexd (b / 16) :: hexd (b mod 16) :: 32 :: payload bs).
  cbn [single_spaced]. rewrite !(proj2 (Z.eqb_neq (hexd _) 32)) by lia.
  rewrite IH. cbn [negb orb andb Z.eqb]. change (32 =? 32) with true. cbn [negb orb]. rewrite andb_true_r.
  destruct H as [|b' bs' Hb' H]; [done|]. destruct (byte_nibbles b' Hb') as [H1' _].
  pose proof (hexd_range _ H1'). cbn. by rewrite (proj2 (Z.eqb_neq (hexd _) 32)) by lia.
Qed.

Lemma payload_nonzero bs : Forall is_byte bs → 0 ∉ payload bs.
Proof.
  induction 1 as [|b bs Hb H IH]; [set_solver|]. destruct (byte_nibbles b Hb) as [H1 H2].
  pose proof (hexd_range _ H1). pose proof (hexd_range _ H2).
  change (payload (b :: bs)) with (hexd (b / 16) :: hexd (b mod 16) :: 32 :: payload bs).
  rewrite !not_elem_of_cons. split_and!; (lia || done).
Qed.

Lemma payload_length bs : length (payload bs) = (3 * length bs)%nat.
Proof. induction bs as [|b bs IH]; [done|]. change (length (payload (b :: bs))) with (3 + length (payload bs))%nat. rewrite IH. cbn. lia. Qed.

(** "41 0C 1A F8 ": the mode, the PID and the data bytes. *)
Definition response_text (pid : Z) (bs : bytes) : bytes := payload (0x41 :: pid :: bs).

Lemma response_parts pid bs : ∃ pre, length pre = 6%nat ∧ response_text pid bs = pre ++ payload bs ∧
  response_text pid bs = hex2 0x41 ++ [32] ++ hex2 pid ++ [32] ++ payload bs.
Proof. exists (hex2 0x41 ++ [32] ++ hex2 pid ++ [32]). split_and!; done. Qed.

(** ** The reader's operations *)

(** What a value of a PID makes of the last known values. *)
Definition decode (pid n : Z) (v : SensorsQueue) : option SensorsQueue :=
  if pid =? 0x0C then
    Some (mkSensors (ddiv (double_of_Z n) (double_of_Z 4)) (mph v) (coolant_temp v))
  else if pid =? 0x0D then
    Some (mkSensors (rpm v) (ddiv (double_of_Z n) d1_609) (coolant_temp v))
  else if pid =? 0x05 then
    Some (mkSensors (rpm v) (mph v)
      (dadd (ddiv (dmul (double_of_Z (n - 40)) (double_of_Z 9)) (double_of_Z 5)) (double_of_Z 32)))
  else None.

Section Reader.
Context {K : Type} `{!Platform K} {S : Type} `{!MessageBus S SensorsQueue}.
(** [malloc] and [new char[n]] return at least [n] bytes. *)
Hypothesis malloc_size : ∀ n (k : K), n ≤ Z.of_nat (length (sys_malloc n k).1).

Implicit Types r : reader K S.

Definition with_dev (k : K) r : reader K S :=
  mkReader (mkPort k (serial_fd_ (serial_ r))) (sensors_queue r) (last_rpm r) (last_mph r)
    (last_coolant_temp r).

(** The three statics as a message. *)
Definition last_values r : SensorsQueue := mkSensors (last_rpm r) (last_mph r) (last_coolant_temp r).

Lemma wp_alloc n (Q : bytes → reader K S → Prop) r :
  (∀ block k, n ≤ Z.of_nat (length block) → Q block (with_dev k r)) →
  wp (on_serial (alloc n)) Q r.
Proof.
  intros HQ. unfold wp, on_serial, alloc, sys.
  pose proof (malloc_size n (dev (serial_ r))) as H.
  destruct (sys_malloc n (dev (serial_ r))) as [block k]. by apply HQ.
Qed.

Lemma wp_on_bus {A} (m : ST S A) (Q : A → reader K S → Prop) r :
  wp m (λ a b, Q a (mkReader (serial_ r) b (last_rpm r) (last_mph r) (last_coolant_temp r)))
    (sensors_queue r) →
  wp (on_bus m) Q r.
Proof. unfold wp, on_bus. by destruct (m (sensors_queue r)) as [[a b]|]. Qed.

Lemma ProcessHexData_ok pre bs rest r :
  length pre = 6%nat → 0 ∉ pre → Forall is_byte bs → (length bs ≤ 3)%nat →
  wp (ProcessHexData (pre ++ payload bs ++ 0 :: rest))
    (λ v r', v = be_value 0 bs ∧ ∃ k, r' = with_dev k r) r.
Proof.
  intros Hpre H0 Hb Hlen. pose proof (payload_nonzero bs Hb) as Hp0.
  pose proof (payload_length bs) as Hpl. unfold ProcessHexData.
  apply wp_bind, wp_alloc. intros block k Hsz. apply wp_bind.
  assert (strcpy block (pre ++ payload bs ++ 0 :: rest) =
    Ok (pre ++ payload bs ++ 0 :: drop (length pre + length (payload bs) + 1) block)) as E.
  { unfold strcpy. rewrite app_assoc, cstr_app, res_bind_Ok by set_solver.
    pose proof (put_at 0 ((pre ++ payload bs) ++ [0]) [] block) as E. cbn [app] in E.
    rewrite E by (rewrite ?length_app; cbn; lia). rewrite !length_app, <-!app_assoc. done. }
  eapply wp_lift; [exact E|]. rewrite drop_app_length' by done. cbn zeta.
  apply wp_bind.
  destruct (squeeze_loop_eq (length (payload bs))
    (Datatypes.S (length (payload bs ++ 0 :: drop (length pre + length (payload bs) + 1) block)))
    [] (payload bs) (drop (length pre + length (payload bs) + 1) block)) as (rest' & Es).
  { done. } { done. } { unfold short. cbn [app]. lia. } { rewrite length_app. cbn. lia. }
  eapply wp_lift; [exact Es|]. cbn [app].
  rewrite (squeeze_filter _ _ (Nat.le_refl _)), payload_digits by (by apply payload_spaced || done).
  apply wp_bind. eapply wp_lift.
  { apply cstr_app. rewrite <-payload_digits by done. intros [_ ?]%list_elem_of_filter. done. }
  apply wp_ret. split; [|by exists k]. rewrite strtol16_digits by done.
  pose proof (be_value_bound bs Hb) as Hv.
  assert (256 ^ Z.of_nat (length bs) ≤ 256 ^ 3) by (apply Z.pow_le_mono_r; lia).
  rewrite Z.min_r by (unfold LONG_MAX; cbn in *; lia). apply swrap_small; [lia|].
  unfold in_signed. cbn in *. lia.
Qed.

Context (cap : Z) `{!BusLaws S SensorsQueue zero_sensors cap}.

(** The values a new message starts from: the newest message, if there is
    one this process has not fetched, else the statics. *)
Definition base (sent : list SensorsQueue) (x : view SensorsQueue) r : SensorsQueue :=
  if Z.of_nat (length sent) <=? v_index x then last_values r else default zero_sensors (last sent).

Definition published (pid n : Z) (sent : list SensorsQueue) (x : view SensorsQueue) r r' : Prop :=
  let b := base sent x r in
  bus_shows (sensors_queue r') (sent ++ option_list (decode pid n b)) (spec_latest sent x).2 ∧
  last_values r' = default b (decode pid n b) ∧
  serial_fd_ (serial_ r') = serial_fd_ (serial_ r).

Lemma hex2_nonzero b : is_byte b → 0 ∉ hex2 b.
Proof.
  intros Hb. destruct (byte_nibbles b Hb) as [H1 H2].
  pose proof (hexd_range _ H1). pose proof (hexd_range _ H2).
  unfold hex2. rewrite !not_elem_of_cons. split_and!; [lia|lia|set_solver].
Qed.

Lemma hex2_inj a b : is_byte a → is_byte b → hex2 a = hex2 b → a = b.
Proof.
  intros Ha Hb [= E1 E2]. destruct (byte_nibbles a Ha) as [A1 A2], (byte_nibbles b Hb) as [B1 B2].
  apply (f_equal hex_value) in E1, E2. rewrite !hex_value_hexd in E1, E2 by done.
  pose proof (Z.div_mod a 16). pose proof (Z.div_mod b 16). simplify_eq. lia.
Qed.

(** Comparing the PID of a response with a constant. *)
Lemma pid_compare pid code name rest :
  is_byte pid → is_byte code → chars name = hex2 code →
  strcmp_eq (hex2 pid ++ 0 :: rest) (lit name) = Ok (pid =? code).
Proof.
  intros Hp Hc Hn. rewrite strcmp_eq_lit by (rewrite ?Hn; by apply hex2_nonzero). rewrite Hn.
  f_equal. destruct (Z.eqb_spec pid code) as [->|Hne]; [by rewrite bool_decide_true|].
  rewrite bool_decide_false; [done|]. intros E. by apply Hne, hex2_inj.
Qed.

(** The two characters of the PID, copied out. *)
Lemma copy_id pid bs rest block : is_byte pid → (3 ≤ length block)%nat →
  ∃ rest', (id ← strncpy block (drop 3 (response_text pid bs ++ 0 :: rest)) 2; put 2 [0] id)
    = Ok (hex2 pid ++ 0 :: rest').
Proof.
  intros Hp Hl. destruct block as [|x [|y [|z block]]]; cbn in Hl; try lia.
  pose proof (hex2_nonzero pid Hp) as H0. unfold hex2 in H0. rewrite !not_elem_of_cons in H0.
  destruct H0 as (H1 & H2 & _). exists block.
  change (drop 3 (response_text pid bs ++ 0 :: rest))
    with (hexd (pid / 16) :: hexd (pid mod 16) :: 32 :: payload bs ++ 0 :: rest).
  unfold strncpy. cbn [strn]. rewrite !(proj2 (Z.eqb_neq _ _)) by lia. rewrite !res_bind_Ok.
  pose proof (put_at 0 [hexd (pid / 16); hexd (pid mod 16)] [] (x :: y :: z :: block)) as E. cbn [app] in E.
  rewrite E by (cbn; lia). rewrite res_bind_Ok. cbn [drop length].
  exact (put_one [hexd (pid / 16); hexd (pid mod 16)] 0 z block).
Qed.

(** The part after decoding: refresh the statics, update one, send. *)
Lemma wp_refresh sent x r (Q : unit → reader K S → Prop) :
  bus_shows (sensors_queue r) sent x →
  (∀ q, bus_shows q sent (spec_latest sent x).2 →
    Q tt (mkReader (serial_ r) q (rpm (base sent x r)) (mph (base sent x r))
      (coolant_temp (base sent x r)))) →
  wp refresh_last Q r.
Proof.
  intros Hs HQ. unfold refresh_last. apply wp_bind, wp_on_bus. eapply wp_mono; [by apply (bus_latest_ok (cap := cap))|].
  cbn beta. intros b q [-> Hq]. unfold base, spec_latest in *.
  destruct (Z.leb_spec (Z.of_nat (length sent)) (v_index x)) as [Hle|Hlt]; cbn [fst snd] in *.
  - apply wp_ret. by apply HQ.
  - assert (∃ v, last sent = Some v) as [v Hv].
    { destruct (last sent) eqn:E; [by eexists|]. apply last_None in E as ->. cbn in Hlt.
      destruct (bus_range (cap := cap) _ _ _ Hs). lia. }
    apply wp_bind, wp_get, wp_bind. cbn [sensors_queue].
    eapply wp_lift; [eapply (bus_current_ok (cap := cap)); [exact Hq|exact Hv]|].
    rewrite Hv in HQ, Hq. by apply HQ.
Qed.

(** Sending the statics. *)
Lemma wp_send_last sent x r :
  bus_shows (sensors_queue r) sent x → Z.of_nat (length sent) + 1 < 2 ^ 31 →
  wp send_last (λ _ r', bus_shows (sensors_queue r') (sent ++ [last_values r]) x ∧
      last_values r' = last_values r ∧ serial_ r' = serial_ r) r.
Proof.
  intros Hs Hlen. apply wp_bind, wp_get, wp_bind, wp_on_bus.
  eapply wp_mono; [by eapply (bus_send_ok (cap := cap))|]. cbn beta. intros b q [_ Hq].
  apply wp_ret. done.
Qed.

Lemma WriteDataToQueue_ok pid bs rest sent x r :
  is_byte pid → Forall is_byte bs → (length bs ≤ 3)%nat →
  bus_shows (sensors_queue r) sent x → Z.of_nat (length sent) + 1 < 2 ^ 31 →
  wp (WriteDataToQueue (response_text pid bs ++ 0 :: rest))
    (λ _ r', published pid (be_value 0 bs) sent x r r') r.
Proof.
  intros Hp Hb Hlen Hs Hsend. destruct (response_parts pid bs) as (pre & Hpre & Ht & Ht').
  pose proof (be_value_bound bs Hb) as Hv.
  assert (256 ^ Z.of_nat (length bs) ≤ 256 ^ 3) by (apply Z.pow_le_mono_r; lia).
  unfold WriteDataToQueue. apply wp_bind. eapply wp_mono.
  { rewrite Ht, <-app_assoc. apply ProcessHexData_ok; try done.
    assert (0 ∉ response_text pid bs) as H0 by (apply payload_nonzero; repeat (constructor; [done|]); done).
    rewrite Ht in H0. set_solver. }
  cbn beta. intros v r1 (-> & k1 & ->). set (n := be_value 0 bs) in *.
  apply wp_bind, wp_alloc. intros block k2 Hsz.
  destruct (copy_id pid bs rest block Hp) as (rest' & Hid); [lia|].
  apply res_bind_ok in Hid as (id1 & Hid1 & Hid2).
  apply wp_bind. eapply wp_lift; [exact Hid1|]. apply wp_bind. eapply wp_lift; [exact Hid2|].
  apply wp_bind, (wp_refresh sent x (with_dev k2 (with_dev k1 r))); [exact Hs|].
  intros q Hq. change (base sent x (with_dev k2 (with_dev k1 r))) with (base sent x r).
  unfold published. set (v := base sent x r). cbn zeta. set (r2 := mkReader _ _ _ _ _).
  assert (Hup : wp (update_last (hex2 pid ++ 0 :: rest') n) (λ known r', 
    known = bool_decide (is_Some (decode pid n v)) ∧ last_values r' = default v (decode pid n v) ∧
    sensors_queue r' = q ∧ serial_ r' = serial_ r2) r2).
  { unfold update_last, decode. apply wp_bind, wp_get, wp_bind.
    eapply wp_lift; [by apply (pid_compare pid 0x0C)|].
    destruct (Z.eqb_spec pid 0x0C); [done|]. apply wp_bind.
    eapply wp_lift; [by apply (pid_compare pid 0x0D)|].
    destruct (Z.eqb_spec pid 0x0D); [done|]. apply wp_bind.
    eapply wp_lift; [by apply (pid_compare pid 0x05)|].
    destruct (Z.eqb_spec pid 0x05); [|by destruct v].
    apply wp_bind. eapply wp_lift; [apply chk_ok; unfold in_signed; cbn in *; lia|]. done. }
  apply wp_bind. eapply wp_mono; [exact Hup|]. cbn beta.
  intros known r3 (-> & Hv3 & Hq3 & Hs3). destruct (decode pid n v) as [v'|]; cbn.
  - eapply wp_mono; [eapply (wp_send_last sent _ r3); [by rewrite Hq3|done]|]. cbn beta.
    intros _ r4 (H1 & H2 & H3). rewrite H2, H3, Hv3 in *. by rewrite Hs3.
  - apply wp_ret. rewrite Hq3, Hs3, app_nil_r. done.
Qed.
End Reader.
