(* ===== verification/Dashboard.v ===== *)
(** * The dashboard: dashboard/dashboard.cc

    The display process: an SDL main loop that updates and draws at most once
    per [UPDATE_INTERVAL], and a tachometer of 125 ticks drawn from the next
    message of the sensors queue.  SDL's side is the class [Sdl], [sin] of
    the C library is a parameter, and what is drawn is the list of renderer
    calls. *)

From S2P Require Import Prelude Time TypedQueueProofs Double Serial SensorReader.

Definition DISPLAY_WIDTH : Z := 1280.
Definition DISPLAY_HEIGHT : Z := 720.
Definition UPDATE_INTERVAL : Z := 1000 / 60.
Definition HERO_SPEED : Z := 2.
Definition SDL_ALPHA_OPAQUE : Z := 255.

Definition SDLK_RIGHT : Z := 0x4000004F.
Definition SDLK_LEFT : Z := 0x40000050.
Definition SDLK_DOWN : Z := 0x40000051.
Definition SDLK_UP : Z := 0x40000052.

Record Sprite := mkSprite { x : Z; y : Z }.

Record Game := mkGame {
  keys : gmap Z Z;
  frameSkip : Z;
  running : Z;
  window : Z;
  renderer : Z;
  hero : Sprite }.

Definition Game_new : Game := mkGame ∅ 0 0 0 0 (mkSprite 0 0).

Record SDL_Rect := mkRect { rx : Z; ry : Z; rw : Z; rh : Z }.

(** Calls of the renderer and the window. *)
Inductive call : Type :=
| SetRenderDrawColor (r g b a : Z)
| RenderClear
| RenderFillRect (rc : SDL_Rect)
| RenderPresent
| SetWindowTitle (fps : Z)
| DestroyRenderer (renderer : Z)
| DestroyWindow (window : Z)
| Quit.

Inductive SDL_Event : Set :=
| EvQuit | EvKeyDown (sym : Z) | EvKeyUp (sym : Z) | EvMouse | EvOther.

Class Sdl (K : Type) := {
  SDL_Init : K → Z * K;
  (** The result, the window and the renderer. *)
  SDL_CreateWindowAndRenderer : Z → Z → K → Z * Z * Z * K;
  SDL_PollEvent : K → option SDL_Event * K;
  (** A [Uint32] of milliseconds. *)
  SDL_GetTicks : K → Z * K;
  SDL_Delay : Z → K → K }.

(** ** The tachometer *)

Definition num_ticks : Z := 125.
Definition tick_separate : Z := 10.
Definition upper_rpm_threshold : Z := 6500.

(** 0.16, 0.4 and M_PI, rounded to doubles. *)
Definition d0_16 : double := dyadic 5764607523034235 (-55).
Definition d0_4 : double := dyadic 7205759403792794 (-54).
Definition M_PI : double := dyadic 7074237752028440 (-51).

Definition HIGH_RPM : res Z :=
  int_of_double (dsub (double_of_Z upper_rpm_threshold) (dmul (double_of_Z upper_rpm_threshold) d0_16)).
Definition MID_RPM : res Z :=
  int_of_double (dsub (double_of_Z upper_rpm_threshold) (dmul (double_of_Z upper_rpm_threshold) d0_4)).

Definition tick_rpm (i : Z) : res Z :=
  int_of_double (dmul (ddiv (double_of_Z i) (double_of_Z num_ticks)) (double_of_Z upper_rpm_threshold)).

(** The colour of a tick; [rpm] has been limited already. *)
Definition tick_color (high mid tick : Z) (rpm : double) : Z * Z * Z :=
  let dim :=
    if high <? tick then (150, 50, 50)
    else if mid <? tick then (120, 80, 50)
    else (50, 80, 50) in
  if dltb (double_of_Z tick) rpm then
    if high <? tick then (255, 0, 0)
    else if mid <? tick then (255, 255, 0)
    else (0, 255, 0)
  else dim.

Definition tick_x (i : Z) : Z :=
  DISPLAY_WIDTH / 2 - num_ticks / 2 * tick_separate + i * tick_separate.

(** [if (rpm > upper_rpm_threshold) rpm = 0;] *)
Definition limit_rpm (rpm : double) : double :=
  if dltb (double_of_Z upper_rpm_threshold) rpm then double_of_Z 0 else rpm.

Section Dashboard.
Context (sin : double → double).

Definition tick_y (i : Z) : res Z :=
  int_of_double (dsub (double_of_Z 80) (dmul (double_of_Z 50)
    (sin (ddiv (dmul M_PI (double_of_Z i)) (double_of_Z num_ticks))))).

Definition fillRect (rc : SDL_Rect) (r g b : Z) : list call :=
  [SetRenderDrawColor r g b SDL_ALPHA_OPAQUE; RenderFillRect rc].

Definition draw_tick (high mid i : Z) (rpm : double) : res (list call) :=
  y ← tick_y i;
  t ← tick_rpm i;
  let '(r, g, b) := tick_color high mid t rpm in
  Ok (fillRect (mkRect (tick_x i) y (tick_separate / 2) 25) r g b).

(** [n] ticks starting at [i]. *)
Fixpoint draw_ticks (n : nat) (i high mid : Z) (rpm : double) : res (list call) :=
  match n with
  | O => Ok []
  | S n =>
      a ← draw_tick high mid i rpm;
      rest ← draw_ticks n (i + 1) high mid rpm;
      Ok (a ++ rest)
  end.

Context {K : Type} `{!Sdl K} {S : Type} `{!MessageBus S SensorsQueue}.
(** What other processes do to the queue while this one sleeps. *)
Context (others : K → S → S).

Record display := mkDisplay { sdl : K; game : Game; queue : S; calls : list call }.

Notation MD := (ST display).

Definition emit (l : list call) : MD unit :=
  st_modify (λ d, mkDisplay (sdl d) (game d) (queue d) (calls d ++ l)).
Definition on_game (f : Game → res Game) : MD unit := λ d,
  match f (game d) with Ok g => Ok (tt, mkDisplay (sdl d) g (queue d) (calls d)) | Err e => Err e end.
Definition ask {A} (f : K → A * K) : MD A := λ d,
  let '(a, k) := f (sdl d) in Ok (a, mkDisplay k (game d) (queue d) (calls d)).
Definition on_queue_object {A} (m : ST S A) : MD A := λ d,
  match m (queue d) with
  | Ok (a, q) => Ok (a, mkDisplay (sdl d) (game d) q (calls d))
  | Err e => Err e
  end.

Definition draw : MD unit :=
  _ ← emit [SetRenderDrawColor 0 0 0 SDL_ALPHA_OPAQUE; RenderClear];
  high ← st_lift HIGH_RPM;
  mid ← st_lift MID_RPM;
  fetched ← on_queue_object bus_fetch_next;
  if negb fetched then mret tt
  else
    d ← st_get;
    v ← st_lift (bus_current (queue d));
    ticks ← st_lift (draw_ticks (Z.to_nat num_ticks) 0 high mid (limit_rpm (rpm v)));
    _ ← emit ticks;
    emit [RenderPresent].

(** ** Keys and the sprite *)

(** [keys[k]]: looking a key up creates it. *)
Definition key_down (g : Game) (k : Z) : bool * Game :=
  let v := default 0 (keys g !! k) in
  (negb (v =? 0),
   mkGame (<[k := v]> (keys g)) (frameSkip g) (running g) (window g) (renderer g) (hero g)).

Definition move (g : Game) (dx dy : Z) : res Game :=
  hx ← i32 (x (hero g) + dx);
  hy ← i32 (y (hero g) + dy);
  Ok (mkGame (keys g) (frameSkip g) (running g) (window g) (renderer g) (mkSprite hx hy)).

Definition update (g : Game) : res Game :=
  let '(down, g) := key_down g SDLK_LEFT in
  if (down : bool) then move g (- HERO_SPEED) 0
  else
    let '(down, g) := key_down g SDLK_RIGHT in
    if (down : bool) then move g HERO_SPEED 0
    else
      let '(down, g) := key_down g SDLK_UP in
      if (down : bool) then move g 0 (- HERO_SPEED)
      else
        let '(down, g) := key_down g SDLK_DOWN in
        if (down : bool) then move g 0 HERO_SPEED else Ok g.

Definition set_key (g : Game) (k v : Z) : Game :=
  mkGame (<[k := v]> (keys g)) (frameSkip g) (running g) (window g) (renderer g) (hero g).
Definition onKeyDown (g : Game) (sym : Z) : Game := set_key g sym 1.
Definition onKeyUp (g : Game) (sym : Z) : Game := set_key g sym 0.
Definition set_running (g : Game) (v : Z) : Game :=
  mkGame (keys g) (frameSkip g) v (window g) (renderer g) (hero g).
Definition onQuit (g : Game) : Game := set_running g 0.

Definition handle (e : option SDL_Event) (g : Game) : Game :=
  match e with
  | Some EvQuit => onQuit g
  | Some (EvKeyDown k) => onKeyDown g k
  | Some (EvKeyUp k) => onKeyUp g k
  | _ => g
  end.

Definition fpsChanged (fps : Z) : MD unit := emit [SetWindowTitle fps].

(** ** The main loop *)

Record loop := mkLoop { past : Z; pastFps : Z; fps : Z; framesSkipped : Z }.

(** The conversion of a [Uint32] to [int]. *)
Definition get_ticks : MD Z := t ← ask SDL_GetTicks; mret (swrap 32 t).

(** [SDL_Delay(1)] *)
Definition delay : MD unit := λ d,
  let k := SDL_Delay 1 (sdl d) in
  Ok (tt, mkDisplay k (game d) (others k (queue d)) (calls d)).

(** One iteration of [while (running)]. *)
Definition iteration (l : loop) : MD loop :=
  event ← ask SDL_PollEvent;
  _ ← on_game (λ g, Ok (handle event g));
  now ← get_ticks;
  timeElapsed ← st_lift (i32 (now - past l));
  l ← (if UPDATE_INTERVAL <=? timeElapsed then
         _ ← on_game update;
         d ← st_get;
         skipped ← st_lift (i32 (framesSkipped l + 1));
         if frameSkip (game d) <=? framesSkipped l then
           _ ← draw;
           fps' ← st_lift (i32 (fps l + 1));
           mret (mkLoop now (pastFps l) fps' 0)
         else mret (mkLoop now (pastFps l) (fps l) skipped)
       else mret l);
  since ← st_lift (i32 (now - pastFps l));
  l ← (if 1000 <=? since then
         _ ← fpsChanged (fps l);
         mret (mkLoop (past l) now 0 (framesSkipped l))
       else mret l);
  _ ← delay;
  mret l.

(** [fuel] bounds the iterations; [true] when the loop ended. *)
Fixpoint run_loop (fuel : nat) (l : loop) : MD bool :=
  d ← st_get;
  if running (game d) =? 0 then mret true
  else match fuel with O => mret false | Datatypes.S fuel => l ← iteration l; run_loop fuel l end.

Definition run (fuel : nat) : MD bool :=
  past ← get_ticks;
  run_loop fuel (mkLoop past past 0 0).

Definition start (fuel : nat) : MD bool :=
  r ← ask SDL_Init;
  if negb (r =? 0) then mret true
  else
    '(r, w, rd) ← ask (SDL_CreateWindowAndRenderer DISPLAY_WIDTH DISPLAY_HEIGHT);
    _ ← on_game (λ g, Ok (mkGame (keys g) (frameSkip g) (running g) w rd (hero g)));
    if negb (r =? 0) then mret true
    else
      _ ← on_game (λ g, Ok (set_running g 1));
      run fuel.

Definition stop : MD unit :=
  d ← st_get;
  let g := game d in
  _ ← (if negb (renderer g =? 0) then emit [DestroyRenderer (renderer g)] else mret tt);
  _ ← (if negb (window g =? 0) then emit [DestroyWindow (window g)] else mret tt);
  _ ← on_game (λ g, Ok (mkGame (keys g) (frameSkip g) (running g) 0 0 (hero g)));
  emit [Quit].

(** [main]: construct, start, destruct. *)
Definition game_main (fuel : nat) : MD unit :=
  _ ← on_game (λ _, Ok Game_new);
  _ ← start fuel;
  stop.
End Dashboard.

Arguments display : clear implicits.

(** ** The gauge *)

(** The speed a tick stands for, as computed. *)
Definition tick_value (i : Z) : Z := match tick_rpm i with Ok t => t | Err _ => 0 end.

Definition tick_indices : list Z := seqZ 0 num_ticks.

(** The colours by position: the zones start at ticks 76 and 106. *)
Definition gauge_color (i : Z) (lit : bool) : Z * Z * Z :=
  if 105 <? i then if lit then (255, 0, 0) else (150, 50, 50)
  else if 75 <? i then if lit then (255, 255, 0) else (120, 80, 50)
  else if lit then (0, 255, 0) else (50, 80, 50).

Lemma ticks_checked :
  forallb (λ i,
    match tick_rpm i with Ok _ => true | Err _ => false end &&
    bool_decide ((5460 <? tick_value i) = (105 <? i)) &&
    bool_decide ((3900 <? tick_value i) = (75 <? i)) &&
    ((i =? 124) || dltb (double_of_Z (tick_value i)) (double_of_Z (tick_value (i + 1)))))
    tick_indices = true.
Proof. vm_compute. reflexivity. Qed.

Lemma thresholds : HIGH_RPM = Ok 5460 ∧ MID_RPM = Ok 3900.
Proof. split; vm_compute; reflexivity. Qed.

Lemma tick_facts i : 0 ≤ i < num_ticks →
  tick_rpm i = Ok (tick_value i) ∧
  (∀ v, tick_color 5460 3900 (tick_value i) v = gauge_color i (dltb (double_of_Z (tick_value i)) v)) ∧
  (i ≠ 124 → dltb (double_of_Z (tick_value i)) (double_of_Z (tick_value (i + 1))) = true).
Proof.
  intros Hi. pose proof ticks_checked as H. rewrite forallb_forall in H.
  specialize (H i). assert (In i tick_indices) as Hin by (apply list_elem_of_In, elem_of_seqZ; lia).
  specialize (H Hin). rewrite !andb_true_iff, !bool_decide_eq_true, orb_true_iff in H.
  destruct H as (((H1 & H2) & H3) & H4). split_and!.
  - unfold tick_value. by destruct (tick_rpm i).
  - intros v. unfold tick_color, gauge_color. rewrite H2, H3.
    destruct (dltb _ _), (105 <? i), (75 <? i); done.
  - intros Hne. destruct H4 as [H4|H4]; [by apply Z.eqb_eq in H4|done].
Qed.

(** A tick is lit when it stands for less than the current speed. *)
Definition lit (v : double) (i : Z) : bool := dltb (double_of_Z (tick_value i)) v.

Lemma lit_down v i : 0 ≤ i → i + 1 < num_ticks → lit v (i + 1) = true → lit v i = true.
Proof.
  intros H0 H1 Hl. destruct (tick_facts i) as (_ & _ & H); [lia|].
  eapply dltb_trans; [|exact Hl]. apply H. unfold num_ticks in *. lia.
Qed.

(** A predicate that goes down is an initial segment. *)
Lemma initial_segment (p : Z → bool) (n : nat) :
  (∀ i, 0 ≤ i → i + 1 < Z.of_nat n → p (i + 1) = true → p i = true) →
  ∃ k, 0 ≤ k ≤ Z.of_nat n ∧ ∀ i, 0 ≤ i < Z.of_nat n → p i = (i <? k).
Proof.
  induction n as [|n IH]; intros Hd; [by exists 0; split; [lia|]; lia|].
  destruct IH as (k & Hk & Hp); [intros; apply Hd; (done || lia)|].
  destruct (p (Z.of_nat n)) eqn:E.
  - assert (Hall : ∀ m : nat, (m ≤ n)%nat → p (Z.of_nat (n - m)) = true).
    { induction m as [|m IHm]; intros Hm; [by rewrite Nat.sub_0_r|].
      apply Hd; [lia|lia|]. rewrite <-(IHm ltac:(lia)). f_equal. lia. }
    exists (Z.of_nat (S n)). split; [lia|]. intros i Hi. rewrite (proj2 (Z.ltb_lt _ _)) by lia.
    rewrite <-(Hall (n - Z.to_nat i)%nat) by lia. f_equal. lia.
  - exists k. split; [lia|]. intros i Hi. destruct (decide (i = Z.of_nat n)) as [->|Hne]; [|apply Hp; lia].
    rewrite E. symmetry. apply Z.ltb_ge. lia.
Qed.

(** The lit ticks are the first [k] ones. *)
Lemma lit_prefix v : ∃ k, 0 ≤ k ≤ num_ticks ∧ ∀ i, 0 ≤ i < num_ticks → lit v i = (i <? k).
Proof. apply (initial_segment (lit v) 125). intros. by apply lit_down. Qed.

Section Draw.
Context (sin : double → double).
(** The height of every tick is an [int]. *)
Hypothesis sin_moderate : ∀ i, 0 ≤ i < num_ticks → ∃ z, tick_y sin i = Ok z.

Definition tick_calls (v : double) (i : Z) : list call :=
  let '(r, g, b) := gauge_color i (lit v i) in
  fillRect (mkRect (20 + 10 * i) (match tick_y sin i with Ok z => z | Err _ => 0 end) 5 25) r g b.

Lemma draw_tick_eq v i : 0 ≤ i < num_ticks → draw_tick sin 5460 3900 i v = Ok (tick_calls v i).
Proof.
  intros Hi. destruct (tick_facts i Hi) as (H1 & H2 & _). destruct (sin_moderate i Hi) as [z Hz].
  unfold draw_tick, tick_calls. rewrite Hz, H1, !res_bind_Ok, H2. fold (lit v i).
  destruct (gauge_color i (lit v i)) as [[r g] b]. do 2 f_equal.
  replace (tick_x i) with (20 + 10 * i); [done|]. unfold tick_x, DISPLAY_WIDTH, num_ticks, tick_separate.
  change (1280 / 2) with 640. change (125 / 2) with 62. lia.
Qed.

Lemma draw_ticks_eq v n i : 0 ≤ i → i + Z.of_nat n ≤ num_ticks →
  draw_ticks sin n i 5460 3900 v = Ok (concat (map (tick_calls v) (seqZ i (Z.of_nat n)))).
Proof.
  revert i. induction n as [|n IH]; intros i H0 Hn; [done|]. cbn [draw_ticks].
  rewrite draw_tick_eq, res_bind_Ok, IH, res_bind_Ok by lia.
  rewrite (seqZ_cons i (Z.of_nat (S n))) by lia. rewrite Nat2Z.inj_succ, Z.pred_succ. done.
Qed.

Context {K : Type} `{!Sdl K} {S : Type} `{!MessageBus S SensorsQueue}.
Context (cap : Z) `{!BusLaws S SensorsQueue zero_sensors cap}.

Definition clear_calls : list call := [SetRenderDrawColor 0 0 0 SDL_ALPHA_OPAQUE; RenderClear].

Definition gauge_calls (v : double) : list call :=
  concat (map (tick_calls v) (seqZ 0 num_ticks)) ++ [RenderPresent].

(** What [draw] sends to the renderer for the next message, if any. *)
Definition frame (fresh : bool) (shown : option SensorsQueue) : list call :=
  match fresh, shown with
  | true, Some v => clear_calls ++ gauge_calls (limit_rpm (rpm v))
  | _, _ => clear_calls
  end.

Lemma wp_emit l (Q : unit → display K S → Prop) d :
  Q tt (mkDisplay (sdl d) (game d) (queue d) (calls d ++ l)) → wp (emit l) Q d.
Proof. done. Qed.

Lemma draw_all_eq v :
  draw_ticks sin (Z.to_nat num_ticks) 0 5460 3900 v =
    Ok (concat (map (tick_calls v) (seqZ 0 num_ticks))).
Proof.
  rewrite draw_ticks_eq by (unfold num_ticks; lia).
  rewrite Z2Nat.id by (unfold num_ticks; lia). done.
Qed.

Lemma spec_next_value {V} (sent : list V) x : 1 ≤ cap → 0 ≤ v_index x →
  (spec_next cap sent x).1 = true → ∃ v, v_value (spec_next cap sent x).2 = Some v.
Proof.
  intros Hc Hi. unfold spec_next. destruct (Z.leb_spec (Z.of_nat (length sent)) (v_index x)); [done|].
  intros _. cbn. apply lookup_lt_is_Some_2. lia.
Qed.

Lemma wp_draw (d : display K S) sent xv : 1 ≤ cap → bus_shows (queue d) sent xv →
  let '(fresh, xv') := spec_next cap sent xv in
  wp (draw sin) (λ _ d', bus_shows (queue d') sent xv' ∧ game d' = game d ∧ sdl d' = sdl d ∧
    calls d' = calls d ++ frame fresh (v_value xv')) d.
Proof.
  intros Hcap Hs. destruct (spec_next cap sent xv) as [fresh xv'] eqn:E.
  destruct thresholds as [Hh Hm]. unfold draw.
  apply wp_bind, wp_emit.
  apply wp_bind. eapply wp_lift; [exact Hh|]. apply wp_bind. eapply wp_lift; [exact Hm|].
  apply wp_bind. pose proof (bus_next_ok (cap := cap) _ _ _ Hs) as Hn. rewrite E in Hn. cbn [fst snd] in Hn.
  apply wp_run in Hn as (b & q & Hq & -> & Hs'). unfold wp at 1, on_queue_object. cbn [queue]. rewrite Hq.
  destruct fresh; cbn [negb]; cycle 1.
  { apply wp_ret. cbn [queue game sdl calls]. split_and!; [exact Hs'|reflexivity..]. }
  destruct (spec_next_value sent xv) as [v Hv]; [done|by apply (bus_range (cap := cap) _ _ _ Hs)|by rewrite E|].
  rewrite E in Hv. cbn [snd] in Hv.
  apply wp_bind, wp_get, wp_bind. cbn [queue].
  eapply wp_lift; [by eapply (bus_current_ok (cap := cap))|].
  apply wp_bind. eapply wp_lift; [apply draw_all_eq|].
  apply wp_bind, wp_emit, wp_emit. cbn [queue game sdl calls]. split_and!; [done..|].
  unfold frame. rewrite Hv. unfold gauge_calls. by rewrite <-!app_assoc.
Qed.
End Draw.

(** ** Keys *)

Definition pressed (g : Game) (k : Z) : bool := negb (default 0 (keys g !! k) =? 0).

(** Where the sprite goes: the first of the four keys that is down. *)
Definition direction (g : Game) : Z * Z :=
  if pressed g SDLK_LEFT then (-2, 0)
  else if pressed g SDLK_RIGHT then (2, 0)
  else if pressed g SDLK_UP then (0, -2)
  else if pressed g SDLK_DOWN then (0, 2)
  else (0, 0).

(** The same but for which keys have an entry, and where the sprite is. *)
Definition same_game (g g' : Game) : Prop :=
  (∀ k, pressed g' k = pressed g k) ∧ frameSkip g' = frameSkip g ∧ running g' = running g ∧
  window g' = window g ∧ renderer g' = renderer g.

#[global] Instance same_game_equiv : Equivalence same_game.
Proof.
  split.
  - intros g. done.
  - intros g h (H & ? & ? & ? & ?). split_and!; done.
  - intros g h i (P1 & ? & ? & ? & ?) (P2 & ? & ? & ? & ?). split_and!; congruence.
Qed.

Lemma key_down_eq g k : ∃ g', key_down g k = (pressed g k, g') ∧ same_game g g' ∧ hero g' = hero g.
Proof.
  eexists. split; [done|]. split; [|done]. split_and!; try done. intros k'. unfold pressed. cbn.
  destruct (decide (k = k')) as [->|Hne]; [by rewrite lookup_insert_eq|by rewrite lookup_insert_ne].
Qed.

Definition near (b : Z) (g : Game) : Prop := Z.abs (x (hero g)) ≤ b ∧ Z.abs (y (hero g)) ≤ b.

Lemma move_eq g dx dy b : near b g → b + 2 < 2 ^ 31 → Z.abs dx ≤ 2 → Z.abs dy ≤ 2 →
  move g dx dy = Ok (mkGame (keys g) (frameSkip g) (running g) (window g) (renderer g)
    (mkSprite (x (hero g) + dx) (y (hero g) + dy))).
Proof.
  intros [Hx Hy] Hb Hdx Hdy. unfold move.
  rewrite !chk_ok, !res_bind_Ok by (unfold in_signed; cbn in *; lia). done.
Qed.

Lemma update_eq g b : near b g → b + 2 < 2 ^ 31 →
  ∃ g', update g = Ok g' ∧ same_game g g' ∧
    hero g' = mkSprite (x (hero g) + (direction g).1) (y (hero g) + (direction g).2) ∧ near (b + 2) g'.
Proof.
  intros Hn Hb. unfold update, direction.
  assert (Hmove : ∀ g1 dx dy, same_game g g1 → hero g1 = hero g → Z.abs dx ≤ 2 → Z.abs dy ≤ 2 →
    ∃ g', move g1 dx dy = Ok g' ∧ same_game g g' ∧
      hero g' = mkSprite (x (hero g) + dx) (y (hero g) + dy) ∧ near (b + 2) g').
  { intros g1 dx dy Hs Hh Hdx Hdy. eexists. split.
    - apply (move_eq g1 dx dy b); (done || by (unfold near; rewrite Hh)).
    - cbn. rewrite Hh. split_and!; [etransitivity; [exact Hs|done]|done|].
      unfold near in *. cbn. lia. }
  destruct (key_down_eq g SDLK_LEFT) as (g1 & -> & S1 & H1).
  destruct (pressed g SDLK_LEFT); [by apply Hmove|].
  destruct (key_down_eq g1 SDLK_RIGHT) as (g2 & -> & S2 & H2). rewrite (proj1 S1).
  destruct (pressed g SDLK_RIGHT); [apply Hmove; (done || congruence || by etransitivity)|].
  assert (S12 : same_game g g2) by (by etransitivity).
  destruct (key_down_eq g2 SDLK_UP) as (g3 & -> & S3 & H3). rewrite (proj1 S12).
  destruct (pressed g SDLK_UP); [apply Hmove; (done || congruence || by etransitivity)|].
  assert (S13 : same_game g g3) by (by etransitivity).
  destruct (key_down_eq g3 SDLK_DOWN) as (g4 & -> & S4 & H4). rewrite (proj1 S13).
  destruct (pressed g SDLK_DOWN); [apply Hmove; (done || congruence || by etransitivity)|].
  exists g4. split_and!; [done|by etransitivity| |].
  - cbn. rewrite !Z.add_0_r. rewrite H4, H3, H2, H1. by destruct (hero g).
  - unfold near in *. rewrite H4, H3, H2, H1. lia.
Qed.

(** Whether a key is down after some events. *)
Fixpoint key_state (before : bool) (k : Z) (evs : list SDL_Event) : bool :=
  match evs with
  | [] => before
  | EvKeyDown k' :: evs => key_state (if k' =? k then true else before) k evs
  | EvKeyUp k' :: evs => key_state (if k' =? k then false else before) k evs
  | _ :: evs => key_state before k evs
  end.

Lemma handle_pressed e g k : pressed (handle (Some e) g) k = key_state (pressed g k) k [e].
Proof.
  destruct e as [|k'|k'| |]; try done; cbn; unfold pressed; cbn;
    destruct (Z.eqb_spec k' k) as [->|Hne];
    [by rewrite lookup_insert_eq|by rewrite lookup_insert_ne|
     by rewrite lookup_insert_eq|by rewrite lookup_insert_ne].
Qed.

Lemma handle_running e g :
  running (handle e g) = match e with Some EvQuit => 0 | _ => running g end.
Proof. by destruct e as [[]|]. Qed.

Lemma handle_rest e g : hero (handle e g) = hero g ∧ frameSkip (handle e g) = frameSkip g.
Proof. by destruct e as [[]|]. Qed.

(** ** The frame rate *)

(** The frames among some calls: each starts by clearing the screen. *)
Definition frames (l : list call) : Z :=
  Z.of_nat (length (omap (λ c, match c with RenderClear => Some tt | _ => None end) l)).

Lemma frames_app l1 l2 : frames (l1 ++ l2) = frames l1 + frames l2.
Proof. unfold frames. rewrite omap_app, length_app. lia. Qed.

(** The titles among some calls. *)
Definition titles (l : list call) : list Z :=
  omap (λ c, match c with SetWindowTitle f => Some f | _ => None end) l.

Lemma titles_app l1 l2 : titles (l1 ++ l2) = titles l1 ++ titles l2.
Proof. apply omap_app. Qed.

Section Frames.
Context (sin : double → double).

Lemma ticks_plain v n i :
  frames (concat (map (tick_calls sin v) (seqZ i (Z.of_nat n)))) = 0 ∧
  titles (concat (map (tick_calls sin v) (seqZ i (Z.of_nat n)))) = [].
Proof.
  revert i. induction n as [|n IH]; intros i; [done|].
  rewrite (seqZ_cons i (Z.of_nat (S n))), Nat2Z.inj_succ, Z.pred_succ by lia. cbn [map concat].
  rewrite frames_app, titles_app. destruct (IH (Z.succ i)) as [-> ->].
  unfold tick_calls. by destruct (gauge_color i _) as [[r g] b].
Qed.

Lemma frame_plain fresh v : frames (frame sin fresh v) = 1 ∧ titles (frame sin fresh v) = [].
Proof.
  unfold frame. destruct fresh, v as [v|]; [|done..].
  unfold gauge_calls. rewrite !frames_app, !titles_app.
  replace num_ticks with (Z.of_nat 125) by done.
  destruct (ticks_plain (limit_rpm (rpm v)) 125 0) as [-> ->]. done.
Qed.
End Frames.

Section Loop.
Context (sin : double → double).
Hypothesis sin_moderate : ∀ i, 0 ≤ i < num_ticks → ∃ z, tick_y sin i = Ok z.
Context {K : Type} `{!Sdl K} {S : Type} `{!MessageBus S SensorsQueue}.
Context (cap : Z) `{!BusLaws S SensorsQueue zero_sensors cap}.
Hypothesis cap_positive : 1 ≤ cap.
Context (others : K → S → S).
(** Other processes only send. *)
Hypothesis others_send : ∀ k q sent xv, bus_shows q sent xv →
  ∃ more, bus_shows (others k q) (sent ++ more) xv.
(** The clock of [SDL_GetTicks] does not go back and has not wrapped. *)
Context (time_of : K → Z).
Hypothesis ticks_time : ∀ k t k', SDL_GetTicks k = (t, k') → time_of k ≤ t ∧ time_of k' = t.
Hypothesis poll_time : ∀ k e k', SDL_PollEvent k = (e, k') → time_of k ≤ time_of k'.
Hypothesis delay_time : ∀ n k, time_of k ≤ time_of (SDL_Delay n k).
Hypothesis uptime : ∀ k, 0 ≤ time_of k < 2 ^ 31.

Implicit Types (d : display K S) (l : loop).

Record loop_inv d l (b : Z) (sent : list SensorsQueue) (xv : view SensorsQueue) : Prop := mkLoopInv {
  li_past : 0 ≤ past l ≤ time_of (sdl d);
  li_pastFps : 0 ≤ pastFps l ≤ time_of (sdl d);
  li_fps : 0 ≤ fps l;
  li_rate : fps l = 0 ∨ pastFps l ≤ past l ∧ 16 * (fps l - 1) ≤ past l - pastFps l;
  li_skip : frameSkip (game d) = 0 ∧ framesSkipped l = 0;
  li_near : near b (game d);
  li_bus : bus_shows (queue d) sent xv }.

(** What one iteration does: [new] is what it sends to the renderer. *)
Record step_post d l (b : Z) sent (e : option SDL_Event) l' d' : Prop := mkStepPost {
  sp_inv : ∃ more xv', loop_inv d' l' (b + 2) (sent ++ more) xv';
  sp_running : running (game d') = match e with Some EvQuit => 0 | _ => running (game d) end;
  sp_past : past l ≤ past l';
  sp_calls : ∃ new, calls d' = calls d ++ new ∧ 16 * frames new ≤ past l' - past l ∧
    Forall (λ f, 0 ≤ f ∧ 16 * (f - 1) ≤ pastFps l' - pastFps l) (titles new) }.

Lemma wp_get_ticks d (Q : Z → display K S → Prop) :
  (∀ t k, time_of (sdl d) ≤ t → time_of k = t → Q t (mkDisplay k (game d) (queue d) (calls d))) →
  wp get_ticks Q d.
Proof.
  intros HQ. unfold get_ticks. apply wp_bind. unfold wp at 1, ask.
  destruct (SDL_GetTicks (sdl d)) as [t k] eqn:E. apply ticks_time in E as [E1 E2].
  apply wp_ret. pose proof (uptime k). rewrite swrap_small by (try lia; unfold in_signed; cbn in *; lia).
  by apply HQ.
Qed.

Lemma chk32 z : - 2 ^ 31 ≤ z < 2 ^ 31 → i32 z = Ok z.
Proof. intros. apply chk_ok. done. Qed.

(** The part that updates and draws. *)
Lemma wp_step_frame d l b sent xv now :
  loop_inv d l b sent xv → time_of (sdl d) = now → b + 2 < 2 ^ 31 →
  wp (timeElapsed ← st_lift (i32 (now - past l));
      if UPDATE_INTERVAL <=? timeElapsed then
         _ ← on_game update;
         d ← st_get;
         skipped ← st_lift (i32 (framesSkipped l + 1));
         if frameSkip (game d) <=? framesSkipped l then
           _ ← draw sin;
           fps' ← st_lift (i32 (fps l + 1));
           mret (mkLoop now (pastFps l) fps' 0)
         else mret (mkLoop now (pastFps l) (fps l) skipped)
       else mret l)
    (λ l' d', (∃ xv', loop_inv d' l' (b + 2) sent xv') ∧ pastFps l' = pastFps l ∧
      past l ≤ past l' ∧ sdl d' = sdl d ∧ running (game d') = running (game d) ∧
      ∃ new, calls d' = calls d ++ new ∧ 16 * frames new ≤ past l' - past l ∧ titles new = []) d.
Proof.
  intros [L1 L2 L3 L4 [L5 L5'] L6 L7] Hnow Hb. pose proof (uptime (sdl d)).
  apply wp_bind. eapply wp_lift; [apply chk32; lia|]. change UPDATE_INTERVAL with 16.
  destruct (Z.leb_spec 16 (now - past l)) as [Hel|Hel].
  - destruct (update_eq (game d) b L6 Hb) as (g' & Hu & (Hp & Hsk & Hr & _) & _ & Hn).
    apply wp_bind. unfold wp at 1, on_game. rewrite Hu. apply wp_bind, wp_get, wp_bind.
    rewrite L5'. eapply wp_lift; [done|]. cbn [game]. rewrite Hsk, L5, Z.leb_refl.
    apply wp_bind. set (d1 := mkDisplay _ _ _ _).
    pose proof (wp_draw sin sin_moderate cap d1 sent xv cap_positive L7) as Hd.
    destruct (spec_next cap sent xv) as [fresh xv'].
    eapply wp_mono; [exact Hd|]. cbn beta. intros _ d2 (B2 & G2 & S2 & C2).
    change (sdl d1) with (sdl d) in S2. change (game d1) with g' in G2. change (calls d1) with (calls d) in C2.
    apply wp_bind. eapply wp_lift; [apply chk32; lia|]. apply wp_ret.
    destruct (frame_plain sin fresh (v_value xv')) as [Hf Ht].
    cbn [past pastFps fps framesSkipped]. split_and!; [|reflexivity|lia|exact S2|by rewrite G2|].
    + exists xv'. split; cbn [past pastFps fps framesSkipped]; rewrite ?S2, ?G2; cbn [sdl game]; try lia; [exact Hn|exact B2].
    + eexists. rewrite C2. split_and!; [reflexivity|rewrite Hf; lia|exact Ht].
  - apply wp_ret. split_and!; try done; try lia.
    + exists xv. split; try done. unfold near in *. lia.
    + exists []. rewrite app_nil_r. split_and!; [done|change (frames []) with 0; lia|done].
Qed.

Lemma wp_iteration d l b sent xv :
  loop_inv d l b sent xv → b + 2 < 2 ^ 31 →
  wp (iteration sin others l) (step_post d l b sent (SDL_PollEvent (sdl d)).1) d.
Proof.
  intros L Hb. unfold iteration. destruct (SDL_PollEvent (sdl d)) as [e k] eqn:Ee.
  pose proof (poll_time _ _ _ Ee) as Hk. apply wp_bind. unfold wp at 1, ask. rewrite Ee. cbn [fst].
  apply wp_bind. unfold wp at 1, on_game. cbn [game sdl queue calls].
  apply wp_bind, wp_get_ticks. cbn [game sdl queue calls]. intros now k2 Ht1 Ht2.
  destruct (handle_rest e (game d)) as [Hh Hsk].
  pose proof L as [L1 L2 L3 L4 [L5 L5'] L6 L7].
  set (d2 := mkDisplay k2 (handle e (game d)) (queue d) (calls d)).
  assert (L' : loop_inv d2 l b sent xv).
  { split; cbn; rewrite ?Hsk; try done; try lia. unfold near in *. by rewrite Hh. }
  pose proof (wp_step_frame d2 l b sent xv now L' Ht2 Hb) as Hf. apply wp_unbind in Hf.
  apply wp_bind. eapply wp_mono; [exact Hf|]. clear Hf. cbn beta. intros el d3 Hf.
  apply wp_bind. eapply wp_mono; [exact Hf|]. clear Hf. cbn beta.
  intros l3 d4 ((xv' & M) & Hpf & Hpast & Hs4 & Hr4 & new & Hc4 & Hfr & Hti).
  change (sdl d2) with k2 in Hs4.
  pose proof M as [M1 M2 M3 M4 [M5 M5'] M6 M7]. rewrite Hs4 in M1, M2.
  pose proof (uptime k2). rewrite Ht2 in *.
  apply wp_bind. eapply wp_lift; [apply chk32; lia|].
  assert (Hend : ∀ l4 d5 extra, sdl d5 = sdl d4 → game d5 = game d4 → queue d5 = queue d4 →
    calls d5 = calls d4 ++ extra → frames extra = 0 →
    past l4 = past l3 → framesSkipped l4 = framesSkipped l3 →
    pastFps l ≤ pastFps l4 ≤ now → 0 ≤ fps l4 →
    (fps l4 = 0 ∨ pastFps l4 ≤ past l4 ∧ 16 * (fps l4 - 1) ≤ past l4 - pastFps l4) →
    Forall (λ f, 0 ≤ f ∧ 16 * (f - 1) ≤ pastFps l4 - pastFps l) (titles extra) →
    wp (_ ← delay others; mret l4) (step_post d l b sent e) d5).
  { intros l4 d5 extra E1 E2 E3 E4 E5 E6 E7 E8 E9 E10 E11. apply wp_bind. unfold wp at 1, delay.
    apply wp_ret. pose proof (delay_time 1 (sdl d5)) as Hd. rewrite E1, Hs4 in Hd.
    destruct (others_send (SDL_Delay 1 (sdl d5)) (queue d5) sent xv') as [more Hmore]; [by rewrite E3|].
    rewrite E1, Hs4 in Hmore.
    split; [|cbn [game]; rewrite E2, Hr4; apply handle_running|lia|].
    - exists more, xv'. split; cbn [sdl game queue]; rewrite ?E1, ?E2, ?Hs4, ?E6, ?E7; (done || lia).
    - exists (new ++ extra). cbn [calls]. rewrite E4, Hc4, app_assoc, frames_app, titles_app, E5, Hti.
      split_and!; [done|lia|done]. }
  apply wp_bind. destruct (Z.leb_spec 1000 (now - pastFps l3)) as [Hs|Hs].
  - apply wp_bind, wp_emit, wp_ret. apply (Hend _ _ [SetWindowTitle (fps l3)]); try done; cbn; try lia.
    constructor; [|constructor]. lia.
  - apply wp_ret. apply (Hend _ _ []); try done; try lia. by rewrite app_nil_r.
Qed.
End Loop.

Section Run.
Context (sin : double → double).
Hypothesis sin_moderate : ∀ i, 0 ≤ i < num_ticks → ∃ z, tick_y sin i = Ok z.
Context {K : Type} `{!Sdl K} {S : Type} `{!MessageBus S SensorsQueue}.
Context (cap : Z) `{!BusLaws S SensorsQueue zero_sensors cap}.
Hypothesis cap_positive : 1 ≤ cap.
Context (others : K → S → S).
Hypothesis others_send : ∀ k q sent xv, bus_shows q sent xv →
  ∃ more, bus_shows (others k q) (sent ++ more) xv.
Context (time_of : K → Z).
Hypothesis ticks_time : ∀ k t k', SDL_GetTicks k = (t, k') → time_of k ≤ t ∧ time_of k' = t.
Hypothesis poll_time : ∀ k e k', SDL_PollEvent k = (e, k') → time_of k ≤ time_of k'.
Hypothesis delay_time : ∀ n k, time_of k ≤ time_of (SDL_Delay n k).
Hypothesis uptime : ∀ k, 0 ≤ time_of k < 2 ^ 31.

(** The whole loop: it never stops with an error, it has ended exactly when
    [running] is 0, and there is at most one frame in 16 ms. *)
Lemma wp_run_loop fuel (d : display K S) l b sent xv :
  loop_inv time_of d l b sent xv → b + 2 * Z.of_nat fuel < 2 ^ 31 →
  wp (run_loop sin others fuel l) (λ ended d', ended = (running (game d') =? 0) ∧
    ∃ new, calls d' = calls d ++ new ∧ 16 * frames new ≤ time_of (sdl d') - past l) d.
Proof.
  revert d l b sent xv. induction fuel as [|fuel IH]; intros d l b sent xv L Hb;
    cbn [run_loop]; apply wp_bind, wp_get; destruct (running (game d) =? 0) eqn:Hr.
  1-3: apply wp_ret; split; [done|]; exists []; rewrite app_nil_r; change (frames []) with 0;
    pose proof (li_past _ _ _ _ _ _ L); split; [done|lia].
  apply wp_bind. eapply wp_mono; [by apply (wp_iteration sin sin_moderate cap cap_positive
    others others_send time_of ticks_time poll_time delay_time uptime d l b sent xv L); lia|].
  intros l' d' [(more & xv' & L') _ Hp (new & Hc & Hf & _)].
  eapply wp_mono; [by eapply (IH d' l' (b + 2)); [exact L'|lia]|]. cbn beta.
  intros ended d2 (He & new2 & Hc2 & Hf2). split; [done|]. exists (new ++ new2).
  rewrite Hc2, Hc, app_assoc, frames_app. split; [done|lia].
Qed.
End Run.
