(* ===== verification/DashboardTheorems.v ===== *)
(** * What the sensor reader and the dashboard guarantee *)

From S2P Require Import Prelude ByteOrder QueueTypes Time Double TypedQueueProofs Serial.
From S2P Require Import SensorReader SensorProofs Dashboard.

(** ** A concrete platform

    The device has a script of what successive reads give and records what
    was written; the allocator rounds up to a multiple of 16 as usual
    implementations do and hands out zeroed memory. *)
Module Sample.
Record machine := mkMachine { input : list (option Z); output : list bytes }.

#[global] Instance machine_platform : Platform machine := {|
  sys_open _ k := (3, k);
  sys_read _ k :=
    match input k with
    | [] => (None, k)
    | r :: rest => (r, mkMachine rest (output k))
    end;
  sys_write _ text k := (Z.of_nat (length text), mkMachine (input k) (output k ++ [text]));
  sys_close _ k := k;
  sys_malloc n k := (replicate (Z.to_nat (n + 16)) 0, k);
  sys_tcgetattr _ k := (None, k);
  sys_tcsetattr _ _ k := (0, k);
  cfsetispeed t _ := t |}.

Lemma malloc_size n (k : machine) : n ≤ Z.of_nat (length (sys_malloc n k).1).
Proof. cbn. rewrite length_replicate. lia. Qed.

(** The reference implementation of the bus: the specification itself. *)
Definition bus : Type := list SensorsQueue * view SensorsQueue.

#[global] Instance reference_bus : MessageBus bus SensorsQueue := {|
  bus_fetch_next s := let '(b, x) := spec_next 10 s.1 s.2 in Ok (b, (s.1, x));
  bus_fetch_latest s := let '(b, x) := spec_latest s.1 s.2 in Ok (b, (s.1, x));
  bus_send f s := Ok (true, (s.1 ++ [f zero_sensors], s.2));
  bus_current s := of_option Undefined (v_value s.2);
  bus_shows s sent x := s = (sent, x) ∧ 0 ≤ v_index x ≤ Z.of_nat (length sent) |}.

#[global] Instance reference_laws : BusLaws bus SensorsQueue zero_sensors 10.
Proof.
  split; cbn.
  - by intros s sent x [_ ?].
  - intros s sent x [-> H]. unfold wp. cbn. unfold spec_next. destruct (Z.leb_spec (Z.of_nat (length sent)) (v_index x)); cbn; repeat split; (done || lia).
  - intros s sent x [-> H]. unfold wp. cbn. unfold spec_latest. destruct (Z.leb_spec (Z.of_nat (length sent)) (v_index x)); cbn; repeat split; (done || lia).
  - intros s sent x f [-> H] _. split; [done|]. split; [done|]. rewrite length_app. cbn. lia.
  - intros s sent x v [-> _]. cbn. by intros ->.
Qed.

(** A display whose clock advances by 20 ms per look until it has shown
    for 20 minutes; the user quits when the script ends. *)
Record screen := mkScreen { script : list SDL_Event; clock : Z }.

Definition advance (t : Z) : Z := Z.max 0 (Z.min (t + 20) 1200000).

#[global] Instance screen_sdl : Sdl screen := {|
  SDL_Init k := (0, k);
  SDL_CreateWindowAndRenderer _ _ k := (0, 1, 2, k);
  SDL_PollEvent k :=
    match script k with
    | [] => (Some EvQuit, k)
    | e :: rest => (Some e, mkScreen rest (clock k))
    end;
  SDL_GetTicks k := (Z.max 0 (Z.min (clock k + 20) 1200000), mkScreen (script k) (clock k + 20));
  SDL_Delay _ k := k |}.

Definition time_of (k : screen) : Z := Z.max 0 (Z.min (clock k) 1200000).

Lemma ticks_time k t k' : SDL_GetTicks k = (t, k') → time_of k ≤ t ∧ time_of k' = t.
Proof. intros [= <- <-]. unfold time_of. cbn. lia. Qed.
Lemma poll_time k e k' : SDL_PollEvent k = (e, k') → time_of k ≤ time_of k'.
Proof. unfold SDL_PollEvent. cbn. destruct (script k); intros [= <- <-]; unfold time_of; cbn; lia. Qed.
Lemma delay_time n (k : screen) : time_of k ≤ time_of (SDL_Delay n k).
Proof. cbn. lia. Qed.
Lemma uptime k : 0 ≤ time_of k < 2 ^ 31.
Proof. unfold time_of. lia. Qed.

(** Bhaskara's approximation of the sine on [0, pi]. *)
Definition sine (a : double) : double :=
  let p := dmul a (dsub M_PI a) in
  ddiv (dmul (double_of_Z 16) p)
    (dsub (dmul (double_of_Z 5) (dmul M_PI M_PI)) (dmul (double_of_Z 4) p)).

Lemma sine_checked :
  forallb (λ i, match tick_y sine i with Ok _ => true | Err _ => false end) tick_indices = true.
Proof. vm_compute. reflexivity. Qed.

Lemma sine_moderate i : 0 ≤ i < num_ticks → ∃ z, tick_y sine i = Ok z.
Proof.
  intros Hi. pose proof sine_checked as H. rewrite forallb_forall in H.
  specialize (H i ltac:(apply list_elem_of_In, elem_of_seqZ; lia)).
  destruct (tick_y sine i); [by eexists|done].
Qed.
End Sample.

(** ** Lines *)



(** ** Decoding and publishing *)

(** [ProcessHexData] on a response of the interface (six characters of
    identification, then bytes as two hexadecimal digits with a space behind
    each) is the big-endian number of the data bytes: cutting out the spaces
    in place, with its quadratic shifting, leaves the digits, and [strtol]
    reads them; nothing but the heap is used. *)
Theorem ProcessHexData_correct {K} `{!Platform K} {S} `{!MessageBus S SensorsQueue}
    (pre bs rest : bytes) (r : reader K S) :
  (∀ n (k : K), n ≤ Z.of_nat (length (sys_malloc n k).1)) →
  length pre = 6%nat → 0 ∉ pre → Forall is_byte bs → (length bs ≤ 3)%nat →
  ∃ k, ProcessHexData (pre ++ payload bs ++ 0 :: rest) r = Ok (be_value 0 bs, with_dev k r).
Proof.
  intros Hm Hp H0 Hb Hl.
  pose proof (ProcessHexData_ok Hm pre bs rest r Hp H0 Hb Hl) as H.
  apply wp_run in H as (v & r' & H & -> & k & ->). by exists k.
Qed.

Definition sample_reader : reader Sample.machine Sample.bus :=
  mkReader (mkPort (Sample.mkMachine [] []) 3) ([], mkView 0 None)
    (S754_zero false) (S754_zero false) (S754_zero false).

Lemma ProcessHexData_correct_witness :
  ∃ k, ProcessHexData (chars "41 0C 1A F8 " ++ [0]) sample_reader = Ok (0x1AF8, with_dev k sample_reader).
Proof.
  apply (ProcessHexData_correct (chars "41 0C ") [0x1A; 0xF8] [] sample_reader Sample.malloc_size).
  - reflexivity.
  - vm_compute. intros H. by repeat (apply elem_of_cons in H as [H|H]; [done|]); apply not_elem_of_nil in H.
  - repeat constructor; unfold is_byte; lia.
  - cbn. lia.
Defined.

(** C30: [WriteDataToQueue] publishes what the response says.  For one of
    the three PIDs exactly one message is sent: the value that belongs to the
    PID is the decoded number converted to its unit (rpm / 4, km/h / 1.609,
    Celsius to Fahrenheit), the other two are those of the newest message on
    the queue or, when that was fetched before, the last known ones; the
    statics then hold what was sent.  For any other PID nothing is sent. *)
Theorem WriteDataToQueue_publishes {K} `{!Platform K} {S} `{!MessageBus S SensorsQueue} cap
    `{!BusLaws S SensorsQueue zero_sensors cap} pid bs rest sent x (r : reader K S) :
  (∀ n (k : K), n ≤ Z.of_nat (length (sys_malloc n k).1)) →
  is_byte pid → Forall is_byte bs → (length bs ≤ 3)%nat →
  bus_shows (sensors_queue r) sent x → Z.of_nat (length sent) + 1 < 2 ^ 31 →
  ∃ r', WriteDataToQueue (response_text pid bs ++ 0 :: rest) r = Ok (tt, r') ∧
    published pid (be_value 0 bs) sent x r r'.
Proof.
  intros Hm Hp Hb Hl Hs Hlen.
  pose proof (WriteDataToQueue_ok Hm cap pid bs rest sent x r Hp Hb Hl Hs Hlen) as H.
  apply wp_run in H as ([] & r' & H & HP). by exists r'.
Qed.

Lemma WriteDataToQueue_publishes_witness :
  ∃ r', WriteDataToQueue (chars "41 0C 1A F8 " ++ [0]) sample_reader = Ok (tt, r') ∧
    published 0x0C 0x1AF8 [] (mkView 0 None) sample_reader r'.
Proof.
  apply (WriteDataToQueue_publishes 10 0x0C [0x1A; 0xF8] [] [] (mkView 0 None) sample_reader
    Sample.malloc_size).
  - unfold is_byte. lia.
  - repeat constructor; unfold is_byte; lia.
  - cbn. lia.
  - split; [reflexivity|cbn; lia].
  - cbn. lia.
Defined.

(** ** The display *)

(** C31: [draw] shows the next message of the queue as a gauge.  Without a
    new message only the background is prepared and nothing is presented.
    With one, 125 bars of 5 by 25 pixels are drawn side by side from x = 20
    to x = 1265 of the 1280 pixels, green up to bar 75, yellow up to bar 105,
    red behind; the first [k] bars are highlighted and the others dim, where
    [k] counts exactly the bars that stand for less than the speed, and is 0
    when the speed is above the scale. *)
Theorem draw_gauge sin {K} `{!Sdl K} {S} `{!MessageBus S SensorsQueue} cap
    `{!BusLaws S SensorsQueue zero_sensors cap} (d : display K S) sent xv :
  (∀ i, 0 ≤ i < num_ticks → ∃ z, tick_y sin i = Ok z) →
  1 ≤ cap → bus_shows (queue d) sent xv →
  ∃ d', draw sin d = Ok (tt, d') ∧ bus_shows (queue d') sent (spec_next cap sent xv).2 ∧
    if (spec_next cap sent xv).1 then
      ∃ v k, v_value (spec_next cap sent xv).2 = Some v ∧ 0 ≤ k ≤ 125 ∧
        (∀ i, 0 ≤ i < 125 → i < k ↔ lit (limit_rpm (rpm v)) i = true) ∧
        (dltb (double_of_Z 6500) (rpm v) = true → k = 0) ∧
        calls d' = calls d ++ clear_calls ++
          concat (map (λ i, let '(r, g, b) := gauge_color i (i <? k) in
            fillRect (mkRect (20 + 10 * i) (match tick_y sin i with Ok z => z | Err _ => 0 end) 5 25)
              r g b) (seqZ 0 125)) ++ [RenderPresent]
    else calls d' = calls d ++ clear_calls.
Proof.
  intros Hsin Hcap Hs. pose proof (wp_draw sin Hsin cap d sent xv Hcap Hs) as H.
  destruct (spec_next cap sent xv) as [fresh xv'] eqn:E. cbn [fst snd].
  destruct (proj1 (wp_run _ _ _) H) as ([] & d' & Hd & B & _ & _ & C). exists d'. split_and!; [done|done|].
  destruct fresh; [|exact C].
  destruct (spec_next_value cap sent xv) as [v Hv]; [done|by apply (bus_range (cap := cap) _ _ _ Hs)|by rewrite E|].
  rewrite E in Hv. cbn [snd] in Hv. destruct (lit_prefix (limit_rpm (rpm v))) as (k & Hk & Hlit).
  exists v, k. split_and!; [done|apply Hk|apply Hk| | |].
  - intros i Hi. rewrite Hlit by done. symmetry. apply Z.ltb_lt.
  - intros Hbig. specialize (Hlit 0 ltac:(unfold num_ticks; lia)). unfold limit_rpm in Hlit.
    rewrite (Hbig : dltb (double_of_Z upper_rpm_threshold) (rpm v) = true) in Hlit.
    change (lit (double_of_Z 0) 0) with false in Hlit. symmetry in Hlit. apply Z.ltb_ge in Hlit. lia.
  - rewrite C, Hv. unfold frame, gauge_calls. do 4 f_equal. apply map_ext_in.
    intros i Hi. apply list_elem_of_In, elem_of_seqZ in Hi. unfold tick_calls.
    by rewrite Hlit by (unfold num_ticks in *; lia).
Qed.

(** A message that shows 3000 rpm. *)
Definition sample_message : SensorsQueue :=
  mkSensors (double_of_Z 3000) (S754_zero false) (S754_zero false).

Definition sample_display : display Sample.screen Sample.bus :=
  mkDisplay (Sample.mkScreen [EvKeyDown SDLK_LEFT] 0) Game_new ([sample_message], mkView 0 None) [].

Lemma draw_gauge_witness :
  ∃ d', draw Sample.sine sample_display = Ok (tt, d') ∧
    bus_shows (queue d') [sample_message] (mkView 1 (Some sample_message)).
Proof.
  destruct (draw_gauge Sample.sine 10 sample_display [sample_message] (mkView 0 None)
    Sample.sine_moderate) as (d' & H1 & H2 & _).
  - lia.
  - split; [reflexivity|cbn; lia].
  - exists d'. split; [exact H1|exact H2].
Defined.



(** Keys and the sprite.  After any sequence of events a key counts as
    pressed exactly when the last event about it was a key press, whatever
    the order and the repetitions; [update] then moves the sprite by two
    pixels in the direction of the first pressed arrow key of left, right, up
    and down, not at all when none is, and leaves everything else as it is. *)
Theorem keys_move_sprite g evs b :
  near b g → b + 2 < 2 ^ 31 →
  let g1 := fold_left (λ g e, handle (Some e) g) evs g in
  (∀ k, pressed g1 k = key_state (pressed g k) k evs) ∧
  ∃ g2, update g1 = Ok g2 ∧ same_game g1 g2 ∧
    hero g2 = mkSprite (x (hero g) + (direction g1).1) (y (hero g) + (direction g1).2).
Proof.
  intros Hn Hb g1. assert (hero g1 = hero g) as Hh.
  { subst g1. clear. revert g. induction evs as [|e evs IH]; intros g; [done|]. cbn.
    rewrite IH. apply (proj1 (handle_rest (Some e) g)). }
  split.
  - intros k. subst g1. clear. revert g. induction evs as [|e evs IH]; intros g; [done|].
    cbn [fold_left]. rewrite IH, handle_pressed. by destruct e.
  - destruct (update_eq g1 b) as (g2 & H1 & H2 & H3 & _); [by unfold near; rewrite Hh|done|].
    exists g2. rewrite <-Hh. done.
Qed.

Lemma keys_move_sprite_witness :
  ∃ g2, update (fold_left (λ g e, handle (Some e) g)
      [EvKeyDown SDLK_UP; EvKeyDown SDLK_LEFT; EvKeyUp SDLK_LEFT] Game_new) = Ok g2 ∧
    hero g2 = mkSprite 0 (-2).
Proof.
  destruct (keys_move_sprite Game_new [EvKeyDown SDLK_UP; EvKeyDown SDLK_LEFT; EvKeyUp SDLK_LEFT] 0)
    as (_ & g2 & H1 & _ & H2).
  - split; cbn; lia.
  - lia.
  - exists g2. split; [exact H1|exact H2].
Defined.
