(* ===== verification/RangeImage.v ===== *)
(** * Range images: aos/vision/blob/range_image.h, .cc, codec.h, .cc, threshold.h

    A [RangeImage] is a set of pixels as runs per row; [mini] is the number
    of its first row.  Images are the blocks of pixels of image_types.h. *)

From stdpp Require Import sorting.
From S2P Require Import Prelude ByteOrder QueueTypes QueueTypesProofs Double.

Record ImageRange := mkRange { st : Z; ed : Z }.

#[global] Instance ImageRange_eq_dec : EqDecision ImageRange.
Proof. solve_decision. Defined.

Definition range_last (r : ImageRange) : res Z := i32 (ed r - 1).
Definition calc_width (r : ImageRange) : res Z := i32 (ed r - st r).

(** [operator<] *)
Definition range_lt (a b : ImageRange) : bool := st a <? st b.

(** [comp_geo::Vector<2>] *)
Record Vector2 := mkVector2 { vx : double; vy : double }.
Definition Vector2_zero : Vector2 := mkVector2 (double_of_Z 0) (double_of_Z 0).

Record RangeImage := mkImage {
  npixelsc : Z;
  mini : Z;
  ranges : list (list ImageRange);
  corners_set : bool;
  upper_left : Vector2;
  upper_right : Vector2;
  lower_right : Vector2;
  lower_left : Vector2 }.

Definition RangeImage_new (mini : Z) (ranges : list (list ImageRange)) : RangeImage :=
  mkImage (-1) mini ranges false Vector2_zero Vector2_zero Vector2_zero Vector2_zero.

Abbreviation BlobList := (list RangeImage).

Definition RangeImage_size (r : RangeImage) : Z := Z.of_nat (length (ranges r)).

(** Adding up [ed - st] over all runs, as an [int]. *)
Definition add_width (acc : res Z) (r : ImageRange) : res Z :=
  a ← acc; w ← i32 (ed r - st r); i32 (a + w).

Definition sum_widths (rs : list (list ImageRange)) : res Z :=
  fold_left (λ acc row, fold_left add_width row acc) rs (Ok 0).

Definition npixels (r : RangeImage) : res (Z * RangeImage) :=
  if 0 <? npixelsc r then Ok (npixelsc r, r)
  else
    n ← sum_widths (ranges r);
    Ok (n, mkImage n (mini r) (ranges r) (corners_set r) (upper_left r) (upper_right r)
             (lower_right r) (lower_left r)).

Definition calc_area (r : RangeImage) : res Z := sum_widths (ranges r).

(** ** Flip *)

Definition flip_range (image_width : Z) (r : ImageRange) : res ImageRange :=
  tmp ← i32 (image_width - ed r);
  e ← i32 (image_width - st r);
  Ok (mkRange tmp e).

Fixpoint mapR {A B} (f : A → res B) (l : list A) : res (list B) :=
  match l with
  | [] => Ok []
  | a :: l => b ← f a; bs ← mapR f l; Ok (b :: bs)
  end.

Definition flip_corner (w h : Z) (v : Vector2) : Vector2 :=
  mkVector2 (dsub (double_of_Z w) (vx v)) (dsub (double_of_Z h) (vy v)).

Definition Flip (image_width image_height : Z) (r : RangeImage) : res RangeImage :=
  rs ← mapR (λ row, mapR (flip_range image_width) (rev row)) (rev (ranges r));
  a ← i32 (image_height - Z.of_nat (length rs));
  m ← i32 (a - mini r);
  let corner := flip_corner image_width image_height in
  Ok (mkImage (npixelsc r) m rs (corners_set r) (corner (lower_right r)) (corner (lower_left r))
        (corner (upper_left r)) (corner (upper_right r))).

(** ** The bounding box *)

Definition d1e10 : double := double_of_Z 10000000000.

Definition widen (acc : double * double) (r : ImageRange) : double * double :=
  let '(x_min, x_max) := acc in
  (if dltb (double_of_Z (st r)) x_min then double_of_Z (st r) else x_min,
   if dltb x_max (double_of_Z (ed r)) then double_of_Z (ed r) else x_max).

(** [mini + ranges.size()] is a [size_t]. *)
Definition CalcBoundingBox (r : RangeImage) : Vector2 * Vector2 * Vector2 * Vector2 :=
  let y_min := double_of_Z (mini r) in
  let y_max := double_of_Z (u64 (mini r + Z.of_nat (length (ranges r)))) in
  let '(x_min, x_max) := fold_left (λ acc row, fold_left widen row acc) (ranges r) (d1e10, double_of_Z 0) in
  (mkVector2 x_min y_min, mkVector2 x_max y_min, mkVector2 x_max y_max, mkVector2 x_min y_max).

(** ** Merging *)

(** The runs of row [i] of one blob; [None] when it has ended. *)
Definition row_of (i : Z) (b : RangeImage) : option (list ImageRange) :=
  if i <? mini b then Some []
  else ranges b !! Z.to_nat (i - mini b).

Definition row_runs (i : Z) (bl : BlobList) : list ImageRange :=
  concat (map (λ b, default [] (row_of i b)) bl).
Definition n_missing (i : Z) (bl : BlobList) : nat :=
  length (filter (λ b, row_of i b = None) bl).

(** [std::sort] with [operator<]. *)
Definition run_le (a b : ImageRange) : Prop := st a ≤ st b.
#[global] Instance run_le_dec a b : Decision (run_le a b).
Proof. unfold run_le. apply _. Defined.
Definition sort_runs (l : list ImageRange) : list ImageRange := merge_sort run_le l.

(** The [while (true)]: rows from [i] on, until every blob has ended. *)
Fixpoint merge_rows (fuel : nat) (i : Z) (bl : BlobList) : res (list (list ImageRange)) :=
  match fuel with
  | O => Err Fuel
  | S fuel =>
      let row := sort_runs (row_runs i bl) in
      if bool_decide (n_missing i bl = length bl) then Ok [row]
      else
        i' ← i32 (i + 1);
        rest ← merge_rows fuel i' bl;
        Ok (row :: rest)
  end.

Definition MergeRangeImage (fuel : nat) (bl : BlobList) : res RangeImage :=
  match bl with
  | [] => Err Undefined
  | [b] => Ok b
  | b :: _ =>
      let i := fold_left (λ i b, if mini b <? i then mini b else i) bl (mini b) in
      rs ← merge_rows fuel i bl;
      Ok (RangeImage_new i rs)
  end.

(** ** The codec *)

Definition WriteInt16 (pos v : Z) (data : bytes) : res (bytes * Z) :=
  data ← put pos (le_split 2 (u16 v)) data; Ok (data, pos + 2).
Definition ReadInt16 (pos : Z) (data : bytes) : res (Z * Z) :=
  b ← get pos 2 data; Ok (le_combine b, pos + 2).

(** [count += 2 + 4 * size] goes through [size_t] and back to [int]. *)
Definition predict_row (count : res Z) (row : list ImageRange) : res Z :=
  c ← count; Ok (swrap 32 (c + (2 + 4 * Z.of_nat (length row)))).
Definition predict_blob (count : res Z) (b : RangeImage) : res Z :=
  c ← count; c ← i32 (c + 4); fold_left predict_row (ranges b) (Ok c).
Definition PredictSize (blob_list : BlobList) : res Z := fold_left predict_blob blob_list (Ok 2).

Definition write_range (acc : res (bytes * Z)) (r : ImageRange) : res (bytes * Z) :=
  '(data, pos) ← acc;
  '(data, pos) ← WriteInt16 pos (st r) data;
  WriteInt16 pos (ed r) data.
Definition write_row (acc : res (bytes * Z)) (row : list ImageRange) : res (bytes * Z) :=
  '(data, pos) ← acc;
  acc ← WriteInt16 pos (Z.of_nat (length row)) data;
  fold_left write_range row (Ok acc).
Definition write_blob (acc : res (bytes * Z)) (b : RangeImage) : res (bytes * Z) :=
  '(data, pos) ← acc;
  '(data, pos) ← WriteInt16 pos (mini b) data;
  acc ← WriteInt16 pos (Z.of_nat (length (ranges b))) data;
  fold_left write_row (ranges b) (Ok acc).

Definition SerializeBlob (blob_list : BlobList) (data : bytes) : res bytes :=
  acc ← WriteInt16 0 (Z.of_nat (length blob_list)) data;
  '(data, _) ← fold_left write_blob blob_list (Ok acc);
  Ok data.

(** [out->resize(len, 0)] keeps what was there. *)
Definition resize (n : nat) (s : bytes) : bytes := take n s ++ replicate (n - length s) 0.

Definition SerializeBlobTo (blob_list : BlobList) (out : bytes) : res bytes :=
  len ← PredictSize blob_list;
  if len <? 0 then Err Abort else SerializeBlob blob_list (resize (Z.to_nat len) out).

(** [n] items, each read by [item] from the position the last one ended at. *)
Fixpoint read_items {A} (item : Z → bytes → res (A * Z)) (n : nat) (pos : Z) (data : bytes)
    : res (list A * Z) :=
  match n with
  | O => Ok ([], pos)
  | S n =>
      '(a, pos) ← item pos data;
      '(rest, pos) ← read_items item n pos data;
      Ok (a :: rest, pos)
  end.

Definition read_range (pos : Z) (data : bytes) : res (ImageRange * Z) :=
  '(s, pos) ← ReadInt16 pos data;
  '(e, pos) ← ReadInt16 pos data;
  Ok (mkRange s e, pos).
Definition read_row (pos : Z) (data : bytes) : res (list ImageRange * Z) :=
  '(num_sub_ranges, pos) ← ReadInt16 pos data;
  read_items read_range (Z.to_nat num_sub_ranges) pos data.
Definition read_blob (pos : Z) (data : bytes) : res (RangeImage * Z) :=
  '(m, pos) ← ReadInt16 pos data;
  '(num_ranges, pos) ← ReadInt16 pos data;
  '(rs, pos) ← read_items read_row (Z.to_nat num_ranges) pos data;
  Ok (RangeImage_new m rs, pos).

(** The blobs are appended to the list; the result is where reading ended. *)
Definition ParseBlobList (blob_list : BlobList) (data : bytes) : res (BlobList * Z) :=
  '(num_items, pos) ← ReadInt16 0 data;
  '(bl, pos) ← read_items read_blob (Z.to_nat num_items) pos data;
  Ok (blob_list ++ bl, pos).

(** ** Images, drawing and thresholding *)

Record image (P : Type) := mkImg { fmt_w : Z; fmt_h : Z; px_data : list P }.
Arguments mkImg {P} _ _ _.
Arguments fmt_w {P} _.
Arguments fmt_h {P} _.
Arguments px_data {P} _.

(** [get_px(i, j) = color]; a pixel outside of the image exits. *)
Definition set_px {P} (img : image P) (i j : Z) (color : P) : res (image P) :=
  if (i <? 0) || (fmt_w img <=? i) || (j <? 0) || (fmt_h img <=? j) then Err Abort
  else
    row ← i32 (j * fmt_w img);
    at_ ← i32 (i + row);
    let n := Z.to_nat at_ in
    if bool_decide (n < length (px_data img))%nat
    then Ok (mkImg (fmt_w img) (fmt_h img) (<[n := color]> (px_data img)))
    else Err Undefined.

(** [for (x = st; x < ed; ++x)], [n] times. *)
Fixpoint draw_span {P} (n : nat) (x y : Z) (color : P) (img : image P) : res (image P) :=
  match n with
  | O => Ok img
  | S n => img ← set_px img x y color; draw_span n (x + 1) y color img
  end.

Definition draw_run {P} (y : Z) (color : P) (acc : res (image P)) (r : ImageRange) : res (image P) :=
  img ← acc;
  img ← draw_span (Z.to_nat (ed r - st r)) (st r) y color img;
  img ← set_px img (st r) y color;
  e ← i32 (ed r - 1);
  set_px img e y color.

Fixpoint draw_rows {P} (rows : list (list ImageRange)) (y : Z) (color : P) (img : image P)
    : res (image P) :=
  match rows with
  | [] => Ok img
  | row :: rows =>
      img ← fold_left (draw_run y color) row (Ok img);
      draw_rows rows (y + 1) color img
  end.

Definition draw_range_img {P} (rimg : RangeImage) (outbuf : image P) (color : P) : res (image P) :=
  draw_rows (ranges rimg) (mini rimg) color outbuf.

(** The rows [by_row] iterates over, from [data] to [data + w * h] in steps of
    [w]; an empty image has none. *)
Definition by_row {P} (img : image P) : res (list (list P)) :=
  n ← i32 (fmt_w img * fmt_h img);
  if n =? 0 then Ok []
  else if (fmt_w img <? 0) || (fmt_h img <? 0) || (Z.of_nat (length (px_data img)) <? n) then Err Undefined
  else
    let w := Z.to_nat (fmt_w img) in
    Ok (map (λ j, take w (drop (j * w) (px_data img))) (seq 0 (Z.to_nat (fmt_h img)))).

Section Threshold.
Context {P : Type} (fn : P → bool).

(** The scan of one row from column [x] on. *)
Fixpoint threshold_row (px : list P) (x : Z) (p_score : bool) (pstart w : Z) : list ImageRange :=
  match px with
  | [] => if p_score then [mkRange pstart w] else []
  | p :: px =>
      if negb (Bool.eqb (fn p) p_score) then
        if p_score then mkRange pstart x :: threshold_row px (x + 1) false pstart w
        else threshold_row px (x + 1) true x w
      else threshold_row px (x + 1) p_score pstart w
  end.

Definition do_threshold (img : image P) : res RangeImage :=
  rows ← by_row img;
  Ok (RangeImage_new 0 (map (λ row, threshold_row row 0 false (-1) (fmt_w img)) rows)).
End Threshold.

(** ** Writers and readers

    A writer appends the encoding of an item at the position it is given; a
    reader at the start of an encoding returns the item and its end. *)

Definition writes {A} (w : res (bytes * Z) → A → res (bytes * Z)) (enc : A → bytes) : Prop :=
  ∀ a pre old, (length (enc a) ≤ length old)%nat →
    w (Ok (pre ++ old, Z.of_nat (length pre))) a =
      Ok ((pre ++ enc a) ++ drop (length (enc a)) old, Z.of_nat (length (pre ++ enc a))).

Definition reads {A B} (item : Z → bytes → res (B * Z)) (enc : A → bytes) (f : A → B)
    (ok : A → Prop) : Prop :=
  ∀ a pre rest, ok a →
    item (Z.of_nat (length pre)) (pre ++ enc a ++ rest) = Ok (f a, Z.of_nat (length (pre ++ enc a))).

(** Two buffers or positions built by appending are compared up to association. *)
Ltac append_eq :=
  rewrite ?drop_drop, ?length_app, <-?app_assoc, ?Nat.add_assoc; reflexivity.

Lemma writes_list {A} (w : res (bytes * Z) → A → res (bytes * Z)) enc l pre old :
  writes w enc → (length (concat (map enc l)) ≤ length old)%nat →
  fold_left w l (Ok (pre ++ old, Z.of_nat (length pre))) =
    Ok ((pre ++ concat (map enc l)) ++ drop (length (concat (map enc l))) old,
        Z.of_nat (length (pre ++ concat (map enc l)))).
Proof.
  intros Hw. revert pre old. induction l as [|a l IH]; intros pre old Hl; cbn in *.
  - by rewrite app_nil_r.
  - rewrite length_app in Hl. rewrite Hw by lia. rewrite IH by (rewrite length_drop; lia).
    append_eq.
Qed.

Lemma reads_items {A B} (item : Z → bytes → res (B * Z)) enc (f : A → B) ok l pre rest :
  reads item enc f ok → Forall ok l →
  read_items item (length l) (Z.of_nat (length pre)) (pre ++ concat (map enc l) ++ rest) =
    Ok (map f l, Z.of_nat (length (pre ++ concat (map enc l)))).
Proof.
  intros Hr. revert pre. induction l as [|a l IH]; intros pre Hok; cbn.
  - by rewrite app_nil_r.
  - apply Forall_cons in Hok as [Ha Hok].
    rewrite <-app_assoc, (Hr a pre (concat (map enc l) ++ rest) Ha), res_bind_Ok.
    rewrite (app_assoc pre), IH, res_bind_Ok by done. by rewrite <-app_assoc.
Qed.

(** ** Encodings *)

Definition enc16 (v : Z) : bytes := le_split 2 (u16 v).
Definition enc_range (r : ImageRange) : bytes := enc16 (st r) ++ enc16 (ed r).
Definition enc_row (row : list ImageRange) : bytes :=
  enc16 (Z.of_nat (length row)) ++ concat (map enc_range row).
Definition enc_blob (b : RangeImage) : bytes :=
  enc16 (mini b) ++ enc16 (Z.of_nat (length (ranges b))) ++ concat (map enc_row (ranges b)).
Definition enc_list (bl : BlobList) : bytes :=
  enc16 (Z.of_nat (length bl)) ++ concat (map enc_blob bl).

(** Fields are 16 bits wide on the wire. *)
Definition range16 (r : ImageRange) : ImageRange := mkRange (u16 (st r)) (u16 (ed r)).
Definition blob16 (b : RangeImage) : RangeImage :=
  RangeImage_new (u16 (mini b)) (map (map range16) (ranges b)).

Definition few {A} (l : list A) : Prop := Z.of_nat (length l) < 2 ^ 16.
Definition countable_blob (b : RangeImage) : Prop := few (ranges b) ∧ Forall few (ranges b).

Lemma enc16_length v : length (enc16 v) = 2%nat.
Proof. apply le_split_length. Qed.

Lemma WriteInt16_at pre old v : (2 ≤ length old)%nat →
  WriteInt16 (Z.of_nat (length pre)) v (pre ++ old) =
    Ok ((pre ++ enc16 v) ++ drop 2 old, Z.of_nat (length (pre ++ enc16 v))).
Proof.
  intros Hl. unfold WriteInt16. fold (enc16 v). rewrite put_at, res_bind_Ok by (rewrite ?enc16_length; done).
  rewrite length_app, enc16_length. do 2 f_equal. lia.
Qed.

Lemma ReadInt16_at pre v rest :
  ReadInt16 (Z.of_nat (length pre)) (pre ++ enc16 v ++ rest) = Ok (u16 v, Z.of_nat (length (pre ++ enc16 v))).
Proof.
  unfold ReadInt16. rewrite get_at, res_bind_Ok by (done || apply enc16_length).
  unfold enc16. rewrite le_combine_split, length_app, le_split_length.
  change (256 ^ Z.of_nat 2) with (2 ^ 16). rewrite Z.mod_small by (apply (uwrap_range 16); lia).
  do 2 f_equal. lia.
Qed.

Lemma u16_count {A} (l : list A) : few l → Z.to_nat (u16 (Z.of_nat (length l))) = length l.
Proof. intros H. rewrite uwrap_small by (split; [lia|exact H]). lia. Qed.

Lemma writes_range : writes write_range enc_range.
Proof.
  intros r pre old Hl. unfold enc_range in *. rewrite length_app, !enc16_length in Hl.
  unfold write_range. rewrite res_bind_Ok, WriteInt16_at, res_bind_Ok by lia.
  rewrite WriteInt16_at by (rewrite length_drop; lia).
  append_eq.
Qed.

Lemma writes_row : writes write_row enc_row.
Proof.
  intros row pre old Hl. unfold enc_row in *. rewrite length_app, enc16_length in *.
  unfold write_row. rewrite res_bind_Ok, WriteInt16_at, res_bind_Ok by lia.
  rewrite (writes_list _ _ _ _ _ writes_range) by (rewrite length_drop; lia).
  append_eq.
Qed.

Lemma writes_blob : writes write_blob enc_blob.
Proof.
  intros b pre old Hl. unfold enc_blob in *. rewrite !length_app, !enc16_length in *.
  unfold write_blob. rewrite res_bind_Ok, WriteInt16_at, res_bind_Ok by lia.
  rewrite WriteInt16_at, res_bind_Ok by (rewrite length_drop; lia).
  rewrite (writes_list _ _ _ _ _ writes_row) by (rewrite !length_drop; lia).
  append_eq.
Qed.

Lemma SerializeBlob_enc bl data : (length (enc_list bl) ≤ length data)%nat →
  SerializeBlob bl data = Ok (enc_list bl ++ drop (length (enc_list bl)) data).
Proof.
  intros Hl. unfold SerializeBlob, enc_list in *. rewrite length_app, enc16_length in Hl.
  pose proof (WriteInt16_at [] data (Z.of_nat (length bl))) as E. cbn [app length] in E. change (Z.of_nat 0) with 0 in E.
  rewrite E, res_bind_Ok by lia.
  rewrite (writes_list _ _ _ _ _ writes_blob), res_bind_Ok by (rewrite length_drop; lia).
  by rewrite drop_drop, length_app, enc16_length.
Qed.

Lemma reads_range : reads read_range enc_range range16 (λ _, True).
Proof.
  intros r pre rest _. unfold read_range, enc_range. rewrite <-app_assoc, ReadInt16_at, res_bind_Ok.
  rewrite (app_assoc pre), ReadInt16_at, res_bind_Ok, <-app_assoc. done.
Qed.

Lemma reads_row : reads read_row enc_row (map range16) few.
Proof.
  intros row pre rest Hf. unfold read_row, enc_row. rewrite <-app_assoc, ReadInt16_at, res_bind_Ok.
  rewrite u16_count by done.
  rewrite (app_assoc pre), (reads_items _ _ _ _ _ _ _ reads_range) by (by apply Forall_true).
  by rewrite <-app_assoc.
Qed.

Lemma reads_blob : reads read_blob enc_blob blob16 countable_blob.
Proof.
  intros b pre rest [H1 H2]. unfold read_blob, enc_blob. rewrite <-!app_assoc, ReadInt16_at, res_bind_Ok.
  rewrite (app_assoc pre), ReadInt16_at, res_bind_Ok, u16_count by done.
  rewrite (app_assoc (pre ++ _)), (reads_items _ _ _ _ _ _ _ reads_row), res_bind_Ok by done.
  by rewrite <-!app_assoc.
Qed.

Lemma ParseBlobList_enc bl0 bl rest : few bl → Forall countable_blob bl →
  ParseBlobList bl0 (enc_list bl ++ rest) = Ok (bl0 ++ map blob16 bl, Z.of_nat (length (enc_list bl))).
Proof.
  intros H1 H2. unfold ParseBlobList, enc_list.
  pose proof (ReadInt16_at [] (Z.of_nat (length bl)) (concat (map enc_blob bl) ++ rest)) as E.
  cbn [app length] in E. change (Z.of_nat 0) with 0 in E. rewrite <-app_assoc, E, res_bind_Ok, u16_count by done.
  by rewrite (reads_items _ _ _ _ _ _ _ reads_blob), res_bind_Ok.
Qed.

(** ** Sizes *)

Lemma enc_row_length row : length (enc_row row) = (2 + 4 * length row)%nat.
Proof.
  unfold enc_row. rewrite length_app, enc16_length. f_equal.
  induction row as [|r row IH]; [done|]. cbn [map concat].
  rewrite length_app, IH. unfold enc_range. rewrite length_app, !enc16_length. cbn [length]. lia.
Qed.

Lemma predict_row_eq row c : 0 ≤ c → c + Z.of_nat (length (enc_row row)) < 2 ^ 31 →
  predict_row (Ok c) row = Ok (c + Z.of_nat (length (enc_row row))).
Proof.
  intros H0 H. unfold predict_row. rewrite res_bind_Ok.
  rewrite enc_row_length in *.
  rewrite swrap_small; [f_equal; lia|lia|]. unfold in_signed. cbn in *. lia.
Qed.

Lemma predict_rows_eq rows c : 0 ≤ c → c + Z.of_nat (length (concat (map enc_row rows))) < 2 ^ 31 →
  fold_left predict_row rows (Ok c) = Ok (c + Z.of_nat (length (concat (map enc_row rows)))).
Proof.
  revert c. induction rows as [|row rows IH]; intros c H0 H; cbn [fold_left map concat] in *.
  - cbn. by rewrite Z.add_0_r.
  - rewrite length_app in *. rewrite predict_row_eq, IH by lia. f_equal. lia.
Qed.

Lemma predict_blob_eq b c : 0 ≤ c → c + Z.of_nat (length (enc_blob b)) < 2 ^ 31 →
  predict_blob (Ok c) b = Ok (c + Z.of_nat (length (enc_blob b))).
Proof.
  intros H0 H. unfold predict_blob, enc_blob in *. rewrite !length_app, !enc16_length in *.
  rewrite res_bind_Ok, chk_ok, res_bind_Ok by (unfold in_signed; cbn in *; lia).
  rewrite predict_rows_eq by lia. f_equal. lia.
Qed.

Lemma PredictSize_enc bl : Z.of_nat (length (enc_list bl)) < 2 ^ 31 →
  PredictSize bl = Ok (Z.of_nat (length (enc_list bl))).
Proof.
  unfold PredictSize, enc_list. rewrite length_app, enc16_length.
  assert (H : ∀ c, 0 ≤ c → c + Z.of_nat (length (concat (map enc_blob bl))) < 2 ^ 31 →
    fold_left predict_blob bl (Ok c) = Ok (c + Z.of_nat (length (concat (map enc_blob bl))))).
  { induction bl as [|b bl IH]; intros c H0 H; cbn [fold_left map concat] in *.
    - cbn. by rewrite Z.add_0_r.
    - rewrite length_app in *. rewrite predict_blob_eq, IH by lia. f_equal. lia. }
  intros Hs. rewrite H by lia. f_equal. lia.
Qed.
