(* ===== verification/FindBlob.v ===== *)
(** * Blob finding: aos/vision/blob/disjoint_set.h, find_blob.cc

    Runs of a thresholded image are grouped into blobs by a union-find
    structure whose elements carry the rows found so far. *)

From stdpp Require Import sorting.
From S2P Require Import Prelude Double RangeImage.

(** [v\[i\]] for an [int] index. *)
Definition at_ {A} (l : list A) (i : Z) : res A :=
  if i <? 0 then Err Undefined else from_option Ok (Err Undefined) (l !! Z.to_nat i).
Definition set_at {A} (l : list A) (i : Z) (x : A) : list A := <[Z.to_nat i := x]> l.

(** ** DisjointSet *)

(** [find] with path compression; the fuel bounds the depth of the recursion. *)
Fixpoint find (fuel : nat) (bid : Z) (ufindl : list Z) : res (Z * list Z) :=
  match fuel with
  | O => Err Fuel
  | S fuel =>
      tid ← at_ ufindl bid;
      if tid <=? -1 then Ok (bid, ufindl)
      else
        '(r, ufindl) ← find fuel tid ufindl;
        Ok (r, set_at ufindl bid r)
  end.

(** [DisjointSet::add]: the size is a [size_t], the result an [int]. *)
Definition ds_add (ufindl : list Z) : Z * list Z :=
  let ufindl := ufindl ++ [-1] in
  (swrap 32 (Z.of_nat (length ufindl) - 1), ufindl).

(** ** BlobBuilder *)

Record BlobBuilder := mkBuilder { img : RangeImage; builder_mini : Z }.

Definition BlobBuilder_new (i : Z) : BlobBuilder := mkBuilder (RangeImage_new i []) i.

Definition with_ranges (r : RangeImage) (rs : list (list ImageRange)) : RangeImage :=
  mkImage (npixelsc r) (mini r) rs (corners_set r) (upper_left r) (upper_right r)
    (lower_right r) (lower_left r).

(** [while ((int)img.ranges.size() <= i) img.ranges.emplace_back();] *)
Definition pad_rows (i : Z) (rs : list (list ImageRange)) : list (list ImageRange) :=
  rs ++ replicate (Z.to_nat (i + 1) - length rs) [].

Definition builder_add (b : BlobBuilder) (i : Z) (rng : ImageRange) : res BlobBuilder :=
  d ← i32 (i - builder_mini b);
  let rs := pad_rows d (ranges (img b)) in
  row ← at_ rs d;
  Ok (mkBuilder (with_ranges (img b) (set_at rs d (row ++ [rng]))) (builder_mini b)).

(** The interleaving of [cur] and [prev] by [st], [prev] first on ties. *)
Definition run_lt (a b : ImageRange) : Prop := st a < st b.
#[global] Instance run_lt_dec : RelDecision run_lt.
Proof. intros a b. unfold run_lt. apply _. Defined.
Definition merge_runs (cur prev : list ImageRange) : list ImageRange := list_merge run_lt cur prev.

(** The [for] loop over the rows of the other blob; row [j] goes to row
    [i = j + diff]. *)
Fixpoint merge_from (rows : list (list ImageRange)) (i : Z) (rs : list (list ImageRange))
    : res (list (list ImageRange)) :=
  match rows with
  | [] => Ok rs
  | prev :: rows =>
      let rs := pad_rows i rs in
      cur ← at_ rs i;
      merge_from rows (i + 1) (set_at rs i (merge_runs cur prev))
  end.

Definition builder_merge (b o : BlobBuilder) : res BlobBuilder :=
  diff ← i32 (builder_mini o - builder_mini b);
  rs ← merge_from (ranges (img o)) diff (ranges (img b));
  Ok (mkBuilder (with_ranges (img b) rs) (builder_mini b)).

(** ** BlobDisjointSet *)

Record BlobDisjointSet := mkSet { ufindl : list Z; items : list BlobBuilder }.

(** Enough for any chain of parents (see [find_ok]). *)
Definition find_fuel (s : BlobDisjointSet) : nat := S (length (ufindl s)).

Definition set_find (bid : Z) (s : BlobDisjointSet) : res (Z * BlobDisjointSet) :=
  '(r, u) ← find (find_fuel s) bid (ufindl s);
  Ok (r, mkSet u (items s)).

Definition add_to_blob (bid i : Z) (rng : ImageRange) (s : BlobDisjointSet)
    : res (Z * BlobDisjointSet) :=
  '(bid, s) ← set_find bid s;
  b ← at_ (items s) bid;
  b ← builder_add b i rng;
  Ok (bid, mkSet (ufindl s) (set_at (items s) bid b)).

Definition add_blob (i : Z) (rng : ImageRange) (s : BlobDisjointSet) : res (Z * BlobDisjointSet) :=
  let '(bid, u) := ds_add (ufindl s) in
  let its := items s ++ [BlobBuilder_new i] in
  b ← at_ its bid;
  b ← builder_add b i rng;
  Ok (bid, mkSet u (set_at its bid b)).

Definition merge_in_blob (cbid pbid : Z) (s : BlobDisjointSet) : res BlobDisjointSet :=
  '(cbid, s) ← set_find cbid s;
  '(pbid, s) ← set_find pbid s;
  if cbid =? pbid then Ok s
  else
    c ← at_ (items s) cbid;
    p ← at_ (items s) pbid;
    let '(cbid, pbid, c, p) :=
      if builder_mini p <? builder_mini c then (pbid, cbid, p, c) else (cbid, pbid, c, p) in
    c ← builder_merge c p;
    Ok (mkSet (set_at (ufindl s) pbid cbid) (set_at (items s) cbid c)).

(** [ufindl] and [items] have the same length. *)
Definition get_blobs (s : BlobDisjointSet) : res BlobList :=
  if bool_decide (length (ufindl s) < length (items s))%nat then Err Undefined
  else Ok (map (λ p, img p.2) (filter (λ p, p.1 < 0) (zip (ufindl s) (items s)))).

(** ** find_blobs *)

(** [if ((int)cids.size() == mj) cids.push_back(blob_set.add_blob(i, cranges\[mj\]))] *)
Definition open_blob (i : Z) (rcur : ImageRange) (mj : nat) (cids : list Z) (s : BlobDisjointSet)
    : res (list Z * BlobDisjointSet) :=
  if bool_decide (length cids = mj) then
    '(id, s) ← add_blob i rcur s; Ok (cids ++ [id], s)
  else Ok (cids, s).

(** Two runs that share a column. *)
Definition join_blob (i : Z) (rcur : ImageRange) (mi mj : nat) (pids cids : list Z)
    (s : BlobDisjointSet) : res (list Z * BlobDisjointSet) :=
  pid ← from_option Ok (Err Undefined) (pids !! mi);
  if bool_decide (mj < length cids)%nat then
    cid ← from_option Ok (Err Undefined) (cids !! mj);
    s ← merge_in_blob cid pid s;
    Ok (cids, s)
  else
    '(id, s) ← add_to_blob pid i rcur s;
    Ok (cids ++ [id], s).

(** The scan over two adjacent rows; each turn advances [mi] or [mj], so a
    fuel above the number of runs is enough. *)
Fixpoint scan (fuel : nat) (i : Z) (pranges cranges : list ImageRange) (pids : list Z)
    (mi mj : nat) (cids : list Z) (s : BlobDisjointSet) : res (nat * list Z * BlobDisjointSet) :=
  match pranges !! mi, cranges !! mj with
  | Some rprev, Some rcur =>
      match fuel with
      | O => Err Fuel
      | S fuel =>
          cl ← range_last rcur;
          if cl <? st rprev then
            '(cids, s) ← open_blob i rcur mj cids s;
            scan fuel i pranges cranges pids mi (S mj) cids s
          else
            pl ← range_last rprev;
            if pl <? st rcur then scan fuel i pranges cranges pids (S mi) mj cids s
            else
              '(cids, s) ← join_blob i rcur mi mj pids cids s;
              if cl <? pl then scan fuel i pranges cranges pids mi (S mj) cids s
              else scan fuel i pranges cranges pids (S mi) mj cids s
      end
  | _, _ => Ok (mj, cids, s)
  end.

(** [while (mj < (int)cranges.size())]: [rest] are the runs from [mj] on. *)
Fixpoint finish_row (i : Z) (rest : list ImageRange) (mj : nat) (cids : list Z)
    (s : BlobDisjointSet) : res (list Z * BlobDisjointSet) :=
  match rest with
  | [] => Ok (cids, s)
  | rcur :: rest =>
      '(cids, s) ← open_blob i rcur mj cids s;
      finish_row i rest (S mj) cids s
  end.

Definition find_row (i : Z) (pranges cranges : list ImageRange) (pids : list Z)
    (s : BlobDisjointSet) : res (list Z * BlobDisjointSet) :=
  '(mj, cids, s) ← scan (length pranges + length cranges) i pranges cranges pids 0 0 [] s;
  finish_row i (drop mj cranges) mj cids s.

(** [for (ImageRange rng : rimg.ranges\[0\])] *)
Fixpoint first_row (row : list ImageRange) (pids : list Z) (s : BlobDisjointSet)
    : res (list Z * BlobDisjointSet) :=
  match row with
  | [] => Ok (pids, s)
  | rng :: row =>
      '(id, s) ← add_blob 0 rng s;
      first_row row (pids ++ [id]) s
  end.

(** [for (int i = 1; i < rimg.size(); i++)] *)
Fixpoint find_rows (i : Z) (pranges : list ImageRange) (rows : list (list ImageRange))
    (pids : list Z) (s : BlobDisjointSet) : res BlobDisjointSet :=
  match rows with
  | [] => Ok s
  | cranges :: rows =>
      '(cids, s) ← find_row i pranges cranges pids s;
      find_rows (i + 1) cranges rows cids s
  end.

Definition find_blobs (rimg : RangeImage) : res BlobList :=
  match ranges rimg with
  | [] => Err Undefined
  | row0 :: rows =>
      '(pids, s) ← first_row row0 [] (mkSet [] []);
      s ← find_rows 1 row0 rows pids s;
      get_blobs s
  end.

(** ** Indexing by an [int] *)

Definition valid {A} (l : list A) (e : Z) : Prop := 0 ≤ e < Z.of_nat (length l).

Lemma at_valid {A} (l : list A) e : valid l e → ∃ x, l !! Z.to_nat e = Some x ∧ at_ l e = Ok x.
Proof.
  intros [H0 H1]. destruct (lookup_lt_is_Some_2 l (Z.to_nat e)) as [x Hx]; [lia|].
  exists x. unfold at_. rewrite Hx. by destruct (Z.ltb_spec e 0); [lia|].
Qed.

Lemma at_some {A} (l : list A) e x : 0 ≤ e → l !! Z.to_nat e = Some x → at_ l e = Ok x.
Proof. intros H0 Hx. unfold at_. rewrite Hx. by destruct (Z.ltb_spec e 0); [lia|]. Qed.

Lemma lookup_valid {A} (l : list A) e x : 0 ≤ e → l !! Z.to_nat e = Some x → valid l e.
Proof. intros H0 Hx%lookup_lt_Some. unfold valid. lia. Qed.

Lemma set_at_length {A} (l : list A) e x : length (set_at l e x) = length l.
Proof. apply length_insert. Qed.

Lemma set_at_valid {A} (l : list A) e x e' : valid (set_at l e x) e' ↔ valid l e'.
Proof. unfold valid. by rewrite set_at_length. Qed.

Lemma set_at_eq {A} (l : list A) e x : valid l e → set_at l e x !! Z.to_nat e = Some x.
Proof. intros [H0 H1]. apply list_lookup_insert_eq. lia. Qed.

Lemma set_at_ne {A} (l : list A) e x e' : 0 ≤ e → 0 ≤ e' → e ≠ e' →
  set_at l e x !! Z.to_nat e' = l !! Z.to_nat e'.
Proof. intros. apply list_lookup_insert_ne. lia. Qed.

Lemma set_at_cases {A} (l : list A) e x e' y : 0 ≤ e → 0 ≤ e' →
  set_at l e x !! Z.to_nat e' = Some y → (e' = e ∧ y = x) ∨ (e' ≠ e ∧ l !! Z.to_nat e' = Some y).
Proof.
  intros H0 H1 Hl. destruct (decide (e' = e)) as [->|Hne].
  - left. split; [done|]. assert (valid l e) as Hv.
    { apply (set_at_valid l e x), (lookup_valid _ _ _ H1 Hl). }
    rewrite set_at_eq in Hl by done. congruence.
  - right. split; [done|]. by rewrite set_at_ne in Hl by done.
Qed.

(** ** The number of roots *)

Definition roots (u : list Z) : nat := length (filter (λ t, t < 0) u).

Lemma roots_app u v : roots (u ++ v) = (roots u + roots v)%nat.
Proof. unfold roots. by rewrite filter_app, length_app. Qed.

Lemma roots_cons t u : roots (t :: u) = (roots [t] + roots u)%nat.
Proof. apply (roots_app [t] u). Qed.

Lemma roots_insert u i t x : u !! i = Some t →
  (roots (<[i := x]> u) + roots [t] = roots u + roots [x])%nat.
Proof.
  revert i. induction u as [|y u IH]; intros [|i] Hi; try done; cbn in Hi.
  - injection Hi as ->. change (<[0%nat := x]> (t :: u)) with (x :: u). rewrite (roots_cons x u), (roots_cons t u). lia.
  - specialize (IH i Hi). change (<[S i := x]> (y :: u)) with (y :: <[i := x]> u).
    rewrite (roots_cons y u), (roots_cons y (<[i := x]> u)). lia.
Qed.

Lemma roots_length u : (roots u ≤ length u)%nat.
Proof. apply length_filter. Qed.

(** ** Well-formed forests *)

Record forest (u : list Z) (rep : Z → Z) (dep : Z → nat) : Prop := {
  f_rep : ∀ e, valid u e → valid u (rep e) ∧ u !! Z.to_nat (rep e) = Some (-1);
  f_parent : ∀ e t, 0 ≤ e → u !! Z.to_nat e = Some t →
    (t = -1 ∧ rep e = e ∧ dep e = 0%nat) ∨
    (valid u t ∧ rep e ≠ e ∧ rep t = rep e ∧ (dep t < dep e)%nat);
  f_dep : ∀ e, valid u e → (dep e + roots u ≤ length u)%nat }.

Section Forest.
Context {u : list Z} {rep : Z → Z} {dep : Z → nat} (F : forest u rep dep).

Lemma rep_rep e : valid u e → rep (rep e) = rep e.
Proof.
  intros Hv. destruct (f_rep _ _ _ F e Hv) as [[H0 H1] Hr].
  destruct (f_parent _ _ _ F _ _ H0 Hr) as [(_ & E & _)|([? ?] & _)]; [done|lia].
Qed.

Lemma root_lookup e t : valid u e → u !! Z.to_nat e = Some t → t < 0 ↔ rep e = e.
Proof.
  intros [H0 H1] Ht. destruct (f_parent _ _ _ F _ _ H0 Ht) as [(-> & E & _)|([? ?] & E & _)]; [done|].
  split; [lia|done].
Qed.

(** Pointing an element at its root keeps the forest. *)
Lemma forest_compress e : valid u e → rep e ≠ e → forest (set_at u e (rep e)) rep dep.
Proof.
  intros Hv Hne. destruct (f_rep _ _ _ F e Hv) as [Hvr Hr]. split.
  - intros x Hx. rewrite set_at_valid in Hx. destruct (f_rep _ _ _ F x Hx) as [[H0 H1] Hrx].
    split; [by apply set_at_valid|]. rewrite set_at_ne; [done|apply Hv|done|].
    intros ->. by rewrite (rep_rep x Hx) in Hne.
  - intros x t H0 Ht. apply set_at_cases in Ht as [[-> ->]|[Hx Ht]]; [| |apply Hv|done].
    + right. rewrite set_at_valid. split_and!; [done|done|by apply rep_rep|].
      destruct (f_parent _ _ _ F _ _ (proj1 Hvr) Hr) as [(_ & _ & ->)|([? ?] & _)]; [|lia].
      destruct (at_valid u e Hv) as (t & Ht & _).
      destruct (f_parent _ _ _ F _ _ H0 Ht) as [(_ & ? & _)|(_ & _ & _ & ?)]; [done|lia].
    + rewrite set_at_valid. by apply F.
  - intros x Hx. rewrite set_at_valid in Hx. pose proof (f_dep _ _ _ F x Hx). rewrite set_at_length.
    destruct (at_valid u e Hv) as (t & Ht & _).
    pose proof (roots_insert u _ t (rep e) Ht) as E. fold (set_at u e (rep e)) in E.
    destruct (f_parent _ _ _ F _ _ (proj1 Hv) Ht) as [(_ & ? & _)|([? ?] & _)]; [done|].
    destruct Hvr. unfold roots in E at 2 4. rewrite !filter_cons in E.
    rewrite !decide_False in E by lia. cbn in E. lia.
Qed.
End Forest.

(** [find] returns the root and keeps the forest, with fuel above the depth. *)
Lemma find_ok fuel e u rep dep : forest u rep dep → valid u e → (dep e < fuel)%nat →
  ∃ u', find fuel e u = Ok (rep e, u') ∧ forest u' rep dep ∧ length u' = length u.
Proof.
  revert e u. induction fuel as [|fuel IH]; intros e u F Hv Hd; [lia|]. cbn [find].
  destruct (at_valid u e Hv) as (t & Ht & ->). rewrite res_bind_Ok.
  destruct (f_parent _ _ _ F e t (proj1 Hv) Ht) as [(-> & E & _)|(Hvt & Hne & Hrt & Hdt)].
  - cbn. rewrite E. eauto.
  - destruct (Z.leb_spec t (-1)) as [?|_]; [unfold valid in Hvt; lia|].
    destruct (IH t u F Hvt ltac:(lia)) as (u' & -> & F' & HL). rewrite res_bind_Ok, Hrt.
    assert (valid u' e) as Hv' by (unfold valid in *; by rewrite HL).
    exists (set_at u' e (rep e)). split_and!; [done|by apply (forest_compress F')|by rewrite set_at_length].
Qed.

(** A new element is a root. *)
Definition upd {A} (f : Z → A) (e : Z) (a : A) (x : Z) : A := if decide (x = e) then a else f x.

Lemma upd_eq {A} (f : Z → A) e a : upd f e a e = a.
Proof. unfold upd. by rewrite decide_True. Qed.
Lemma upd_ne {A} (f : Z → A) e a x : x ≠ e → upd f e a x = f x.
Proof. intros. unfold upd. by rewrite decide_False. Qed.

Lemma forest_add u rep dep e : forest u rep dep → e = Z.of_nat (length u) →
  forest (u ++ [-1]) (upd rep e e) (upd dep e 0%nat).
Proof.
  intros F ->. set (n := Z.of_nat (length u)).
  assert (Hv : ∀ x, valid (u ++ [-1]) x ↔ valid u x ∨ x = n).
  { intros x. unfold valid. rewrite length_app. cbn. lia. }
  assert (Hl : ∀ x, valid u x → (u ++ [-1]) !! Z.to_nat x = u !! Z.to_nat x).
  { intros x [? ?]. apply lookup_app_l. lia. }
  assert (Hn : (u ++ [-1]) !! Z.to_nat n = Some (-1)).
  { unfold n. rewrite Nat2Z.id, lookup_app_r, Nat.sub_diag by lia. done. }
  assert (Hne : ∀ x, valid u x → x ≠ n) by (unfold valid; lia).
  split.
  - intros x [Hx| ->]%Hv; [|by rewrite upd_eq; split; [apply Hv; right|]].
    rewrite upd_ne by auto. destruct (f_rep _ _ _ F x Hx) as [Hx' Hr].
    split; [apply Hv; by left|by rewrite Hl].
  - intros x t H0 Ht. destruct (proj1 (Hv x) (lookup_valid _ _ _ H0 Ht)) as [Hx| ->].
    + rewrite Hl in Ht by done. rewrite !(upd_ne _ _ _ x) by auto.
      destruct (f_parent _ _ _ F x t H0 Ht) as [?|(Ht' & ?)]; [by left|right].
      rewrite !upd_ne by auto. split; [apply Hv; by left|done].
    + left. rewrite !upd_eq. split; [congruence|done].
  - intros x Hx%Hv. rewrite roots_app, length_app. change (roots [-1]) with 1%nat. cbn [length].
    destruct Hx as [Hx| ->]; [rewrite upd_ne by auto; pose proof (f_dep _ _ _ F x Hx); lia|].
    rewrite upd_eq. pose proof (roots_length u). lia.
Qed.

(** Linking root [p] under root [c]. *)
Definition link (rep : Z → Z) (p c x : Z) : Z := if decide (rep x = p) then c else rep x.

Lemma forest_link u rep dep p c : forest u rep dep →
  valid u p → valid u c → rep p = p → rep c = c → p ≠ c →
  ∃ dep', forest (set_at u p c) (link rep p c) dep'.
Proof.
  intros F Hp Hc Ep Ec Hne.
  exists (λ x, if decide (rep x = p) then S (dep x) else dep x).
  assert (Hroot : ∀ x, valid u x → rep x = x → dep x = 0%nat ∧ u !! Z.to_nat x = Some (-1)).
  { intros x Hx E. destruct (at_valid u x Hx) as (t & Ht & _).
    destruct (f_parent _ _ _ F _ _ (proj1 Hx) Ht) as [(-> & _ & ?)|(_ & ? & _)]; done. }
  split.
  - intros x Hx. rewrite set_at_valid in Hx. rewrite set_at_valid. unfold link.
    destruct (decide (rep x = p)) as [E|E].
    + split; [done|]. rewrite set_at_ne by (apply Hp || apply Hc || done). by apply Hroot.
    + destruct (f_rep _ _ _ F x Hx) as [Hx' Hr]. split; [done|].
      by rewrite set_at_ne by (apply Hp || apply Hx' || done).
  - intros x t H0 Ht. apply set_at_cases in Ht as [[-> ->]|[Hxp Ht]]; [| |apply Hp|done].
    + right. rewrite set_at_valid. unfold link. rewrite Ep, Ec.
      destruct (decide (c = p)) as [|_]; [done|]. destruct (decide (p = p)) as [_|]; [|done].
      split_and!; [done|done|done|]. destruct (Hroot c Hc Ec) as [-> _]. lia.
    + destruct (f_parent _ _ _ F x t H0 Ht) as [(-> & E & Ed)|(Hvt & E & Er & Ed)].
      * left. unfold link. rewrite E. by rewrite !decide_False by done.
      * right. rewrite set_at_valid. unfold link. rewrite Er.
        split_and!; [done| |done|destruct (decide _); lia].
        destruct (decide (rep x = p)) as [E'|]; [|done]. intros ->. congruence.
  - intros x Hx. rewrite set_at_valid in Hx. pose proof (f_dep _ _ _ F x Hx) as Hd. rewrite set_at_length.
    pose proof (roots_insert u _ _ c (proj2 (Hroot p Hp Ep))) as E. fold (set_at u p c) in E.
    assert (roots [-1] = 1%nat) as E1 by done. assert (roots [c] = 0%nat) as E0.
    { unfold roots. rewrite filter_cons, decide_False by (destruct Hc; lia). done. }
    destruct (decide _); lia.
Qed.
