(* ===== verification/BlobProofs.v ===== *)
(** * Blobs under construction

    The rows of a builder, and the invariant that ties the builders at the
    roots of the union-find forest to a labelling of the runs seen so far. *)

From stdpp Require Import sorting relations.
From S2P Require Import Prelude Double RangeImage FindBlob.

(** ** Rows *)

Definition rows_at (rs : list (list ImageRange)) (k : Z) : list ImageRange :=
  if k <? 0 then [] else default [] (rs !! Z.to_nat k).

(** The runs of a blob on row [y] of the picture. *)
Definition row_at (b : RangeImage) (y : Z) : list ImageRange := rows_at (ranges b) (y - mini b).

Lemma rows_at_pad d rs k : rows_at (pad_rows d rs) k = rows_at rs k.
Proof.
  unfold rows_at, pad_rows. destruct (k <? 0); [done|].
  destruct (decide (Z.to_nat k < length rs)%nat).
  - by rewrite lookup_app_l.
  - rewrite lookup_app_r, (lookup_ge_None_2 rs) by lia.
    destruct (replicate _ _ !! _) as [l|] eqn:E; [|done].
    by apply lookup_replicate in E as [-> _].
Qed.

Lemma pad_valid d rs : 0 ≤ d → valid (pad_rows d rs) d.
Proof. intros H. unfold valid, pad_rows. rewrite length_app, length_replicate. lia. Qed.

Lemma at_pad d rs : 0 ≤ d → at_ (pad_rows d rs) d = Ok (rows_at rs d).
Proof.
  intros H. destruct (at_valid _ _ (pad_valid d rs H)) as (x & Hx & ->).
  rewrite <-(rows_at_pad d rs d). unfold rows_at. rewrite Hx.
  by destruct (Z.ltb_spec d 0); [lia|].
Qed.

Lemma rows_at_set rs d x k : valid rs d →
  rows_at (set_at rs d x) k = if decide (k = d) then x else rows_at rs k.
Proof.
  intros Hv. unfold rows_at. destruct (decide (k = d)) as [->|Hne].
  - rewrite set_at_eq by done. by destruct (Z.ltb_spec d 0); [destruct Hv; lia|].
  - destruct (Z.ltb_spec k 0); [done|]. by rewrite set_at_ne by (apply Hv || done).
Qed.

Lemma rows_at_cons r rs k :
  rows_at (r :: rs) k = if decide (k = 0) then r else rows_at rs (k - 1).
Proof.
  unfold rows_at. destruct (decide (k = 0)) as [->|Hne]; [done|].
  destruct (Z.ltb_spec k 0), (Z.ltb_spec (k - 1) 0); [done|lia|lia|].
  by replace (Z.to_nat k) with (S (Z.to_nat (k - 1))) by lia.
Qed.

Lemma merge_runs_nil_r l : merge_runs l [] = l.
Proof. by destruct l. Qed.

(** ** Builders *)

(** Only [mini] and the rows of a blob are ever set. *)
Definition plain (b : BlobBuilder) : Prop :=
  img b = RangeImage_new (builder_mini b) (ranges (img b)).

Lemma plain_with b rs : plain b → with_ranges (img b) rs = RangeImage_new (builder_mini b) rs.
Proof. intros ->. done. Qed.

Lemma plain_mini b : plain b → mini (img b) = builder_mini b.
Proof. by intros ->. Qed.

(** The number of the last row. *)
Definition builder_last (b : BlobBuilder) : Z :=
  builder_mini b + Z.of_nat (length (ranges (img b))) - 1.

(** There are runs on the first and on the last row. *)
Definition tight (b : BlobBuilder) : Prop :=
  row_at (img b) (builder_mini b) ≠ [] ∧ row_at (img b) (builder_last b) ≠ [].

Lemma pad_length d rs : 0 ≤ d → Z.of_nat (length (pad_rows d rs)) = Z.max (Z.of_nat (length rs)) (d + 1).
Proof. intros H. unfold pad_rows. rewrite length_app, length_replicate. lia. Qed.

Lemma builder_add_ok b i rng : plain b → 0 ≤ builder_mini b ≤ i → i < 2 ^ 31 →
  ∃ b', builder_add b i rng = Ok b' ∧ plain b' ∧ builder_mini b' = builder_mini b ∧
    builder_last b' = Z.max (builder_last b) i ∧
    ∀ y, row_at (img b') y = if decide (y = i) then row_at (img b) y ++ [rng] else row_at (img b) y.
Proof.
  intros Hp Hm Hi. unfold builder_add.
  rewrite chk_ok, res_bind_Ok by (unfold in_signed; cbn in *; lia).
  rewrite at_pad, res_bind_Ok by lia. eexists. split; [reflexivity|]. cbn [img builder_mini].
  rewrite plain_with by done. split_and!; [done|done| |].
  { unfold builder_last. cbn [ranges img RangeImage_new builder_mini]. rewrite set_at_length, pad_length; lia. }
  intros y. unfold row_at at 1. cbn [ranges mini RangeImage_new]. rewrite rows_at_set, rows_at_pad by (apply pad_valid; lia). unfold row_at. rewrite plain_mini by done.
  destruct (decide (y = i)) as [->|]; [by rewrite decide_True|by rewrite decide_False by lia].
Qed.

Lemma builder_new_add i rng : 0 ≤ i < 2 ^ 31 →
  ∃ b, builder_add (BlobBuilder_new i) i rng = Ok b ∧ plain b ∧ builder_mini b = i ∧ tight b ∧
    ∀ y, row_at (img b) y = if decide (y = i) then [rng] else [].
Proof.
  intros Hi. destruct (builder_add_ok (BlobBuilder_new i) i rng) as (b & E & Hp & Hm & Hlast & Hr);
    [done|cbn; lia|lia|].
  assert (Hrow : ∀ y, row_at (img b) y = if decide (y = i) then [rng] else []).
  { intros y. rewrite Hr. unfold row_at, rows_at. cbn. by destruct (decide (y = i)), (y - i <? 0). }
  exists b. split_and!; [done..| |done]. cbn in Hm. unfold builder_last at 2 in Hlast. cbn in Hlast.
  split; rewrite Hrow, decide_True by lia; done.
Qed.

Lemma merge_from_ok rows i rs : 0 ≤ i →
  ∃ rs', merge_from rows i rs = Ok rs' ∧
    ∀ k, rows_at rs' k = merge_runs (rows_at rs k) (rows_at rows (k - i)).
Proof.
  revert i rs. induction rows as [|r rows IH]; intros i rs Hi; cbn [merge_from].
  - exists rs. split; [done|]. intros k. unfold rows_at at 3. rewrite lookup_nil.
    destruct (k - i <? 0); by rewrite merge_runs_nil_r.
  - rewrite at_pad, res_bind_Ok by done.
    destruct (IH (i + 1) (set_at (pad_rows i rs) i (merge_runs (rows_at rs i) r))) as (rs' & E & Hr); [lia|].
    exists rs'. split; [done|]. intros k. rewrite Hr, rows_at_set, rows_at_pad by by apply pad_valid.
    rewrite rows_at_cons. replace (k - (i + 1)) with (k - i - 1) by lia.
    destruct (decide (k = i)) as [->|].
    + rewrite decide_True by lia. unfold rows_at at 2.
      destruct (Z.ltb_spec (i - i - 1) 0); [by rewrite merge_runs_nil_r|lia].
    + by rewrite decide_False by lia.
Qed.

Lemma merge_from_length rows i rs rs' : 0 ≤ i → rows ≠ [] → merge_from rows i rs = Ok rs' →
  Z.of_nat (length rs') = Z.max (Z.of_nat (length rs)) (i + Z.of_nat (length rows)).
Proof.
  revert i rs. induction rows as [|r rows IH]; intros i rs Hi Hne E; [done|]. cbn [merge_from] in E.
  rewrite at_pad, res_bind_Ok in E by done. destruct rows as [|r' rows].
  - injection E as <-. rewrite set_at_length, pad_length; cbn; lia.
  - apply IH in E; [|lia|done]. rewrite E, set_at_length, pad_length by done. cbn [length]. lia.
Qed.

Lemma merge_runs_nil l l' : merge_runs l l' = [] → l = [] ∧ l' = [].
Proof.
  intros E. apply (f_equal length) in E. unfold merge_runs in E.
  rewrite (Permutation_length (merge_Permutation _ _ _)), length_app in E. cbn in E.
  split; apply nil_length_inv; lia.
Qed.

Lemma builder_merge_ok b o : plain b → plain o → 0 ≤ builder_mini b ≤ builder_mini o →
  builder_mini o < 2 ^ 31 →
  ranges (img o) ≠ [] →
  ∃ b', builder_merge b o = Ok b' ∧ plain b' ∧ builder_mini b' = builder_mini b ∧
    builder_last b' = Z.max (builder_last b) (builder_last o) ∧
    ∀ y, row_at (img b') y = merge_runs (row_at (img b) y) (row_at (img o) y).
Proof.
  intros Hb Ho Hm Hi Hne. unfold builder_merge.
  rewrite chk_ok, res_bind_Ok by (unfold in_signed; cbn in *; lia).
  destruct (merge_from_ok (ranges (img o)) (builder_mini o - builder_mini b) (ranges (img b)))
    as (rs & E & Hr); [lia|].
  rewrite E, res_bind_Ok. eexists. split; [reflexivity|]. cbn [img builder_mini].
  rewrite plain_with by done. split_and!; [done|done| |].
  { apply merge_from_length in E; [|lia|done]. unfold builder_last. cbn [img ranges builder_mini RangeImage_new]. lia. }
  intros y. unfold row_at.
  cbn [ranges mini RangeImage_new]. rewrite Hr, !plain_mini by done. do 2 f_equal. lia.
Qed.

(** Adding to and merging tight blobs keeps them tight. *)
Lemma tight_add b b' i rng : tight b → builder_mini b' = builder_mini b →
  builder_last b' = Z.max (builder_last b) i →
  (∀ y, row_at (img b') y = if decide (y = i) then row_at (img b) y ++ [rng] else row_at (img b) y) → tight b'.
Proof.
  intros [H1 H2] Hm Hl Hr. assert (K : ∀ y, y = i ∨ row_at (img b) y ≠ [] → row_at (img b') y ≠ []).
  { intros y Hy. rewrite Hr. destruct (decide (y = i)); [by intros [_ ?]%app_eq_nil|tauto]. }
  split; apply K; [right; by rewrite Hm|]. rewrite Hl.
  destruct (Z.max_spec (builder_last b) i) as [[_ ->]|[_ ->]]; [by left|by right].
Qed.

Lemma tight_merge b o b' : tight b → tight o → builder_mini b' = builder_mini b →
  builder_last b' = Z.max (builder_last b) (builder_last o) →
  (∀ y, row_at (img b') y = merge_runs (row_at (img b) y) (row_at (img o) y)) → tight b'.
Proof.
  intros [H1 H2] [H3 H4] Hm Hl Hr. split.
  - rewrite Hm, Hr. by intros [? _]%merge_runs_nil.
  - rewrite Hl, Hr. intros [? ?]%merge_runs_nil.
    destruct (Z.max_spec (builder_last b) (builder_last o)) as [[_ E]|[_ E]]; rewrite E in *; done.
Qed.

Lemma tight_ranges b : tight b → ranges (img b) ≠ [].
Proof.
  intros [H _] E. apply H. unfold row_at, rows_at. rewrite E, lookup_nil. by destruct (_ <? 0).
Qed.

(** ** Labelled rows *)

Abbreviation lrow := (list (ImageRange * Z)).

Definition select (rep : Z → Z) (r : Z) (l : lrow) : list ImageRange :=
  (filter (λ p : ImageRange * Z, rep p.2 = r) l).*1.

Definition lrow_sorted (l : lrow) : Prop := StronglySorted (λ a b, st a.1 < st b.1) l.

Lemma select_app rep r l l' : select rep r (l ++ l') = select rep r l ++ select rep r l'.
Proof. unfold select. by rewrite filter_app, fmap_app. Qed.

Lemma select_cons rep r p l :
  select rep r (p :: l) = if decide (rep p.2 = r) then p.1 :: select rep r l else select rep r l.
Proof. unfold select. rewrite filter_cons. by destruct (decide _). Qed.

Lemma select_ext rep rep' r r' l :
  (∀ p, p ∈ l → rep p.2 = r ↔ rep' p.2 = r') → select rep r l = select rep' r' l.
Proof.
  induction l as [|p l IH]; intros H; [done|]. rewrite !select_cons, IH by (intros; apply H; by right).
  specialize (H p ltac:(by left)). destruct (decide (rep p.2 = r)), (decide (rep' p.2 = r')); naive_solver.
Qed.

Lemma select_none rep r l : (∀ p, p ∈ l → rep p.2 ≠ r) → select rep r l = [].
Proof.
  induction l as [|p l IH]; intros H; [done|]. rewrite select_cons, IH by (intros; apply H; by right).
  rewrite decide_False; [done|]. apply H. by left.
Qed.

Lemma select_elem rep r l x : x ∈ select rep r l → ∃ p, p ∈ l ∧ p.1 = x ∧ rep p.2 = r.
Proof.
  unfold select. rewrite list_elem_of_fmap. intros (p & -> & Hp).
  apply list_elem_of_filter in Hp as [? ?]. eauto.
Qed.

Lemma merge_head_l x l l' : (∀ y, y ∈ l' → st x < st y) →
  merge_runs (x :: l) l' = x :: merge_runs l l'.
Proof.
  intros H. destruct l' as [|y l']; [by rewrite !merge_runs_nil_r|].
  unfold merge_runs. rewrite list_merge_cons, decide_True; [done|]. apply H. by left.
Qed.

Lemma merge_head_r x l l' : (∀ y, y ∈ l → st x < st y) →
  merge_runs l (x :: l') = x :: merge_runs l l'.
Proof.
  intros H. destruct l as [|y l]; [by destruct l'|]. unfold merge_runs.
  rewrite list_merge_cons, decide_False; [done|]. specialize (H y ltac:(by left)).
  unfold run_lt. lia.
Qed.

(** Merging the rows of two blobs of the same picture gives the row of their union. *)
Lemma merge_select rep p c l : p ≠ c → lrow_sorted l →
  merge_runs (select rep c l) (select rep p l) = select (link rep p c) c l.
Proof.
  intros Hne. induction 1 as [|x l Hs IH Hx]; [done|]. rewrite !select_cons.
  rewrite Forall_forall in Hx.
  assert (Hsel : ∀ r y, y ∈ select rep r l → st x.1 < st y).
  { intros r y (q & Hq & <- & _)%select_elem. by apply Hx. }
  destruct (decide (rep x.2 = c)) as [E|E], (decide (rep x.2 = p)) as [E'|E']; [congruence| | |].
  - rewrite decide_True by (unfold link; by case_decide). rewrite merge_head_l by apply Hsel. by rewrite IH.
  - rewrite decide_True by (unfold link; by case_decide). rewrite merge_head_r by apply Hsel. by rewrite IH.
  - by rewrite decide_False by (unfold link; by case_decide).
Qed.

(** ** The blob set and the labelling of the runs *)


(** A root's builder holds exactly the runs whose element has that root. *)
Definition holds (rep : Z → Z) (lab : Z → lrow) (r : Z) (b : BlobBuilder) : Prop :=
  plain b ∧ 0 ≤ builder_mini b < 2 ^ 31 ∧ tight b ∧
  ∀ y, row_at (img b) y = select rep r (lab y).

Record labelled (s : BlobDisjointSet) (rep : Z → Z) (lab : Z → lrow) : Prop := {
  l_forest : ∃ dep, forest (ufindl s) rep dep;
  l_length : length (items s) = length (ufindl s);
  l_valid : ∀ y p, p ∈ lab y → valid (ufindl s) p.2;
  l_items : ∀ r, valid (ufindl s) r → rep r = r →
    ∃ b, items s !! Z.to_nat r = Some b ∧ holds rep lab r b }.

(** Elements that had one root still have one. *)
Definition coarser (u : list Z) (rep rep' : Z → Z) : Prop :=
  ∀ x y, valid u x → valid u y → rep x = rep y → rep' x = rep' y.

Section Operations.
Context {s : BlobDisjointSet} {rep : Z → Z} {lab : Z → lrow} (L : labelled s rep lab).

Lemma set_find_ok e : valid (ufindl s) e →
  ∃ s', set_find e s = Ok (rep e, s') ∧ labelled s' rep lab ∧
    length (ufindl s') = length (ufindl s) ∧ items s' = items s.
Proof.
  intros Hv. destruct (l_forest _ _ _ L) as [dep F]. unfold set_find, find_fuel.
  destruct (find_ok (S (length (ufindl s))) e _ _ _ F Hv) as (u' & -> & F' & HL).
  { pose proof (f_dep _ _ _ F e Hv). lia. }
  rewrite res_bind_Ok. eexists. split; [reflexivity|]. cbn.
  assert (Hval : ∀ x, valid u' x ↔ valid (ufindl s) x) by (intros; unfold valid; by rewrite HL).
  split_and!; [|done|done]. split; cbn.
  - by exists dep.
  - rewrite HL. apply L.
  - intros y p Hp. apply Hval. by apply (l_valid _ _ _ L y).
  - intros r Hr. apply (l_items _ _ _ L). by apply Hval.
Qed.

Lemma rep_valid e : valid (ufindl s) e → valid (ufindl s) (rep e) ∧ rep (rep e) = rep e.
Proof.
  intros Hv. destruct (l_forest _ _ _ L) as [dep F].
  split; [by apply F|by apply (rep_rep F)].
Qed.

Lemma valid_items e : valid (items s) e ↔ valid (ufindl s) e.
Proof. unfold valid. by rewrite (l_length _ _ _ L). Qed.

(** The row a builder starts on has been seen. *)
Lemma holds_mini r b i : holds rep lab r b → (∀ y, i < y → lab y = []) → builder_mini b ≤ i.
Proof.
  intros (_ & _ & [Hne _] & Hr) Hl. destruct (decide (builder_mini b ≤ i)); [done|].
  rewrite Hr, Hl in Hne by lia. done.
Qed.

Lemma add_blob_ok i rng : 0 ≤ i < 2 ^ 31 → Z.of_nat (length (ufindl s)) < 2 ^ 31 - 1 →
  let e := Z.of_nat (length (ufindl s)) in
  ∃ s', add_blob i rng s = Ok (e, s') ∧ length (ufindl s') = S (length (ufindl s)) ∧
    labelled s' (upd rep e e) (upd lab i (lab i ++ [(rng, e)])).
Proof.
  intros Hi Hn e. destruct (l_forest _ _ _ L) as [dep F]. unfold add_blob, ds_add.
  replace (swrap 32 (Z.of_nat (length (ufindl s ++ [-1])) - 1)) with e.
  2:{ rewrite length_app, swrap_small; cbn [length]; [lia|lia|]. unfold in_signed. cbn in *. lia. }
  assert (Hne : ∀ x, valid (ufindl s) x → x ≠ e) by (unfold valid; lia).
  assert (Hv : ∀ x, valid (ufindl s ++ [-1]) x ↔ valid (ufindl s) x ∨ x = e).
  { intros x. unfold valid. rewrite length_app. cbn. lia. }
  rewrite (at_some _ e (BlobBuilder_new i)), res_bind_Ok; [|lia|].
  2:{ unfold e. by rewrite Nat2Z.id, <-(l_length _ _ _ L), list_lookup_middle. }
  destruct (builder_new_add i rng Hi) as (b & -> & Hp & Hm & Ht & Hr). rewrite res_bind_Ok.
  eexists. split; [reflexivity|]. cbn [ufindl items].
  split; [rewrite length_app; cbn; lia|]. split; cbn [ufindl items].
  - eexists. by apply forest_add.
  - rewrite set_at_length, !length_app, (l_length _ _ _ L). done.
  - intros y p Hp'. apply Hv. unfold upd in Hp'. destruct (decide (y = i)) as [->|].
    + apply elem_of_app in Hp' as [Hp'| ->%list_elem_of_singleton]; [left|by right].
      by apply (l_valid _ _ _ L i).
    + left. by apply (l_valid _ _ _ L y).
  - assert (Hsel : ∀ r y, valid (ufindl s) r → rep r = r →
      select (upd rep e e) r (lab y) = select rep r (lab y)).
    { intros r y Hr' _. apply select_ext. intros p Hp'.
      rewrite upd_ne; [done|]. apply Hne. by apply (l_valid _ _ _ L y). }
    assert (Hlen : Z.to_nat e = length (items s)) by (rewrite (l_length _ _ _ L); lia).
    intros r [Hr'| ->]%Hv Er.
    + rewrite upd_ne in Er by auto. destruct (l_items _ _ _ L r Hr' Er) as (b' & Hb' & Hp' & Hm' & Hn' & Hs').
      exists b'. split.
      { rewrite set_at_ne; [|lia|apply Hr'|]; [|intros E; by apply (Hne r)].
        rewrite lookup_app_l; [done|]. by apply lookup_lt_Some in Hb'. }
      split_and!; [done|apply Hm'|apply Hm'|done|]. intros y. rewrite Hs'. unfold upd at 2.
      destruct (decide (y = i)) as [->|]; [|by rewrite Hsel].
      rewrite select_app, Hsel by done. unfold select at 3. rewrite filter_cons, decide_False, filter_nil.
      { cbn. by rewrite app_nil_r. } cbn. rewrite upd_eq. intros E. by apply (Hne r).
    + exists b. split.
      { rewrite set_at_eq; [done|]. unfold valid. rewrite length_app, (l_length _ _ _ L). cbn. lia. }
      assert (Hsel' : ∀ y, select (upd rep e e) e (lab y) = []).
      { intros y. apply select_none. intros p Hp' E. assert (valid (ufindl s) p.2) as Hv' by by apply (l_valid _ _ _ L y).
        rewrite upd_ne in E by auto. apply (Hne (rep p.2)); [by apply rep_valid|done]. }
      split_and!; [done|lia|lia|done|].
      intros y. rewrite Hr. unfold upd at 2. destruct (decide (y = i)) as [->|]; [|by rewrite Hsel'].
      rewrite select_app, Hsel'. unfold select. rewrite filter_cons, decide_True by (cbn; by rewrite upd_eq). done.
Qed.

Lemma add_to_blob_ok e i rng : valid (ufindl s) e → 0 ≤ i < 2 ^ 31 → (∀ y, i < y → lab y = []) →
  ∃ s', add_to_blob e i rng s = Ok (rep e, s') ∧ length (ufindl s') = length (ufindl s) ∧
    labelled s' rep (upd lab i (lab i ++ [(rng, rep e)])).
Proof.
  intros Hv Hi Hl. unfold add_to_blob.
  destruct (set_find_ok e Hv) as (s1 & -> & L1 & Hlen & Hits). rewrite res_bind_Ok.
  destruct (rep_valid e Hv) as [Hvr Err].
  destruct (l_items _ _ _ L (rep e) Hvr Err) as (b & Hb & Hh).
  pose proof (holds_mini _ _ i Hh Hl). destruct Hh as (Hp & Hm & Hn & Hs).
  rewrite Hits, (at_some _ _ b), res_bind_Ok by (apply Hvr || done).
  destruct (builder_add_ok b i rng Hp) as (b' & -> & Hp' & Hm' & Hl' & Hr'); [lia|lia|]. rewrite res_bind_Ok.
  assert (Hvs : ∀ x, valid (ufindl s1) x ↔ valid (ufindl s) x) by (intros; unfold valid; by rewrite Hlen).
  eexists. split; [reflexivity|]. cbn [ufindl items]. split; [done|].
  assert (Hsel : ∀ r y, select rep r (upd lab i (lab i ++ [(rng, rep e)]) y) =
    select rep r (lab y) ++ (if decide (y = i ∧ r = rep e) then [rng] else [])).
  { intros r y. unfold upd. destruct (decide (y = i)) as [->|].
    - rewrite select_app. f_equal. rewrite select_cons. cbn. rewrite Err.
      destruct (decide (rep e = r)), (decide (i = i ∧ r = rep e)); naive_solver.
    - rewrite decide_False by tauto. by rewrite app_nil_r. }
  split; cbn [ufindl items].
  - apply L1.
  - by rewrite set_at_length, (l_length _ _ _ L).
  - intros y p Hp0. apply Hvs. unfold upd in Hp0. destruct (decide (y = i)) as [->|].
    + apply elem_of_app in Hp0 as [Hp0| ->%list_elem_of_singleton]; [|done]. by apply (l_valid _ _ _ L i).
    + by apply (l_valid _ _ _ L y).
  - intros r Hr%Hvs Er. destruct (decide (r = rep e)) as [->|Hne].
    + exists b'. split; [apply set_at_eq; by apply valid_items|]. split_and!; [done|lia|lia| |].
      * by apply (tight_add b b' i rng).
      * intros y. rewrite Hr', Hsel, Hs. destruct (decide (y = i)), (decide (y = i ∧ rep e = rep e));
          try tauto; by rewrite ?app_nil_r.
    + destruct (l_items _ _ _ L r Hr Er) as (b0 & Hb0 & Hp0 & Hm0 & Hn0 & Hs0). exists b0. split.
      { rewrite set_at_ne; [done|apply Hvr|apply Hr|done]. }
      split_and!; [done|lia|lia|done|]. intros y. rewrite Hsel, decide_False by tauto. by rewrite app_nil_r.
Qed.

(** Linking root [p], whose blob starts no earlier, under root [c]. *)
Lemma link_blobs p c bp bc : (∀ y, lrow_sorted (lab y)) →
  valid (ufindl s) p → valid (ufindl s) c → rep p = p → rep c = c → p ≠ c →
  items s !! Z.to_nat p = Some bp → items s !! Z.to_nat c = Some bc →
  holds rep lab p bp → holds rep lab c bc → builder_mini bc ≤ builder_mini bp →
  ∃ b, builder_merge bc bp = Ok b ∧
    labelled (mkSet (set_at (ufindl s) p c) (set_at (items s) c b)) (link rep p c) lab.
Proof.
  intros Hsort Hp Hc Ep Ec Hne Ip Ic (Pp & Mp & Np & Sp) (Pc & Mc & Nc & Sc) Hle.
  destruct (builder_merge_ok bc bp Pc Pp) as (b & Eb & Pb & Mb & Lb & Rb); [lia|lia|by apply tight_ranges|].
  exists b. split; [done|]. destruct (l_forest _ _ _ L) as [dep F].
  split; cbn [ufindl items].
  - by apply (forest_link _ _ dep).
  - by rewrite !set_at_length, (l_length _ _ _ L).
  - intros y q Hq. apply set_at_valid. by apply (l_valid _ _ _ L y).
  - intros r Hr Er. rewrite set_at_valid in Hr. destruct (decide (r = c)) as [->|Hrc].
    + exists b. split; [apply set_at_eq; by apply valid_items|].
      assert (Hrow : ∀ y, row_at (img b) y = select (link rep p c) c (lab y)).
      { intros y. rewrite Rb, Sp, Sc. by apply merge_select. }
      split_and!; [done|lia|lia|by apply (tight_merge bc bp)|done].
    + unfold link in Er. destruct (decide (rep r = p)) as [|Hrp]; [by destruct Hrc|].
      destruct (l_items _ _ _ L r Hr Er) as (b0 & Hb0 & P0 & M0 & N0 & S0). exists b0.
      split; [rewrite set_at_ne; [done|apply Hc|apply Hr|done]|].
      split_and!; [done|lia|lia|done|]. intros y. rewrite S0. apply select_ext. intros q _.
      unfold link. destruct (decide (rep q.2 = p)) as [E|]; [|done]. split; [congruence|done].
Qed.
End Operations.

(** What linking does to roots. *)
Definition joins (u : list Z) (c p : Z) (rep rep' : Z → Z) : Prop :=
  coarser u rep rep' ∧ rep' c = rep' p ∧
  ∀ x y, valid u x → valid u y → rep' x = rep' y → rep x = rep y ∨
    (rep x = rep c ∧ rep y = rep p) ∨ (rep x = rep p ∧ rep y = rep c).

Lemma link_joins u rep p c p' c' :
  (c' = rep c ∧ p' = rep p) ∨ (c' = rep p ∧ p' = rep c) → p' ≠ c' → joins u c p rep (link rep p' c').
Proof.
  intros Hpc Hne. split_and!.
  - intros x y _ _ E. unfold link. by rewrite E.
  - unfold link. destruct Hpc as [[-> ->]|[-> ->]]; repeat case_decide; congruence.
  - intros x y _ _. unfold link. repeat case_decide; intros E; destruct Hpc as [[-> ->]|[-> ->]];
      (left; congruence) || (right; left; split; congruence) || (right; right; split; congruence).
Qed.

Lemma merge_in_blob_ok s rep lab c p : labelled s rep lab → (∀ y, lrow_sorted (lab y)) →
  valid (ufindl s) c → valid (ufindl s) p →
  ∃ s' rep', merge_in_blob c p s = Ok s' ∧ length (ufindl s') = length (ufindl s) ∧
    labelled s' rep' lab ∧ joins (ufindl s) c p rep rep'.
Proof.
  intros L Hsort Hc Hp. unfold merge_in_blob.
  destruct (set_find_ok L c Hc) as (s1 & -> & L1 & E1 & I1). rewrite res_bind_Ok.
  assert (valid (ufindl s1) p) as Hp1 by (unfold valid in *; by rewrite E1).
  destruct (set_find_ok L1 p Hp1) as (s2 & -> & L2 & E2 & I2). rewrite res_bind_Ok.
  destruct (Z.eqb_spec (rep c) (rep p)) as [E|Hne].
  { exists s2, rep. split_and!; [done|congruence|done|split_and!; [by intros x y|done|by left]]. }
  assert (HL : length (ufindl s2) = length (ufindl s)) by congruence.
  assert (Hv : ∀ x, valid (ufindl s2) x ↔ valid (ufindl s) x) by (intros; unfold valid; by rewrite HL).
  destruct (rep_valid L c Hc) as [Hvc Ec], (rep_valid L p Hp) as [Hvp Ep].
  apply Hv in Hvc, Hvp.
  destruct (l_items _ _ _ L2 (rep c) Hvc Ec) as (bc & Ic & Hbc).
  destruct (l_items _ _ _ L2 (rep p) Hvp Ep) as (bp & Ip & Hbp).
  rewrite (at_some (items s2) (rep c) bc), res_bind_Ok by (apply Hvc || done).
  rewrite (at_some (items s2) (rep p) bp), res_bind_Ok by (apply Hvp || done).
  destruct (Z.ltb_spec (builder_mini bp) (builder_mini bc)) as [Hlt|Hle].
  - destruct (link_blobs L2 (rep c) (rep p) bc bp) as (b & -> & L'); try done; [lia|].
    rewrite res_bind_Ok. eexists _, _. split_and!; [reflexivity|cbn; by rewrite set_at_length|done|].
    apply link_joins; [by right|done].
  - destruct (link_blobs L2 (rep p) (rep c) bp bc) as (b & -> & L'); try done.
    rewrite res_bind_Ok. eexists _, _. split_and!; [reflexivity|cbn; by rewrite set_at_length|done|].
    apply link_joins; [by left|congruence].
Qed.
