(* ===== verification/BlobRows.v ===== *)
(** * The scan of adjacent rows and the graph of touching runs *)

From stdpp Require Import sorting relations.
From S2P Require Import Prelude Double RangeImage FindBlob BlobProofs.

(** ** Well-formed pictures *)

(** Runs are [int]s, not empty, disjoint and ordered. *)
Definition run_okb (r : ImageRange) : bool :=
  (st r <? ed r) && (- 2 ^ 31 <=? st r) && (ed r <? 2 ^ 31).

Fixpoint row_okb (l : list ImageRange) : bool :=
  match l with
  | [] => true
  | a :: l => run_okb a && match l with [] => true | b :: _ => ed a <=? st b end && row_okb l
  end.

Definition run_ok (r : ImageRange) : Prop := st r < ed r ∧ - 2 ^ 31 ≤ st r ∧ ed r < 2 ^ 31.
Definition before (l : list ImageRange) : Prop :=
  ∀ i j a b, l !! i = Some a → l !! j = Some b → (i < j)%nat → ed a ≤ st b.
Definition row_ok (l : list ImageRange) : Prop := Forall run_ok l ∧ before l.

Lemma run_okb_spec r : run_okb r = true ↔ run_ok r.
Proof. unfold run_okb, run_ok. rewrite !andb_true_iff, !Z.ltb_lt, Z.leb_le. tauto. Qed.

Lemma row_okb_ok l : row_okb l = true → row_ok l.
Proof.
  induction l as [|a l IH]; intros H; [by split; [constructor|intros ? ? ? ?]|]. cbn [row_okb] in H.
  rewrite !andb_true_iff in H. destruct H as [[Ha Hb] Hl]. apply run_okb_spec in Ha.
  destruct (IH Hl) as [HF HB]. split; [by constructor|].
  assert (Ha' : ∀ j b, l !! j = Some b → ed a ≤ st b).
  { intros j b Hj. destruct l as [|b0 l]; [done|]. apply Z.leb_le in Hb.
    destruct j as [|j]; [injection Hj as ->; done|].
    pose proof (HB 0%nat (S j) b0 b eq_refl Hj ltac:(lia)).
    apply Forall_cons in HF as [[? _] _]. lia. }
  intros [|i] [|j] x y Hi Hj Hlt; try lia; cbn in *.
  - injection Hi as ->. by apply (Ha' j).
  - apply (HB i j); [done..|lia].
Qed.

Lemma before_sorted (l : lrow) : Forall run_ok l.*1 → before l.*1 → lrow_sorted l.
Proof.
  induction l as [|p l IH]; intros HF HB; [constructor|]. rewrite fmap_cons in *. apply Forall_cons in HF as [[Hp _] HF].
  constructor.
  - apply IH; [done|]. intros i j a b Hi Hj Hlt. apply (HB (S i) (S j)); [done..|lia].
  - apply Forall_lookup. intros j q Hq. pose proof (HB 0%nat (S j) p.1 q.1 eq_refl) as H.
    change ((p.1 :: l.*1) !! S j) with (l.*1 !! j) in H. rewrite list_lookup_fmap, Hq in H.
    specialize (H eq_refl ltac:(lia)). lia.
Qed.

Lemma row_ok_prefix l l' : l `prefix_of` l' → row_ok l' → row_ok l.
Proof.
  intros [k ->] [HF HB]. apply Forall_app in HF as [HF _]. split; [done|].
  intros i j a b Hi Hj. apply HB; by apply lookup_app_l_Some.
Qed.

(** ** The graph *)

(** Two runs on adjacent rows that share a column. *)
Definition touch (a b : ImageRange) : Prop := st a < ed b ∧ st b < ed a.

Section Scan.
Context (rows : list (list ImageRange)).
Context (rows_ok : ∀ y, row_ok (rows_at rows y)).
Notation row := (rows_at rows).

Definition edge (n n' : Z * nat) : Prop :=
  n'.1 = n.1 + 1 ∧ ∃ a b, row n.1 !! n.2 = Some a ∧ row n'.1 !! n'.2 = Some b ∧ touch a b.
Definition conn : relation (Z * nat) := rtsc edge.

Record tracked (i : Z) (s : BlobDisjointSet) (rep : Z → Z) (lab : Z → lrow) : Prop := {
  t_lab : labelled s rep lab;
  t_rows : ∀ y, (lab y).*1 `prefix_of` row y;
  t_future : ∀ y, i < y → lab y = [];
  t_sound : ∀ y k p y' k' p', lab y !! k = Some p → lab y' !! k' = Some p' →
    rep p.2 = rep p'.2 → conn (y, k) (y', k') }.

Lemma tracked_sorted i s rep lab y : tracked i s rep lab → lrow_sorted (lab y).
Proof.
  intros T. destruct (row_ok_prefix _ _ (t_rows _ _ _ _ T y) (rows_ok y)). by apply before_sorted.
Qed.

Lemma tracked_run i s rep lab y k p : tracked i s rep lab → lab y !! k = Some p → row y !! k = Some p.1.
Proof.
  intros T Hp. apply (prefix_lookup_Some ((lab y).*1)); [|apply (t_rows _ _ _ _ T)].
  by rewrite list_lookup_fmap, Hp.
Qed.

(** How far an operation on row [i] extends the state. *)
Record ext (i : Z) (s : BlobDisjointSet) (rep : Z → Z) (lab : Z → lrow)
    (s' : BlobDisjointSet) (rep' : Z → Z) (lab' : Z → lrow) : Prop := {
  e_rep : coarser (ufindl s) rep rep';
  e_other : ∀ y, y ≠ i → lab' y = lab y;
  e_row : lab i `prefix_of` lab' i;
  e_le : (length (ufindl s) ≤ length (ufindl s'))%nat;
  e_size : (length (ufindl s') + length (lab i) ≤ length (ufindl s) + length (lab' i))%nat }.

Lemma ext_refl i s rep lab : ext i s rep lab s rep lab.
Proof. split; try done. by intros x y. Qed.

Lemma ext_trans i s rep lab s1 rep1 lab1 s2 rep2 lab2 :
  ext i s rep lab s1 rep1 lab1 → ext i s1 rep1 lab1 s2 rep2 lab2 → ext i s rep lab s2 rep2 lab2.
Proof.
  intros [C1 O1 R1 L1 S1] [C2 O2 R2 L2 S2]. split.
  - intros x y Hx Hy E. apply C2; [unfold valid in *; lia..|]. by apply C1.
  - intros y Hy. rewrite O2 by done. by apply O1.
  - by transitivity (lab1 i).
  - lia.
  - lia.
Qed.

Lemma ext_lookup i s rep lab s' rep' lab' y k p :
  ext i s rep lab s' rep' lab' → lab y !! k = Some p → lab' y !! k = Some p.
Proof.
  intros E Hp. destruct (decide (y = i)) as [->|]; [|by rewrite (e_other _ _ _ _ _ _ _ E)].
  by apply (prefix_lookup_Some (lab i)), E.
Qed.

Lemma ext_same i s rep lab s' rep' lab' y k p y' k' p' : labelled s rep lab →
  ext i s rep lab s' rep' lab' → lab y !! k = Some p → lab y' !! k' = Some p' →
  rep p.2 = rep p'.2 → rep' p.2 = rep' p'.2.
Proof.
  intros L E Hp%list_elem_of_lookup_2 Hp'%list_elem_of_lookup_2.
  apply (e_rep _ _ _ _ _ _ _ E); [by apply (l_valid _ _ _ L y)|by apply (l_valid _ _ _ L y')].
Qed.

(** Appending the next run of row [i], with an element that has the root [e']. *)
Lemma append_row i (lab : Z → lrow) rng e : row i !! length (lab i) = Some rng →
  (∀ y, (lab y).*1 `prefix_of` row y) →
  ∀ y, (upd lab i (lab i ++ [(rng, e)]) y).*1 `prefix_of` row y.
Proof.
  intros Hr Hp y. destruct (decide (y = i)) as [->|]; [|by rewrite upd_ne].
  rewrite upd_eq, fmap_app. destruct (Hp i) as [l Hl]. rewrite Hl in *. apply prefix_app.
  rewrite lookup_app_r in Hr by (by rewrite length_fmap). rewrite length_fmap, Nat.sub_diag in Hr.
  destruct l as [|a l]; [done|]. injection Hr as ->. exists l. done.
Qed.

Lemma append_lookup i (lab : Z → lrow) q y k p : upd lab i (lab i ++ [q]) y !! k = Some p →
  lab y !! k = Some p ∨ (y = i ∧ k = length (lab i) ∧ p = q).
Proof.
  destruct (decide (y = i)) as [->|]; [rewrite upd_eq|rewrite upd_ne by done; by left].
  intros [?|[? Hq]]%lookup_app_Some; [by left|right].
  apply list_lookup_singleton_Some in Hq as [? <-]. split_and!; [done|lia|done].
Qed.

Lemma append_ext i s rep lab s' rep' q n : coarser (ufindl s) rep rep' →
  length (ufindl s') = (n + length (ufindl s))%nat → (n ≤ 1)%nat →
  ext i s rep lab s' rep' (upd lab i (lab i ++ [q])).
Proof.
  intros C HL Hn. split; [done|..].
  - intros y Hy. by apply upd_ne.
  - rewrite upd_eq. by apply prefix_app_r.
  - lia.
  - rewrite upd_eq, length_app. cbn. lia.
Qed.

Lemma label_valid i s rep lab y k p : tracked i s rep lab → lab y !! k = Some p → valid (ufindl s) p.2.
Proof. intros T Hp%list_elem_of_lookup_2. by apply (l_valid _ _ _ (t_lab _ _ _ _ T) y). Qed.

Lemma conn_edge n n' : edge n n' → conn n n'.
Proof. intros. apply rtc_once. by left. Qed.
Lemma conn_sym n n' : conn n n' → conn n' n.
Proof. by intros ?%symmetry. Qed.

(** A run that touches none on the row above so far gets a blob of its own. *)
Lemma track_open i s rep lab rng : tracked i s rep lab → 0 ≤ i < 2 ^ 31 →
  Z.of_nat (length (ufindl s)) < 2 ^ 31 - 1 → row i !! length (lab i) = Some rng →
  ∃ e s' rep', let lab' := upd lab i (lab i ++ [(rng, e)]) in
    add_blob i rng s = Ok (e, s') ∧ tracked i s' rep' lab' ∧ ext i s rep lab s' rep' lab'.
Proof.
  intros T Hi Hn Hr. destruct (add_blob_ok (t_lab _ _ _ _ T) i rng Hi Hn) as (s' & E & HL & L').
  set (e := Z.of_nat (length (ufindl s))) in *.
  assert (Hold : ∀ x, valid (ufindl s) x → x ≠ e) by (unfold valid; lia).
  assert (Hnew : ∀ y k p, lab y !! k = Some p → upd rep e e p.2 = rep p.2 ∧ rep p.2 ≠ e).
  { intros y k p Hp. pose proof (label_valid _ _ _ _ _ _ _ T Hp) as Hv.
    split; [apply upd_ne; auto|]. apply Hold. by apply (rep_valid (t_lab _ _ _ _ T)). }
  exists e, s', (upd rep e e). split_and!; [done| |].
  - split; [done|by apply append_row, T|..].
    + intros y Hy. rewrite upd_ne by lia. by apply (t_future _ _ _ _ T).
    + intros y k p y' k' p' [Hp|(-> & -> & ->)]%append_lookup [Hp'|(-> & -> & ->)]%append_lookup; cbn.
      * destruct (Hnew _ _ _ Hp) as [-> _], (Hnew _ _ _ Hp') as [-> _]. by apply (t_sound _ _ _ _ T).
      * destruct (Hnew _ _ _ Hp) as [-> ?]. rewrite upd_eq. done.
      * destruct (Hnew _ _ _ Hp') as [-> ?]. rewrite upd_eq. done.
      * intros _. apply rtc_refl.
  - apply (append_ext _ _ _ _ _ _ _ 1); [|done|lia].
    intros x y Hx Hy. by rewrite !upd_ne by auto.
Qed.

Section Touching.
Context (i : Z) (s : BlobDisjointSet) (rep : Z → Z) (lab : Z → lrow).
Context (T : tracked i s rep lab) (k : nat) (prev : ImageRange * Z).
Context (Hprev : lab (i - 1) !! k = Some prev).

Lemma track_extend rng : 0 ≤ i < 2 ^ 31 → row i !! length (lab i) = Some rng → touch prev.1 rng →
  ∃ e s', let lab' := upd lab i (lab i ++ [(rng, e)]) in
    add_to_blob prev.2 i rng s = Ok (e, s') ∧ rep e = rep prev.2 ∧
    tracked i s' rep lab' ∧ ext i s rep lab s' rep lab'.
Proof.
  intros Hi Hr Ht. pose proof (label_valid _ _ _ _ _ _ _ T Hprev) as Hv.
  destruct (add_to_blob_ok (t_lab _ _ _ _ T) prev.2 i rng Hv Hi (t_future _ _ _ _ T)) as (s' & E & HL & L').
  destruct (rep_valid (t_lab _ _ _ _ T) _ Hv) as [_ Err].
  assert (Hnew : ∀ y q p, lab y !! q = Some p → rep p.2 = rep (rep prev.2) → conn (y, q) (i, length (lab i))).
  { intros y q p Hp E'. transitivity (i - 1, k).
    - apply (t_sound _ _ _ _ T _ _ _ _ _ _ Hp Hprev). congruence.
    - apply conn_edge. split; [cbn; lia|]. exists prev.1, rng.
      split_and!; [by apply (tracked_run _ _ _ _ _ _ _ T)|done..]. }
  exists (rep prev.2), s'. split_and!; [done|done| |].
  - split; [done|by apply append_row, T|..].
    + intros y Hy. rewrite upd_ne by lia. by apply (t_future _ _ _ _ T).
    + intros y q p y' q' p' [Hp|(-> & -> & ->)]%append_lookup [Hp'|(-> & -> & ->)]%append_lookup; cbn.
      * by apply (t_sound _ _ _ _ T).
      * by apply Hnew with (p := p).
      * intros E'. by apply conn_sym, Hnew with (p := p').
      * intros _. apply rtc_refl.
  - apply (append_ext _ _ _ _ _ _ _ 0); [by intros x y|done|lia].
Qed.

Lemma track_merge k' cur : lab i !! k' = Some cur → touch prev.1 cur.1 →
  ∃ s' rep', merge_in_blob cur.2 prev.2 s = Ok s' ∧ rep' prev.2 = rep' cur.2 ∧
    tracked i s' rep' lab ∧ ext i s rep lab s' rep' lab.
Proof.
  intros Hcur Ht. pose proof (label_valid _ _ _ _ _ _ _ T Hprev) as Hv.
  pose proof (label_valid _ _ _ _ _ _ _ T Hcur) as Hv'.
  destruct (merge_in_blob_ok s rep lab cur.2 prev.2 (t_lab _ _ _ _ T)) as (s' & rep' & E & HL & L' & C & J & S);
    [intros y; by apply (tracked_sorted _ _ _ _ _ T)|done|done|].
  assert (Hc : conn (i - 1, k) (i, k')).
  { apply conn_edge. split; [cbn; lia|]. exists prev.1, cur.1.
    split_and!; [by apply (tracked_run _ _ _ _ _ _ _ T)..|done]. }
  exists s', rep'. split_and!; [done|done| |].
  - split; [done|apply T|apply T|]. intros y q p y' q' p' Hp Hp' E'.
    pose proof (t_sound _ _ _ _ T) as Snd.
    destruct (S _ _ (label_valid _ _ _ _ _ _ _ T Hp) (label_valid _ _ _ _ _ _ _ T Hp') E')
      as [E1|[[E1 E2]|[E1 E2]]].
    + by apply (Snd _ _ _ _ _ _ Hp Hp').
    + etransitivity; [apply (Snd _ _ _ _ _ _ Hp Hcur E1)|].
      etransitivity; [apply conn_sym, Hc|]. by apply conn_sym, (Snd _ _ _ _ _ _ Hp' Hprev).
    + etransitivity; [apply (Snd _ _ _ _ _ _ Hp Hprev E1)|].
      etransitivity; [apply Hc|]. by apply conn_sym, (Snd _ _ _ _ _ _ Hp' Hcur).
  - split; [done|done|done|lia|lia].
Qed.
End Touching.
End Scan.

(** ** The blob finder's loops *)


Section Loops.
Context (rows : list (list ImageRange)).
Context (rows_ok : ∀ y, row_ok (rows_at rows y)).
Notation row := (rows_at rows).
Notation tracked := (tracked rows).

(** Touching runs of rows [i - 1] and [i], among the pairs [P], have one root. *)
Definition met (i : Z) (P : nat → nat → Prop) (rep : Z → Z) (lab : Z → lrow) : Prop :=
  ∀ k k' a b, row (i - 1) !! k = Some a → row i !! k' = Some b → P k k' → touch a b →
    ∃ p p', lab (i - 1) !! k = Some p ∧ lab i !! k' = Some p' ∧ rep p.2 = rep p'.2.

Lemma met_ext j i P s rep lab s' rep' lab' : labelled s rep lab →
  ext i s rep lab s' rep' lab' → met j P rep lab → met j P rep' lab'.
Proof.
  intros L E M k k' a b Ha Hb HP Ht. destruct (M k k' a b Ha Hb HP Ht) as (p & p' & Hp & Hp' & Er).
  exists p, p'. split_and!; [by eapply ext_lookup..|].
  by apply (ext_same _ _ _ _ _ _ _ _ _ _ _ _ _ L E Hp Hp').
Qed.

(** [P] may grow by pairs that do not touch or that have one root. *)
Lemma met_grow i (P Q : nat → nat → Prop) rep lab : met i P rep lab →
  (∀ k k' a b, row (i - 1) !! k = Some a → row i !! k' = Some b → Q k k' → ¬ P k k' → touch a b →
    ∃ p p', lab (i - 1) !! k = Some p ∧ lab i !! k' = Some p' ∧ rep p.2 = rep p'.2) →
  (∀ k k', Decision (P k k')) → met i Q rep lab.
Proof.
  intros M H HD k k' a b Ha Hb HQ Ht. destruct (decide (P k k')); [by apply (M k k' a b)|by apply (H k k' a b)].
Qed.

Section Row.
Context (i : Z) (Hi : 0 < i < 2 ^ 31) (N : Z) (HN : N < 2 ^ 31).

(** Room for the runs of the row that have no label yet. *)
Definition room (s : BlobDisjointSet) (lab : Z → lrow) : Prop :=
  Z.of_nat (length (ufindl s)) + Z.of_nat (length (row i)) ≤ Z.of_nat (length (lab i)) + N.

Lemma room_ext s rep lab s' rep' lab' : ext i s rep lab s' rep' lab' → room s lab → room s' lab'.
Proof. intros E. pose proof (e_size _ _ _ _ _ _ _ E). unfold room. lia. Qed.

Lemma open_blob_ok s rep lab mj rcur : tracked i s rep lab → room s lab →
  row i !! mj = Some rcur → (mj ≤ length (lab i) ≤ S mj)%nat →
  ∃ s' rep' lab', open_blob i rcur mj (lab i).*2 s = Ok ((lab' i).*2, s') ∧
    tracked i s' rep' lab' ∧ ext i s rep lab s' rep' lab' ∧ length (lab' i) = S mj.
Proof.
  intros T R Hr Hl. unfold open_blob. rewrite length_fmap. case_bool_decide as Hmj.
  - destruct (track_open rows i s rep lab rcur T) as (e & s' & rep' & E & T' & X); [lia| |by rewrite Hmj|].
    { apply lookup_lt_Some in Hr. unfold room in R. lia. }
    rewrite E, res_bind_Ok. eexists _, rep', _. split; [|split; [exact T'|split; [exact X|]]].
    + by rewrite upd_eq, fmap_app.
    + rewrite upd_eq, length_app, Hmj. cbn. lia.
  - exists s, rep, lab. split_and!; [done|done|apply ext_refl|lia].
Qed.

Lemma label_id (lab : Z → lrow) y k p : lab y !! k = Some p → (lab y).*2 !! k = Some p.2.
Proof. intros Hp. by rewrite list_lookup_fmap, Hp. Qed.

Lemma join_blob_ok s rep lab mi mj prev rcur : tracked i s rep lab →
  lab (i - 1) !! mi = Some prev → row i !! mj = Some rcur →
  (mj ≤ length (lab i) ≤ S mj)%nat → touch prev.1 rcur →
  ∃ s' rep' lab', join_blob i rcur mi mj (lab (i - 1)).*2 (lab i).*2 s = Ok ((lab' i).*2, s') ∧
    tracked i s' rep' lab' ∧ ext i s rep lab s' rep' lab' ∧ length (lab' i) = S mj ∧
    ∃ p', lab' i !! mj = Some p' ∧ rep' prev.2 = rep' p'.2.
Proof.
  intros T Hp Hr Hl Ht. unfold join_blob. rewrite (label_id _ _ _ _ Hp), length_fmap.
  cbn [from_option]. rewrite res_bind_Ok. case_bool_decide as Hmj.
  - destruct (lookup_lt_is_Some_2 (lab i) mj Hmj) as [cur Hcur].
    assert (cur.1 = rcur) as Ec.
    { pose proof (tracked_run rows _ _ _ _ _ _ _ T Hcur) as H. congruence. }
    rewrite (label_id _ _ _ _ Hcur). cbn [from_option]. rewrite res_bind_Ok.
    destruct (track_merge rows rows_ok i s rep lab T mi prev Hp mj cur Hcur) as (s' & rep' & E & Er & T' & X);
      [by rewrite Ec|].
    rewrite E, res_bind_Ok. exists s', rep', lab. split_and!; [done|done|done|lia|eauto].
  - assert (length (lab i) = mj) as Hmj' by lia.
    destruct (track_extend rows i s rep lab T mi prev Hp rcur) as (e & s' & E & Er & T' & X);
      [lia|by rewrite Hmj'|done|].
    rewrite E, res_bind_Ok. eexists s', rep, _. split; [|split; [exact T'|split; [exact X|]]].
    + by rewrite upd_eq, fmap_app.
    + rewrite upd_eq, length_app, Hmj'. split; [cbn; lia|]. exists (rcur, e).
      split; [by rewrite <-Hmj', list_lookup_middle|done].
Qed.

(** Columns to the right of a run of the same row. *)
Lemma row_run y k a : row y !! k = Some a → run_ok a.
Proof. intros H. destruct (rows_ok y) as [HF _]. by apply (Forall_lookup_1 _ _ _ _ HF H). Qed.

Lemma row_after y k k' a b : row y !! k = Some a → row y !! k' = Some b → (k ≤ k')%nat →
  (k = k' ∧ a = b) ∨ ed a ≤ st b.
Proof.
  intros Ha Hb Hle. destruct (decide (k = k')) as [->|]; [left; split; congruence|right].
  apply (proj2 (rows_ok y) k k'); [done|done|lia].
Qed.

Definition seen (mi mj : nat) (k k' : nat) : Prop := (k < mi ∨ k' < mj)%nat.

Lemma range_last_ok y k a : row y !! k = Some a → range_last a = Ok (ed a - 1).
Proof.
  intros Ha%row_run. destruct Ha as (? & ? & ?). apply chk_ok. unfold in_signed. cbn in *. lia.
Qed.

#[local] Instance seen_dec mi mj k k' : Decision (seen mi mj k k').
Proof. unfold seen. apply _. Defined.

(** Moving on in the current row: the run at [mj] touches no run from [mi + 1] on,
    and the run at [mi] only if they have one root. *)
Lemma met_next_cur rep lab mi mj rcur : met i (seen mi mj) rep lab → row i !! mj = Some rcur →
  (∀ k a, row (i - 1) !! k = Some a → (mi ≤ k)%nat → touch a rcur →
    ∃ p p', lab (i - 1) !! k = Some p ∧ lab i !! mj = Some p' ∧ rep p.2 = rep p'.2) →
  met i (seen mi (S mj)) rep lab.
Proof.
  intros M Hr H. apply (met_grow _ _ _ _ _ M); [|apply _]. unfold seen.
  intros k k' a b Ha Hb HQ HP Ht. assert (k' = mj) as -> by lia.
  rewrite Hr in Hb. injection Hb as <-. apply (H k a Ha); [lia|done].
Qed.

Lemma met_next_prev rep lab mi mj rprev : met i (seen mi mj) rep lab → row (i - 1) !! mi = Some rprev →
  (∀ k b, row i !! k = Some b → (mj ≤ k)%nat → touch rprev b →
    ∃ p p', lab (i - 1) !! mi = Some p ∧ lab i !! k = Some p' ∧ rep p.2 = rep p'.2) →
  met i (seen (S mi) mj) rep lab.
Proof.
  intros M Hr H. apply (met_grow _ _ _ _ _ M); [|apply _]. unfold seen.
  intros k k' a b Ha Hb HQ HP Ht. assert (k = mi) as -> by lia.
  rewrite Hr in Ha. injection Ha as <-. apply (H k' b Hb); [lia|done].
Qed.

(** At the end of either row every pair has been seen. *)
Lemma met_end rep lab mi mj : met i (seen mi mj) rep lab →
  row (i - 1) !! mi = None ∨ row i !! mj = None → met i (λ _ _, True) rep lab.
Proof.
  intros M He. apply (met_grow _ _ _ _ _ M); [|apply _].
  intros k k' a b Ha%lookup_lt_Some Hb%lookup_lt_Some _ HP _. destruct HP. unfold seen.
  destruct He as [He|He]; apply lookup_ge_None in He; lia.
Qed.

(** The state at the head of the loop. *)
Record scanning (mi mj : nat) (s : BlobDisjointSet) (rep : Z → Z) (lab : Z → lrow) : Prop := {
  sc_tracked : tracked i s rep lab;
  sc_room : room s lab;
  sc_prev : (lab (i - 1)).*1 = row (i - 1);
  sc_cur : (mj ≤ length (lab i) ≤ S mj)%nat;
  sc_met : met i (seen mi mj) rep lab }.

(** What does not depend on [mi] and [mj] survives an operation on row [i]. *)
Lemma scanning_ext mi mj s rep lab s' rep' lab' : scanning mi mj s rep lab →
  ext i s rep lab s' rep' lab' →
  room s' lab' ∧ (lab' (i - 1)).*1 = row (i - 1) ∧ met i (seen mi mj) rep' lab' ∧ lab' (i - 1) = lab (i - 1).
Proof.
  intros [T R Hp Hl M] X. assert (E : lab' (i - 1) = lab (i - 1)) by (apply (e_other _ _ _ _ _ _ _ X); lia).
  split_and!; [by apply (room_ext _ _ _ _ _ _ X)|by rewrite E| |done].
  by apply (met_ext _ _ _ _ _ _ _ _ _ (t_lab _ _ _ _ _ T) X).
Qed.

Section Turn.
Context (mi mj : nat) (s : BlobDisjointSet) (rep : Z → Z) (lab : Z → lrow).
Context (S0 : scanning mi mj s rep lab) (rprev rcur : ImageRange).
Context (Eprev : row (i - 1) !! mi = Some rprev) (Ecur : row i !! mj = Some rcur).

Lemma turn_open : ed rcur - 1 < st rprev →
  ∃ s' rep' lab', open_blob i rcur mj (lab i).*2 s = Ok ((lab' i).*2, s') ∧
    ext i s rep lab s' rep' lab' ∧ scanning mi (S mj) s' rep' lab'.
Proof.
  intros Hlt. destruct (open_blob_ok s rep lab mj rcur) as (s' & rep' & lab' & E & T' & X & Hl'); [apply S0..|done|apply S0|].
  exists s', rep', lab'. split_and!; [done|done|]. destruct (scanning_ext _ _ _ _ _ _ _ _ S0 X) as (R & Hp & M & _).
  split; [done|done|done|lia|]. apply (met_next_cur _ _ _ _ rcur); [done|done|].
  intros k a Ha Hk [Ht _]. destruct (row_after _ _ _ _ _ Eprev Ha Hk) as [[_ <-]|]; [lia|].
  destruct (row_run _ _ _ Eprev). lia.
Qed.

Lemma turn_skip : ed rprev - 1 < st rcur → scanning (S mi) mj s rep lab.
Proof.
  intros Hlt. destruct S0. split; try done. apply (met_next_prev _ _ _ _ rprev); [done|done|].
  intros k b Hb Hk [_ Ht]. destruct (row_after _ _ _ _ _ Ecur Hb Hk) as [[_ <-]|]; [lia|].
  destruct (row_run _ _ _ Ecur). lia.
Qed.

Lemma turn_join : touch rprev rcur →
  ∃ s' rep' lab', join_blob i rcur mi mj (lab (i - 1)).*2 (lab i).*2 s = Ok ((lab' i).*2, s') ∧
    ext i s rep lab s' rep' lab' ∧
    if ed rcur - 1 <? ed rprev - 1 then scanning mi (S mj) s' rep' lab' else scanning (S mi) mj s' rep' lab'.
Proof.
  intros Ht. assert (∃ prev, lab (i - 1) !! mi = Some prev ∧ prev.1 = rprev) as (prev & Hprev & <-).
  { rewrite <-(sc_prev _ _ _ _ _ S0), list_lookup_fmap in Eprev. destruct (lab (i - 1) !! mi) as [q|]; [|done].
    injection Eprev as <-. eauto. }
  destruct (join_blob_ok s rep lab mi mj prev rcur) as (s' & rep' & lab' & E & T' & X & Hl' & p' & Hp' & Er);
    [apply S0|done|done|apply S0|done|].
  exists s', rep', lab'. split_and!; [done|done|].
  destruct (scanning_ext _ _ _ _ _ _ _ _ S0 X) as (R & Hp & M & H1). rewrite <-H1 in Hprev.
  destruct (Z.ltb_spec (ed rcur - 1) (ed prev.1 - 1)) as [Hc|Hc]; split; try done; try lia.
  - apply (met_next_cur _ _ _ _ rcur M Ecur). intros k a Ha Hk [Ht' _].
    destruct (row_after _ _ _ _ _ Eprev Ha Hk) as [[<- _]|]; [eauto|lia].
  - apply (met_next_prev _ _ _ _ prev.1 M Eprev). intros k b Hb Hk [_ Ht'].
    destruct (row_after _ _ _ _ _ Ecur Hb Hk) as [[<- _]|]; [eauto|lia].
Qed.
End Turn.

(** The scan ends with every pair of touching runs in one blob. *)
Definition scanned (s : BlobDisjointSet) (rep : Z → Z) (lab : Z → lrow)
    (r : res (nat * list Z * BlobDisjointSet)) : Prop :=
  ∃ mj' s' rep' lab', r = Ok (mj', (lab' i).*2, s') ∧
    tracked i s' rep' lab' ∧ ext i s rep lab s' rep' lab' ∧ room s' lab' ∧
    (mj' ≤ length (lab' i) ≤ S mj')%nat ∧ met i (λ _ _, True) rep' lab'.

Lemma scanned_ext s rep lab s1 rep1 lab1 r :
  ext i s rep lab s1 rep1 lab1 → scanned s1 rep1 lab1 r → scanned s rep lab r.
Proof.
  intros X (mj' & s' & rep' & lab' & E & T & X' & Rest). exists mj', s', rep', lab'.
  split_and!; [done|done|by eapply ext_trans|apply Rest..].
Qed.

Lemma scan_ok fuel mi mj s rep lab : scanning mi mj s rep lab →
  (length (row (i - 1)) - mi + (length (row i) - mj) ≤ fuel)%nat →
  scanned s rep lab (scan fuel i (row (i - 1)) (row i) (lab (i - 1)).*2 mi mj (lab i).*2 s).
Proof.
  revert mi mj s rep lab. induction fuel as [|fuel IH]; intros mi mj s rep lab S0 Hf;
    cbn [scan]; destruct (row (i - 1) !! mi) as [rprev|] eqn:Eprev;
    try (destruct (row i !! mj) as [rcur|] eqn:Ecur);
    try (destruct S0 as [T R Hp Hl M]; exists mj, s, rep, lab;
      split_and!; [done|done|apply ext_refl|done|lia|lia|apply (met_end _ _ _ _ M); by auto]).
  { apply lookup_lt_Some in Eprev, Ecur. lia. }
  pose proof (lookup_lt_Some _ _ _ Eprev). pose proof (lookup_lt_Some _ _ _ Ecur).
  rewrite (range_last_ok _ _ _ Ecur), (range_last_ok _ _ _ Eprev), !res_bind_Ok.
  destruct (Z.ltb_spec (ed rcur - 1) (st rprev)) as [Hlt|Hge].
  - destruct (turn_open _ _ _ _ _ S0 _ _ Eprev Ecur Hlt) as (s1 & rep1 & lab1 & -> & X & S1).
    rewrite res_bind_Ok. destruct (scanning_ext _ _ _ _ _ _ _ _ S0 X) as (_ & _ & _ & <-).
    apply (scanned_ext _ _ _ _ _ _ _ X). by apply IH; [|lia].
  - destruct (Z.ltb_spec (ed rprev - 1) (st rcur)) as [Hlt'|Hge'].
    { apply IH; [|lia]. by apply (turn_skip _ _ _ _ _ S0 rprev rcur). }
    destruct (turn_join _ _ _ _ _ S0 rprev rcur Eprev Ecur) as (s1 & rep1 & lab1 & -> & X & S1); [split; lia|].
    rewrite res_bind_Ok. destruct (scanning_ext _ _ _ _ _ _ _ _ S0 X) as (_ & _ & _ & <-).
    apply (scanned_ext _ _ _ _ _ _ _ X).
    destruct (ed rcur - 1 <? ed rprev - 1); by apply IH; [|lia].
Qed.

Lemma finish_row_ok rest mj s rep lab : tracked i s rep lab → room s lab →
  (mj ≤ length (lab i) ≤ S mj)%nat → drop mj (row i) = rest →
  ∃ s' rep' lab', finish_row i rest mj (lab i).*2 s = Ok ((lab' i).*2, s') ∧
    tracked i s' rep' lab' ∧ ext i s rep lab s' rep' lab' ∧ (lab' i).*1 = row i.
Proof.
  revert mj s rep lab. induction rest as [|rcur rest IH]; intros mj s rep lab T R Hl Hd; cbn [finish_row].
  - exists s, rep, lab. split_and!; [done|done|apply ext_refl|].
    apply prefix_length_eq; [apply T|]. rewrite length_fmap.
    apply (f_equal length) in Hd. rewrite length_drop in Hd. cbn in Hd. lia.
  - assert (row i !! mj = Some rcur) as Hr.
    { rewrite <-(Nat.add_0_r mj), <-lookup_drop, Hd. done. }
    destruct (open_blob_ok s rep lab mj rcur T R Hr Hl) as (s1 & rep1 & lab1 & -> & T1 & X1 & Hl1).
    rewrite res_bind_Ok.
    destruct (IH (S mj) s1 rep1 lab1 T1) as (s' & rep' & lab' & E & T' & X' & F).
    { by apply (room_ext _ _ _ _ _ _ X1). }
    { lia. }
    { by rewrite (drop_S _ rcur) in Hd by done; injection Hd. }
    exists s', rep', lab'. split_and!; [done|done|by eapply ext_trans|done].
Qed.

Lemma find_row_ok s rep lab : tracked (i - 1) s rep lab → room s lab →
  (lab (i - 1)).*1 = row (i - 1) →
  ∃ s' rep' lab', find_row i (row (i - 1)) (row i) (lab (i - 1)).*2 s = Ok ((lab' i).*2, s') ∧
    tracked i s' rep' lab' ∧ ext i s rep lab s' rep' lab' ∧ (lab' i).*1 = row i ∧
    met i (λ _ _, True) rep' lab'.
Proof.
  intros T R Hp. unfold find_row.
  assert (Hnil : lab i = []) by (apply (t_future _ _ _ _ _ T); lia).
  assert (T0 : tracked i s rep lab).
  { destruct T as [TL TR TF TS]. split; try done. intros y Hy. apply TF. lia. }
  assert (S0 : scanning 0 0 s rep lab).
  { split; [done|done|done|rewrite Hnil; cbn; lia|]. intros k k' a b _ _ [?|?]; lia. }
  destruct (scan_ok (length (row (i - 1)) + length (row i)) 0 0 s rep lab S0) as
    (mj & s1 & rep1 & lab1 & E & T1 & X1 & R1 & Hl1 & M1); [lia|].
  rewrite Hnil in E. cbn [fmap list_fmap] in E. rewrite E, res_bind_Ok.
  destruct (finish_row_ok _ mj s1 rep1 lab1 T1 R1 Hl1 eq_refl) as (s' & rep' & lab' & -> & T' & X' & F).
  exists s', rep', lab'. split_and!; [done|done|by eapply ext_trans|done|].
  by apply (met_ext _ _ _ _ _ _ _ _ _ (t_lab _ _ _ _ _ T1) X').
Qed.
End Row.

(** Rows before [i] are labelled and joined. *)
Definition joined (i : Z) (rep : Z → Z) (lab : Z → lrow) : Prop :=
  ∀ y, y < i → (lab y).*1 = row y ∧ met y (λ _ _, True) rep lab.

Definition n_runs (l : list (list ImageRange)) : Z := Z.of_nat (length (concat l)).

Lemma find_rows_ok rest i s rep lab : 0 < i → i + Z.of_nat (length rest) < 2 ^ 31 →
  (∀ k, 0 ≤ k → rows_at rest k = row (i + k)) →
  Z.of_nat (length (ufindl s)) + n_runs rest < 2 ^ 31 →
  tracked (i - 1) s rep lab → joined i rep lab →
  let n := i + Z.of_nat (length rest) in
  ∃ s' rep' lab', find_rows i (row (i - 1)) rest (lab (i - 1)).*2 s = Ok s' ∧
    tracked (n - 1) s' rep' lab' ∧ joined n rep' lab'.
Proof.
  revert i s rep lab. induction rest as [|cur rest IH]; intros i s rep lab Hi Hn Hrest Hs T J n; cbn [find_rows].
  - exists s, rep, lab. subst n. cbn [length]. rewrite Z.add_0_r. done.
  - subst n. cbn [length] in *. unfold n_runs in Hs. cbn [concat] in Hs. rewrite length_app in Hs.
    pose proof (Hrest 0 ltac:(lia)) as E0. rewrite rows_at_cons, decide_True, Z.add_0_r in E0 by done. subst cur.
    destruct (find_row_ok i ltac:(lia) (2 ^ 31 - 1) ltac:(lia) s rep lab T) as
      (s1 & rep1 & lab1 & -> & T1 & X1 & F1 & M1).
    { unfold room. lia. }
    { apply J. lia. }
    rewrite res_bind_Ok. replace (row i) with (row (i + 1 - 1)) by (f_equal; lia).
    replace (lab1 i) with (lab1 (i + 1 - 1)) by (f_equal; lia).
    destruct (IH (i + 1) s1 rep1 lab1) as (s' & rep' & lab' & E & T' & J').
    + lia.
    + lia.
    + intros k Hk. specialize (Hrest (k + 1) ltac:(lia)).
      rewrite rows_at_cons, decide_False in Hrest by lia.
      replace (k + 1 - 1) with k in Hrest by lia. rewrite Hrest. f_equal. lia.
    + pose proof (e_size _ _ _ _ _ _ _ X1) as Hsz. rewrite (t_future _ _ _ _ _ T i) in Hsz by lia.
      apply (f_equal length) in F1. rewrite length_fmap in F1. unfold n_runs. cbn in *. lia.
    + by replace (i + 1 - 1) with i by lia.
    + intros y Hy. destruct (decide (y = i)) as [->|]; [done|]. destruct (J y) as [Jl Jm]; [lia|]. split.
      * by rewrite (e_other _ _ _ _ _ _ _ X1).
      * by apply (met_ext _ _ _ _ _ _ _ _ _ (t_lab _ _ _ _ _ T) X1).
    + exists s', rep', lab'. replace (i + Z.of_nat (S (length rest))) with (i + 1 + Z.of_nat (length rest)) by lia.
      done.
Qed.

Lemma first_row_ok rest s rep lab : tracked 0 s rep lab →
  Z.of_nat (length (ufindl s)) + Z.of_nat (length rest) < 2 ^ 31 → drop (length (lab 0)) (row 0) = rest →
  ∃ s' rep' lab', first_row rest (lab 0).*2 s = Ok ((lab' 0).*2, s') ∧ tracked 0 s' rep' lab' ∧
    ext 0 s rep lab s' rep' lab' ∧ (lab' 0).*1 = row 0.
Proof.
  revert s rep lab. induction rest as [|rng rest IH]; intros s rep lab T Hn Hd; cbn [first_row].
  - exists s, rep, lab. split_and!; [done|done|apply ext_refl|]. apply prefix_length_eq; [apply T|].
    rewrite length_fmap. apply (f_equal length) in Hd. rewrite length_drop in Hd. cbn [length] in Hd. lia.
  - assert (row 0 !! length (lab 0) = Some rng) as Hr.
    { rewrite <-(Nat.add_0_r (length _)), <-lookup_drop, Hd. done. }
    cbn [length] in Hn.
    destruct (track_open rows 0 s rep lab rng T) as (e & s1 & rep1 & E & T1 & X1); [lia|lia|done|].
    rewrite E, res_bind_Ok. destruct (IH s1 rep1 _ T1) as (s' & rep' & lab' & E' & T' & X' & F').
    { pose proof (e_size _ _ _ _ _ _ _ X1) as Hsz. rewrite upd_eq, length_app in Hsz. cbn in Hsz. lia. }
    { rewrite upd_eq, length_app, Nat.add_1_r. by rewrite (drop_S _ rng) in Hd by done; injection Hd. }
    rewrite upd_eq, fmap_app in E'. exists s', rep', lab'. split_and!; [done|done|by eapply ext_trans|done].
Qed.
End Loops.
