(* ===== verification/BlobLabels.v ===== *)
(** * From roots to blob numbers *)

From stdpp Require Import sorting relations.
From S2P Require Import Prelude Double RangeImage FindBlob BlobProofs.
From S2P Require Import BlobRows.

(** ** The position of an element in a filtered list *)

Section Rank.
Context {A : Type} (P : A → Prop) `{!∀ x, Decision (P x)}.

Definition rank (l : list A) (e : nat) : nat := length (filter P (take e l)).

Lemma filter_middle l e x : l !! e = Some x → P x →
  filter P l = filter P (take e l) ++ x :: filter P (drop (S e) l).
Proof.
  intros Hx HP. pose proof (f_equal (filter P) (take_drop_middle l e x Hx)) as E.
  by rewrite filter_app, filter_cons, decide_True in E.
Qed.

Lemma rank_lookup l e x : l !! e = Some x → P x → filter P l !! rank l e = Some x.
Proof.
  intros Hx HP. by rewrite (filter_middle l e x), list_lookup_middle.
Qed.

Lemma rank_surj l b x : filter P l !! b = Some x → ∃ e, l !! e = Some x ∧ P x ∧ b = rank l e.
Proof.
  revert b. induction l as [|a l IH]; intros b Hb; [done|]. rewrite filter_cons in Hb.
  destruct (decide (P a)) as [Ha|Ha].
  - destruct b as [|b]; [injection Hb as <-; by exists 0%nat|].
    destruct (IH b Hb) as (e & He & Hx & ->). exists (S e). split_and!; [done|done|].
    unfold rank. cbn [take]. by rewrite filter_cons, decide_True by done.
  - destruct (IH b Hb) as (e & He & Hx & ->). exists (S e). split_and!; [done|done|].
    unfold rank. cbn [take]. by rewrite filter_cons, decide_False by done.
Qed.

Lemma rank_lt l e e' x : l !! e = Some x → P x → (e < e')%nat → (rank l e < rank l e')%nat.
Proof.
  intros Hx HP Hlt. unfold rank. replace (take e l) with (take e (take e' l)) by (rewrite take_take; f_equal; lia).
  assert (take e' l !! e = Some x) as Hx' by (by rewrite lookup_take_lt).
  rewrite (filter_middle _ _ _ Hx' HP), length_app. cbn. lia.
Qed.

Lemma rank_inj l e e' x x' : l !! e = Some x → P x → l !! e' = Some x' → P x' →
  rank l e = rank l e' → e = e'.
Proof.
  intros Hx HP Hx' HP' E. destruct (lt_eq_lt_dec e e') as [[Hl|Hl]|Hl]; [|done|].
  - pose proof (rank_lt l e e' x Hx HP Hl). lia.
  - pose proof (rank_lt l e' e x' Hx' HP' Hl). lia.
Qed.
End Rank.

(** ** Labels *)

(** The runs of row [y] (from column number [k] on) with label [b]. *)
Fixpoint runs_labelled (label : Z * nat → nat) (b : nat) (y : Z) (k : nat) (l : list ImageRange)
    : list ImageRange :=
  match l with
  | [] => []
  | r :: l =>
      let rest := runs_labelled label b y (S k) l in
      if decide (label (y, k) = b) then r :: rest else rest
  end.

Lemma runs_labelled_select label b y rep r (l : lrow) k :
  (∀ j p, l !! j = Some p → label (y, (k + j)%nat) = b ↔ rep p.2 = r) →
  runs_labelled label b y k l.*1 = select rep r l.
Proof.
  revert k. induction l as [|p l IH]; intros k H; [done|].
  rewrite select_cons, fmap_cons. cbn [runs_labelled]. rewrite IH.
  - pose proof (H 0%nat p eq_refl) as H0. rewrite Nat.add_0_r in H0.
    destruct (decide (label (y, k) = b)), (decide (rep p.2 = r)); tauto.
  - intros j q Hq. specialize (H (S j) q Hq). by rewrite <-Nat.add_succ_comm in H.
Qed.

(** A run of the picture. *)
Definition node (rows : list (list ImageRange)) (n : Z * nat) : Prop := is_Some (rows_at rows n.1 !! n.2).

(** What the blob finder promises: every blob holds the runs with its number,
    and two runs have the same number exactly when they are connected. *)
Definition partition (rows : list (list ImageRange)) (blobs : BlobList) (label : Z * nat → nat) : Prop :=
  (∀ n, node rows n → (label n < length blobs)%nat) ∧
  (∀ b blob, blobs !! b = Some blob →
    blob = RangeImage_new (mini blob) (ranges blob) ∧ 0 ≤ mini blob ∧
    row_at blob (mini blob) ≠ [] ∧ row_at blob (mini blob + RangeImage_size blob - 1) ≠ [] ∧
    ∀ y, row_at blob y = runs_labelled label b y 0 (rows_at rows y)) ∧
  (∀ n n', node rows n → node rows n' → label n = label n' ↔ conn rows n n').

(** ** All rows done *)

Definition finished (rows : list (list ImageRange)) (s : BlobDisjointSet) (rep : Z → Z) (lab : Z → lrow) : Prop :=
  labelled s rep lab ∧ (∀ y, (lab y).*1 = rows_at rows y) ∧
  (∀ y k p y' k' p', lab y !! k = Some p → lab y' !! k' = Some p' →
    rep p.2 = rep p'.2 ↔ conn rows (y, k) (y', k')).

Lemma rows_at_beyond rows y : y < 0 ∨ Z.of_nat (length rows) ≤ y → rows_at rows y = [].
Proof.
  intros H. unfold rows_at. destruct (Z.ltb_spec y 0); [done|]. by rewrite lookup_ge_None_2 by lia.
Qed.

Lemma joined_finished rows n s rep lab : n = Z.of_nat (length rows) →
  tracked rows (n - 1) s rep lab → joined rows n rep lab → finished rows s rep lab.
Proof.
  intros -> T J.
  assert (F : ∀ y, (lab y).*1 = rows_at rows y).
  { intros y. destruct (decide (y < Z.of_nat (length rows))) as [Hy|Hy]; [by apply J|].
    rewrite (t_future _ _ _ _ _ T y), rows_at_beyond by lia. done. }
  assert (C : ∀ m m', conn rows m m' → ∀ p, lab m.1 !! m.2 = Some p →
    ∃ p', lab m'.1 !! m'.2 = Some p' ∧ rep p.2 = rep p'.2).
  { assert (E : ∀ m m' a b, edge rows m m' → lab m.1 !! m.2 = Some a → lab m'.1 !! m'.2 = Some b → rep a.2 = rep b.2).
    { intros [y k] [y' k'] p p' (Hy & a & b & Ha & Hb & Ht) Hp Hp'. cbn in *.
      assert (y = y' - 1) as -> by lia.
      destruct (J y') as [_ M].
      { destruct (decide (y' < Z.of_nat (length rows))); [done|]. by rewrite rows_at_beyond in Hb by lia. }
      destruct (M k k' a b Ha Hb I Ht) as (q & q' & Hq & Hq' & Eq). congruence. }
    assert (D : ∀ m a, rows_at rows m.1 !! m.2 = Some a → is_Some (lab m.1 !! m.2)).
    { intros m a Ha. rewrite <-F, list_lookup_fmap in Ha. by destruct (lab m.1 !! m.2). }
    induction 1 as [m|m m1 m' Hs _ IH]; intros p Hp; [by exists p|].
    assert (is_Some (lab m1.1 !! m1.2)) as [q Hq].
    { destruct Hs as [(_ & a & b & Ha & Hb & _)|(_ & a & b & Ha & Hb & _)]; [by apply (D _ b)|by apply (D _ a)]. }
    destruct (IH q Hq) as (p' & Hp' & Er). exists p'. split; [done|]. rewrite <-Er.
    destruct Hs as [Hs|Hs]; [by apply (E _ _ _ _ Hs)|symmetry; by apply (E _ _ _ _ Hs)]. }
  split_and!; [apply T|done|]. intros y k p y' k' p' Hp Hp'. split; [by apply (t_sound _ _ _ _ _ T)|].
  intros Hc. destruct (C _ _ Hc p Hp) as (q & Hq & ->). cbn in Hq. congruence.
Qed.

Definition number (s : BlobDisjointSet) (rep : Z → Z) (lab : Z → lrow) (n : Z * nat) : nat :=
  match lab n.1 !! n.2 with
  | Some p => rank (λ q : Z * BlobBuilder, q.1 < 0) (zip (ufindl s) (items s)) (Z.to_nat (rep p.2))
  | None => 0%nat
  end.

(** The pairs [get_blobs] looks at. *)
Lemma zip_root s rep lab r : labelled s rep lab → valid (ufindl s) r → rep r = r →
  ∃ t b, zip (ufindl s) (items s) !! Z.to_nat r = Some (t, b) ∧ t < 0 ∧ holds rep lab r b.
Proof.
  intros L Hv Er. destruct (l_forest _ _ _ L) as [dep F].
  destruct (l_items _ _ _ L r Hv Er) as (b & Hb & Hh). destruct (at_valid _ _ Hv) as (t & Ht & _).
  exists t, b. split_and!; [|by apply (root_lookup F r t Hv Ht)|done].
  rewrite lookup_zip_with, Ht. cbn. by rewrite Hb.
Qed.

Lemma zip_root_inv s rep lab e t b : labelled s rep lab →
  zip (ufindl s) (items s) !! e = Some (t, b) → t < 0 →
  valid (ufindl s) (Z.of_nat e) ∧ rep (Z.of_nat e) = Z.of_nat e ∧ holds rep lab (Z.of_nat e) b.
Proof.
  intros L He Ht. apply lookup_zip_with_Some in He as (t' & b' & [= <- <-] & Hu & Hi).
  assert (Hv : valid (ufindl s) (Z.of_nat e)) by (apply lookup_lt_Some in Hu; unfold valid; lia).
  destruct (l_forest _ _ _ L) as [dep F].
  assert (Er : rep (Z.of_nat e) = Z.of_nat e) by (apply (root_lookup F _ t Hv); [by rewrite Nat2Z.id|done]).
  split_and!; [done|done|]. destruct (l_items _ _ _ L _ Hv Er) as (b' & Hb' & Hh).
  rewrite Nat2Z.id in Hb'. congruence.
Qed.

Lemma get_blobs_ok rows s rep lab : finished rows s rep lab →
  ∃ blobs, get_blobs s = Ok blobs ∧ partition rows blobs (number s rep lab).
Proof.
  intros (L & F & C). unfold get_blobs. rewrite bool_decide_eq_false_2 by (rewrite (l_length _ _ _ L); lia).
  eexists. split; [reflexivity|].
  assert (N : ∀ n, node rows n → ∃ p, lab n.1 !! n.2 = Some p ∧ valid (ufindl s) (rep p.2) ∧ rep (rep p.2) = rep p.2).
  { intros [y k] [a Ha]. cbn in *. rewrite <-F, list_lookup_fmap in Ha.
    destruct (lab y !! k) as [p|] eqn:Hp; [|done]. exists p. split; [done|].
    apply (rep_valid L). apply list_elem_of_lookup_2 in Hp. by apply (l_valid _ _ _ L y). }
  split_and!.
  - intros n Hn. destruct (N n Hn) as (p & Hp & Hv & Er).
    destruct (zip_root _ _ _ _ L Hv Er) as (t & b & Hz & Ht & _). unfold number. rewrite Hp.
    rewrite length_map. apply (lookup_lt_Some _ _ (t, b)). by apply rank_lookup.
  - intros b blob Hb. rewrite list_lookup_fmap in Hb.
    destruct (filter _ _ !! b) as [[t bb]|] eqn:Ef; [|done]. injection Hb as <-.
    destruct (rank_surj _ _ _ _ Ef) as (e & He & Ht & ->). cbn in *.
    destruct (zip_root_inv _ _ _ _ _ _ L He Ht) as (Hv & Er & Hp & Hm & Hn & Hs).
    rewrite plain_mini by done. split_and!; [done|lia|apply Hn..|]. intros y. rewrite Hs, <-F.
    symmetry. apply runs_labelled_select. intros j p Hj. cbn [Nat.add]. unfold number. cbn. rewrite Hj.
    destruct (N (y, j)) as (p' & Hp' & Hv' & Er'); [exists p.1; cbn; by rewrite <-F, list_lookup_fmap, Hj|].
    cbn in Hp'. rewrite Hj in Hp'. injection Hp' as <-.
    destruct (zip_root _ _ _ _ L Hv' Er') as (t' & b' & Hz & Ht' & _). split; [|intros ->; by rewrite Nat2Z.id].
    intros E. apply (rank_inj _ _ _ _ (t', b') (t, bb)) in E; [destruct Hv'; lia|done..].
  - intros n n' Hn Hn'. destruct (N n Hn) as (p & Hp & Hv & Er), (N n' Hn') as (p' & Hp' & Hv' & Er').
    destruct n as [y k], n' as [y' k']. cbn in *. rewrite <-(C _ _ _ _ _ _ Hp Hp').
    unfold number. cbn. rewrite Hp, Hp'. split; [|by intros ->]. intros E.
    destruct (zip_root _ _ _ _ L Hv Er) as (t & b & Hz & Ht & _).
    destruct (zip_root _ _ _ _ L Hv' Er') as (t' & b' & Hz' & Ht' & _).
    apply (rank_inj _ _ _ _ (t, b) (t', b')) in E; [|done..]. destruct Hv, Hv'. lia.
Qed.

(** ** The whole search *)

(** A picture whose rows are well formed and whose counts are [int]s. *)
Definition picture_okb (rows : list (list ImageRange)) : bool :=
  forallb row_okb rows && negb (bool_decide (rows = [])) &&
  (Z.of_nat (length rows) <? 2 ^ 31) && (n_runs rows <? 2 ^ 31).

Lemma picture_rows rows y : forallb row_okb rows = true → row_ok (rows_at rows y).
Proof.
  intros H. apply row_okb_ok. unfold rows_at. destruct (y <? 0); [done|].
  destruct (rows !! Z.to_nat y) as [r|] eqn:E; [|done]. rewrite forallb_forall in H.
  apply H, list_elem_of_In. by apply list_elem_of_lookup_2 in E.
Qed.

Lemma find_blobs_ok rimg : picture_okb (ranges rimg) = true →
  ∃ blobs label, find_blobs rimg = Ok blobs ∧ partition (ranges rimg) blobs label.
Proof.
  unfold picture_okb. rewrite !andb_true_iff, !Z.ltb_lt, negb_true_iff, bool_decide_eq_false.
  intros [[[Hok Hne] Hlen] Hruns]. unfold find_blobs. destruct (ranges rimg) as [|row0 rows0] eqn:Er; [done|].
  rewrite <-Er in *. set (rows := ranges rimg) in *.
  assert (Hrows : ∀ y, row_ok (rows_at rows y)) by (intros; by apply picture_rows).
  assert (H0 : rows_at rows 0 = row0) by (by rewrite Er).
  assert (Hn : n_runs rows = Z.of_nat (length row0) + n_runs rows0).
  { rewrite Er. unfold n_runs. cbn [concat]. rewrite length_app. lia. }
  assert (T0 : tracked rows 0 (mkSet [] []) id (λ _, [])).
  { split; [|intros; apply prefix_nil|done|done]. split; cbn; [|done|by intros y p ?%not_elem_of_nil|].
    - exists (λ _, 0%nat). split; [intros e [? ?]; cbn in *; lia|done|intros e [? ?]; cbn in *; lia].
    - intros r [? ?]. cbn in *. lia. }
  destruct (first_row_ok rows row0 (mkSet [] []) id (λ _, []) T0) as (s & rep & lab & E & T & X & F).
  { cbn. unfold n_runs in *. lia. }
  { done. }
  cbn [fmap list_fmap] in E. rewrite E, res_bind_Ok.
  destruct (find_rows_ok rows Hrows rows0 1 s rep lab) as (s' & rep' & lab' & E' & T' & J').
  - lia.
  - rewrite Er in Hlen. cbn [length] in Hlen. lia.
  - intros k Hk. rewrite Er, rows_at_cons, decide_False by lia. f_equal. lia.
  - pose proof (e_size _ _ _ _ _ _ _ X) as Hsz. apply (f_equal length) in F.
    rewrite length_fmap, H0 in F. cbn [length ufindl] in Hsz. lia.
  - done.
  - intros y Hy. destruct (decide (y = 0)) as [->|].
    + split; [done|]. intros k k' a b Ha. by rewrite rows_at_beyond in Ha by lia.
    + rewrite (e_other _ _ _ _ _ _ _ X) by done. rewrite rows_at_beyond by lia. split; [done|].
      intros k k' a b Ha. by rewrite rows_at_beyond in Ha by lia.
  - change (1 - 1) with 0 in E'. rewrite H0 in E'. rewrite E', res_bind_Ok.
    destruct (get_blobs_ok rows s' rep' lab') as (blobs & Eb & P); [|eauto].
    apply (joined_finished rows (1 + Z.of_nat (length rows0))); [rewrite Er; cbn [length]; lia|done|done].
Qed.
