(* ===== verification/VisionProofs.v ===== *)
(** * Thresholding, merging and flipping *)

From stdpp Require Import sorting relations.
From S2P Require Import Prelude Double RangeImage FindBlob BlobProofs.
From S2P Require Import BlobRows BlobLabels.

(** ** Thresholding *)

(** Column [c] is in one of the runs. *)
Definition covered (l : list ImageRange) (c : Z) : Prop := Exists (λ r, st r ≤ c < ed r) l.

(** The runs are maximal: a gap follows each. *)
Fixpoint gaps (l : list ImageRange) : bool :=
  match l with
  | [] => true
  | a :: l => match l with [] => true | b :: _ => ed a <? st b end && gaps l
  end.

(** Runs [l], in order, from column [lo] on and up to [w]. *)
Definition runs_from (l : list ImageRange) (lo w : Z) : Prop :=
  row_okb l = true ∧ gaps l = true ∧ Forall (λ r, lo ≤ st r ∧ ed r ≤ w) l.

Lemma runs_cons a l lo w : run_okb a = true → runs_from l (ed a + 1) w → lo ≤ st a → ed a ≤ w →
  runs_from (a :: l) lo w.
Proof.
  intros Ha (Ho & Hg & HF) Hlo Hw. unfold runs_from. cbn [row_okb gaps].
  rewrite Ha, Ho, Hg. apply run_okb_spec in Ha as [? _]. split_and!.
  - destruct l as [|b l]; [done|]. apply Forall_cons in HF as [[? _] _].
    by destruct (Z.leb_spec (ed a) (st b)); [|lia].
  - destruct l as [|b l]; [done|]. apply Forall_cons in HF as [[? _] _].
    by destruct (Z.ltb_spec (ed a) (st b)); [|lia].
  - constructor; [done|]. eapply Forall_impl; [exact HF|]. cbn. lia.
Qed.

Lemma runs_weaken l lo lo' w : lo' ≤ lo → runs_from l lo w → runs_from l lo' w.
Proof. intros H (? & ? & HF). split_and!; [done|done|]. eapply Forall_impl; [exact HF|]. cbn. lia. Qed.

Lemma covered_cons a l c : covered (a :: l) c ↔ st a ≤ c < ed a ∨ covered l c.
Proof. apply Exists_cons. Qed.

Section ThresholdRow.
Context {P : Type} (fn : P → bool).

(** Pixel [c] of a row that starts at column [x]. *)
Definition px_on (px : list P) (x c : Z) : Prop :=
  ∃ p, px !! Z.to_nat (c - x) = Some p ∧ x ≤ c ∧ fn p = true.

Lemma px_on_cons p px x c : px_on (p :: px) x c ↔ (c = x ∧ fn p = true) ∨ px_on px (x + 1) c.
Proof.
  unfold px_on. split.
  - intros (q & Hq & Hc & Hf). destruct (decide (c = x)) as [->|].
    + rewrite Z.sub_diag in Hq. injection Hq as <-. by left.
    + right. exists q. replace (Z.to_nat (c - x)) with (S (Z.to_nat (c - (x + 1)))) in Hq by lia.
      split_and!; [done|lia|done].
  - intros [[-> Hf]|(q & Hq & Hc & Hf)].
    + exists p. rewrite Z.sub_diag. split_and!; [done|lia|done].
    + exists q. replace (Z.to_nat (c - x)) with (S (Z.to_nat (c - (x + 1)))) by lia.
      split_and!; [done|lia|done].
Qed.

Lemma threshold_row_ok px x (p_score : bool) pstart w :
  w = x + Z.of_nat (length px) → 0 ≤ x → w < 2 ^ 31 → (p_score = true → 0 ≤ pstart < x) →
  let l := threshold_row fn px x p_score pstart w in
  runs_from l (if p_score then pstart else x) w ∧
  ∀ c, covered l c ↔ (p_score = true ∧ pstart ≤ c < x) ∨ px_on px x c.
Proof.
  revert x p_score pstart. induction px as [|p px IH]; intros x p_score pstart Hw Hx Hb Hp l.
  - subst l. cbn in *. assert (Hno : ∀ c, ¬ px_on [] x c) by (by intros c (q & Hq & _)).
    replace w with x by lia.
    destruct p_score; [specialize (Hp eq_refl)|].
    + split.
      * apply runs_cons; [apply run_okb_spec; unfold run_ok; cbn; lia| |cbn; lia..]. done.
      * intros c. rewrite covered_cons. cbn. split; [|naive_solver].
        intros [?|?%Exists_nil]; [left; split; [done|lia]|done].
    + split; [done|]. intros c. split; [by intros ?%Exists_nil|naive_solver].
  - subst l. cbn [threshold_row length] in *. destruct (fn p) eqn:Ep, p_score; cbn [Bool.eqb negb].
    + specialize (Hp eq_refl). destruct (IH (x + 1) true pstart) as [HR HC]; [lia..|].
      split; [done|]. intros c. rewrite HC, px_on_cons, Ep. split; [|naive_solver lia].
      intros [[_ ?]|?]; [|auto]. destruct (decide (c = x)); [auto|left; split; [done|lia]].
    + destruct (IH (x + 1) true x) as [HR HC]; [lia..|]. split; [done|]. intros c.
      rewrite HC, px_on_cons, Ep. split; [|naive_solver lia]. intros [[_ ?]|?]; [|auto]. right. left. split; [lia|done].
    + specialize (Hp eq_refl). destruct (IH (x + 1) false pstart) as [HR HC]; [lia..|done|].
      split; [apply runs_cons; [apply run_okb_spec; unfold run_ok; cbn; lia|done|cbn; lia..]|].
      intros c. rewrite covered_cons, HC, px_on_cons, Ep. cbn. naive_solver lia.
    + destruct (IH (x + 1) false pstart) as [HR HC]; [lia..|done|].
      split; [by apply (runs_weaken _ (x + 1)); [lia|]|]. intros c. rewrite HC, px_on_cons, Ep. naive_solver.
Qed.
End ThresholdRow.

(** A block of [w * h] pixels with at least one column. *)
Definition image_okb {P} (im : image P) : bool :=
  (0 <? fmt_w im) && (fmt_w im <? 2 ^ 31) && (0 <? fmt_h im) && (fmt_h im <? 2 ^ 31) &&
  (fmt_w im * fmt_h im <? 2 ^ 31) && (Z.of_nat (length (px_data im)) =? fmt_w im * fmt_h im).

(** The pixel at column [x] of row [y]. *)
Definition px_at {P} (im : image P) (x y : Z) : option P :=
  if (0 <=? x) && (x <? fmt_w im) && (0 <=? y) then px_data im !! Z.to_nat (x + y * fmt_w im) else None.

Lemma do_threshold_ok {P} (fn : P → bool) (im : image P) : image_okb im = true →
  ∃ rimg, do_threshold fn im = Ok rimg ∧ mini rimg = 0 ∧
    Z.of_nat (length (ranges rimg)) = fmt_h im ∧
    ∀ y, runs_from (rows_at (ranges rimg) y) 0 (fmt_w im) ∧
      ∀ x, covered (rows_at (ranges rimg) y) x ↔ ∃ p, px_at im x y = Some p ∧ fn p = true.
Proof.
  unfold image_okb. rewrite !andb_true_iff, !Z.ltb_lt, Z.eqb_eq. intros [[[[[Hw Hw'] Hh] Hh'] Hwh] Hl].
  unfold do_threshold, by_row. rewrite chk_ok, res_bind_Ok by (unfold in_signed; cbn in *; nia).
  destruct (Z.eqb_spec (fmt_w im * fmt_h im) 0) as [|_]; [nia|].
  destruct (Z.ltb_spec (fmt_w im) 0), (Z.ltb_spec (fmt_h im) 0),
    (Z.ltb_spec (Z.of_nat (length (px_data im))) (fmt_w im * fmt_h im)); try lia.
  cbn [orb]. rewrite res_bind_Ok. eexists. split; [reflexivity|].
  cbn [mini ranges RangeImage_new]. rewrite map_map. split_and!; [done|rewrite length_map, length_seq; lia|].
  intros y. unfold rows_at. destruct (Z.ltb_spec y 0) as [Hy|Hy].
  { split; [done|]. intros x. unfold px_at. destruct (Z.leb_spec 0 y); [lia|]. rewrite andb_false_r.
    split; [by intros ?%Exists_nil|naive_solver]. }
  rewrite list_lookup_fmap. destruct (decide (y < fmt_h im)) as [Hyh|Hyh].
  - rewrite lookup_seq_lt by lia. cbn [fmap option_fmap option_map default from_option].
    set (row := take _ _). assert (HL : Z.of_nat (length row) = fmt_w im).
    { unfold row. rewrite length_take, length_drop. nia. }
    destruct (threshold_row_ok fn row 0 false (-1) (fmt_w im)) as [HR HC]; [lia..|done|].
    split; [done|]. intros x. rewrite HC. unfold px_on, px_at. rewrite Z.sub_0_r.
    destruct (Z.leb_spec 0 x), (Z.ltb_spec x (fmt_w im)), (Z.leb_spec 0 y); cbn [andb]; try lia.
    + unfold row. rewrite lookup_take_lt, lookup_drop by lia.
      replace (Z.to_nat (x + y * fmt_w im)) with (Z.to_nat y * Z.to_nat (fmt_w im) + Z.to_nat x)%nat by nia.
      naive_solver.
    + split; [|naive_solver]. intros [[? _]|(p & Hp%lookup_lt_Some & _)]; [done|lia].
    + split; [|naive_solver]. intros [[? _]|(p & _ & ? & _)]; [done|lia].
  - rewrite lookup_seq_ge by lia. cbn [fmap option_fmap option_map default from_option].
    split; [done|]. intros x. split; [by intros ?%Exists_nil|]. unfold px_at.
    intros (p & Hp & _). destruct (_ && _) eqn:E; [|done]. rewrite !andb_true_iff, !Z.leb_le, Z.ltb_lt in E.
    apply lookup_lt_Some in Hp. nia.
Qed.

(** ** Merging blobs *)

Lemma row_of_row_at i b : default [] (row_of i b) = row_at b i.
Proof.
  unfold row_of, row_at, rows_at.
  destruct (Z.ltb_spec i (mini b)), (Z.ltb_spec (i - mini b) 0); (done || lia).
Qed.

Lemma row_runs_concat y bl : row_runs y bl = concat (map (λ b, row_at b y) bl).
Proof. unfold row_runs. f_equal. apply map_ext. intros b. apply row_of_row_at. Qed.

Definition blob_end (b : RangeImage) : Z := mini b + RangeImage_size b.

Lemma row_at_end b y : blob_end b ≤ y → row_at b y = [].
Proof. intros H. apply rows_at_beyond. unfold blob_end, RangeImage_size in H. lia. Qed.

Lemma row_of_None i b : row_of i b = None ↔ mini b ≤ i ∧ blob_end b ≤ i.
Proof.
  unfold row_of, blob_end, RangeImage_size. destruct (Z.ltb_spec i (mini b)).
  - split; [done|lia].
  - rewrite lookup_ge_None. lia.
Qed.

Lemma n_missing_all i bl : n_missing i bl = length bl ↔ ∀ b, b ∈ bl → row_of i b = None.
Proof.
  unfold n_missing. induction bl as [|b bl IH].
  - split; [by intros _ b ?%not_elem_of_nil|done].
  - rewrite filter_cons. pose proof (length_filter (λ b, row_of i b = None) bl).
    destruct (decide (row_of i b = None)); cbn [length].
    + rewrite Nat.succ_inj_wd, IH. setoid_rewrite elem_of_cons. naive_solver.
    + split; [lia|]. intros H1. destruct n. apply H1. by left.
Qed.

Lemma missing_runs i bl : (∀ b, b ∈ bl → blob_end b ≤ i) → row_runs i bl = [].
Proof.
  rewrite row_runs_concat. induction bl as [|b bl IH]; intros H; [done|]. cbn.
  rewrite row_at_end, IH; [done|intros; apply H; by right|apply H; by left].
Qed.

(** [n] more rows are enough, and the fuel may be larger. *)
Lemma merge_rows_ok n fuel i bl : (n ≤ fuel)%nat → - 2 ^ 31 ≤ i → i + Z.of_nat n < 2 ^ 31 →
  (∀ b, b ∈ bl → mini b ≤ i + Z.of_nat n ∧ blob_end b ≤ i + Z.of_nat n) →
  ∃ rs, merge_rows (S fuel) i bl = Ok rs ∧
    ∀ k, 0 ≤ k → rows_at rs k = sort_runs (row_runs (i + k) bl).
Proof.
  revert fuel i. induction n as [|n IH]; intros fuel i Hf Hlo Hhi Hb; cbn [merge_rows];
    (case_bool_decide as Hm; [rewrite n_missing_all in Hm|]).
  1,3: (eexists; split; [reflexivity|]; intros k Hk; rewrite rows_at_cons;
        destruct (decide (k = 0)) as [->|]; [by rewrite Z.add_0_r|];
        rewrite missing_runs by (intros b Hin; pose proof (Hm b Hin) as E; apply row_of_None in E; lia);
        unfold rows_at; rewrite lookup_nil; by destruct (k - 1 <? 0)).
  - destruct Hm. apply n_missing_all. intros b Hin. apply row_of_None. specialize (Hb b Hin). lia.
  - rewrite chk_ok, res_bind_Ok by (unfold in_signed; cbn in *; lia).
    destruct fuel as [|fuel]; [lia|].
    destruct (IH fuel (i + 1)) as (rs & E & Hr); [lia..|intros b Hin; specialize (Hb b Hin); lia|].
    rewrite E, res_bind_Ok. eexists. split; [reflexivity|].
    intros k Hk. rewrite rows_at_cons. destruct (decide (k = 0)) as [->|]; [by rewrite Z.add_0_r|].
    rewrite Hr by lia. do 2 f_equal. lia.
Qed.

(** The first row of any blob. *)
Lemma fold_mini_le l i :
  let m := fold_left (λ i b, if mini b <? i then mini b else i) l i in
  m ≤ i ∧ (∀ b, b ∈ l → m ≤ mini b) ∧ (m = i ∨ ∃ b, b ∈ l ∧ m = mini b).
Proof.
  revert i. induction l as [|b l IH]; intros i; cbn [fold_left].
  - split_and!; [lia|by intros b ?%not_elem_of_nil|by left].
  - destruct (IH (if mini b <? i then mini b else i)) as (H1 & H2 & H3). cbn in *.
    destruct (Z.ltb_spec (mini b) i); split_and!; try lia;
      setoid_rewrite elem_of_cons; naive_solver lia.
Qed.

(** Every row of the merged blob is the sorted union of the blobs' rows. *)
Lemma MergeRangeImage_ok fuel bl : (2 ≤ length bl)%nat →
  (∀ b, b ∈ bl → 0 ≤ mini b ∧ blob_end b ≤ Z.of_nat fuel) → Z.of_nat fuel < 2 ^ 31 - 1 →
  ∃ m, MergeRangeImage (S fuel) bl = Ok m ∧ ∀ y, row_at m y = sort_runs (concat (map (λ b, row_at b y) bl)).
Proof.
  intros Hl Hb Hf. destruct bl as [|b0 [|b1 bl]]; cbn [length] in Hl; [lia|lia|].
  set (l := b0 :: b1 :: bl) in *. change (MergeRangeImage (S fuel) l) with
    (rs ← merge_rows (S fuel) (fold_left (λ i b, if mini b <? i then mini b else i) l (mini b0)) l;
     Ok (RangeImage_new (fold_left (λ i b, if mini b <? i then mini b else i) l (mini b0)) rs)).
  destruct (fold_mini_le l (mini b0)) as (H1 & H2 & H3). cbn zeta in *.
  set (i := fold_left _ l (mini b0)) in *.
  assert (Hi : 0 ≤ i).
  { destruct H3 as [->|(b & Hin & ->)]; [apply (Hb b0); by left|by apply Hb]. }
  assert (Hsz : ∀ b, mini b ≤ blob_end b) by (intros; unfold blob_end, RangeImage_size; lia).
  assert (Hbase : i ≤ Z.of_nat fuel).
  { pose proof (Hb b0 ltac:(by left)). pose proof (Hsz b0). lia. }
  destruct (merge_rows_ok (fuel - Z.to_nat i) fuel i l) as (rs & -> & Hr); [lia..| |].
  - intros b Hin. pose proof (Hb b Hin). pose proof (Hsz b). lia.
  - rewrite res_bind_Ok. eexists. split; [reflexivity|]. intros y.
    unfold row_at at 1. cbn [ranges mini RangeImage_new]. rewrite <-row_runs_concat.
    destruct (decide (y < i)) as [Hy|Hy]; [|rewrite Hr by lia; do 2 f_equal; lia].
    rewrite rows_at_beyond by lia. rewrite row_runs_concat.
    replace (concat (map (λ b, row_at b y) l)) with (@nil ImageRange); [done|].
    clearbody i l. clear -H2 Hy. induction l as [|b l IH]; [done|]. cbn.
    rewrite <-IH by (intros; apply H2; by right). unfold row_at. rewrite rows_at_beyond; [done|].
    left. specialize (H2 b ltac:(by left)). lia.
Qed.

(** ** Blobs put back together *)

Lemma concat_insert {A} (f : nat → list A) (b0 : nat) (r : A) l : NoDup l → b0 ∈ l →
  concat (map (λ b, if decide (b0 = b) then r :: f b else f b) l) ≡ₚ r :: concat (map f l).
Proof.
  intros Hnd Hin. induction Hnd as [|b l Hb Hnd IH]; [by apply not_elem_of_nil in Hin|]. cbn.
  apply elem_of_cons in Hin as [->|Hin].
  - rewrite decide_True by done. cbn. constructor. f_equiv. apply eq_subrelation; [apply _|]. f_equal.
    apply map_ext_in. intros b' Hb'. rewrite decide_False; [done|]. intros ->. by apply Hb, list_elem_of_In.
  - rewrite decide_False by (intros ->; done). rewrite IH by done. by rewrite Permutation_middle.
Qed.

Lemma labelled_union label y n l k : (∀ j, (j < length l)%nat → (label (y, (k + j)%nat) < n)%nat) →
  concat (map (λ b, runs_labelled label b y k l) (seq 0 n)) ≡ₚ l.
Proof.
  revert k. induction l as [|r l IH]; intros k H; cbn [runs_labelled].
  - clear. induction (seq 0 n); done.
  - rewrite concat_insert; [|apply NoDup_seq|].
    + rewrite IH; [done|]. intros j Hj. specialize (H (S j)). cbn [length] in H.
      rewrite <-Nat.add_succ_comm in H. apply H. lia.
    + apply elem_of_seq. specialize (H 0%nat). rewrite Nat.add_0_r in H. cbn [length] in H. lia.
Qed.

Section PutBack.
Context (rows : list (list ImageRange)) (blobs : BlobList) (label : Z * nat → nat).
Context (P : partition rows blobs label).

Lemma partition_rows y : concat (map (λ b, row_at b y) blobs) ≡ₚ rows_at rows y.
Proof using P.
  destruct P as (Hlt & Hb & _). rewrite <-(labelled_union label y (length blobs) (rows_at rows y) 0).
  - apply eq_subrelation; [apply _|]. f_equal. apply list_eq. intros i. change (@map ?A ?B) with (@fmap list _ A B).
    rewrite !list_lookup_fmap.
    destruct (blobs !! i) as [b|] eqn:E.
    + rewrite lookup_seq_lt by (by apply lookup_lt_Some in E). cbn. f_equal. by apply Hb.
    + rewrite lookup_seq_ge by (by apply lookup_ge_None in E). done.
  - intros j Hj. apply Hlt. apply lookup_lt_is_Some_2. done.
Qed.

Lemma partition_end b : b ∈ blobs → 0 ≤ mini b ∧ blob_end b ≤ Z.of_nat (length rows).
Proof using P.
  intros [i Hi]%list_elem_of_lookup_1. destruct P as (_ & Hb & _).
  destruct (Hb i b Hi) as (_ & H0 & _ & Hl & Hr). split; [done|].
  destruct (decide (blob_end b ≤ Z.of_nat (length rows))); [done|].
  rewrite Hr, rows_at_beyond in Hl by (unfold blob_end in *; lia). done.
Qed.
End PutBack.

#[global] Instance run_le_trans : Transitive run_le.
Proof. intros a b c. unfold run_le. lia. Qed.
#[global] Instance run_le_total : Total run_le.
Proof. intros a b. unfold run_le. lia. Qed.

(** Sorting the runs of a well-formed row gives the row. *)
Lemma sort_row l l' : row_ok l → l' ≡ₚ l → sort_runs l' = l.
Proof.
  intros [HF HB] HP. unfold sort_runs. apply (StronglySorted_unique_strong run_le).
  - intros a b Ha Hb H1 H2. rewrite merge_sort_Permutation, HP in Ha. unfold run_le in *.
    apply list_elem_of_lookup_1 in Ha as [i Hi], Hb as [j Hj].
    pose proof (Forall_lookup_1 _ _ _ _ HF Hi) as [? _]. pose proof (Forall_lookup_1 _ _ _ _ HF Hj) as [? _].
    destruct (lt_eq_lt_dec i j) as [[Hij|Hij]|Hij].
    + pose proof (HB _ _ _ _ Hi Hj Hij). lia.
    + congruence.
    + pose proof (HB _ _ _ _ Hj Hi Hij). lia.
  - apply StronglySorted_merge_sort; apply _.
  - clear HP. induction l as [|a l IH]; [constructor|]. apply Forall_cons in HF as [[Ha _] HF]. constructor.
    + apply IH; [done|]. intros i j x y Hi Hj Hij. apply (HB (S i) (S j)); [done..|lia].
    + apply Forall_lookup. intros j b Hj. pose proof (HB 0%nat (S j) a b eq_refl Hj ltac:(lia)).
      unfold run_le. lia.
  - by rewrite merge_sort_Permutation.
Qed.

(** ** Flipping *)

Definition in_viewb (w h : Z) (r : RangeImage) : bool :=
  (w <? 2 ^ 31) && (h <? 2 ^ 31) && (0 <=? mini r) && (mini r + RangeImage_size r <=? h) &&
  forallb (forallb (λ r, (0 <=? st r) && (st r <=? ed r) && (ed r <=? w))) (ranges r).

Definition flipped (w : Z) (r : ImageRange) : ImageRange := mkRange (w - ed r) (w - st r).

Lemma mapR_ok {A B} (f : A → res B) (g : A → B) l : (∀ a, In a l → f a = Ok (g a)) → mapR f l = Ok (map g l).
Proof.
  induction l as [|a l IH]; intros H; [done|]. cbn [mapR map].
  rewrite (H a), res_bind_Ok, IH, res_bind_Ok; [done|intros; apply H; by right|by left].
Qed.

Lemma Flip_ok w h r : in_viewb w h r = true →
  ∃ r', Flip w h r = Ok r' ∧ mini r' = h - RangeImage_size r - mini r ∧
    ranges r' = map (λ row, map (flipped w) (rev row)) (rev (ranges r)).
Proof.
  unfold in_viewb. rewrite !andb_true_iff, !Z.ltb_lt, !Z.leb_le. intros [[[[Hw Hh] Hm] Hs] Hr].
  unfold Flip. rewrite (mapR_ok _ (λ row, map (flipped w) (rev row))).
  - rewrite res_bind_Ok, length_map, length_rev. unfold RangeImage_size in *.
    rewrite chk_ok, res_bind_Ok, chk_ok, res_bind_Ok by (unfold in_signed; cbn in *; lia).
    eexists. split; [reflexivity|]. done.
  - intros row Hin%in_rev. apply mapR_ok. intros a Ha%in_rev.
    rewrite forallb_forall in Hr. specialize (Hr row Hin). rewrite forallb_forall in Hr. specialize (Hr a Ha).
    rewrite !andb_true_iff, !Z.leb_le in Hr. unfold flip_range.
    by rewrite !chk_ok, !res_bind_Ok by (unfold in_signed; cbn in *; lia).
Qed.

Lemma Flip_view w h r r' : in_viewb w h r = true → mini r' = h - RangeImage_size r - mini r →
  ranges r' = map (λ row, map (flipped w) (rev row)) (rev (ranges r)) → in_viewb w h r' = true.
Proof.
  unfold in_viewb. rewrite !andb_true_iff, !Z.ltb_lt, !Z.leb_le. unfold RangeImage_size.
  intros [[[[Hw Hh] Hm] Hs] Hr] -> ->. rewrite length_map, length_rev. split_and!; [done|done|lia|lia|].
  rewrite forallb_forall in *. intros row (row0 & <- & Hin%in_rev)%in_map_iff. specialize (Hr row0 Hin).
  rewrite forallb_forall in *. intros a (a0 & <- & Ha%in_rev)%in_map_iff. specialize (Hr a0 Ha).
  rewrite !andb_true_iff, !Z.leb_le in *. cbn. lia.
Qed.

Lemma flipped_rows w rs :
  map (λ row, map (flipped w) (rev row)) (rev (map (λ row, map (flipped w) (rev row)) (rev rs))) = rs.
Proof.
  assert (E : ∀ a, flipped w (flipped w a) = a) by (intros [s e]; unfold flipped; cbn; f_equal; lia).
  rewrite <-map_rev, rev_involutive, map_map. rewrite <-(map_id rs) at 2. apply map_ext. intros row.
  rewrite <-map_rev, rev_involutive, map_map. rewrite <-(map_id row) at 2. apply map_ext. apply E.
Qed.

Lemma flipped_covered w l x : covered (map (flipped w) (rev l)) x ↔ covered l (w - 1 - x).
Proof.
  unfold covered. rewrite map_rev. rewrite !Exists_exists. split.
  - intros (r & Hr & Hx). apply list_elem_of_In, in_rev, in_map_iff in Hr as (a & <- & Ha).
    exists a. split; [by apply list_elem_of_In|]. cbn in Hx. lia.
  - intros (a & Ha & Hx). exists (flipped w a). split; [|cbn; lia].
    apply list_elem_of_In, in_rev. rewrite rev_involutive. apply in_map. by apply list_elem_of_In.
Qed.

Lemma rows_at_rev rs k : rows_at (rev rs) k = rows_at rs (Z.of_nat (length rs) - 1 - k).
Proof.
  destruct (decide (0 ≤ k < Z.of_nat (length rs))) as [Hk|Hk].
  - unfold rows_at. destruct (Z.ltb_spec k 0), (Z.ltb_spec (Z.of_nat (length rs) - 1 - k) 0); try lia.
    rewrite rev_alt. change (rev_append rs []) with (reverse rs). rewrite reverse_lookup by lia. do 2 f_equal. lia.
  - rewrite !rows_at_beyond; [done|lia|rewrite length_rev; lia].
Qed.

Lemma rows_at_map f rs k : f [] = [] → rows_at (map f rs) k = f (rows_at rs k).
Proof.
  intros Hf. unfold rows_at. destruct (k <? 0); [done|].
  change (map f rs) with (f <$> rs). rewrite list_lookup_fmap. by destruct (rs !! Z.to_nat k).
Qed.
