(* ===== verification/VisionTheorems.v ===== *)
(** * What the blob code guarantees

    Thresholding finds exactly the pixels that pass, the blob finder splits
    them into connected components and loses none, the codec and the flip can
    be undone. *)

From stdpp Require Import sorting relations.
From S2P Require Import Prelude ByteOrder QueueTypes QueueTypesProofs Double RangeImage.
From S2P Require Import FindBlob BlobProofs BlobRows.
From S2P Require Import BlobLabels VisionProofs.

(** ** Putting blobs back together *)

Lemma find_merge fuel rimg : picture_okb (ranges rimg) = true → concat (ranges rimg) ≠ [] →
  (length (ranges rimg) ≤ fuel)%nat → Z.of_nat fuel < 2 ^ 31 - 1 →
  ∃ blobs m, find_blobs rimg = Ok blobs ∧ MergeRangeImage (S fuel) blobs = Ok m ∧
    ∀ y, row_at m y = rows_at (ranges rimg) y.
Proof.
  intros Hok Hne Hl Hf. destruct (find_blobs_ok rimg Hok) as (blobs & label & E & P).
  pose proof (partition_rows _ _ _ P) as Hrows. pose proof (partition_end _ _ _ P) as Hend.
  assert (Hrow : ∀ y, row_ok (rows_at (ranges rimg) y)).
  { intros y. apply picture_rows. unfold picture_okb in Hok. rewrite !andb_true_iff in Hok. apply Hok. }
  exists blobs. destruct blobs as [|b [|b' bl]].
  - destruct Hne. clear -Hrows. set (rs := ranges rimg) in *.
    assert (Hn : ∀ k r, rs !! k = Some r → r = []).
    { intros k r Hr. specialize (Hrows (Z.of_nat k)). cbn in Hrows.
      apply Permutation_nil in Hrows. unfold rows_at in Hrows.
      destruct (Z.ltb_spec (Z.of_nat k) 0); [lia|]. by rewrite Nat2Z.id, Hr in Hrows. }
    clearbody rs. induction rs as [|r rs IH]; [done|]. cbn. rewrite (Hn 0%nat r eq_refl). cbn.
    apply IH; [|intros k; apply (Hn (S k))]. intros y. cbn.
    unfold rows_at. destruct (y <? 0); [done|]. destruct (rs !! Z.to_nat y) as [q|] eqn:Eq; [|done].
    by rewrite (Hn (S (Z.to_nat y)) q Eq).
  - exists b. split_and!; [done|done|]. intros y. specialize (Hrows y). cbn in Hrows. rewrite app_nil_r in Hrows.
    destruct P as (_ & Hb & _). destruct (Hb 0%nat b eq_refl) as (_ & _ & _ & _ & Hr). rewrite Hr in *.
    clear -Hrows. revert Hrows. generalize (rows_at (ranges rimg) y), 0%nat at 2 4. intros l.
    induction l as [|r l IH]; intros k HP; [done|]. cbn in *.
    destruct (decide (label (y, k) = 0%nat)) as [_|Hn].
    + f_equal. apply IH. by apply Permutation_cons_inv in HP.
    + exfalso. apply Permutation_length in HP. cbn in HP.
      assert (Hle : ∀ l k, (length (runs_labelled label 0 y k l) ≤ length l)%nat).
      { clear. induction l as [|a l IH]; intros k; [done|]. cbn. specialize (IH (S k)).
        destruct (decide _); cbn; lia. }
      specialize (Hle l (S k)). lia.
  - destruct (MergeRangeImage_ok fuel (b :: b' :: bl)) as (m & Em & Hm); [cbn; lia| |done|].
    { intros c Hc. specialize (Hend c Hc). lia. }
    exists m. split_and!; [done|done|]. intros y. rewrite Hm. by apply sort_row.
Qed.

(** The runs of a row are no more than its columns. *)
Lemma runs_count l lo w : runs_from l lo w → l ≠ [] → lo + Z.of_nat (length l) ≤ w.
Proof.
  revert lo. induction l as [|a l IH]; intros lo (Ho & Hg & HF) Hne; [done|].
  cbn [row_okb gaps] in *. rewrite !andb_true_iff in *. destruct Ho as [[Ha Hb] Ho], Hg as [Hg Hg'].
  apply run_okb_spec in Ha as [Ha _]. apply Forall_cons in HF as [[Hlo Hw] HF].
  destruct l as [|b l]; [cbn; lia|]. apply Z.ltb_lt in Hg.
  assert (runs_from (b :: l) (lo + 1) w) as HR.
  { split_and!; [done|done|]. apply Forall_lookup. intros i r Hr.
    pose proof (Forall_lookup_1 _ _ _ _ HF Hr) as [_ ?]. split; [|done].
    destruct (row_okb_ok _ Ho) as [HF' HB]. destruct i as [|i]; [injection Hr as <-; lia|].
    pose proof (HB 0%nat (S i) b r eq_refl Hr ltac:(lia)).
    apply Forall_cons in HF' as [[? _] _]. lia. }
  specialize (IH _ HR ltac:(done)). cbn [length] in *. lia.
Qed.

Lemma threshold_picture {P} (im : image P) rimg : image_okb im = true →
  Z.of_nat (length (ranges rimg)) = fmt_h im →
  (∀ y, runs_from (rows_at (ranges rimg) y) 0 (fmt_w im)) → picture_okb (ranges rimg) = true.
Proof.
  unfold image_okb. rewrite !andb_true_iff, !Z.ltb_lt, Z.eqb_eq. intros [[[[[Hw Hw'] Hh] Hh'] Hs] Hl] Hn HR.
  assert (Hrow : ∀ r, r ∈ ranges rimg → runs_from r 0 (fmt_w im)).
  { intros r [k Hk]%list_elem_of_lookup_1. specialize (HR (Z.of_nat k)). unfold rows_at in HR.
    destruct (Z.ltb_spec (Z.of_nat k) 0); [lia|]. by rewrite Nat2Z.id, Hk in HR. }
  assert (Hc : n_runs (ranges rimg) ≤ fmt_w im * Z.of_nat (length (ranges rimg))).
  { clear Hn HR. unfold n_runs. induction (ranges rimg) as [|r rs IH]; [cbn; lia|].
    cbn [concat length]. rewrite length_app.
    specialize (IH ltac:(intros; apply Hrow; by right)).
    assert (Z.of_nat (length r) ≤ fmt_w im).
    { destruct r as [|a r]; [cbn; lia|]. pose proof (runs_count _ _ _ (Hrow (a :: r) ltac:(by left)) ltac:(done)). lia. }
    nia. }
  unfold picture_okb. rewrite !andb_true_iff, !Z.ltb_lt, negb_true_iff, bool_decide_eq_false.
  split_and!; [|intros E; rewrite E in Hn; cbn in Hn; lia|lia|nia].
  apply forallb_forall. intros r Hr. apply list_elem_of_In in Hr. by apply Hrow.
Qed.

(** ** The properties *)

(** C34: for every image with [w * h] pixels, [do_threshold] returns [h] rows of
    runs that are not empty, ordered, separated by gaps and inside the image, and a
    pixel is in a run of its row exactly when the threshold function accepts it. *)
Theorem do_threshold_exact {P} (fn : P → bool) (im : image P) : image_okb im = true →
  ∃ rimg, do_threshold fn im = Ok rimg ∧ mini rimg = 0 ∧ RangeImage_size rimg = fmt_h im ∧
    ∀ y, runs_from (rows_at (ranges rimg) y) 0 (fmt_w im) ∧
      ∀ x, covered (rows_at (ranges rimg) y) x ↔ ∃ p, px_at im x y = Some p ∧ fn p = true.
Proof. apply do_threshold_ok. Qed.

Definition sample_image : image Z :=
  mkImg 5 3 [0;9;9;0;7;
             0;0;8;0;7;
             9;0;0;0;0].

Lemma do_threshold_exact_witness : ∃ rimg, do_threshold (λ p, 5 <? p) sample_image = Ok rimg ∧
  covered (rows_at (ranges rimg) 0) 2 ∧ ¬ covered (rows_at (ranges rimg) 1) 3.
Proof.
  destruct (do_threshold_exact (λ p, 5 <? p) sample_image eq_refl) as (rimg & E & _ & _ & H).
  exists rimg. split_and!; [done|apply H; by exists 9|].
  rewrite (proj2 (H 1) 3). intros (p & Hp & Hf). vm_compute in Hp. injection Hp as <-. done.
Defined.

(** C35: on every well-formed picture [find_blobs] returns; its blobs partition
    the runs of the picture, each blob's rows are the runs with its number in the
    order of the picture, no blob has an empty first or last row, and two runs are
    in one blob exactly when a chain of runs that share a column with a run on the
    next or the previous row links them. *)
Theorem find_blobs_components (rimg : RangeImage) : picture_okb (ranges rimg) = true →
  ∃ blobs label, find_blobs rimg = Ok blobs ∧ partition (ranges rimg) blobs label.
Proof. apply find_blobs_ok. Qed.

Definition sample_picture : RangeImage :=
  RangeImage_new 0 [[mkRange 0 2; mkRange 5 7; mkRange 9 10]; [mkRange 1 3; mkRange 5 6];
                    [mkRange 2 6; mkRange 9 11]].

Lemma find_blobs_components_witness : ∃ blobs (label : Z * nat → nat),
  find_blobs sample_picture = Ok blobs ∧ length blobs = 3%nat ∧
  label (0, 0%nat) = label (0, 1%nat).
Proof.
  destruct (find_blobs_components sample_picture eq_refl) as (blobs & label & E & P).
  exists blobs, label. split_and!; [done| |].
  - vm_compute in E. injection E as <-. done.
  - assert (N : ∀ y k a, rows_at (ranges sample_picture) y !! k = Some a → node (ranges sample_picture) (y, k)).
    { intros y k a H. by exists a. }
    assert (Ed : ∀ y k k' a b, rows_at (ranges sample_picture) y !! k = Some a →
      rows_at (ranges sample_picture) (y + 1) !! k' = Some b → touch a b →
      conn (ranges sample_picture) (y, k) (y + 1, k')).
    { intros y k k' a b Ha Hb Ht. apply conn_edge. split; [done|]. exists a, b. split_and!; assumption. }
    apply (proj2 (proj2 P)); [by eapply N..|].
    transitivity (1, 0%nat).
    { apply (Ed 0 0%nat 0%nat (mkRange 0 2) (mkRange 1 3)); [reflexivity..|split; cbn; lia]. }
    transitivity (2, 0%nat).
    { apply (Ed 1 0%nat 0%nat (mkRange 1 3) (mkRange 2 6)); [reflexivity..|split; cbn; lia]. }
    transitivity (1, 1%nat); apply conn_sym.
    + apply (Ed 1 1%nat 0%nat (mkRange 5 6) (mkRange 2 6)); [reflexivity..|split; cbn; lia].
    + apply (Ed 0 1%nat 1%nat (mkRange 5 7) (mkRange 5 6)); [reflexivity..|split; cbn; lia].
Defined.



(** C37: [SerializeBlobTo] fills a string of exactly [PredictSize] bytes without
    touching memory outside of it, and [ParseBlobList] reads the same blobs back,
    each field reduced to 16 bits, appends them to its list and stops at the end
    of the string. *)
Theorem blob_codec_roundtrip (bl bl0 : BlobList) (out rest : bytes) :
  few bl → Forall countable_blob bl → Z.of_nat (length (enc_list bl)) < 2 ^ 31 →
  ∃ data, SerializeBlobTo bl out = Ok data ∧ PredictSize bl = Ok (Z.of_nat (length data)) ∧
    ParseBlobList bl0 (data ++ rest) = Ok (bl0 ++ map blob16 bl, Z.of_nat (length data)).
Proof.
  intros H1 H2 H3. exists (enc_list bl). unfold SerializeBlobTo. rewrite PredictSize_enc, res_bind_Ok by done.
  destruct (Z.ltb_spec (Z.of_nat (length (enc_list bl))) 0); [lia|]. rewrite Nat2Z.id.
  assert (HL : length (resize (length (enc_list bl)) out) = length (enc_list bl)).
  { unfold resize. rewrite length_app, length_take, length_replicate. lia. }
  split_and!; [|done|by apply ParseBlobList_enc].
  rewrite SerializeBlob_enc by lia. f_equal. rewrite drop_ge by lia. apply app_nil_r.
Qed.

Lemma blob_codec_roundtrip_witness : ∃ data, SerializeBlobTo [sample_picture] [] = Ok data ∧
  PredictSize [sample_picture] = Ok (Z.of_nat (length data)) ∧
  ParseBlobList [] (data ++ []) = Ok ([sample_picture], Z.of_nat (length data)).
Proof.
  apply (blob_codec_roundtrip [sample_picture] [] [] []).
  - done.
  - repeat constructor.
  - vm_compute. done.
Defined.

(** Flipping a range image that lies inside the image rotates it by half a
    turn, keeps it inside, and flipping it again gives back the same rows at the
    same place. *)
Theorem Flip_rotates (w h : Z) (r : RangeImage) : in_viewb w h r = true →
  ∃ r' r'', Flip w h r = Ok r' ∧ in_viewb w h r' = true ∧
    (∀ x y, covered (row_at r' y) x ↔ covered (row_at r (h - 1 - y)) (w - 1 - x)) ∧
    Flip w h r' = Ok r'' ∧ mini r'' = mini r ∧ ranges r'' = ranges r.
Proof.
  intros Hv. destruct (Flip_ok w h r Hv) as (r' & E & Hm & Hr).
  pose proof (Flip_view w h r r' Hv Hm Hr) as Hv'. destruct (Flip_ok w h r' Hv') as (r'' & E' & Hm' & Hr').
  exists r', r''. split_and!; [done|done| |done| |by rewrite Hr', Hr, flipped_rows].
  - intros x y. rewrite <-flipped_covered. unfold row_at. rewrite Hr, Hm, rows_at_map, rows_at_rev by done.
    unfold RangeImage_size. replace (Z.of_nat (length (ranges r)) - 1 - (y - (h - Z.of_nat (length (ranges r)) - mini r)))
      with (h - 1 - y - mini r) by lia. done.
  - rewrite Hm', Hm. unfold RangeImage_size. rewrite Hr, length_map, length_rev. lia.
Qed.

Lemma Flip_rotates_witness : ∃ r' r'', Flip 20 10 sample_picture = Ok r' ∧ mini r' = 7 ∧
  Flip 20 10 r' = Ok r'' ∧ ranges r'' = ranges sample_picture.
Proof.
  destruct (Flip_rotates 20 10 sample_picture eq_refl) as (r' & r'' & E & _ & _ & E' & _ & H).
  exists r', r''. split_and!; [done| |done|done]. vm_compute in E. injection E as <-. done.
Defined.
