(* ===== verification/Bresenham.v ===== *)
(** * Lines: aos/vision/utils/bresenham.cc

    [draw_bresham_line] paints the pixels of a line with integer arithmetic only.  It is shown
    to paint, for each column (each row of a steep line), the pixel closest to the line. *)

From S2P Require Import Prelude RangeImage.

Record Pt := mkPt { Pt_x : Z; Pt_y : Z }.

(** [abs] of an [int] *)
Definition int_abs (z : Z) : res Z := i32 (Z.abs z).

Section Draw.
Context {P : Type} (color : P).

Definition img_write_char (outbuf : image P) (x y : Z) : res (image P) :=
  if (0 <=? y) && (y <? fmt_h outbuf) && (0 <=? x) && (x <? fmt_w outbuf) then set_px outbuf x y color else Ok outbuf.

(** [for (p = ...; p <= last; p++)]: [p] goes along the longer side, [q] along the other one. *)
Fixpoint line_loop (fuel : nat) (write : image P → Z → Z → res (image P)) (last dup d_long d_short p q error_o : Z) (outbuf : image P)
    : res (image P) :=
  if last <? p then Ok outbuf
  else
    match fuel with
    | O => Err Fuel
    | S fuel =>
        outbuf ← write outbuf p q;
        s2 ← i32 (d_short * 2);
        error_o ← i32 (error_o + s2);
        '(error_o, q) ← (if 0 <? error_o
                         then l2 ← i32 (d_long * 2); e ← i32 (error_o - l2); q ← i32 (q + dup); Ok (e, q)
                         else Ok (error_o, q));
        p ← i32 (p + 1);
        line_loop fuel write last dup d_long d_short p q error_o outbuf
    end.

(** [dup], and the other side without its sign. *)
Definition direction (d : Z) : res (Z * Z) := if d <? 0 then m ← i32 (- d); Ok (-1, m) else Ok (1, d).

(** After the swap. *)
Definition draw_in_order (a b : Pt) (outbuf : image P) : res (image P) :=
  dx ← i32 (Pt_x b - Pt_x a);
  dy ← i32 (Pt_y b - Pt_y a);
  ax ← int_abs dx;
  ay ← int_abs dy;
  if ay <? ax then
    '(dup, dy) ← direction dy;
    n ← int_abs dx;
    error_o ← i32 (- n);
    line_loop (Z.to_nat (Pt_x b - Pt_x a + 1)) img_write_char (Pt_x b) dup dx dy (Pt_x a) (Pt_y a) error_o outbuf
  else
    '(dup, dx) ← direction dx;
    n ← int_abs dy;
    error_o ← i32 (- n);
    line_loop (Z.to_nat (Pt_y b - Pt_y a + 1)) (λ o p q, img_write_char o q p) (Pt_y b) dup dy dx (Pt_y a) (Pt_x a) error_o outbuf.

Definition draw_bresham_line (a b : Pt) (outbuf : image P) : res (image P) :=
  sx ← i32 (Pt_x b - Pt_x a);
  sy ← i32 (Pt_y b - Pt_y a);
  ax ← int_abs sx;
  ay ← int_abs sy;
  let '(a, b) := if (if ay <? ax then Pt_x b <? Pt_x a else Pt_y b <? Pt_y a) then (b, a) else (a, b) in
  draw_in_order a b outbuf.

(** ** Images and points *)

Definition px (img : image P) (x y : Z) : option P := px_data img !! Z.to_nat (x + y * fmt_w img).

Definition in_image (img : image P) (x y : Z) : Prop := 0 ≤ x < fmt_w img ∧ 0 ≤ y < fmt_h img.

(** Its pixels are there, and an [int] can count them. *)
Definition image_ok (img : image P) : Prop :=
  0 ≤ fmt_w img ∧ 0 ≤ fmt_h img ∧ fmt_w img * fmt_h img < 2 ^ 31 ∧ fmt_w img * fmt_h img ≤ Z.of_nat (length (px_data img)).

(** [img'] is [img] with the points of [l] painted. *)
Definition painted (l : list (Z * Z)) (img img' : image P) : Prop :=
  fmt_w img' = fmt_w img ∧ fmt_h img' = fmt_h img ∧ length (px_data img') = length (px_data img) ∧
  (∀ x y, in_image img x y → (x, y) ∈ l → px img' x y = Some color) ∧
  (∀ x y, in_image img x y → (x, y) ∉ l → px img' x y = px img x y).

Lemma painted_ok l img img' : painted l img img' → image_ok img → image_ok img'.
Proof. intros (E1 & E2 & E3 & _). unfold image_ok. by rewrite E1, E2, E3. Qed.

Lemma painted_nil img : painted [] img img.
Proof. split_and!; try done. set_solver. Qed.

Lemma painted_app l1 l2 img img1 img2 : painted l1 img img1 → painted l2 img1 img2 → painted (l1 ++ l2) img img2.
Proof.
  intros (A1 & A2 & A3 & A4 & A5) (B1 & B2 & B3 & B4 & B5).
  assert (Hin : ∀ x y, in_image img x y → in_image img1 x y) by (intros x y; unfold in_image; by rewrite A1, A2).
  split_and!; [congruence|congruence|congruence| |].
  - intros x y Hxy Hl. destruct (decide ((x, y) ∈ l2)) as [H2|H2]; [by apply B4; auto|].
    rewrite (B5 x y) by auto. apply A4; [done|]. set_solver.
  - intros x y Hxy Hl. rewrite (B5 x y), (A5 x y) by (auto; set_solver). done.
Qed.

Lemma in_image_at img x y : image_ok img → in_image img x y → 0 ≤ x + y * fmt_w img < fmt_w img * fmt_h img.
Proof. intros (W & H & _) [Hx Hy]. nia. Qed.

Lemma in_image_inj img x y x' y' : in_image img x y → in_image img x' y' →
  x + y * fmt_w img = x' + y' * fmt_w img → x = x' ∧ y = y'.
Proof. intros [] [] E. assert (y = y') by nia. subst. lia. Qed.

Lemma set_px_painted img x y : image_ok img → in_image img x y → ∃ img', set_px img x y color = Ok img' ∧ painted [(x, y)] img img'.
Proof.
  intros Hi Hin. pose proof (λ x' y', in_image_at img x' y' Hi) as Hat. pose proof (Hat _ _ Hin).
  destruct Hi as (? & ? & ? & ?). unfold set_px.
  destruct ((x <? 0) || (fmt_w img <=? x) || (y <? 0) || (fmt_h img <=? y)) eqn:E2.
  { destruct Hin. rewrite !orb_true_iff, !Z.leb_le, !Z.ltb_lt in E2. lia. }
  pose proof Hin as [? ?]. rewrite (chk_ok 32 (y * fmt_w img)) by (unfold in_signed; nia). rewrite res_bind_Ok.
  rewrite chk_ok by (unfold in_signed; nia). rewrite res_bind_Ok.
  rewrite bool_decide_true by lia. eexists. split; [done|]. unfold painted, px. cbn [fmt_w fmt_h px_data].
  rewrite length_insert. split_and!; try done.
  - intros x' y' _ [= -> ->]%list_elem_of_singleton. apply list_lookup_insert_eq. lia.
  - intros x' y' Hin' Hne. apply list_lookup_insert_ne. intros E3.
    assert (x' = x ∧ y' = y) as [-> ->]; [|set_solver].
    pose proof (Hat x' y' Hin'). apply (in_image_inj img); [done|done|]. lia.
Qed.

Lemma write_painted img x y : image_ok img → ∃ img', img_write_char img x y = Ok img' ∧ painted [(x, y)] img img'.
Proof.
  intros Hi. unfold img_write_char.
  destruct ((0 <=? y) && (y <? fmt_h img) && (0 <=? x) && (x <? fmt_w img)) eqn:E.
  - rewrite !andb_true_iff, !Z.leb_le, !Z.ltb_lt in E. apply set_px_painted; [done|unfold in_image; lia].
  - exists img. split; [done|]. split_and!; try done. intros x' y' Hin [= -> ->]%list_elem_of_singleton.
    destruct Hin. destruct (Z.leb_spec 0 y), (Z.ltb_spec y (fmt_h img)), (Z.leb_spec 0 x), (Z.ltb_spec x (fmt_w img)); done || lia.
Qed.

(** ** Range images *)

Definition run_in_image (img : image P) (y : Z) (r : ImageRange) : Prop := st r < ed r ∧ in_image img (st r) y ∧ in_image img (ed r - 1) y.

Lemma in_image_painted l img img' x y : painted l img img' → in_image img x y → in_image img' x y.
Proof. intros (E1 & E2 & _). unfold in_image. by rewrite E1, E2. Qed.

Lemma draw_span_painted n : ∀ x y img, image_ok img → (n ≠ 0%nat → in_image img x y ∧ in_image img (x + Z.of_nat n - 1) y) →
  ∃ img', draw_span n x y color img = Ok img' ∧ painted ((λ j, (j, y)) <$> seqZ x (Z.of_nat n)) img img'.
Proof.
  induction n as [|n IH]; intros x y img Hi Hin; cbn [draw_span].
  { exists img. split; [done|]. rewrite seqZ_nil by lia. apply painted_nil. }
  destruct Hin as [H1 H2]; [done|]. destruct (set_px_painted img x y Hi H1) as (img1 & E1 & P1). rewrite E1, res_bind_Ok.
  destruct (IH (x + 1) y img1) as (img2 & E2 & P2); [by eapply painted_ok| |].
  { intros Hn. destruct H1, H2. split; eapply in_image_painted; try exact P1; unfold in_image; lia. }
  exists img2. split; [done|]. rewrite seqZ_cons by lia. cbn [fmap list_fmap].
  replace (Z.succ x) with (x + 1) by lia. replace (Z.pred (Z.of_nat (S n))) with (Z.of_nat n) by lia.
  by apply (painted_app [_] _ img img1).
Qed.

Lemma painted_iff l l' img img' : (∀ p, p ∈ l ↔ p ∈ l') → painted l img img' → painted l' img img'.
Proof.
  intros H (A1 & A2 & A3 & A4 & A5). split_and!; try done.
  - intros x y Hxy Hl. apply A4; [done|]. by apply H.
  - intros x y Hxy Hl. apply A5; [done|]. by rewrite H.
Qed.

(** The pixels of the runs of row [y]. *)
Definition row_points (y : Z) (rs : list ImageRange) : list (Z * Z) := rs ≫= λ r, (λ x, (x, y)) <$> seqZ (st r) (ed r - st r).

Lemma draw_run_painted y r img : image_ok img → run_in_image img y r → - 2 ^ 31 < ed r ≤ 2 ^ 31 → ∃ img', draw_run y color (Ok img) r = Ok img' ∧ painted (row_points y [r]) img img'.
Proof.
  intros Hi (Hr & H1 & H2) He. unfold draw_run. rewrite res_bind_Ok.
  destruct (draw_span_painted (Z.to_nat (ed r - st r)) (st r) y img Hi) as (img1 & E1 & P1).
  { intros _. split; [done|]. by replace (st r + Z.of_nat (Z.to_nat (ed r - st r)) - 1) with (ed r - 1) by lia. }
  rewrite Z2Nat.id in P1 by lia. rewrite E1, res_bind_Ok.
  destruct (set_px_painted img1 (st r) y) as (img2 & E2 & P2); [by eapply painted_ok|by eapply in_image_painted|]. rewrite E2, res_bind_Ok.
  pose proof (painted_app _ _ _ _ _ P1 P2) as P12.
  rewrite chk_ok by (unfold in_signed; lia). rewrite res_bind_Ok.
  destruct (set_px_painted img2 (ed r - 1) y) as (img3 & E3 & P3); [by eapply painted_ok|by eapply in_image_painted|].
  exists img3. split; [done|]. eapply painted_iff; [|exact (painted_app _ _ _ _ _ P12 P3)].
  intros [x y']. unfold row_points. cbn. rewrite app_nil_r, !elem_of_app, !list_elem_of_singleton, !list_elem_of_fmap.
  setoid_rewrite elem_of_seqZ. split; [|by eauto].
  intros [[(j & [= -> ->] & ?)|[= -> ->]]|[= -> ->]]; [by eauto|exists (st r)|exists (ed r - 1)]; (split; [done|lia]).
Qed.

Lemma draw_row_painted y rs : ∀ img, image_ok img → Forall (run_in_image img y) rs → Forall (λ r, - 2 ^ 31 < ed r ≤ 2 ^ 31) rs →
  ∃ img', fold_left (draw_run y color) rs (Ok img) = Ok img' ∧ painted (row_points y rs) img img'.
Proof.
  induction rs as [|r rs IH]; intros img Hi HF HB; cbn [fold_left].
  { exists img. split; [done|]. apply painted_nil. }
  apply Forall_cons in HF as [Hr HF]. apply Forall_cons in HB as [Hb HB].
  destruct (draw_run_painted y r img Hi Hr Hb) as (img1 & E1 & P1). rewrite E1.
  destruct (IH img1) as (img2 & E2 & P2); [by eapply painted_ok| |done|].
  { eapply Forall_impl; [exact HF|]. intros r' (? & ? & ?). split_and!; [done|by eapply in_image_painted|by eapply in_image_painted]. }
  exists img2. split; [done|]. pose proof (painted_app _ _ _ _ _ P1 P2) as P3. unfold row_points in *. cbn in *. by rewrite app_nil_r in P3.
Qed.

Fixpoint image_points (y : Z) (rows : list (list ImageRange)) : list (Z * Z) :=
  match rows with [] => [] | rs :: rows => row_points y rs ++ image_points (y + 1) rows end.

(** A range image whose runs are inside of the image is drawn: its pixels are painted and no others. *)
Lemma draw_rows_painted rows : ∀ y img, image_ok img →
  (∀ j rs, rows !! j = Some rs → Forall (run_in_image img (y + Z.of_nat j)) rs ∧ Forall (λ r, - 2 ^ 31 < ed r ≤ 2 ^ 31) rs) →
  ∃ img', draw_rows rows y color img = Ok img' ∧ painted (image_points y rows) img img'.
Proof.
  induction rows as [|rs rows IH]; intros y img Hi HF; cbn [draw_rows].
  { exists img. split; [done|]. apply painted_nil. }
  destruct (HF 0%nat rs eq_refl) as [H1 H2]. rewrite Z.add_0_r in H1.
  destruct (draw_row_painted y rs img Hi H1 H2) as (img1 & E1 & P1). rewrite E1, res_bind_Ok.
  destruct (IH (y + 1) img1) as (img2 & E2 & P2); [by eapply painted_ok| |].
  { intros j rs' Hj. destruct (HF (S j) rs' Hj) as [H3 H4]. split; [|done].
    replace (y + 1 + Z.of_nat j) with (y + Z.of_nat (S j)) by lia.
    eapply Forall_impl; [exact H3|]. intros r' (? & ? & ?). split_and!; [done|by eapply in_image_painted|by eapply in_image_painted]. }
  exists img2. split; [done|]. by apply (painted_app _ _ img img1).
Qed.

(** ** The closest pixel *)

(** [ds * k / dl], rounded to the nearest integer, halves down. *)
Definition nearest (ds dl k : Z) : Z := (2 * ds * k + dl - 1) / (2 * dl).

(** The error the loop keeps after [k] steps. *)
Definition error_at (ds dl k : Z) : Z := - dl + 2 * ds * k - 2 * dl * nearest ds dl k.

Lemma nearest_close ds dl k : 0 < dl → - dl < 2 * (ds * k - dl * nearest ds dl k) ≤ dl.
Proof.
  intros H. unfold nearest. pose proof (Z.div_mod (2 * ds * k + dl - 1) (2 * dl) ltac:(lia)).
  pose proof (Z.mod_pos_bound (2 * ds * k + dl - 1) (2 * dl) ltac:(lia)). nia.
Qed.

Lemma nearest_unique ds dl k m : 0 < dl → - dl < 2 * (ds * k - dl * m) ≤ dl → m = nearest ds dl k.
Proof. intros H Hm. pose proof (nearest_close ds dl k H). nia. Qed.

Lemma nearest_0 ds dl : 0 ≤ dl → nearest ds dl 0 = 0.
Proof.
  intros H. destruct (decide (dl = 0)) as [->|]; [unfold nearest; by rewrite Zdiv_0_r|].
  symmetry. apply nearest_unique; lia.
Qed.

Lemma nearest_all ds dl : 0 ≤ ds ≤ dl → nearest ds dl dl = ds.
Proof.
  intros H. destruct (decide (dl = 0)) as [->|]; [rewrite nearest_0; lia|].
  symmetry. apply nearest_unique; lia.
Qed.

Lemma nearest_range ds dl k : 0 ≤ ds ≤ dl → 0 ≤ k ≤ dl → 0 ≤ nearest ds dl k ≤ ds.
Proof.
  intros H Hk. destruct (decide (dl = 0)) as [->|]; [assert (k = 0) as -> by lia; rewrite nearest_0; lia|].
  pose proof (nearest_close ds dl k ltac:(lia)). nia.
Qed.

Lemma nearest_step ds dl k : 0 < dl → 0 ≤ ds ≤ dl →
  nearest ds dl (k + 1) = nearest ds dl k + (if 0 <? error_at ds dl k + ds * 2 then 1 else 0).
Proof.
  intros H Hs. symmetry. pose proof (nearest_close ds dl k H). unfold error_at. apply nearest_unique; [done|].
  destruct (Z.ltb_spec 0 (- dl + 2 * ds * k - 2 * dl * nearest ds dl k + ds * 2)); lia.
Qed.

Definition on_image_of (f : Z → Z → Z * Z) (write : image P → Z → Z → res (image P)) : Prop :=
  ∀ img p q, image_ok img → ∃ img', write img p q = Ok img' ∧ painted [f p q] img img'.

Definition line_points (f : Z → Z → Z * Z) (p0 q0 dup dl ds k n : Z) : list (Z * Z) :=
  (λ j, f (p0 + j) (q0 + dup * nearest ds dl j)) <$> seqZ k n.

Lemma line_loop_painted f write p0 q0 dup dl ds : on_image_of f write → (dup = 1 ∨ dup = -1) → 0 ≤ ds ≤ dl → dl ≤ 2 ^ 29 →
  Z.abs p0 ≤ 2 ^ 28 → Z.abs q0 ≤ 2 ^ 28 →
  ∀ fuel k img, 0 ≤ k ≤ dl + 1 → (0 < dl ∨ k = 0 ∨ k = 1) → dl + 1 - k ≤ Z.of_nat fuel → image_ok img →
  ∃ img', line_loop fuel write (p0 + dl) dup dl ds (p0 + k) (q0 + dup * nearest ds dl k) (error_at ds dl k) img = Ok img' ∧
    painted (line_points f p0 q0 dup dl ds k (dl + 1 - k)) img img'.
Proof.
  intros Hw Hdup Hs Hl Hp Hq. induction fuel as [|fuel IH]; intros k img Hk Hk0 Hf Hi; cbn [line_loop].
  { destruct (Z.ltb_spec (p0 + dl) (p0 + k)); [|lia]. exists img. split; [done|].
    unfold line_points. rewrite seqZ_nil by lia. apply painted_nil. }
  destruct (Z.ltb_spec (p0 + dl) (p0 + k)).
  { exists img. split; [done|]. unfold line_points. rewrite seqZ_nil by lia. apply painted_nil. }
  destruct (Hw img (p0 + k) (q0 + dup * nearest ds dl k) Hi) as (img1 & E1 & P1). rewrite E1. cbn [mbind res_bind].
  rewrite (chk_ok 32 (ds * 2)) by (unfold in_signed; lia). cbn [mbind res_bind].
  pose proof (nearest_range ds dl k Hs ltac:(lia)) as Hn.
  assert (He : error_at ds dl k = 2 * (ds * k - dl * nearest ds dl k) - dl) by (unfold error_at; lia).
  assert (Hb : - 2 * dl ≤ error_at ds dl k ≤ 0).
  { destruct (decide (dl = 0)) as [->|]; [assert (k = 0) as -> by lia; lia|]. pose proof (nearest_close ds dl k ltac:(lia)). lia. }
  rewrite (chk_ok 32 (_ + ds * 2)) by (unfold in_signed; lia). cbn [mbind res_bind].
  assert (Hstep : nearest ds dl (k + 1) = nearest ds dl k + (if 0 <? error_at ds dl k + ds * 2 then 1 else 0) ∨ dl = 0).
  { destruct (decide (dl = 0)); [by right|left]. apply nearest_step; lia. }
  assert (Hnext : ∀ q e, (0 < dl → q = q0 + dup * nearest ds dl (k + 1) ∧ e = error_at ds dl (k + 1)) →
    ∃ img', (p ← i32 (p0 + k + 1); line_loop fuel write (p0 + dl) dup dl ds p q e img1) = Ok img' ∧
      painted (line_points f p0 q0 dup dl ds k (dl + 1 - k)) img img').
  { intros q e Hqe. rewrite chk_ok by (unfold in_signed; lia). cbn [mbind res_bind].
    unfold line_points. rewrite seqZ_cons by lia. cbn [fmap list_fmap].
    replace (Z.succ k) with (k + 1) by lia. replace (Z.pred (dl + 1 - k)) with (dl + 1 - (k + 1)) by lia.
    destruct (decide (dl = 0)) as [->|Hd].
    - assert (k = 0) as -> by lia. exists img1. split; [|by rewrite seqZ_nil by lia].
      destruct fuel; cbn [line_loop]; (destruct (Z.ltb_spec (p0 + 0) (p0 + 0 + 1)); [done|lia]).
    - destruct Hqe as [-> ->]; [lia|]. destruct (IH (k + 1) img1) as (img' & E' & P'); [lia|lia|lia|by eapply painted_ok|].
      rewrite <-Z.add_assoc. exists img'. split; [done|]. by apply (painted_app [_] _ img img1). }
  destruct (0 <? error_at ds dl k + ds * 2) eqn:E0.
  - apply Z.ltb_lt in E0. rewrite (chk_ok 32 (dl * 2)) by (unfold in_signed; lia). cbn [mbind res_bind].
    rewrite (chk_ok 32 (_ - dl * 2)) by (unfold in_signed; lia). cbn [mbind res_bind].
    rewrite (chk_ok 32 (q0 + dup * nearest ds dl k + dup)) by (unfold in_signed; nia). cbn [mbind res_bind]. apply Hnext. intros Hd. destruct Hstep as [E|]; [|lia].
    split; [rewrite E; lia|]. unfold error_at at 2. rewrite E. unfold error_at. lia.
  - cbn [mbind res_bind]. apply Hnext. intros Hd. destruct Hstep as [E|]; [|lia].
    split; [rewrite E; lia|]. unfold error_at at 2. rewrite E. unfold error_at. lia.
Qed.

(** ** The line *)

(** From left to right, or from top to bottom if it is steep. *)
Definition ordered (a b : Pt) : Pt * Pt :=
  if (if Z.abs (Pt_y b - Pt_y a) <? Z.abs (Pt_x b - Pt_x a) then Pt_x b <? Pt_x a else Pt_y b <? Pt_y a) then (b, a) else (a, b).

Definition along (a b : Pt) (x y : Z) : bool :=
  let dx := Pt_x b - Pt_x a in
  let dy := Pt_y b - Pt_y a in
  if Z.abs dy <? Z.abs dx
  then (Pt_x a <=? x) && (x <=? Pt_x b) && (y =? Pt_y a + Z.sgn dy * nearest (Z.abs dy) dx (x - Pt_x a))
  else (Pt_y a <=? y) && (y <=? Pt_y b) && (x =? Pt_x a + Z.sgn dx * nearest (Z.abs dx) dy (y - Pt_y a)).

(** The pixel of each column (of each row, if it is steep) that is closest to the line. *)
Definition on_line (a b : Pt) (x y : Z) : bool := let '(a, b) := ordered a b in along a b x y.

Definition small_pt (a : Pt) : Prop := Z.abs (Pt_x a) ≤ 2 ^ 28 ∧ Z.abs (Pt_y a) ≤ 2 ^ 28.

Lemma ordered_sym a b : ordered a b = ordered b a.
Proof.
  destruct a as [ax ay], b as [bx b_y]. unfold ordered. cbn [Pt_x Pt_y].
  destruct (Z.ltb_spec (Z.abs (b_y - ay)) (Z.abs (bx - ax))), (Z.ltb_spec (Z.abs (ay - b_y)) (Z.abs (ax - bx))); try lia.
  - destruct (Z.ltb_spec bx ax), (Z.ltb_spec ax bx); done || lia.
  - destruct (Z.ltb_spec b_y ay), (Z.ltb_spec ay b_y); try done; try lia.
    assert (b_y = ay) as -> by lia. assert (bx = ax) as -> by lia. done.
Qed.

(** The two that are in order, whichever came first. *)
Lemma ordered_cases a b (Q : Pt * Pt → Prop) :
  (Z.abs (Pt_y b - Pt_y a) < Z.abs (Pt_x b - Pt_x a) ∧ Pt_x a ≤ Pt_x b ∨ Z.abs (Pt_x b - Pt_x a) ≤ Z.abs (Pt_y b - Pt_y a) ∧ Pt_y a ≤ Pt_y b → Q (a, b)) →
  (Z.abs (Pt_y a - Pt_y b) < Z.abs (Pt_x a - Pt_x b) ∧ Pt_x b ≤ Pt_x a ∨ Z.abs (Pt_x a - Pt_x b) ≤ Z.abs (Pt_y a - Pt_y b) ∧ Pt_y b ≤ Pt_y a → Q (b, a)) →
  Q (ordered a b).
Proof.
  intros H1 H2. unfold ordered. destruct (Z.ltb_spec (Z.abs (Pt_y b - Pt_y a)) (Z.abs (Pt_x b - Pt_x a))).
  - destruct (Z.ltb_spec (Pt_x b) (Pt_x a)); [apply H2|apply H1]; lia.
  - destruct (Z.ltb_spec (Pt_y b) (Pt_y a)); [apply H2|apply H1]; lia.
Qed.

Lemma direction_ok d : Z.abs d ≤ 2 ^ 30 → direction d = Ok (if d <? 0 then -1 else 1, Z.abs d).
Proof.
  intros H. unfold direction. destruct (Z.ltb_spec d 0).
  - rewrite chk_ok by (unfold in_signed; lia). cbn. do 2 f_equal. lia.
  - do 2 f_equal. lia.
Qed.

Lemma sgn_nearest d dl k : 0 < dl → (if d <? 0 then -1 else 1) * nearest (Z.abs d) dl k = Z.sgn d * nearest (Z.abs d) dl k.
Proof.
  intros Hd. destruct (Z.ltb_spec d 0); [lia|]. destruct (decide (d = 0)) as [->|]; [|lia].
  rewrite <-(nearest_unique (Z.abs 0) dl k 0) by lia. lia.
Qed.

Lemma int_abs_ok d : Z.abs d ≤ 2 ^ 30 → int_abs d = Ok (Z.abs d).
Proof. intros. apply chk_ok. unfold in_signed. lia. Qed.

(** The loop of each branch, from its start. *)
Lemma line_painted f write p0 q0 d dl img : on_image_of f write → Z.abs d ≤ dl → dl ≤ 2 ^ 29 →
  Z.abs p0 ≤ 2 ^ 28 → Z.abs q0 ≤ 2 ^ 28 → image_ok img →
  ∃ img', ('(dup, ds) ← direction d; n ← int_abs dl; e ← i32 (- n);
      line_loop (Z.to_nat (dl + 1)) write (p0 + dl) dup dl ds p0 q0 e img) = Ok img' ∧
    painted (line_points f p0 q0 (if d <? 0 then -1 else 1) dl (Z.abs d) 0 (dl + 1)) img img'.
Proof.
  intros Hw Hd Hl Hp Hq Hi. rewrite direction_ok by lia. cbn [mbind res_bind].
  rewrite int_abs_ok by lia. cbn [mbind res_bind]. rewrite (chk_ok 32 (- Z.abs dl)) by (unfold in_signed; lia). cbn [mbind res_bind].
  destruct (line_loop_painted f write p0 q0 (if d <? 0 then -1 else 1) dl (Z.abs d) Hw) with (fuel := Z.to_nat (dl + 1)) (k := 0) (img := img)
    as (img' & E & Pt'); [destruct (d <? 0); lia|lia|lia|lia|lia|lia|lia|lia|done|].
  rewrite nearest_0, Z.mul_0_r, !Z.add_0_r in E by lia. replace (error_at (Z.abs d) dl 0) with (- Z.abs dl) in E by (unfold error_at; rewrite nearest_0; lia).
  exists img'. rewrite E. split; [done|]. by rewrite Z.sub_0_r in Pt'.
Qed.

Lemma line_points_along a b x y : Z.abs (Pt_y b - Pt_y a) < Z.abs (Pt_x b - Pt_x a) → Pt_x a ≤ Pt_x b →
  (x, y) ∈ line_points pair (Pt_x a) (Pt_y a) (if Pt_y b - Pt_y a <? 0 then -1 else 1) (Pt_x b - Pt_x a) (Z.abs (Pt_y b - Pt_y a)) 0 (Pt_x b - Pt_x a + 1) ↔
  along a b x y = true.
Proof.
  intros Hs Hab. unfold line_points, along. destruct (Z.ltb_spec (Z.abs (Pt_y b - Pt_y a)) (Z.abs (Pt_x b - Pt_x a))); [|lia].
  rewrite list_elem_of_fmap, !andb_true_iff, !Z.leb_le, Z.eqb_eq. setoid_rewrite elem_of_seqZ. split.
  - intros (j & [= -> ->] & Hj). rewrite Z.add_simpl_l. rewrite sgn_nearest by lia. lia.
  - intros [[? ?] ->]. exists (x - Pt_x a). rewrite sgn_nearest by lia. split; [f_equal; lia|lia].
Qed.

Lemma line_points_along_steep a b x y : Z.abs (Pt_x b - Pt_x a) ≤ Z.abs (Pt_y b - Pt_y a) → Pt_y a ≤ Pt_y b →
  (x, y) ∈ line_points (flip pair) (Pt_y a) (Pt_x a) (if Pt_x b - Pt_x a <? 0 then -1 else 1) (Pt_y b - Pt_y a) (Z.abs (Pt_x b - Pt_x a)) 0 (Pt_y b - Pt_y a + 1) ↔
  along a b x y = true.
Proof.
  intros Hs Hab. unfold line_points, along. destruct (Z.ltb_spec (Z.abs (Pt_y b - Pt_y a)) (Z.abs (Pt_x b - Pt_x a))); [lia|].
  rewrite list_elem_of_fmap, !andb_true_iff, !Z.leb_le, Z.eqb_eq. setoid_rewrite elem_of_seqZ.
  destruct (decide (Pt_y b = Pt_y a)) as [E|].
  { assert (Pt_x b - Pt_x a = 0) as -> by lia. replace (Pt_y b - Pt_y a) with 0 by lia. cbn. split.
    - intros (j & [= -> ->] & Hj). assert (j = 0) as -> by lia. rewrite nearest_0 by lia. lia.
    - intros [[? ?] ->]. exists 0. rewrite nearest_0 by lia. unfold flip. split; [f_equal; lia|lia]. }
  unfold flip. split.
  - intros (j & [= -> ->] & Hj). rewrite Z.add_simpl_l. rewrite sgn_nearest by lia. lia.
  - intros [[? ?] ->]. exists (y - Pt_y a). rewrite sgn_nearest by lia. split; [f_equal; lia|lia].
Qed.

(** Both ends are on it, and no pixel is more than half a pixel away, in its column or row. *)
Lemma along_close a b x y : Z.abs (Pt_y b - Pt_y a) < Z.abs (Pt_x b - Pt_x a) ∧ Pt_x a ≤ Pt_x b ∨ Z.abs (Pt_x b - Pt_x a) ≤ Z.abs (Pt_y b - Pt_y a) ∧ Pt_y a ≤ Pt_y b →
  along a b x y = true →
  2 * Z.abs ((Pt_x b - Pt_x a) * (y - Pt_y a) - (Pt_y b - Pt_y a) * (x - Pt_x a)) ≤ Z.max (Z.abs (Pt_x b - Pt_x a)) (Z.abs (Pt_y b - Pt_y a)).
Proof.
  intros Hs. unfold along. set (dx := Pt_x b - Pt_x a) in *. set (dy := Pt_y b - Pt_y a) in *.
  destruct (Z.ltb_spec (Z.abs dy) (Z.abs dx)); rewrite !andb_true_iff, !Z.leb_le, Z.eqb_eq; intros [[? ?] ->].
  - rewrite Z.add_simpl_l. pose proof (nearest_close (Z.abs dy) dx (x - Pt_x a) ltac:(lia)). nia.
  - rewrite Z.add_simpl_l. destruct (decide (dy = 0)) as [E|]; [nia|].
    pose proof (nearest_close (Z.abs dx) dy (y - Pt_y a) ltac:(lia)). nia.
Qed.

Lemma along_ends a b : Z.abs (Pt_y b - Pt_y a) < Z.abs (Pt_x b - Pt_x a) ∧ Pt_x a ≤ Pt_x b ∨ Z.abs (Pt_x b - Pt_x a) ≤ Z.abs (Pt_y b - Pt_y a) ∧ Pt_y a ≤ Pt_y b →
  along a b (Pt_x a) (Pt_y a) = true ∧ along a b (Pt_x b) (Pt_y b) = true.
Proof.
  intros Hs. unfold along. set (dx := Pt_x b - Pt_x a) in *. set (dy := Pt_y b - Pt_y a) in *.
  destruct (Z.ltb_spec (Z.abs dy) (Z.abs dx)); rewrite !andb_true_iff, !Z.leb_le, !Z.eqb_eq, !Z.sub_diag, !nearest_0 by lia.
  - rewrite (nearest_all (Z.abs dy) dx) by lia. lia.
  - rewrite (nearest_all (Z.abs dx) dy) by lia. lia.
Qed.

Lemma draw_ordered a b img : small_pt a → small_pt b →
  draw_bresham_line a b img = let '(a, b) := ordered a b in draw_in_order a b img.
Proof.
  intros [Ha1 Ha2] [Hb1 Hb2]. unfold draw_bresham_line.
  rewrite (chk_ok 32 (Pt_x b - Pt_x a)) by (unfold in_signed; lia). cbn [mbind res_bind].
  rewrite (chk_ok 32 (Pt_y b - Pt_y a)) by (unfold in_signed; lia). cbn [mbind res_bind].
  rewrite (int_abs_ok (Pt_x b - Pt_x a)) by lia. cbn [mbind res_bind]. by rewrite (int_abs_ok (Pt_y b - Pt_y a)) by lia.
Qed.

Lemma draw_along a b img : small_pt a → small_pt b → image_ok img →
  Z.abs (Pt_y b - Pt_y a) < Z.abs (Pt_x b - Pt_x a) ∧ Pt_x a ≤ Pt_x b ∨ Z.abs (Pt_x b - Pt_x a) ≤ Z.abs (Pt_y b - Pt_y a) ∧ Pt_y a ≤ Pt_y b →
  ∃ img' l, draw_in_order a b img = Ok img' ∧ painted l img img' ∧ ∀ x y, (x, y) ∈ l ↔ along a b x y = true.
Proof.
  intros [Ha1 Ha2] [Hb1 Hb2] Hi Hs. unfold draw_in_order.
  rewrite (chk_ok 32 (Pt_x b - Pt_x a)) by (unfold in_signed; lia). cbn [mbind res_bind].
  rewrite (chk_ok 32 (Pt_y b - Pt_y a)) by (unfold in_signed; lia). cbn [mbind res_bind].
  rewrite (int_abs_ok (Pt_x b - Pt_x a)) by lia. cbn [mbind res_bind]. rewrite (int_abs_ok (Pt_y b - Pt_y a)) by lia. cbn [mbind res_bind].
  destruct (Z.ltb_spec (Z.abs (Pt_y b - Pt_y a)) (Z.abs (Pt_x b - Pt_x a))).
  - destruct (line_painted pair img_write_char (Pt_x a) (Pt_y a) (Pt_y b - Pt_y a) (Pt_x b - Pt_x a) img) as (img' & E & Hp);
      [intros i p q; apply write_painted|lia|lia|lia|lia|done|].
    replace (Pt_x a + (Pt_x b - Pt_x a)) with (Pt_x b) in E by lia. rewrite int_abs_ok in E by lia.
    eexists _, _. split_and!; [exact E|exact Hp|]. intros x y. apply line_points_along; lia.
  - destruct (line_painted (flip pair) (λ o p q, img_write_char o q p) (Pt_y a) (Pt_x a) (Pt_x b - Pt_x a) (Pt_y b - Pt_y a) img) as (img' & E & Hp);
      [intros i p q; apply write_painted|lia|lia|lia|lia|done|].
    replace (Pt_y a + (Pt_y b - Pt_y a)) with (Pt_y b) in E by lia. rewrite int_abs_ok in E by lia.
    eexists _, _. split_and!; [exact E|exact Hp|]. intros x y. apply line_points_along_steep; lia.
Qed.

(** The line between two points whose coordinates are at most 2^28: [draw_bresham_line]
    returns, paints exactly the pixels of [on_line] that are in the image and leaves all
    others, whichever end comes first.  These include both ends, and each is at most half a
    pixel from the true line, measured along its column (its row if the line is steep). *)
Theorem bresenham_exact a b img : small_pt a → small_pt b → image_ok img →
  ∃ img', draw_bresham_line a b img = Ok img' ∧ draw_bresham_line b a img = Ok img' ∧
    fmt_w img' = fmt_w img ∧ fmt_h img' = fmt_h img ∧ length (px_data img') = length (px_data img) ∧
    (∀ x y, in_image img x y → px img' x y = if on_line a b x y then Some color else px img x y) ∧
    on_line a b (Pt_x a) (Pt_y a) = true ∧ on_line a b (Pt_x b) (Pt_y b) = true ∧
    (∀ x y, on_line a b x y = true →
      2 * Z.abs ((Pt_x b - Pt_x a) * (y - Pt_y a) - (Pt_y b - Pt_y a) * (x - Pt_x a)) ≤ Z.max (Z.abs (Pt_x b - Pt_x a)) (Z.abs (Pt_y b - Pt_y a))).
Proof.
  intros Ha Hb Hi. rewrite (draw_ordered a b), (draw_ordered b a), (ordered_sym b a) by done. unfold on_line.
  apply ordered_cases; intros Hs.
  - destruct (draw_along a b img Ha Hb Hi Hs) as (img' & l & E & (A1 & A2 & A3 & A4 & A5) & L). destruct (along_ends a b Hs).
    exists img'. split_and!; try done; [|intros x y; by apply along_close].
    intros x y Hxy. destruct (along a b x y) eqn:Ea; [apply A4; [done|by apply L]|apply A5; [done|]]. rewrite L. congruence.
  - destruct (draw_along b a img Hb Ha Hi Hs) as (img' & l & E & (A1 & A2 & A3 & A4 & A5) & L). destruct (along_ends b a Hs).
    exists img'. split_and!; try done.
    + intros x y Hxy. destruct (along b a x y) eqn:Ea; [apply A4; [done|by apply L]|apply A5; [done|]]. rewrite L. congruence.
    + intros x y Hl. pose proof (along_close b a x y Hs Hl).
      replace ((Pt_x b - Pt_x a) * (y - Pt_y a) - (Pt_y b - Pt_y a) * (x - Pt_x a)) with
        (- ((Pt_x a - Pt_x b) * (y - Pt_y b) - (Pt_y a - Pt_y b) * (x - Pt_x b))) by ring. lia.
Qed.
End Draw.

(** A line over an image of five by three pixels, one of its ends outside. *)
Lemma bresenham_exact_witness : ∃ img', draw_bresham_line 1 (mkPt 4 2) (mkPt (-1) 0) (mkImg 5 3 (replicate 15 0)) = Ok img' ∧
  px_data img' = [1; 0; 0; 0; 0;  0; 1; 1; 0; 0;  0; 0; 0; 1; 1].
Proof.
  destruct (bresenham_exact 1 (mkPt 4 2) (mkPt (-1) 0) (mkImg 5 3 (replicate 15 0))) as (img' & E & _).
  - split; cbn; lia.
  - split; cbn; lia.
  - split_and!; cbn; lia.
  - exists img'. split; [exact E|]. vm_compute in E. injection E as <-. reflexivity.
Defined.
