(* ===== verification/Contour.v ===== *)
(** * Contours: aos/vision/region_alloc.h, aos/vision/blob/contour.h and contour.cc

    [range_img_to_obj] walks around a blob: it makes one node per pixel of the outline,
    linked by [next].  Nodes live in the blocks of an [AnalysisAllocator], whose memory is
    used again after a [reset]. *)

From S2P Require Import Prelude Double RangeImage FindBlob.

(** ** AnalysisAllocator *)

(** An address is the number of its block times [block_size], plus the offset in it. *)
Record ContourNode := mkNode { pt_x : Z; pt_y : Z; next : Z }.

(** [n_blocks] is [memory.size()]. *)
Record AnalysisAllocator := mkAllocator { n_blocks : Z; next_free : Z; used_size : Z; nodes : gmap Z ContourNode }.

Definition block_size : Z := 4096.

Notation MC := (ST AnalysisAllocator).

Definition set_alloc (n f u : Z) (a : AnalysisAllocator) : AnalysisAllocator := mkAllocator n f u (nodes a).

Definition arena_reset : MC unit := st_modify (λ a, set_alloc (n_blocks a) 0 0 a).

(** [while (ptr == NULL)] *)
Fixpoint find_space (fuel : nat) (size align : Z) : MC Z :=
  match fuel with
  | O => st_stop Fuel
  | S fuel =>
      a ← st_get;
      if n_blocks a <=? next_free a then
        if 1024 <=? next_free a then st_stop Abort
        else _ ← st_modify (set_alloc (n_blocks a + 1) (next_free a) (used_size a)); find_space fuel size align
      else if negb (used_size a mod align =? 0) then
        _ ← st_modify (set_alloc (n_blocks a) (next_free a) (used_size a + (align - used_size a mod align)));
        find_space fuel size align
      else if used_size a + size <=? block_size then
        _ ← st_modify (set_alloc (n_blocks a) (next_free a) (used_size a + size));
        mret (next_free a * block_size + used_size a)
      else
        _ ← st_modify (set_alloc (n_blocks a) (next_free a + 1) 0);
        find_space fuel size align
  end.

(** [cons_obj<T>] before the constructor runs.  It goes round at most five times. *)
Definition cons_space (size align : Z) : MC Z :=
  if block_size <? size + align then st_stop Abort else find_space 6 size align.

(** Two [int]s and a pointer. *)
Definition sizeof_ContourNode : Z := 16.
Definition alignof_ContourNode : Z := 8.

Definition store_node (p : Z) (n : ContourNode) : MC unit :=
  st_modify (λ a, mkAllocator (n_blocks a) (next_free a) (used_size a) (<[p := n]> (nodes a))).
Definition load_node (p : Z) : MC ContourNode := a ← st_get; st_lift (of_option Undefined (nodes a !! p)).

(** The constructors with two and with three arguments. *)
Definition cons_node (x y : Z) : MC Z :=
  p ← cons_space sizeof_ContourNode alignof_ContourNode;
  _ ← store_node p (mkNode x y p);
  mret p.
Definition cons_node_to (x y n : Z) : MC Z :=
  p ← cons_space sizeof_ContourNode alignof_ContourNode;
  _ ← store_node p (mkNode x y n);
  mret p.

(** [p->next = n] *)
Definition set_next (p n : Z) : MC unit := v ← load_node p; store_node p (mkNode (pt_x v) (pt_y v) n).

Definition append (p x y : Z) : MC Z := n ← cons_node x y; _ ← set_next p n; mret n.
Definition pappend (p x y : Z) : MC Z := cons_node_to x y p.

(** ** Pieces of an outline *)

Record HalfContour := mkHalf { half_st : Z; half_ed : Z }.

(** [while (go(p->pt.x)) p = add(p, p->pt.x + dx, p->pt.y)] *)
Fixpoint walk (fuel : nat) (go : Z → bool) (dx : Z) (add : Z → Z → Z → MC Z) (p : Z) : MC Z :=
  v ← load_node p;
  if go (pt_x v) then
    match fuel with
    | O => st_stop Fuel
    | S fuel => x ← st_lift (i32 (pt_x v + dx)); p ← add p x (pt_y v); walk fuel go dx add p
    end
  else mret p.

(** To the column [x], from the left and from the right; the distance is fuel enough. *)
Definition walk_right (add : Z → Z → Z → MC Z) (p x : Z) : MC Z :=
  v ← load_node p; walk (Z.to_nat (x - pt_x v)) (λ c, c <? x) 1 add p.
Definition walk_left (add : Z → Z → Z → MC Z) (p x : Z) : MC Z :=
  v ← load_node p; walk (Z.to_nat (pt_x v - x)) (λ c, x <? c) (-1) add p.

(** [for (x = ...; x < edi; x++)], [n] times *)
Fixpoint fwd_loop (n : nat) (x i : Z) (ed : Z) : MC Z :=
  match n with
  | O => mret ed
  | S n => ed ← cons_node_to x i ed; fwd_loop n (x + 1) i ed
  end.

Definition fwd_range (i sti edi : Z) : MC HalfContour :=
  st ← cons_node sti i;
  _ ← set_next st st;
  ed ← fwd_loop (Z.to_nat (edi - (sti + 1))) (sti + 1) i st;
  mret (mkHalf st ed).

Definition close_range (hc : HalfContour) : MC unit :=
  let p_end := half_ed hc in
  e ← load_node p_end;
  lim ← st_lift (i32 (pt_x e - 1));
  p_cur ← walk_right append (half_st hc) lim;
  c ← load_node p_cur;
  e ← load_node p_end;
  if pt_x e =? pt_x c then set_next p_cur (next e) else set_next p_cur p_end.

Definition down (add : Z → Z → Z → MC Z) (p : Z) : MC Z :=
  v ← load_node p; y ← st_lift (i32 (pt_y v + 1)); add p (pt_x v) y.

Definition extend_start (pst cst : Z) : MC Z :=
  pst ← walk_right append pst cst;
  pst ← down append pst;
  walk_left append pst cst.

Definition extend_end (pst cst : Z) : MC Z :=
  pst ← walk_left pappend pst cst;
  pst ← down pappend pst;
  walk_right pappend pst cst.

Definition cap_range (pst est : Z) : MC unit :=
  est ← down append est;
  v ← load_node pst;
  est ← walk_left append est (pt_x v);
  set_next est pst.

Fixpoint cavity_loop (n : nat) (x i : Z) (ed : Z) : MC Z :=
  match n with
  | O => mret ed
  | S n => ed ← append ed x i; cavity_loop n (x + 1) i ed
  end.

Definition make_cavity (i sti edi : Z) : MC HalfContour :=
  st ← cons_node sti i;
  ed ← cavity_loop (Z.to_nat (edi - (sti + 1))) (sti + 1) i st;
  mret (mkHalf st ed).

(** ** The whole outline *)

Definition nth_half (l : list HalfContour) (i : nat) : MC HalfContour := st_lift (of_option Undefined (l !! i)).

(** [m + 1 < size and limit >= ranges[m + 1].st] *)
Definition reached (limit : Z) (r : option ImageRange) : option ImageRange :=
  match r with Some r => if st r <=? limit then Some r else None | None => None end.

Section Rows.
Context (i : Z) (pranges cranges : list ImageRange) (plst : list HalfContour).

(** [while (true)]: runs of this row and of the one before that touch each other. *)
Fixpoint join_loop (fuel : nat) (mp mc : nat) (rprev rcur : ImageRange) (within_pb within_ca : Z) (clst : list HalfContour)
    : MC (nat * nat * list HalfContour) :=
  match fuel with
  | O => st_stop Fuel
  | S fuel =>
      lc ← st_lift (range_last rcur);
      match reached lc (pranges !! S mp) with
      | Some rp =>
          hp ← nth_half plst (S mp);
          _ ← cap_range within_pb (half_st hp);
          join_loop fuel (S mp) mc rp rcur (half_ed hp) within_ca clst
      | None =>
          lp ← st_lift (range_last rprev);
          match reached lp (cranges !! S mc) with
          | Some rc =>
              cav_t ← make_cavity i lc (st rc);
              join_loop fuel mp (S mc) rprev rc within_pb (half_ed cav_t) (clst ++ [mkHalf within_ca (half_st cav_t)])
          | None =>
              within_pb ← extend_end within_pb lc;
              mret (S mp, S mc, clst ++ [mkHalf within_ca within_pb])
          end
      end
  end.

(** [while (mp < pranges.size() && mc < cranges.size())] *)
Fixpoint row_loop (fuel : nat) (mp mc : nat) (clst : list HalfContour) : MC (nat * nat * list HalfContour) :=
  match pranges !! mp, cranges !! mc with
  | Some rprev, Some rcur =>
      match fuel with
      | O => st_stop Fuel
      | S fuel =>
          lc ← st_lift (range_last rcur);
          if lc <? st rprev then
            h ← fwd_range i (st rcur) (ed rcur);
            row_loop fuel mp (S mc) (clst ++ [h])
          else
            lp ← st_lift (range_last rprev);
            hp ← nth_half plst mp;
            if lp <? st rcur then
              _ ← close_range hp;
              row_loop fuel (S mp) mc clst
            else
              within_ca ← extend_start (half_st hp) (st rcur);
              '(mp, mc, clst) ← join_loop (S fuel) mp mc rprev rcur (half_ed hp) within_ca clst;
              row_loop fuel mp mc clst
      end
  | _, _ => mret (mp, mc, clst)
  end.

(** The runs that are left over. *)
Fixpoint open_all (rs : list ImageRange) (clst : list HalfContour) : MC (list HalfContour) :=
  match rs with [] => mret clst | r :: rs => h ← fwd_range i (st r) (ed r); open_all rs (clst ++ [h]) end.
End Rows.

Fixpoint close_all (l : list HalfContour) : MC unit :=
  match l with [] => mret tt | h :: l => _ ← close_range h; close_all l end.

(** One turn of the loop over the rows. *)
Definition contour_row (i : Z) (pranges cranges : list ImageRange) (plst : list HalfContour) : MC (list HalfContour) :=
  '(mp, mc, clst) ← row_loop i pranges cranges plst (length pranges + length cranges) 0 0 [];
  clst ← open_all i (drop mc cranges) clst;
  _ ← close_all (drop mp plst);
  mret clst.

Fixpoint contour_rows (i : Z) (prev : list ImageRange) (rows : list (list ImageRange)) (plst : list HalfContour) : MC (list HalfContour) :=
  match rows with
  | [] => mret plst
  | row :: rows =>
      clst ← contour_row i prev row plst;
      i' ← st_lift (i32 (i + 1));
      contour_rows i' row rows clst
  end.

Definition range_img_to_obj (rimg : RangeImage) : MC Z :=
  _ ← arena_reset;
  match ranges rimg with
  | [] => st_stop Undefined
  | first :: rows =>
      plst ← open_all (mini rimg) first [];
      i ← st_lift (i32 (mini rimg + 1));
      plst ← contour_rows i first rows plst;
      _ ← close_all plst;
      h ← nth_half plst 0;
      mret (half_st h)
  end.

Definition new_allocator : AnalysisAllocator := mkAllocator 0 0 0 ∅.

(** The points of the contour from [p], for up to [n] nodes. *)
Fixpoint contour_points (n : nat) (a : AnalysisAllocator) (p : Z) : list (Z * Z) :=
  match n with
  | O => []
  | S n => match nodes a !! p with Some v => (pt_x v, pt_y v) :: contour_points n a (next v) | None => [] end
  end.

(** ** The allocator hands out one node after the other *)

Definition max_nodes : Z := 262144.

Record arena_ok (k : Z) (a : AnalysisAllocator) : Prop := {
  ao_blocks : 0 ≤ next_free a ≤ n_blocks a;
  ao_limit : n_blocks a ≤ 1024;
  ao_used : 0 ≤ used_size a ≤ block_size;
  ao_aligned : used_size a mod 16 = 0;
  ao_place : next_free a * block_size + used_size a = 16 * k }.

Lemma find_space_grow fuel a Q : n_blocks a ≤ next_free a < 1024 →
  wp (find_space fuel 16 8) Q (set_alloc (n_blocks a + 1) (next_free a) (used_size a) a) → wp (find_space (S fuel) 16 8) Q a.
Proof.
  intros H HQ. cbn [find_space]. apply wp_bind, wp_get. rewrite (proj2 (Z.leb_le _ _)), (proj2 (Z.leb_gt _ _)) by lia.
  by apply wp_bind, wp_modify.
Qed.

Lemma find_space_next fuel a Q : next_free a < n_blocks a → used_size a = block_size →
  wp (find_space fuel 16 8) Q (set_alloc (n_blocks a) (next_free a + 1) 0 a) → wp (find_space (S fuel) 16 8) Q a.
Proof.
  intros H Hu HQ. cbn [find_space]. apply wp_bind, wp_get. rewrite (proj2 (Z.leb_gt _ _)), Hu by lia.
  change (negb (block_size mod 8 =? 0)) with false. rewrite (proj2 (Z.leb_gt _ _)) by (unfold block_size; lia).
  by apply wp_bind, wp_modify.
Qed.

Lemma find_space_done fuel a Q : next_free a < n_blocks a → used_size a mod 16 = 0 → used_size a + 16 ≤ block_size →
  Q (next_free a * block_size + used_size a) (set_alloc (n_blocks a) (next_free a) (used_size a + 16) a) → wp (find_space (S fuel) 16 8) Q a.
Proof.
  intros H Hm Hu HQ. cbn [find_space]. apply wp_bind, wp_get. rewrite (proj2 (Z.leb_gt _ _)) by lia.
  assert (used_size a mod 8 = 0) as ->.
  { apply Z.mod_divide in Hm as [q ->]; [|lia]. replace (q * 16) with ((q * 2) * 8) by lia. apply Z.mod_mul. lia. }
  cbn [Z.eqb negb]. rewrite (proj2 (Z.leb_le _ _)) by lia. by apply wp_bind, wp_modify, wp_ret.
Qed.

Lemma wp_cons_space k a (Q : Z → AnalysisAllocator → Prop) : arena_ok k a → 0 ≤ k < max_nodes →
  (∀ a', arena_ok (k + 1) a' → nodes a' = nodes a → Q (16 * k) a') → wp (cons_space sizeof_ContourNode alignof_ContourNode) Q a.
Proof.
  intros [Hb Hl Hu Hm Hp] Hk HQ. unfold cons_space. change (block_size <? sizeof_ContourNode + alignof_ContourNode) with false. cbn iota.
  change sizeof_ContourNode with 16. change alignof_ContourNode with 8. unfold max_nodes, block_size in *.
  assert (Hdone : ∀ fuel a', next_free a' < n_blocks a' → n_blocks a' ≤ 1024 → 0 ≤ next_free a' → 0 ≤ used_size a' → used_size a' mod 16 = 0 →
    used_size a' + 16 ≤ 4096 → next_free a' * 4096 + used_size a' = 16 * k → nodes a' = nodes a → wp (find_space (S fuel) 16 8) Q a').
  { intros fuel a' ? ? ? ? Hm' ? E ?. apply find_space_done; [done|done|unfold block_size; lia|].
    unfold block_size. rewrite E. apply HQ; [|done]. split; cbn; unfold block_size; try lia.
    rewrite Z.add_mod, Hm' by lia. done. }
  assert (used_size a = 4096 ∨ used_size a + 16 ≤ 4096) as Hfit.
  { apply Z.mod_divide in Hm as [q Eq]; [|lia]. lia. }
  assert (Hnext : ∀ fuel a', next_free a' < n_blocks a' → n_blocks a' ≤ 1024 → used_size a' = 4096 → next_free a' = next_free a →
    used_size a = 4096 → nodes a' = nodes a → wp (find_space (S (S (S fuel))) 16 8) Q a').
  { intros fuel a' ? ? ? E ? ?. apply find_space_next; [done|done|]. cbn [next_free n_blocks set_alloc used_size].
    destruct (decide (n_blocks a' = next_free a' + 1)).
    - apply find_space_grow; cbn; [lia|]. apply Hdone; cbn; try lia; done.
    - apply Hdone; cbn; try lia; done. }
  destruct (decide (n_blocks a = next_free a)) as [Eb|Eb].
  - apply find_space_grow; [lia|]. destruct Hfit as [E|E]; [apply Hnext; cbn; try lia; done|apply Hdone; cbn; try lia; done].
  - destruct Hfit as [E|E]; [apply Hnext; try lia; done|apply Hdone; try lia; done].
Qed.

(** ** Paths and cycles of nodes *)

Abbreviation heap := (gmap Z ContourNode).

Definition near (v v' : ContourNode) : Prop := Z.abs (pt_x v - pt_x v') ≤ 1 ∧ Z.abs (pt_y v - pt_y v') ≤ 1.

Definition link (h : heap) (a b : Z) : Prop := ∃ v v', h !! a = Some v ∧ h !! b = Some v' ∧ next v = b ∧ near v v'.

Fixpoint linked (h : heap) (l : list Z) : Prop :=
  match l with a :: l' => match l' with b :: _ => link h a b ∧ linked h l' | [] => True end | [] => True end.

(** The last node of a path points to itself. *)
Definition path (h : heap) (l : list Z) : Prop :=
  linked h l ∧ ∃ z v, last l = Some z ∧ h !! z = Some v ∧ next v = z.

Definition cycle (h : heap) (l : list Z) : Prop :=
  linked h l ∧ ∃ a z, head l = Some a ∧ last l = Some z ∧ link h z a.

Definition at_pt (h : heap) (p x y : Z) : Prop := ∃ n, h !! p = Some (mkNode x y n).

(** The first [k] nodes stay where they are. *)
Definition same_pts (k : Z) (h h' : heap) : Prop := ∀ p x y, p < 16 * k → at_pt h p x y → at_pt h' p x y.

Lemma same_pts_refl k h : same_pts k h h.
Proof. by intros p x y. Qed.

Lemma same_pts_trans k k' h1 h2 h3 : k ≤ k' → same_pts k h1 h2 → same_pts k' h2 h3 → same_pts k h1 h3.
Proof. intros Hk A B p x y Hp H. apply B; [lia|]. by apply A. Qed.

Lemma same_pts_node k h h' p v : same_pts k h h' → p < 16 * k → h !! p = Some v → ∃ v', h' !! p = Some v' ∧ pt_x v' = pt_x v ∧ pt_y v' = pt_y v.
Proof. intros HS Hp Hv. destruct v as [x y n]. destruct (HS p x y Hp) as [n' E]; [by exists n|]. eexists. split; [done|]. done. Qed.

Lemma at_pt_fun h p x y x' y' : at_pt h p x y → at_pt h p x' y' → x = x' ∧ y = y'.
Proof. intros [n E] [n' E']. rewrite E in E'. by injection E'. Qed.

Lemma link_mono k h h' a b : same_pts k h h' → b < 16 * k → h' !! a = h !! a → link h a b → link h' a b.
Proof.
  intros HS Hb Ha (v & v' & E & E' & Hn & Hne). destruct (same_pts_node _ _ _ _ _ HS Hb E') as (v'' & E'' & Ex & Ey).
  exists v, v''. rewrite Ha. unfold near in *. rewrite Ex, Ey. done.
Qed.

Definition below (k : Z) (l : list Z) : Prop := ∀ a, a ∈ l → a < 16 * k.

Lemma linked_mono k h h' l : same_pts k h h' → below k l → (∀ a, a ∈ l → last l ≠ Some a → h' !! a = h !! a) → NoDup l →
  linked h l → linked h' l.
Proof.
  intros HS. induction l as [|a [|b l] IH]; [done|done|]. intros HB Hsame Hnd [Hl Hr]. apply NoDup_cons in Hnd as [Ha Hnd].
  split.
  - apply (link_mono k h); [done|apply HB; set_solver| |done]. apply Hsame; [set_solver|]. rewrite last_cons_cons. intros E.
    by apply Ha, last_Some_elem_of.
  - apply IH; [intros c Hc; apply HB; set_solver| |done|done]. intros c Hc Hne. apply Hsame; [set_solver|]. by rewrite last_cons_cons.
Qed.

Lemma linked_app h l1 l2 z b : last l1 = Some z → head l2 = Some b → linked h l1 → linked h l2 → link h z b → linked h (l1 ++ l2).
Proof.
  intros Hz Hb. induction l1 as [|a [|c l] IH]; [done| |]; intros H1 H2 HL.
  - cbn in *. injection Hz as ->. destruct l2; [done|]. injection Hb as ->. done.
  - rewrite last_cons_cons in Hz. destruct H1 as [H1 H1']. split; [done|]. by apply IH.
Qed.

(** ** Open and closed strands *)

Section Strands.
(** Where nodes may be. *)
Context (ok : Z → Z → Prop).

(** Nodes below [k]; paths that end in [ss] and begin in [es]; the nodes [ns] are on them or
    on cycles. *)
Record strands_of (k : Z) (h : heap) (ss es ns : list Z) (PS CS : list (list Z)) : Prop := {
  sd_paths : Forall (path h) PS;
  sd_cycles : Forall (cycle h) CS;
  sd_nodup : NoDup (concat PS ++ concat CS);
  sd_lasts : omap last PS ≡ₚ ss;
  sd_heads : omap head PS ≡ₚ es;
  sd_nodes : ∀ a, a ∈ concat PS ++ concat CS → a < 16 * k ∧ ∃ x y, at_pt h a x y ∧ ok x y;
  sd_kept : ∀ a, a ∈ ns → a ∈ concat PS ++ concat CS }.

Definition strands k h ss es ns : Prop := ∃ PS CS, strands_of k h ss es ns PS CS.

Lemma strands_perm k h ss es ns ss' es' ns' : ss ≡ₚ ss' → es ≡ₚ es' → (∀ a, a ∈ ns' → a ∈ ns) → strands k h ss es ns → strands k h ss' es' ns'.
Proof.
  intros Hs He Hn (PS & CS & []). exists PS, CS. split; try done; [by rewrite <-Hs|by rewrite <-He|auto].
Qed.

Lemma concat_perm {A} (l l' : list (list A)) : l ≡ₚ l' → concat l ≡ₚ concat l'.
Proof. induction 1; cbn; [done|by f_equiv|rewrite !app_assoc; f_equiv; apply Permutation_app_comm|by etrans]. Qed.

Lemma omap_perm {A B} (f : A → option B) (l l' : list A) : l ≡ₚ l' → omap f l ≡ₚ omap f l'.
Proof. intros H. induction H; cbn; repeat case_match; try done; [by f_equiv|by constructor|by etrans]. Qed.

(** The order of the paths does not matter. *)
Lemma strands_reorder k h ss es ns PS PS' CS : PS ≡ₚ PS' → strands_of k h ss es ns PS CS → strands_of k h ss es ns PS' CS.
Proof.
  intros HP []. pose proof (concat_perm _ _ HP) as HC. split.
  - by rewrite <-HP.
  - done.
  - by rewrite <-HC.
  - by rewrite <-(omap_perm _ _ _ HP).
  - by rewrite <-(omap_perm _ _ _ HP).
  - intros a. rewrite <-HC. auto.
  - intros a Ha. rewrite <-HC. auto.
Qed.

Lemma omap_take_out {A} (f : list A → option A) PS x xs : omap f PS ≡ₚ x :: xs → ∃ P PS', PS ≡ₚ P :: PS' ∧ f P = Some x ∧ omap f PS' ≡ₚ xs.
Proof.
  intros H. assert (x ∈ omap f PS) as Hin by (rewrite H; set_solver). apply list_elem_of_omap in Hin as (P & HP & Hx).
  apply list_elem_of_split in HP as (l1 & l2 & ->). exists P, (l1 ++ l2). split; [by rewrite <-Permutation_middle|]. split; [done|].
  assert (omap f (l1 ++ P :: l2) ≡ₚ omap f (P :: l1 ++ l2)) as E by (apply omap_perm; by rewrite Permutation_middle).
  rewrite E in H. cbn in H. rewrite Hx in H. by apply Permutation_cons_inv in H.
Qed.

Lemma path_mono k h h' l : same_pts k h h' → below k l → (∀ a, a ∈ l → h' !! a = h !! a) → NoDup l → path h l → path h' l.
Proof.
  intros HS HB Hl Hnd [HL (z & v & Hz & Hv & Hn)]. split; [apply (linked_mono k h); auto|]. exists z, v. split_and!; [done| |done].
  rewrite Hl; [done|]. by apply last_Some_elem_of.
Qed.

Lemma cycle_mono k h h' l : same_pts k h h' → below k l → (∀ a, a ∈ l → h' !! a = h !! a) → NoDup l → cycle h l → cycle h' l.
Proof.
  intros HS HB Hl Hnd [HL (a & z & Ha & Hz & Hn)]. split; [apply (linked_mono k h); auto|]. exists a, z. split_and!; [done|done|].
  apply (link_mono k h); [done|apply HB; by apply head_Some_elem_of| |done]. apply Hl. by apply last_Some_elem_of.
Qed.

Lemma NoDup_concat_member (PS : list (list Z)) P : NoDup (concat PS) → P ∈ PS → NoDup P.
Proof.
  intros H HP. apply list_elem_of_split in HP as (l1 & l2 & ->). rewrite concat_app in H. cbn in H.
  apply NoDup_app in H as (_ & _ & H). by apply NoDup_app in H as (H & _).
Qed.

Lemma concat_member {A} (PS : list (list A)) P a : P ∈ PS → a ∈ P → a ∈ concat PS.
Proof. intros HP Ha. rewrite list_elem_of_In, in_concat. exists P. by rewrite <-!list_elem_of_In. Qed.

(** Strands none of whose nodes change. *)
Lemma Forall_path_mono k h h' PS : same_pts k h h' → below k (concat PS) → (∀ a, a ∈ concat PS → h' !! a = h !! a) → NoDup (concat PS) →
  Forall (path h) PS → Forall (path h') PS.
Proof.
  intros HS HB Hl Hnd. rewrite !Forall_forall. intros H P HP.
  apply (path_mono k h); [done|intros a ?; apply HB; by eapply concat_member| |by eapply NoDup_concat_member|auto].
  intros a Ha. apply Hl. by eapply concat_member.
Qed.
Lemma Forall_cycle_mono k h h' PS : same_pts k h h' → below k (concat PS) → (∀ a, a ∈ concat PS → h' !! a = h !! a) → NoDup (concat PS) →
  Forall (cycle h) PS → Forall (cycle h') PS.
Proof.
  intros HS HB Hl Hnd. rewrite !Forall_forall. intros H P HP.
  apply (cycle_mono k h); [done|intros a ?; apply HB; by eapply concat_member| |by eapply NoDup_concat_member|auto].
  intros a Ha. apply Hl. by eapply concat_member.
Qed.

(** Adding a node, and changing where one points. *)
Definition put (h : heap) (p x y n : Z) : heap := <[p := mkNode x y n]> h.

Lemma same_pts_put k h x y n : same_pts k h (put h (16 * k) x y n).
Proof. intros p x' y' Hp [n' E]. exists n'. unfold put. rewrite lookup_insert_ne by lia. done. Qed.

Lemma same_pts_next k h p v n : h !! p = Some v → same_pts k h (put h p (pt_x v) (pt_y v) n).
Proof.
  intros Hv q x y _ [n' E]. unfold at_pt, put. destruct (decide (q = p)) as [->|]; [rewrite lookup_insert_eq|rewrite lookup_insert_ne by done; eauto].
  rewrite Hv in E. injection E as ->. eauto.
Qed.

Lemma strands_below k h ss es ns PS CS : strands_of k h ss es ns PS CS → below k (concat PS ++ concat CS).
Proof. intros [] a Ha. by apply sd_nodes0. Qed.

(** A node on its own is a new path. *)
Lemma strands_new k h ss es ns x y : strands k h ss es ns → ok x y →
  strands (k + 1) (put h (16 * k) x y (16 * k)) (16 * k :: ss) (16 * k :: es) ns.
Proof.
  intros (PS & CS & SD) Hok. pose proof (strands_below _ _ _ _ _ _ _ SD) as HB. destruct SD as [P C N L H D K].
  assert (Hold : ∀ a, a ∈ concat PS ++ concat CS → put h (16 * k) x y (16 * k) !! a = h !! a).
  { intros a Ha. unfold put. apply lookup_insert_ne. apply HB in Ha. lia. }
  pose proof (same_pts_put k h x y (16 * k)) as HS. apply NoDup_app in N as N'. destruct N' as (N1 & N2 & N3).
  exists ([16 * k] :: PS), CS. split; cbn [concat omap list_omap head last app].
  - constructor; [|eapply (Forall_path_mono k h); set_solver]. split; [done|]. exists (16 * k), (mkNode x y (16 * k)).
    split_and!; [done|apply lookup_insert_eq|done].
  - eapply (Forall_cycle_mono k h); set_solver.
  - apply NoDup_cons. split; [|done]. intros Hin%HB. lia.
  - by f_equiv.
  - by f_equiv.
  - intros a [->|Ha]%elem_of_cons; [split; [lia|]; exists x, y; split; [|done]; eexists; apply lookup_insert_eq|].
    destruct (D a Ha) as (Hlt & x' & y' & Hp & Ho). split; [lia|]. exists x', y'. split; [by apply HS|done].
  - intros a Ha. apply elem_of_cons. auto.
Qed.

(** Changing only where the last node [s] of a path points breaks nothing. *)
Lemma strands_others k h h' s ss es ns P PS CS : strands_of k h (s :: ss) es ns (P :: PS) CS → last P = Some s →
  same_pts k h h' → (∀ a, a < 16 * k → a ≠ s → h' !! a = h !! a) →
  Forall (path h') PS ∧ Forall (cycle h') CS ∧ linked h' P ∧ NoDup (concat (P :: PS) ++ concat CS) ∧ NoDup P.
Proof.
  intros SD Hs HS Hh. pose proof (strands_below _ _ _ _ _ _ _ SD) as HB. destruct SD as [HP HC N L H D K]. cbn [concat] in *.
  apply Forall_cons in HP as [[HP _] HPS]. apply last_Some_elem_of in Hs as Hin.
  pose proof N as N'. rewrite <-app_assoc in N'. apply NoDup_app in N' as (N1 & N2 & N3). apply NoDup_app in N3 as (N3 & N4 & N5).
  split_and!; [| | |done|done].
  - eapply (Forall_path_mono k h); [done|intros a Ha; apply HB; set_solver| |done|done].
    intros a Ha. apply Hh; [apply HB; set_solver|]. intros ->. apply (N2 s); [done|set_solver].
  - eapply (Forall_cycle_mono k h); [done|intros a Ha; apply HB; set_solver| |done|done].
    intros a Ha. apply Hh; [apply HB; set_solver|]. intros ->. apply (N2 s); [done|set_solver].
  - apply (linked_mono k h); [done|intros a Ha; apply HB; set_solver| |done|done].
    intros a Ha Hne. apply Hh; [apply HB; set_solver|congruence].
Qed.

Lemma strands_last_out k h s ss es ns : strands k h (s :: ss) es ns →
  ∃ P PS CS, strands_of k h (s :: ss) es ns (P :: PS) CS ∧ last P = Some s ∧ omap last PS ≡ₚ ss.
Proof.
  intros (PS & CS & SD). destruct (omap_take_out last PS s ss (sd_lasts _ _ _ _ _ _ _ SD)) as (P & PS' & HP & Hl & Ho).
  exists P, PS', CS. split_and!; [by eapply strands_reorder|done|done].
Qed.

Lemma strands_append k h s ss es ns v x y : strands k h (s :: ss) es ns → h !! s = Some v → near v (mkNode x y 0) → ok x y →
  strands (k + 1) (put (put h (16 * k) x y (16 * k)) s (pt_x v) (pt_y v) (16 * k)) (16 * k :: ss) es ns.
Proof.
  intros (P & PS & CS & SD & Hs & Ho)%strands_last_out Hv Hne Hok. set (p := 16 * k). set (h1 := put h p x y p). set (h2 := put h1 s (pt_x v) (pt_y v) p).
  pose proof (strands_below _ _ _ _ _ _ _ SD) as HB. apply last_Some_elem_of in Hs as Hin.
  assert (s < p) as Hsp by (apply HB; cbn; set_solver).
  assert (Hv1 : h1 !! s = Some v) by (unfold h1, put; rewrite lookup_insert_ne by lia; done).
  assert (HS : same_pts k h h2) by (eapply (same_pts_trans k k); [done|apply same_pts_put|by apply same_pts_next]).
  destruct (strands_others k h h2 s ss es ns P PS CS SD Hs HS) as (HPS & HCS & HL & HN & HNP).
  { intros a Ha Hne'. unfold h2, h1, put. rewrite !lookup_insert_ne by lia. done. }
  assert (Hp2 : h2 !! p = Some (mkNode x y p)) by (unfold h2, put; rewrite lookup_insert_ne by lia; apply lookup_insert_eq).
  assert (HPn : P ≠ []) by (by intros ->). destruct SD as [HP HC N L H D K].
  exists ((P ++ [p]) :: PS), CS. cbn [concat omap list_omap] in *. split; cbn [concat omap list_omap].
  - constructor; [|done]. split.
    + apply (linked_app _ _ _ s p); [done|done|done|done|]. exists (mkNode (pt_x v) (pt_y v) p), (mkNode x y p).
      split_and!; [apply lookup_insert_eq|done|done|done].
    + exists p, (mkNode x y p). split_and!; [by rewrite last_snoc|done|done].
  - done.
  - assert (((P ++ [p]) ++ concat PS) ++ concat CS ≡ₚ p :: (P ++ concat PS) ++ concat CS) as -> by solve_Permutation.
    apply NoDup_cons. split; [|done]. intros Hin'%HB. lia.
  - rewrite last_snoc. by f_equiv.
  - destruct P; [done|]. done.
  - assert (Hd : ∀ a, a ∈ (P ++ concat PS) ++ concat CS → a < 16 * (k + 1) ∧ ∃ x y, at_pt h2 a x y ∧ ok x y).
    { intros a Ha. destruct (D a Ha) as (Hlt & x' & y' & Hp & Ho'). split; [lia|]. exists x', y'. split; [by apply HS|done]. }
    intros a Ha. destruct (decide (a = p)) as [->|]; [|apply Hd; set_solver]. split; [lia|]. exists x, y. split; [eexists; exact Hp2|done].
  - intros a Ha. apply K in Ha. set_solver.
Qed.

Lemma strands_pappend k h e ss es ns v x y : strands k h ss (e :: es) ns → h !! e = Some v → near (mkNode x y 0) v → ok x y →
  strands (k + 1) (put h (16 * k) x y e) ss (16 * k :: es) ns.
Proof.
  intros (PS0 & CS & SD) Hv Hne Hok. destruct (omap_take_out head PS0 e es (sd_heads _ _ _ _ _ _ _ SD)) as (P & PS & HP & He & Ho).
  apply (strands_reorder _ _ _ _ _ _ (P :: PS)) in SD; [|done]. clear PS0 HP. set (p := 16 * k).
  pose proof (strands_below _ _ _ _ _ _ _ SD) as HB. destruct SD as [HP HC N L H D K].
  pose proof (same_pts_put k h x y e) as HS. fold p in HS.
  assert (Hold : ∀ a, a ∈ concat (P :: PS) ++ concat CS → put h p x y e !! a = h !! a).
  { intros a Ha%HB. unfold put. apply lookup_insert_ne. lia. }
  cbn [concat omap list_omap] in *. pose proof N as N'. apply NoDup_app in N' as (N1 & N2 & N3).
  assert (HPS : Forall (path (put h p x y e)) (P :: PS)) by (apply (Forall_path_mono k h); [done|intros a ?; apply HB; set_solver|intros a ?; apply Hold; set_solver|done|done]).
  apply Forall_cons in HPS as [[HL (z & u & Hz & Hu & Hn)] HPS].
  destruct P as [|e' P]; [done|]. injection He as ->.
  exists ((p :: e :: P) :: PS), CS. split; cbn [concat omap list_omap app head].
  - constructor; [|done]. split.
    + split; [|done]. exists (mkNode x y e), v. split_and!; [apply lookup_insert_eq| |done|done]. rewrite Hold by set_solver. done.
    + exists z, u. rewrite last_cons_cons. done.
  - apply (Forall_cycle_mono k h); [done|intros a ?; apply HB; set_solver|intros a ?; apply Hold; set_solver|done|done].
  - apply NoDup_cons. split; [|done]. intros Hin%HB. lia.
  - done.
  - by f_equiv.
  - intros a [->|Ha]%elem_of_cons; [split; [lia|]; exists x, y; split; [eexists; apply lookup_insert_eq|done]|].
    destruct (D a Ha) as (Hlt & x' & y' & Hp & Ho'). split; [lia|]. exists x', y'. split; [by apply HS|done].
  - intros a Ha. apply K in Ha. set_solver.
Qed.

(** The end of a path meets the beginning of another, or its own. *)
Lemma strands_join k h s e ss es ns v u : strands k h (s :: ss) (e :: es) ns → h !! s = Some v → h !! e = Some u → near v u →
  strands k (put h s (pt_x v) (pt_y v) e) ss es ns.
Proof.
  intros (P & PS & CS & SD & Hs & Ho)%strands_last_out Hv Hu Hne. set (h' := put h s (pt_x v) (pt_y v) e).
  assert (HS : same_pts k h h') by (by apply same_pts_next).
  destruct (strands_others k h h' s ss (e :: es) ns P PS CS SD Hs HS) as (HPS & HCS & HL & HN & HNP).
  { intros a Ha Hne'. by apply lookup_insert_ne. }
  pose proof (strands_below _ _ _ _ _ _ _ SD) as HB. destruct SD as [HP HC N L H D K]. apply last_Some_elem_of in Hs as Hin.
  assert (Hlink : link h' s e).
  { destruct (decide (s = e)) as [->|Hse].
    - exists (mkNode (pt_x v) (pt_y v) e), (mkNode (pt_x v) (pt_y v) e). rewrite Hv in Hu. injection Hu as <-.
      split_and!; [apply lookup_insert_eq|apply lookup_insert_eq|done|done].
    - exists (mkNode (pt_x v) (pt_y v) e), u. split_and!; [apply lookup_insert_eq|unfold h', put; by rewrite lookup_insert_ne|done|done]. }
  assert (Hd : ∀ a, a ∈ concat (P :: PS) ++ concat CS → a < 16 * k ∧ ∃ x y, at_pt h' a x y ∧ ok x y).
  { intros a Ha. destruct (D a Ha) as (Hlt & x' & y' & Hp & Ho'). split; [done|]. exists x', y'. split; [by apply HS|done]. }
  destruct P as [|a P]; [done|]. cbn [omap list_omap head] in H. destruct (decide (a = e)) as [->|Hae].
  - apply Permutation_cons_inv in H. exists PS, ((e :: P) :: CS).
    assert (HC' : concat PS ++ concat ((e :: P) :: CS) ≡ₚ concat ((e :: P) :: PS) ++ concat CS) by (cbn [concat]; solve_Permutation).
    split; [done| |by rewrite HC'|done|done|intros b; rewrite HC'; auto|intros b Hb; rewrite HC'; auto].
    constructor; [|done]. split; [done|]. exists e, s. done.
  - assert (e ∈ omap head PS) as Hein by (assert (e ∈ a :: omap head PS) by (rewrite H; set_solver); set_solver).
    apply elem_of_Permutation in Hein as [xs Hxs]. destruct (omap_take_out head PS e xs Hxs) as (P2 & PS2 & HP2 & He2 & Ho2).
    assert (Hes : a :: omap head PS2 ≡ₚ es).
    { rewrite Hxs in H. rewrite Ho2. apply (Permutation_cons_inv (a := e)). rewrite <-H. apply perm_swap. }
    rewrite HP2 in HPS. apply Forall_cons in HPS as [[HL2 (z & u' & Hz & Hu' & Hn)] HPS].
    assert (Hcc : concat PS ≡ₚ P2 ++ concat PS2) by exact (concat_perm _ _ HP2).
    assert (HC' : concat (((a :: P) ++ P2) :: PS2) ++ concat CS ≡ₚ concat ((a :: P) :: PS) ++ concat CS).
    { cbn [concat]. rewrite Hcc. solve_Permutation. }
    exists (((a :: P) ++ P2) :: PS2), CS. split; [|done|by rewrite HC'| |done|intros b; rewrite HC'; auto|intros b Hb; rewrite HC'; auto].
    + constructor; [|done]. split; [by apply (linked_app _ _ _ s e)|]. exists z, u'. rewrite last_app, Hz. done.
    + cbn [omap list_omap]. rewrite last_app, Hz. rewrite <-Ho. rewrite (omap_perm last _ _ HP2). cbn [omap list_omap]. by rewrite Hz.
Qed.

(** The first node of a path of several is left out. *)
Lemma strands_drop k h e ss es ns ns' v : strands k h ss (e :: es) ns → h !! e = Some v → next v ≠ e →
  (∀ a, a ∈ ns' → a ∈ ns ∧ a ≠ e) → strands k h ss (next v :: es) ns' ∧ link h e (next v).
Proof.
  intros (PS0 & CS & SD) Hv Hn Hns. destruct (omap_take_out head PS0 e es (sd_heads _ _ _ _ _ _ _ SD)) as (P & PS & HP & He & Ho).
  apply (strands_reorder _ _ _ _ _ _ (P :: PS)) in SD; [|done]. clear PS0 HP. destruct SD as [HP HC N L H D K].
  apply Forall_cons in HP as [[HL (z & u & Hz & Hu & Hzn)] HPS]. destruct P as [|e' [|r P]]; [done| |].
  { injection He as ->. cbn in Hz. injection Hz as <-. rewrite Hv in Hu. injection Hu as <-. done. }
  injection He as ->. destruct HL as [HL1 HL2]. pose proof HL1 as (v' & w & Ev & Ew & Er & _). rewrite Hv in Ev. injection Ev as <-.
  rewrite Er. split; [|done]. cbn [concat omap list_omap head app] in *. apply NoDup_cons in N as [Ne N].
  exists ((r :: P) :: PS), CS. split; cbn [concat omap list_omap head app]; [|done|done| |by f_equiv| |].
  - constructor; [|done]. split; [done|]. exists z, u. rewrite last_cons_cons in Hz. done.
  - by rewrite last_cons_cons in L.
  - intros a Ha. apply D. set_solver.
  - intros a Ha. destruct (Hns a Ha) as [Ha1 Ha2]. apply K in Ha1. set_solver.
Qed.

Lemma strands_singleton k h s ss es ns v : strands k h (s :: ss) (s :: es) ns → h !! s = Some v → next v = s.
Proof.
  intros (P & PS & CS & SD & Hs & Ho)%strands_last_out Hv. destruct SD as [HP HC N L H D K].
  apply Forall_cons in HP as [[HL (z & u & Hz & Hu & Hzn)] _]. rewrite Hs in Hz. injection Hz as <-. congruence.
Qed.

(** [p_cur->next = p_end->next]: the two are at the same place. *)
Lemma strands_skip k h s e ss es ns ns' v u : strands k h (s :: ss) (e :: es) ns → h !! s = Some v → h !! e = Some u →
  pt_x v = pt_x u → pt_y v = pt_y u → (∀ a, a ∈ ns' → a ∈ ns ∧ (a ≠ e ∨ a = s)) →
  strands k (put h s (pt_x v) (pt_y v) (next u)) ss es ns'.
Proof.
  intros SD Hv Hu Ex Ey Hns. destruct (decide (next u = e)) as [->|Hn].
  - apply (strands_perm k _ ss es ns); [done|done|intros a Ha; by apply Hns|]. eapply (strands_join _ _ _ _ _ _ _ v u); [done..|].
    unfold near. rewrite Ex, Ey. lia.
  - assert (s ≠ e) as Hse. { intros ->. apply Hn. rewrite Hv in Hu. injection Hu as <-. by eapply strands_singleton. }
    destruct (strands_drop _ _ _ _ _ _ ns' _ SD Hu Hn) as [SD' (u' & w & Eu & Ew & _ & Hnear)].
    { intros a Ha. destruct (Hns a Ha) as [? [?| ->]]; done. }
    rewrite Hu in Eu. injection Eu as <-. eapply (strands_join _ _ _ _ _ _ _ v w); [done..|]. unfold near in *. by rewrite Ex, Ey.
Qed.

(** Every node that is kept is where it may be; with nothing open, it is on a cycle. *)
Lemma strands_ok k h ss es ns a x y : strands k h ss es ns → a ∈ ss ++ es ++ ns → at_pt h a x y → ok x y ∧ a < 16 * k.
Proof.
  intros (PS & CS & [HP HC N L H D K]) Ha Hp.
  assert (a ∈ concat PS ++ concat CS) as Hin.
  { rewrite !elem_of_app in Ha. destruct Ha as [Ha|[Ha|Ha]]; [| |auto]; apply elem_of_app; left.
    - rewrite <-L in Ha. apply list_elem_of_omap in Ha as (P & HP' & Hl). apply last_Some_elem_of in Hl. by eapply concat_member.
    - rewrite <-H in Ha. apply list_elem_of_omap in Ha as (P & HP' & Hl). apply head_Some_elem_of in Hl. by eapply concat_member. }
  destruct (D a Hin) as (Hlt & x' & y' & Hp' & Ho). destruct (at_pt_fun _ _ _ _ _ _ Hp Hp') as [-> ->]. done.
Qed.

Lemma strands_closed k h ns a : strands k h [] [] ns → a ∈ ns →
  ∃ l, a ∈ l ∧ cycle h l ∧ NoDup l ∧ ∀ b, b ∈ l → ∃ x y, at_pt h b x y ∧ ok x y.
Proof.
  intros (PS & CS & [HP HC N L H D K]) Ha.
  assert (PS = []) as ->.
  { destruct PS as [|P PS]; [done|]. apply Forall_cons in HP as [[_ (z & v & Hz & _)] _]. cbn in L. rewrite Hz in L. symmetry in L. by apply Permutation_nil_cons in L. }
  apply K in Ha as Ha'. cbn in Ha', N. rewrite list_elem_of_In, in_concat in Ha'. destruct Ha' as (l & Hl & Hal).
  apply list_elem_of_In in Hl, Hal. exists l. split_and!; [done| |by eapply NoDup_concat_member|].
  - rewrite Forall_forall in HC. auto.
  - intros b Hb. destruct (D b) as (_ & x & y & ? & ?); [cbn; by eapply concat_member|eauto].
Qed.
End Strands.
