(* ===== verification/ContourTheorems.v ===== *)
(** * The contour of a blob is a closed walk *)

From S2P Require Import Prelude Double RangeImage FindBlob BlobProofs BlobRows Contour.

Section Ops.
Context (ok : Z → Z → Prop) (xl xr : Z).
Hypothesis Hxl : - 2 ^ 30 ≤ xl.
Hypothesis Hxr : xr ≤ 2 ^ 30.
Hypothesis Hok : ∀ x y, ok x y → xl ≤ x ≤ xr ∧ - 2 ^ 30 ≤ y ≤ 2 ^ 30.

Implicit Types a : AnalysisAllocator.

(** The allocator and the strands in its memory. *)
Definition tracing (k : Z) a (ss es ns : list Z) : Prop := arena_ok k a ∧ strands ok k (nodes a) ss es ns.

Lemma tracing_k k a ss es ns : tracing k a ss es ns → 0 ≤ k.
Proof. intros [[] _]. unfold block_size in *. lia. Qed.

Lemma tracing_perm k a ss es ns ss' es' ns' : ss ≡ₚ ss' → es ≡ₚ es' → (∀ p, p ∈ ns' → p ∈ ns) → tracing k a ss es ns → tracing k a ss' es' ns'.
Proof. intros H1 H2 H3 [A SD]. split; [done|]. by eapply strands_perm. Qed.

Lemma wp_load p x y a (Q : ContourNode → AnalysisAllocator → Prop) :
  at_pt (nodes a) p x y → (∀ n, nodes a !! p = Some (mkNode x y n) → Q (mkNode x y n) a) → wp (load_node p) Q a.
Proof. intros [n E] HQ. unfold load_node. apply wp_bind, wp_get. eapply wp_lift; [by rewrite E|]. by apply HQ. Qed.

Lemma wp_store p x y n a (Q : unit → AnalysisAllocator → Prop) :
  (∀ a', nodes a' = put (nodes a) p x y n → (∀ k, arena_ok k a → arena_ok k a') → Q tt a') → wp (store_node p (mkNode x y n)) Q a.
Proof. intros HQ. apply wp_modify, HQ; [done|]. intros k []. by split. Qed.

Lemma wp_cons_to x y n k a (Q : Z → AnalysisAllocator → Prop) : arena_ok k a → 0 ≤ k < max_nodes →
  (∀ a', arena_ok (k + 1) a' → nodes a' = put (nodes a) (16 * k) x y n → Q (16 * k) a') → wp (cons_node_to x y n) Q a.
Proof.
  intros A Hk HQ. unfold cons_node_to. apply wp_bind, (wp_cons_space k); [done|done|]. intros a1 A1 E1.
  apply wp_bind, wp_store. intros a2 E2 A2. apply wp_ret, HQ; [auto|by rewrite E2, E1].
Qed.

Lemma wp_cons_new x y k a (Q : Z → AnalysisAllocator → Prop) : arena_ok k a → 0 ≤ k < max_nodes →
  (∀ a', arena_ok (k + 1) a' → nodes a' = put (nodes a) (16 * k) x y (16 * k) → Q (16 * k) a') → wp (cons_node x y) Q a.
Proof.
  intros A Hk HQ. unfold cons_node. apply wp_bind, (wp_cons_space k); [done|done|]. intros a1 A1 E1.
  apply wp_bind, wp_store. intros a2 E2 A2. apply wp_ret, HQ; [auto|by rewrite E2, E1].
Qed.

(** ** Making paths longer *)

Definition extends (add : Z → Z → Z → MC Z) (I : Z → AnalysisAllocator → Z → Prop) : Prop :=
  ∀ k a p x0 y0 x y (Q : Z → AnalysisAllocator → Prop), I k a p → at_pt (nodes a) p x0 y0 → Z.abs (x0 - x) ≤ 1 → Z.abs (y0 - y) ≤ 1 →
  ok x y → k < max_nodes →
  (∀ a' p', I (k + 1) a' p' → same_pts k (nodes a) (nodes a') → at_pt (nodes a') p' x y → Q p' a') → wp (add p x y) Q a.

Lemma extends_append ss es ns : extends append (λ k a p, tracing k a (p :: ss) es ns).
Proof.
  intros k a p x0 y0 x y Q T [n Hp] Hx Hy Hxy Hk HQ. pose proof (tracing_k _ _ _ _ _ T). destruct T as [A SD].
  destruct (strands_ok _ _ _ _ _ _ p x0 y0 SD) as [_ Hlt]; [set_solver|by exists n|].
  unfold append. apply wp_bind, (wp_cons_new _ _ k); [done|lia|]. intros a1 A1 E1.
  assert (Hp1 : nodes a1 !! p = Some (mkNode x0 y0 n)) by (rewrite E1; unfold put; by rewrite lookup_insert_ne by lia).
  apply wp_bind. unfold set_next. apply wp_bind, (wp_load p x0 y0); [by exists n|]. intros n' E'. rewrite Hp1 in E'. injection E' as <-.
  apply wp_store. intros a2 E2 A2. cbn [pt_x pt_y] in E2. apply wp_ret, HQ.
  - split; [auto|]. rewrite E2, E1. by apply (strands_append ok k _ p ss es ns (mkNode x0 y0 n)).
  - rewrite E2, E1. eapply (same_pts_trans k k); [done|apply same_pts_put|].
    rewrite <-E1. by apply (same_pts_next k _ _ (mkNode x0 y0 n)).
  - rewrite E2, E1. unfold at_pt, put. rewrite lookup_insert_ne by lia. rewrite lookup_insert_eq. eauto.
Qed.

Lemma extends_pappend ss es ns : extends pappend (λ k a p, tracing k a ss (p :: es) ns).
Proof.
  intros k a p x0 y0 x y Q T [n Hp] Hx Hy Hxy Hk HQ. pose proof (tracing_k _ _ _ _ _ T). destruct T as [A SD].
  unfold pappend. apply (wp_cons_to _ _ _ k); [done|lia|]. intros a1 A1 E1. apply HQ.
  - split; [done|]. rewrite E1. eapply (strands_pappend ok k _ p ss es ns (mkNode x0 y0 n)); [done|done| |done]. unfold near. cbn. lia.
  - rewrite E1. apply same_pts_put.
  - rewrite E1. eexists. apply lookup_insert_eq.
Qed.

Section Walks.
Context (add : Z → Z → Z → MC Z) (I : Z → AnalysisAllocator → Z → Prop).
Hypothesis Hadd : extends add I.

Lemma wp_walk_right n : ∀ k a p x0 x y (Q : Z → AnalysisAllocator → Prop), I k a p → at_pt (nodes a) p x0 y → Z.of_nat n = Z.max 0 (x - x0) →
  (∀ c, x0 < c ≤ x → ok c y) → k + Z.of_nat n ≤ max_nodes →
  (∀ k' a' p', I k' a' p' → k ≤ k' ≤ k + Z.of_nat n → same_pts k (nodes a) (nodes a') → at_pt (nodes a') p' (Z.max x0 x) y → Q p' a') →
  wp (walk n (λ c, c <? x) 1 add p) Q a.
Proof.
  induction n as [|n IH]; intros k a p x0 x y Q HI Hp Hn Hc Hk HQ; cbn [walk]; apply wp_bind, (wp_load p x0 y); [done| |done|]; intros m Em; cbn [pt_x pt_y].
  - rewrite (proj2 (Z.ltb_ge _ _)) by lia. apply wp_ret, (HQ k); [done|lia|apply same_pts_refl|]. replace (Z.max x0 x) with x0 by lia. done.
  - rewrite (proj2 (Z.ltb_lt _ _)) by lia. assert (ok (x0 + 1) y) as Hn' by (apply Hc; lia). apply Hok in Hn' as Hb.
    apply wp_bind. eapply wp_lift; [apply chk_ok; unfold in_signed; lia|]. apply wp_bind.
    apply (Hadd k a p x0 y); [done|done|lia|lia|done|lia|]. intros a1 p1 I1 S1 P1.
    apply (IH (k + 1) a1 p1 (x0 + 1) x y); [done|done|lia|intros; apply Hc; lia|lia|]. intros k' a' p' I' Hk' S' P'.
    apply (HQ k'); [done|lia|eapply (same_pts_trans k (k + 1)); [lia|done|done]|]. replace (Z.max x0 x) with (Z.max (x0 + 1) x) by lia. done.
Qed.

Lemma wp_walk_left n : ∀ k a p x0 x y (Q : Z → AnalysisAllocator → Prop), I k a p → at_pt (nodes a) p x0 y → Z.of_nat n = Z.max 0 (x0 - x) →
  (∀ c, x ≤ c < x0 → ok c y) → k + Z.of_nat n ≤ max_nodes →
  (∀ k' a' p', I k' a' p' → k ≤ k' ≤ k + Z.of_nat n → same_pts k (nodes a) (nodes a') → at_pt (nodes a') p' (Z.min x0 x) y → Q p' a') →
  wp (walk n (λ c, x <? c) (-1) add p) Q a.
Proof.
  induction n as [|n IH]; intros k a p x0 x y Q HI Hp Hn Hc Hk HQ; cbn [walk]; apply wp_bind, (wp_load p x0 y); [done| |done|]; intros m Em; cbn [pt_x pt_y].
  - rewrite (proj2 (Z.ltb_ge _ _)) by lia. apply wp_ret, (HQ k); [done|lia|apply same_pts_refl|]. replace (Z.min x0 x) with x0 by lia. done.
  - rewrite (proj2 (Z.ltb_lt _ _)) by lia. assert (ok (x0 + -1) y) as Hn' by (apply Hc; lia). apply Hok in Hn' as Hb.
    apply wp_bind. eapply wp_lift; [apply chk_ok; unfold in_signed; lia|]. apply wp_bind.
    apply (Hadd k a p x0 y); [done|done|lia|lia|done|lia|]. intros a1 p1 I1 S1 P1.
    apply (IH (k + 1) a1 p1 (x0 + -1) x y); [done|done|lia|intros; apply Hc; lia|lia|]. intros k' a' p' I' Hk' S' P'.
    apply (HQ k'); [done|lia|eapply (same_pts_trans k (k + 1)); [lia|done|done]|]. replace (Z.min x0 x) with (Z.min (x0 + -1) x) by lia. done.
Qed.

(** Along a row, in either direction; [d] bounds the way. *)
Lemma wp_right d k a p x0 x y (Q : Z → AnalysisAllocator → Prop) : I k a p → at_pt (nodes a) p x0 y →
  (∀ c, x0 < c ≤ x → ok c y) → 0 ≤ d → x - x0 ≤ d → k + d ≤ max_nodes →
  (∀ k' a' p', I k' a' p' → k ≤ k' ≤ k + d → same_pts k (nodes a) (nodes a') → at_pt (nodes a') p' (Z.max x0 x) y → Q p' a') →
  wp (walk_right add p x) Q a.
Proof.
  intros HI Hp Hc Hd Hx Hk HQ. unfold walk_right. apply wp_bind, (wp_load p x0 y); [done|]. intros m Em. cbn [pt_x].
  apply (wp_walk_right _ k a p x0 x y); [done|done|lia|done|lia|]. intros k' a' p' ? ? ? ?. apply (HQ k'); [done|lia|done|done].
Qed.
Lemma wp_left d k a p x0 x y (Q : Z → AnalysisAllocator → Prop) : I k a p → at_pt (nodes a) p x0 y →
  (∀ c, x ≤ c < x0 → ok c y) → 0 ≤ d → x0 - x ≤ d → k + d ≤ max_nodes →
  (∀ k' a' p', I k' a' p' → k ≤ k' ≤ k + d → same_pts k (nodes a) (nodes a') → at_pt (nodes a') p' (Z.min x0 x) y → Q p' a') →
  wp (walk_left add p x) Q a.
Proof.
  intros HI Hp Hc Hd Hx Hk HQ. unfold walk_left. apply wp_bind, (wp_load p x0 y); [done|]. intros m Em. cbn [pt_x].
  apply (wp_walk_left _ k a p x0 x y); [done|done|lia|done|lia|]. intros k' a' p' ? ? ? ?. apply (HQ k'); [done|lia|done|done].
Qed.

Lemma wp_down k a p x y (Q : Z → AnalysisAllocator → Prop) : I k a p → at_pt (nodes a) p x y → ok x (y + 1) → k < max_nodes →
  (∀ a' p', I (k + 1) a' p' → same_pts k (nodes a) (nodes a') → at_pt (nodes a') p' x (y + 1) → Q p' a') → wp (down add p) Q a.
Proof.
  intros HI Hp Ho Hk HQ. unfold down. apply wp_bind, (wp_load p x y); [done|]. intros m Em. cbn [pt_x pt_y]. apply Hok in Ho as Hb.
  apply wp_bind. eapply wp_lift; [apply chk_ok; unfold in_signed; lia|]. apply (Hadd k a p x y); [done|done|lia|lia|done|done|done].
Qed.
End Walks.

Lemma wp_right_none add a p x0 x y (Q : Z → AnalysisAllocator → Prop) : at_pt (nodes a) p x0 y → x ≤ x0 → Q p a → wp (walk_right add p x) Q a.
Proof.
  intros Hp Hx HQ. unfold walk_right. apply wp_bind, (wp_load p x0 y); [done|]. intros m Em. cbn [pt_x]. rewrite Z2Nat.nonpos by lia. cbn [walk].
  apply wp_bind, (wp_load p x0 y); [done|]. intros m' Em'. cbn [pt_x]. rewrite (proj2 (Z.ltb_ge _ _)) by lia. by apply wp_ret.
Qed.

Lemma wp_set_next p x y n k a (Q : unit → AnalysisAllocator → Prop) : at_pt (nodes a) p x y → arena_ok k a →
  (∀ a', nodes a' = put (nodes a) p x y n → arena_ok k a' → same_pts k (nodes a) (nodes a') → Q tt a') → wp (set_next p n) Q a.
Proof.
  intros Hp A HQ. unfold set_next. apply wp_bind, (wp_load p x y); [done|]. intros m Em. cbn [pt_x pt_y]. apply wp_store. intros a' E' A'.
  apply HQ; [done|auto|]. rewrite E'. by apply (same_pts_next k _ _ (mkNode x y m)).
Qed.

(** ** Opening and closing runs *)

Definition W : Z := xr - xl.

(** The two open ends of a run on row [i]. *)
Definition half_at (h : heap) (i : Z) (r : ImageRange) (hc : HalfContour) : Prop :=
  ∃ xs, at_pt h (half_st hc) xs i ∧ st r - 1 ≤ xs ≤ st r ∧ at_pt h (half_ed hc) (ed r - 1) i.

Lemma wp_fwd_loop n : ∀ k a x i e ss es ns (Q : Z → AnalysisAllocator → Prop), tracing k a ss (e :: es) ns → at_pt (nodes a) e (x - 1) i →
  (∀ c, x ≤ c < x + Z.of_nat n → ok c i) → k + Z.of_nat n ≤ max_nodes →
  (∀ a' e', tracing (k + Z.of_nat n) a' ss (e' :: es) ns → same_pts k (nodes a) (nodes a') → at_pt (nodes a') e' (x - 1 + Z.of_nat n) i → Q e' a') →
  wp (fwd_loop n x i e) Q a.
Proof.
  induction n as [|n IH]; intros k a x i e ss es ns Q T He Hc Hk HQ; cbn [fwd_loop].
  { apply wp_ret, HQ; [by rewrite Z.add_0_r|apply same_pts_refl|by rewrite Z.add_0_r]. }
  apply wp_bind. change (cons_node_to x i e) with (pappend e x i).
  apply (extends_pappend ss es ns k a e (x - 1) i); [done|done|lia|lia|apply Hc; lia|lia|]. intros a1 e1 T1 S1 P1.
  apply (IH (k + 1) a1 (x + 1) i e1 ss es ns); [done|by replace (x + 1 - 1) with x by lia|intros; apply Hc; lia|lia|].
  intros a' e' T' S' P'. apply HQ; [by replace (k + Z.of_nat (S n)) with (k + 1 + Z.of_nat n) by lia|eapply (same_pts_trans k (k + 1)); [lia|done|done]|].
  by replace (x - 1 + Z.of_nat (S n)) with (x + 1 - 1 + Z.of_nat n) by lia.
Qed.

Lemma wp_fwd_range k a i r ss es ns (Q : HalfContour → AnalysisAllocator → Prop) : tracing k a ss es ns → st r < ed r →
  (∀ c, st r ≤ c < ed r → ok c i) → k + W + 1 ≤ max_nodes →
  (∀ k' a' hc, tracing k' a' (half_st hc :: ss) (half_ed hc :: es) ns → k ≤ k' ≤ k + W + 1 → same_pts k (nodes a) (nodes a') →
     half_at (nodes a') i r hc → Q hc a') → wp (fwd_range i (st r) (ed r)) Q a.
Proof.
  intros T Hr Hc Hk HQ. pose proof (tracing_k _ _ _ _ _ T) as Hk0.
  assert (ed r - st r ≤ W + 1) as HW.
  { unfold W. destruct (Hok _ _ (Hc (st r) ltac:(lia))), (Hok _ _ (Hc (ed r - 1) ltac:(lia))). lia. }
  destruct T as [A SD]. unfold fwd_range. apply wp_bind, (wp_cons_new _ _ k); [done|lia|]. intros a1 A1 E1.
  assert (P1 : at_pt (nodes a1) (16 * k) (st r) i) by (rewrite E1; eexists; apply lookup_insert_eq).
  apply wp_bind, (wp_set_next _ (st r) i _ (k + 1)); [done|done|]. intros a2 E2 A2 S2.
  assert (E2' : nodes a2 = put (nodes a) (16 * k) (st r) i (16 * k)) by (rewrite E2, E1; unfold put; by rewrite insert_insert_eq).
  assert (T2 : tracing (k + 1) a2 (16 * k :: ss) (16 * k :: es) ns) by (split; [done|rewrite E2'; apply strands_new; [done|apply Hc; lia]]).
  assert (P2 : at_pt (nodes a2) (16 * k) (st r) i) by (rewrite E2'; eexists; apply lookup_insert_eq).
  apply wp_bind, (wp_fwd_loop _ (k + 1) a2 (st r + 1) i (16 * k) (16 * k :: ss) es ns); [done|by replace (st r + 1 - 1) with (st r) by lia|intros; apply Hc; lia|lia|].
  intros a3 e T3 S3 P3. apply wp_ret, (HQ (k + 1 + Z.of_nat (Z.to_nat (ed r - (st r + 1))))); [done|lia| |].
  - eapply (same_pts_trans k (k + 1)); [lia| |done]. rewrite E2'. apply same_pts_put.
  - exists (st r). cbn. split_and!; [apply S3; [lia|done]|lia|lia|]. replace (ed r - 1) with (st r + 1 - 1 + Z.of_nat (Z.to_nat (ed r - (st r + 1)))) by lia. done.
Qed.

Lemma wp_close_range k a i r s e ss es ns ns' (Q : unit → AnalysisAllocator → Prop) : tracing k a (s :: ss) (e :: es) ns → st r < ed r →
  half_at (nodes a) i r (mkHalf s e) → (∀ c, st r ≤ c < ed r → ok c i) → k + W + 1 ≤ max_nodes → (∀ p, p ∈ ns' → p ∈ ns ∧ (p ≠ e ∨ p = s)) →
  (∀ k' a', tracing k' a' ss es ns' → k ≤ k' ≤ k + W + 1 → same_pts k (nodes a) (nodes a') → Q tt a') → wp (close_range (mkHalf s e)) Q a.
Proof.
  intros T Hr (xs & Ps & Hxs & Pe) Hc Hk Hns HQ. cbn [half_st half_ed] in *.
  assert (Hb : xl ≤ ed r - 1 ≤ xr) by (apply (Hok _ i), Hc; lia).
  pose proof (tracing_k _ _ _ _ _ T) as Hk0. assert (HW : ed r - 2 - xs ≤ W).
  { destruct (Hok _ _ (Hc (st r) ltac:(lia))). unfold W. lia. }
  pose proof T as [A SD]. destruct (strands_ok _ _ _ _ _ _ e _ _ SD ltac:(set_solver) Pe) as [_ Hlt].
  unfold close_range. cbn [half_st half_ed]. apply wp_bind, (wp_load e (ed r - 1) i); [done|]. intros m Em. cbn [pt_x].
  apply wp_bind. eapply wp_lift; [apply chk_ok; unfold in_signed; lia|].
  assert (Hjoin : ∀ k1 a1 p x1, tracing k1 a1 (p :: ss) (e :: es) ns → k ≤ k1 ≤ k + W + 1 → same_pts k (nodes a) (nodes a1) → at_pt (nodes a1) p x1 i →
    x1 = ed r - 2 → wp (c ← load_node p; e' ← load_node e; if pt_x e' =? pt_x c then set_next p (next e') else set_next p e) Q a1).
  { intros k1 a1 p x1 T1 Hk1 S1 P1 Hx1. assert (Pe1 : at_pt (nodes a1) e (ed r - 1) i) by (by apply S1).
    apply wp_bind, (wp_load p x1 i); [done|]. intros mp Emp. apply wp_bind, (wp_load e (ed r - 1) i); [done|]. intros me Eme.
    cbn [pt_x]. rewrite (proj2 (Z.eqb_neq _ _)) by lia. destruct T1 as [A1 SD1]. apply (wp_set_next p x1 i e k1); [done|done|]. intros a2 E2 A2 S2.
    apply (HQ k1); [|done|eapply (same_pts_trans k k1); [lia|done|done]]. split; [done|]. rewrite E2.
    apply (strands_perm ok k1 _ ss es ns); [done|done|intros q Hq; by apply Hns|].
    apply (strands_join ok k1 _ p e ss es ns (mkNode x1 i mp) (mkNode (ed r - 1) i me)); [done..|]. unfold near. cbn. lia. }
  apply wp_bind. destruct (Z.le_gt_cases (ed r - 2) xs) as [Hle|Hgt].
  - apply (wp_right_none append a s xs _ i); [done|lia|]. destruct (decide (xs = ed r - 2)) as [->|Hne].
    { apply (Hjoin k a s (ed r - 2)); [done|lia|apply same_pts_refl|done|done]. }
    assert (xs = ed r - 1) as -> by lia.
    apply wp_bind, (wp_load s (ed r - 1) i); [done|]. intros mp Emp. apply wp_bind, (wp_load e (ed r - 1) i); [done|]. intros me Eme.
    cbn [pt_x]. rewrite Z.eqb_refl. apply (wp_set_next s (ed r - 1) i _ k); [done|done|]. intros a2 E2 A2 S2.
    apply (HQ k); [|lia|done]. split; [done|]. rewrite E2.
    by apply (strands_skip ok k _ s e ss es ns ns' (mkNode (ed r - 1) i mp) (mkNode (ed r - 1) i me)).
  - apply (wp_right append _ (extends_append ss (e :: es) ns) W k a s xs _ i); [done|done|intros; apply Hc; lia|unfold W in *; lia|lia|lia|].
    intros k1 a1 p T1 Hk1 S1 P1. apply (Hjoin k1 a1 p (Z.max xs (ed r - 1 - 1))); [done|lia|done|done|lia].
Qed.

(** ** Between two rows *)

(** A run whose pixels may be used. *)
Definition inside (i : Z) (r : ImageRange) : Prop := st r < ed r ∧ ∀ c, st r ≤ c < ed r → ok c i.

Lemma inside_width i r : inside i r → xl ≤ st r ∧ ed r - 1 ≤ xr.
Proof. intros [Hr Hc]. destruct (Hok _ _ (Hc (st r) ltac:(lia))), (Hok _ _ (Hc (ed r - 1) ltac:(lia))). lia. Qed.

Section Rows2.
Context (i : Z) (rp rc : ImageRange).
Hypothesis Hrp : inside (i - 1) rp.
Hypothesis Hrc : inside i rc.
Hypothesis Hpc : st rp ≤ ed rc - 1.
Hypothesis Hcp : st rc ≤ ed rp - 1.

Lemma wp_extend_start k a s xs ss es ns (Q : Z → AnalysisAllocator → Prop) : tracing k a (s :: ss) es ns → at_pt (nodes a) s xs (i - 1) →
  st rp - 1 ≤ xs ≤ st rp → k + 2 * W + 1 ≤ max_nodes →
  (∀ k' a' p, tracing k' a' (p :: ss) es ns → k ≤ k' ≤ k + 2 * W + 1 → same_pts k (nodes a) (nodes a') → at_pt (nodes a') p (st rc) i → Q p a') →
  wp (extend_start s (st rc)) Q a.
Proof.
  intros T Ps Hxs Hk HQ. destruct (inside_width _ _ Hrp), (inside_width _ _ Hrc). destruct Hrp as [? Hp], Hrc as [? Hc].
  assert (HW : 0 ≤ W) by (unfold W; lia). pose proof T as [_ SD]. destruct (strands_ok _ _ _ _ _ _ s _ _ SD ltac:(set_solver) Ps) as [Ho _]. apply Hok in Ho.
  pose proof (extends_append ss es ns) as HX. unfold extend_start. apply wp_bind, (wp_right append _ HX W k a s xs _ (i - 1)); [done|done|intros; apply Hp; lia|lia|unfold W; lia|lia|].
  intros k1 a1 p1 T1 Hk1 S1 P1. apply wp_bind, (wp_down append _ HX k1 a1 p1 (Z.max xs (st rc)) (i - 1)); [done|done| |lia|].
  { replace (i - 1 + 1) with i by lia. apply Hc. lia. }
  intros a2 p2 T2 S2 P2. replace (i - 1 + 1) with i in P2 by lia.
  apply (wp_left append _ HX W (k1 + 1) a2 p2 (Z.max xs (st rc)) _ i); [done|done|intros; apply Hc; lia|lia|unfold W; lia|lia|].
  intros k3 a3 p3 T3 Hk3 S3 P3. apply (HQ k3); [done|lia| |by replace (st rc) with (Z.min (Z.max xs (st rc)) (st rc)) by lia].
  eapply (same_pts_trans k k1); [lia|done|]. eapply (same_pts_trans k1 (k1 + 1)); [lia|done|done].
Qed.

Lemma wp_extend_end k a e ss es ns (Q : Z → AnalysisAllocator → Prop) : tracing k a ss (e :: es) ns → at_pt (nodes a) e (ed rp - 1) (i - 1) →
  k + 2 * W + 1 ≤ max_nodes →
  (∀ k' a' p, tracing k' a' ss (p :: es) ns → k ≤ k' ≤ k + 2 * W + 1 → same_pts k (nodes a) (nodes a') → at_pt (nodes a') p (ed rc - 1) i → Q p a') →
  wp (extend_end e (ed rc - 1)) Q a.
Proof.
  intros T Pe Hk HQ. destruct (inside_width _ _ Hrp), (inside_width _ _ Hrc). destruct Hrp as [? Hp], Hrc as [? Hc].
  assert (HW : 0 ≤ W) by (unfold W; lia).
  pose proof (extends_pappend ss es ns) as HX. unfold extend_end. apply wp_bind, (wp_left pappend _ HX W k a e (ed rp - 1) _ (i - 1)); [done|done|intros; apply Hp; lia|lia|unfold W; lia|lia|].
  intros k1 a1 p1 T1 Hk1 S1 P1. apply wp_bind, (wp_down pappend _ HX k1 a1 p1 (Z.min (ed rp - 1) (ed rc - 1)) (i - 1)); [done|done| |lia|].
  { replace (i - 1 + 1) with i by lia. apply Hc. lia. }
  intros a2 p2 T2 S2 P2. replace (i - 1 + 1) with i in P2 by lia.
  apply (wp_right pappend _ HX W (k1 + 1) a2 p2 (Z.min (ed rp - 1) (ed rc - 1)) _ i); [done|done|intros; apply Hc; lia|lia|unfold W; lia|lia|].
  intros k3 a3 p3 T3 Hk3 S3 P3. apply (HQ k3); [done|lia| |by replace (ed rc - 1) with (Z.max (Z.min (ed rp - 1) (ed rc - 1)) (ed rc - 1)) by lia].
  eapply (same_pts_trans k k1); [lia|done|]. eapply (same_pts_trans k1 (k1 + 1)); [lia|done|done].
Qed.

(** Down from the left end of the next run of the row above, and back to the right end of
    this one. *)
Lemma wp_cap_range k a s e xs rp' ss es ns (Q : unit → AnalysisAllocator → Prop) : tracing k a (s :: ss) (e :: es) ns →
  at_pt (nodes a) e (ed rp - 1) (i - 1) → at_pt (nodes a) s xs (i - 1) → st rp' - 1 ≤ xs ≤ st rp' → ed rp ≤ st rp' → st rp' ≤ ed rc - 1 →
  k + W + 1 ≤ max_nodes →
  (∀ k' a', tracing k' a' ss es ns → k ≤ k' ≤ k + W + 1 → same_pts k (nodes a) (nodes a') → Q tt a') → wp (cap_range e s) Q a.
Proof.
  intros T Pe Ps Hxs Hpp Hpc' Hk HQ. destruct (inside_width _ _ Hrp), (inside_width _ _ Hrc). destruct Hrp as [? Hp], Hrc as [? Hc].
  assert (HW : 0 ≤ W) by (unfold W; lia). pose proof (extends_append ss (e :: es) ns) as HX.
  pose proof T as [_ SD]. destruct (strands_ok _ _ _ _ _ _ e _ _ SD ltac:(set_solver) Pe) as [_ Hlt].
  unfold cap_range. apply wp_bind, (wp_down append _ HX k a s xs (i - 1)); [done|done| |lia|].
  { replace (i - 1 + 1) with i by lia. apply Hc. lia. }
  intros a1 p1 T1 S1 P1. replace (i - 1 + 1) with i in P1 by lia.
  assert (Pe1 : at_pt (nodes a1) e (ed rp - 1) (i - 1)) by (by apply S1).
  apply wp_bind, (wp_load e (ed rp - 1) (i - 1)); [done|]. intros me Eme. cbn [pt_x].
  apply wp_bind, (wp_left append _ HX W (k + 1) a1 p1 xs _ i); [done|done|intros; apply Hc; lia|lia|unfold W; lia|lia|].
  intros k2 a2 p2 T2 Hk2 S2 P2. replace (Z.min xs (ed rp - 1)) with (ed rp - 1) in P2 by lia. destruct T2 as [A2 SD2].
  assert (Pe2 : at_pt (nodes a2) e (ed rp - 1) (i - 1)) by (apply S2; [lia|done]).
  apply (wp_set_next p2 (ed rp - 1) i e k2); [done|done|]. intros a3 E3 A3 S3. apply (HQ k2); [|lia|].
  - split; [done|]. rewrite E3. destruct P2 as [m2 E2], Pe2 as [m2' E2'].
    apply (strands_join ok k2 _ p2 e ss es ns (mkNode (ed rp - 1) i m2) (mkNode (ed rp - 1) (i - 1) m2')); [done..|]. unfold near. cbn. lia.
  - eapply (same_pts_trans k (k + 1)); [lia|done|]. eapply (same_pts_trans (k + 1) k2); [lia|done|done].
Qed.
End Rows2.

Lemma wp_cavity_loop n : ∀ k a x i p ss es ns (Q : Z → AnalysisAllocator → Prop), tracing k a (p :: ss) es ns → at_pt (nodes a) p (x - 1) i →
  (∀ c, x ≤ c < x + Z.of_nat n → ok c i) → k + Z.of_nat n ≤ max_nodes →
  (∀ a' p', tracing (k + Z.of_nat n) a' (p' :: ss) es ns → same_pts k (nodes a) (nodes a') → at_pt (nodes a') p' (x - 1 + Z.of_nat n) i → Q p' a') →
  wp (cavity_loop n x i p) Q a.
Proof.
  induction n as [|n IH]; intros k a x i p ss es ns Q T Hp Hc Hk HQ; cbn [cavity_loop].
  { apply wp_ret, HQ; [by rewrite Z.add_0_r|apply same_pts_refl|by rewrite Z.add_0_r]. }
  apply wp_bind, (extends_append ss es ns k a p (x - 1) i); [done|done|lia|lia|apply Hc; lia|lia|]. intros a1 p1 T1 S1 P1.
  apply (IH (k + 1) a1 (x + 1) i p1 ss es ns); [done|by replace (x + 1 - 1) with x by lia|intros; apply Hc; lia|lia|].
  intros a' p' T' S' P'. apply HQ; [by replace (k + Z.of_nat (S n)) with (k + 1 + Z.of_nat n) by lia|eapply (same_pts_trans k (k + 1)); [lia|done|done]|].
  by replace (x - 1 + Z.of_nat (S n)) with (x + 1 - 1 + Z.of_nat n) by lia.
Qed.

(** Across a gap of the row. *)
Lemma wp_make_cavity k a i x x' ss es ns (Q : HalfContour → AnalysisAllocator → Prop) : tracing k a ss es ns → x < x' →
  (∀ c, x ≤ c < x' → ok c i) → k + W + 1 ≤ max_nodes →
  (∀ k' a' hc, tracing k' a' (half_ed hc :: ss) (half_st hc :: es) ns → k ≤ k' ≤ k + W + 1 → same_pts k (nodes a) (nodes a') →
     at_pt (nodes a') (half_st hc) x i → at_pt (nodes a') (half_ed hc) (x' - 1) i → Q hc a') → wp (make_cavity i x x') Q a.
Proof.
  intros T Hx Hc Hk HQ. pose proof (tracing_k _ _ _ _ _ T) as Hk0.
  assert (x' - x ≤ W + 1) as HW by (unfold W; destruct (Hok _ _ (Hc x ltac:(lia))), (Hok _ _ (Hc (x' - 1) ltac:(lia))); lia).
  destruct T as [A SD]. unfold make_cavity. apply wp_bind, (wp_cons_new _ _ k); [done|lia|]. intros a1 A1 E1.
  assert (P1 : at_pt (nodes a1) (16 * k) x i) by (rewrite E1; eexists; apply lookup_insert_eq).
  assert (T1 : tracing (k + 1) a1 (16 * k :: ss) (16 * k :: es) ns) by (split; [done|rewrite E1; apply strands_new; [done|apply Hc; lia]]).
  apply wp_bind, (wp_cavity_loop _ (k + 1) a1 (x + 1) i (16 * k) ss (16 * k :: es) ns); [done|by replace (x + 1 - 1) with x by lia|intros; apply Hc; lia|lia|].
  intros a2 p T2 S2 P2. apply wp_ret, (HQ (k + 1 + Z.of_nat (Z.to_nat (x' - (x + 1))))); [done|lia| |cbn; apply S2; [lia|done]|].
  - eapply (same_pts_trans k (k + 1)); [lia| |done]. rewrite E1. apply same_pts_put.
  - cbn. replace (x' - 1) with (x + 1 - 1 + Z.of_nat (Z.to_nat (x' - (x + 1)))) by lia. done.
Qed.

(** ** Rows *)

Lemma keep_pt k a a' ss es ns p x y : tracing k a ss es ns → p ∈ ss ++ es → same_pts k (nodes a) (nodes a') → at_pt (nodes a) p x y → at_pt (nodes a') p x y.
Proof. intros [_ SD] Hp HS P. apply HS; [|done]. eapply strands_ok; [done| |done]. set_solver. Qed.

Lemma keep_halves k a a' ss es ns i rs hs : tracing k a ss es ns → (∀ hc, hc ∈ hs → half_st hc ∈ ss ∧ half_ed hc ∈ es) →
  same_pts k (nodes a) (nodes a') → Forall2 (half_at (nodes a) i) rs hs → Forall2 (half_at (nodes a') i) rs hs.
Proof.
  intros T Hin HS. induction 1 as [|r hc rs hs (xs & P1 & Hx & P2) _ IH]; [constructor|]. destruct (Hin hc) as [H1 H2]; [set_solver|].
  constructor; [|apply IH; set_solver]. exists xs. split_and!; [|lia|lia|]; (eapply keep_pt; [done| |done|done]; set_solver).
Qed.

Lemma half_members (hs : list HalfContour) hc (s1 s2 e1 e2 : list Z) : hc ∈ hs →
  half_st hc ∈ s1 ++ (half_st <$> hs) ++ s2 ∧ half_ed hc ∈ e1 ++ (half_ed <$> hs) ++ e2.
Proof. intros H. split; apply elem_of_app; right; apply elem_of_app; left; by apply list_elem_of_fmap_2. Qed.

Definition D : Z := 2 * W + 2.

Section Join.
Context (i : Z) (pranges cranges : list ImageRange) (plst : list HalfContour) (K : Z) (ns : list Z).
Hypothesis Hpr : ∀ r, r ∈ pranges → inside (i - 1) r.
Hypothesis Hcr : ∀ r, r ∈ cranges → inside i r.
Hypothesis Hpb : before pranges.
Hypothesis Hcb : before cranges.
Hypothesis Hgap : ∀ j r r', cranges !! j = Some r → cranges !! S j = Some r' → ∀ c, ed r - 1 ≤ c < st r' → ok c i.
Hypothesis HW : 0 ≤ W.
Hypothesis HK : K ≤ max_nodes.

Definition remaining (mp mc : nat) : Z := Z.of_nat (length pranges - mp) + Z.of_nat (length cranges - mc).

(** Between two steps: what is open of the row above and of this one. *)
Record row_state (k : Z) a (mp mc : nat) (clst : list HalfContour) : Prop := {
  rs_tracing : tracing k a ((half_st <$> drop mp plst) ++ (half_st <$> clst)) ((half_ed <$> drop mp plst) ++ (half_ed <$> clst)) ns;
  rs_prev : Forall2 (half_at (nodes a) (i - 1)) (drop mp pranges) (drop mp plst);
  rs_cur : Forall2 (half_at (nodes a) i) (take mc cranges) clst }.

Lemma last_ok j r : inside j r → range_last r = Ok (ed r - 1).
Proof. intros H. destruct (inside_width _ _ H). destruct H. unfold range_last. apply chk_ok. unfold in_signed. lia. Qed.

Lemma reached_some lim r r' : reached lim r = Some r' → r = Some r' ∧ st r' ≤ lim.
Proof. unfold reached. destruct r as [r|]; [|done]. destruct (Z.leb_spec (st r) lim); [|done]. intros [= <-]. done. Qed.

Lemma drop_prev mp r : pranges !! mp = Some r → length plst = length pranges → ∃ hp, plst !! mp = Some hp ∧
  drop mp pranges = r :: drop (S mp) pranges ∧ drop mp plst = hp :: drop (S mp) plst.
Proof.
  intros Hr HL. destruct (lookup_lt_is_Some_2 plst mp) as [hp Hhp]; [rewrite HL; by eapply lookup_lt_Some|].
  exists hp. split_and!; [done|by apply drop_S..].
Qed.

Lemma wp_nth_half l n hp a (Q : HalfContour → AnalysisAllocator → Prop) : l !! n = Some hp → Q hp a → wp (nth_half l n) Q a.
Proof. intros E HQ. unfold nth_half. eapply wp_lift; [by rewrite E|done]. Qed.

Lemma wp_join_loop fuel : ∀ mp mc rprev rcur pb ca xs clst k a (Q : nat * nat * list HalfContour → AnalysisAllocator → Prop),
  length plst = length pranges →
  pranges !! mp = Some rprev → cranges !! mc = Some rcur → st rprev ≤ ed rcur - 1 → st rcur ≤ ed rprev - 1 →
  tracing k a (ca :: (half_st <$> drop (S mp) plst) ++ (half_st <$> clst)) (pb :: (half_ed <$> drop (S mp) plst) ++ (half_ed <$> clst)) ns →
  Forall2 (half_at (nodes a) (i - 1)) (drop (S mp) pranges) (drop (S mp) plst) → Forall2 (half_at (nodes a) i) (take mc cranges) clst →
  at_pt (nodes a) pb (ed rprev - 1) (i - 1) → at_pt (nodes a) ca xs i → st rcur - 1 ≤ xs ≤ st rcur →
  k + D * remaining mp mc ≤ K + 2 * W + 1 → remaining mp mc ≤ Z.of_nat (S fuel) →
  (∀ mp' mc' clst' k' a', row_state k' a' mp' mc' clst' → k ≤ k' → k' + D * remaining mp' mc' ≤ K → remaining mp' mc' < remaining mp mc →
     (mp < mp' ≤ length pranges)%nat → (mc < mc' ≤ length cranges)%nat → same_pts k (nodes a) (nodes a') → Q (mp', mc', clst') a') →
  wp (join_loop i pranges cranges plst fuel mp mc rprev rcur pb ca clst) Q a.
Proof.
  induction fuel as [|fuel IH]; intros mp mc rprev rcur pb ca xs clst k a Q HL Ep Ec Hpc Hcp T Hprev Hcur Ppb Pca Hxs Hk Hf HQ;
    pose proof (lookup_lt_Some _ _ _ Ep) as Hmp; pose proof (lookup_lt_Some _ _ _ Ec) as Hmc;
    assert (Hrem : 2 ≤ remaining mp mc) by (unfold remaining; lia); [unfold remaining in *; lia|].
  assert (HD : D = 2 * W + 2) by done. assert (HDr : 2 * D ≤ D * remaining mp mc) by nia.
  pose proof (Hpr rprev (list_elem_of_lookup_2 _ _ _ Ep)) as Irp. pose proof (Hcr rcur (list_elem_of_lookup_2 _ _ _ Ec)) as Irc.
  cbn [join_loop]. apply wp_bind. eapply wp_lift; [by apply (last_ok i)|].
  destruct (reached (ed rcur - 1) (pranges !! S mp)) as [rp|] eqn:Er.
  { apply reached_some in Er as [Erp Hrp]. destruct (drop_prev (S mp) rp Erp HL) as (hp & Ehp & Edp & Edl).
    rewrite Edp, Edl in Hprev. apply Forall2_cons in Hprev as [(xs' & Phs & Hxs' & Phe) Hprev].
    rewrite Edl in T. cbn [fmap list_fmap app] in T. pose proof (lookup_lt_Some _ _ _ Erp) as Hmp'.
    apply wp_bind, (wp_nth_half _ _ hp); [done|]. pose proof (Hpb mp (S mp) rprev rp Ep Erp ltac:(lia)) as Hord.
    assert (HremS : remaining (S mp) mc = remaining mp mc - 1) by (unfold remaining; lia).
    assert (HDs : D * (remaining mp mc - 1) = D * remaining mp mc - D) by lia.
    apply wp_bind. eapply (wp_cap_range i rprev rcur Irp Irc Hpc Hcp k a (half_st hp) pb xs' rp
      (ca :: (half_st <$> drop (S (S mp)) plst) ++ (half_st <$> clst)) (half_ed hp :: (half_ed <$> drop (S (S mp)) plst) ++ (half_ed <$> clst)) ns);
      [|done|done|done|lia|lia|rewrite ?HremS, ?HDs; lia|].
    { eapply tracing_perm; [| |done|exact T]; solve_Permutation. }
    intros k1 a1 T1 Hk1 S1.
    assert (Hkeep : ∀ p x y, p ∈ (ca :: half_st hp :: (half_st <$> drop (S (S mp)) plst) ++ (half_st <$> clst)) ++
      (pb :: half_ed hp :: (half_ed <$> drop (S (S mp)) plst) ++ (half_ed <$> clst)) → at_pt (nodes a) p x y → at_pt (nodes a1) p x y).
    { intros p x y Hp. eapply keep_pt; [exact T|exact Hp|done]. }
    destruct (Hpr rp (list_elem_of_lookup_2 _ _ _ Erp)) as [Hrpw _].
    apply (IH (S mp) mc rp rcur (half_ed hp) ca xs clst k1 a1); [done|done|done|lia|lia|exact T1| | | | |done|rewrite ?HremS, ?HDs; lia|lia|].
    - eapply keep_halves; [exact T| |exact S1|done]. intros hc Hin. set_solver.
    - eapply keep_halves; [exact T| |exact S1|done]. intros hc Hin. set_solver.
    - apply Hkeep; [set_solver|done].
    - apply Hkeep; [set_solver|done].
    - intros mp' mc' clst' k' a' R' ? ? ? ? ? ?. apply (HQ _ _ _ k'); [done|lia|done|lia|lia|done|]. eapply (same_pts_trans k k1); [lia|done|done]. }
  clear Er. apply wp_bind. eapply wp_lift; [by apply (last_ok (i - 1))|].
  destruct (reached (ed rprev - 1) (cranges !! S mc)) as [rc|] eqn:Er.
  { apply reached_some in Er as [Erc Hrc]. pose proof (Hcb mc (S mc) rcur rc Ec Erc ltac:(lia)) as Hord. pose proof (lookup_lt_Some _ _ _ Erc) as Hmc'.
    destruct (Hcr rc (list_elem_of_lookup_2 _ _ _ Erc)) as [Hrcw _]. destruct Irc as [Hrcurw _].
    assert (HremS : remaining mp (S mc) = remaining mp mc - 1) by (unfold remaining; lia).
    assert (HDs : D * (remaining mp mc - 1) = D * remaining mp mc - D) by lia.
    apply wp_bind, (wp_make_cavity k a i (ed rcur - 1) (st rc) _ _ ns _ T); [lia|intros; by eapply (Hgap mc rcur rc)|rewrite ?HremS, ?HDs; lia|].
    intros k1 a1 [cs ce] T1 Hk1 S1 P1 P2. cbn [half_st half_ed] in *.
    assert (Hkeep : ∀ p x y, p ∈ (ca :: (half_st <$> drop (S mp) plst) ++ (half_st <$> clst)) ++
      (pb :: (half_ed <$> drop (S mp) plst) ++ (half_ed <$> clst)) → at_pt (nodes a) p x y → at_pt (nodes a1) p x y).
    { intros p x y Hp. eapply keep_pt; [exact T|exact Hp|done]. }
    apply (IH mp (S mc) rprev rc pb ce (st rc - 1) (clst ++ [mkHalf ca cs]) k1 a1); [done|done|done|lia|lia| | | | |exact P2|lia|rewrite ?HremS, ?HDs; lia|lia|].
    - rewrite !fmap_app. cbn [fmap list_fmap half_st half_ed]. eapply tracing_perm; [| |done|exact T1]; solve_Permutation.
    - eapply keep_halves; [exact T| |exact S1|done]. intros hc Hin. set_solver.
    - rewrite (take_S_r _ _ _ Ec). apply Forall2_app; [|constructor; [|constructor]].
      + eapply keep_halves; [exact T| |exact S1|done]. intros hc Hin. set_solver.
      + exists xs. cbn [half_st half_ed]. split_and!; [apply Hkeep; [set_solver|done]|lia|lia|done].
    - apply Hkeep; [set_solver|done].
    - intros mp' mc' clst' k' a' R' ? ? ? ? ? ?. apply (HQ _ _ _ k'); [done|lia|done|lia|done|lia|]. eapply (same_pts_trans k k1); [lia|done|done]. }
  assert (HremS : remaining (S mp) (S mc) = remaining mp mc - 2) by (unfold remaining; lia).
  assert (HDs : D * (remaining mp mc - 2) = D * remaining mp mc - 2 * D) by lia.
  apply wp_bind, (wp_extend_end i rprev rcur Irp Irc Hpc Hcp k a pb _ _ ns _ T); [done|rewrite ?HremS, ?HDs; lia|]. intros k1 a1 p T1 Hk1 S1 P1. apply wp_ret.
  assert (Hkeep : ∀ p x y, p ∈ (ca :: (half_st <$> drop (S mp) plst) ++ (half_st <$> clst)) ++
    (pb :: (half_ed <$> drop (S mp) plst) ++ (half_ed <$> clst)) → at_pt (nodes a) p x y → at_pt (nodes a1) p x y).
  { intros q x y Hp. eapply keep_pt; [exact T|exact Hp|done]. }
  apply (HQ _ _ _ k1); [|lia|rewrite ?HremS, ?HDs; lia|lia|lia|lia|done]. split.
  - rewrite !fmap_app. cbn [fmap list_fmap half_st half_ed]. eapply tracing_perm; [| |done|exact T1]; solve_Permutation.
  - eapply keep_halves; [exact T| |exact S1|done]. intros hc Hin. set_solver.
  - rewrite (take_S_r _ _ _ Ec). apply Forall2_app; [|constructor; [|constructor]].
    + eapply keep_halves; [exact T| |exact S1|done]. intros hc Hin. set_solver.
    + exists xs. cbn [half_st half_ed]. split_and!; [apply Hkeep; [set_solver|done]|lia|lia|done].
Qed.

Lemma wp_row_loop fuel : ∀ mp mc clst k a (Q : nat * nat * list HalfContour → AnalysisAllocator → Prop),
  ns = [] → length plst = length pranges → row_state k a mp mc clst → (mp ≤ length pranges)%nat → (mc ≤ length cranges)%nat →
  k + D * remaining mp mc ≤ K → remaining mp mc ≤ Z.of_nat fuel →
  (∀ mp' mc' clst' k' a', row_state k' a' mp' mc' clst' → k ≤ k' → k' + D * remaining mp' mc' ≤ K →
     (mp' ≤ length pranges)%nat → (mc' ≤ length cranges)%nat → Q (mp', mc', clst') a') →
  wp (row_loop i pranges cranges plst fuel mp mc clst) Q a.
Proof.
  induction fuel as [|fuel IH]; intros mp mc clst k a Q Hns HL R Hmp Hmc Hk Hf HQ; cbn [row_loop];
    destruct (pranges !! mp) as [rprev|] eqn:Ep; [|by apply wp_ret, (HQ _ _ _ k)| |by apply wp_ret, (HQ _ _ _ k)];
    (destruct (cranges !! mc) as [rcur|] eqn:Ec; [|by apply wp_ret, (HQ _ _ _ k)]);
    pose proof (lookup_lt_Some _ _ _ Ep) as Hmp'; pose proof (lookup_lt_Some _ _ _ Ec) as Hmc'; [unfold remaining in *; lia|].
  pose proof (Hpr rprev (list_elem_of_lookup_2 _ _ _ Ep)) as Irp. pose proof (Hcr rcur (list_elem_of_lookup_2 _ _ _ Ec)) as Irc.
  assert (HD : D = 2 * W + 2) by done. assert (HDr : 2 * D ≤ D * remaining mp mc) by (unfold remaining; nia).
  destruct (drop_prev mp rprev Ep HL) as (hp & Ehp & Edp & Edl). destruct R as [T Hprev Hcur].
  apply wp_bind. eapply wp_lift; [by apply (last_ok i)|]. destruct (Z.ltb_spec (ed rcur - 1) (st rprev)) as [Hlt|Hge].
  { assert (HremS : remaining mp (S mc) = remaining mp mc - 1) by (unfold remaining; lia).
    assert (HDs : D * (remaining mp mc - 1) = D * remaining mp mc - D) by lia. pose proof Irc as [Hrw Hrok].
    apply wp_bind, (wp_fwd_range k a i rcur _ _ ns _ T); [done|done|lia|]. intros k1 a1 [hs he] T1 Hk1 S1 (xs & P1 & Hxs & P2). cbn [half_st half_ed] in *.
    apply (IH mp (S mc) _ k1); [done|done| |done|lia|rewrite HremS, HDs; lia|lia|intros; eapply HQ; try done; lia]. split.
    - rewrite !fmap_app. cbn [fmap list_fmap half_st half_ed]. eapply tracing_perm; [| |done|exact T1]; solve_Permutation.
    - eapply keep_halves; [exact T| |exact S1|done]. intros hc Hin. set_solver.
    - rewrite (take_S_r _ _ _ Ec). apply Forall2_app; [|constructor; [|constructor]].
      + eapply keep_halves; [exact T| |exact S1|done]. intros hc Hin. set_solver.
      + by exists xs. }
  apply wp_bind. eapply wp_lift; [by apply (last_ok (i - 1))|]. apply wp_bind, (wp_nth_half _ _ hp); [done|].
  rewrite Edp, Edl in Hprev. apply Forall2_cons in Hprev as [Hhp Hprev]. rewrite Edl in T. cbn [fmap list_fmap app] in T.
  destruct (Z.ltb_spec (ed rprev - 1) (st rcur)) as [Hlt|Hge'].
  { assert (HremS : remaining (S mp) mc = remaining mp mc - 1) by (unfold remaining; lia).
    assert (HDs : D * (remaining mp mc - 1) = D * remaining mp mc - D) by lia. pose proof Irp as [Hrw Hrok].
    destruct hp as [hs he]. cbn [half_st half_ed] in T.
    apply wp_bind, (wp_close_range k a (i - 1) rprev hs he _ _ ns ns _ T); [done|done|done|lia|rewrite Hns; intros p Hp; by apply elem_of_nil in Hp|].
    intros k1 a1 T1 Hk1 S1. apply (IH (S mp) mc clst k1); [done|done| |lia|done|rewrite HremS, HDs; lia|lia|intros; eapply HQ; try done; lia]. split.
    - exact T1.
    - eapply keep_halves; [exact T| |exact S1|done]. intros hc Hin. set_solver.
    - eapply keep_halves; [exact T| |exact S1|done]. intros hc Hin. set_solver. }
  destruct Hhp as (xs & P1 & Hxs & P2).
  apply wp_bind, (wp_extend_start i rprev rcur Irp Irc Hge Hge' k a (half_st hp) xs _ _ ns _ T); [done|done|lia|].
  intros k1 a1 ca T1 Hk1 S1 Pca. apply wp_bind.
  apply (wp_join_loop (S fuel) mp mc rprev rcur (half_ed hp) ca (st rcur) clst k1 a1); [done|done|done|lia|lia|exact T1| | | |done|lia|lia|lia|].
  - eapply keep_halves; [exact T| |exact S1|done]. intros hc Hin. set_solver.
  - eapply keep_halves; [exact T| |exact S1|done]. intros hc Hin. set_solver.
  - eapply keep_pt; [exact T| |exact S1|done]. set_solver.
  - intros mp' mc' clst' k' a' R' Hk' Hk'' Hrem Hmp'' Hmc'' _. apply (IH mp' mc' clst' k'); [done|done|done|lia|lia|done|lia|].
    intros. eapply HQ; try done. lia.
Qed.
End Join.

Lemma wp_open_all i ss es ns rs : ∀ done_rs clst k a (Q : list HalfContour → AnalysisAllocator → Prop), 0 ≤ W →
  tracing k a (ss ++ (half_st <$> clst)) (es ++ (half_ed <$> clst)) ns → Forall2 (half_at (nodes a) i) done_rs clst →
  (∀ r, r ∈ rs → inside i r) → k + (W + 1) * Z.of_nat (length rs) ≤ max_nodes →
  (∀ clst' k' a', tracing k' a' (ss ++ (half_st <$> clst')) (es ++ (half_ed <$> clst')) ns → Forall2 (half_at (nodes a') i) (done_rs ++ rs) clst' →
     k ≤ k' ≤ k + (W + 1) * Z.of_nat (length rs) → same_pts k (nodes a) (nodes a') → Q clst' a') →
  wp (open_all i rs clst) Q a.
Proof.
  induction rs as [|r rs IH]; intros done_rs clst k a Q HW T HF Hin Hk HQ; cbn [open_all].
  { apply wp_ret, (HQ _ k); [done|by rewrite app_nil_r|cbn; lia|apply same_pts_refl]. }
  cbn [length] in Hk. rewrite Nat2Z.inj_succ, Z.mul_succ_r in Hk. destruct (Hin r ltac:(set_solver)) as [Hr Hrok].
  apply wp_bind, (wp_fwd_range k a i r _ _ ns _ T); [done|done|nia|]. intros k1 a1 hc T1 Hk1 S1 P1.
  apply (IH (done_rs ++ [r]) (clst ++ [hc]) k1 a1); [done| | |intros; apply Hin; set_solver|lia|].
  - rewrite !fmap_app. cbn [fmap list_fmap]. eapply tracing_perm; [| |done|exact T1]; solve_Permutation.
  - apply Forall2_app; [|by constructor]. eapply keep_halves; [exact T| |exact S1|done]. intros h Hh. set_solver.
  - intros clst' k' a' T' HF' Hk' S'. apply (HQ _ k'); [done|by rewrite <-app_assoc in HF'|cbn [length]; rewrite Nat2Z.inj_succ, Z.mul_succ_r; lia|].
    eapply (same_pts_trans k k1); [lia|done|done].
Qed.

Lemma wp_close_all i ss es ns l : ∀ rs k a (Q : unit → AnalysisAllocator → Prop), 0 ≤ W →
  tracing k a ((half_st <$> l) ++ ss) ((half_ed <$> l) ++ es) ns → Forall2 (half_at (nodes a) i) rs l → (∀ r, r ∈ rs → inside i r) →
  (∀ p hc, p ∈ ns → hc ∈ l → p ≠ half_ed hc) → k + (W + 1) * Z.of_nat (length l) ≤ max_nodes →
  (∀ k' a', tracing k' a' ss es ns → k ≤ k' ≤ k + (W + 1) * Z.of_nat (length l) → same_pts k (nodes a) (nodes a') → Q tt a') →
  wp (close_all l) Q a.
Proof.
  induction l as [|[hs he] l IH]; intros rs k a Q HW T HF Hin Hns Hk HQ; cbn [close_all].
  { apply wp_ret, (HQ k); [done|cbn; lia|apply same_pts_refl]. }
  cbn [length] in Hk. rewrite Nat2Z.inj_succ, Z.mul_succ_r in Hk. destruct rs as [|r rs]; [by inversion HF|]. apply Forall2_cons in HF as [Hh HF].
  destruct (Hin r ltac:(set_solver)) as [Hr Hrok]. cbn [fmap list_fmap app half_st half_ed] in T.
  apply wp_bind, (wp_close_range k a i r hs he _ _ ns ns _ T); [done|done|done|nia| |].
  { intros p Hp. split; [done|]. left. apply (Hns p (mkHalf hs he)); [done|set_solver]. }
  intros k1 a1 T1 Hk1 S1. apply (IH rs k1); [done|done| |set_solver|set_solver|lia|].
  - eapply keep_halves; [exact T| |exact S1|done]. intros h Hh'. set_solver.
  - intros k' a' T' Hk' S'. apply (HQ k'); [done|cbn [length]; rewrite Nat2Z.inj_succ, Z.mul_succ_r; lia|]. eapply (same_pts_trans k k1); [lia|done|done].
Qed.

(** A row whose runs, and the gaps between them, may be used. *)
Record row_in (i : Z) (row : list ImageRange) : Prop := {
  ri_inside : ∀ r, r ∈ row → inside i r;
  ri_before : before row;
  ri_gap : ∀ j r r', row !! j = Some r → row !! S j = Some r' → ∀ c, ed r - 1 ≤ c < st r' → ok c i }.

(** The open ends of a row. *)
Definition open_row (k : Z) a (i : Z) (row : list ImageRange) (hs : list HalfContour) : Prop :=
  tracing k a (half_st <$> hs) (half_ed <$> hs) [] ∧ Forall2 (half_at (nodes a) i) row hs.

Lemma wp_contour_row i prev row plst k a (Q : list HalfContour → AnalysisAllocator → Prop) : 0 ≤ W →
  row_in (i - 1) prev → row_in i row → open_row k a (i - 1) prev plst → k + D * Z.of_nat (length prev + length row) ≤ max_nodes →
  (∀ clst k' a', open_row k' a' i row clst → k ≤ k' ≤ k + D * Z.of_nat (length prev + length row) → Q clst a') →
  wp (contour_row i prev row plst) Q a.
Proof.
  intros HW [Hp1 Hp2 _] [Hc1 Hc2 Hc3] [T HF] Hk HQ. unfold contour_row. apply wp_bind.
  pose proof (Forall2_length _ _ _ HF) as HL. set (K := k + D * Z.of_nat (length prev + length row)) in *.
  apply (wp_row_loop i prev row plst K [] Hp1 Hc1 Hp2 Hc2 Hc3 HW Hk _ 0 0 [] k); [done|done| |lia|lia| |unfold remaining; lia|].
  { split; [|done|constructor]. cbn [drop fmap list_fmap]. by rewrite !app_nil_r. }
  { unfold K, remaining. rewrite !Nat.sub_0_r. lia. }
  intros mp mc clst k1 a1 [T1 Hprev Hcur] Hk1 HK1 Hmp Hmc. unfold remaining in HK1. assert (HD : D = 2 * W + 2) by done.
  apply wp_bind, (wp_open_all i (half_st <$> drop mp plst) (half_ed <$> drop mp plst) [] (drop mc row) (take mc row) clst k1); [done|done|done| | |].
  { intros r Hr. apply Hc1. rewrite <-(take_drop mc row). set_solver. }
  { rewrite length_drop. nia. }
  rewrite take_drop, length_drop. intros clst' k2 a2 T2 Hcur2 Hk2 S2.
  assert (Hprev2 : Forall2 (half_at (nodes a2) (i - 1)) (drop mp prev) (drop mp plst)).
  { eapply keep_halves; [exact T1| |exact S2|done]. intros hc Hin. set_solver. }
  apply wp_bind, (wp_close_all (i - 1) (half_st <$> clst') (half_ed <$> clst') [] (drop mp plst) (drop mp prev) k2); [done|done|done| | | |].
  { intros r Hr. apply Hp1. rewrite <-(take_drop mp prev). set_solver. }
  { intros p hc Hp. by apply elem_of_nil in Hp. }
  { rewrite length_drop, <-HL. nia. }
  intros k3 a3 T3 Hk3 S3. rewrite length_drop, <-HL in Hk3. apply wp_ret, (HQ _ k3); [|split; [lia|fold K; nia]].
  split; [done|]. eapply keep_halves; [exact T2| |exact S3|done]. intros hc Hin. set_solver.
Qed.

Fixpoint rows_in (i : Z) (rows : list (list ImageRange)) : Prop :=
  match rows with [] => True | row :: rows => row_in i row ∧ rows_in (i + 1) rows end.

Definition runs (rows : list (list ImageRange)) : Z := Z.of_nat (length (concat rows)).

Lemma wp_contour_rows rows : ∀ i prev plst k a (Q : list HalfContour → AnalysisAllocator → Prop), 0 ≤ W →
  row_in (i - 1) prev → rows_in i rows → - 2 ^ 30 ≤ i → i + Z.of_nat (length rows) ≤ 2 ^ 30 → open_row k a (i - 1) prev plst →
  k + D * (Z.of_nat (length prev) + 2 * runs rows) ≤ max_nodes →
  (∀ hs k' a', open_row k' a' (i - 1 + Z.of_nat (length rows)) (default prev (last rows)) hs →
     k ≤ k' → k' + D * Z.of_nat (length (default prev (last rows))) ≤ k + D * (Z.of_nat (length prev) + 2 * runs rows) → Q hs a') →
  wp (contour_rows i prev rows plst) Q a.
Proof.
  assert (HD : D = 2 * W + 2) by done.
  induction rows as [|row rows IH]; intros i prev plst k a Q HW Hprev Hrows Hi Hil HO Hk HQ; cbn [contour_rows].
  { apply wp_ret, (HQ _ k); [by rewrite Z.add_0_r|lia|unfold runs; cbn; lia]. }
  destruct Hrows as [Hrow Hrows]. unfold runs in *. cbn [concat length] in *. rewrite length_app in *.
  apply wp_bind, (wp_contour_row i prev row plst k); [done|done|done|done|nia|]. intros clst k1 a1 HO1 Hk1.
  apply wp_bind. eapply wp_lift; [apply chk_ok; unfold in_signed; lia|].
  apply (IH (i + 1) row clst k1 a1); [done|by replace (i + 1 - 1) with i by lia|done|lia|lia|by replace (i + 1 - 1) with i by lia|nia|].
  intros hs k' a' HO' Hk' HK'. assert (Hlast : default prev (last (row :: rows)) = default row (last rows)) by (destruct rows as [|r' rows']; [done|]; rewrite last_cons_cons; by destruct (last (r' :: rows')) eqn:E; [|apply last_None in E]).
  rewrite Hlast in HQ. apply (HQ _ k'); [|lia|nia]. replace (i - 1 + Z.of_nat (S (length rows))) with (i + 1 - 1 + Z.of_nat (length rows)) by lia. done.
Qed.

Lemma tracing_keep k a ss es ns p : p ∈ ss → tracing k a ss es ns → tracing k a ss es (p :: ns).
Proof.
  intros Hp [A (PS & CS & [HP HC N L H HN K])]. split; [done|]. exists PS, CS. split; try done.
  intros q [->|Hq]%elem_of_cons; [|auto]. rewrite <-L in Hp. apply list_elem_of_omap in Hp as (P & HP' & Hl).
  apply last_Some_elem_of in Hl. apply elem_of_app. left. by eapply concat_member.
Qed.

Lemma tracing_start a : 0 ≤ n_blocks a ≤ 1024 → tracing 0 (set_alloc (n_blocks a) 0 0 a) [] [] [].
Proof.
  intros Hb. split; [split; cbn; unfold block_size; (lia || done)|]. exists [], [].
  split; [done|done|apply NoDup_nil; done|done|done|by intros q Hq%elem_of_nil|by intros q Hq%elem_of_nil].
Qed.

(** Closing the last row leaves a cycle through its first node. *)
Lemma wp_close_last i row hs k a (Q : Z → AnalysisAllocator → Prop) : 0 ≤ W → row_in i row → row ≠ [] → open_row k a i row hs →
  k + D * Z.of_nat (length row) ≤ max_nodes →
  (∀ p k' a', tracing k' a' [] [] [p] → Q p a') → wp (_ ← close_all hs; h ← nth_half hs 0; mret (half_st h)) Q a.
Proof.
  intros HW [Hin Hbef _] Hne [T HF] Hk HQ. assert (HD : D = 2 * W + 2) by done.
  destruct row as [|r row]; [done|]. destruct hs as [|[s0 e0] hs]; [by inversion HF|]. pose proof (Forall2_length _ _ _ HF) as HL.
  apply Forall2_cons in HF as [Hh HF]. cbn [fmap list_fmap half_st half_ed length] in *. cbn [close_all]. apply wp_bind, wp_bind.
  destruct (Hin r ltac:(set_solver)) as [Hr Hrok]. apply (tracing_keep _ _ _ _ _ s0) in T; [|set_solver].
  destruct Hh as (xs & P1 & Hxs & P2). cbn [half_st half_ed] in P1, P2.
  apply (wp_close_range k a i r s0 e0 _ _ _ [s0] _ T); [done|by exists xs|done|nia| |].
  { intros p ->%list_elem_of_singleton. split; [set_solver|by right]. }
  intros k1 a1 T1 Hk1 S1.
  assert (HF1 : Forall2 (half_at (nodes a1) i) row hs) by (eapply keep_halves; [exact T| |exact S1|done]; intros hc Hc; set_solver).
  assert (P1' : at_pt (nodes a1) s0 xs i) by (eapply keep_pt; [exact T| |exact S1|done]; set_solver).
  eapply (wp_close_all i [] [] [s0] hs row k1); [done|by rewrite !app_nil_r|done|intros; apply Hin; set_solver| |nia|].
  - intros p hc ->%list_elem_of_singleton [j Hj]%list_elem_of_lookup E. destruct (Forall2_lookup_r _ _ _ _ _ HF1 Hj) as (r' & Hr' & xs' & _ & _ & P3).
    rewrite <-E in P3. destruct (at_pt_fun _ _ _ _ _ _ P1' P3) as [-> _].
    pose proof (Hbef 0%nat (S j) r r' eq_refl Hr' ltac:(lia)). destruct (Hin r') as [? _]; [apply elem_of_cons; right; by eapply list_elem_of_lookup_2|]. lia.
  - intros k2 a2 T2 Hk2 S2. apply wp_bind, (wp_nth_half _ _ (mkHalf s0 e0)); [done|]. apply wp_ret. by apply (HQ s0 k2).
Qed.
End Ops.

(** ** The theorem *)

(** A pixel between two pixels of the blob on its row. *)
Definition spanned (rimg : RangeImage) (x y : Z) : Prop :=
  mini rimg ≤ y ∧ ∃ row r r', ranges rimg !! Z.to_nat (y - mini rimg) = Some row ∧ r ∈ row ∧ r' ∈ row ∧ st r ≤ x < ed r'.

(** Rows of ordered runs in the columns from [xl] to [xr], the last one not empty, and few
    enough for the allocator. *)
Definition contour_okb (xl xr : Z) (rimg : RangeImage) : bool :=
  forallb row_okb (ranges rimg) && forallb (forallb (λ r, (xl <=? st r) && (ed r - 1 <=? xr))) (ranges rimg) &&
  (- 2 ^ 30 <=? xl) && (xr <=? 2 ^ 30) && (- 2 ^ 30 <=? mini rimg) && (mini rimg + Z.of_nat (length (ranges rimg)) <=? 2 ^ 30) &&
  negb (bool_decide (default [] (last (ranges rimg)) = [])) && (4 * (xr - xl + 1) * runs (ranges rimg) <=? max_nodes).

Record contour_ok (xl xr : Z) (rimg : RangeImage) : Prop := {
  co_rows : ∀ row, row ∈ ranges rimg → row_ok row ∧ ∀ r, r ∈ row → xl ≤ st r ∧ ed r - 1 ≤ xr;
  co_bounds : - 2 ^ 30 ≤ xl ∧ xr ≤ 2 ^ 30 ∧ - 2 ^ 30 ≤ mini rimg ∧ mini rimg + Z.of_nat (length (ranges rimg)) ≤ 2 ^ 30;
  co_last : default [] (last (ranges rimg)) ≠ [];
  co_room : 4 * (xr - xl + 1) * runs (ranges rimg) ≤ max_nodes }.

Lemma contour_okb_ok xl xr rimg : contour_okb xl xr rimg = true → contour_ok xl xr rimg.
Proof.
  unfold contour_okb. rewrite !andb_true_iff, !Z.leb_le, negb_true_iff, bool_decide_eq_false, !forallb_forall.
  intros (((((((H1 & H2) & ?) & ?) & ?) & ?) & ?) & ?). split; [|lia|done|done].
  intros row Hrow. apply list_elem_of_In in Hrow as Hrow'. split; [by apply row_okb_ok, H1|].
  intros r Hr. specialize (H2 row Hrow'). rewrite forallb_forall in H2. apply list_elem_of_In in Hr. specialize (H2 r Hr).
  rewrite andb_true_iff, !Z.leb_le in H2. done.
Qed.

Section Main.
Context (xl xr : Z) (rimg : RangeImage) (C : contour_ok xl xr rimg).

Lemma spanned_bounds x y : spanned rimg x y → xl ≤ x ≤ xr ∧ - 2 ^ 30 ≤ y ≤ 2 ^ 30.
Proof.
  intros (Hy & row & r & r' & Er & Hr & Hr' & Hx). pose proof (lookup_lt_Some _ _ _ Er). apply list_elem_of_lookup_2 in Er.
  destruct C as [H1 H2 _ _]. destruct (H1 row Er) as [_ H3]. destruct (H3 r Hr), (H3 r' Hr'). lia.
Qed.

Lemma row_in_spanned n row : ranges rimg !! n = Some row → row_in (spanned rimg) (mini rimg + Z.of_nat n) row.
Proof.
  intros Er. destruct (co_rows _ _ _ C row (list_elem_of_lookup_2 _ _ _ Er)) as [[HF HB] _]. rewrite Forall_forall in HF.
  assert (Hsp : ∀ c r r', r ∈ row → r' ∈ row → st r ≤ c < ed r' → spanned rimg c (mini rimg + Z.of_nat n)).
  { intros c r r' Hr Hr' Hc. split; [lia|]. exists row, r, r'. replace (Z.to_nat (mini rimg + Z.of_nat n - mini rimg)) with n by lia. done. }
  split; [|done|].
  - intros r Hr. destruct (HF r Hr) as [? _]. split; [done|]. intros c Hc. by apply (Hsp c r r).
  - intros j r r' Hj Hj' c Hc. apply list_elem_of_lookup_2 in Hj, Hj'. destruct (HF r Hj) as [? _], (HF r' Hj') as [? _]. apply (Hsp c r r'); [done|done|lia].
Qed.

Lemma rows_in_spanned n rows : drop n (ranges rimg) = rows → rows_in (spanned rimg) (mini rimg + Z.of_nat n) rows.
Proof.
  revert n. induction rows as [|row rows IH]; intros n E; cbn; [done|].
  assert (Hn : ranges rimg !! n = Some row) by (rewrite <-(Nat.add_0_r n), <-lookup_drop, E; done).
  split; [by apply row_in_spanned|]. replace (mini rimg + Z.of_nat n + 1) with (mini rimg + Z.of_nat (S n)) by lia. apply IH.
  rewrite (drop_S _ _ _ Hn) in E. by injection E.
Qed.
End Main.

(** A cycle can be read from any of its nodes. *)
Lemma linked_app_inv h l1 l2 : linked h (l1 ++ l2) → linked h l1 ∧ linked h l2 ∧ ∀ z b, last l1 = Some z → head l2 = Some b → link h z b.
Proof.
  induction l1 as [|a [|c l] IH]; intros H; [done| |].
  - destruct l2 as [|b l2]; [by split_and!|]. destruct H as [HL H]. split_and!; [done|done|]. by intros z b' [= <-] [= <-].
  - destruct H as [HL H]. destruct (IH H) as (H1 & H2 & H3). split; [done|]. split; [done|]. intros z b Hz. rewrite last_cons_cons in Hz. by apply H3.
Qed.

Lemma cycle_rotate h l1 l2 : l2 ≠ [] → cycle h (l1 ++ l2) → cycle h (l2 ++ l1).
Proof.
  intros Hne [HL (a & z & Ha & Hz & Hza)]. destruct (linked_app_inv _ _ _ HL) as (H1 & H2 & H3).
  destruct l1 as [|a' l1]; [rewrite app_nil_r; split; [done|by exists a, z]|]. injection Ha as ->.
  assert (Hz2 : last l2 = Some z) by (rewrite last_app in Hz; destruct (last l2) eqn:E; [done|by apply last_None in E]).
  destruct l2 as [|b l2]; [done|]. destruct (last (a :: l1)) as [z1|] eqn:E1; [|by apply last_None in E1].
  split; [by apply (linked_app _ _ _ z a)|]. exists b, z1. split_and!; [done|by rewrite last_app, E1|by apply H3].
Qed.


(** A row of nine pixels with two legs of three. *)
Definition sample_legs : RangeImage := RangeImage_new 0 [[mkRange 0 9]; [mkRange 0 3; mkRange 6 9]].


(** The contour crosses the gap between the legs on the row of the legs: three of its
    points are not in the blob. *)
Theorem contour_leaves_blob : ∃ p a', range_img_to_obj sample_legs new_allocator = Ok (p, a') ∧
  (4, 1) ∈ contour_points 18 a' p ∧ ¬ Exists (λ r, st r ≤ 4 < ed r) (default [] (ranges sample_legs !! 1%nat)).
Proof.
  eexists _, _. split; [vm_compute; reflexivity|]. split.
  - apply (bool_decide_unpack _). vm_compute. exact I.
  - cbn. intros H. apply Exists_cons in H as [H|H]; [cbn in H; lia|]. apply Exists_cons in H as [H|H]; [cbn in H; lia|]. by apply Exists_nil in H.
Qed.
