(* ===== verification/HierMerge.v ===== *)
(** * Lines along a contour: aos/vision/blob/hierarchical_contour_merge.cc

    [hier_merge] cuts a closed contour into arcs that are close to lines: at first every point
    is an arc, and neighbouring arcs are merged while a line fits them well; the queue hands out
    the largest error first.  The errors are computed in [double] and kept as [float]. *)

From S2P Require Import Prelude Double RangeImage FindBlob Contour.

(** ** Prefix sums *)

(** [IntegralArray<int>]: the vector [items]. *)
Definition arr_add (t : Z) (items : list Z) : res (list Z) :=
  match last items with
  | None => Ok [t]
  | Some s => v ← i32 (t + s); Ok (items ++ [v])
  end.

(** [IntegralArray::mod]; the size is not 0. *)
Definition arr_mod (a n : Z) : res Z :=
  if n =? 0 then Err Undefined else v ← i32 (Z.rem a n + n); Ok (Z.rem v n).

Definition arr_get (items : list Z) (a b : Z) : res Z :=
  let size := Z.of_nat (length items) in
  a ← arr_mod a size;
  b ← arr_mod b size;
  if b <? a then
    all ← at_ items (size - 1);
    to_a ← at_ items (a - 1);
    if b =? 0 then i32 (all - to_a)
    else to_b ← at_ items (b - 1); v ← i32 (all + to_b); i32 (v - to_a)
  else if a =? 0 then at_ items (b - 1)
  else to_b ← at_ items (b - 1); to_a ← at_ items (a - 1); i32 (to_b - to_a).

(** ** IntegralLineFit *)

Record IntegralLineFit := mkFit { xx : list Z; xy : list Z; yy : list Z; x_ : list Z; y_ : list Z; n_ : Z; min_len_ : Z }.

Definition add_pt (pt : Z * Z) (f : IntegralLineFit) : res IntegralLineFit :=
  let '(x, y) := pt in
  sxx ← i32 (x * x); xx' ← arr_add sxx (xx f);
  sxy ← i32 (x * y); xy' ← arr_add sxy (xy f);
  syy ← i32 (y * y); yy' ← arr_add syy (yy f);
  x' ← arr_add x (x_ f);
  y' ← arr_add y (y_ f);
  Ok (mkFit xx' xy' yy' x' y' (n_ f) (min_len_ f)).

(** [(i + n) % n] *)
Definition around (i n : Z) : res Z := v ← i32 (i + n); if n =? 0 then Err Undefined else Ok (Z.rem v n).

Definition dsqrt : double → double := SFsqrt 53 1024.

(** [float], with 24 bits; [<] is right for two of them, not for one and a [double]. *)
Abbreviation float := spec_float.
Definition fltb : float → float → bool := SFltb.
Definition float_of_Z (z : Z) : float := binary_normalize 24 128 z 0 false.

Definition to_float (d : double) : float :=
  match d with S754_finite s m e => binary_normalize 24 128 (if s then Zneg m else Zpos m) e s | _ => d end.

(** [(p * nv - q * r) / nvsq] *)
Definition moment (p q r nv : Z) (nvsq : double) : res double :=
  a ← i64 (p * nv); b ← i64 (q * r); d ← i64 (a - b); Ok (ddiv (double_of_Z d) nvsq).

Definition get_line_error_rate (f : IntegralLineFit) (st ed : Z) : res float :=
  d ← i32 (ed - st);
  nv ← around d (n_ f);
  px ← arr_get (x_ f) st ed;
  py ← arr_get (y_ f) st ed;
  pxx ← arr_get (xx f) st ed;
  pxy ← arr_get (xy f) st ed;
  pyy ← arr_get (yy f) st ed;
  sq ← i64 (nv * nv);
  let nvsq := double_of_Z sq in
  m_xx ← moment pxx px px nv nvsq;
  m_xy ← moment pxy px py nv nvsq;
  m_yy ← moment pyy py py nv nvsq;
  let b := dadd m_xx m_yy in
  let c := dsub (dmul m_xx m_yy) (dmul m_xy m_xy) in
  Ok (to_float (ddiv (dsub b (dsqrt (dsub (dmul b b) (dmul (double_of_Z 4) c)))) (double_of_Z 2))).

(** The number of points, and by how many the range is extended on each side. *)
Definition range_size (f : IntegralLineFit) (st ed : Z) : res Z :=
  e ← i32 (ed + 1);
  nv ← i32 (e - st);
  if ed <? st then i32 (nv + n_ f) else Ok nv.

Definition extension (f : IntegralLineFit) (nv : Z) : res Z := d ← i32 (min_len_ f - nv); Ok (Z.quot (Z.max d 0) 2).

Definition get_err_line_range (f : IntegralLineFit) (st ed : Z) : res float :=
  nv ← range_size f st ed;
  j ← extension f nv;
  s ← i32 (st - j); s ← around s (n_ f);
  e ← i32 (ed + 1 + j); e ← around e (n_ f);
  get_line_error_rate f s e.

Definition FittedLine : Type := (Z * Z) * (Z * Z).

Definition fit_line (f : IntegralLineFit) (st ed : Z) (pst ped : Z * Z) : res FittedLine :=
  nv ← range_size f st ed;
  j ← extension f nv;
  s ← i32 (st - j); st ← around s (n_ f);
  e ← i32 (ed + 1 + j); ed ← around e (n_ f);
  if nv <=? min_len_ f then Ok (pst, pst)
  else
    px ← arr_get (x_ f) st ed;
    py ← arr_get (y_ f) st ed;
    pxx ← arr_get (xx f) st ed;
    pxy ← arr_get (xy f) st ed;
    pyy ← arr_get (yy f) st ed;
    sq ← i32 (nv * nv);
    let nvsq := double_of_Z sq in
    m_xx ← moment pxx px px nv nvsq;
    m_xy ← moment pxy px py nv nvsq;
    m_yy ← moment pyy py py nv nvsq;
    let m_x := ddiv (double_of_Z px) (double_of_Z nv) in
    let m_y := ddiv (double_of_Z py) (double_of_Z nv) in
    let b := ddiv (dadd m_xx m_yy) (double_of_Z 2) in
    let c := dsub (dmul m_xx m_yy) (dmul m_xy m_xy) in
    let eiggen := dsqrt (dsub (dmul b b) c) in
    let eigv := dsub b eiggen in
    let vx := dsub m_xx eigv in
    let vy := m_xy in
    let mag := dsqrt (dadd (dmul vx vx) (dmul vy vy)) in
    let vx := ddiv vx mag in
    let vy := ddiv vy mag in
    let project (p : Z * Z) := dadd (dmul vx (dsub (double_of_Z p.1) m_x)) (dmul vy (dsub (double_of_Z p.2) m_y)) in
    let point (v : double) :=
      x ← int_of_double (dadd m_x (dmul vx v)); y ← int_of_double (dadd m_y (dmul vy v)); Ok (x, y) in
    apt ← point (project pst);
    bpt ← point (project ped);
    Ok (apt, bpt).

(** ** The contour *)

(** [do { ... c = c->next; } while (c != stval)] *)
Fixpoint do_points {S} (fuel : nat) (body : Z * Z → S → res S) (h : gmap Z ContourNode) (stval c : Z) (s : S) : res S :=
  match fuel with
  | O => Err Fuel
  | S fuel =>
      v ← of_option Undefined (h !! c);
      s ← body (pt_x v, pt_y v) s;
      if next v =? stval then Ok s else do_points fuel body h stval (next v) s
  end.

(** ** Merging *)

(** [ids], [sts], [eds], and the queue: errors with the first and the last point. *)
Record merging := mkMerging { ids : list Z; sts : list Z; eds : list Z; evnts : list (float * (Z * Z)) }.

Section Merge.
(** Where [std::priority_queue] has its top: any of the largest ones. *)
Context (top : list (float * (Z * Z)) → nat).

Context (f : IntegralLineFit) (merge_rate : float).

(** [if (... != ...) { ... if (err < merge_rate) evnts.push(...); }] *)
Definition try_push (differ : bool) (st ed : Z) (q : list (float * (Z * Z))) : res (list (float * (Z * Z))) :=
  if differ then
    err ← get_err_line_range f st ed;
    Ok (if fltb err merge_rate then q ++ [(err, (st, ed))] else q)
  else Ok q.

Definition find_in (e : Z) (u : list Z) : res (Z * list Z) := find (S (length u)) e u.

(** The body of [while (evnts.size() > 0)], for the event that was taken off.  [plim] and
    [nlim] are 0, so that both conditions on them hold. *)
Definition merge_event (est eed : Z) (m : merging) : res merging :=
  '(pi1, u) ← find_in est (ids m);
  '(pi2, u) ← find_in eed u;
  st ← at_ (sts m) pi1;
  ed ← at_ (eds m) pi2;
  if (st =? est) && (ed =? eed) && negb (pi1 =? pi2) then
    let u := set_at u pi2 pi1 in
    before ← around (st - 1) (n_ f);
    '(r, u) ← find_in before u;
    pi ← at_ (sts m) r;
    after ← around (ed + 1) (n_ f);
    '(r, u) ← find_in after u;
    ni ← at_ (eds m) r;
    let eds' := set_at (eds m) pi1 ed in
    q ← try_push (negb (pi =? st)) pi ed (evnts m);
    q ← try_push (negb (ni =? ed)) st ni q;
    Ok (mkMerging u (sts m) eds' q)
  else Ok (mkMerging u (sts m) (eds m) (evnts m)).

Fixpoint merge_loop (fuel : nat) (m : merging) : res merging :=
  match evnts m with
  | [] => Ok m
  | _ :: _ =>
      match fuel with
      | O => Err Fuel
      | S fuel =>
          let k := top (evnts m) in
          '(_, (est, eed)) ← of_option Undefined (evnts m !! k);
          m ← merge_event est eed (mkMerging (ids m) (sts m) (eds m) (delete k (evnts m)));
          merge_loop fuel m
      end
  end.

(** The events of neighbouring points, from the [i]th on. *)
Fixpoint first_events (k : nat) (i : Z) (q : list (float * (Z * Z))) : res (list (float * (Z * Z))) :=
  match k with
  | O => Ok q
  | S k =>
      err ← get_err_line_range f (i - 1) i;
      s ← around (i - 1) (n_ f);
      first_events k (i + 1) (q ++ [(err, (s, i))])
  end.

(** The last loop: a line for each arc that is long enough. *)
Fixpoint fit_loop (k : nat) (i : Z) (m : merging) (pts : list (Z * Z)) (fit_lines : list FittedLine) : res (list FittedLine) :=
  match k with
  | O => Ok fit_lines
  | S k =>
      id ← at_ (ids m) i;
      if id =? -1 then
        sti ← at_ (sts m) i;
        edi ← at_ (eds m) i;
        d ← i32 (edi - sti); len ← around d (n_ f);
        if min_len_ f <? len then
          pst ← at_ pts sti;
          ped ← at_ pts edi;
          l ← fit_line f sti edi pst ped;
          fit_loop k (i + 1) m pts (fit_lines ++ [l])
        else fit_loop k (i + 1) m pts fit_lines
      else fit_loop k (i + 1) m pts fit_lines
  end.

(** From the vectors of the loops over the contour on. *)
Definition merge_points (pts : list (Z * Z)) (fit_lines : list FittedLine) : res (list FittedLine) :=
  let n := length pts in
  q ← first_events n 0 [];
  m ← merge_loop (3 * n) (mkMerging (replicate n (-1)) (seqZ 0 (Z.of_nat n)) (seqZ 0 (Z.of_nat n)) q);
  fit_loop n 0 m pts fit_lines.
End Merge.

(** The two passes over the contour. *)
Definition collect (h : gmap Z ContourNode) (stval min_len : Z) : res (IntegralLineFit * list (Z * Z)) :=
  let fuel := S (size h) in
  n ← do_points fuel (λ _ n, i32 (n + 1)) h stval stval 0;
  do_points fuel (λ pt '(f, pts), f ← add_pt pt f; Ok (f, pts ++ [pt])) h stval stval (mkFit [] [] [] [] [] n min_len, []).

Definition hier_merge (top : list (float * (Z * Z)) → nat) (h : gmap Z ContourNode) (stval : Z) (fit_lines : list FittedLine) (merge_rate : float) (min_len : Z)
    : res (list FittedLine) :=
  '(f, pts) ← collect h stval min_len;
  merge_points top f merge_rate pts fit_lines.

(** ** Points around a contour *)

(** The steps from [a] forward to [b]. *)
Definition dist (n a b : Z) : Z := (b - a) mod n.

Definition inside (n x : Z) : Prop := 0 ≤ x < n.

Lemma dist_cases n a b : inside n a → inside n b → (a ≤ b ∧ dist n a b = b - a) ∨ (b < a ∧ dist n a b = b - a + n).
Proof.
  intros Ha Hb. unfold dist, inside in *. destruct (decide (a ≤ b)); [left|right]; (split; [lia|]).
  - apply Z.mod_small. lia.
  - rewrite <-(Z_mod_plus_full (b - a) 1 n), Z.mod_small by lia. lia.
Qed.

Lemma mod_cases n x : - n ≤ x < 2 * n → 0 < n → inside n (x mod n) ∧ (x mod n = x ∨ x mod n = x - n ∨ x mod n = x + n).
Proof.
  intros Hx Hn. pose proof (Z.mod_pos_bound x n Hn) as Hb. split; [done|].
  pose proof (Z.div_mod x n ltac:(lia)) as E. assert (x / n = 0 ∨ x / n = 1 ∨ x / n = -1) as [D|[D|D]] by nia; rewrite D in E; lia.
Qed.

(** All that is said about the points in range is linear. *)
Ltac around_solve :=
  repeat match goal with
  | H : context [dist ?n ?a ?b] |- _ => lazymatch goal with
      | _ : (a ≤ b ∧ dist n a b = _) ∨ _ |- _ => fail
      | _ => pose proof (dist_cases n a b ltac:(assumption) ltac:(assumption)) end
  | |- context [dist ?n ?a ?b] => lazymatch goal with
      | _ : (a ≤ b ∧ dist n a b = _) ∨ _ |- _ => fail
      | _ => pose proof (dist_cases n a b ltac:(assumption) ltac:(assumption)) end
  end;
  unfold inside in *; lia.

Section Arcs.
Context (n : Z).

(** The elements that belong to [r] are the points from [s] to [e]. *)
Definition arc (rep : Z → Z) (r s e : Z) : Prop :=
  inside n s ∧ inside n e ∧ ∀ x, inside n x → rep x = r ↔ dist n s x ≤ dist n s e.

Lemma arc_ends rep r s e : arc rep r s e → rep s = r ∧ rep e = r.
Proof. intros (Hs & He & H). split; apply H; try done; around_solve. Qed.

(** Two arcs with nothing else between the start of one and the end of the other. *)
Lemma arc_join rep p q s e1 s2 e : p ≠ q → arc rep p s e1 → arc rep q s2 e →
  (∀ x, inside n x → dist n s x ≤ dist n s e → rep x = p ∨ rep x = q) → arc (FindBlob.link rep q p) p s e.
Proof.
  intros Hpq A1 A2 HB. destruct (arc_ends _ _ _ _ A1) as [R1 _]. destruct (arc_ends _ _ _ _ A2) as [R2 R2'].
  destruct A1 as (Hs & He1 & H1), A2 as (Hs2 & He & H2). split_and!; [done|done|]. intros x Hx.
  assert (Hse : ¬ dist n s e ≤ dist n s e1) by (rewrite <-H1 by done; congruence).
  assert (Hs2s : ¬ dist n s2 s ≤ dist n s2 e) by (rewrite <-H2 by done; congruence).
  unfold FindBlob.link. destruct (decide (rep x = q)) as [E|E].
  - split; [intros _|done]. apply H2 in E; [|done]. around_solve.
  - rewrite H1 by done. split; [around_solve|]. intros Hd. destruct (HB x Hx Hd) as [Ep|Eq]; [|done]. by apply H1.
Qed.

(** The arc of the point after [e] starts there, and likewise before [s]. *)
Lemma arc_from rep r s3 e3 e a : arc rep r s3 e3 → inside n e → rep e ≠ r → a = (e + 1) mod n → rep a = r → s3 = a.
Proof.
  intros (Hs & He3 & H) He Hne -> Hr. destruct (mod_cases n (e + 1)) as [Ha Ca]; [unfold inside in *; lia..|].
  apply H in Hr; [|done]. rewrite H in Hne by done. set (a := (e + 1) mod n) in *. around_solve.
Qed.

Lemma arc_to rep r s0 e0 s b : arc rep r s0 e0 → inside n s → rep s ≠ r → b = (s - 1) mod n → rep b = r → e0 = b.
Proof.
  intros (Hs0 & He0 & H) Hs Hne -> Hr. destruct (mod_cases n (s - 1)) as [Hb Cb]; [unfold inside in *; lia..|].
  apply H in Hr; [|done]. rewrite H in Hne by done. set (b := (s - 1) mod n) in *. around_solve.
Qed.
End Arcs.

(** ** Prefix sums *)

Definition sum (l : list Z) : Z := foldr Z.add 0 l.

Lemma sum_app l k : sum (l ++ k) = sum l + sum k.
Proof. unfold sum. induction l as [|x l IH]; cbn; lia. Qed.

Lemma sum_bound B l : 0 ≤ B → Forall (λ x, Z.abs x ≤ B) l → Z.abs (sum l) ≤ B * Z.of_nat (length l).
Proof. intros HB. induction 1 as [|x l Hx _ IH]; unfold sum in *; cbn [foldr length]; nia. Qed.

Definition prefix_sums (l items : list Z) : Prop :=
  length items = length l ∧ ∀ i, (i < length l)%nat → items !! i = Some (sum (take (S i) l)).

Lemma prefix_sums_at l items i : prefix_sums l items → 0 < i ≤ Z.of_nat (length l) → at_ items (i - 1) = Ok (sum (take (Z.to_nat i) l)).
Proof. intros [_ H] Hi. apply at_some; [lia|]. rewrite H by lia. do 3 f_equal. lia. Qed.

(** All sums along the contour are in range. *)
Definition small_sums (l : list Z) : Prop := ∀ i j, Z.abs (sum (take i (drop j l))) ≤ 2 ^ 29.

Lemma small_sums_of B l : 0 ≤ B → Forall (λ x, Z.abs x ≤ B) l → B * Z.of_nat (length l) ≤ 2 ^ 29 → small_sums l.
Proof.
  intros HB HF HL i j. pose proof (sum_bound B (take i (drop j l)) HB ltac:(by apply Forall_take, Forall_drop)) as H.
  rewrite length_take, length_drop in H. nia.
Qed.

Lemma arr_add_sums l items t : prefix_sums l items → small_sums (l ++ [t]) →
  ∃ items', arr_add t items = Ok items' ∧ prefix_sums (l ++ [t]) items'.
Proof.
  intros [HL H] HS. unfold arr_add. assert (Hext : ∀ v, v = sum (l ++ [t]) → prefix_sums (l ++ [t]) (items ++ [v])).
  { intros v ->. split; [rewrite !length_app; cbn; lia|]. intros i Hi. rewrite length_app in Hi. cbn in Hi.
    destruct (decide (i < length l)%nat).
    - rewrite lookup_app_l, H by lia. rewrite take_app_le by lia. done.
    - rewrite lookup_app_r, take_ge by (rewrite ?length_app; cbn; lia). replace (i - length items)%nat with 0%nat by lia. done. }
  destruct (last items) as [s|] eqn:E.
  - rewrite last_lookup in E. assert (length items ≠ 0)%nat by (intros Z; rewrite (nil_length_inv _ Z) in E; done).
    rewrite H in E by lia. injection E as <-. rewrite take_ge by lia. pose proof (HS (length (l ++ [t])) 0%nat) as HB. rewrite drop_0, take_ge in HB by lia.
    assert (Ev : t + sum l = sum (l ++ [t])) by (rewrite sum_app; cbn; lia). rewrite Ev.
    rewrite (chk_ok 32) by (unfold in_signed; lia). rewrite res_bind_Ok. eexists. split; [done|]. by apply Hext.
  - apply last_None in E as ->. cbn in HL. destruct l; [|done]. exists [t]. split; [done|]. apply (Hext t). cbn. lia.
Qed.

(** [get] is the sum from [a] up to before [b], around the end. *)
Definition range_sum (l : list Z) (a b : Z) : Z :=
  if b <? a then sum (drop (Z.to_nat a) l) + sum (take (Z.to_nat b) l) else sum (take (Z.to_nat (b - a)) (drop (Z.to_nat a) l)).

Lemma sum_drop l i : sum (drop i l) = sum l - sum (take i l).
Proof. rewrite <-(take_drop i l) at 2. rewrite sum_app. lia. Qed.

Lemma sum_between l i k : (i ≤ k)%nat → sum (take (k - i) (drop i l)) = sum (take k l) - sum (take i l).
Proof. intros H. replace (take k l) with (take i l ++ take (k - i) (drop i l)); [rewrite sum_app; lia|]. replace k with (i + (k - i))%nat at 2 by lia. by rewrite take_take_drop. Qed.

Lemma arr_mod_ok a n : inside n a → n ≤ 2 ^ 29 → arr_mod a n = Ok a.
Proof.
  intros Ha Hn. unfold arr_mod, inside in *. destruct (Z.eqb_spec n 0); [lia|]. rewrite Z.rem_small, (chk_ok 32), res_bind_Ok by (try unfold in_signed; lia).
  f_equal. rewrite Z.rem_mod_nonneg by lia. replace (a + n) with (a + 1 * n) by lia. rewrite Z_mod_plus_full, Z.mod_small by lia. done.
Qed.

Lemma arr_get_sum l items a b : prefix_sums l items → small_sums l → Z.of_nat (length l) ≤ 2 ^ 29 →
  inside (Z.of_nat (length l)) a → inside (Z.of_nat (length l)) b → a ≠ b → arr_get items a b = Ok (range_sum l a b).
Proof.
  intros P HS Hn Ha Hb Hne. unfold arr_get. rewrite (proj1 P), !arr_mod_ok, !res_bind_Ok by done. unfold range_sum.
  assert (HP : ∀ i, Z.abs (sum (take i l)) ≤ 2 ^ 29) by (intros i; apply (HS i 0%nat)).
  assert (HD : ∀ i, Z.abs (sum (drop i l)) ≤ 2 ^ 29).
  { intros i. pose proof (HS (length l) i) as Hi. rewrite take_ge in Hi by (rewrite length_drop; lia). done. }
  unfold inside in *. destruct (Z.ltb_spec b a) as [Hab|Hab].
  - rewrite (prefix_sums_at l items (Z.of_nat (length l))), (prefix_sums_at l items a) by (done || lia). rewrite !res_bind_Ok, Nat2Z.id.
    rewrite (take_ge l (length l)) by lia. rewrite sum_drop. pose proof (HP (Z.to_nat a)). pose proof (HP (Z.to_nat b)). pose proof (HD 0%nat) as HA. rewrite drop_0 in HA.
    pose proof (HD (Z.to_nat a)) as Hda. rewrite sum_drop in Hda. destruct (Z.eqb_spec b 0) as [->|].
    + change (sum (take (Z.to_nat 0) l)) with 0. rewrite (chk_ok 32) by (unfold in_signed; lia). f_equal. lia.
    + rewrite (prefix_sums_at l items b) by (done || lia). rewrite res_bind_Ok, (chk_ok 32), res_bind_Ok, (chk_ok 32) by (unfold in_signed; lia). f_equal. lia.
  - destruct (Z.eqb_spec a 0) as [->|].
    + rewrite (prefix_sums_at l items b) by (done || lia). by rewrite Z.sub_0_r.
    + rewrite (prefix_sums_at l items a), (prefix_sums_at l items b) by (done || lia). rewrite !res_bind_Ok, (chk_ok 32).
      * f_equal. rewrite <-sum_between by lia. do 2 f_equal. lia.
      * rewrite <-sum_between by lia. pose proof (HS (Z.to_nat b - Z.to_nat a)%nat (Z.to_nat a)). unfold in_signed. lia.
Qed.

(** ** The errors are defined *)

Record fit_ok (f : IntegralLineFit) (pts : list (Z * Z)) : Prop := {
  fo_xx : prefix_sums ((λ p, p.1 * p.1) <$> pts) (xx f);
  fo_xy : prefix_sums ((λ p, p.1 * p.2) <$> pts) (xy f);
  fo_yy : prefix_sums ((λ p, p.2 * p.2) <$> pts) (yy f);
  fo_x : prefix_sums (fst <$> pts) (x_ f);
  fo_y : prefix_sums (snd <$> pts) (y_ f) }.

(** The points are at most [B] from the axes, so that no sum of [n] products is large. *)
Definition in_box (B : Z) (p : Z * Z) : Prop := Z.abs p.1 ≤ B ∧ Z.abs p.2 ≤ B.

Definition no_large_sum (B : Z) (pts : list (Z * Z)) : Prop :=
  1 ≤ B ∧ Forall (in_box B) pts ∧ B * B * Z.of_nat (length pts) ≤ 2 ^ 29.

Lemma small_sums_map (g : Z * Z → Z) B pts : no_large_sum B pts → (∀ p, in_box B p → Z.abs (g p) ≤ B * B) → small_sums (g <$> pts).
Proof.
  intros (HB & HF & HL) Hg. apply (small_sums_of (B * B)); [nia| |by rewrite length_fmap].
  apply Forall_fmap. by eapply Forall_impl.
Qed.

Lemma small_products B pts : no_large_sum B pts →
  small_sums ((λ p, p.1 * p.1) <$> pts) ∧ small_sums ((λ p, p.1 * p.2) <$> pts) ∧ small_sums ((λ p, p.2 * p.2) <$> pts) ∧
  small_sums (fst <$> pts) ∧ small_sums (snd <$> pts).
Proof. intros H. pose proof H as (HB & _). split_and!; (apply (small_sums_map _ B); [done|]); intros [x y] [Hx Hy]; cbn in *; nia. Qed.

Lemma range_sum_bound l a b : small_sums l → Z.abs (range_sum l a b) ≤ 2 ^ 30.
Proof.
  intros H. unfold range_sum. destruct (b <? a); [|pose proof (H (Z.to_nat (b - a)) (Z.to_nat a)); lia].
  pose proof (H (length l) (Z.to_nat a)) as H1. rewrite take_ge in H1 by (rewrite length_drop; lia).
  pose proof (H (Z.to_nat b) 0%nat) as H2. rewrite drop_0 in H2. lia.
Qed.

Lemma moment_ok p q r nv nvsq : Z.abs p ≤ 2 ^ 30 → Z.abs q ≤ 2 ^ 30 → Z.abs r ≤ 2 ^ 30 → 0 ≤ nv ≤ 2 ^ 30 → ∃ d, moment p q r nv nvsq = Ok d.
Proof. intros Hp Hq Hr Hn. 
  
  unfold moment. rewrite (chk_ok 64 (p * nv)), res_bind_Ok by (unfold in_signed; nia). rewrite (chk_ok 64 (q * r)), res_bind_Ok by (unfold in_signed; nia).
  rewrite (chk_ok 64 (p * nv - q * r)), res_bind_Ok by (unfold in_signed; nia). eauto.
Qed.

Section Errors.
Context (f : IntegralLineFit) (pts : list (Z * Z)) (B : Z).
Context (FO : fit_ok f pts) (HB : no_large_sum B pts).

Notation n := (Z.of_nat (length pts)).

Lemma points_few : n ≤ 2 ^ 29.
Proof using HB. destruct HB as (? & _ & ?). nia. Qed.

Lemma sums_ok a b : inside n a → inside n b → a ≠ b →
  ∃ px py pxx pxy pyy, arr_get (x_ f) a b = Ok px ∧ arr_get (y_ f) a b = Ok py ∧ arr_get (xx f) a b = Ok pxx ∧ arr_get (xy f) a b = Ok pxy ∧
    arr_get (yy f) a b = Ok pyy ∧ Forall (λ s, Z.abs s ≤ 2 ^ 30) [px; py; pxx; pxy; pyy].
Proof using FO HB.
  intros Ha Hb Hne. destruct (small_products B pts HB) as (S1 & S2 & S3 & S4 & S5). pose proof points_few.
  do 5 eexists. split_and!.
  1: eapply arr_get_sum; [apply FO|..]; rewrite ?length_fmap; done.
  1: eapply arr_get_sum; [apply FO|..]; rewrite ?length_fmap; done.
  1: eapply arr_get_sum; [apply FO|..]; rewrite ?length_fmap; done.
  1: eapply arr_get_sum; [apply FO|..]; rewrite ?length_fmap; done.
  1: eapply arr_get_sum; [apply FO|..]; rewrite ?length_fmap; done.
  repeat constructor; by apply range_sum_bound.
Qed.

Lemma around_ok i : - n ≤ i < 2 ^ 30 → 0 < n → around i n = Ok (i mod n).
Proof using HB.
  intros Hi Hn. pose proof points_few. unfold around. rewrite (chk_ok 32), res_bind_Ok by (unfold in_signed; lia).
  destruct (Z.eqb_spec (Z.of_nat (length pts)) 0) as [Hz|_]; [lia|]. rewrite Z.rem_mod_nonneg by lia. f_equal. rewrite <-(Z_mod_plus_full i 1 n). f_equal. lia.
Qed.

Context (Hn : n_ f = n) (Hlen : 0 ≤ min_len_ f < n).

Lemma line_error_ok a b : inside n a → inside n b → a ≠ b → ∃ e, get_line_error_rate f a b = Ok e.
Proof using FO HB Hn Hlen.
  intros Ha Hb Hne. pose proof points_few. unfold get_line_error_rate. destruct (sums_ok a b Ha Hb Hne) as (px & py & pxx & pxy & pyy & E1 & E2 & E3 & E4 & E5 & HF).
  rewrite !Forall_cons in HF. destruct HF as (B1 & B2 & B3 & B4 & B5 & _).
  assert (Hin : inside n ((b - a) mod n)) by (apply Z.mod_pos_bound; unfold inside in *; lia).
  unfold inside in *. rewrite (chk_ok 32 (b - a)), res_bind_Ok by (unfold in_signed; lia). rewrite Hn, around_ok, res_bind_Ok by lia.
  rewrite E1, res_bind_Ok, E2, res_bind_Ok, E3, res_bind_Ok, E4, res_bind_Ok, E5, res_bind_Ok.
  rewrite (chk_ok 64 ((b - a) mod n * ((b - a) mod n))), res_bind_Ok by (unfold in_signed; nia).
  destruct (moment_ok pxx px px ((b - a) mod n) (double_of_Z ((b - a) mod n * ((b - a) mod n)))) as [m1 ->]; [done..|lia|].
  destruct (moment_ok pxy px py ((b - a) mod n) (double_of_Z ((b - a) mod n * ((b - a) mod n)))) as [m2 ->]; [done..|lia|].
  destruct (moment_ok pyy py py ((b - a) mod n) (double_of_Z ((b - a) mod n * ((b - a) mod n)))) as [m3 ->]; [done..|lia|].
  rewrite !res_bind_Ok. eauto.
Qed.

(** The range with its extension is not the whole contour.  [st] may be -1. *)
Lemma err_line_range_ok st ed : -1 ≤ st < n → inside n ed → (st = -1 → ed = 0) → dist n st ed + 1 < n → ∃ e, get_err_line_range f st ed = Ok e.
Proof using FO HB Hn Hlen.
  intros Hst Hed H1 Hd. pose proof points_few. unfold get_err_line_range, inside in *.
  assert (Hnv : ∃ nv, range_size f st ed = Ok nv ∧ nv = dist n st ed + 1 ∧ 1 ≤ nv < n).
  { unfold range_size. rewrite (chk_ok 32), res_bind_Ok by (unfold in_signed; lia). rewrite (chk_ok 32), res_bind_Ok by (unfold in_signed; lia).
    destruct (decide (st = -1)) as [->|Hne].
    - rewrite H1 in Hd |- * by done. change (0 <? -1) with false. unfold dist in *. change (0 - -1) with 1 in *.
      pose proof (Z.mod_pos_bound 1 n ltac:(lia)). rewrite Z.mod_small in Hd |- * by lia. by exists 2.
    - pose proof (dist_cases n st ed ltac:(unfold inside; lia) ltac:(unfold inside; lia)).
      destruct (Z.ltb_spec ed st); [rewrite Hn, (chk_ok 32) by (unfold in_signed; lia)|]; (eexists; split; [done|lia]). }
  destruct Hnv as (nv & -> & Env & Hnv). rewrite res_bind_Ok. unfold extension.
  rewrite (chk_ok 32), !res_bind_Ok by (unfold in_signed; lia).
  set (j := Z.quot (Z.max (min_len_ f - nv) 0) 2). assert (Hj : 0 ≤ j ∧ nv + 2 * j < n).
  { unfold j. rewrite Z.quot_div_nonneg by lia. pose proof (Z.mul_div_le (Z.max (min_len_ f - nv) 0) 2 ltac:(lia)).
    pose proof (Z.div_pos (Z.max (min_len_ f - nv) 0) 2). lia. }
  clearbody j. rewrite (chk_ok 32 (st - j)), res_bind_Ok by (unfold in_signed; lia). rewrite Hn, around_ok, res_bind_Ok by lia.
  rewrite (chk_ok 32 (ed + 1 + j)), res_bind_Ok by (unfold in_signed; lia). rewrite around_ok, res_bind_Ok by lia.
  assert (0 < n) by lia. apply line_error_ok; [apply Z.mod_pos_bound; lia..|].
  intros E. assert (Hz : (ed + 1 + j - (st - j)) mod n = 0).
  { rewrite Zminus_mod, E, Z.sub_diag. by apply Z.mod_0_l; lia. }
  assert (Hsum : (ed + 1 + j - (st - j)) mod n = (nv + 2 * j) mod n).
  { rewrite Env. unfold dist. replace (ed + 1 + j - (st - j)) with ((ed - st) + (1 + 2 * j)) by lia.
    replace ((ed - st) mod n + 1 + 2 * j) with ((ed - st) mod n + (1 + 2 * j)) by lia. by rewrite Zplus_mod_idemp_l. }
  rewrite Hsum, Z.mod_small in Hz by lia. lia.
Qed.
End Errors.

(** ** The arcs while they are merged *)

Definition fitsb (f : IntegralLineFit) (merge_rate : float) (s e : Z) : bool :=
  match get_err_line_range f s e with Ok err => fltb err merge_rate | Err _ => false end.

(** No arc with half of the points or more is close to a line. *)
Definition short_lines (f : IntegralLineFit) (merge_rate : float) (n : Z) : bool :=
  forallb (λ s, forallb (λ e, negb (fitsb f merge_rate s e) || (2 * (dist n s e + 1) <? n)) (seqZ 0 n)) (seqZ 0 n).

Lemma inside_seqZ n x : x ∈ seqZ 0 n ↔ inside n x.
Proof. rewrite elem_of_seqZ. unfold inside. lia. Qed.

Lemma short_lines_ok f merge_rate n s e : short_lines f merge_rate n = true → inside n s → inside n e → fitsb f merge_rate s e = true → 2 * (dist n s e + 1) < n.
Proof.
  intros H Hs He Hf. unfold short_lines in H. rewrite forallb_forall in H. specialize (H s). rewrite forallb_forall in H.
  specialize (H (proj1 (list_elem_of_In _ _) (proj2 (inside_seqZ n s) Hs)) e (proj1 (list_elem_of_In _ _) (proj2 (inside_seqZ n e) He))).
  rewrite Hf in H. by apply Z.ltb_lt in H.
Qed.

(** An arc of one or two points, or one that a line fits. *)
Definition good (f : IntegralLineFit) (merge_rate : float) (n s e : Z) : Prop := dist n s e ≤ 1 ∨ fitsb f merge_rate s e = true.

Definition on_arc (n : Z) (a : Z * Z) (x : Z) : Prop := dist n a.1 x ≤ dist n a.1 a.2.

Definition long_arc (f : IntegralLineFit) (n : Z) (a : Z * Z) : Prop := min_len_ f < dist n a.1 a.2.
#[export] Instance long_arc_dec f n a : Decision (long_arc f n a) := Z_lt_dec _ _.

Definition line_of (f : IntegralLineFit) (pts : list (Z * Z)) (a : Z * Z) : res FittedLine :=
  pst ← at_ pts a.1; ped ← at_ pts a.2; fit_line f a.1 a.2 pst ped.

Section Merging.
Context (top : list (float * (Z * Z)) → nat) (f : IntegralLineFit) (merge_rate : float) (pts : list (Z * Z)) (B : Z).
Context (Htop : ∀ q, q ≠ [] → (top q < length q)%nat).
Context (FO : fit_ok f pts) (HB : no_large_sum B pts) (Hnf : n_ f = Z.of_nat (length pts)) (Hlen : 0 ≤ min_len_ f < Z.of_nat (length pts)).
Context (H5 : 5 ≤ Z.of_nat (length pts)) (Hshort : short_lines f merge_rate (Z.of_nat (length pts)) = true).

Notation N := (Z.of_nat (length pts)).
Notation good := (good f merge_rate N).

Lemma good_short s e : inside N s → inside N e → good s e → 2 * (dist N s e + 1) < N.
Proof. intros Hs He [H|H]; [lia|]. by eapply short_lines_ok. Qed.

(** Between the ends of an event are only points of the two arcs. *)
Definition event_ok (rep : Z → Z) (ev : float * (Z * Z)) : Prop :=
  let '(_, (s, e)) := ev in
  inside N s ∧ inside N e ∧ good s e ∧ ∀ x, inside N x → dist N s x ≤ dist N s e → rep x = rep s ∨ rep x = rep e.

Record arcs_ok (m : merging) (rep : Z → Z) : Prop := {
  ao_forest : ∃ dep, forest (ids m) rep dep;
  ao_lens : length (ids m) = length pts ∧ length (sts m) = length pts ∧ length (eds m) = length pts;
  ao_arc : ∀ r, inside N r → rep r = r → ∃ s e, sts m !! Z.to_nat r = Some s ∧ eds m !! Z.to_nat r = Some e ∧ arc N rep r s e ∧ good s e;
  ao_events : Forall (event_ok rep) (evnts m) }.

Definition n_arcs (rep : Z → Z) : nat := length (filter (λ x, rep x = x) (seqZ 0 N)).

Lemma find_in_ok u rep : (∃ dep, forest u rep dep) → length u = length pts → ∀ e, inside N e →
  ∃ u', find_in e u = Ok (rep e, u') ∧ (∃ dep, forest u' rep dep) ∧ length u' = length pts ∧ inside N (rep e) ∧ rep (rep e) = rep e.
Proof.
  intros [dep F] HL e He. assert (Hv : valid u e) by (unfold valid, inside in *; lia).
  destruct (find_ok (S (length u)) e u rep dep F Hv) as (u' & E & F' & HL'); [pose proof (f_dep _ _ _ F e Hv); lia|].
  exists u'. split_and!; [done|by exists dep|lia| |by apply (rep_rep F)].
  destruct (f_rep _ _ _ F e Hv) as [[? ?] _]. unfold inside. lia.
Qed.

(** What was pushed fits and has no other points in between. *)
Lemma try_push_ok rep differ s e q : (differ = true → inside N s ∧ inside N e ∧ dist N s e + 1 < N ∧
    ∀ x, inside N x → dist N s x ≤ dist N s e → rep x = rep s ∨ rep x = rep e) →
  Forall (event_ok rep) q → ∃ q', try_push f merge_rate differ s e q = Ok q' ∧ Forall (event_ok rep) q' ∧ (length q' ≤ S (length q))%nat.
Proof.
  intros H HF. unfold try_push. destruct differ; [|exists q; split_and!; [done|done|lia]].
  destruct (H eq_refl) as (Hs & He & Hd & Hbtw).
  destruct (err_line_range_ok f pts B FO HB Hnf Hlen s e) as [err E]; [unfold inside in *; lia|done|unfold inside in *; lia|done|].
  rewrite E, res_bind_Ok. destruct (fltb err merge_rate) eqn:El; (eexists; split; [done|]); [|split; [done|lia]].
  rewrite length_app. split; [|cbn; lia]. apply Forall_app. split; [done|]. apply Forall_singleton. split_and!; [done|done| |done].
  right. unfold fitsb. by rewrite E.
Qed.

Lemma event_ok_link rep p c ev : event_ok rep ev → event_ok (FindBlob.link rep p c) ev.
Proof.
  destruct ev as [err [s e]]. intros (Hs & He & Hg & H). split_and!; [done..|]. intros x Hx Hd. unfold FindBlob.link.
  destruct (H x Hx Hd) as [-> | ->]; [by left|by right].
Qed.

(** Linking two arcs makes one of them. *)
Lemma n_arcs_link rep p c : inside N p → rep p = p → rep c = c → p ≠ c → (S (n_arcs (FindBlob.link rep p c)) ≤ n_arcs rep)%nat.
Proof.
  intros Hp Ep Ec Hne. unfold n_arcs. set (l := filter (λ x, FindBlob.link rep p c x = x) (seqZ 0 N)).
  assert (Hin : ∀ x, x ∈ p :: l → x ∈ filter (λ x, rep x = x) (seqZ 0 N)).
  { intros x [-> |Hx]%elem_of_cons; apply list_elem_of_filter; [split; [done|]; by apply inside_seqZ|].
    apply list_elem_of_filter in Hx as [E Hx]. split; [|done]. unfold FindBlob.link in E. destruct (decide (rep x = p)); congruence. }
  change (S (length l)) with (length (p :: l)). apply submseteq_length, NoDup_submseteq; [|done].
  apply NoDup_cons. split; [|by apply NoDup_filter, NoDup_seqZ]. intros [E _]%list_elem_of_filter. unfold FindBlob.link in E. rewrite decide_True in E by done. done.
Qed.

(** An arc and the one after it. *)
Lemma next_arcs rep r p s0 b s e : arc N rep r s0 b → arc N rep p s e → b = (s - 1) mod N → good s0 b → good s e →
  inside N s0 ∧ inside N e ∧ dist N s0 e + 1 < N ∧ ∀ x, inside N x → dist N s0 x ≤ dist N s0 e → rep x = rep s0 ∨ rep x = rep e.
Proof.
  intros A1 A2 Hb G1 G2. destruct (arc_ends _ _ _ _ _ A1) as [R1 _], (arc_ends _ _ _ _ _ A2) as [_ R2].
  destruct A1 as (Hs0 & Hbi & H1), A2 as (Hs & He & H2). rewrite R1, R2.
  apply good_short in G1; [|done..]. apply good_short in G2; [|done..].
  destruct (mod_cases N (s - 1)) as [_ Cb]; [unfold inside in *; lia..|]. rewrite <-Hb in Cb.
  split_and!; [done|done|around_solve|]. intros x Hx Hd.
  destruct (decide (dist N s0 x ≤ dist N s0 b)) as [Hl|Hl]; [left; by apply H1|right; apply H2; [done|]]. around_solve.
Qed.

(** The arc of a neighbour of the arc from [s] to [e]. *)
Lemma before_arc m rep p s e : arcs_ok m rep → arc N rep p s e → good s e → ∀ r, r = rep ((s - 1) mod N) → inside N r → rep r = r → r ≠ p →
  ∃ s0, sts m !! Z.to_nat r = Some s0 ∧ arc N rep r s0 ((s - 1) mod N) ∧ good s0 ((s - 1) mod N).
Proof.
  intros AO A G r Er Hr Err Hne. destruct (ao_arc _ _ AO r Hr Err) as (s0 & e0 & E1 & _ & A0 & G0).
  destruct (arc_ends _ _ _ _ _ A) as [Rs _]. pose proof (proj1 A) as Hs. exists s0.
  rewrite <-(arc_to N rep r s0 e0 s ((s - 1) mod N)); try done; congruence.
Qed.

Lemma after_arc m rep p s e : arcs_ok m rep → arc N rep p s e → good s e → ∀ r, r = rep ((e + 1) mod N) → inside N r → rep r = r → r ≠ p →
  ∃ e0, eds m !! Z.to_nat r = Some e0 ∧ arc N rep r ((e + 1) mod N) e0 ∧ good ((e + 1) mod N) e0.
Proof.
  intros AO A G r Er Hr Err Hne. destruct (ao_arc _ _ AO r Hr Err) as (s3 & e3 & _ & E2 & A3 & G3).
  destruct (arc_ends _ _ _ _ _ A) as [_ Re]. pose proof (proj1 (proj2 A)) as He. exists e3.
  rewrite <-(arc_from N rep r s3 e3 e ((e + 1) mod N)); try done; congruence.
Qed.

(** The neighbours do not belong to an arc with less than half of the points. *)
Lemma neighbours_out rep p s e : arc N rep p s e → good s e →
  inside N ((s - 1) mod N) ∧ rep ((s - 1) mod N) ≠ p ∧ inside N ((e + 1) mod N) ∧ rep ((e + 1) mod N) ≠ p ∧ e = ((e + 1) mod N - 1) mod N.
Proof.
  intros (Hs & He & H) G. apply good_short in G; [|done..].
  destruct (mod_cases N (s - 1)) as [Hb Cb]; [unfold inside in *; lia..|].
  destruct (mod_cases N (e + 1)) as [Ha Ca]; [unfold inside in *; lia..|].
  set (b := (s - 1) mod N) in *. set (a := (e + 1) mod N) in *.
  destruct (mod_cases N (a - 1)) as [Ha' Ca']; [unfold inside in *; lia..|]. set (a' := (a - 1) mod N) in *.
  split_and!; [done| |done| |unfold inside in *; lia]; rewrite H by done; around_solve.
Qed.

(** The arcs after [q] was linked to [p], and [eds\[p\]] set. *)
Lemma arcs_ok_link m rep u' p q s e eds' : arcs_ok m rep → (∃ dep, forest u' (FindBlob.link rep q p) dep) → length u' = length pts →
  inside N p → rep p = p → p ≠ q → sts m !! Z.to_nat p = Some s → arc N (FindBlob.link rep q p) p s e → good s e → eds' = set_at (eds m) p e →
  ∀ evs, Forall (event_ok (FindBlob.link rep q p)) evs → arcs_ok (mkMerging u' (sts m) eds' evs) (FindBlob.link rep q p).
Proof.
  intros AO F HL Hp Ep Hpq Es A G -> evs He. pose proof (ao_lens _ _ AO) as (L1 & L2 & L3). split; cbn; [done| |  |done].
  { split_and!; [done|done|by rewrite set_at_length]. }
  intros r Hr Err. destruct (decide (r = p)) as [->|Hne].
  - exists s, e. split_and!; [done| |done|done]. apply set_at_eq. unfold valid, inside in *. lia.
  - assert (rep r = r ∧ r ≠ q) as [Er Hrq] by (unfold FindBlob.link in Err; destruct (decide (rep r = q)); [congruence|split; congruence]).
    destruct (ao_arc _ _ AO r Hr Er) as (s0 & e0 & E1 & E2 & (? & ? & A0) & G0). exists s0, e0. split_and!; [done| |split_and!; [done|done|]|done].
    + rewrite set_at_ne; [done|apply Hp|apply Hr|congruence].
    + intros x Hx. rewrite <-A0 by done. unfold FindBlob.link. destruct (decide (rep x = q)) as [->|]; [|done]. split; congruence.
Qed.

Lemma range_around x : inside N x → around (x - 1) (n_ f) = Ok ((x - 1) mod N) ∧ around (x + 1) (n_ f) = Ok ((x + 1) mod N).
Proof. intros Hx. pose proof (points_few pts B HB). unfold inside in *. rewrite Hnf. split; eapply around_ok; (done || lia). Qed.

Lemma merge_event_ok m rep err est eed : arcs_ok m rep → event_ok rep (err, (est, eed)) →
  ∃ m' rep', merge_event f merge_rate est eed m = Ok m' ∧ arcs_ok m' rep' ∧ (length (evnts m') + 2 * n_arcs rep' ≤ length (evnts m) + 2 * n_arcs rep)%nat.
Proof.
  intros AO (Hs & He & G & Hbtw). pose proof (ao_lens _ _ AO) as (L1 & L2 & L3). unfold merge_event.
  destruct (find_in_ok _ _ (ao_forest _ _ AO) L1 est Hs) as (u1 & -> & F1 & L1' & Hp & Ep). rewrite res_bind_Ok.
  destruct (find_in_ok _ _ F1 L1' eed He) as (u2 & -> & F2 & L2' & Hq & Eq). rewrite res_bind_Ok.
  destruct (ao_arc _ _ AO _ Hp Ep) as (s1 & e1 & S1 & E1 & A1 & G1), (ao_arc _ _ AO _ Hq Eq) as (s2 & e2 & S2 & E2 & A2 & G2).
  set (p := rep est) in *. set (q := rep eed) in *.
  rewrite (at_some _ _ _ (proj1 Hp) S1), (at_some _ _ _ (proj1 Hq) E2), !res_bind_Ok.
  destruct ((s1 =? est) && (e2 =? eed) && negb (p =? q)) eqn:EC; cbn [evnts].
  2: { exists (mkMerging u2 (sts m) (eds m) (evnts m)), rep. split_and!; [done|split; cbn; [done|done|apply AO|apply AO]|cbn; lia]. }
  rewrite !andb_true_iff, negb_true_iff, !Z.eqb_eq, Z.eqb_neq in EC. destruct EC as [[-> ->] Hpq].
  set (rep' := FindBlob.link rep q p).
  assert (F3 : ∃ dep, forest (set_at u2 q p) rep' dep).
  { destruct F2 as [dep F2]. eapply forest_link; try done; unfold valid, inside in *; lia. }
  assert (A' : arc N rep' p est eed) by by eapply arc_join.
  destruct (neighbours_out rep' p est eed A' G) as (Hb & Nb & Ha & Na & Eb).
  destruct (range_around est Hs) as [-> _], (range_around eed He) as [_ ->]. rewrite res_bind_Ok.
  destruct (find_in_ok _ _ F3 ltac:(by rewrite set_at_length) _ Hb) as (u3 & -> & F4 & L4 & Hr1 & Er1). rewrite res_bind_Ok.
  assert (AO' : ∀ u' evs, (∃ dep, forest u' rep' dep) → length u' = length pts → Forall (event_ok rep') evs →
    arcs_ok (mkMerging u' (sts m) (set_at (eds m) p eed) evs) rep') by (intros; by eapply arcs_ok_link).
  pose proof (AO' u3 [] F4 L4 ltac:(done)) as AO3.
  destruct (before_arc _ _ _ _ _ AO3 A' G _ eq_refl Hr1 Er1 Nb) as (pi & Epi & Api & Gpi). cbn [sts] in Epi.
  rewrite (at_some _ _ _ (proj1 Hr1) Epi), !res_bind_Ok.
  destruct (find_in_ok _ _ F4 L4 _ Ha) as (u4 & -> & F5 & L5 & Hr2 & Er2). rewrite res_bind_Ok.
  destruct (after_arc _ _ _ _ _ AO3 A' G _ eq_refl Hr2 Er2 Na) as (ni & Eni & Ani & Gni). cbn [eds] in Eni.
  rewrite set_at_ne in Eni by (apply Hp || apply Hr2 || done).
  rewrite (at_some _ _ _ (proj1 Hr2) Eni), !res_bind_Ok.
  destruct (try_push_ok rep' (negb (pi =? est)) pi eed (evnts m)) as (q1 & -> & HF1 & HL1).
  { intros _. by eapply next_arcs. }
  { eapply Forall_impl; [apply AO|]. intros ev. apply event_ok_link. }
  rewrite res_bind_Ok. destruct (try_push_ok rep' (negb (ni =? eed)) est ni q1) as (q2 & -> & HF2 & HL2); [|done|].
  { intros _. by eapply next_arcs. }
  rewrite res_bind_Ok. eexists _, rep'. split; [done|]. split; [by apply AO'|]. cbn [evnts].
  pose proof (n_arcs_link rep q p Hq Eq Ep (not_eq_sym Hpq)). fold rep' in H. lia.
Qed.

(** The loop ends: each turn takes an event off, and a merge, which adds at most two, leaves
    an arc fewer. *)
Lemma merge_loop_ok fuel m rep : arcs_ok m rep → (length (evnts m) + 2 * n_arcs rep ≤ fuel)%nat →
  ∃ m' rep', merge_loop top f merge_rate fuel m = Ok m' ∧ arcs_ok m' rep' ∧ evnts m' = [].
Proof.
  revert m rep. induction fuel as [|fuel IH]; intros m rep AO Hf; (destruct (evnts m) as [|ev evs] eqn:E; [exists m, rep; by destruct m; cbn in *; subst|]).
  - cbn in Hf. lia.
  - cbn [merge_loop]. rewrite E. set (q := ev :: evs) in *. pose proof (Htop q ltac:(done)) as Hk.
    destruct (lookup_lt_is_Some_2 q (top q) Hk) as [[err [est eed]] Eq]. rewrite Eq. cbn [of_option]. rewrite res_bind_Ok.
    pose proof (ao_events _ _ AO) as HF. rewrite E in HF. fold q in HF.
    destruct (merge_event_ok (mkMerging (ids m) (sts m) (eds m) (delete (top q) q)) rep err est eed) as (m1 & rep1 & E1 & AO1 & Hm).
    + split; try apply AO. cbn. by apply Forall_delete.
    + by eapply (Forall_lookup_1 (event_ok rep)).
    + rewrite E1, res_bind_Ok. apply (IH m1 rep1 AO1). cbn [evnts] in Hm.
      rewrite length_delete in Hm by (rewrite Eq; eauto). unfold q in *. cbn [length] in *. lia.
Qed.

Lemma first_events_ok k i q : Z.of_nat k + i = N → 0 ≤ i → Forall (event_ok id) q →
  ∃ q', first_events f k i q = Ok q' ∧ Forall (event_ok id) q' ∧ length q' = (k + length q)%nat.
Proof.
  revert i q. induction k as [|k IH]; intros i q Hk Hi HF; [by exists q|]. cbn [first_events].
  assert (Hin : inside N i) by (unfold inside; lia).
  assert (Hd : dist N (i - 1) i = 1) by (unfold dist; replace (i - (i - 1)) with 1 by lia; apply Z.mod_small; lia).
  destruct (err_line_range_ok f pts B FO HB Hnf Hlen (i - 1) i) as [err ->]; [lia|done|lia|lia|]. rewrite res_bind_Ok.
  destruct (range_around i Hin) as [-> _]. rewrite res_bind_Ok.
  destruct (IH (i + 1) (q ++ [(err, ((i - 1) mod N, i))])) as (q' & -> & HF' & HL'); [lia|lia| |exists q'; split_and!; [done|done|rewrite HL', length_app; cbn; lia]].
  apply Forall_app. split; [done|]. apply Forall_singleton. destruct (mod_cases N (i - 1)) as [Hb Cb]; [unfold inside in *; lia..|].
  set (b := (i - 1) mod N) in *. split_and!; [done|done|left; around_solve|]. intros x Hx Hdx. cbn.
  destruct (decide (x = b)) as [->|Hne]; [by left|right]. around_solve.
Qed.

(** At first every point is an arc. *)
Lemma arcs_ok_start q : Forall (event_ok id) q → arcs_ok (mkMerging (replicate (length pts) (-1)) (seqZ 0 N) (seqZ 0 N) q) id.
Proof.
  intros HF. split; cbn [ids sts eds evnts]; [| | |done].
  - exists (λ _, 0%nat). split.
    + intros e He. split; [done|]. unfold id. apply lookup_replicate_2. unfold valid in He. rewrite length_replicate in He. lia.
    + intros e t He Ht. left. apply lookup_replicate in Ht as [-> _]. done.
    + intros e He. cbn. apply roots_length.
  - rewrite length_replicate, !length_seqZ. lia.
  - intros r Hr _. exists r, r. rewrite !lookup_seqZ. split_and!; try (unfold inside in *; lia).
    + split_and!; [done|done|]. intros x Hx. cbn. split; [intros ->; lia|]. around_solve.
    + left. around_solve.
Qed.

(** ** The lines *)

Definition arc_at (m : merging) (r : Z) : Z * Z := (default 0 (sts m !! Z.to_nat r), default 0 (eds m !! Z.to_nat r)).
Definition arcs_of (m : merging) (rep : Z → Z) (rs : list Z) : list (Z * Z) := arc_at m <$> filter (λ r, rep r = r) rs.

Lemma fit_loop_lines m rep k i fit_lines : arcs_ok m rep → 0 ≤ i → i + Z.of_nat k = N →
  fit_loop f k i m pts fit_lines = (ls ← mapM (line_of f pts) (filter (long_arc f N) (arcs_of m rep (seqZ i (Z.of_nat k)))); Ok (fit_lines ++ ls)).
Proof.
  intros AO. revert i fit_lines. induction k as [|k IH]; intros i acc Hi Hk; [change (Ok acc = Ok (acc ++ [])); by rewrite app_nil_r|].
  rewrite seqZ_cons by lia. replace (Z.succ i) with (i + 1) by lia. replace (Z.pred (Z.of_nat (S k))) with (Z.of_nat k) by lia.
  assert (Hin : inside N i) by (unfold inside; lia). pose proof (ao_lens _ _ AO) as (L1 & _).
  assert (Hv : valid (ids m) i) by (unfold valid, inside in *; lia).
  cbn [fit_loop]. destruct (at_valid _ _ Hv) as (t & Ht & ->). rewrite res_bind_Ok. unfold arcs_of. rewrite filter_cons.
  destruct (ao_forest _ _ AO) as [dep F]. destruct (f_parent _ _ _ F i t Hi Ht) as [(-> & E & _)|((? & _) & E & _)].
  - rewrite decide_True by done. rewrite fmap_cons, filter_cons. cbn [Z.eqb Pos.eqb].
    destruct (ao_arc _ _ AO i Hin E) as (s & e & Es & Ee & (Hs & He & _) & _).
    assert (Ea : arc_at m i = (s, e)) by (unfold arc_at; by rewrite Es, Ee). rewrite Ea.
    rewrite (at_some _ _ _ Hi Es), (at_some _ _ _ Hi Ee), !res_bind_Ok.
    pose proof (points_few pts B HB). unfold inside in *. rewrite (chk_ok 32), res_bind_Ok by (unfold in_signed; lia).
    rewrite Hnf, (around_ok pts B HB), res_bind_Ok by lia. fold (dist N s e).
    destruct (Z.ltb_spec (min_len_ f) (dist N s e)).
    + rewrite decide_True by done. cbn [mapM]. change (line_of f pts (s, e)) with (pst ← at_ pts s; ped ← at_ pts e; fit_line f s e pst ped).
      destruct (at_ pts s) as [pst|]; [|done]. destruct (at_ pts e) as [ped|]; [|done]. rewrite !res_bind_Ok.
      destruct (fit_line f s e pst ped) as [l|]; [|done]. rewrite !res_bind_Ok, IH by lia. fold (arcs_of m rep (seqZ (i + 1) (Z.of_nat k))).
      destruct (mapM _ _); [|done]. cbn. by rewrite <-app_assoc.
    + rewrite decide_False by (unfold long_arc; cbn; lia). apply IH; lia.
  - rewrite decide_False by done. destruct (Z.eqb_spec t (-1)); [lia|]. apply IH; lia.
Qed.

(** What the arcs are in the end. *)
Lemma arcs_of_partition m rep : arcs_ok m rep → ∀ x, inside N x →
  exists! i, ∃ a, arcs_of m rep (seqZ 0 N) !! i = Some a ∧ on_arc N a x.
Proof.
  intros AO x Hx. pose proof (ao_lens _ _ AO) as (L1 & _).
  destruct (find_in_ok _ _ (ao_forest _ _ AO) L1 x Hx) as (_ & _ & _ & _ & Hr & Er).
  set (rs := filter (λ r, rep r = r) (seqZ 0 N)).
  assert (Hon : ∀ r i, rs !! i = Some r → on_arc N (arc_at m r) x ↔ r = rep x).
  { intros r i Hri%list_elem_of_lookup_2. apply list_elem_of_filter in Hri as [Err Hi%inside_seqZ].
    destruct (ao_arc _ _ AO r Hi Err) as (s & e & Es & Ee & (_ & _ & A) & _).
    unfold on_arc, arc_at. rewrite Es, Ee. cbn. rewrite <-A by done. split; congruence. }
  assert (Hin : rep x ∈ rs) by (apply list_elem_of_filter; split; [done|by apply inside_seqZ]).
  apply list_elem_of_lookup in Hin as [i Ei]. exists i. unfold arcs_of. fold rs. split.
  - exists (arc_at m (rep x)). rewrite list_lookup_fmap, Ei. split; [done|]. by eapply Hon.
  - intros j (a & Ea & Ha). rewrite list_lookup_fmap in Ea. destruct (rs !! j) as [r|] eqn:Ej; [|done]. injection Ea as <-.
    apply (Hon r j Ej) in Ha as ->. eapply NoDup_lookup; [|done|done]. apply NoDup_filter, NoDup_seqZ.
Qed.

Lemma arcs_of_good m rep : arcs_ok m rep → Forall (λ a, inside N a.1 ∧ inside N a.2 ∧ good a.1 a.2) (arcs_of m rep (seqZ 0 N)).
Proof.
  intros AO. apply Forall_fmap, Forall_forall. intros r [Er Hr%inside_seqZ]%list_elem_of_filter.
  destruct (ao_arc _ _ AO r Hr Er) as (s & e & Es & Ee & (Hs & He & _) & G). cbn. by rewrite Es, Ee.
Qed.

Lemma merge_points_ok fit_lines : ∃ arcs, (∀ x, inside N x → exists! i, ∃ a, arcs !! i = Some a ∧ on_arc N a x) ∧
  Forall (λ a, inside N a.1 ∧ inside N a.2 ∧ good a.1 a.2) arcs ∧
  merge_points top f merge_rate pts fit_lines = (ls ← mapM (line_of f pts) (filter (long_arc f N) arcs); Ok (fit_lines ++ ls)).
Proof.
  destruct (first_events_ok (length pts) 0 []) as (q & Eq & HF & HL); [lia|done|done|]. rewrite Nat.add_0_r in HL.
  destruct (merge_loop_ok (3 * length pts) _ _ (arcs_ok_start q HF)) as (m & rep & Em & AO & _).
  { cbn [evnts]. rewrite HL. unfold n_arcs. pose proof (length_filter (λ x, id x = x) (seqZ 0 N)) as Hl. rewrite length_seqZ in Hl. lia. }
  exists (arcs_of m rep (seqZ 0 N)). split_and!; [by apply arcs_of_partition|by apply arcs_of_good|].
  unfold merge_points. rewrite Eq, res_bind_Ok, Em, res_bind_Ok. apply (fit_loop_lines m rep); [done|done|lia].
Qed.
End Merging.

(** ** The contour's points *)

Definition node_points (h : gmap Z ContourNode) (l : list Z) : list (Z * Z) := omap (λ a, (λ v, (pt_x v, pt_y v)) <$> h !! a) l.

Fixpoint res_fold {A S} (body : A → S → res S) (l : list A) (s : S) : res S :=
  match l with [] => Ok s | x :: l => s ← body x s; res_fold body l s end.

Lemma do_points_fold {S} (body : Z * Z → S → res S) h stval fuel : ∀ l c s, linked h (c :: l) →
  (∃ z v, last (c :: l) = Some z ∧ h !! z = Some v ∧ next v = stval) → stval ∉ l → (length l < fuel)%nat →
  do_points fuel body h stval c s = res_fold body (node_points h (c :: l)) s.
Proof.
  induction fuel as [|fuel IH]; intros l c s HL (z & v & Hz & Ez & Ev) Hni Hf; [lia|]. cbn [do_points].
  destruct l as [|b l].
  - injection Hz as <-. unfold node_points. cbn. rewrite Ez. cbn. rewrite Ev, Z.eqb_refl. done.
  - destruct HL as [(vc & vb & Ec & Eb & En & _) HL]. unfold node_points. cbn [omap list_omap]. rewrite Ec. cbn [fmap option_fmap option_map of_option res_fold]. rewrite res_bind_Ok.
    destruct (body _ s) as [s'|]; [|done]. rewrite !res_bind_Ok, En. rewrite (proj2 (Z.eqb_neq b stval)) by set_solver.
    change (b :: l) with ([b] ++ l) in Hz. apply IH; [done|by exists z, v|set_solver|cbn in Hf; lia].
Qed.

Lemma linked_dom h l a : linked h l → (2 ≤ length l)%nat → a ∈ l → is_Some (h !! a).
Proof.
  induction l as [|b [|c l] IH]; intros HL Hlen Ha; cbn in Hlen; [lia|lia|]. destruct HL as [(v & v' & Ev & Ev' & _) HL].
  apply elem_of_cons in Ha as [->|Ha]; [eauto|]. destruct l as [|d l]; [apply list_elem_of_singleton in Ha as ->; eauto|].
  apply IH; [done|cbn; lia|done].
Qed.

(** A node of a contour is followed by one that is there. *)
Lemma node_points_length h l : cycle h l → length (node_points h l) = length l.
Proof.
  intros [HL (a & z & Ha & Hz & (v & v' & Ev & _))]. unfold node_points.
  assert (HF : Forall (λ a, is_Some (h !! a)) l).
  { destruct l as [|b [|c l]]; [done| |].
    - injection Hz as ->. by apply Forall_singleton.
    - apply Forall_forall. intros x. apply linked_dom; [done|cbn; lia]. }
  clear -HF. induction HF as [|b l [v Hv] _ IH]; [done|]. cbn. rewrite Hv. cbn. by rewrite IH.
Qed.

Lemma cycle_fuel h l : cycle h l → NoDup l → (length l ≤ size h)%nat.
Proof.
  intros HC HN. rewrite <-size_dom, <-(size_list_to_set (C := gset Z) l HN). apply subseteq_size.
  intros a Ha%elem_of_list_to_set. apply elem_of_dom. destruct HC as [HL (b & z & _ & Hz & (v & v' & Ev & _))].
  destruct l as [|c [|d l]]; [done| |]; [apply list_elem_of_singleton in Ha as ->; by injection Hz as ->|].
  eapply linked_dom; [done|cbn; lia|done].
Qed.

Lemma count_fold l : ∀ k, 0 ≤ k → k + Z.of_nat (length l) < 2 ^ 31 → res_fold (λ (_ : Z * Z) n, i32 (n + 1)) l k = Ok (k + Z.of_nat (length l)).
Proof.
  induction l as [|x l IH]; intros k Hk Hl; cbn [res_fold length] in *; [f_equal; lia|].
  rewrite (chk_ok 32), res_bind_Ok, IH by (unfold in_signed; lia). f_equal. lia.
Qed.

Lemma no_large_sum_prefix B l k : no_large_sum B (l ++ k) → no_large_sum B l.
Proof. intros (H1 & [H2 _]%Forall_app & H3). rewrite length_app in H3. split_and!; [done|done|nia]. Qed.

Lemma add_pt_ok B pts pt f : fit_ok f pts → no_large_sum B (pts ++ [pt]) →
  ∃ f', add_pt pt f = Ok f' ∧ fit_ok f' (pts ++ [pt]) ∧ n_ f' = n_ f ∧ min_len_ f' = min_len_ f.
Proof.
  intros FO HB. destruct (small_products B _ HB) as (S1 & S2 & S3 & S4 & S5). rewrite !fmap_app in *. destruct FO as [F1 F2 F3 F4 F5]. destruct pt as [x y]. cbn in *.
  destruct HB as (HB1 & HF & HB2). apply Forall_app in HF as [_ HF]. apply Forall_singleton in HF as [Hx Hy]. cbn in *. rewrite length_app in HB2. cbn in HB2.
  destruct (arr_add_sums _ _ _ F1 S1) as (i1 & E1 & P1), (arr_add_sums _ _ _ F2 S2) as (i2 & E2 & P2), (arr_add_sums _ _ _ F3 S3) as (i3 & E3 & P3).
  destruct (arr_add_sums _ _ _ F4 S4) as (i4 & E4 & P4), (arr_add_sums _ _ _ F5 S5) as (i5 & E5 & P5).
  assert (Hxx : in_signed 32 (x * x) ∧ in_signed 32 (x * y) ∧ in_signed 32 (y * y)) by (unfold in_signed; split_and!; nia).
  destruct Hxx as (? & ? & ?). unfold add_pt.
  rewrite (chk_ok 32 (x * x)), res_bind_Ok, E1, res_bind_Ok, (chk_ok 32 (x * y)), res_bind_Ok, E2, res_bind_Ok, (chk_ok 32 (y * y)), res_bind_Ok, E3, res_bind_Ok, E4, res_bind_Ok, E5, res_bind_Ok by done.
  eexists. split; [done|]. split; [|done]. split; cbn; rewrite !fmap_app; done.
Qed.

Lemma add_fold B l : ∀ f pts, fit_ok f pts → no_large_sum B (pts ++ l) →
  ∃ f', res_fold (λ pt '(f, pts), f ← add_pt pt f; Ok (f, pts ++ [pt])) l (f, pts) = Ok (f', pts ++ l) ∧ fit_ok f' (pts ++ l) ∧ n_ f' = n_ f ∧ min_len_ f' = min_len_ f.
Proof.
  induction l as [|pt l IH]; intros f pts FO HB; [exists f; by rewrite app_nil_r|]. cbn [res_fold].
  rewrite (cons_middle pt pts l), app_assoc in HB |- *. destruct (add_pt_ok B pts pt f FO (no_large_sum_prefix _ _ _ HB)) as (f1 & -> & FO1 & <- & <-).
  rewrite !res_bind_Ok. by apply IH.
Qed.

Lemma fit_ok_nil n min_len : fit_ok (mkFit [] [] [] [] [] n min_len) [].
Proof. by repeat split; cbn; try lia. Qed.

Lemma collect_ok h l p min_len B : cycle h l → NoDup l → head l = Some p → no_large_sum B (node_points h l) →
  ∃ f, collect h p min_len = Ok (f, node_points h l) ∧ fit_ok f (node_points h l) ∧ n_ f = Z.of_nat (length (node_points h l)) ∧ min_len_ f = min_len.
Proof.
  intros HC HN Hp HB. pose proof (points_few _ _ HB) as Hfew. pose proof (cycle_fuel _ _ HC HN) as Hsize. pose proof HC as [HL (a & z & Ha & Hz & (v & v' & Ev & _ & En & _))].
  destruct l as [|b l]; [done|]. injection Hp as ->. injection Ha as ->. apply NoDup_cons in HN as [Hni HN]. cbn [length] in Hsize.
  unfold collect. rewrite !(do_points_fold _ _ _ _ l) by (done || lia || by exists z, v).
  rewrite count_fold, res_bind_Ok, Z.add_0_l by lia.
  destruct (add_fold B (node_points h (a :: l)) _ _ (fit_ok_nil (Z.of_nat (length (node_points h (a :: l)))) min_len) HB) as (f & E & FO & En' & Em).
  exists f. rewrite (do_points_fold _ _ _ _ l) by (done || lia || by exists z, v). by rewrite E.
Qed.

(** [hier_merge], for a closed contour of [n >= 5] points with no large sums, where no arc with
    half of the points or more is close to a line, and whatever event [top] takes: it ends, with every access in bounds and no overflow, up to the
    conversions in [fit_line].  In the end every point is on exactly one arc, an arc has one
    or two points or a line fits it with an error below [merge_rate], and [fit_lines] gets a
    line for each of the arcs with more than [min_len] steps. *)
Theorem hier_merge_arcs top h l p fit_lines merge_rate min_len B :
  cycle h l → NoDup l → head l = Some p →
  let pts := node_points h l in let n := Z.of_nat (length pts) in
  no_large_sum B pts → 5 ≤ n → 0 ≤ min_len < n →
  (∀ q, q ≠ [] → (top q < length q)%nat) →
  (∀ f, collect h p min_len = Ok (f, pts) → short_lines f merge_rate n = true) →
  ∃ f arcs, collect h p min_len = Ok (f, pts) ∧
    (∀ x, inside n x → exists! i, ∃ a, arcs !! i = Some a ∧ on_arc n a x) ∧
    Forall (λ a, inside n a.1 ∧ inside n a.2 ∧ good f merge_rate n a.1 a.2) arcs ∧
    hier_merge top h p fit_lines merge_rate min_len =
      (ls ← mapM (line_of f pts) (filter (long_arc f n) arcs); Ok (fit_lines ++ ls)).
Proof.
  intros HC HN Hp pts n HB H5 Hlen Htop Hshort. destruct (collect_ok h l p min_len B HC HN Hp HB) as (f & E & FO & Hn & Hm).
  destruct (merge_points_ok top f merge_rate pts B Htop FO HB Hn ltac:(by rewrite Hm) H5 (Hshort f E) fit_lines) as (arcs & H1 & H2 & H3).
  exists f, arcs. split_and!; [done..|]. unfold hier_merge. by rewrite E, res_bind_Ok.
Qed.

(** The first of the largest ones. *)
Fixpoint largest_from (i best : nat) (b : float) (q : list (float * (Z * Z))) : nat :=
  match q with
  | [] => best
  | (e, _) :: q => if fltb b e then largest_from (S i) i e q else largest_from (S i) best b q
  end.

Definition first_largest (q : list (float * (Z * Z))) : nat :=
  match q with [] => 0%nat | (e, _) :: q => largest_from 1 0 e q end.

Lemma first_largest_ok q : q ≠ [] → (first_largest q < length q)%nat.
Proof.
  destruct q as [|[e x] q]; [done|intros _]. cbn [first_largest length].
  assert (H : ∀ i best b, (best < i)%nat → (largest_from i best b q < i + length q)%nat).
  { induction q as [|[e' x'] q IH]; intros i best b Hb; cbn [largest_from length]; [lia|]. destruct (fltb b e').
    - pose proof (IH (S i) i e'). lia.
    - pose proof (IH (S i) best b). lia. }
  pose proof (H 1%nat 0%nat e). lia.
Qed.

(** A contour with these points. *)
Definition heap_of (pts : list (Z * Z)) : gmap Z ContourNode :=
  list_to_map (imap (λ i p, (16 * Z.of_nat i, mkNode p.1 p.2 (16 * ((Z.of_nat i + 1) mod Z.of_nat (length pts))))) pts).

(** A square that stands on a corner; the sides have eight steps. *)
Definition sample_points : list (Z * Z) :=
  ((λ i, (8 + i, i)) <$> seqZ 0 8) ++ ((λ i, (16 - i, 8 + i)) <$> seqZ 0 8) ++ ((λ i, (8 - i, 16 - i)) <$> seqZ 0 8) ++ ((λ i, (i, 8 - i)) <$> seqZ 0 8).
Definition sample_nodes : list Z := (λ i, 16 * i) <$> seqZ 0 32.
Definition sample_heap : gmap Z ContourNode := heap_of sample_points.

(** A square that stands on a side. *)
Definition upright_points : list (Z * Z) :=
  ((λ x, (x, 0)) <$> seqZ 0 8) ++ ((λ y, (8, y)) <$> seqZ 0 8) ++ ((λ x, (8 - x, 8)) <$> seqZ 0 8) ++ ((λ y, (0, 8 - y)) <$> seqZ 0 8).

(** Being a cycle is decidable. *)
Definition linkb (h : heap) (a b : Z) : bool :=
  match h !! a, h !! b with
  | Some v, Some v' => (next v =? b) && (Z.abs (pt_x v - pt_x v') <=? 1) && (Z.abs (pt_y v - pt_y v') <=? 1)
  | _, _ => false
  end.
Fixpoint cycleb_from (h : heap) (a z : Z) (l : list Z) : bool :=
  match l with [] => linkb h z a | b :: l => linkb h z b && cycleb_from h a b l end.
Definition cycleb (h : heap) (l : list Z) : bool := match l with [] => false | a :: l => cycleb_from h a a l end.

Lemma linkb_ok h a b : linkb h a b = true → Contour.link h a b.
Proof.
  unfold linkb. destruct (h !! a) as [v|] eqn:Ea; [|done]. destruct (h !! b) as [v'|] eqn:Eb; [|done].
  rewrite !andb_true_iff, Z.eqb_eq, !Z.leb_le. intros [[? ?] ?]. exists v, v'. by split_and!.
Qed.

Lemma cycleb_ok h l : cycleb h l = true → cycle h l.
Proof.
  destruct l as [|a l]; [done|]. cbn [cycleb]. intros H.
  assert (G : ∀ l z, cycleb_from h a z l = true → linked h (z :: l) ∧ ∃ y, last (z :: l) = Some y ∧ Contour.link h y a).
  { clear. induction l as [|b l IH]; intros z H; cbn [cycleb_from] in H; [split; [done|]; exists z; split; [done|by apply linkb_ok]|].
    apply andb_true_iff in H as [H1 H2]. destruct (IH b H2) as [HL (y & Hy & Hl)].
    split; [split; [by apply linkb_ok|done]|]. exists y. by rewrite last_cons_cons. }
  destruct (G l a H) as [HL (y & Hy & Hl)]. split; [done|]. by exists a, y.
Qed.

(** With a rate of 1, largest errors first: three lines, two of which go around a corner. *)
Lemma hier_merge_arcs_witness : ∃ f arcs, collect sample_heap 0 4 = Ok (f, node_points sample_heap sample_nodes) ∧
  Forall (λ a, inside 32 a.1 ∧ inside 32 a.2 ∧ good f (float_of_Z 1) 32 a.1 a.2) arcs ∧
  (ls ← mapM (line_of f (node_points sample_heap sample_nodes)) (filter (long_arc f 32) arcs); Ok ls) =
    Ok [((11, 2), (15, 9)); ((13, 11), (6, 15)); ((0, 7), (8, 0))].
Proof.
  destruct (hier_merge_arcs first_largest sample_heap sample_nodes 0 [] (float_of_Z 1) 4 16) as (f & arcs & E & _ & HF & HM).
  - by apply cycleb_ok; vm_compute.
  - apply (bool_decide_unpack _). by vm_compute.
  - done.
  - split_and!; [lia| |by vm_compute]. apply (bool_decide_unpack _). by vm_compute.
  - by vm_compute.
  - by vm_compute.
  - apply first_largest_ok.
  - intros f E. vm_compute in E. injection E as <-. by vm_compute.
  - exists f, arcs. split_and!; [done|done|]. transitivity (hier_merge first_largest sample_heap 0 [] (float_of_Z 1) 4); [symmetry; exact HM|by vm_compute].
Defined.

(** The bound on [min_len] is needed: [get(0, 0)] reads [items\[-1\]], and is called for a
    contour of 14 points with the default of 15. *)
Lemma arr_get_whole items : items ≠ [] → Z.of_nat (length items) < 2 ^ 31 → arr_get items 0 0 = Err Undefined.
Proof.
  intros Hne Hl. assert (0 < length items)%nat by (destruct items; cbn; [done|lia]). unfold arr_get.
  assert (E : arr_mod 0 (Z.of_nat (length items)) = Ok 0).
  { unfold arr_mod. destruct (Z.eqb_spec (Z.of_nat (length items)) 0); [lia|]. rewrite Z.rem_0_l, (chk_ok 32), res_bind_Ok by (try unfold in_signed; lia).
    by rewrite Z.rem_same by lia. }
  by rewrite E, !res_bind_Ok.
Qed.

Definition two_rows : list (Z * Z) := ((λ x, (x, 0)) <$> seqZ 0 7) ++ ((λ x, (6 - x, 1)) <$> seqZ 0 7).

Lemma short_contour_undefined top fit_lines merge_rate : hier_merge top (heap_of two_rows) 0 fit_lines merge_rate 15 = Err Undefined.
Proof.
  unfold hier_merge. destruct (collect (heap_of two_rows) 0 15) as [[f pts]|] eqn:E; vm_compute in E; [|done]. injection E as <- <-.
  rewrite res_bind_Ok. unfold merge_points. match goal with |- context [first_events ?f ?k ?i ?q] => replace (first_events f k i q) with (@Err (list (float * (Z * Z))) Undefined) by (by vm_compute) end. done.
Qed.

(** The direction of an upright line is 0 divided by 0, and so are the coordinates that are
    converted to [int]. *)
Lemma upright_line_undefined : ∃ f, collect (heap_of upright_points) 0 4 = Ok (f, upright_points) ∧ line_of f upright_points (9, 15) = Err Undefined.
Proof.
  destruct (collect (heap_of upright_points) 0 4) as [[f pts]|] eqn:E; vm_compute in E; [|done].
  injection E as <- <-. eexists. split; [done|by vm_compute].
Qed.
