(* ===== verification/LogFile.v ===== *)
(** * Binary log files: aos/common/logging/binary_log_file.h, .cc

    A log file is a sequence of pages of [kPageSize] bytes that are mapped one
    at a time.  Messages do not cross pages; each starts with a header whose
    first word, the marker, is set last.  A marker of 2 sends readers to the
    next page. *)

From S2P Require Import Prelude ByteOrder.

(** ** Files

    The bytes of a file that are not in [f_bytes] are 0.  [f_pos] is where the
    next [read(2)] starts, [f_mmap] whether [mmap] works (it fails with
    [ENODEV] otherwise). *)
Record file := mkFile { f_size : Z; f_bytes : gmap Z Z; f_pos : Z; f_mmap : bool }.

Definition byte_at (f : file) (a : Z) : Z := default 0 (f_bytes f !! a).

(** [n] bytes from [a] on. *)
Fixpoint bytes_at (f : file) (a : Z) (n : nat) : bytes :=
  match n with O => [] | S n => byte_at f a :: bytes_at f (a + 1) n end.

Fixpoint store_bytes (m : gmap Z Z) (a : Z) (bs : bytes) : gmap Z Z :=
  match bs with [] => m | b :: bs => store_bytes (<[a := b]> m) (a + 1) bs end.

Definition file_store (f : file) (a : Z) (bs : bytes) : file :=
  mkFile (f_size f) (store_bytes (f_bytes f) a bs) (f_pos f) (f_mmap f).

(** [ftruncate] cuts off or appends zeros. *)
Definition ftruncate (f : file) (size : Z) : file :=
  mkFile size (filter (λ p, p.1 < size) (f_bytes f)) (f_pos f) (f_mmap f).

(** ** LogFileAccessor *)

Definition kPageSize : Z := 16384.
Definition kAlignment : Z := 8.
Definition kSeekPages : Z := 256.
Definition sizeof_aos_futex : Z := 4.

Inductive Maybe : Set := kUnknown | kYes | kNo.
#[global] Instance Maybe_eq_dec : EqDecision Maybe.
Proof. solve_decision. Defined.

(** [current_]: nothing, a mapping of the file from [base] on, or a buffer. *)
Inductive mapping : Set := Unmapped | Mapped (base : Z) | Buffer (data : bytes).
#[global] Instance mapping_eq_dec : EqDecision mapping.
Proof. solve_decision. Defined.

Record LogFileAccessor := mkAccessor {
  writable_ : bool;
  offset_ : Z;
  current_ : mapping;
  position_ : Z;
  is_last_page_ : Maybe;
  use_read_ : Maybe }.

(** The accessor of one process and the file it shares with the others. *)
Record log := mkLog { l_file : file; l_acc : LogFileAccessor }.
Abbreviation ML := (ST log).

Definition get_acc : ML LogFileAccessor := λ s, Ok (l_acc s, s).
Definition upd_acc (f : LogFileAccessor → LogFileAccessor) : ML unit := λ s,
  Ok (tt, mkLog (l_file s) (f (l_acc s))).
Definition get_file : ML file := λ s, Ok (l_file s, s).
Definition put_file (f : file) : ML unit := λ s, Ok (tt, mkLog f (l_acc s)).

Definition set_offset_ (o : Z) (a : LogFileAccessor) : LogFileAccessor :=
  mkAccessor (writable_ a) o (current_ a) (position_ a) (is_last_page_ a) (use_read_ a).
Definition set_current_ (c : mapping) (a : LogFileAccessor) : LogFileAccessor :=
  mkAccessor (writable_ a) (offset_ a) c (position_ a) (is_last_page_ a) (use_read_ a).
Definition set_position_ (p : Z) (a : LogFileAccessor) : LogFileAccessor :=
  mkAccessor (writable_ a) (offset_ a) (current_ a) p (is_last_page_ a) (use_read_ a).
Definition set_last_page_ (m : Maybe) (a : LogFileAccessor) : LogFileAccessor :=
  mkAccessor (writable_ a) (offset_ a) (current_ a) (position_ a) m (use_read_ a).
Definition set_use_read_ (m : Maybe) (a : LogFileAccessor) : LogFileAccessor :=
  mkAccessor (writable_ a) (offset_ a) (current_ a) (position_ a) (is_last_page_ a) m.

Definition definitely_use_read (a : LogFileAccessor) : bool := bool_decide (use_read_ a = kYes).
Definition definitely_use_mmap (a : LogFileAccessor) : bool := bool_decide (use_read_ a = kNo).

(** Loading [n] bytes from [current()\[pos\]]: outside of the page is undefined,
    inside of it but behind the end of the file is a [SIGBUS]. *)
Definition page_load (c : mapping) (pos : Z) (n : nat) : ML bytes := λ s,
  if (pos <? 0) || (kPageSize <? pos + Z.of_nat n) then Err Undefined
  else match c with
       | Unmapped => Err Undefined
       | Mapped base =>
           if f_size (l_file s) <? base + pos + Z.of_nat n then Err Undefined
           else Ok (bytes_at (l_file s) (base + pos) n, s)
       | Buffer data =>
           if bool_decide (length data < Z.to_nat pos + n)%nat then Err Undefined
           else Ok (take n (drop (Z.to_nat pos) data), s)
       end.

Definition page_store (c : mapping) (pos : Z) (bs : bytes) : ML unit := λ s,
  if (pos <? 0) || (kPageSize <? pos + Z.of_nat (length bs)) then Err Undefined
  else match c with
       | Mapped base =>
           if writable_ (l_acc s) && (base + pos + Z.of_nat (length bs) <=? f_size (l_file s))
           then Ok (tt, mkLog (file_store (l_file s) (base + pos) bs) (l_acc s))
           else Err Undefined
       | _ => Err Undefined
       end.

Definition load_int (c : mapping) (pos : Z) (n : nat) : ML Z :=
  bs ← page_load c pos n; mret (le_combine bs).
Definition store_int (c : mapping) (pos : Z) (n : nat) (v : Z) : ML unit :=
  page_store c pos (le_split n v).

Section Accessor.
(** What the kernel does: its page size, what [read(2)] returns (a number of
    bytes or -1) when it is asked for some at the file's position, and what memory
    from [new] holds. *)
Context (SystemPageSize : Z) (sys_read : file → Z → Z) (uninitialised : bytes).

Definition read_buffer : ML bytes :=
  a ← get_acc;
  match current_ a with Buffer data => mret data | _ => st_stop Undefined end.

(** [while (todo > 0)]; a [read] that returns 0 clears [todo] bytes. *)
Fixpoint read_page (fuel : nat) (todo : Z) : ML unit :=
  match fuel with
  | O => st_stop Fuel
  | S fuel =>
      if 0 <? todo then
        f ← get_file;
        data ← read_buffer;
        let result := sys_read f todo in
        if result =? -1 then st_stop Fatal
        else if result =? 0 then
          _ ← upd_acc (set_current_ (Buffer (replicate (Z.to_nat todo) 0 ++ drop (Z.to_nat todo) data)));
          read_page fuel 0
        else
          let at_pos := Z.to_nat (kPageSize - todo) in
          let got := bytes_at f (f_pos f) (Z.to_nat result) in
          _ ← upd_acc (set_current_
                (Buffer (take at_pos data ++ got ++ drop (at_pos + length got) data)));
          _ ← put_file (mkFile (f_size f) (f_bytes f) (f_pos f + result) (f_mmap f));
          read_page fuel (todo - result)
      else if todo =? 0 then mret tt else st_stop Fatal
  end.

(** Every turn reads at least a byte. *)
Definition read_whole_page : ML unit := read_page (S (S (Z.to_nat kPageSize))) kPageSize.

(** [offset_ += kPageSize], computed as a [size_t]. *)
Definition next_offset (a : LogFileAccessor) : Z := swrap 64 (offset_ a + kPageSize).

Definition MapNextPage : ML unit :=
  a ← get_acc;
  _ ← (if writable_ a then f ← get_file; put_file (ftruncate f (next_offset a)) else mret tt);
  f ← get_file;
  _ ← (if definitely_use_read a then read_whole_page
       else if f_mmap f then
         upd_acc (λ a, set_use_read_ kNo (set_current_ (Mapped (offset_ a)) a))
       else if negb (writable_ a) && bool_decide (use_read_ a = kUnknown) then
         _ ← upd_acc (λ a, set_current_ (Buffer uninitialised) (set_use_read_ kYes a));
         read_whole_page
       else st_stop Fatal);
  upd_acc (λ a, set_offset_ (next_offset a) a).

(** [Unmap] of a page that is no longer [current_] leaves the mapping alone. *)
Definition Unmap (location : mapping) : ML unit :=
  a ← get_acc;
  if bool_decide (use_read_ a = kUnknown) then st_stop Fatal
  else
    _ ← (if definitely_use_mmap a && bool_decide (current_ a = location)
         then upd_acc (set_current_ Unmapped) else mret tt);
    upd_acc (λ a, set_position_ 0 (set_last_page_ kUnknown a)).

Definition LogFileAccessor_init (writable : bool) : LogFileAccessor :=
  mkAccessor writable 0 Unmapped 0 kUnknown kUnknown.

Definition LogFileAccessor_new : ML unit :=
  if (kPageSize <? SystemPageSize) || negb (kPageSize mod SystemPageSize =? 0)
  then st_stop Fatal else MapNextPage.

(** [info.st_size - kPageSize] is a [size_t]. *)
Definition IsLastPage : ML bool :=
  a ← get_acc;
  if negb (bool_decide (is_last_page_ a = kUnknown))
  then mret (bool_decide (is_last_page_ a = kYes))
  else
    f ← get_file;
    let r := offset_ a =? swrap 64 (f_size f - kPageSize) in
    _ ← upd_acc (set_last_page_ (if r then kYes else kNo));
    mret r.

Definition SkipToLastSeekablePage : ML unit :=
  a ← get_acc;
  if negb (definitely_use_mmap a) then st_stop Fatal
  else
    f ← get_file;
    if negb (f_size f mod kPageSize =? 0) then st_stop Fatal
    else
      let last_readable_page_number := u64 (f_size f / kPageSize - 1) in
      let last_seekable_page_number := last_readable_page_number / kSeekPages * kSeekPages in
      let new_offset := swrap 64 (last_seekable_page_number * kPageSize) in
      if offset_ a <? new_offset then
        _ ← Unmap (current_ a);
        _ ← upd_acc (set_offset_ new_offset);
        MapNextPage
      else mret tt.

(** [file_offset] of a position in the current page. *)
Definition file_offset (a : LogFileAccessor) (pos : Z) : Z := u64 (offset_ a + pos).

Definition AlignPosition (position : Z) : Z := u64 (position + (kAlignment - position mod kAlignment)).
Definition IncrementPosition (size : Z) : ML unit :=
  upd_acc (λ a, set_position_ (AlignPosition (u64 (position_ a + size))) a).

(** ** LogFileMessageHeader

    The fields are packed; the alignment of 8 makes the size 32. *)

Definition sizeof_LogFileMessageHeader : Z := 32.
Definition off_marker : Z := 0.
Definition off_time_sec : Z := 4.
Definition off_time_nsec : Z := 8.
Definition off_source : Z := 12.
Definition off_name_size : Z := 16.
Definition off_message_size : Z := 20.
Definition off_sequence : Z := 24.
Definition off_type : Z := 26.
Definition off_level : Z := 28.

(** ** LogFileReader *)

(** Reading the first byte of a page that is not in the file raises a signal whose
    handler stops the program. *)
Definition CheckCurrentPageReadable : ML unit :=
  a ← get_acc;
  if definitely_use_read a then mret tt
  else match current_ a with
       | Mapped base =>
           f ← get_file;
           if base <? f_size f then mret tt else st_stop Fatal
       | _ => st_stop Undefined
       end.

(** [futex_wait] on the word at a file position: its result and the file as other
    processes have left it by then. *)
Context (futex_wait : file → Z → Z * file).

Definition wait_marker : ML Z :=
  a ← get_acc;
  f ← get_file;
  match current_ a with
  | Mapped base =>
      let '(r, f) := futex_wait f (base + position_ a) in
      _ ← put_file f; mret r
  | _ => st_stop Undefined
  end.

Definition load_marker : ML Z :=
  a ← get_acc; load_int (current_ a) (position_ a + off_marker) 4.

(** [if (r->marker == 2)] *)
Definition follow_page : ML unit :=
  m ← load_marker;
  if m =? 2 then
    a ← get_acc;
    _ ← Unmap (current_ a);
    _ ← MapNextPage;
    CheckCurrentPageReadable
  else mret tt.

(** The [do ... while]: [r] is always [&current()\[position()\]]. *)
Fixpoint await_message (fuel : nat) (wait : bool) : ML unit :=
  match fuel with
  | O => st_stop Fuel
  | S fuel =>
      _ ← (if wait then
             a ← get_acc;
             if negb (definitely_use_mmap a) then st_stop Fatal
             else
               r ← wait_marker;
               if negb (r =? 0) then mret tt else follow_page
           else follow_page);
      m ← load_marker;
      if wait && (m =? 0) then await_message fuel wait else mret tt
  end.

(** The result is the position of the header in the current page. *)
Definition ReadNextMessage (fuel : nat) (wait : bool) : ML (option Z) :=
  _ ← await_message fuel wait;
  m ← load_marker;
  if m =? 0 then mret None
  else
    a ← get_acc;
    let r := position_ a in
    name_size ← load_int (current_ a) (r + off_name_size) 4;
    message_size ← load_int (current_ a) (r + off_message_size) 4;
    _ ← IncrementPosition (sizeof_LogFileMessageHeader + name_size + message_size);
    a ← get_acc;
    if kPageSize <=? position_ a then st_stop Fatal else mret (Some r).

(** ** LogFileWriter *)

Definition NeedNewPageFor (a : LogFileAccessor) (bytes : Z) : bool :=
  kPageSize <? u64 (position_ a + bytes + (kAlignment - bytes mod kAlignment) + sizeof_aos_futex).

(** [futex_set_value] stores and wakes the readers that sleep. *)
Definition ForceNewPage : ML unit :=
  a ← get_acc;
  let temp := current_ a in
  _ ← MapNextPage;
  _ ← store_int temp (position_ a) 4 2;
  Unmap temp.

Definition GetWritePosition (message_size : Z) : ML Z :=
  a ← get_acc;
  _ ← (if NeedNewPageFor a message_size then ForceNewPage else mret tt);
  a ← get_acc;
  let r := position_ a in
  _ ← IncrementPosition message_size;
  mret r.

(** The divisions are of [size_t]s; the cookie is the number of the last interval
    of [kSeekPages] pages that was asked about. *)
Definition ShouldClearSeekableData (cookie next_message_size : Z) : ML (bool * Z) :=
  a ← get_acc;
  let page := swrap 64 (u64 (offset_ a) / kPageSize - 1) in
  let next_message_page := if NeedNewPageFor a next_message_size then page + 1 else page in
  let current_seekable_page := swrap 64 (u64 next_message_page / kSeekPages) in
  if current_seekable_page <? cookie then st_stop Fatal
  else mret (negb (cookie =? current_seekable_page), current_seekable_page).
End Accessor.

#[global] Opaque read_whole_page.
