(* ===== verification/LogFileProofs.v ===== *)
(** * Log files: what readers find *)

From S2P Require Import Prelude ByteOrder LogFile.

(** ** Bytes of a file *)

Lemma bytes_at_length f a n : length (bytes_at f a n) = n.
Proof. revert a. induction n as [|n IH]; intros a; cbn; [done|]. by rewrite IH. Qed.

Lemma bytes_at_ext f f' a n : (∀ x, a ≤ x < a + Z.of_nat n → byte_at f x = byte_at f' x) →
  bytes_at f a n = bytes_at f' a n.
Proof.
  revert a. induction n as [|n IH]; intros a H; [done|]. cbn. f_equal; [apply H; lia|].
  apply IH. intros x Hx. apply H. lia.
Qed.

Lemma store_bytes_lookup m a bs x :
  store_bytes m a bs !! x =
    if decide (a ≤ x < a + Z.of_nat (length bs)) then bs !! Z.to_nat (x - a) else m !! x.
Proof.
  revert m a. induction bs as [|b bs IH]; intros m a; cbn [store_bytes length].
  - by rewrite decide_False by lia.
  - rewrite IH. destruct (decide (x = a)) as [->|].
    + rewrite decide_False, decide_True, lookup_insert_eq, Z.sub_diag by lia. done.
    + rewrite lookup_insert_ne by done. destruct (decide (a + 1 ≤ x < a + 1 + Z.of_nat (length bs))).
      * rewrite decide_True by lia. by replace (Z.to_nat (x - a)) with (S (Z.to_nat (x - (a + 1)))) by lia.
      * by rewrite decide_False by lia.
Qed.

Lemma byte_at_store_out f a bs x : x < a ∨ a + Z.of_nat (length bs) ≤ x →
  byte_at (file_store f a bs) x = byte_at f x.
Proof. intros H. unfold byte_at. cbn. by rewrite store_bytes_lookup, decide_False by lia. Qed.

Lemma bytes_at_store_out f a bs x n :
  x + Z.of_nat n ≤ a ∨ a + Z.of_nat (length bs) ≤ x → bytes_at (file_store f a bs) x n = bytes_at f x n.
Proof. intros H. apply bytes_at_ext. intros y Hy. apply byte_at_store_out. lia. Qed.

Lemma bytes_at_store f a bs : bytes_at (file_store f a bs) a (length bs) = bs.
Proof.
  assert (H : ∀ k, (k ≤ length bs)%nat →
    bytes_at (file_store f a bs) (a + Z.of_nat k) (length bs - k) = drop k bs).
  { intros k Hk. remember (length bs - k)%nat as n eqn:En. revert k Hk En.
    induction n as [|n IH]; intros k Hk En; cbn [bytes_at].
    - by rewrite drop_ge by lia.
    - destruct (lookup_lt_is_Some_2 bs k) as [b Hb]; [lia|]. rewrite (drop_S _ _ _ Hb). f_equal.
      + unfold byte_at. cbn. rewrite store_bytes_lookup, decide_True by lia.
        replace (Z.to_nat (a + Z.of_nat k - a)) with k by lia. by rewrite Hb.
      + replace (a + Z.of_nat k + 1) with (a + Z.of_nat (S k)) by lia. apply IH; lia. }
  specialize (H 0%nat ltac:(lia)). rewrite Z.add_0_r, Nat.sub_0_r in H. done.
Qed.

Lemma byte_at_ftruncate f n x : byte_at (ftruncate f n) x = if decide (x < n) then byte_at f x else 0.
Proof.
  unfold byte_at, ftruncate. cbn. destruct (decide (x < n)) as [H|H].
  - destruct (f_bytes f !! x) as [b|] eqn:E.
    + by rewrite (map_lookup_filter_Some_2 _ _ _ _ E).
    + rewrite map_lookup_filter_None_2; [done|by left].
  - rewrite map_lookup_filter_None_2; [done|]. right. intros b _. cbn. lia.
Qed.

(** An integer in the file. *)
Definition int_at (f : file) (a : Z) (n : nat) : Z := le_combine (bytes_at f a n).

Lemma int_at_ext f f' a n : (∀ x, a ≤ x < a + Z.of_nat n → byte_at f x = byte_at f' x) →
  int_at f a n = int_at f' a n.
Proof. intros H. unfold int_at. by rewrite (bytes_at_ext f f'). Qed.

Lemma int_at_store f a n v : 0 ≤ v < 256 ^ Z.of_nat n → int_at (file_store f a (le_split n v)) a n = v.
Proof.
  intros Hv. unfold int_at. pose proof (bytes_at_store f a (le_split n v)) as E.
  rewrite le_split_length in E. by rewrite E, le_combine_split, Z.mod_small.
Qed.

Lemma int_at_store_out f a bs x n :
  x + Z.of_nat n ≤ a ∨ a + Z.of_nat (length bs) ≤ x → int_at (file_store f a bs) x n = int_at f x n.
Proof. intros H. unfold int_at. by rewrite bytes_at_store_out. Qed.

Lemma int_at_zero f a n : (∀ x, a ≤ x < a + Z.of_nat n → byte_at f x = 0) → int_at f a n = 0.
Proof.
  unfold int_at. revert a. induction n as [|n IH]; intros a H; [done|]. cbn [bytes_at le_combine].
  rewrite H, IH by (intros; apply H || lia; lia). done.
Qed.

(** ** Records *)

Record record := mkRecord {
  r_sec : Z; r_nsec : Z; r_source : Z; r_sequence : Z; r_type : Z; r_level : Z;
  r_name : bytes; r_message : bytes }.

Definition record_size (r : record) : Z :=
  sizeof_LogFileMessageHeader + Z.of_nat (length (r_name r)) + Z.of_nat (length (r_message r)).

Lemma record_size_pos r : 32 ≤ record_size r.
Proof. unfold record_size, sizeof_LogFileMessageHeader. lia. Qed.

(** The fields of a header at file position [a] and the bytes behind it. *)
Definition record_at (f : file) (a : Z) (r : record) : Prop :=
  int_at f (a + off_time_sec) 4 = r_sec r ∧ int_at f (a + off_time_nsec) 4 = r_nsec r ∧
  int_at f (a + off_source) 4 = r_source r ∧
  int_at f (a + off_name_size) 4 = Z.of_nat (length (r_name r)) ∧
  int_at f (a + off_message_size) 4 = Z.of_nat (length (r_message r)) ∧
  int_at f (a + off_sequence) 2 = r_sequence r ∧ int_at f (a + off_type) 2 = r_type r ∧
  int_at f (a + off_level) 1 = r_level r ∧
  bytes_at f (a + sizeof_LogFileMessageHeader) (length (r_name r)) = r_name r ∧
  bytes_at f (a + sizeof_LogFileMessageHeader + Z.of_nat (length (r_name r))) (length (r_message r))
    = r_message r.

Lemma record_at_ext f f' a r : (∀ x, a + 4 ≤ x < a + record_size r → byte_at f x = byte_at f' x) →
  record_at f a r → record_at f' a r.
Proof.
  intros H (E1 & E2 & E3 & E4 & E5 & E6 & E7 & E8 & E9 & E10).
  unfold record_size, sizeof_LogFileMessageHeader in *.
  unfold off_time_sec, off_time_nsec, off_source, off_name_size, off_message_size, off_sequence, off_type,
    off_level in *.
  split_and!; (rewrite <-(int_at_ext f f') || rewrite <-(bytes_at_ext f f'));
    try done; unfold off_time_sec, off_time_nsec, off_source, off_name_size, off_message_size, off_sequence, off_type,
    off_level, sizeof_LogFileMessageHeader; intros x Hx; apply H; lia.
Qed.

(** The position after a record of [n] bytes at [a], and the room it takes. *)
Definition step_size (n : Z) : Z := n + (kAlignment - n mod kAlignment).

(** ** Logs in a file *)

Definition page_start (a : Z) : Z := a - a mod kPageSize.
Definition next_page (a : Z) : Z := page_start a + kPageSize.

(** A header position: aligned and with room for a marker in its page. *)
Definition aligned (a : Z) : Prop := a mod kAlignment = 0.

(** From position [a] on the file holds the records [rs] and then, at [e], no more. *)
Inductive logged (f : file) : Z → list record → Z → Prop :=
| logged_end a : int_at f a 4 = 0 → logged f a [] a
| logged_msg a r rs e :
    int_at f a 4 = 1 → record_at f a r →
    a mod kPageSize + step_size (record_size r) + sizeof_aos_futex ≤ kPageSize →
    logged f (a + step_size (record_size r)) rs e → logged f a (r :: rs) e
| logged_page a rs e :
    int_at f a 4 = 2 → next_page a < f_size f →
    int_at f (next_page a) 4 ≠ 2 →
    logged f (next_page a) rs e → logged f a rs e.

(** ** Pages *)

Lemma page_mod a : 0 ≤ a mod kPageSize < kPageSize.
Proof. apply Z.mod_pos_bound. done. Qed.

Lemma page_start_mod a : page_start a mod kPageSize = 0.
Proof.
  unfold page_start. replace (a - a mod kPageSize) with (a / kPageSize * kPageSize).
  - apply Z.mod_mul. done.
  - pose proof (Z.div_mod a kPageSize). unfold kPageSize in *. lia.
Qed.

Lemma page_start_of b p : b mod kPageSize = 0 → 0 ≤ p < kPageSize →
  page_start (b + p) = b ∧ (b + p) mod kPageSize = p.
Proof.
  intros Hb Hp. assert (E : (b + p) mod kPageSize = p).
  { rewrite Z.add_mod, Hb, Z.add_0_l, Z.mod_mod by done. by apply Z.mod_small. }
  split; [|done]. unfold page_start. rewrite E. lia.
Qed.

Lemma next_page_mod a : next_page a mod kPageSize = 0.
Proof.
  unfold next_page. rewrite Z.add_mod, page_start_mod, Z.mod_same by done. done.
Qed.

Lemma next_page_start a : page_start (next_page a) = next_page a.
Proof. unfold page_start at 1. rewrite next_page_mod. lia. Qed.

Lemma page_split a : a = page_start a + a mod kPageSize.
Proof. unfold page_start. lia. Qed.

(** Multiples of the page size are a page apart. *)
Lemma page_gap a b : a mod kPageSize = 0 → b mod kPageSize = 0 → a < b → a + kPageSize ≤ b.
Proof.
  intros Ha Hb. apply Z.mod_divide in Ha as [x ->]; [|done]. apply Z.mod_divide in Hb as [y ->]; [|done].
  unfold kPageSize. lia.
Qed.

Lemma next_page_aligned a : next_page a mod kAlignment = 0.
Proof.
  pose proof (next_page_mod a) as H. apply Z.mod_divide in H as [x ->]; [|done].
  unfold kPageSize, kAlignment. replace (x * 16384) with (x * 2048 * 8) by lia. by apply Z.mod_mul.
Qed.

(** A file of whole pages. *)
Record paged (f : file) : Prop := {
  p_mmap : f_mmap f = true;
  p_mod : f_size f mod kPageSize = 0;
  p_size : f_size f < 2 ^ 62 }.

(** The accessor has mapped the page of file position [a] and stands there. *)
Record stands (s : log) (a : Z) : Prop := {
  st_paged : paged (l_file s);
  st_pos : 0 ≤ a;
  st_aligned : a mod kAlignment = 0;
  st_room : a mod kPageSize + sizeof_aos_futex ≤ kPageSize;
  st_in : next_page a ≤ f_size (l_file s);
  st_current : current_ (l_acc s) = Mapped (page_start a);
  st_position : position_ (l_acc s) = a mod kPageSize;
  st_offset : offset_ (l_acc s) = next_page a;
  st_read : use_read_ (l_acc s) = kNo }.

Section Stands.
Context {s : log} {a : Z} (H : stands s a).

(** Loads from the mapped page are loads from the file. *)
Lemma load_int_ok p n Q : 0 ≤ p → p + Z.of_nat n ≤ kPageSize →
  Q (int_at (l_file s) (page_start a + p) n) s → wp (load_int (Mapped (page_start a)) p n) Q s.
Proof.
  intros Hp Hn HQ. unfold load_int. apply wp_bind. unfold wp at 1, page_load.
  destruct (Z.ltb_spec p 0); [lia|]. destruct (Z.ltb_spec kPageSize (p + Z.of_nat n)); [lia|]. cbn [orb].
  pose proof (st_in _ _ H). unfold next_page in *.
  destruct (Z.ltb_spec (f_size (l_file s)) (page_start a + p + Z.of_nat n)); [lia|]. by apply wp_ret.
Qed.

Lemma load_marker_ok Q : Q (int_at (l_file s) a 4) s → wp load_marker Q s.
Proof.
  intros HQ. unfold load_marker. apply wp_bind. unfold get_acc, wp at 1.
  rewrite (st_current _ _ H), (st_position _ _ H). pose proof (page_mod a). pose proof (st_room _ _ H).
  apply load_int_ok; unfold off_marker, sizeof_aos_futex in *; [lia|lia|].
  rewrite Z.add_0_r, <-page_split. done.
Qed.
End Stands.

Lemma swrap64_small z : - 2 ^ 62 ≤ z < 2 ^ 63 → swrap 64 z = z.
Proof. intros Hz. apply swrap_small; [lia|]. unfold in_signed. lia. Qed.

Section Reader.
Context (sys_read : file → Z → Z) (uninitialised : bytes) (futex_wait : file → Z → Z * file).
Notation follow_page := (follow_page sys_read uninitialised).
Notation MapNextPage := (MapNextPage sys_read uninitialised).
Notation await_message := (await_message sys_read uninitialised futex_wait).
Notation ReadNextMessage := (ReadNextMessage sys_read uninitialised futex_wait).

Lemma Unmap_eq s c : use_read_ (l_acc s) = kNo → current_ (l_acc s) = c →
  Unmap c s = Ok (tt, mkLog (l_file s)
    (set_position_ 0 (set_last_page_ kUnknown (set_current_ Unmapped (l_acc s))))).
Proof.
  intros Hr <-. unfold Unmap, definitely_use_mmap. mstep. unfold get_acc. rewrite Hr.
  change (bool_decide (kNo = kUnknown)) with false. cbn iota. mstep.
  change (bool_decide (kNo = kNo)) with true. by rewrite bool_decide_eq_true_2 by done.
Qed.

Lemma MapNextPage_eq s : use_read_ (l_acc s) ≠ kYes → f_mmap (l_file s) = true →
  MapNextPage s = Ok (tt,
    mkLog (if writable_ (l_acc s) then ftruncate (l_file s) (next_offset (l_acc s)) else l_file s)
      (set_offset_ (next_offset (l_acc s))
        (set_use_read_ kNo (set_current_ (Mapped (offset_ (l_acc s))) (l_acc s))))).
Proof.
  intros Hr Hm. unfold LogFile.MapNextPage, definitely_use_read. mstep. unfold get_acc.
  rewrite (bool_decide_eq_false_2 _ Hr).
  destruct (writable_ (l_acc s)); unfold get_file, put_file; cbn -[ftruncate next_offset].
  - change (f_mmap (ftruncate (l_file s) _)) with (f_mmap (l_file s)). by rewrite Hm.
  - by rewrite Hm.
Qed.

(** A reader moves to the next page. *)
Lemma read_next_page s a Q : stands s a → writable_ (l_acc s) = false → next_page a < f_size (l_file s) →
  (∀ s', stands s' (next_page a) → l_file s' = l_file s → writable_ (l_acc s') = false → Q tt s') →
  wp (_ ← Unmap (current_ (l_acc s)); _ ← MapNextPage; CheckCurrentPageReadable) Q s.
Proof.
  intros H Hw Hlt HQ. pose proof (st_paged _ _ H) as [Hm Hmod Hsz]. pose proof (st_pos _ _ H).
  assert (Hoff : next_offset (l_acc s) = next_page (next_page a)).
  { unfold next_offset. rewrite (st_offset _ _ H), swrap64_small.
    - unfold next_page at 2. by rewrite next_page_start.
    - unfold next_page, page_start, kPageSize in *. pose proof (Z.mod_pos_bound a 16384 ltac:(lia)). lia. }
  destruct H as [_ _ _ _ Hin Hc Hp Ho Hr]. apply wp_bind. unfold wp at 1. rewrite Unmap_eq by done.
  apply wp_bind. unfold wp at 1. rewrite MapNextPage_eq by (cbn; congruence || done).
  cbn [l_acc l_file writable_ set_position_ set_last_page_ set_current_].
  rewrite Hw. unfold CheckCurrentPageReadable, get_acc, get_file. apply wp_bind. unfold wp at 1.
  unfold definitely_use_read. cbn [l_acc use_read_ set_use_read_ set_offset_ set_current_ set_position_ set_last_page_ current_ offset_].
  change (bool_decide (kNo = kYes)) with false. cbn [negb]. apply wp_bind. unfold wp at 1. cbn [l_file].
  rewrite Ho. destruct (Z.ltb_spec (next_page a) (f_size (l_file s))); [|lia]. apply HQ; [|done|done].
  pose proof (page_gap _ _ (next_page_mod a) Hmod Hlt) as Hg.
  split; cbn; try done.
  - unfold next_page, page_start, kPageSize in *. pose proof (Z.mod_pos_bound a 16384 ltac:(lia)). lia.
  - apply next_page_aligned.
  - by rewrite next_page_mod.
  - unfold next_page at 1. by rewrite next_page_start.
  - by rewrite next_page_start.
  - by rewrite next_page_mod.
Qed.

(** Where the reader stands after it followed a page marker, if there was one. *)
Lemma follow_ok s a rs e Q : stands s a → writable_ (l_acc s) = false → logged (l_file s) a rs e →
  (∀ s' a', stands s' a' → l_file s' = l_file s → writable_ (l_acc s') = false →
     logged (l_file s) a' rs e → int_at (l_file s) a' 4 ≠ 2 → Q tt s') →
  wp follow_page Q s.
Proof.
  intros H Hw Hl HQ. unfold LogFile.follow_page. apply wp_bind, (load_marker_ok H).
  destruct Hl as [a Hz|a r rs e H1 Hr Hf Hl|a rs e H2 Hlt Hn Hl].
  - rewrite Hz. cbn. apply (HQ _ a); try done; [by constructor|lia].
  - rewrite H1. cbn. apply (HQ _ a); try done; [by constructor|lia].
  - rewrite H2. cbn [Z.eqb Pos.eqb]. apply wp_bind. unfold wp at 1, get_acc.
    apply (read_next_page s a); [done..|]. intros s' H' Hf' Hw'. apply (HQ _ (next_page a)); try done.
Qed.

(** [aligned] positions and the sizes of records. *)
Lemma step_size_pos n : 0 ≤ n → n < step_size n ≤ n + kAlignment.
Proof. intros Hn. unfold step_size, kAlignment. pose proof (Z.mod_pos_bound n 8). lia. Qed.

Lemma align_step p n : p mod kAlignment = 0 → 0 ≤ p → 0 ≤ n → p + n < 2 ^ 62 →
  AlignPosition (u64 (p + n)) = p + step_size n.
Proof.
  intros Hp H0 Hn Hs. unfold AlignPosition, step_size. rewrite (uwrap_small 64 (p + n)) by (unfold in_unsigned; lia).
  assert (E : (p + n) mod kAlignment = n mod kAlignment).
  { rewrite Z.add_mod, Hp, Z.add_0_l, Z.mod_mod by done. done. }
  rewrite E, uwrap_small; [lia|]. unfold in_unsigned, kAlignment. pose proof (Z.mod_pos_bound n 8). lia.
Qed.

Lemma page_aligned a : a mod kAlignment = 0 → (a mod kPageSize) mod kAlignment = 0.
Proof.
  intros Ha. unfold kPageSize, kAlignment in *. rewrite <-Znumtheory.Zmod_div_mod; [done|lia|lia|].
  exists 2048. done.
Qed.

Lemma step_aligned a n : a mod kAlignment = 0 → (a + step_size n) mod kAlignment = 0.
Proof.
  intros Ha. unfold step_size. pose proof (Z.div_mod n kAlignment ltac:(done)) as E.
  replace (a + (n + (kAlignment - n mod kAlignment))) with (a + (n / kAlignment + 1) * kAlignment) by lia.
  by rewrite Z.mod_add.
Qed.

(** Moving within the page. *)
Lemma stands_move s a n : stands s a → 0 ≤ n →
  a mod kPageSize + step_size n + sizeof_aos_futex ≤ kPageSize →
  wp (IncrementPosition n) (λ _ s', stands s' (a + step_size n) ∧ l_file s' = l_file s ∧
    writable_ (l_acc s') = writable_ (l_acc s)) s.
Proof.
  intros H Hn Hf. pose proof (page_mod a). pose proof (step_size_pos n Hn). pose proof (st_aligned _ _ H) as Ha.
  pose proof (page_aligned a Ha) as Hpa. unfold sizeof_aos_futex, kPageSize in Hf.
  assert (E : page_start (a + step_size n) = page_start a ∧
              (a + step_size n) mod kPageSize = a mod kPageSize + step_size n).
  { rewrite (page_split a) at 1 3. rewrite <-Z.add_assoc. apply page_start_of; [apply page_start_mod|].
    unfold kPageSize in *. lia. }
  destruct E as [E1 E2]. unfold wp, IncrementPosition, upd_acc.
  destruct H as [Hp Hnn _ Hro Hin Hc Hpo Hof Hr]. rewrite Hpo, align_step; [|done|lia|done|unfold kPageSize in *; lia].
  split_and!; [|done|done]. split; cbn; try done.
  - lia.
  - by apply step_aligned.
  - rewrite E2. unfold sizeof_aos_futex, kPageSize in *. lia.
  - unfold next_page. rewrite E1. done.
  - by rewrite E1.
  - unfold next_page. rewrite E1. done.
Qed.

(** What [ReadNextMessage(false)] returns: the next record, or [NULL] at the end. *)
Definition read_post (f : file) (rs : list record) (e : Z) (o : option Z) (s' : log) : Prop :=
  l_file s' = f ∧ writable_ (l_acc s') = false ∧
  match rs with
  | [] => o = None ∧ ∃ a', stands s' a' ∧ logged f a' [] e
  | r :: rs => ∃ h a', o = Some (h mod kPageSize) ∧ record_at f h r ∧ stands s' a' ∧
      current_ (l_acc s') = Mapped (page_start h) ∧ h mod kPageSize + record_size r ≤ kPageSize ∧ logged f a' rs e
  end.


Lemma logged_not_page f a rs e : logged f a rs e → int_at f a 4 ≠ 2 →
  (rs = [] ∧ int_at f a 4 = 0) ∨
  ∃ r rs', rs = r :: rs' ∧ int_at f a 4 = 1 ∧ record_at f a r ∧
    a mod kPageSize + step_size (record_size r) + sizeof_aos_futex ≤ kPageSize ∧
    logged f (a + step_size (record_size r)) rs' e.
Proof. intros [] Hne; [by left|right; eauto 10|done]. Qed.

Lemma ReadNextMessage_ok s a rs e n : stands s a → writable_ (l_acc s) = false → logged (l_file s) a rs e →
  wp (ReadNextMessage (S n) false) (read_post (l_file s) rs e) s.
Proof.
  intros H Hw Hl. unfold LogFile.ReadNextMessage. apply wp_bind. cbn [LogFile.await_message]. apply wp_bind.
  apply (follow_ok s a rs e); [done..|]. intros s1 a1 H1 Hf1 Hw1 Hl1 Hne.
  apply wp_bind, (load_marker_ok H1). cbn [andb]. apply wp_ret. apply wp_bind, (load_marker_ok H1). rewrite Hf1.
  destruct (logged_not_page _ _ _ _ Hl1 Hne) as [[-> Hz]|(r & rs' & -> & Hm & Hr & Hfit & Hl')].
  - rewrite Hz. cbn [Z.eqb]. apply wp_ret. unfold read_post. split_and!; [done|done|done|eauto].
  - rewrite Hm. cbn [Z.eqb]. apply wp_bind. unfold wp at 1, get_acc. rewrite (st_current _ _ H1), (st_position _ _ H1).
    pose proof (page_mod a1). pose proof (record_size_pos r). pose proof (step_size_pos (record_size r) ltac:(lia)).
    assert (Hin : a1 mod kPageSize + 32 ≤ kPageSize).
    { unfold sizeof_aos_futex in *. lia. }
    apply wp_bind, (load_int_ok H1); [unfold off_name_size; lia|unfold off_name_size; lia|].
    apply wp_bind, (load_int_ok H1); [unfold off_message_size; lia|unfold off_message_size; lia|].
    rewrite !Z.add_assoc, <-page_split, Hf1. pose proof Hr as (_ & _ & _ & -> & -> & _).
    apply wp_bind. eapply wp_mono; [apply (stands_move s1 a1); [done| |]|].
    + unfold sizeof_LogFileMessageHeader. lia.
    + done.
    + fold (record_size r). intros [] s2 (Hs2 & Hf2 & Hw2). apply wp_bind. unfold wp at 1, get_acc.
      rewrite (st_position _ _ Hs2). pose proof (page_mod (a1 + step_size (record_size r))).
      destruct (Z.leb_spec kPageSize ((a1 + step_size (record_size r)) mod kPageSize)); [lia|]. apply wp_ret.
      unfold read_post. split_and!; [congruence|congruence|]. exists a1, (a1 + step_size (record_size r)).
      split_and!; [done|done|done| |unfold sizeof_aos_futex in *; lia|done].
      rewrite (st_current _ _ Hs2). f_equal.
      assert (page_start (a1 + step_size (record_size r)) = page_start a1) as ->; [|done].
      rewrite (page_split a1) at 1. rewrite <-Z.add_assoc. apply page_start_of; [apply page_start_mod|].
      unfold sizeof_aos_futex, kPageSize in *. lia.
Qed.
End Reader.
