(* ===== verification/LogWriter.v ===== *)
(** * The binary log writer: aos/common/logging/binary_log_writer.cc

    The process that takes messages off the logging queue and appends them to a
    log file, each struct preceded by the types it needs. *)

From stdpp Require Import sets.
From S2P Require Import Prelude SharedMem ByteOrder QueueTypes TypeCache LogFile.

(** ** LogMessage: aos/common/logging/implementations.h *)

Definition LOG_MESSAGE_LEN : Z := 400.
Definition LOG_MESSAGE_NAME_LEN : Z := 100.

(** The union, with its arrays. *)
Inductive payload :=
| PString (message : bytes)
| PStruct (type_id string_length : Z) (serialized : bytes)
| PMatrix (type rows cols string_length : Z) (data : bytes).

Record LogMessage := mkMessage {
  seconds : Z;
  nseconds : Z;
  message_length : Z;
  name_length : Z;
  source : Z;
  sequence : Z;
  level : Z;
  m_name : bytes;
  m_payload : payload }.

(** [LogFileMessageHeader::MessageType] *)
Definition kString : Z := 0.
Definition kStructType : Z := 1.
Definition kStruct : Z := 2.
Definition kMatrix : Z := 3.
Definition FATAL : Z := 4.

(** ** Filling in a header *)

(** Reading [n] bytes of an array of the message. *)
Definition array_load (a : bytes) (n : Z) : res bytes :=
  if bool_decide (Z.of_nat (length a) < n) then Err Undefined else Ok (take (Z.to_nat n) a).

(** [output->message_size += v] *)
Definition bump_message_size (c : mapping) (p v : Z) : ML unit :=
  old ← load_int c (p + off_message_size) 4;
  store_int c (p + off_message_size) 4 (u32 (old + v)).

(** The stores to [output] before the [switch]; [p] is its position in the page. *)
Definition fill_header (c : mapping) (p : Z) (msg : LogMessage) : ML unit :=
  _ ← store_int c (p + off_name_size) 4 (u32 (name_length msg));
  _ ← store_int c (p + off_message_size) 4 (u32 (message_length msg));
  _ ← store_int c (p + off_source) 4 (u32 (source msg));
  _ ← store_int c (p + off_level) 1 (level msg);
  _ ← store_int c (p + off_time_sec) 4 (u32 (seconds msg));
  _ ← store_int c (p + off_time_nsec) 4 (u32 (nseconds msg));
  _ ← store_int c (p + off_sequence) 2 (sequence msg);
  nm ← st_lift (array_load (m_name msg) (name_length msg));
  page_store c (p + sizeof_LogFileMessageHeader) nm.

(** The [switch]; [Sizeof] is an [unsigned int]. *)
Definition fill_payload (c : mapping) (p : Z) (msg : LogMessage) : ML unit :=
  let position := p + sizeof_LogFileMessageHeader + name_length msg in
  match m_payload msg with
  | PString message =>
      bs ← st_lift (array_load message (message_length msg));
      _ ← page_store c position bs;
      store_int c (p + off_type) 2 kString
  | PStruct type_id string_length serialized =>
      _ ← store_int c position 4 type_id;
      _ ← bump_message_size c p 4;
      let length_ := u32 string_length in
      _ ← store_int c (position + 4) 4 length_;
      bs ← st_lift (array_load serialized (length_ + message_length msg));
      _ ← page_store c (position + 8) bs;
      _ ← bump_message_size c p (4 + length_);
      store_int c (p + off_type) 2 kStruct
  | PMatrix type rows cols string_length data =>
      _ ← store_int c position 4 type;
      _ ← bump_message_size c p 4;
      let length_ := u32 string_length in
      _ ← store_int c (position + 4) 4 length_;
      _ ← bump_message_size c p 4;
      let rows := u16 rows in
      let cols := u16 cols in
      _ ← store_int c (position + 8) 2 rows;
      _ ← store_int c (position + 10) 2 cols;
      _ ← bump_message_size c p 4;
      if negb (message_length msg =? u32 (Sizeof type * rows * cols)) then st_stop Fatal
      else
        bs ← st_lift (array_load data (message_length msg + length_));
        _ ← page_store c (position + 12) bs;
        _ ← bump_message_size c p length_;
        store_int c (p + off_type) 2 kMatrix
  end.

(** ** The writer *)

Record logger := mkLogger {
  lg_log : log;
  lg_types : types;
  written_type_ids : gset Z;
  clear_type_ids_cookie : Z }.
Abbreviation MG := (ST logger).

Definition on_log {A} (m : ML A) : MG A := λ s,
  match m (lg_log s) with
  | Ok (a, l) => Ok (a, mkLogger l (lg_types s) (written_type_ids s) (clear_type_ids_cookie s))
  | Err e => Err e
  end.
Definition on_types {A} (m : MT A) : MG A := λ s,
  match m (lg_types s) with
  | Ok (a, t) => Ok (a, mkLogger (lg_log s) t (written_type_ids s) (clear_type_ids_cookie s))
  | Err e => Err e
  end.
Definition set_written (w : gset Z) : MG unit := λ s,
  Ok (tt, mkLogger (lg_log s) (lg_types s) w (clear_type_ids_cookie s)).
Definition set_cookie (c : Z) : MG unit := λ s,
  Ok (tt, mkLogger (lg_log s) (lg_types s) (written_type_ids s) c).

Section Writer.
Context (sys_read : file → Z → Z) (uninitialised stack : bytes) (getpid : Z).

(** The part of [CheckTypeWritten] behind [Serialize]. *)
Definition write_type (p size : Z) (buffer : bytes) : ML unit :=
  a ← get_acc;
  let c := current_ a in
  _ ← store_int c (p + off_time_nsec) 4 0;
  _ ← store_int c (p + off_time_sec) 4 0;
  _ ← store_int c (p + off_source) 4 (u32 getpid);
  _ ← store_int c (p + off_name_size) 4 0;
  _ ← store_int c (p + off_sequence) 2 0;
  _ ← store_int c (p + off_level) 1 FATAL;
  bs ← st_lift (array_load buffer size);
  _ ← page_store c (p + sizeof_LogFileMessageHeader) bs;
  _ ← store_int c (p + off_message_size) 4 (u32 size);
  _ ← store_int c (p + off_type) 2 kStructType;
  store_int c (p + off_marker) 4 1.

(** The loop over the fields. *)
Definition for_fields (check : Z → MG unit) : list Field → MG unit :=
  fix loop fs :=
    match fs with
    | [] => mret tt
    | f :: fs => _ ← check (f_type f); loop fs
    end.

(** The recursion follows the fields; the fuel bounds the nesting of types. *)
Fixpoint CheckTypeWritten (fuel : nat) (type_id : Z) : MG unit :=
  match fuel with
  | O => st_stop Fuel
  | S fuel =>
      s ← st_get;
      if bool_decide (type_id ∈ written_type_ids s) then mret tt
      else if IsPrimitive type_id then mret tt
      else
        type ← on_types (Get type_id);
        fs ← st_lift (loop_fields type);
        _ ← for_fields (CheckTypeWritten fuel) fs;
        '(size, buffer) ← st_lift (Serialize type stack 1024);
        if size =? -1 then mret tt
        else
          p ← on_log (GetWritePosition sys_read uninitialised (u64 (sizeof_LogFileMessageHeader + size)));
          _ ← on_log (write_type p size buffer);
          s ← st_get;
          set_written ({[type_id]} ∪ written_type_ids s)
  end.

(** [raw_output_length] and [output_length] *)
Definition raw_output_length (msg : LogMessage) : Z :=
  u64 (sizeof_LogFileMessageHeader + name_length msg + message_length msg).

Definition output_length (msg : LogMessage) : Z :=
  match m_payload msg with
  | PString _ => raw_output_length msg
  | PStruct _ string_length _ => u64 (raw_output_length msg + (4 + 4 + string_length))
  | PMatrix _ _ _ string_length _ => u64 (raw_output_length msg + (4 + 4 + 2 + 2 + string_length))
  end.

(** What comes before [GetWritePosition]. *)
Definition prepare (fuel : nat) (msg : LogMessage) : MG unit :=
  match m_payload msg with
  | PString _ => mret tt
  | PStruct type_id _ _ =>
      s ← st_get;
      '(clear, cookie) ← on_log (ShouldClearSeekableData (clear_type_ids_cookie s) (output_length msg));
      _ ← set_cookie cookie;
      _ ← (if (clear : bool) then
             _ ← on_log (ForceNewPage sys_read uninitialised);
             set_written ∅
           else mret tt);
      CheckTypeWritten fuel type_id
  | PMatrix type _ _ _ _ => if IsPrimitive type then mret tt else st_stop Fatal
  end.

(** Writing the message itself and setting its marker. *)
Definition write_message (msg : LogMessage) : ML unit :=
  p ← GetWritePosition sys_read uninitialised (output_length msg);
  a ← get_acc;
  let c := current_ a in
  _ ← fill_header c p msg;
  _ ← fill_payload c p msg;
  size ← load_int c (p + off_message_size) 4;
  if negb (u64 (size - message_length msg) =? u64 (output_length msg - raw_output_length msg))
  then st_stop Fatal
  else store_int c (p + off_marker) 4 1.

(** One turn of the loop of [BinaryLogReaderMain], on the message it has read. *)
Definition log_message (fuel : nat) (msg : LogMessage) : MG unit :=
  _ ← prepare fuel msg;
  on_log (write_message msg).

(** The loop, on the messages the queue delivers. *)
Fixpoint log_messages (fuel : nat) (msgs : list LogMessage) : MG unit :=
  match msgs with
  | [] => mret tt
  | msg :: msgs => _ ← log_message fuel msg; log_messages fuel msgs
  end.
End Writer.
