(* ===== verification/LogWriterProofs.v ===== *)
(** * Appending to a log file *)

From S2P Require Import Prelude SharedMem ByteOrder QueueTypes TypeCache LogFile LogFileProofs.
From S2P Require Import LogWriter.

(** ** Logs that grow *)

Lemma page_room a : a mod kAlignment = 0 → a + kAlignment ≤ next_page a.
Proof.
  intros Ha. pose proof (page_aligned a Ha). pose proof (page_mod a). unfold next_page.
  rewrite (page_split a) at 1. unfold kAlignment, kPageSize in *.
  pose proof (Z.div_mod (a mod 16384) 8). lia.
Qed.

Lemma logged_le f a rs e : a mod kAlignment = 0 → logged f a rs e →
  e mod kAlignment = 0 ∧ (a = e ∨ a + kAlignment ≤ e).
Proof.
  intros Ha H. induction H as [a Hz|a r rs e H1 Hr Hf Hl IH|a rs e H2 Hlt Hn Hl IH]; [by split; [|left]|..].
  - pose proof (record_size_pos r). pose proof (step_size_pos (record_size r) ltac:(lia)).
    destruct IH as [He IH]; [by apply step_aligned|]. split; [done|]. unfold kAlignment in *. lia.
  - destruct IH as [He IH]; [apply next_page_aligned|]. split; [done|].
    pose proof (page_room a Ha). unfold kAlignment in *. lia.
Qed.

(** What was logged below [e] stays, and what comes behind it is appended. *)
Lemma logged_append f f' a rs e rs' e' : logged f a rs e → a mod kAlignment = 0 →
  (∀ x, x < e → byte_at f x = byte_at f' x) → f_size f ≤ f_size f' →
  (e mod kPageSize = 0 → int_at f' e 4 ≠ 2) → logged f' e rs' e' → logged f' a (rs ++ rs') e'.
Proof.
  intros H. induction H as [a Hz|a r rs e H1 Hr Hf Hl IH|a rs e H2 Hlt Hn Hl IH]; intros Ha Hb Hs Hm He; [done|..].
  - pose proof (record_size_pos r). pose proof (step_size_pos (record_size r) ltac:(lia)).
    pose proof (step_aligned a (record_size r) Ha) as Ha'.
    destruct (logged_le _ _ _ _ Ha' Hl) as [_ Hle]. unfold kAlignment in Hle.
    cbn [app]. constructor; [|apply (record_at_ext f); [|done]|done|by apply IH].
    + rewrite <-H1. apply int_at_ext. intros x Hx. symmetry. apply Hb. lia.
    + intros x Hx. apply Hb. lia.
  - pose proof (next_page_aligned a) as Hna. destruct (logged_le _ _ _ _ Hna Hl) as [_ Hle].
    pose proof (page_room a Ha).
    unfold kAlignment in *. apply logged_page; [|lia| |by apply IH].
    + rewrite <-H2. apply int_at_ext. intros x Hx. symmetry. apply Hb. lia.
    + destruct Hle as [<-|Hle]; [apply Hm, next_page_mod|].
      rewrite <-(int_at_ext f f'); [done|]. intros x Hx. apply Hb. lia.
Qed.

(** ** The writer's state *)

(** The file holds the records [rs] from [a0] on and nothing behind [e], where the
    writer stands on the last page. *)
Record writing (s : log) (a0 : Z) (rs : list record) (e : Z) : Prop := {
  w_stands : stands s e;
  w_writable : writable_ (l_acc s) = true;
  w_start : a0 mod kAlignment = 0;
  w_logged : logged (l_file s) a0 rs e;
  w_fresh : ∀ x, e ≤ x → byte_at (l_file s) x = 0;
  w_last : f_size (l_file s) = next_page e }.

(** The same with room for [n] bytes taken at [e] but not yet written. *)
Record reserved (s : log) (a0 : Z) (rs : list record) (e n : Z) : Prop := {
  v_stands : stands s (e + step_size n);
  v_writable : writable_ (l_acc s) = true;
  v_start : a0 mod kAlignment = 0;
  v_logged : logged (l_file s) a0 rs e;
  v_fresh : ∀ x, e ≤ x → byte_at (l_file s) x = 0;
  v_last : f_size (l_file s) = next_page e;
  v_current : current_ (l_acc s) = Mapped (page_start e);
  v_aligned : e mod kAlignment = 0;
  v_fits : e mod kPageSize + step_size n + sizeof_aos_futex ≤ kPageSize }.

Lemma page_store_ok s b q bs Q : writable_ (l_acc s) = true → 0 ≤ q → q + Z.of_nat (length bs) ≤ kPageSize →
  b + kPageSize ≤ f_size (l_file s) →
  Q tt (mkLog (file_store (l_file s) (b + q) bs) (l_acc s)) → wp (page_store (Mapped b) q bs) Q s.
Proof.
  intros Hw Hq Hl Hb HQ. unfold wp, page_store. destruct (Z.ltb_spec q 0); [lia|].
  destruct (Z.ltb_spec kPageSize (q + Z.of_nat (length bs))); [lia|]. cbn [orb].
  destruct (Z.leb_spec (b + q + Z.of_nat (length bs)) (f_size (l_file s))); [|lia].
  rewrite Hw. done.
Qed.

Lemma store_int_ok s b q n v Q : writable_ (l_acc s) = true → 0 ≤ q → q + Z.of_nat n ≤ kPageSize →
  b + kPageSize ≤ f_size (l_file s) →
  Q tt (mkLog (file_store (l_file s) (b + q) (le_split n v)) (l_acc s)) → wp (store_int (Mapped b) q n v) Q s.
Proof. intros. unfold store_int. apply page_store_ok; rewrite ?le_split_length; done. Qed.

Section Pages.
Context (sys_read : file → Z → Z) (uninitialised : bytes).
Notation ForceNewPage := (ForceNewPage sys_read uninitialised).
Notation GetWritePosition := (GetWritePosition sys_read uninitialised).

Lemma next_next a : next_page (next_page a) = next_page a + kPageSize.
Proof. unfold next_page at 1. by rewrite next_page_start. Qed.

Lemma ForceNewPage_ok s a0 rs e : writing s a0 rs e → e mod kPageSize ≠ 0 →
  f_size (l_file s) + kPageSize < 2 ^ 62 →
  wp ForceNewPage (λ _ s', writing s' a0 rs (next_page e) ∧
    f_size (l_file s') = f_size (l_file s) + kPageSize) s.
Proof.
  intros [H Hw Ha0 Hl Hfr Hlast] He Hsz. unfold LogFile.ForceNewPage. apply wp_bind. unfold wp at 1, get_acc.
  pose proof (st_paged _ _ H) as [Hm Hmod _]. pose proof (st_pos _ _ H) as H0. pose proof (page_mod e).
  pose proof (page_room e (st_aligned _ _ H)) as Hroom. unfold kAlignment in Hroom.
  assert (Hoff : next_offset (l_acc s) = next_page e + kPageSize).
  { unfold next_offset. rewrite (st_offset _ _ H), swrap64_small; [done|]. unfold kPageSize in *. lia. }
  apply wp_bind. unfold wp at 1. rewrite MapNextPage_eq, Hw, Hoff by (rewrite ?(st_read _ _ H); done).
  rewrite (st_current _ _ H), (st_position _ _ H).
  pose proof (st_room _ _ H) as Hr. unfold sizeof_aos_futex in Hr.
  apply wp_bind, store_int_ok; [done|lia|done|cbn [l_file f_size ftruncate]; unfold next_page, kPageSize; lia|].
  rewrite <-page_split. cbn [l_acc l_file].
  unfold wp, Unmap, get_acc, upd_acc. mstep. cbn [l_acc use_read_ set_use_read_ set_offset_ set_current_ current_ offset_].
  change (bool_decide (kNo = kUnknown)) with false. cbn iota. unfold definitely_use_mmap. mstep.
  cbn [use_read_ set_use_read_ set_offset_ set_current_ current_ offset_ l_acc l_file].
  rewrite (st_offset _ _ H), (bool_decide_eq_false_2 (Mapped _ = Mapped _)).
  2:{ intros [= E]. unfold next_page, kPageSize in *. lia. }
  rewrite andb_false_r. cbn [l_acc l_file]. set (f' := file_store _ _ _).
  assert (Hb : ∀ x, x < e → byte_at (l_file s) x = byte_at f' x).
  { intros x Hx. unfold f'. rewrite byte_at_store_out, byte_at_ftruncate, decide_True; [done|lia|lia]. }
  assert (Hz : ∀ x, next_page e ≤ x → byte_at f' x = 0).
  { intros x Hx. unfold f'. rewrite byte_at_store_out, byte_at_ftruncate by (rewrite le_split_length; lia).
    destruct (decide _); [apply Hfr; lia|done]. }
  assert (Hz4 : int_at f' (next_page e) 4 = 0) by (apply int_at_zero; intros; apply Hz; lia).
  split; [|cbn [l_file]; unfold f'; cbn; lia]. split; cbn [l_file l_acc]; try done.
  - split; cbn [l_file l_acc]; try done.
    + split; [done| |cbn; lia]. cbn [f_size f' file_store ftruncate].
      rewrite Z.add_mod, next_page_mod by done. done.
    + lia.
    + apply next_page_aligned.
    + rewrite next_page_mod. done.
    + rewrite next_next. cbn. lia.
    + cbn. by rewrite next_page_start.
    + cbn. by rewrite next_page_mod.
    + cbn. by rewrite next_next.
  - rewrite <-(app_nil_r rs). apply (logged_append (l_file s) _ _ _ e); [done..|cbn; lia| |].
    + done.
    + apply logged_page; [|cbn; unfold kPageSize; lia|lia|by apply logged_end].
      apply int_at_store. lia.
  - rewrite next_next. done.
Qed.

Lemma NeedNewPageFor_eq s e n : stands s e → 0 ≤ n < 2 ^ 32 →
  NeedNewPageFor (l_acc s) n = bool_decide (kPageSize < e mod kPageSize + step_size n + sizeof_aos_futex).
Proof.
  intros H Hn. unfold NeedNewPageFor. rewrite (st_position _ _ H). pose proof (page_mod e). pose proof (step_size_pos n).
  rewrite uwrap_small.
  - unfold step_size. rewrite Z.add_assoc. apply eq_true_iff_eq. by rewrite Z.ltb_lt, bool_decide_eq_true.
  - unfold in_unsigned, step_size, kAlignment, kPageSize, sizeof_aos_futex in *. lia.
Qed.

(** A position for a message that fits on a page. *)
Lemma GetWritePosition_ok s a0 rs e n : writing s a0 rs e → 0 ≤ n →
  step_size n + sizeof_aos_futex ≤ kPageSize → f_size (l_file s) + kPageSize < 2 ^ 62 →
  wp (GetWritePosition n) (λ p s', ∃ e', p = e' mod kPageSize ∧ reserved s' a0 rs e' n ∧
    e ≤ e' ∧ f_size (l_file s') ≤ f_size (l_file s) + kPageSize) s.
Proof.
  intros W Hn Hfit Hsz. pose proof (step_size_pos n Hn). unfold LogFile.GetWritePosition. apply wp_bind. unfold wp at 1, get_acc.
  rewrite (NeedNewPageFor_eq s e n) by (apply W || (unfold kPageSize, sizeof_aos_futex in *; lia)). apply wp_bind.
  assert (K : ∀ s1 e1, writing s1 a0 rs e1 → e1 mod kPageSize + step_size n + sizeof_aos_futex ≤ kPageSize →
    e ≤ e1 → f_size (l_file s1) ≤ f_size (l_file s) + kPageSize →
    wp (a ← get_acc; _ ← IncrementPosition n; mret (position_ a))
      (λ p s', ∃ e', p = e' mod kPageSize ∧ reserved s' a0 rs e' n ∧
        e ≤ e' ∧ f_size (l_file s') ≤ f_size (l_file s) + kPageSize) s1).
  { intros s1 e1 [H1 Hw1 Ha1 Hl1 Hf1 Hla1] Hfit1 He1 Hs1. apply wp_bind. unfold wp at 1, get_acc.
    rewrite (st_position _ _ H1). apply wp_bind. eapply wp_mono; [by apply (stands_move s1 e1)|].
    intros [] s2 (H2 & E2 & Ew2). apply wp_ret. exists e1. rewrite E2. split_and!; [done| |done|done].
    split; rewrite ?E2; try done; [congruence| |apply H1].
    rewrite (st_current _ _ H2). f_equal. rewrite (page_split e1) at 1. rewrite <-Z.add_assoc.
    apply page_start_of; [apply page_start_mod|]. pose proof (page_mod e1). unfold sizeof_aos_futex in *. lia. }
  case_bool_decide as Hneed.
  - eapply wp_mono; [apply (ForceNewPage_ok s a0 rs e W)|].
    + intros E. rewrite E in Hneed. lia.
    + done.
    + intros [] s1 [W1 E1]. pose proof (page_room e (st_aligned _ _ (w_stands _ _ _ _ W))).
      apply (K s1 (next_page e) W1); [by rewrite next_page_mod|unfold kAlignment in *; lia|lia].
  - apply wp_ret. apply (K s e W); [lia|lia|unfold kPageSize; lia].
Qed.
End Pages.

(** ** Filling in messages *)

Lemma load_ok s b q n Q : 0 ≤ q → q + Z.of_nat n ≤ kPageSize → b + kPageSize ≤ f_size (l_file s) →
  Q (int_at (l_file s) (b + q) n) s → wp (load_int (Mapped b) q n) Q s.
Proof.
  intros Hq Hn Hb HQ. unfold load_int. apply wp_bind. unfold wp at 1, page_load.
  destruct (Z.ltb_spec q 0); [lia|]. destruct (Z.ltb_spec kPageSize (q + Z.of_nat n)); [lia|]. cbn [orb].
  destruct (Z.ltb_spec (f_size (l_file s)) (b + q + Z.of_nat n)); [lia|]. by apply wp_ret.
Qed.

Lemma int_at_store_eq f a x n v : x = a → 0 ≤ v < 256 ^ Z.of_nat n →
  int_at (file_store f a (le_split n v)) x n = v.
Proof. intros ->. apply int_at_store. Qed.

Lemma bytes_at_store_eq f a x bs n : x = a → n = length bs → bytes_at (file_store f a bs) x n = bs.
Proof. intros -> ->. apply bytes_at_store. Qed.

Lemma bytes_at_app f a n m : bytes_at f a (n + m) = bytes_at f a n ++ bytes_at f (a + Z.of_nat n) m.
Proof.
  revert a. induction n as [|n IH]; intros a; cbn [bytes_at app Nat.add].
  - by rewrite Z.add_0_r.
  - rewrite IH. do 3 f_equal. lia.
Qed.

(** The record is complete: its marker makes it part of the log. *)
Lemma commit s f' a0 rs e r : reserved s a0 rs e (record_size r) → 
  f_size f' = f_size (l_file s) → f_mmap f' = f_mmap (l_file s) →
  (∀ x, x < e ∨ e + record_size r ≤ x → byte_at f' x = byte_at (l_file s) x) →
  int_at f' e 4 = 1 → record_at f' e r →
  writing (mkLog f' (l_acc s)) a0 (rs ++ [r]) (e + step_size (record_size r)).
Proof.
  intros [H Hw Ha0 Hl Hfr Hla Hc Hal Hfit] Hsz Hmm Hb Hm Hr. pose proof (record_size_pos r).
  pose proof (step_size_pos (record_size r) ltac:(lia)). pose proof (page_mod e).
  assert (Hz : ∀ x, e + step_size (record_size r) ≤ x → byte_at f' x = 0).
  { intros x Hx. rewrite Hb by lia. apply Hfr. lia. }
  split; cbn [l_file l_acc]; try done.
  - destruct H as [[Hm1 Hmod1 Hs1] ? ? ? ? ? ? ? ?]. split; cbn [l_file l_acc]; try done; [|lia].
    split; congruence.
  - apply (logged_append (l_file s) _ _ _ e); [done|done| |lia|lia|].
    + intros x Hx. symmetry. apply Hb. lia.
    + apply logged_msg; [done..|]. apply logged_end, int_at_zero. intros; apply Hz; lia.
  - rewrite Hsz, Hla. unfold next_page. f_equal. symmetry.
    rewrite (page_split e) at 1. rewrite <-Z.add_assoc.
    apply page_start_of; [apply page_start_mod|]. unfold sizeof_aos_futex in *. lia.
Qed.

(** Well-formed messages: what the [FillIn...] functions produce. *)
Definition payload_okb (mlen : Z) (p : payload) : bool :=
  match p with
  | PString m => (mlen <=? Z.of_nat (length m)) && (Z.of_nat (length m) <=? LOG_MESSAGE_LEN)
  | PStruct t sl ser =>
      (0 <=? t) && (t <? 2 ^ 32) && (0 <=? sl) && (sl + mlen <=? Z.of_nat (length ser)) &&
      (Z.of_nat (length ser) <=? LOG_MESSAGE_LEN)
  | PMatrix t r c sl d =>
      (0 <=? t) && (t <? 2 ^ 32) && (0 <=? r) && (r <? 2 ^ 16) && (0 <=? c) && (c <? 2 ^ 16) && (0 <=? sl) &&
      (mlen =? u32 (Sizeof t * r * c)) && (sl + mlen <=? Z.of_nat (length d)) &&
      (Z.of_nat (length d) <=? LOG_MESSAGE_LEN)
  end.

Definition message_okb (m : LogMessage) : bool :=
  (0 <=? message_length m) && (0 <=? name_length m) && (name_length m <=? Z.of_nat (length (m_name m))) &&
  (Z.of_nat (length (m_name m)) <=? LOG_MESSAGE_NAME_LEN) &&
  (0 <=? sequence m) && (sequence m <? 2 ^ 16) && (0 <=? level m) && (level m <? 2 ^ 8) &&
  payload_okb (message_length m) (m_payload m).

Definition payload_type (p : payload) : Z :=
  match p with PString _ => kString | PStruct _ _ _ => kStruct | PMatrix _ _ _ _ _ => kMatrix end.

Definition payload_bytes (mlen : Z) (p : payload) : bytes :=
  match p with
  | PString m => take (Z.to_nat mlen) m
  | PStruct t sl ser => le_split 4 t ++ le_split 4 sl ++ take (Z.to_nat (sl + mlen)) ser
  | PMatrix t r c sl d =>
      le_split 4 t ++ le_split 4 sl ++ le_split 2 r ++ le_split 2 c ++ take (Z.to_nat (mlen + sl)) d
  end.

(** What a reader finds for a message. *)
Definition record_of (m : LogMessage) : record :=
  mkRecord (u32 (seconds m)) (u32 (nseconds m)) (u32 (source m)) (sequence m) (payload_type (m_payload m)) (level m)
    (take (Z.to_nat (name_length m)) (m_name m)) (payload_bytes (message_length m) (m_payload m)).

(** [f'] differs from [f] only where [P] holds. *)
Definition changed (P : Z → Prop) (f f' : file) : Prop :=
  f_size f' = f_size f ∧ f_mmap f' = f_mmap f ∧ ∀ x, ¬ P x → byte_at f' x = byte_at f x.

Lemma changed_refl P f : changed P f f.
Proof. by split_and!. Qed.

Lemma changed_store (P : Z → Prop) f f' a bs : changed P f f' →
  (∀ x, a ≤ x < a + Z.of_nat (length bs) → P x) → changed P f (file_store f' a bs).
Proof.
  intros (H1 & H2 & H3) HP. split_and!; [done|done|]. intros x Hx.
  destruct (decide (a ≤ x < a + Z.of_nat (length bs))) as [Hin|Hout]; [by destruct Hx; apply HP|].
  rewrite byte_at_store_out by lia. by apply H3.
Qed.

Lemma changed_trans (P Q : Z → Prop) f f' f'' : changed P f f' → changed Q f' f'' →
  changed (λ x, P x ∨ Q x) f f''.
Proof.
  intros (A1 & A2 & A3) (B1 & B2 & B3). split_and!; [congruence|congruence|].
  intros x Hx. rewrite B3, A3; [done|tauto|tauto].
Qed.

(** Values stored at other places stay. *)
Ltac stored :=
  repeat first
    [ rewrite int_at_store_eq by (rewrite ?le_split_length, ?length_take; lia)
    | rewrite int_at_store_out by (rewrite ?le_split_length, ?length_take; lia)
    | rewrite bytes_at_store_eq by (rewrite ?le_split_length, ?length_take; lia)
    | rewrite bytes_at_store_out by (rewrite ?le_split_length, ?length_take; lia) ].

Section Fill.
Context (e : Z) (s : log) (hi : Z).
Context (Hw : writable_ (l_acc s) = true) (Hsize : page_start e + kPageSize ≤ f_size (l_file s)).
Context (Hhi : e mod kPageSize + hi ≤ kPageSize) (H32 : 32 ≤ hi).
Notation c := (Mapped (page_start e)).
Notation p := (e mod kPageSize).

(** The header's fields but its message size, type and marker, and the name. *)
Definition header_at (f : file) (m : LogMessage) : Prop :=
  int_at f (e + off_time_sec) 4 = u32 (seconds m) ∧ int_at f (e + off_time_nsec) 4 = u32 (nseconds m) ∧
  int_at f (e + off_source) 4 = u32 (source m) ∧ int_at f (e + off_name_size) 4 = name_length m ∧
  int_at f (e + off_sequence) 2 = sequence m ∧ int_at f (e + off_level) 1 = level m ∧
  bytes_at f (e + sizeof_LogFileMessageHeader) (Z.to_nat (name_length m)) =
    take (Z.to_nat (name_length m)) (m_name m).

Definition outside_header (m : LogMessage) (x : Z) : Prop :=
  e + 20 ≤ x < e + 24 ∨ e + 26 ≤ x < e + 28 ∨ e + 32 + name_length m ≤ x < e + hi.

Lemma header_keep f f' m : header_at f m → 0 ≤ name_length m → changed (outside_header m) f f' → header_at f' m.
Proof.
  intros (E1 & E2 & E3 & E4 & E5 & E6 & E7) Hn (_ & _ & H). unfold header_at, outside_header in *.
  unfold off_time_sec, off_time_nsec, off_source, off_name_size, off_sequence, off_level,
    sizeof_LogFileMessageHeader in *.
  split_and!; (rewrite (int_at_ext f' f) || rewrite (bytes_at_ext f' f)); try done; intros x Hx; apply H; lia.
Qed.

Lemma fill_header_ok m : message_okb m = true → 32 + name_length m ≤ hi →
  wp (fill_header c p m) (λ _ s', l_acc s' = l_acc s ∧
    changed (λ x, e + 4 ≤ x < e + 32 + name_length m) (l_file s) (l_file s') ∧
    header_at (l_file s') m ∧ int_at (l_file s') (e + off_message_size) 4 = u32 (message_length m)) s.
Proof.
  intros Hok Hn. unfold message_okb, LOG_MESSAGE_NAME_LEN in Hok.
  rewrite !andb_true_iff, !Z.leb_le, !Z.ltb_lt in Hok. destruct Hok as [[[[[[[[? ?] ?] ?] ?] ?] ?] ?] _].
  pose proof (page_mod e). pose proof (page_split e).
  unfold fill_header, off_time_sec, off_time_nsec, off_source, off_name_size, off_message_size, off_sequence,
    off_level, sizeof_LogFileMessageHeader.
  do 7 (apply wp_bind, store_int_ok; [done|lia|lia|exact Hsize|]).
  apply wp_bind. unfold array_load. rewrite bool_decide_eq_false_2 by lia. eapply wp_lift; [done|].
  assert (HL : length (take (Z.to_nat (name_length m)) (m_name m)) = Z.to_nat (name_length m)).
  { rewrite length_take. lia. }
  apply page_store_ok; [done|lia|rewrite HL; lia|exact Hsize|]. cbn [l_file l_acc].
  pose proof (uwrap_range 32 (seconds m)). pose proof (uwrap_range 32 (nseconds m)).
  pose proof (uwrap_range 32 (source m)). pose proof (uwrap_range 32 (message_length m)).
  pose proof (uwrap_small 32 (name_length m)). unfold in_unsigned in *.
  split_and!; [done| | |].
  - repeat (apply changed_store; [|intros x Hx; rewrite ?le_split_length, ?HL in Hx; lia]). apply changed_refl.
  - unfold header_at, off_time_sec, off_time_nsec, off_source, off_name_size, off_sequence, off_level,
      sizeof_LogFileMessageHeader. split_and!; stored; try done; lia.
  - by stored.
Qed.

Definition payload_post (m : LogMessage) (s' : log) : Prop :=
  let pb := payload_bytes (message_length m) (m_payload m) in
  l_acc s' = l_acc s ∧ changed (outside_header m) (l_file s) (l_file s') ∧
  int_at (l_file s') (e + off_message_size) 4 = Z.of_nat (length pb) ∧
  int_at (l_file s') (e + off_type) 2 = payload_type (m_payload m) ∧
  bytes_at (l_file s') (e + sizeof_LogFileMessageHeader + name_length m) (length pb) = pb.

Lemma payload_bytes_length m : message_okb m = true →
  Z.of_nat (length (payload_bytes (message_length m) (m_payload m))) =
    message_length m + match m_payload m with
                       | PString _ => 0 | PStruct _ sl _ => 8 + sl | PMatrix _ _ _ sl _ => 12 + sl end ∧
  Z.of_nat (length (payload_bytes (message_length m) (m_payload m))) ≤ 412.
Proof.
  intros Hok. unfold message_okb, payload_okb, LOG_MESSAGE_LEN, LOG_MESSAGE_NAME_LEN in Hok.
  unfold payload_bytes. destruct (m_payload m) as [t|t sl ser|t r c sl d];
    rewrite !andb_true_iff, !Z.leb_le, !Z.ltb_lt, ?Z.eqb_eq in Hok;
    rewrite ?length_app, ?le_split_length, ?length_take; lia.
Qed.

(** Executing a store, a load and a conversion in turn. *)
Ltac fill_step :=
  lazymatch goal with
  | |- wp (_ ≫= _) _ _ => apply wp_bind
  | |- wp (store_int _ _ _ _) _ _ => apply store_int_ok; [done|lia|lia|exact Hsize|]; cbn [l_file l_acc]
  | |- wp (load_int _ _ _) _ _ => apply load_ok; [lia|lia|exact Hsize|]; cbn [l_file l_acc]
  | |- wp (bump_message_size _ _ _) _ _ => unfold bump_message_size, off_message_size
  | |- wp (st_lift (array_load _ _)) _ _ =>
      unfold array_load; rewrite bool_decide_eq_false_2 by lia; eapply wp_lift; [reflexivity|]
  | |- wp (page_store _ _ _) _ _ =>
      apply page_store_ok; [done|lia|rewrite ?length_take; lia|exact Hsize|]; cbn [l_file l_acc]
  end.

(** What a sequence of stores behind the name, to the size and to the type changes. *)
Ltac fill_changed :=
  repeat (apply changed_store; [|intros x Hx; rewrite ?le_split_length, ?length_take in Hx; unfold outside_header; lia]);
  apply changed_refl.

Lemma fill_payload_ok m : message_okb m = true →
  hi = 32 + name_length m + Z.of_nat (length (payload_bytes (message_length m) (m_payload m))) →
  int_at (l_file s) (e + off_message_size) 4 = u32 (message_length m) →
  wp (fill_payload c p m) (λ _ s', payload_post m s') s.
Proof.
  intros Hok Ehi Hms. pose proof (payload_bytes_length m Hok) as [HL HM]. pose proof Hok as Hok'.
  unfold message_okb, payload_okb, LOG_MESSAGE_LEN, LOG_MESSAGE_NAME_LEN in Hok'. rewrite HL in Ehi.
  pose proof (page_mod e). pose proof (page_split e). unfold payload_post. rewrite HL. revert HL.
  unfold fill_payload, off_message_size, off_type, sizeof_LogFileMessageHeader, payload_bytes, payload_type in *.
  assert (U : ∀ z, 0 ≤ z < 1000 → u32 z = z) by (intros; apply uwrap_small; unfold in_unsigned; lia).
  destruct (m_payload m) as [t|t sl ser|t r cl sl d];
    rewrite !andb_true_iff, ?Z.eqb_eq, !Z.leb_le, !Z.ltb_lt in Hok'; intros HL;
    rewrite ?(uwrap_small 32 sl), ?(uwrap_small 16 r), ?(uwrap_small 16 cl) by (unfold in_unsigned; lia);
    rewrite U in Hms by lia;
    assert (Hms' : int_at (l_file s) (page_start e + (p + 20)) 4 = message_length m) by (rewrite <-Hms; f_equal; lia).
  - repeat fill_step. split_and!; [done|fill_changed| | |]; unfold kString; stored; try done; try lia.
  - repeat (fill_step; stored; rewrite ?Hms'; rewrite ?U by lia).
    split_and!; [done|fill_changed| | |]; unfold kStruct; stored; try done; try lia.
    rewrite !length_app, !le_split_length, !bytes_at_app. stored. done.
  - repeat (fill_step; stored; rewrite ?Hms'; rewrite ?U by lia).
    rewrite (proj2 (Z.eqb_eq _ _)) by lia. cbn [negb].
    repeat (fill_step; stored; rewrite ?Hms'; rewrite ?U by lia).
    split_and!; [done|fill_changed| | |]; unfold kMatrix; stored; try done; try lia.
    rewrite !length_app, !le_split_length, !bytes_at_app. stored. done.
Qed.
End Fill.

Lemma message_size m : message_okb m = true →
  record_size (record_of m) =
    32 + name_length m + Z.of_nat (length (payload_bytes (message_length m) (m_payload m))) ∧
  output_length m = record_size (record_of m) ∧ record_size (record_of m) ≤ 544 ∧
  Z.of_nat (length (payload_bytes (message_length m) (m_payload m))) - message_length m =
    output_length m - raw_output_length m ∧ 0 ≤ message_length m ∧
  0 ≤ name_length m ∧ Z.of_nat (length (take (Z.to_nat (name_length m)) (m_name m))) = name_length m.
Proof.
  intros Hok. pose proof (payload_bytes_length m Hok) as [HL HM].
  unfold message_okb, payload_okb, LOG_MESSAGE_LEN, LOG_MESSAGE_NAME_LEN in Hok.
  unfold record_size, output_length, raw_output_length, sizeof_LogFileMessageHeader. cbn [record_of r_name r_message].
  assert (E : Z.of_nat (length (take (Z.to_nat (name_length m)) (m_name m))) = name_length m).
  { rewrite !andb_true_iff, !Z.leb_le in Hok. rewrite length_take. lia. }
  rewrite E. destruct (m_payload m); rewrite !andb_true_iff, !Z.leb_le in Hok; rewrite ?(uwrap_small 64 (32 + _ + _)) by (unfold in_unsigned; lia);
    rewrite ?uwrap_small by (unfold in_unsigned; lia); lia.
Qed.

Lemma step_size_le n : n + 1 ≤ step_size n ≤ n + 8.
Proof. unfold step_size, kAlignment. pose proof (Z.mod_pos_bound n 8). lia. Qed.

Lemma step_in_page e n : 0 ≤ n → e mod kPageSize + n < kPageSize → (e + n) mod kPageSize = e mod kPageSize + n.
Proof.
  intros Hn Hf. pose proof (page_mod e). rewrite (page_split e) at 1. rewrite <-Z.add_assoc.
  apply page_start_of; [apply page_start_mod|lia].
Qed.

Section WriteMessage.
Context (sys_read : file → Z → Z) (uninitialised : bytes).

Lemma write_message_ok s a0 rs e m : writing s a0 rs e → message_okb m = true →
  f_size (l_file s) + kPageSize < 2 ^ 62 →
  wp (write_message sys_read uninitialised m) (λ _ s', ∃ e', writing s' a0 (rs ++ [record_of m]) e' ∧
    e ≤ e' ∧ e' mod kPageSize ≠ 0 ∧ f_size (l_file s') ≤ f_size (l_file s) + kPageSize) s.
Proof.
  intros W Hok Hsz. destruct (message_size m Hok) as (HS & HO & HM & HD & HL & HN & HT).
  unfold write_message. rewrite HO. pose proof (record_size_pos (record_of m)) as Hpos.
  pose proof (step_size_le (record_size (record_of m))) as Hstep.
  apply wp_bind. eapply wp_mono.
  { apply (GetWritePosition_ok sys_read uninitialised s a0 rs e); [done|lia| |done].
    unfold kPageSize, sizeof_aos_futex. lia. }
  intros p s1 (e1 & -> & R & He1 & Hs1). apply wp_bind. unfold wp at 1, get_acc. rewrite (v_current _ _ _ _ _ R).
  pose proof (v_fits _ _ _ _ _ R) as Hfit. unfold sizeof_aos_futex in Hfit. pose proof (page_mod e1).
  pose proof (page_split e1).
  assert (Hin : page_start e1 + kPageSize ≤ f_size (l_file s1)) by (rewrite (v_last _ _ _ _ _ R); done).
  apply wp_bind. eapply wp_mono.
  { apply (fill_header_ok e1 s1 (record_size (record_of m))); [apply R|done|lia|done|lia]. }
  intros [] s2 (A2 & C2 & H2 & M2). apply wp_bind. eapply wp_mono.
  { apply (fill_payload_ok e1 s2 (record_size (record_of m))); try done; [by rewrite A2; apply R| |lia].
    destruct C2 as (-> & _). done. }
  intros [] s3 (A3 & C3 & M3 & T3 & B3).
  pose proof (header_keep _ _ _ _ _ H2 ltac:(lia) C3) as H3.
  apply wp_bind. apply load_ok; [unfold off_message_size; lia|unfold off_message_size; lia| |].
  { destruct C3 as (-> & _), C2 as (-> & _). done. }
  rewrite Z.add_assoc, <-page_split, M3, HD, HO, Z.eqb_refl. cbn [negb].
  apply store_int_ok; [by rewrite A3, A2; apply R|unfold off_marker; lia|unfold off_marker; lia| |].
  { destruct C3 as (-> & _), C2 as (-> & _). done. }
  assert (C : changed (λ x, e1 ≤ x < e1 + record_size (record_of m)) (l_file s1)
    (file_store (l_file s3) (page_start e1 + (e1 mod kPageSize + off_marker)) (le_split 4 1))).
  { apply changed_store; [|intros x; rewrite le_split_length; unfold off_marker; lia].
    pose proof (changed_trans _ _ _ _ _ C2 C3) as (E1 & E2 & E3). split_and!; [done|done|].
    intros x Hx. apply E3. unfold outside_header. lia. }
  exists (e1 + step_size (record_size (record_of m))). rewrite A3, A2. split_and!.
  - destruct C as (E1 & E2 & E3). apply (commit s1); [done|done|done|..].
    + intros x Hx. apply E3. lia.
    + apply int_at_store_eq; unfold off_marker; lia.
    + apply (record_at_ext (l_file s3)).
      * intros x Hx. rewrite byte_at_store_out; [done|]. rewrite le_split_length. unfold off_marker. lia.
      * destruct H3 as (? & ? & ? & ? & ? & ? & B). unfold record_at, record_of.
        cbn [r_sec r_nsec r_source r_sequence r_type r_level r_name r_message].
        rewrite HT. split_and!; try done. rewrite <-B at 2. f_equal. lia.
  - lia.
  - rewrite (step_in_page e1) by lia. lia.
  - cbn [l_file file_store f_size]. destruct C3 as (-> & _), C2 as (-> & _). done.
Qed.
End WriteMessage.
