(* ===== verification/LogTypes.v ===== *)
(** * Logging messages with the types of their structs *)

From stdpp Require Import sets.
From S2P Require Import Prelude SharedMem ByteOrder QueueTypes QueueTypesProofs TypeCache LogFile.
From S2P Require Import LogFileProofs LogWriter LogWriterProofs.

(** What a reader finds for a type. *)
Definition type_record (getpid : Z) (t : MessageType) : record :=
  mkRecord 0 0 (u32 getpid) 0 kStructType FATAL [] (encode_type t).

Section WriteType.
Context (sys_read : file → Z → Z) (uninitialised : bytes) (getpid : Z).

Lemma write_type_ok s a0 rs e t buffer : reserved s a0 rs e (record_size (type_record getpid t)) →
  Z.of_nat (length (encode_type t)) ≤ 1024 → take (length (encode_type t)) buffer = encode_type t →
  wp (write_type getpid (e mod kPageSize) (Z.of_nat (length (encode_type t))) buffer)
    (λ _ s', writing s' a0 (rs ++ [type_record getpid t]) (e + step_size (record_size (type_record getpid t))) ∧
      f_size (l_file s') = f_size (l_file s)) s.
Proof.
  intros R Hlen Hbuf. set (r := type_record getpid t) in *.
  assert (HS : record_size r = 32 + Z.of_nat (length (encode_type t))) by (unfold record_size, sizeof_LogFileMessageHeader; cbn; lia).
  pose proof (step_size_le (record_size r)). pose proof (v_fits _ _ _ _ _ R) as Hfit.
  unfold sizeof_aos_futex in Hfit. pose proof (page_mod e). pose proof (page_split e).
  assert (Hw : writable_ (l_acc s) = true) by apply R.
  assert (Hsize : page_start e + kPageSize ≤ f_size (l_file s)) by (rewrite (v_last _ _ _ _ _ R); done).
  assert (HL : (length (encode_type t) ≤ length buffer)%nat).
  { rewrite <-Hbuf, length_take. lia. }
  unfold write_type. apply wp_bind. unfold wp at 1, get_acc. rewrite (v_current _ _ _ _ _ R).
  unfold off_time_sec, off_time_nsec, off_source, off_name_size, off_message_size, off_sequence, off_type,
    off_level, off_marker, sizeof_LogFileMessageHeader.
  do 6 (apply wp_bind, store_int_ok; [done|lia|lia|exact Hsize|]; cbn [l_acc l_file]).
  apply wp_bind. unfold array_load. rewrite bool_decide_eq_false_2 by lia. eapply wp_lift; [done|].
  rewrite Nat2Z.id, Hbuf. apply wp_bind. apply page_store_ok; [done|lia|lia|exact Hsize|]. cbn [l_acc l_file].
  do 2 (apply wp_bind, store_int_ok; [done|lia|lia|exact Hsize|]; cbn [l_acc l_file]).
  apply store_int_ok; [done|lia|lia|exact Hsize|]; cbn [l_acc l_file].
  split; [|done]. 
  match goal with |- writing (mkLog ?f _) _ _ _ => set (f' := f) end.
  assert (C : changed (λ x, e ≤ x < e + record_size r) (l_file s) f').
  { repeat (apply changed_store; [|intros x Hx; rewrite ?le_split_length in Hx; lia]). apply changed_refl. }
  destruct C as (E1 & E2 & E3). unfold f'.
  pose proof (uwrap_range 32 getpid). pose proof (uwrap_small 32 (Z.of_nat (length (encode_type t)))).
  unfold in_unsigned in *.
  apply (commit s); [done|done|done|intros x Hx; apply E3; lia|stored; done|].
  unfold record_at, off_time_sec, off_time_nsec, off_source, off_name_size, off_message_size, off_sequence, off_type,
    off_level, off_marker, sizeof_LogFileMessageHeader, kStructType, FATAL. cbn [r type_record r_sec r_nsec r_source r_sequence r_type r_level r_name r_message length].
  split_and!; stored; try done; try lia.
Qed.
End WriteType.

(** ** Types that are known to the process *)

Section Types.
Context (c : gmap Z CacheEntry) (getpid : Z).

(** The types a value of type [i] is built from, nested at most [n] deep, are in
    the cache. *)
Fixpoint known (n : nat) (i : Z) : Prop :=
  IsPrimitive i = true ∨
  match n with
  | O => False
  | S n => ∃ x, c !! i = Some x ∧ wf_type (ce_type x) ∧ id (ce_type x) = i ∧
      Z.of_nat (length (encode_type (ce_type x))) ≤ 1024 ∧
      ∀ f, f ∈ fields (ce_type x) → known n (f_type f)
  end.

(** The types that are needed to print a value of type [i]. *)
Inductive needs : Z → Z → Prop :=
| needs_self i : IsPrimitive i = false → needs i i
| needs_field i x f j : IsPrimitive i = false → c !! i = Some x → f ∈ fields (ce_type x) →
    needs (f_type f) j → needs i j.

(** A record holds the description of type [i]. *)
Definition tells (i : Z) (r : record) : Prop :=
  ∃ x, c !! i = Some x ∧ wf_type (ce_type x) ∧ id (ce_type x) = i ∧ r = type_record getpid (ce_type x).

(** The types of [W] and those they are built from are described in [rs]. *)
Definition told (rs : list record) (W : gset Z) : Prop :=
  ∀ i, i ∈ W → ∃ x r, c !! i = Some x ∧ r ∈ rs ∧ tells i r ∧
    ∀ f, f ∈ fields (ce_type x) → IsPrimitive (f_type f) = true ∨ f_type f ∈ W.

Lemma told_dom rs W : told rs W → W ⊆ dom c.
Proof. intros H i Hi. destruct (H i Hi) as (x & _ & Hx & _). by apply elem_of_dom_2 in Hx. Qed.

Lemma told_mono rs rs' W : told rs W → told (rs ++ rs') W.
Proof. intros H i Hi. destruct (H i Hi) as (x & r & ? & ? & ?). exists x, r. set_solver. Qed.

Lemma told_needs rs W i j : told rs W → needs i j → IsPrimitive i = true ∨ i ∈ W → ∃ r, r ∈ rs ∧ tells j r.
Proof.
  intros HT Hn. induction Hn as [i Hp|i x f j Hp Hx Hf Hn IH]; intros [Hi|Hi]; try congruence.
  - destruct (HT i Hi) as (x & r & ? & ? & ? & ?). eauto.
  - apply IH. destruct (HT i Hi) as (x' & r & Hx' & ? & ? & H). rewrite Hx in Hx'. injection Hx' as <-. by apply H.
Qed.

(** ** The logger *)

(** Records before those that are looked at. *)
Context (pre : list record).

(** The writer stands behind the records [rs], and [written_type_ids] tells the truth. *)
Record logging (s : logger) (a0 : Z) (rs : list record) (e : Z) : Prop := {
  g_writing : writing (lg_log s) a0 rs e;
  g_cache : cache (lg_types s) = c;
  g_told : told (pre ++ rs) (written_type_ids s);
  g_cookie : 0 ≤ clear_type_ids_cookie s;
  g_behind : clear_type_ids_cookie s * kSeekPages * kPageSize ≤ e }.

(** Between two messages only the first page can be empty. *)
Definition ready (s : logger) (a0 : Z) (rs : list record) (e : Z) : Prop :=
  logging s a0 rs e ∧ (e mod kPageSize ≠ 0 ∨ e = 0 ∧ clear_type_ids_cookie s = 0).

Definition filesize (s : logger) : Z := f_size (l_file (lg_log s)).

(** The records for a type and its fields, at most. *)
Fixpoint type_count (n : nat) (i : Z) : Z :=
  match n with
  | O => 0
  | S n =>
      match c !! i with
      | Some x => 1 + foldr (λ f k, type_count n (f_type f) + k) 0 (fields (ce_type x))
      | None => 0
      end
  end.

Lemma type_count_nonneg n i : 0 ≤ type_count n i.
Proof.
  revert i. induction n as [|n IH]; intros i; cbn [type_count]; [done|]. destruct (c !! i) as [x|]; [|done].
  induction (fields (ce_type x)) as [|f fs IHf]; cbn [foldr]; [done|]. pose proof (IH (f_type f)). lia.
Qed.

(** The records [ts] of types were appended, on at most [k] new pages. *)
Definition typed (k : Z) (s : logger) (a0 : Z) (rs : list record) (e : Z) (ts : list record) (s' : logger) (e' : Z)
    : Prop :=
  logging s' a0 (rs ++ ts) e' ∧ Forall (λ r, ∃ i, tells i r) ts ∧
  written_type_ids s ⊆ written_type_ids s' ∧ e ≤ e' ∧
  clear_type_ids_cookie s' = clear_type_ids_cookie s ∧
  filesize s' ≤ filesize s + kPageSize * k.

Lemma typed_refl s a0 rs e : logging s a0 rs e → typed 0 s a0 rs e [] s e.
Proof. intros H. unfold typed. rewrite app_nil_r. split_and!; done || lia. Qed.

Lemma typed_trans k1 k2 s a0 rs e ts1 s1 e1 ts2 s2 e2 :
  typed k1 s a0 rs e ts1 s1 e1 → typed k2 s1 a0 (rs ++ ts1) e1 ts2 s2 e2 → typed (k1 + k2) s a0 rs e (ts1 ++ ts2) s2 e2.
Proof.
  intros (A1 & A2 & A3 & A4 & A5 & A6) (B1 & B2 & B3 & B4 & B5 & B6). unfold typed. rewrite app_assoc.
  split_and!; [done|by apply Forall_app|set_solver|lia|congruence|lia].
Qed.

Lemma wp_on_log {A} (m : ML A) (Q : A → log → Prop) (Q' : A → logger → Prop) s :
  wp m Q (lg_log s) →
  (∀ a l, Q a l → Q' a (mkLogger l (lg_types s) (written_type_ids s) (clear_type_ids_cookie s))) →
  wp (on_log m) Q' s.
Proof. unfold wp, on_log. intros Hm HQ. destruct (m (lg_log s)) as [[a l]|]; [by apply HQ|done]. Qed.

Lemma typed_weaken k k' s a0 rs e ts s' e' : typed k s a0 rs e ts s' e' → k ≤ k' → typed k' s a0 rs e ts s' e'.
Proof. intros (A1 & A2 & A3 & A4 & A5 & A6) Hk. unfold typed, kPageSize in *. split_and!; done || lia. Qed.

Section Check.
Context (sys_read : file → Z → Z) (uninitialised stack : bytes) (Hstack : length stack = 1024%nat).
Notation CheckTypeWritten := (CheckTypeWritten sys_read uninitialised stack getpid).

(** A type behind its fields. *)
Lemma log_type_ok s a0 rs e i x : logging s a0 rs e → c !! i = Some x →
  wf_type (ce_type x) → id (ce_type x) = i → Z.of_nat (length (encode_type (ce_type x))) ≤ 1024 →
  (∀ f, f ∈ fields (ce_type x) → IsPrimitive (f_type f) = true ∨ f_type f ∈ written_type_ids s) →
  filesize s + kPageSize < 2 ^ 62 →
  wp ('(size, buffer) ← st_lift (Serialize (ce_type x) stack 1024);
      if size =? -1 then mret tt
      else
        p ← on_log (GetWritePosition sys_read uninitialised (u64 (sizeof_LogFileMessageHeader + size)));
        _ ← on_log (write_type getpid p size buffer);
        s ← st_get;
        set_written ({[i]} ∪ written_type_ids s))
    (λ _ s', ∃ ts e', typed 1 s a0 rs e ts s' e' ∧ i ∈ written_type_ids s') s.
Proof.
  intros G Hx Hwf Hid Hlen Hf Hsz. set (t := ce_type x) in *. pose proof G as [W HC HT H0 Hb].
  apply wp_bind. eapply wp_lift; [apply Serialize_fits; [done|lia]|].
  destruct (Z.eqb_spec (Z.of_nat (length (encode_type t))) (-1)); [lia|].
  assert (HS : u64 (sizeof_LogFileMessageHeader + Z.of_nat (length (encode_type t))) = record_size (type_record getpid t)).
  { unfold record_size, sizeof_LogFileMessageHeader. cbn [type_record r_name r_message length]. rewrite uwrap_small; [lia|unfold in_unsigned; lia]. }
  rewrite HS. pose proof (step_size_le (record_size (type_record getpid t))) as Hstep.
  pose proof (record_size_pos (type_record getpid t)).
  assert (record_size (type_record getpid t) ≤ 1056).
  { unfold record_size, sizeof_LogFileMessageHeader. cbn [type_record r_name r_message length]. lia. }
  apply wp_bind. eapply wp_on_log.
  { apply (GetWritePosition_ok _ _ _ a0 rs e); [done|lia|unfold kPageSize, sizeof_aos_futex; lia|done]. }
  intros p l (e1 & -> & R & He1 & Hs1). apply wp_bind. eapply wp_on_log.
  { apply (write_type_ok getpid l a0 rs e1 t); [done|lia|]. by rewrite take_app_length. }
  cbn [lg_log lg_types written_type_ids clear_type_ids_cookie]. intros [] l2 [W2 Hs2].
  apply wp_bind, wp_get. unfold wp, set_written. cbn [lg_log lg_types written_type_ids clear_type_ids_cookie].
  exists [type_record getpid t], (e1 + step_size (record_size (type_record getpid t))). split; [|set_solver].
  assert (HTl : tells i (type_record getpid t)) by (exists x; done).
  unfold typed, filesize in *. cbn [lg_log lg_types written_type_ids clear_type_ids_cookie].
  pose proof (v_fits _ _ _ _ _ R) as Hfit. unfold sizeof_aos_futex in Hfit. pose proof (page_mod e1).
  split_and!; [|by constructor; [eauto|]|set_solver|lia|done|lia].
  split; cbn [lg_log lg_types written_type_ids clear_type_ids_cookie]; try done; [|lia].
  intros j Hj. apply elem_of_union in Hj as [->%elem_of_singleton|Hj].
  - exists x, (type_record getpid t). split_and!; [done|set_solver|done|]. intros f Hin.
      destruct (Hf f Hin); [by left|right; set_solver].
  - destruct (HT j Hj) as (x' & r & ? & ? & ? & H'). exists x', r. split_and!; [done|set_solver|done|].
      intros f Hin. destruct (H' f Hin); [by left|right; set_solver].
Qed.

Definition fields_count (n : nat) (fs : list Field) : Z := foldr (λ f k, type_count n (f_type f) + k) 0 fs.

Lemma for_fields_ok n (check : Z → MG unit) :
  (∀ i s rs e a0, logging s a0 rs e → known n i → filesize s + kPageSize * type_count n i < 2 ^ 62 →
    wp (check i) (λ _ s', ∃ ts e', typed (type_count n i) s a0 rs e ts s' e' ∧
      (IsPrimitive i = true ∨ i ∈ written_type_ids s')) s) →
  ∀ fs s rs e a0, logging s a0 rs e → (∀ f, f ∈ fs → known n (f_type f)) →
  filesize s + kPageSize * fields_count n fs < 2 ^ 62 →
  wp (for_fields check fs) (λ _ s', ∃ ts e', typed (fields_count n fs) s a0 rs e ts s' e' ∧
    ∀ f, f ∈ fs → IsPrimitive (f_type f) = true ∨ f_type f ∈ written_type_ids s') s.
Proof.
  intros Hc. induction fs as [|f fs IH]; intros s rs e a0 G Hf Hsz; cbn [for_fields fields_count foldr] in *.
  - apply wp_ret. exists [], e. split; [by apply typed_refl|set_solver].
  - fold (fields_count n fs) in *. pose proof (type_count_nonneg n (f_type f)).
    assert (0 ≤ fields_count n fs).
    { clear. induction fs as [|f fs IH]; cbn; [done|]. pose proof (type_count_nonneg n (f_type f)).
      fold (fields_count n fs). lia. }
    apply wp_bind. eapply wp_mono; [apply (Hc (f_type f) s rs e a0 G); [set_solver|unfold kPageSize in *; lia]|].
    intros [] s1 (ts1 & e1 & T1 & H1). pose proof T1 as (G1 & _ & _ & _ & _ & Hs1).
    fold (for_fields check). eapply wp_mono; [apply (IH s1 _ e1 a0 G1); [set_solver|unfold kPageSize in *; lia]|].
    intros [] s2 (ts2 & e2 & T2 & H2). exists (ts1 ++ ts2), e2. split; [by eapply typed_trans|].
    intros g [->|Hg]%elem_of_cons; [|by apply H2]. destruct T2 as (_ & _ & HW & _), H1; [by left|right; set_solver].
Qed.

Lemma CheckTypeWritten_ok n i s a0 rs e : logging s a0 rs e → known n i →
  filesize s + kPageSize * type_count n i < 2 ^ 62 →
  wp (CheckTypeWritten (S n) i) (λ _ s', ∃ ts e', typed (type_count n i) s a0 rs e ts s' e' ∧
    (IsPrimitive i = true ∨ i ∈ written_type_ids s')) s.
Proof.
  revert i s rs e a0. induction n as [|n IH]; intros i s rs e a0 G Hk Hsz; unfold LogWriter.CheckTypeWritten;
    fold (LogWriter.CheckTypeWritten sys_read uninitialised stack getpid); apply wp_bind, wp_get; case_bool_decide as Hin.
  1, 3: apply wp_ret; exists [], e; split; [|by right].
  1, 2: eapply typed_weaken; [by apply typed_refl|apply type_count_nonneg].
  all: destruct (IsPrimitive i) eqn:Hp; [apply wp_ret; exists [], e; split; [|by left]|].
  1, 3: eapply typed_weaken; [by apply typed_refl|apply type_count_nonneg].
  { destruct Hk; [congruence|done]. }
  destruct Hk as [|(x & Hx & Hwf & Hid & Hlen & Hf)]; [congruence|].
  apply wp_bind. unfold wp at 1, on_types, Get. rewrite (g_cache _ _ _ _ G), Hx. apply wp_bind.
  eapply wp_lift; [apply loop_fields_all, Hwf|].
  replace (mkLogger _ _ _ _) with s by (destruct s; done). cbn [type_count] in *. rewrite Hx in *.
  fold (fields_count n (fields (ce_type x))) in *.
  apply wp_bind. eapply wp_mono; [apply (for_fields_ok n _ IH _ s rs e a0 G Hf); unfold kPageSize in *; lia|].
  intros [] s1 (ts1 & e1 & T1 & H1). pose proof T1 as (G1 & _ & _ & _ & _ & Hs1).
  eapply wp_mono; [apply (log_type_ok s1 a0 (rs ++ ts1) e1 i x); try done; unfold kPageSize in *; lia|].
  intros [] s2 (ts2 & e2 & T2 & H2). exists (ts1 ++ ts2), e2. split; [|by right].
  rewrite Z.add_comm. by eapply typed_trans.
Qed.

(** ** Messages *)

(** The type of a struct is known, that of a matrix is primitive. *)
Definition loggable (n : nat) (m : LogMessage) : Prop :=
  message_okb m = true ∧
  match m_payload m with
  | PString _ => True
  | PStruct i _ _ => known n i
  | PMatrix i _ _ _ _ => IsPrimitive i = true
  end.

(** Everything that is needed to print the message is in [rs]. *)
Definition described (rs : list record) (m : LogMessage) : Prop :=
  match m_payload m with
  | PStruct i _ _ => ∀ j, needs i j → ∃ r, r ∈ rs ∧ tells j r
  | _ => True
  end.

Definition message_pages (n : nat) (m : LogMessage) : Z :=
  2 + match m_payload m with PStruct i _ _ => type_count n i | _ => 0 end.

Lemma page_div e : next_page e / kPageSize = e / kPageSize + 1.
Proof.
  unfold next_page, page_start. pose proof (Z.div_mod e kPageSize ltac:(done)) as E.
  replace (e - e mod kPageSize + kPageSize) with ((e / kPageSize + 1) * kPageSize) by lia. by apply Z.div_mul.
Qed.

Lemma ShouldClear_ok s e cookie n : stands s e → 0 ≤ n < 2 ^ 32 → 0 ≤ cookie →
  cookie * kSeekPages * kPageSize ≤ e →
  let k := (if NeedNewPageFor (l_acc s) n then e / kPageSize + 1 else e / kPageSize) / kSeekPages in
  ShouldClearSeekableData cookie n s = Ok ((negb (cookie =? k), k), s) ∧ cookie ≤ k ∧
  k * kSeekPages * kPageSize ≤ (if NeedNewPageFor (l_acc s) n then next_page e else e).
Proof.
  intros H Hn Hc Hb k. pose proof (page_mod e). pose proof (st_pos _ _ H) as He. pose proof (st_in _ _ H) as Hin.
  pose proof (p_size _ (st_paged _ _ H)) as Hsz. pose proof (page_div e) as Hd.
  pose proof (Z.div_mod e kPageSize ltac:(done)) as E. unfold next_page, page_start, kPageSize, kSeekPages in *.
  assert (HP : swrap 64 (u64 (offset_ (l_acc s)) / 16384 - 1) = e / 16384).
  { rewrite (st_offset _ _ H). unfold next_page, page_start, kPageSize. rewrite uwrap_small by (unfold in_unsigned; lia).
    rewrite Hd, swrap64_small; lia. }
  assert (Hk : ∀ q, e / 16384 ≤ q ≤ e / 16384 + 1 → swrap 64 (u64 q / 256) = q / 256 ∧ cookie ≤ q / 256 ∧
    q / 256 * 256 ≤ q).
  { intros q Hq. rewrite uwrap_small by (unfold in_unsigned; lia). pose proof (Z.div_mod q 256 ltac:(lia)).
    pose proof (Z.mod_pos_bound q 256 ltac:(lia)). rewrite swrap64_small by lia. lia. }
  unfold ShouldClearSeekableData, kPageSize, kSeekPages. mstep. unfold get_acc. rewrite HP.
  subst k. destruct (NeedNewPageFor (l_acc s) n).
  - destruct (Hk (e / 16384 + 1)) as (-> & Hle & Hm); [lia|].
    destruct (Z.ltb_spec ((e / 16384 + 1) / 256) cookie); [lia|]. split_and!; [done|done|lia].
  - destruct (Hk (e / 16384)) as (-> & Hle & Hm); [lia|].
    destruct (Z.ltb_spec (e / 16384 / 256) cookie); [lia|]. split_and!; [done|done|lia].
Qed.

(** The types of a struct, on a new page when a seekable one has begun. *)
Lemma prepare_ok n m s a0 rs e : ready s a0 rs e → loggable n m →
  filesize s + kPageSize * (message_pages n m - 1) < 2 ^ 62 →
  wp (prepare sys_read uninitialised stack getpid (S n) m) (λ _ s', ∃ ts e', logging s' a0 (rs ++ ts) e' ∧
    Forall (λ r, ∃ i, tells i r) ts ∧ described (pre ++ rs ++ ts) m ∧
    filesize s' ≤ filesize s + kPageSize * (message_pages n m - 1)) s.
Proof.
  intros [G Hem] [Hok Hm] Hsz. destruct (message_size m Hok) as (HS & HO & HM & _).
  pose proof (record_size_pos (record_of m)) as Hpos. unfold prepare, described, message_pages in *.
  destruct (m_payload m) as [b|i sl b|i r cl sl b].
  1, 3: rewrite ?Hm; apply wp_ret; exists [], e; rewrite app_nil_r; split_and!; done || unfold kPageSize; lia.
  pose proof (type_count_nonneg n i). apply wp_bind, wp_get.
  pose proof G as [W HC HT H0 Hb]. pose proof (w_stands _ _ _ _ W) as HSt.
  destruct (ShouldClear_ok (lg_log s) e (clear_type_ids_cookie s) (output_length m) HSt) as (Heq & Hle & Hk);
    [rewrite HO; lia|done|done|]. cbn zeta in Heq, Hle, Hk.
  match type of Heq with _ = Ok (_, ?q, _) => remember q as k eqn:Ek end.
  apply wp_bind. unfold wp at 1, on_log at 1. rewrite Heq. cbn iota beta.
  apply wp_bind. unfold wp at 1, set_cookie. cbn [lg_log lg_types written_type_ids clear_type_ids_cookie].
  apply wp_bind.
  assert (K : ∀ s1 e1, logging s1 a0 rs e1 → filesize s1 ≤ filesize s + kPageSize →
    wp (CheckTypeWritten (S n) i) (λ _ s', ∃ ts e', logging s' a0 (rs ++ ts) e' ∧
      Forall (λ r, ∃ i, tells i r) ts ∧ (∀ j, needs i j → ∃ r, r ∈ pre ++ rs ++ ts ∧ tells j r) ∧
      filesize s' ≤ filesize s + kPageSize * (2 + type_count n i - 1)) s1).
  { intros s1 e1 G1 Hs1. eapply wp_mono; [apply (CheckTypeWritten_ok n i s1 a0 rs e1); [done|done|lia]|].
    intros [] s2 (ts & e2 & (G2 & HF & HW & He2 & Hck & Hs2) & Hi). exists ts, e2. split_and!; [done|done| |lia].
    intros j Hj. exact (told_needs _ _ i j (g_told _ _ _ _ G2) Hj Hi). }
  destruct (Z.eqb_spec (clear_type_ids_cookie s) k) as [<-|Hne]; cbn [negb].
  - apply wp_ret. apply (K _ e); [|unfold filesize, kPageSize; cbn; lia]. by split.
  - apply wp_bind. eapply wp_on_log.
    { apply (ForceNewPage_ok _ _ _ a0 rs e W); [|unfold filesize, kPageSize in *; lia].
      destruct Hem as [|[-> Hz]]; [done|]. destruct Hne. rewrite Hz, Ek. by destruct (NeedNewPageFor _ _). }
    cbn [lg_log lg_types written_type_ids clear_type_ids_cookie]. intros [] l [W1 Hs1]. cbn [lg_log] in Hs1.
    unfold wp at 1, set_written. cbn [lg_log lg_types written_type_ids clear_type_ids_cookie].
    apply (K _ (next_page e)); [|unfold filesize; cbn [lg_log]; lia].
    pose proof (page_room e (st_aligned _ _ HSt)). unfold kAlignment in *.
    split; cbn [lg_log lg_types written_type_ids clear_type_ids_cookie]; try done.
    + lia.
    + destruct (NeedNewPageFor _ _); lia.
Qed.

(** One turn of the loop. *)
Lemma log_message_ok n m s a0 rs e : ready s a0 rs e → loggable n m →
  filesize s + kPageSize * message_pages n m < 2 ^ 62 →
  wp (log_message sys_read uninitialised stack getpid (S n) m) (λ _ s', ∃ ts e',
    ready s' a0 (rs ++ ts ++ [record_of m]) e' ∧
    Forall (λ r, ∃ i, tells i r) ts ∧ described (pre ++ rs ++ ts) m ∧
    filesize s' ≤ filesize s + kPageSize * message_pages n m) s.
Proof.
  intros R Hm Hsz. unfold log_message. apply wp_bind.
  eapply wp_mono; [apply (prepare_ok n m s a0 rs e R Hm); unfold kPageSize in *; lia|].
  intros [] s1 (ts & e1 & G1 & HF & HD & Hs1). pose proof G1 as [W1 HC1 HT1 H01 Hb1]. eapply wp_on_log.
  { apply (write_message_ok sys_read uninitialised _ a0 (rs ++ ts) e1 m W1); [apply Hm|].
    unfold filesize, kPageSize in *. lia. }
  intros [] l (e' & W' & He' & Hne & Hs'). exists ts, e'. split_and!; [|done|done|].
  - split; [|by left]. rewrite app_assoc. split; cbn [lg_log lg_types written_type_ids clear_type_ids_cookie]; try done.
    + rewrite app_assoc. by apply told_mono.
    + lia.
  - unfold filesize, kPageSize in *. cbn [lg_log]. lia.
Qed.
End Check.
End Types.
