(* ===== verification/LogLive.v ===== *)
(** * A log that is read while it is written

    The logger appends to the file; a reader in another process follows. *)

From stdpp Require Import sets.
From S2P Require Import Prelude SharedMem ByteOrder QueueTypes QueueTypesProofs TypeCache LogFile.
From S2P Require Import LogFileProofs LogWriter LogWriterProofs LogTypes.

(** What the reader sees through the pointer it gets. *)
Definition header_record (f : file) (h : Z) : record :=
  let name_size := int_at f (h + off_name_size) 4 in
  let message_size := int_at f (h + off_message_size) 4 in
  mkRecord (int_at f (h + off_time_sec) 4) (int_at f (h + off_time_nsec) 4) (int_at f (h + off_source) 4)
    (int_at f (h + off_sequence) 2) (int_at f (h + off_type) 2) (int_at f (h + off_level) 1)
    (bytes_at f (h + sizeof_LogFileMessageHeader) (Z.to_nat name_size))
    (bytes_at f (h + sizeof_LogFileMessageHeader + name_size) (Z.to_nat message_size)).

Lemma header_record_at f h r : record_at f h r → header_record f h = r.
Proof.
  intros (E1 & E2 & E3 & E4 & E5 & E6 & E7 & E8 & E9 & E10). unfold header_record.
  rewrite E1, E2, E3, E4, E5, E6, E7, E8, !Nat2Z.id, E9, E10. by destruct r.
Qed.

Record live := mkLive { lv_logger : logger; lv_reader : LogFileAccessor }.
Inductive live_op := Log (m : LogMessage) | Read.

Section Live.
Context (SystemPageSize : Z) (sys_read : file → Z → Z) (uninitialised stack : bytes) (getpid : Z).
Context (futex_wait : file → Z → Z * file).

(** Both processes open the new file. *)
Definition live_start (t : types) : res live :=
  '(_, w) ← LogFileAccessor_new SystemPageSize sys_read uninitialised
              (mkLog (mkFile 0 ∅ 0 true) (LogFileAccessor_init true));
  '(_, r) ← LogFileAccessor_new SystemPageSize sys_read uninitialised
              (mkLog (l_file w) (LogFileAccessor_init false));
  Ok (mkLive (mkLogger (mkLog (l_file r) (l_acc w)) t ∅ 0) (l_acc r)).

Definition live_step (fuel : nat) (op : live_op) (s : live) : res (option record * live) :=
  match op with
  | Log m =>
      '(_, g) ← log_message sys_read uninitialised stack getpid fuel m (lv_logger s);
      Ok (None, mkLive g (lv_reader s))
  | Read =>
      let g := lv_logger s in
      '(o, r) ← ReadNextMessage sys_read uninitialised futex_wait 1 false
                  (mkLog (l_file (lg_log g)) (lv_reader s));
      Ok (match (o : option Z), current_ (l_acc r) with
          | Some p, Mapped base => Some (header_record (l_file r) (base + p))
          | _, _ => None
          end,
          mkLive (mkLogger (mkLog (l_file r) (l_acc (lg_log g))) (lg_types g) (written_type_ids g)
                    (clear_type_ids_cookie g)) (l_acc r))
  end.

Fixpoint live_run (fuel : nat) (ops : list live_op) (s : live) : res (list (option record) * live) :=
  match ops with
  | [] => Ok ([], s)
  | op :: ops =>
      '(o, s) ← live_step fuel op s;
      '(os, s) ← live_run fuel ops s;
      Ok (o :: os, s)
  end.

(** ** What a log promises

    A sequence of records of which the reader has seen the first ones.  Logging a
    message appends it, behind records for the types it needs that are not yet
    there. *)
Context (c : gmap Z CacheEntry).

Inductive log_spec : live_op → list record * list record → option record → list record * list record → Prop :=
| spec_log m ts seen rs :
    Forall (λ r, ∃ i, tells c getpid i r) ts → described c getpid (seen ++ rs ++ ts) m →
    log_spec (Log m) (seen, rs) None (seen, rs ++ ts ++ [record_of m])
| spec_next r seen rs : log_spec Read (seen, r :: rs) (Some r) (seen ++ [r], rs)
| spec_none seen : log_spec Read (seen, []) None (seen, []).

Inductive log_specs : list live_op → list record * list record → list (option record) →
    list record * list record → Prop :=
| specs_nil q : log_specs [] q [] q
| specs_cons op q o q' ops os q'' :
    log_spec op q o q' → log_specs ops q' os q'' → log_specs (op :: ops) q (o :: os) q''.

Definition reader_log (s : live) : log := mkLog (l_file (lg_log (lv_logger s))) (lv_reader s).

Definition live_inv (s : live) (q : list record * list record) : Prop :=
  ∃ a e, ready c getpid q.1 (lv_logger s) a q.2 e ∧ stands (reader_log s) a ∧ writable_ (lv_reader s) = false.

Lemma next_page_mono a b : a ≤ b → next_page a ≤ next_page b.
Proof.
  intros H. unfold next_page, page_start.
  pose proof (Z.div_mod a kPageSize ltac:(done)). pose proof (Z.div_mod b kPageSize ltac:(done)).
  pose proof (Z.div_le_mono a b kPageSize ltac:(done) H). unfold kPageSize in *. lia.
Qed.

Lemma live_start_ok t : cache t = c → 0 < SystemPageSize → kPageSize mod SystemPageSize = 0 →
  ∃ s, live_start t = Ok s ∧ live_inv s ([], []) ∧ filesize (lv_logger s) = kPageSize.
Proof.
  intros Ht Hp Hmod. assert (E : (kPageSize <? SystemPageSize) || negb (kPageSize mod SystemPageSize =? 0) = false).
  { rewrite Hmod. cbn. rewrite orb_false_r. apply Z.ltb_ge. apply Z.mod_divide in Hmod; [|lia].
    apply Z.divide_pos_le; [done|done]. }
  assert (Hoff : swrap 64 (0 + kPageSize) = kPageSize) by done.
  unfold live_start, LogFileAccessor_new. rewrite E.
  rewrite MapNextPage_eq by done. cbn [l_acc LogFileAccessor_init writable_]. rewrite res_bind_Ok. cbn iota beta.
  rewrite MapNextPage_eq by done. rewrite res_bind_Ok. cbn iota beta.
  eexists. split; [done|]. unfold next_offset. cbn [l_file l_acc LogFileAccessor_init writable_ offset_]. rewrite Hoff.
  set (f := ftruncate _ _).
  assert (Hpg : paged f) by (split; done). assert (H0 : next_page 0 = kPageSize) by done.
  assert (HS : ∀ w, stands (mkLog f (set_offset_ kPageSize (set_use_read_ kNo (set_current_ (Mapped 0)
    (LogFileAccessor_init w))))) 0).
  { intros w. split; try done. }
  split; [|done]. exists 0, 0. split_and!; [|apply (HS false)|done].
  split; [|by right]. split; cbn [lv_logger lg_log lg_types written_type_ids clear_type_ids_cookie fst snd]; try done.
  split; try done; first [apply (HS true)|by apply logged_end].
Qed.

Context (Hstack : length stack = 1024%nat).

Lemma live_log_ok n m s q : live_inv s q → loggable c n m →
  filesize (lv_logger s) + kPageSize * message_pages c n m < 2 ^ 62 →
  ∃ s' q', live_step (S n) (Log m) s = Ok (None, s') ∧ log_spec (Log m) q None q' ∧ live_inv s' q' ∧
    filesize (lv_logger s') ≤ filesize (lv_logger s) + kPageSize * message_pages c n m.
Proof.
  destruct q as [seen rs]. intros (a & e & R & St & Hw) Hm Hsz.
  destruct (proj1 (wp_run _ _ _) (log_message_ok c getpid seen sys_read uninitialised stack Hstack n m _ a rs e R Hm Hsz))
    as ([] & g & Hrun & ts & e' & R' & HF & HD & Hs).
  eexists (mkLive g (lv_reader s)), _. split_and!; [cbn [live_step]; by rewrite Hrun|by apply spec_log| |done].
  exists a, e'. split_and!; [done| |done]. destruct R' as [[[St' _ Ha Hl _ Hlast] _ _ _ _] _].
  destruct St as [Hp ? ? ? ? ? ? ? ?], St' as [Hp' ? ? ? ? ? ? ? ?]. split; try done.
  unfold reader_log. cbn [l_file lv_logger]. rewrite Hlast. apply next_page_mono.
  destruct (logged_le _ _ _ _ Ha Hl) as [_ [->|?]]; unfold kAlignment in *; lia.
Qed.

Lemma live_read_ok n s q : live_inv s q →
  ∃ o s' q', live_step n Read s = Ok (o, s') ∧ log_spec Read q o q' ∧ live_inv s' q' ∧
    filesize (lv_logger s') = filesize (lv_logger s).
Proof.
  destruct q as [seen rs]. intros (a & e & R & St & Hw).
  pose proof R as [[[HSt Hwr Ha Hl Hfr Hla] HC HT H0 Hb] He]. cbn [fst snd] in *.
  destruct (proj1 (wp_run _ _ _) (ReadNextMessage_ok sys_read uninitialised futex_wait (reader_log s) a rs e 0 St Hw Hl))
    as (o & l & Hrun & Hf & Hwl & Hpost). cbn [live_step]. fold (reader_log s). rewrite Hrun. cbn [mbind res_bind].
  assert (K : ∀ a' seen' rs', stands l a' → logged (l_file l) a' rs' e → seen ++ rs = seen' ++ rs' →
    live_inv (mkLive (mkLogger (mkLog (l_file l) (l_acc (lg_log (lv_logger s)))) (lg_types (lv_logger s))
      (written_type_ids (lv_logger s)) (clear_type_ids_cookie (lv_logger s))) (l_acc l)) (seen', rs')).
  { intros a' seen' rs' Hst' Hl' Heq. rewrite Hf in *. unfold reader_log in *. cbn [LogFile.l_file LogFile.l_acc] in *. exists a', e.
    split_and!; [|destruct l as [fl al]; cbn [l_file] in *; subst; done|done].
    split; [|done]. cbn [fst snd].
    split; cbn [lv_logger lg_log lg_types written_type_ids clear_type_ids_cookie fst snd]; try done.
    - destruct (lg_log (lv_logger s)) as [f acc] eqn:El. cbn [l_file l_acc] in *. split; try done. apply Hst'.
    - by rewrite <-Heq. }
  destruct rs as [|r rs].
  - destruct Hpost as [-> (a' & Hst' & Hl')]. eexists _, _, _. split_and!; [done|apply spec_none| |by cbn; rewrite Hf].
    apply (K a'); [done|by rewrite Hf|done].
  - destruct Hpost as (h & a' & -> & Hr & Hst' & Hcur & _ & Hl').
    rewrite Hcur, <-page_split, Hf, (header_record_at _ _ _ Hr). rewrite <-Hf.
    eexists _, _, _. split_and!; [done|apply spec_next| |by cbn; rewrite Hf].
    apply (K a'); [done|by rewrite Hf|by rewrite <-app_assoc].
Qed.

(** The new pages a run needs at most. *)
Definition ops_pages (n : nat) (ops : list live_op) : Z :=
  foldr (λ op k, match op with Log m => message_pages c n m | Read => 0 end + k) 0 ops.

Lemma message_pages_pos n m : 0 ≤ message_pages c n m.
Proof.
  unfold message_pages. destruct (m_payload m) as [|i sl b|]; [lia| |lia]. pose proof (type_count_nonneg c n i). lia.
Qed.

Lemma ops_pages_nonneg n ops : 0 ≤ ops_pages n ops.
Proof.
  induction ops as [|[m|] ops IH]; cbn [ops_pages foldr]; [done| |]; fold (ops_pages n ops); [|lia].
  pose proof (message_pages_pos n m). lia.
Qed.

Lemma live_run_ok n ops s q : live_inv s q → (∀ m, Log m ∈ ops → loggable c n m) →
  filesize (lv_logger s) + kPageSize * ops_pages n ops < 2 ^ 62 →
  ∃ os s' q', live_run (S n) ops s = Ok (os, s') ∧ log_specs ops q os q' ∧ live_inv s' q'.
Proof.
  revert s q. induction ops as [|op ops IH]; intros s q I Hm Hsz.
  - eexists _, _, _. split_and!; [done|constructor|done].
  - assert (∃ o s1 q1, live_step (S n) op s = Ok (o, s1) ∧ log_spec op q o q1 ∧ live_inv s1 q1 ∧
      filesize (lv_logger s1) + kPageSize * ops_pages n ops < 2 ^ 62) as (o & s1 & q1 & E1 & Sp & I1 & Hs1).
    { pose proof (ops_pages_nonneg n ops). destruct op as [m|]; cbn [ops_pages foldr] in Hsz; fold (ops_pages n ops) in Hsz.
      - destruct (live_log_ok n m s q I) as (s1 & q1 & ? & ? & ? & ?); [set_solver|unfold kPageSize in *; lia|].
        exists None, s1, q1. split_and!; try done. lia.
      - destruct (live_read_ok (S n) s q I) as (o & s1 & q1 & ? & ? & ? & Hf). exists o, s1, q1.
        split_and!; try done. lia. }
    destruct (IH s1 q1 I1) as (os & s2 & q2 & E2 & Sp2 & I2); [set_solver|done|].
    exists (o :: os), s2, q2. split_and!; [|by econstructor|done]. cbn [live_run]. by rewrite E1, res_bind_Ok, E2, res_bind_Ok.
Qed.

End Live.

(** ** What the specification's runs look like *)

Section Runs.
Context (getpid : Z) (c : gmap Z CacheEntry).
Notation log_specs := (log_specs getpid c).

Lemma log_specs_reads ops q os q' : log_specs ops q os q' → q'.1 = q.1 ++ omap (λ o, o) os.
Proof.
  induction 1 as [q|op q o q' ops os q'' H _ IH]; cbn; [by rewrite app_nil_r|]. rewrite IH.
  destruct H; cbn; rewrite <-?app_assoc; done.
Qed.

Definition logged_messages (ops : list live_op) : list LogMessage :=
  omap (λ op, match op with Log m => Some m | Read => None end) ops.

Lemma tells_type i r : tells c getpid i r → r_type r = kStructType.
Proof. by intros (x & _ & _ & _ & ->). Qed.

Lemma log_specs_messages ops q os q' : log_specs ops q os q' →
  filter (λ r, r_type r ≠ kStructType) (q'.1 ++ q'.2) =
  filter (λ r, r_type r ≠ kStructType) (q.1 ++ q.2) ++ (record_of <$> logged_messages ops).
Proof.
  induction 1 as [q|op q o q' ops os q'' H _ IH]; [by rewrite app_nil_r|]. rewrite IH.
  destruct H as [m ts seen rs HF HD|r seen rs|seen]; cbn [fst snd logged_messages omap list_omap].
  - rewrite !filter_app. cbn [fmap list_fmap]. assert (filter (λ r, r_type r ≠ kStructType) ts = []) as ->.
    { clear HD IH. induction HF as [|r ts [i Hi] _ IHF]; [done|]. rewrite filter_cons_False; [exact IHF|].
      intros Hn. by apply Hn, (tells_type i). }
    rewrite filter_cons_True by (cbn; destruct (m_payload m); done). cbn. rewrite <-!app_assoc. done.
  - by rewrite <-app_assoc.
  - done.
Qed.

Lemma log_specs_grow ops q os q' : log_specs ops q os q' → ∃ new, q'.1 ++ q'.2 = (q.1 ++ q.2) ++ new.
Proof.
  induction 1 as [q|op q o q' ops os q'' H _ IH]; [exists []; by rewrite app_nil_r|].
  destruct IH as [new ->]. destruct H as [m ts seen rs HF HD|r seen rs|seen]; cbn [fst snd].
  - exists (ts ++ [record_of m] ++ new). by rewrite <-!app_assoc.
  - exists new. by rewrite <-!app_assoc.
  - by exists new.
Qed.

(** A struct's types come before it. *)
Lemma log_specs_described ops q os q' : log_specs ops q os q' →
  ∀ m, m ∈ logged_messages ops → ∃ before after, q'.1 ++ q'.2 = before ++ record_of m :: after ∧
    described c getpid before m.
Proof.
  intros H. induction H as [q|op q o q' ops os q'' H Hs IH]; intros m' Hm'; [set_solver|].
  pose proof (log_specs_grow _ _ _ _ Hs) as P.
  destruct H as [m ts seen rs HF HD|r seen rs|seen]; cbn [logged_messages omap list_omap] in Hm'; [|by apply IH..].
  apply elem_of_cons in Hm' as [->|Hm']; [|by apply IH].
  destruct P as [new ->]. exists (seen ++ rs ++ ts), new. split; [|done]. cbn [fst snd]. by rewrite <-!app_assoc.
Qed.
End Runs.
