(* ===== verification/LogTheorems.v ===== *)
(** * What the binary log guarantees *)

From stdpp Require Import sets.
From S2P Require Import Prelude SharedMem ByteOrder QueueTypes QueueTypesProofs TypeCache LogFile.
From S2P Require Import TypesTheorems LogFileProofs LogWriter LogWriterProofs LogTypes LogLive.

(** C39: a log that is read while it is written: whatever the interleaving of
    the logger's turns and a reader's [ReadNextMessage(false)] on the same new
    file, neither process fails, the reader gets the records one after the
    other as they were written, across pages, and [NULL] exactly when it has
    seen all of them; apart from the records of types these are the messages,
    unchanged and in order; every struct comes behind the descriptions of all
    types it is built from, and each of these descriptions deserializes to the
    type.  The pages have to stay below 2^62 bytes and the types of the structs
    have to be in the logger's cache. *)
Theorem live_log_refines SystemPageSize sys_read uninitialised stack getpid futex_wait t n ops :
  0 < SystemPageSize → kPageSize mod SystemPageSize = 0 → length stack = 1024%nat →
  (∀ m, Log m ∈ ops → loggable (cache t) n m) →
  kPageSize * (1 + ops_pages (cache t) n ops) < 2 ^ 62 →
  ∃ s os s' seen rest,
    live_start SystemPageSize sys_read uninitialised t = Ok s ∧
    live_run sys_read uninitialised stack getpid futex_wait (S n) ops s = Ok (os, s') ∧
    log_specs getpid (cache t) ops ([], []) os (seen, rest) ∧
    seen = omap (λ o, o) os ∧
    filter (λ r, r_type r ≠ kStructType) (seen ++ rest) = record_of <$> logged_messages ops ∧
    (∀ m, m ∈ logged_messages ops → ∃ before after, seen ++ rest = before ++ record_of m :: after ∧
       match m_payload m with
       | PStruct i _ _ => ∀ j, needs (cache t) i j → ∃ r x, r ∈ before ∧ r_type r = kStructType ∧
           cache t !! j = Some x ∧
           Deserialize (r_message r) (Z.of_nat (length (r_message r))) true = Ok (Some (ce_type x), 0)
       | _ => True
       end).
Proof.
  intros Hp Hmod Hst Hops Hsz.
  destruct (live_start_ok SystemPageSize sys_read uninitialised getpid (cache t) t) as (s & E & I & Hf); [done..|].
  destruct (live_run_ok sys_read uninitialised stack getpid futex_wait (cache t) Hst n ops s _ I Hops)
    as (os & s' & [seen rest] & Erun & Sp & _); [unfold kPageSize in *; lia|].
  exists s, os, s', seen, rest. split_and!; [done..| | |].
  - apply (log_specs_reads _ _ _ _ _ _ Sp).
  - apply (log_specs_messages _ _ _ _ _ _ Sp).
  - intros m Hm. destruct (log_specs_described _ _ _ _ _ _ Sp m Hm) as (before & after & Heq & HD).
    exists before, after. split; [done|]. unfold described in HD. destruct (m_payload m) as [|i sl b|]; [done| |done].
    intros j Hj. destruct (HD j Hj) as (r & Hr & x & Hx & Hwf & _ & ->). exists (type_record getpid (ce_type x)), x.
    split_and!; [done..|]. cbn [type_record r_message]. rewrite <-(app_nil_r (encode_type (ce_type x))) at 1.
    rewrite Deserialize_encoded; [by rewrite Z.sub_diag|done|].
    rewrite encode_type_length. destruct Hwf as [_ _ Hn _ _ Hs]. unfold in_unsigned in *. lia.
Qed.

Module SampleLog.
Definition sys_read (f : file) (n : Z) : Z := -1.
Definition no_wait (f : file) (a : Z) : Z * file := (0, f).
Definition stack : bytes := replicate 1024 170.
Definition hello : LogMessage := mkMessage 5 6 3 2 100 1 3 [109; 110] (PString [104; 105; 10]).
Definition pair : LogMessage := mkMessage 7 8 7 2 100 2 3 [109; 110] (PStruct 7 2 [97; 98; 0; 0; 0; 1; 1; 2; 3]).
Definition ops : list live_op := [Read; Log hello; Log pair; Read; Read; Log pair; Read; Read; Read].

Lemma known7 : known (cache SampleTypes.s) 1 7.
Proof.
  right. exists (mkEntry SampleTypes.t7 false). split_and!; [done|apply SampleTypes.wf7|done|vm_compute; congruence|].
  intros f Hf. left. cbn in Hf. set_unfold in Hf. by destruct Hf as [->|[->|[]]].
Qed.

Lemma all_loggable m : Log m ∈ ops → loggable (cache SampleTypes.s) 1 m.
Proof.
  unfold ops. intros H. repeat apply elem_of_cons in H as [H|H].
  all: first [discriminate H|injection H as ->; split; [reflexivity|first [exact Logic.I|exact known7]]|by apply elem_of_nil in H].
Qed.

(** The reader gets the string, the type of the struct and then both structs. *)
Example run :
  (s ← live_start 4096 sys_read [] SampleTypes.s;
   '(os, _) ← live_run sys_read [] stack 42 no_wait 2 ops s;
   Ok (os : list (option record))) =
  Ok [None; None; None; Some (record_of hello); Some (type_record 42 SampleTypes.t7); None;
      Some (record_of pair); Some (record_of pair); None].
Proof. vm_compute. reflexivity. Qed.
End SampleLog.

Lemma live_log_refines_witness : ∃ s os s' seen rest,
  live_start 4096 SampleLog.sys_read [] SampleTypes.s = Ok s ∧
  live_run SampleLog.sys_read [] SampleLog.stack 42 SampleLog.no_wait 2 SampleLog.ops s = Ok (os, s') ∧
  log_specs 42 (cache SampleTypes.s) SampleLog.ops ([], []) os (seen, rest).
Proof.
  destruct (live_log_refines 4096 SampleLog.sys_read [] SampleLog.stack 42 SampleLog.no_wait SampleTypes.s 1
    SampleLog.ops ltac:(lia) ltac:(reflexivity) ltac:(reflexivity) SampleLog.all_loggable ltac:(vm_compute; reflexivity))
    as (s & os & s' & seen & rest & H1 & H2 & H3 & _).
  exists s, os, s', seen, rest. split_and!; assumption.
Defined.
