(* ===== verification/LogFront.v ===== *)
(** * The logging front end

    aos/common/logging/interface.cc, context.cc and implementations.cc: a
    thread's context, the stack of implementations it logs through, the messages
    they fill in and the queue the standard one sends them to. *)

From S2P Require Import Prelude Options SharedMem RawQueue ByteOrder QueueTypes TypeCache Time Serial.
From S2P Require Import LogWriter.

(** ** ExecuteFormat

    What a format and its arguments give is a text; [vsnprintf] stores as much of
    it as fits, with a NUL, and returns its length, or -1 if that is not an int. *)

Definition continued : bytes := [46; 46; 46; 10].

Definition vsnprintf (output : bytes) (pos size : Z) (text : bytes) : res bytes :=
  if size =? 0 then Ok output
  else put pos (take (Z.to_nat (Z.min (Z.of_nat (length text)) (size - 1))) text ++ [0]) output.

(** [output] is [pos] bytes into its array. *)
Definition ExecuteFormat (output : bytes) (pos output_size : Z) (text : bytes) : res (Z * bytes) :=
  let size := u64 (output_size - Z.of_nat (length continued)) in
  let ret := if Z.of_nat (length text) <? 2 ^ 31 then Z.of_nat (length text) else -1 in
  if ret <? 0 then Err Fatal
  else
    output ← vsnprintf output pos size text;
    output ← (if size <=? ret then
                if size =? 0 then Err Undefined else put (pos + (size - 1)) (continued ++ [0]) output
              else Ok output);
    Ok (Z.min ret size, output).

(** ** Context *)

Record cork := mkCork {
  ck_message : bytes; line_min : Z; line_max : Z; ck_function : option bytes }.

Record Context := mkContext {
  implementation : Z;
  cx_name : bytes;
  name_size : Z;
  cx_source : Z;
  cx_sequence : Z;
  cork_data : cork }.

Definition set_implementation (i : Z) (c : Context) : Context :=
  mkContext i (cx_name c) (name_size c) (cx_source c) (cx_sequence c) (cork_data c).
Definition set_cx_name (n : bytes) (k : Z) (c : Context) : Context :=
  mkContext (implementation c) n k (cx_source c) (cx_sequence c) (cork_data c).
Definition set_cx_source (p : Z) (c : Context) : Context :=
  mkContext (implementation c) (cx_name c) (name_size c) p (cx_sequence c) (cork_data c).
Definition set_cx_sequence (n : Z) (c : Context) : Context :=
  mkContext (implementation c) (cx_name c) (name_size c) (cx_source c) n (cork_data c).
Definition set_cork (k : cork) (c : Context) : Context :=
  mkContext (implementation c) (cx_name c) (name_size c) (cx_source c) (cx_sequence c) k.

Definition Reset (k : cork) : res cork :=
  m ← put 0 [0] (ck_message k); Ok (mkCork m 2147483647 (-1) None).

(** ** The process *)

Inductive kind : Set := RootImpl (only_implementation_ : bool) | QueueImpl.
Record impl := mkImpl { next_ : Z; i_kind : kind }.

Record process := mkProcess {
  my_context : option Context;
  delete_current_context : bool;
  implementations : gmap Z impl;
  global_top_implementation : Z;
  root_implementation : Z;
  p_cache : gmap Z CacheEntry;
  queue : Z;
  dropped_messages : Z;
  dropped_start : Time;
  backoff_start : Time;
  ticks : nat;
  stderr_ : list LogMessage }.

(** The process, the segment and what the messages and serialized types in it hold. *)
Record front := mkFront {
  fr_shm : shm; fr_cells : gmap Z LogMessage; fr_types : gmap Z ShmType; fr_proc : process }.
Abbreviation MF := (ST front).

Definition get_proc : MF process := λ s, Ok (fr_proc s, s).
Definition upd_proc (f : process → process) : MF unit := λ s,
  Ok (tt, mkFront (fr_shm s) (fr_cells s) (fr_types s) (f (fr_proc s))).

Definition set_context (c : option Context) (p : process) : process :=
  mkProcess c (delete_current_context p) (implementations p) (global_top_implementation p) (root_implementation p)
    (p_cache p) (queue p) (dropped_messages p) (dropped_start p) (backoff_start p) (ticks p) (stderr_ p).
Definition set_delete (b : bool) (p : process) : process :=
  mkProcess (my_context p) b (implementations p) (global_top_implementation p) (root_implementation p)
    (p_cache p) (queue p) (dropped_messages p) (dropped_start p) (backoff_start p) (ticks p) (stderr_ p).
Definition set_impls (m : gmap Z impl) (p : process) : process :=
  mkProcess (my_context p) (delete_current_context p) m (global_top_implementation p) (root_implementation p)
    (p_cache p) (queue p) (dropped_messages p) (dropped_start p) (backoff_start p) (ticks p) (stderr_ p).
Definition set_top (t : Z) (p : process) : process :=
  mkProcess (my_context p) (delete_current_context p) (implementations p) t (root_implementation p)
    (p_cache p) (queue p) (dropped_messages p) (dropped_start p) (backoff_start p) (ticks p) (stderr_ p).
Definition set_root (r : Z) (p : process) : process :=
  mkProcess (my_context p) (delete_current_context p) (implementations p) (global_top_implementation p) r
    (p_cache p) (queue p) (dropped_messages p) (dropped_start p) (backoff_start p) (ticks p) (stderr_ p).
Definition set_queue_ (q : Z) (p : process) : process :=
  mkProcess (my_context p) (delete_current_context p) (implementations p) (global_top_implementation p)
    (root_implementation p) (p_cache p) q (dropped_messages p) (dropped_start p) (backoff_start p) (ticks p) (stderr_ p).
Definition set_dropped (n : Z) (start backoff : Time) (p : process) : process :=
  mkProcess (my_context p) (delete_current_context p) (implementations p) (global_top_implementation p)
    (root_implementation p) (p_cache p) (queue p) n start backoff (ticks p) (stderr_ p).
Definition set_ticks (n : nat) (p : process) : process :=
  mkProcess (my_context p) (delete_current_context p) (implementations p) (global_top_implementation p)
    (root_implementation p) (p_cache p) (queue p) (dropped_messages p) (dropped_start p) (backoff_start p) n (stderr_ p).
Definition print_stderr (m : LogMessage) (p : process) : process :=
  mkProcess (my_context p) (delete_current_context p) (implementations p) (global_top_implementation p)
    (root_implementation p) (p_cache p) (queue p) (dropped_messages p) (dropped_start p) (backoff_start p) (ticks p)
    (stderr_ p ++ [m]).

(** Operations of the queues and of the type cache. *)
Definition on_shm {A} (m : M A) : MF A := λ s,
  match m (fr_shm s) with
  | Ok (a, h) => Ok (a, mkFront h (fr_cells s) (fr_types s) (fr_proc s))
  | Err e => Err e
  end.

Definition set_p_cache (c : gmap Z CacheEntry) (p : process) : process :=
  mkProcess (my_context p) (delete_current_context p) (implementations p) (global_top_implementation p)
    (root_implementation p) c (queue p) (dropped_messages p) (dropped_start p) (backoff_start p) (ticks p) (stderr_ p).

Definition on_cache {A} (m : MT A) : MF A := λ s,
  let h := fr_shm s in
  match m (mkTypes (p_cache (fr_proc s)) (fr_types s) (global_core h) (shm_core h) true) with
  | Ok (a, t) =>
      Ok (a, mkFront (mkShm (global_core h) (tc_shm t) (queue_objects h) (headers h) (signals h)) (fr_cells s)
              (shm_types t) (set_p_cache (cache t) (fr_proc s)))
  | Err e => Err e
  end.

Definition store_message (m : Z) (v : LogMessage) : MF unit := λ s,
  if m =? 0 then Err Undefined
  else Ok (tt, mkFront (fr_shm s) (<[m := v]> (fr_cells s)) (fr_types s) (fr_proc s)).
Definition load_message (m : Z) : MF LogMessage := λ s,
  if m =? 0 then Err Undefined
  else match fr_cells s !! m with Some v => Ok (v, s) | None => Err Undefined end.

Section Front.
(** The names of the process and of the thread, the process, the readings of the
    clock, what was in memory before, and how deep types are nested. *)
Context (program_invocation_short_name thread_name : bytes) (getpid : Z) (now : nat → Time).
Context (old_name old_data : nat → bytes) (stack : bytes) (nesting : nat).

(** [strncmp] of both names up to the shorter length. *)
Definition GetMyName : bytes :=
  let n := Nat.min (length thread_name) (length program_invocation_short_name) in
  if bool_decide (take n thread_name = take n program_invocation_short_name)
  then program_invocation_short_name
  else program_invocation_short_name ++ [46] ++ thread_name.

Definition ReloadThreadName : MF unit :=
  p ← get_proc;
  match my_context p with
  | None => mret tt
  | Some c =>
      if LOG_MESSAGE_NAME_LEN <? Z.of_nat (length GetMyName) + 1 then st_stop Abort
      else
        n ← st_lift (put 0 (GetMyName ++ [0]) (cx_name c));
        upd_proc (set_context (Some (set_cx_name n (Z.of_nat (length GetMyName)) c)))
  end.

(** [Context::Context()] in memory that holds anything. *)
Definition Context_new (top : Z) (n : nat) : res Context :=
  k ← Reset (mkCork (old_data n) 0 0 None);
  Ok (mkContext top (old_name n) 0 0 0 k).

Definition Get : MF Context :=
  p ← get_proc;
  _ ← (if delete_current_context p then upd_proc (λ p, set_delete false (set_context None p)) else mret tt);
  p ← get_proc;
  _ ← (match my_context p with
       | Some _ => mret tt
       | None =>
           c ← st_lift (Context_new (global_top_implementation p) (ticks p));
           _ ← upd_proc (set_context (Some c));
           _ ← ReloadThreadName;
           upd_proc (λ p, set_context (set_cx_source getpid <$> my_context p) p)
       end);
  p ← get_proc;
  st_lift (of_option Undefined (my_context p)).

Definition Delete : MF unit := upd_proc (set_delete true).

(** A store through the pointer [Get] returned. *)
Definition upd_context (f : Context → Context) : MF unit := upd_proc (λ p, set_context (f <$> my_context p) p).

Definition Time_Now : MF Time :=
  p ← get_proc;
  _ ← upd_proc (set_ticks (S (ticks p)));
  mret (now (ticks p)).

(** ** Filling in messages: what is left to know is the length and the union. *)

Definition FillInMessageBase (level : Z) : MF (Z → payload → LogMessage) :=
  c ← Get;
  p ← get_proc;
  nm ← st_lift (array_load (cx_name c) (name_size c));
  nm ← st_lift (put 0 nm (old_name (ticks p)));
  t ← Time_Now;
  _ ← upd_context (set_cx_sequence (u16 (cx_sequence c + 1)));
  mret (λ len u, LogWriter.mkMessage (sec_ t) (nsec_ t) len (name_size c) (cx_source c) (cx_sequence c) level nm u).

Definition sizeof_serialized : Z := LOG_MESSAGE_LEN - 1 - 8.
Definition sizeof_data : Z := LOG_MESSAGE_LEN - 4 - 4 - 4.

(** The bytes the union's array held. *)
Definition old_array (size : Z) : MF bytes :=
  p ← get_proc; mret (take (Z.to_nat size) (old_data (ticks p))).

Definition FillInMessage (level : Z) (text : bytes) : MF LogMessage :=
  fill ← FillInMessageBase level;
  old ← old_array LOG_MESSAGE_LEN;
  '(len, message) ← st_lift (ExecuteFormat old 0 LOG_MESSAGE_LEN text);
  mret (fill len (PString message)).

(** [serialize] gets the rest of the array and returns how much it has written, and
    the array. *)
Definition FillInMessageStructure (level : Z) (message_string : bytes) (size : Z) (type : MessageType)
    (serialize : bytes → res (Z * bytes)) : MF LogMessage :=
  _ ← on_cache (AddShm stack nesting (id type));
  fill ← FillInMessageBase level;
  old ← old_array sizeof_serialized;
  let string_length := Z.of_nat (length message_string) in
  if sizeof_serialized <? u64 (string_length + size) then st_stop Fatal
  else
    serialized ← st_lift (put 0 message_string old);
    '(message_length, rest) ← st_lift (serialize (drop (length message_string) serialized));
    mret (fill message_length (PStruct (id type) string_length (take (length message_string) serialized ++ rest))).

(** [rows * cols] is an int, its product with the size an unsigned int. *)
Definition FillInMessageMatrix (level : Z) (message_string : bytes) (type_id rows cols : Z) (data : bytes)
    : MF LogMessage :=
  if negb (IsPrimitive type_id) then st_stop Fatal
  else
    let element_size := Sizeof type_id in
    fill ← FillInMessageBase level;
    old ← old_array sizeof_data;
    n ← st_lift (i32 (rows * cols));
    let message_length := u32 (n * element_size) in
    let string_length := Z.of_nat (length message_string) in
    if sizeof_data <? u64 (string_length + message_length) then st_stop Fatal
    else
      d ← st_lift (put 0 message_string old);
      rest ← st_lift (SerializeMatrix type_id (drop (length message_string) d) data rows cols);
      mret (fill message_length (PMatrix type_id rows cols string_length (take (length message_string) d ++ rest))).

(** ** The queue *)

(** [Time::InSeconds(0.1)] *)
Definition kDropBackoff : Time := mkTime 0 100000000.
Definition ERROR : Z := 255.

(** [GetMessage] stops the program itself when there is none. *)
Definition GetMessageOrDie : MF Z :=
  p ← get_proc;
  m ← on_shm (GetMessage (queue p));
  if m =? 0 then st_stop Fatal else mret m.

Definition dropped_text (n : Z) (start : Time) : bytes :=
  decimal n ++ chars " logs starting at " ++ decimal (sec_ start) ++ [46] ++ decimal (nsec_ start) ++
  chars " dropped" ++ [10].

Definition WriteNonBlock (m : Z) : MF bool :=
  p ← get_proc;
  r ← on_shm (WriteMessage 1 (queue p) m (of_Option kNonBlock));
  match r with WDone b => mret b | WWait => st_stop Abort end.

Definition FreeQueueMessage (m : Z) : MF unit :=
  p ← get_proc; on_shm (FreeMessage 1 (queue p) m).

(** [if (dropped_messages > 0)]: whether to go on. *)
Definition report_dropped (msg : Z) (message_time : Time) : MF bool :=
  p ← get_proc;
  d ← st_lift (Time_sub message_time (backoff_start p));
  if Time_ltb d kDropBackoff then
    n ← st_lift (i32 (dropped_messages p + 1));
    _ ← upd_proc (set_dropped n (dropped_start p) (backoff_start p));
    _ ← FreeQueueMessage msg;
    mret false
  else
    dropped_message ← GetMessageOrDie;
    v ← FillInMessage ERROR (dropped_text (dropped_messages p) (dropped_start p));
    _ ← store_message dropped_message v;
    ok ← WriteNonBlock dropped_message;
    if (ok : bool) then
      _ ← upd_proc (λ p, set_dropped 0 (dropped_start p) (backoff_start p) p);
      mret true
    else
      n ← st_lift (i32 (dropped_messages p + 1));
      _ ← upd_proc (λ p, set_dropped n (dropped_start p) message_time p);
      _ ← FreeQueueMessage msg;
      mret false.

Definition Write (msg : Z) : MF unit :=
  p ← get_proc;
  v ← load_message msg;
  go ← (if 0 <? dropped_messages p then
          t ← st_lift (Time_new (seconds v) (nseconds v));
          report_dropped msg t
        else mret true);
  if (go : bool) then
    ok ← WriteNonBlock msg;
    if (ok : bool) then mret tt
    else
      p ← get_proc;
      t ← (if dropped_messages p =? 0 then
             t ← st_lift (Time_new (seconds v) (nseconds v)); mret (t, t)
           else mret (dropped_start p, backoff_start p));
      n ← st_lift (i32 (dropped_messages p + 1));
      upd_proc (set_dropped n t.1 t.2)
  else mret tt.

(** ** Implementations *)

(** What is logged: a text, a struct or a matrix. *)
Inductive request :=
| Text (text : bytes)
| Struct (message : bytes) (size : Z) (type : MessageType) (serialize : bytes → res (Z * bytes))
| Matrix (message : bytes) (type_id rows cols : Z) (data : bytes).

Definition fill_in (level : Z) (r : request) : MF LogMessage :=
  match r with
  | Text text => FillInMessage level text
  | Struct message size type serialize => FillInMessageStructure level message size type serialize
  | Matrix message type_id rows cols data => FillInMessageMatrix level message type_id rows cols data
  end.

(** [DoLog], [LogStruct] and [LogMatrix] of [LinuxQueueLogImplementation]. *)
Definition queue_DoLog (level : Z) (r : request) : MF unit :=
  message ← GetMessageOrDie;
  v ← fill_in level r;
  _ ← store_message message v;
  Write message.

(** [DoLog] of [RootLogImplementation]. *)
Definition root_DoLog (level : Z) (text : bytes) : MF unit :=
  v ← FillInMessage level text; upd_proc (print_stderr v).

(** [for (int i = 0; i < levels; ++i)] *)
Fixpoint find_implementation (levels : nat) (m : gmap Z impl) (implementation new_implementation : Z)
    : res (Z * Z) :=
  match levels with
  | O => Ok (implementation, new_implementation)
  | S levels =>
      if new_implementation =? 0 then Err Abort
      else
        i ← of_option Undefined (m !! new_implementation);
        find_implementation levels m new_implementation (next_ i)
  end.

Definition RunWithCurrentImplementation (levels : nat) (function : Z → MF unit) : MF unit :=
  context ← Get;
  p ← get_proc;
  let top_implementation := implementation context in
  '(i, new_implementation) ← st_lift (find_implementation levels (implementations p) 0 top_implementation);
  _ ← upd_context (set_implementation new_implementation);
  _ ← function i;
  upd_context (set_implementation top_implementation).

(** The root implementation turns structs and matrices into texts with
    [PrintMessage]; [print] is that text. *)
Context (print : request → res bytes).

Definition call_DoLog (level : Z) (r : request) (i : Z) : MF unit :=
  p ← get_proc;
  x ← st_lift (of_option Undefined (implementations p !! i));
  match i_kind x with
  | QueueImpl => queue_DoLog level r
  | RootImpl _ => text ← st_lift (print r); root_DoLog level text
  end.

(** [DoVLog], [DoLogStruct] and [DoLogMatrix]: after [FATAL] the program dies. *)
Definition log_do (level : Z) (r : request) : MF unit :=
  RunWithCurrentImplementation 1 (λ i,
    _ ← call_DoLog level r i;
    if level =? FATAL then st_stop Fatal else mret tt).

(** ** Corking *)

Definition VCork (line : Z) (function text : bytes) : MF unit :=
  context ← Get;
  let k := cork_data context in
  message_length ← st_lift (strlen (ck_message k));
  let k := mkCork (ck_message k) (if line <? line_min k then line else line_min k)
             (if line_max k <? line then line else line_max k) (ck_function k) in
  f ← match ck_function k with
      | None => mret function
      | Some g => if bool_decide (g = function) then mret g else st_stop Fatal
      end;
  '(_, m) ← st_lift (ExecuteFormat (ck_message k) message_length (u64 (LOG_MESSAGE_LEN - message_length)) text);
  upd_context (set_cork (mkCork m (line_min k) (line_max k) (Some f))).

Definition VUnCork (line : Z) (function : bytes) (level : Z) (file text : bytes) : MF unit :=
  _ ← VCork line function text;
  context ← Get;
  let k := cork_data context in
  m ← st_lift (cstr (ck_message k));
  _ ← log_do level (Text (file ++ chars ": " ++ decimal (line_min k) ++ [45] ++ decimal (line_max k) ++
                         chars ": " ++ function ++ chars ": " ++ m));
  context ← Get;
  k ← st_lift (Reset (cork_data context));
  upd_context (set_cork k).

(** ** Setting up *)

Definition SetGlobalImplementation (i : Z) : MF unit :=
  p ← get_proc;
  if root_implementation p =? 0 then st_stop Abort
  else
    _ ← Get;
    _ ← upd_context (set_implementation i);
    upd_proc (set_top i).

(** [new] returns a pointer that is not in use. *)
Definition DoInit (r : Z) : MF unit :=
  _ ← upd_proc (λ p, set_root r (set_impls (<[r := mkImpl 0 (RootImpl true)]> (implementations p)) p));
  SetGlobalImplementation r.

(** [set_next] of the root implementation is fatal. *)
Definition set_next (i next : Z) : MF unit :=
  p ← get_proc;
  x ← st_lift (of_option Undefined (implementations p !! i));
  match i_kind x with
  | RootImpl _ => st_stop Fatal
  | QueueImpl => upd_proc (λ p, set_impls (<[i := mkImpl next (i_kind x)]> (implementations p)) p)
  end.

Definition have_other_implementation : MF unit :=
  upd_proc (λ p, set_impls (alter (λ x, match i_kind x with
                                        | RootImpl _ => mkImpl (next_ x) (RootImpl false)
                                        | _ => x
                                        end) (root_implementation p) (implementations p)) p).

Definition AddImplementation (i : Z) : MF unit :=
  context ← Get;
  p ← get_proc;
  x ← st_lift (of_option Undefined (implementations p !! i));
  if negb (next_ x =? 0) then st_stop Fatal
  else
    let old := implementation context in
    _ ← (if negb (old =? 0) then set_next i old else mret tt);
    _ ← SetGlobalImplementation i;
    have_other_implementation.

(** [sizeof(LogMessage)] *)
Definition sizeof_LogMessage : Z := 552.

Definition GetLoggingQueue : M Z := Fetch "LoggingQueue" sizeof_LogMessage 1323 40000.

Definition RegisterQueueImplementation (r i : Z) : MF unit :=
  p ← get_proc;
  _ ← (if root_implementation p =? 0 then DoInit r else mret tt);
  q ← on_shm GetLoggingQueue;
  _ ← upd_proc (set_queue_ q);
  if q =? 0 then st_stop Abort
  else
    _ ← upd_proc (λ p, set_impls (<[i := mkImpl 0 QueueImpl]> (implementations p)) p);
    AddImplementation i.
End Front.
