(* ===== verification/LogFrontProofs.v ===== *)
(** * The logging front end: messages that are filled in, and the queue's account *)

From S2P Require Import Prelude Options SharedMem Ring RawQueue QueuePool QueueOps QueueSpec.
From S2P Require Import QueueRead QueueIndex QueueCreate QueueStore QueueSystem QueueFeed.
From S2P Require Import ByteOrder QueueTypes QueueTypesProofs TypeCache Time TimeProofs Serial.
From S2P Require Import LogFile LogFileProofs LogWriter LogWriterProofs LogTypes LogFront.

(** ** Formatting *)

(** The part of a text that a message of [n] bytes shows. *)
Definition shown (n : Z) (text : bytes) : bytes :=
  if bool_decide (Z.of_nat (length text) < n - 4) then text else take (Z.to_nat (n - 5)) text ++ [46].

Lemma put_first bs old : (length bs ≤ length old)%nat → put 0 bs old = Ok (bs ++ drop (length bs) old).
Proof. intros H. exact (put_at 0 bs [] old eq_refl H). Qed.

(** What [ExecuteFormat] makes of an array, [n] bytes from the end of [pre] on. *)
Definition formatted (pre old : bytes) (n : Z) (text : bytes) : bytes :=
  if bool_decide (Z.of_nat (length text) < n - 4)
  then pre ++ text ++ [0] ++ drop (length text + 1) old
  else pre ++ take (Z.to_nat (n - 5)) text ++ continued ++ [0] ++ drop (Z.to_nat n) old.

Lemma ExecuteFormat_ok pre old n text : 5 ≤ n < 2 ^ 32 → n ≤ Z.of_nat (length old) →
  Z.of_nat (length text) < 2 ^ 31 →
  ExecuteFormat (pre ++ old) (Z.of_nat (length pre)) n text =
    Ok (Z.min (Z.of_nat (length text)) (n - 4), formatted pre old n text).
Proof.
  intros Hn Hl Ht. unfold ExecuteFormat, formatted. cbn [length continued].
  rewrite (uwrap_small 64 (n - Z.of_nat 4)) by (unfold in_unsigned; lia).
  destruct (Z.ltb_spec (Z.of_nat (length text)) (2 ^ 31)); [|lia].
  destruct (Z.ltb_spec (Z.of_nat (length text)) 0); [lia|]. unfold vsnprintf.
  destruct (Z.eqb_spec (n - Z.of_nat 4) 0); [lia|].
  set (k := Z.to_nat (Z.min (Z.of_nat (length text)) (n - Z.of_nat 4 - 1))).
  assert (Hk : length (take k text ++ [0]) = S k) by (rewrite length_app, length_take; cbn; lia).
  rewrite put_at by (rewrite ?Hk; lia). rewrite res_bind_Ok, Hk.
  destruct (Z.leb_spec (n - Z.of_nat 4) (Z.of_nat (length text))).
  - rewrite bool_decide_eq_false_2 by lia.
    replace ((pre ++ take k text ++ [0]) ++ drop (S k) old)
      with ((pre ++ take k text) ++ (0 :: drop (S k) old)) by (rewrite <-!app_assoc; done).
    rewrite put_at.
    + rewrite res_bind_Ok. assert (Ek : k = Z.to_nat (n - 5)) by lia. rewrite Ek. do 2 f_equal.
      rewrite <-!app_assoc. do 2 f_equal. change (continued ++ [0] ++ ?x) with ((continued ++ [0]) ++ x). f_equal.
      cbn [length continued app drop]. rewrite drop_drop. f_equal. lia.
    + rewrite length_app, length_take. lia.
    + cbn [length continued app]. rewrite length_drop. lia.
  - rewrite bool_decide_eq_true_2 by lia. rewrite res_bind_Ok. do 2 f_equal.
    assert (Ek : k = length text) by lia. rewrite Ek, firstn_all, <-!app_assoc. cbn [app]. do 4 f_equal. lia.
Qed.

Lemma formatted_length pre old n text : 5 ≤ n → n ≤ Z.of_nat (length old) →
  length (formatted pre old n text) = (length pre + length old)%nat.
Proof.
  intros Hn Hl. unfold formatted. case_bool_decide; rewrite !length_app, ?length_take, length_drop; cbn; lia.
Qed.

(** A message shows the text, or the beginning of it and one of the dots. *)
Lemma formatted_shown old n text : 5 ≤ n → n ≤ Z.of_nat (length old) →
  take (Z.to_nat (Z.min (Z.of_nat (length text)) (n - 4))) (formatted [] old n text) = shown n text.
Proof.
  intros Hn Hl. unfold formatted, shown. case_bool_decide; cbn [app].
  - rewrite Z.min_l, Nat2Z.id by lia. by rewrite take_app_length.
  - rewrite Z.min_r by lia. replace (Z.to_nat (n - 4)) with (length (take (Z.to_nat (n - 5)) text) + 1)%nat
      by (rewrite length_take; lia). by rewrite take_app_add.
Qed.

(** ** Corking *)

Section Cork.
Context (pname tname : bytes) (getpid : Z) (old_name old_data : nat → bytes).
Notation Get := (LogFront.Get pname tname getpid old_name old_data).
Notation VCork := (VCork pname tname getpid old_name old_data).

(** The thread has its context. *)
Definition has_context (s : front) (c : Context) : Prop :=
  my_context (fr_proc s) = Some c ∧ delete_current_context (fr_proc s) = false.

Lemma Get_eq s c : has_context s c → Get s = Ok (c, s).
Proof.
  intros [Hc Hd]. unfold LogFront.Get, get_proc. mstep. rewrite Hd. mstep. rewrite Hc. mstep. by rewrite Hc.
Qed.

Lemma Get_ok s c (Q : Context → front → Prop) : has_context s c → Q c s → wp Get Q s.
Proof. intros Hc HQ. unfold wp. by rewrite (Get_eq s c Hc). Qed.

Definition with_context (s : front) (c : Context) : front :=
  mkFront (fr_shm s) (fr_cells s) (fr_types s) (set_context (Some c) (fr_proc s)).

Lemma has_with_context s c c' : has_context s c → has_context (with_context s c') c'.
Proof. by intros [_ Hd]. Qed.

Lemma upd_context_ok s c f (Q : unit → front → Prop) : has_context s c → Q tt (with_context s (f c)) →
  wp (upd_context f) Q s.
Proof. intros [Hc Hd] HQ. unfold upd_context, upd_proc, wp. rewrite Hc. done. Qed.

(** What has been corked so far in [function]. *)
Definition corked (s : front) (function : option bytes) (text : bytes) : Prop :=
  ∃ c rest, has_context s c ∧ ck_function (cork_data c) = function ∧
    ck_message (cork_data c) = text ++ 0 :: rest ∧ 0 ∉ text ∧
    Z.of_nat (length (ck_message (cork_data c))) = LOG_MESSAGE_LEN.

Definition same_function (f : bytes) (function : option bytes) : Prop := function = None ∨ function = Some f.

(** The common part, up to the formatting. *)
Lemma VCork_format s function text line f text' : corked s function text → same_function f function →
  ∃ c rest, has_context s c ∧ ck_message (cork_data c) = text ++ 0 :: rest ∧ 0 ∉ text ∧
    Z.of_nat (length text + S (length rest)) = LOG_MESSAGE_LEN ∧
    (∀ r, ExecuteFormat (text ++ 0 :: rest) (Z.of_nat (length text)) (LOG_MESSAGE_LEN - Z.of_nat (length text)) text' = r →
     match r with
     | Ok (_, m) => ∃ k, VCork line f text' s = Ok (tt, with_context s (set_cork k c)) ∧
         ck_message k = m ∧ ck_function k = Some f
     | Err e => VCork line f text' s = Err e
     end).
Proof.
  intros (c & rest & Hc & Hf & Hm & Hn & Hl) Hs. exists c, rest. rewrite Hm, length_app in Hl. cbn [length] in Hl.
  split_and!; [done..|]. intros r HE. unfold LOG_MESSAGE_LEN in *.
  assert (E : VCork line f text' s = match r with
    | Ok (_, m) => Ok (tt, with_context s (set_cork (mkCork m
       (if line <? line_min (cork_data c) then line else line_min (cork_data c))
       (if line_max (cork_data c) <? line then line else line_max (cork_data c)) (Some f)) c))
    | Err e => Err e end).
  { unfold LogFront.VCork. rewrite (st_bind_step _ _ _ _ _ (Get_eq s c Hc)). cbn zeta. rewrite Hm.
    assert (HL : strlen (text ++ 0 :: rest) = Ok (Z.of_nat (length text))) by (by apply strlen_app).
    rewrite (st_bind_step _ _ _ (Z.of_nat (length text)) s) by (unfold st_lift; by rewrite HL).
    cbn [ck_function ck_message line_min line_max]. rewrite Hf.
    erewrite (st_bind_step _ _ _ f s).
    2:{ destruct Hs as [-> | ->]; [done|]. by rewrite bool_decide_eq_true_2. }
    unfold LOG_MESSAGE_LEN. rewrite uwrap_small by (unfold in_unsigned; lia). rewrite HE.
    destruct r as [[k m]|e]; [|done]. unfold st_lift, mbind, st_bind, upd_context, upd_proc. by rewrite (proj1 Hc). }
  destruct r as [[k m]|e]; [|done]. eexists. split_and!; [exact E|done|done].
Qed.

Lemma corked_with s c k rest text f : has_context s c → ck_message k = text ++ 0 :: rest →
  ck_function k = Some f → 0 ∉ text → Z.of_nat (length (ck_message k)) = LOG_MESSAGE_LEN →
  corked (with_context s (set_cork k c)) (Some f) text.
Proof.
  intros Hc Hm Hf Hn Hl. exists (set_cork k c), rest. split; [by eapply has_with_context|]. done.
Qed.

(** A text that fits is appended. *)
Lemma VCork_fits s function text line f text' : corked s function text → same_function f function → 0 ∉ text' →
  Z.of_nat (length text) + Z.of_nat (length text') < LOG_MESSAGE_LEN - 4 →
  ∃ s', VCork line f text' s = Ok (tt, s') ∧ corked s' (Some f) (text ++ text').
Proof.
  intros HC Hs Hn Hl. unfold LOG_MESSAGE_LEN in *.
  destruct (VCork_format s function text line f text' HC Hs) as (c & rest & Hc & Hm & Hn1 & Hlen & HV).
  unfold LOG_MESSAGE_LEN in *. specialize (HV _ (ExecuteFormat_ok text (0 :: rest) (400 - Z.of_nat (length text)) text' ltac:(lia) ltac:(cbn [length]; lia) ltac:(lia))).
  destruct HV as (k & HV & Hk & Hf). eexists. split; [exact HV|].
  pose proof (formatted_length text (0 :: rest) (400 - Z.of_nat (length text)) text' ltac:(lia) ltac:(cbn [length]; lia)) as HL.
  rewrite <-Hk in HL. unfold formatted in Hk. rewrite bool_decide_eq_true_2 in Hk by lia.
  eapply corked_with; [done| |done|set_solver|].
  - rewrite Hk, <-!app_assoc. cbn [app]. done.
  - rewrite HL. unfold LOG_MESSAGE_LEN. cbn [length]. lia.
Qed.

(** One that does not is cut, and the array is full: there is no room for any other. *)
Lemma VCork_cut s function text line f text' : corked s function text → same_function f function → 0 ∉ text' →
  Z.of_nat (length text) < LOG_MESSAGE_LEN - 4 ≤ Z.of_nat (length text) + Z.of_nat (length text') →
  Z.of_nat (length text') < 2 ^ 31 →
  ∃ s', VCork line f text' s = Ok (tt, s') ∧
    corked s' (Some f) (text ++ take (395 - length text) text' ++ continued).
Proof.
  intros HC Hs Hn Hl Hl'. unfold LOG_MESSAGE_LEN in *.
  destruct (VCork_format s function text line f text' HC Hs) as (c & rest & Hc & Hm & Hn1 & Hlen & HV).
  unfold LOG_MESSAGE_LEN in *. specialize (HV _ (ExecuteFormat_ok text (0 :: rest) (400 - Z.of_nat (length text)) text' ltac:(lia) ltac:(cbn [length]; lia) ltac:(lia))).
  destruct HV as (k & HV & Hk & Hf). eexists. split; [exact HV|].
  pose proof (formatted_length text (0 :: rest) (400 - Z.of_nat (length text)) text' ltac:(lia) ltac:(cbn [length]; lia)) as HL.
  rewrite <-Hk in HL. unfold formatted in Hk. rewrite bool_decide_eq_false_2 in Hk by lia.
  eapply corked_with; [done| |done| |].
  - rewrite Hk, <-!app_assoc. replace (Z.to_nat (400 - Z.of_nat (length text) - 5)) with (395 - length text)%nat by lia.
    cbn [app]. done.
  - rewrite !not_elem_of_app. split_and!; [done| |unfold continued; set_solver].
    intros H. apply Hn. apply elem_of_take in H as (i & H & _). by eapply list_elem_of_lookup_2.
  - rewrite HL. unfold LOG_MESSAGE_LEN. cbn [length]. lia.
Qed.

Lemma VCork_full s function text line f text' : corked s function text → same_function f function →
  length text = 399%nat → text' ≠ [] → Z.of_nat (length text') < 2 ^ 31 → VCork line f text' s = Err Undefined.
Proof.
  intros HC Hs Hl Hne Hl'.
  destruct (VCork_format s function text line f text' HC Hs) as (c & rest & Hc & Hm & Hn1 & Hlen & HV).
  apply (HV (Err Undefined)). clear HV. unfold LOG_MESSAGE_LEN in *. rewrite Hl. unfold ExecuteFormat.
  change (u64 (400 - Z.of_nat 399 - Z.of_nat (length continued))) with (2 ^ 64 - 3).
  destruct (Z.ltb_spec (Z.of_nat (length text')) (2 ^ 31)); [|lia].
  destruct (Z.ltb_spec (Z.of_nat (length text')) 0); [lia|]. unfold vsnprintf.
  change (2 ^ 64 - 3 =? 0) with false. cbn iota. unfold put. rewrite (Z.min_l _ (2 ^ 64 - 3 - 1)) by lia.
  rewrite Nat2Z.id, firstn_all, !length_app, Hl. cbn [length].
  destruct (Z.ltb_spec (Z.of_nat (399 + S (length rest))) (Z.of_nat 399 + Z.of_nat (length text' + 1))); [done|].
  destruct text'; [done|]. cbn [length] in *. lia.
Qed.
End Cork.

(** ** Filling in *)

Section Front.
Context (pname tname : bytes) (getpid : Z) (now : nat → Time) (old_name old_data : nat → bytes).
Context (stack : bytes) (nesting : nat).
Context (Hname : ∀ k, Z.of_nat (length (old_name k)) = LOG_MESSAGE_NAME_LEN).
Context (Hdata : ∀ k, Z.of_nat (length (old_data k)) = LOG_MESSAGE_LEN).
Context (Hnow : ∀ k, 0 ≤ sec_ (now k) < 2 ^ 31 ∧ 0 ≤ nsec_ (now k) < kNSecInSec).
Notation FillInMessageBase := (FillInMessageBase pname tname getpid now old_name old_data).
Notation FillInMessage := (FillInMessage pname tname getpid now old_name old_data).
Notation fill_in := (fill_in pname tname getpid now old_name old_data stack nesting).

Record context_ok (c : Context) : Prop := {
  co_name : Z.of_nat (length (cx_name c)) = LOG_MESSAGE_NAME_LEN;
  co_size : 0 ≤ name_size c ≤ LOG_MESSAGE_NAME_LEN;
  co_sequence : 0 ≤ cx_sequence c < 2 ^ 16 }.

(** The next message gets the next number, and the clock goes on. *)
Definition next_context (c : Context) : Context := set_cx_sequence (u16 (cx_sequence c + 1)) c.
Definition stepped (s : front) (c : Context) : front :=
  mkFront (fr_shm s) (fr_cells s) (fr_types s)
    (set_context (Some (next_context c)) (set_ticks (S (ticks (fr_proc s))) (fr_proc s))).

Lemma next_context_ok c : context_ok c → context_ok (next_context c).
Proof. intros [? ? ?]. split; [done|done|]. by apply (uwrap_range 16). Qed.

(** What every message tells about where it comes from. *)
Record stamped (s : front) (c : Context) (lvl : Z) (v : LogMessage) : Prop := {
  sp_time : mkTime (seconds v) (nseconds v) = now (ticks (fr_proc s));
  sp_name : name_length v = name_size c ∧ Z.of_nat (length (m_name v)) = LOG_MESSAGE_NAME_LEN ∧
    take (Z.to_nat (name_size c)) (m_name v) = take (Z.to_nat (name_size c)) (cx_name c);
  sp_source : source v = cx_source c;
  sp_sequence : sequence v = cx_sequence c;
  sp_level : level v = lvl }.

Lemma FillInMessageBase_ok s c lvl : has_context s c → context_ok c →
  wp (FillInMessageBase lvl) (λ fill s', s' = stepped s c ∧ ∀ len u,
    stamped s c lvl (fill len u) ∧ message_length (fill len u) = len ∧ m_payload (fill len u) = u) s.
Proof.
  intros Hc [Hn Hs Hq]. unfold LogFront.FillInMessageBase. apply wp_bind, (Get_ok _ _ _ _ _ s c); [done|].
  apply wp_bind. unfold wp at 1, get_proc. apply wp_bind. unfold array_load.
  rewrite bool_decide_eq_false_2 by lia. eapply wp_lift; [done|].
  set (nm := take (Z.to_nat (name_size c)) (cx_name c)).
  assert (HL : length nm = Z.to_nat (name_size c)) by (unfold nm; rewrite length_take; lia).
  apply wp_bind. eapply wp_lift; [apply put_first; specialize (Hname (ticks (fr_proc s))); lia|].
  apply wp_bind. unfold Time_Now. apply wp_bind. unfold wp at 1, get_proc. apply wp_bind. unfold wp at 1, upd_proc.
  apply wp_ret. apply wp_bind. eapply (upd_context_ok _ c); [by destruct Hc|]. apply wp_ret.
  split; [done|]. intros len u. split; [|done]. cbn [app]. split; cbn; try done.
  - by destruct (now (ticks (fr_proc s))).
  - split_and!; [done| |].
    + rewrite length_app, length_drop. specialize (Hname (ticks (fr_proc s))). lia.
    + fold nm. by rewrite <-HL, take_app_length.
Qed.

Context (c0 : gmap Z CacheEntry) (n : nat).

(** What is asked of a caller: the generated [Serialize] stays within the size it
    announces, structs have a type that is published and known to the logger,
    matrices have a primitive one and as much data as they say. *)
Definition request_ok (p : process) (r : request) : Prop :=
  match r with
  | Text text => Z.of_nat (length text) < 2 ^ 31
  | Struct ms size type serialize =>
      0 ≤ id type < 2 ^ 32 ∧ known c0 n (id type) ∧ (0 < nesting)%nat ∧
      (∃ x, p_cache p !! id type = Some x ∧ ce_in_shm x = true) ∧
      0 ≤ size ∧ Z.of_nat (length ms) + size ≤ sizeof_serialized ∧
      ∀ buf, Z.of_nat (length ms + length buf) = sizeof_serialized →
        ∃ len rest, serialize buf = Ok (len, rest) ∧ length rest = length buf ∧ 0 ≤ len ≤ size
  | Matrix ms ty rows cols data =>
      IsPrimitive ty = true ∧ 0 ≤ ty < 2 ^ 32 ∧ 0 ≤ rows < 2 ^ 16 ∧ 0 ≤ cols < 2 ^ 16 ∧ Sizeof ty ∈ [1; 2; 4; 8] ∧
      Z.of_nat (length ms) + rows * cols * Sizeof ty ≤ sizeof_data ∧
      rows * cols * Sizeof ty ≤ Z.of_nat (length data)
  end.

(** The message holds what was asked for. *)
Definition carries (r : request) (v : LogMessage) : Prop :=
  match r with
  | Text text => ∃ data, m_payload v = PString data ∧
      take (Z.to_nat (message_length v)) data = shown LOG_MESSAGE_LEN text
  | Struct ms size type serialize => ∃ buf rest,
      m_payload v = PStruct (id type) (Z.of_nat (length ms)) (ms ++ rest) ∧
      serialize buf = Ok (message_length v, rest)
  | Matrix ms ty rows cols data => ∃ buf rest,
      m_payload v = PMatrix ty rows cols (Z.of_nat (length ms)) (ms ++ rest) ∧
      message_length v = rows * cols * Sizeof ty ∧
      SerializeMatrix ty buf data rows cols = Ok rest
  end.

Lemma hton_length k l : (k ≤ length l)%nat → length (do_hton_copy k l) = k.
Proof.
  intros H. destruct k as [|[|k]]; cbn [do_hton_copy]; [done|rewrite length_take; lia|].
  unfold copier. by rewrite le_split_length.
Qed.

Lemma matrix_loop_ok k i es output input : es ∈ [1; 2; 4; 8] → 0 ≤ i →
  (i + Z.of_nat k) * es ≤ Z.of_nat (length output) → (i + Z.of_nat k) * es ≤ Z.of_nat (length input) →
  ∃ out, matrix_loop k i es output input = Ok out ∧ length out = length output.
Proof.
  intros He. assert (1 ≤ es) by (set_unfold in He; lia). revert i output.
  induction k as [|k IH]; intros i output Hi Ho Hin; cbn [matrix_loop]; [by eauto|].
  rewrite bool_decide_eq_true_2 by done.
  assert ((i + 1) * es ≤ (i + Z.of_nat (S k)) * es) by nia.
  assert (0 ≤ i * es) by nia. rewrite get_ok by nia. rewrite res_bind_Ok.
  set (b := to_network_bytes _ _).
  assert (HB : length b = Z.to_nat es).
  { unfold b, to_network_bytes. apply hton_length. rewrite length_take, length_drop. nia. }
  assert (HP : put (i * es) b output =
    Ok ((take (Z.to_nat (i * es)) output ++ b) ++ drop (length b) (drop (Z.to_nat (i * es)) output))).
  { rewrite <-(put_at (i * es)); [by rewrite take_drop|rewrite length_take; nia|rewrite HB, length_drop; nia]. }
  rewrite HP, res_bind_Ok.
  destruct (IH (i + 1) ((take (Z.to_nat (i * es)) output ++ b) ++ drop (length b) (drop (Z.to_nat (i * es)) output)))
    as (out & E & HL); [lia| |nia|].
  - rewrite !length_app, !length_drop, length_take, HB. nia.
  - exists out. split; [done|]. rewrite HL, !length_app, !length_drop, length_take, HB. nia.
Qed.

Lemma AddShm_published i x (s : front) : (0 < nesting)%nat → p_cache (fr_proc s) !! i = Some x → ce_in_shm x = true →
  on_cache (AddShm stack nesting i) s = Ok (tt, s).
Proof.
  intros Hn Hx Hs. unfold on_cache. destruct nesting as [|k]; [lia|]. cbn [AddShm]. unfold publish. mstep.
  cbn [core_is_init negb]. mstep. cbn [cache]. rewrite Hx. cbn [of_option]. mstep. rewrite Hs. mstep.
  cbn [tc_shm shm_types cache]. destruct s as [[] ? ? []]. done.
Qed.

(** The parts of a well-formed message that do not depend on its contents. *)
Lemma stamped_ok s c lvl v : context_ok c → stamped s c lvl v → 0 ≤ lvl < 2 ^ 8 → 0 ≤ message_length v →
  payload_okb (message_length v) (m_payload v) = true → message_okb v = true.
Proof.
  intros [Hn Hs Hq] [Ht (N1 & N2 & N3) Hsrc Hseq Hlv] Hl Hm Hp. unfold message_okb.
  rewrite Hp, N1, N2, Hseq, Hlv. rewrite !andb_true_iff, !Z.leb_le, !Z.ltb_lt. lia.
Qed.

Definition fill_post (s : front) (c : Context) (lvl : Z) (r : request) (v : LogMessage) (s' : front) : Prop :=
  s' = stepped s c ∧ stamped s c lvl v ∧ carries r v ∧ loggable c0 n v.

Lemma FillInMessage_ok s c lvl text : has_context s c → context_ok c → 0 ≤ lvl < 2 ^ 8 →
  Z.of_nat (length text) < 2 ^ 31 → wp (FillInMessage lvl text) (fill_post s c lvl (Text text)) s.
Proof.
  intros Hc Ho Hl Ht. unfold LogFront.FillInMessage. apply wp_bind.
  eapply wp_mono; [by apply (FillInMessageBase_ok s c)|]. intros fill s1 [-> Hfill].
  apply wp_bind. unfold old_array. apply wp_bind. unfold wp at 1, get_proc. apply wp_ret.
  set (old := take _ _).
  assert (HL : Z.of_nat (length old) = LOG_MESSAGE_LEN).
  { unfold old. rewrite length_take. specialize (Hdata (ticks (fr_proc (stepped s c)))). unfold LOG_MESSAGE_LEN in *. lia. }
  apply wp_bind. eapply wp_lift.
  { apply (ExecuteFormat_ok [] old LOG_MESSAGE_LEN text); unfold LOG_MESSAGE_LEN in *; lia. }
  apply wp_ret. destruct (Hfill (Z.min (Z.of_nat (length text)) (LOG_MESSAGE_LEN - 4))
    (PString (formatted [] old LOG_MESSAGE_LEN text))) as (F1 & F2 & F3).
  unfold fill_post. split_and!; [done|done| |].
  - eexists. split; [exact F3|]. rewrite F2. apply formatted_shown; unfold LOG_MESSAGE_LEN in *; lia.
  - split; [|by rewrite F3]. eapply stamped_ok; [done..|rewrite F2; unfold LOG_MESSAGE_LEN; lia|].
    rewrite F3, F2. unfold payload_okb. rewrite formatted_length by (unfold LOG_MESSAGE_LEN in *; lia).
    rewrite andb_true_iff, !Z.leb_le. unfold LOG_MESSAGE_LEN in *. cbn [length]. lia.
Qed.

Lemma fill_in_ok s c lvl r : has_context s c → context_ok c → 0 ≤ lvl < 2 ^ 8 → request_ok (fr_proc s) r →
  wp (fill_in lvl r) (fill_post s c lvl r) s.
Proof.
  intros Hc Ho Hl Hr. destruct r as [text|ms size type ser|ms ty rows cols data]; cbn [LogFront.fill_in].
  - by apply FillInMessage_ok.
  - destruct Hr as (Hid & Hk & Hnest & (x & Hx & Hshm) & Hsz & Hfit & Hser). unfold FillInMessageStructure.
    apply wp_bind. unfold wp at 1. rewrite (AddShm_published (id type) x s) by done.
    apply wp_bind. eapply wp_mono; [by apply (FillInMessageBase_ok s c)|]. intros fill s1 [-> Hfill].
    apply wp_bind. unfold old_array. apply wp_bind. unfold wp at 1, get_proc. apply wp_ret.
    set (old := take _ _).
    assert (HL : Z.of_nat (length old) = sizeof_serialized).
    { unfold old. rewrite length_take. specialize (Hdata (ticks (fr_proc (stepped s c)))).
      unfold sizeof_serialized, LOG_MESSAGE_LEN in *. lia. }
    unfold sizeof_serialized, LOG_MESSAGE_LEN in *. rewrite uwrap_small by (unfold in_unsigned; lia).
    destruct (Z.ltb_spec (400 - 1 - 8) (Z.of_nat (length ms) + size)); [lia|].
    apply wp_bind. eapply wp_lift; [apply put_first; lia|].
    destruct (Hser (drop (length ms) old)) as (len & rest & Es & HLr & Hlen); [rewrite length_drop; lia|].
    rewrite drop_app_length, take_app_length. apply wp_bind. eapply wp_lift; [exact Es|]. apply wp_ret.
    destruct (Hfill len (PStruct (id type) (Z.of_nat (length ms)) (ms ++ rest))) as (F1 & F2 & F3).
    unfold fill_post. split_and!; [done|done| |].
    + exists (drop (length ms) old), rest. by rewrite F2.
    + split; [|by rewrite F3]. eapply stamped_ok; [done..|rewrite F2; lia|]. rewrite F3, F2. unfold payload_okb, LOG_MESSAGE_LEN.
      rewrite length_drop in HLr. rewrite !andb_true_iff, !Z.leb_le, !Z.ltb_lt, length_app. lia.
  - destruct Hr as (Hp & Hty & Hrows & Hcols & Hes & Hfit & Hd). unfold FillInMessageMatrix. rewrite Hp. cbn [negb].
    assert (1 ≤ Sizeof ty) by (set_unfold in Hes; lia). unfold sizeof_data, LOG_MESSAGE_LEN in Hfit.
    assert (Hrc : 0 ≤ rows * cols ≤ 388) by nia.
    apply wp_bind. eapply wp_mono; [by apply (FillInMessageBase_ok s c)|]. intros fill s1 [-> Hfill].
    apply wp_bind. unfold old_array. apply wp_bind. unfold wp at 1, get_proc. apply wp_ret.
    set (old := take _ _).
    assert (HL : Z.of_nat (length old) = sizeof_data).
    { unfold old. rewrite length_take. specialize (Hdata (ticks (fr_proc (stepped s c)))).
      unfold sizeof_data, LOG_MESSAGE_LEN in *. lia. }
    unfold sizeof_data, LOG_MESSAGE_LEN in *. assert (Ei : i32 (rows * cols) = Ok (rows * cols)).
    { apply chk_ok. unfold in_signed. lia. }
    apply wp_bind. eapply wp_lift; [exact Ei|]. rewrite (uwrap_small 32) by (unfold in_unsigned; nia).
    rewrite uwrap_small by (unfold in_unsigned; nia).
    destruct (Z.ltb_spec (400 - 4 - 4 - 4) (Z.of_nat (length ms) + rows * cols * Sizeof ty)); [lia|].
    apply wp_bind. eapply wp_lift; [apply put_first; nia|].
    rewrite drop_app_length, take_app_length.
    destruct (matrix_loop_ok (Z.to_nat (rows * cols)) 0 (Sizeof ty) (drop (length ms) old) data Hes ltac:(lia))
      as (rest & Em & HLr); [rewrite length_drop; nia|nia|].
    assert (Es : SerializeMatrix ty (drop (length ms) old) data rows cols = Ok rest).
    { unfold SerializeMatrix. rewrite Hp, Ei. done. }
    apply wp_bind. eapply wp_lift; [exact Es|]. apply wp_ret.
    destruct (Hfill (rows * cols * Sizeof ty) (PMatrix ty rows cols (Z.of_nat (length ms)) (ms ++ rest)))
      as (F1 & F2 & F3).
    unfold fill_post. split_and!; [done|done| |].
    + exists (drop (length ms) old), rest. by rewrite F2.
    + split; [|by rewrite F3]. eapply stamped_ok; [done..|rewrite F2; nia|]. rewrite F3, F2. unfold payload_okb, LOG_MESSAGE_LEN.
      rewrite length_drop in HLr. rewrite (uwrap_small 32) by (unfold in_unsigned; nia).
      rewrite !andb_true_iff, !Z.leb_le, !Z.ltb_lt, Z.eqb_eq, length_app. nia.
Qed.
End Front.
