(* ===== verification/LogAccount.v ===== *)
(** * The logging queue: every message is sent or accounted for *)

From S2P Require Import Prelude Options SharedMem Ring RawQueue QueuePool QueueOps QueueSpec.
From S2P Require Import QueueRead QueueIndex QueueCreate QueueStore QueueSystem QueueFeed.
From S2P Require Import ByteOrder QueueTypes QueueTypesProofs TypeCache Time TimeProofs Serial.
From S2P Require Import LogFile LogFileProofs LogWriter LogWriterProofs LogTypes LogFront LogFrontProofs.

(** ** The account *)

Definition message_time (v : LogMessage) : Time := mkTime (seconds v) (nseconds v).

(** A message that says that [n] messages were dropped from [start] on. *)
Definition reports (n : Z) (start : Time) (v : LogMessage) : Prop :=
  level v = ERROR ∧ carries (Text (dropped_text n start)) v.

(** [ms] were logged, [items] sent, and [d] were dropped and not reported yet: what
    is sent are the messages in order, without some that are dropped one after the
    other, and behind those a report of how many they were and since when. *)
Inductive accounted : list LogMessage → list LogMessage → list LogMessage → Prop :=
| acc_start : accounted [] [] []
| acc_sent ms items v : accounted ms items [] → accounted (ms ++ [v]) (items ++ [v]) []
| acc_dropped ms items d v : accounted ms items d → accounted (ms ++ [v]) items (d ++ [v])
| acc_reported ms items x d w : accounted ms items (x :: d) →
    reports (Z.of_nat (length (x :: d))) (message_time x) w → accounted ms (items ++ [w]) [].

Lemma dec_digits_length k z : (length (dec_digits k z) ≤ k)%nat.
Proof.
  revert z. induction k as [|k IH]; intros z; cbn [dec_digits]; [done|]. case_match; [cbn; lia|].
  rewrite length_app. pose proof (IH (z / 10)). cbn. lia.
Qed.

Lemma dropped_text_length z t : Z.of_nat (length (dropped_text z t)) < 2 ^ 31.
Proof.
  assert (H : ∀ z, (length (decimal z) ≤ 21)%nat).
  { intros y. unfold decimal. case_match; cbn [length]; pose proof (dec_digits_length 20 y); pose proof (dec_digits_length 20 (- y)); lia. }
  unfold dropped_text. rewrite !length_app. pose proof (H z). pose proof (H (sec_ t)). pose proof (H (nsec_ t)). cbn. lia.
Qed.

(** ** The queue *)

Section Queue.
Context (pname tname : bytes) (getpid : Z) (now : nat → Time) (old_name old_data : nat → bytes).
Context (stack : bytes) (nesting : nat).
Context (Hname : ∀ k, Z.of_nat (length (old_name k)) = LOG_MESSAGE_NAME_LEN).
Context (Hdata : ∀ k, Z.of_nat (length (old_data k)) = LOG_MESSAGE_LEN).
Context (Hnow : ∀ k, 0 ≤ sec_ (now k) < 2 ^ 31 ∧ 0 ≤ nsec_ (now k) < kNSecInSec).
Context (c0 : gmap Z CacheEntry) (n : nat).
Context (this : Z) (pool : gset Z) (cap : Z) (Hpool : cap + 2 < Z.of_nat (size pool)) (Hcap : cap < 2 ^ 31 - 8).

(** The queue's messages hold [queued], and the process has [held] others. *)
Record holds (s : front) (rq : RawQueue) (held : gmultiset Z) (queued : list LogMessage) : Prop := {
  h_inv : queue_inv (fr_shm s) this rq pool held;
  h_queue : queue (fr_proc s) = this;
  h_cap : queue_length_ rq = cap;
  h_cells : Forall2 (λ m v, fr_cells s !! m = Some v) (contents rq) queued }.

(** An operation of the queue changes nothing else. *)
Definition queue_step (s s' : front) : Prop :=
  fr_cells s' = fr_cells s ∧ fr_types s' = fr_types s ∧ fr_proc s' = fr_proc s.

Lemma holds_references s rq held queued : holds s rq held queued → (size held ≤ 2)%nat →
  references rq held ≤ cap + 2.
Proof.
  intros [I _ <- _] Hh. unfold references. rewrite gmultiset_size_disj_union, size_list_disj.
  pose proof (count_bound rq (qi_ring _ _ _ _ _ I)). rewrite contents_length. lia.
Qed.

Lemma wp_on_shm {A} (m : M A) (Q : A → front → Prop) s :
  wp m (λ a h, Q a (mkFront h (fr_cells s) (fr_types s) (fr_proc s))) (fr_shm s) → wp (on_shm m) Q s.
Proof. unfold wp, on_shm. by destruct (m (fr_shm s)) as [[a h]|]. Qed.

Lemma GetMessageOrDie_ok s rq held queued : holds s rq held queued → (size held ≤ 1)%nat →
  wp GetMessageOrDie (λ m s', ∃ rq', holds s' rq' ({[+ m +]} ⊎ held) queued ∧ queue_step s s' ∧
    m ≠ 0 ∧ m ∉ held ∧ m ∉ contents rq' ∧ messages_ rq' = messages_ rq) s.
Proof.
  intros H Hh. pose proof H as [I Hq Hc Hce]. unfold GetMessageOrDie. apply wp_bind. unfold wp at 1, get_proc.
  rewrite Hq. pose proof (holds_references s rq held queued H ltac:(lia)) as Hr.
  assert (free_messages_ rq ≠ 0) as Hfr.
  { destruct (qi_pool _ _ _ _ _ I) as [fl HP]. pose proof (pool_free_count _ _ _ _ _ HP).
    pose proof (size_dom_le (list_to_set_disj (contents rq) ⊎ held)). unfold references in Hr.
    pose proof (pool_chain _ _ _ _ _ HP) as Hch. destruct fl; [cbn in *; lia|].
    by destruct Hch as (-> & ? & _). }
  apply wp_bind, wp_on_shm. eapply wp_mono.
  { apply (GetMessage_post (fr_shm s) this rq pool held I Hfr). unfold references_max. lia. }
  intros m h (rq' & [G1 [G2 G2'] G3 G4 G5 G6 G7 G8]). rewrite (proj2 (Z.eqb_neq m 0)) by done. apply wp_ret.
  exists rq'. split_and!; try done; [|by rewrite G4]. split; try done; [by rewrite (ident_cap _ _ G6)|by rewrite G4].
Qed.

Lemma WriteNonBlock_ok s rq held queued m v : holds s rq held queued → m ∈ held → fr_cells s !! m = Some v →
  messages_ rq + 1 < 2 ^ 31 →
  wp (WriteNonBlock m) (λ b s', ∃ rq', queue_step s s' ∧ messages_ rq' ≤ messages_ rq + 1 ∧
    holds s' rq' (held ∖ {[+ m +]}) (if (b : bool) then queued ++ [v] else queued)) s.
Proof.
  intros [I Hq Hc Hce] Hm Hv Hmax. unfold WriteNonBlock. apply wp_bind. unfold wp at 1, get_proc. rewrite Hq.
  apply wp_bind, wp_on_shm. unfold wp at 1. rewrite WriteMessage_valid by done.
  eapply wp_mono; [by apply (DoWriteMessage_refines (fr_shm s) this rq pool held m 0)|].
  intros w h (rq' & [W1 W2 W3 W4 W5 W6]). unfold spec_write in W2.
  change (mode_of (of_Option kNonBlock)) with NonBlocking in W2.
  destruct (Z.of_nat (length (contents rq)) <? queue_length_ rq); injection W2 as <- W2; apply wp_ret; exists rq';
    cbn [total_after held_after] in *; (split_and!; [done|lia|split; try done]).
  all: rewrite ?(ident_cap _ _ W4), <-?W2; try done. by apply Forall2_app; [|constructor].
Qed.

Lemma FreeQueueMessage_ok s rq held queued m : holds s rq held queued → m ∈ held →
  wp (FreeQueueMessage m) (λ _ s', ∃ rq', queue_step s s' ∧ messages_ rq' = messages_ rq ∧
    holds s' rq' (held ∖ {[+ m +]}) queued) s.
Proof.
  intros [I Hq Hc Hce] Hm. unfold FreeQueueMessage. apply wp_bind. unfold wp at 1, get_proc. rewrite Hq.
  apply wp_on_shm. eapply wp_mono; [by apply (FreeMessage_post (fr_shm s) this rq pool held I 0)|].
  intros [] h (rq' & [F1 F2 F3 F4 F5 F6]). exists rq'. split_and!; [done|done|].
  split; try done; [by rewrite (ident_cap _ _ F4)|by rewrite F2].
Qed.

(** ** The process that logs *)

Definition time_ok (t : Time) : Prop := 0 ≤ sec_ t < 2 ^ 31 ∧ 0 ≤ nsec_ t < kNSecInSec.

Lemma time_sub_ok a b : time_ok a → time_ok b → ∃ d, Time_sub a b = Ok d.
Proof.
  intros [A1 A2] [B1 B2]. unfold Time_sub, kNSecInSec in *. rchk (sec_ a - sec_ b). rchk (nsec_ a - nsec_ b).
  unfold borrow, kNSecInSec. destruct (Z.ltb_spec (nsec_ a - nsec_ b) 0); [|by eexists].
  rchk (nsec_ a - nsec_ b + 1000000000). rchk (sec_ a - sec_ b - 1). by eexists.
Qed.

Lemma time_new_ok v : time_ok (message_time v) → Time_new (seconds v) (nseconds v) = Ok (message_time v).
Proof.
  intros [H1 H2]. unfold message_time, Time_new, CheckConstexpr, CheckImpl, kNSecInSec in *. cbn [sec_ nsec_] in *.
  rewrite !swrap_small by (unfold in_signed; cbn; lia).
  destruct (Z.leb_spec 1000000000 (nseconds v)); [lia|]. destruct (Z.ltb_spec (nseconds v) 0); [lia|]. done.
Qed.

(** The messages that were dropped, as the process remembers them. *)
Definition remembers (p : process) (d : list LogMessage) : Prop :=
  dropped_messages p = Z.of_nat (length d) ∧
  match d with [] => True | x :: _ => dropped_start p = message_time x ∧ time_ok (backoff_start p) end.

(** What logging does not change. *)
Definition same_setup (s s' : front) : Prop :=
  implementations (fr_proc s') = implementations (fr_proc s) ∧ p_cache (fr_proc s') = p_cache (fr_proc s).

Record sending (s : front) (c : Context) (rq : RawQueue) (held : gmultiset Z) (queued : list LogMessage)
    (ms items d : list LogMessage) : Prop := {
  sn_holds : holds s rq held queued;
  sn_context : has_context s c;
  sn_ok : context_ok c;
  sn_loggable : Forall (loggable c0 n) queued;
  sn_remembers : remembers (fr_proc s) d;
  sn_accounted : accounted ms (items ++ queued) d }.

Lemma holds_step s s' rq held queued : fr_shm s' = fr_shm s → fr_cells s' = fr_cells s →
  queue (fr_proc s') = queue (fr_proc s) → holds s rq held queued → holds s' rq held queued.
Proof. intros E1 E2 E3 [? ? ? ?]. split; rewrite ?E1, ?E2, ?E3; done. Qed.

Lemma holds_store s rq held queued m v : holds s rq held queued → m ∉ contents rq →
  holds (mkFront (fr_shm s) (<[m := v]> (fr_cells s)) (fr_types s) (fr_proc s)) rq held queued.
Proof.
  intros [? ? ? Hc] Hm. split; try done. cbn [fr_cells]. clear -Hc Hm.
  induction Hc as [|m' v' l l' Hv _ IH]; constructor.
  - rewrite lookup_insert_ne by set_solver. done.
  - apply IH. set_solver.
Qed.

Lemma report_dropped_ok s c rq m queued ms items x d v :
  sending s c rq {[+ m +]} queued ms items (x :: d) → fr_cells s !! m = Some v → time_ok (message_time v) →
  messages_ rq + 1 < 2 ^ 31 → Z.of_nat (length (x :: d)) + 1 < 2 ^ 31 → m ≠ 0 →
  wp (report_dropped pname tname getpid now old_name old_data m (message_time v)) (λ go s',
    ∃ c' rq' queued' d', sending s' c' rq' (if (go : bool) then {[+ m +]} else ∅) queued'
      (if go then ms else ms ++ [v]) items d' ∧ fr_cells s' !! m = Some v ∧ same_setup s s' ∧
      implementation c' = implementation c ∧ messages_ rq' ≤ messages_ rq + 1 ∧ (if go then d' = [] else (length d' ≤ length (x :: d) + 1)%nat)) s.
Proof.
  intros [H Hc Ho Hl [Hr1 [Hr2 Hr3]] Ha] Hv Ht Hmax Hd Hm0. unfold report_dropped.
  apply wp_bind. unfold wp at 1, get_proc.
  destruct (time_sub_ok (message_time v) (backoff_start (fr_proc s)) Ht Hr3) as [df Hdf].
  apply wp_bind. eapply wp_lift; [exact Hdf|].
  assert (Hi : i32 (dropped_messages (fr_proc s) + 1) = Ok (dropped_messages (fr_proc s) + 1)).
  { apply chk_ok. unfold in_signed. rewrite Hr1. lia. }
  destruct (Time_ltb df kDropBackoff).
  - apply wp_bind. eapply wp_lift; [exact Hi|]. apply wp_bind. unfold wp at 1, upd_proc.
    apply wp_bind. eapply wp_mono.
    { eapply (FreeQueueMessage_ok _ rq {[+ m +]} queued m); [by eapply holds_step; [..|exact H]|multiset_solver]. }
    intros [] s1 (rq1 & (E1 & E2 & E3) & Hm1 & H1). cbn [fr_cells fr_types fr_proc] in *. apply wp_ret.
    exists c, rq1, queued, ((x :: d) ++ [v]). rewrite E1. split_and!; try done; [|by unfold same_setup; rewrite E3|lia|rewrite length_app; cbn; lia].
    split; try done.
    + by replace (∅ : gmultiset Z) with ({[+ m +]} ∖ {[+ m +]} : gmultiset Z) by multiset_solver.
    + unfold has_context. by rewrite E3.
    + rewrite E3. split; [|done]. cbn. rewrite Hr1, length_app. cbn. lia.
    + by constructor.
  - apply wp_bind. eapply wp_mono; [apply (GetMessageOrDie_ok s rq {[+ m +]} queued H); by rewrite gmultiset_size_singleton|].
    intros m1 s1 (rq1 & H1 & (E1 & E2 & E3) & Hz1 & Hh1 & Hn1 & Hm1).
    apply wp_bind. eapply wp_mono.
    { eapply (FillInMessage_ok pname tname getpid now old_name old_data Hname Hdata c0 n s1 c ERROR).
      - unfold has_context. by rewrite E3.
      - done.
      - unfold ERROR. lia.
      - apply dropped_text_length. }
    intros w s2 (-> & Hst & Hcar & Hlog). 
    apply wp_bind. unfold wp at 1, store_message. rewrite (proj2 (Z.eqb_neq m1 0)) by done.
    assert (Hne : m ≠ m1) by (intros ->; multiset_solver).
    assert (HR : reports (Z.of_nat (length (x :: d))) (message_time x) w).
    { split; [apply Hst|]. rewrite <-Hr1, <-Hr2. exact Hcar. }
    apply wp_bind. eapply wp_mono.
    { eapply (WriteNonBlock_ok _ rq1 _ queued m1 w).
      - apply holds_store; [|done]. eapply holds_step; [..|exact H1]; done.
      - multiset_solver.
      - cbn. by rewrite lookup_insert_eq.
      - lia. }
    intros b s3 (rq3 & (F1 & F2 & F3) & Hm3 & H3). cbn [fr_cells fr_types fr_proc] in *.
    replace (({[+ m1; m +]} : gmultiset Z) ∖ {[+ m1 +]}) with ({[+ m +]} : gmultiset Z) in H3 by multiset_solver.
    assert (Hv3 : fr_cells s3 !! m = Some v) by (rewrite F1, lookup_insert_ne by done; cbn; by rewrite E1).
    assert (Hset : same_setup s s3) by (unfold same_setup; rewrite F3; cbn; by rewrite E3).
    assert (Hctx : has_context s3 (next_context c)).
    { unfold has_context. rewrite F3. cbn. split; [done|]. rewrite E3. apply Hc. }
    destruct b.
    + apply wp_bind. unfold wp at 1, upd_proc. apply wp_ret.
      exists (next_context c), rq3, (queued ++ [w]), []. split_and!; try done; [|lia].
      split; try done; [by eapply holds_step; [..|exact H3]|by apply next_context_ok|by apply Forall_app; split; [|constructor]|].
      rewrite app_assoc. by econstructor.
    + assert (Hp3 : dropped_messages (fr_proc s) = dropped_messages (fr_proc s3) ∧
        dropped_start (fr_proc s) = dropped_start (fr_proc s3)) by (rewrite F3; cbn; by rewrite E3).
      apply wp_bind. eapply wp_lift; [exact Hi|]. apply wp_bind. unfold wp at 1, upd_proc.
      apply wp_bind. eapply wp_mono.
      { eapply (FreeQueueMessage_ok _ rq3 {[+ m +]} queued m); [by eapply holds_step; [..|exact H3]|multiset_solver]. }
      intros [] s4 (rq4 & (G1 & G2 & G3) & Hm4 & H4). cbn [fr_cells fr_types fr_proc] in *. apply wp_ret.
      exists (next_context c), rq4, queued, ((x :: d) ++ [v]). rewrite G1.
      split_and!; try done; [|by unfold same_setup; rewrite G3|lia|rewrite length_app; cbn; lia].
      split; try done.
      * by replace (∅ : gmultiset Z) with ({[+ m +]} ∖ {[+ m +]} : gmultiset Z) by multiset_solver.
      * unfold has_context. by rewrite G3.
      * by apply next_context_ok.
      * rewrite G3. split; cbn; [rewrite Hr1, length_app; cbn; lia|]. destruct Hp3 as [_ <-]. done.
      * by constructor.
Qed.

Notation Write := (LogFront.Write pname tname getpid now old_name old_data).
Notation queue_DoLog := (queue_DoLog pname tname getpid now old_name old_data stack nesting).

Definition write_done (s : front) (c : Context) (rq : RawQueue) (ms items d : list LogMessage) (v : LogMessage)
    (s' : front) : Prop :=
  ∃ c' rq' queued' d', sending s' c' rq' ∅ queued' (ms ++ [v]) items d' ∧ same_setup s s' ∧
    implementation c' = implementation c ∧ messages_ rq' ≤ messages_ rq + 2 ∧ (length d' ≤ length d + 1)%nat.

(** Writing the message itself. *)
Lemma write_last_ok s c rq m queued ms items v : sending s c rq {[+ m +]} queued ms items [] →
  fr_cells s !! m = Some v → loggable c0 n v → time_ok (message_time v) → messages_ rq + 1 < 2 ^ 31 →
  wp (ok ← WriteNonBlock m;
      if (ok : bool) then mret tt
      else
        p ← get_proc;
        t ← (if dropped_messages p =? 0 then
               t ← st_lift (Time_new (seconds v) (nseconds v)); mret (t, t)
             else mret (dropped_start p, backoff_start p));
        n ← st_lift (i32 (dropped_messages p + 1));
        upd_proc (set_dropped n t.1 t.2))
    (λ _ s', ∃ rq' queued' d', sending s' c rq' ∅ queued' (ms ++ [v]) items d' ∧ same_setup s s' ∧
      messages_ rq' ≤ messages_ rq + 1 ∧ (length d' ≤ 1)%nat) s.
Proof.
  intros [H Hc Ho Hl [Hr1 Hr2] Ha] Hv Hlog Ht Hmax.
  apply wp_bind. eapply wp_mono; [by eapply (WriteNonBlock_ok s rq {[+ m +]} queued m v); [|multiset_solver|..]|].
  intros b s1 (rq1 & (E1 & E2 & E3) & Hm1 & H1).
  replace (({[+ m +]} : gmultiset Z) ∖ {[+ m +]}) with (∅ : gmultiset Z) in H1 by multiset_solver.
  destruct b.
  - apply wp_ret. exists rq1, (queued ++ [v]), []. split_and!; [|by unfold same_setup; rewrite E3|done|cbn; lia].
    split; try done; [by unfold has_context; rewrite E3|by apply Forall_app; split; [|constructor]|by rewrite E3|].
    rewrite app_assoc. by constructor.
  - apply wp_bind. unfold wp at 1, get_proc. rewrite E3, Hr1. cbn [length Z.eqb Z.of_nat]. apply wp_bind, wp_bind.
    eapply wp_lift; [by apply time_new_ok|]. apply wp_ret. apply wp_bind. eapply wp_lift; [done|].
    unfold wp, upd_proc. exists rq1, queued, [v].
    split_and!; [|by unfold same_setup; cbn; rewrite E3|done|done].
    split; try done; [by eapply holds_step; [..|exact H1]|by unfold has_context; cbn; rewrite E3|].
    change [v] with ([] ++ [v]). by constructor.
Qed.

Lemma Write_ok s c rq m queued ms items d v : sending s c rq {[+ m +]} queued ms items d →
  fr_cells s !! m = Some v → loggable c0 n v → time_ok (message_time v) → m ≠ 0 →
  messages_ rq + 2 < 2 ^ 31 → Z.of_nat (length d) + 1 < 2 ^ 31 →
  wp (Write m) (λ _ s', write_done s c rq ms items d v s') s.
Proof.
  intros S Hv Hlog Ht Hm0 Hmax Hd. unfold LogFront.Write. apply wp_bind. unfold wp at 1, get_proc.
  apply wp_bind. unfold wp at 1, load_message. rewrite (proj2 (Z.eqb_neq m 0)), Hv by done.
  apply wp_bind. rewrite (proj1 (sn_remembers _ _ _ _ _ _ _ _ S)).
  assert (K : ∀ s1 c1 rq1 queued1, sending s1 c1 rq1 {[+ m +]} queued1 ms items [] → fr_cells s1 !! m = Some v →
    same_setup s s1 → implementation c1 = implementation c → messages_ rq1 ≤ messages_ rq + 1 →
    wp (ok ← WriteNonBlock m;
      if (ok : bool) then mret tt
      else
        p ← get_proc;
        t ← (if dropped_messages p =? 0 then
               t ← st_lift (Time_new (seconds v) (nseconds v)); mret (t, t)
             else mret (dropped_start p, backoff_start p));
        n ← st_lift (i32 (dropped_messages p + 1));
        upd_proc (set_dropped n t.1 t.2)) (λ _ s', write_done s c rq ms items d v s') s1).
  { intros s1 c1 rq1 queued1 S1 Hv1 [Hs1 Hs1'] Hi1 Hm1.
    eapply wp_mono; [eapply (write_last_ok s1 c1 rq1 m queued1 ms items v S1); try done; lia|].
    intros [] s2 (rq2 & queued2 & d2 & S2 & [Hs2 Hs2'] & Hm2 & Hd2). exists c1, rq2, queued2, d2.
    split_and!; [done|split; congruence|done|lia|lia]. }
  destruct d as [|x d].
  - cbn [length Z.ltb Z.of_nat]. apply wp_ret. apply (K s c rq queued); try done. lia.
  - destruct (Z.ltb_spec 0 (Z.of_nat (length (x :: d)))); [|cbn in *; lia].
    apply wp_bind. eapply wp_lift; [by apply time_new_ok|].
    eapply wp_mono; [by eapply (report_dropped_ok s c rq m queued ms items x d v S); try done; lia|].
    intros go s1 (c1 & rq1 & queued1 & d1 & S1 & Hv1 & Hset & Hi1 & Hm1 & Hd1). destruct go.
    + subst d1. by apply (K s1 c1 rq1 queued1).
    + apply wp_ret. exists c1, rq1, queued1, d1. split_and!; try done; lia.
Qed.

(** One call of the queue's implementation. *)
Lemma queue_DoLog_ok s c rq queued ms items d lvl r : sending s c rq ∅ queued ms items d → 0 ≤ lvl < 2 ^ 8 →
  request_ok nesting c0 n (fr_proc s) r → messages_ rq + 2 < 2 ^ 31 → Z.of_nat (length d) + 1 < 2 ^ 31 →
  wp (queue_DoLog lvl r) (λ _ s', ∃ v, carries r v ∧ stamped now s c lvl v ∧ write_done s c rq ms items d v s') s.
Proof.
  intros [H Hc Ho Hl Hr Ha] Hlv Hreq Hmax Hd. unfold LogFront.queue_DoLog.
  apply wp_bind. eapply wp_mono; [apply (GetMessageOrDie_ok s rq ∅ queued H); rewrite gmultiset_size_empty; lia|].
  intros m s1 (rq1 & H1 & (E1 & E2 & E3) & Hm0 & _ & Hn1 & Hm1).
  replace ({[+ m +]} ⊎ ∅ : gmultiset Z) with ({[+ m +]} : gmultiset Z) in H1 by multiset_solver.
  assert (Hc1 : has_context s1 c) by (unfold has_context; by rewrite E3).
  apply wp_bind. eapply wp_mono.
  { apply (fill_in_ok pname tname getpid now old_name old_data stack nesting Hname Hdata c0 n s1 c lvl r); try done.
    by rewrite E3. }
  intros v s2 (-> & Hst & Hcar & Hlog).
  apply wp_bind. unfold wp at 1, store_message. rewrite (proj2 (Z.eqb_neq m 0)) by done.
  assert (Ht : time_ok (message_time v)) by (unfold message_time; rewrite (sp_time _ _ _ _ _ Hst); apply Hnow).
  eapply wp_mono.
  { eapply (Write_ok _ (next_context c) rq1 m queued ms items d v); try done; [|cbn; by rewrite lookup_insert_eq|lia].
    split; try done.
    - apply holds_store; [|done]. by eapply holds_step; [..|exact H1].
    - split; [done|]. cbn. apply Hc1.
    - by apply next_context_ok.
    - cbn. by rewrite E3. }
  intros [] s3 (c3 & rq3 & queued3 & d3 & S3 & [Hs3 Hs3'] & Hi3 & Hm3 & Hd3). exists v. split_and!; [done| |].
  - destruct Hst. split; try done. by rewrite <-E3.
  - exists c3, rq3, queued3, d3. cbn in Hs3, Hs3'. rewrite E3 in Hs3, Hs3'. split_and!; [done|done|done|lia|done].
Qed.

(** ** Through the stack of implementations *)

Context (print : request → res bytes).
Notation log_do := (log_do pname tname getpid now old_name old_data stack nesting print).

Lemma sending_context s c rq held queued ms items d c' : sending s c rq held queued ms items d → context_ok c' →
  sending (with_context s c') c' rq held queued ms items d.
Proof.
  intros [H [Hc Hd] Ho Hl Hr Ha] Ho'. split; try done. by eapply holds_step; [..|exact H].
Qed.

(** A log through the queue leaves the stack as it was. *)
Lemma log_do_ok s c rq queued ms items d lvl r i nx : sending s c rq ∅ queued ms items d →
  implementation c = i → i ≠ 0 → implementations (fr_proc s) !! i = Some (mkImpl nx QueueImpl) →
  0 ≤ lvl < 2 ^ 8 → lvl ≠ FATAL → request_ok nesting c0 n (fr_proc s) r →
  messages_ rq + 2 < 2 ^ 31 → Z.of_nat (length d) + 1 < 2 ^ 31 →
  wp (log_do lvl r) (λ _ s', ∃ v, carries r v ∧ stamped now s c lvl v ∧ write_done s c rq ms items d v s') s.
Proof.
  intros S Hi Hi0 Himp Hlv Hf Hreq Hmax Hd. pose proof S as [H Hc Ho Hl Hr Ha].
  unfold LogFront.log_do, RunWithCurrentImplementation. apply wp_bind, (Get_ok _ _ _ _ _ s c); [done|].
  apply wp_bind. unfold wp at 1, get_proc. apply wp_bind. cbn [find_implementation]. rewrite Hi.
  rewrite (proj2 (Z.eqb_neq i 0)) by done. rewrite Himp. cbn [of_option]. eapply wp_lift; [rewrite res_bind_Ok; done|].
  cbn [next_]. apply wp_bind, (upd_context_ok s c); [done|].
  assert (S1 : sending (with_context s (set_implementation nx c)) (set_implementation nx c) rq ∅ queued ms items d).
  { apply (sending_context s c); [done|]. by destruct Ho. }
  apply wp_bind, wp_bind. unfold call_DoLog. apply wp_bind. unfold wp at 1, get_proc. apply wp_bind.
  eapply wp_lift; [cbn; by rewrite Himp|]. cbn [i_kind].
  eapply wp_mono; [by apply (queue_DoLog_ok _ _ rq queued ms items d lvl r S1)|].
  intros [] s2 (v & Hcar & Hst & c2 & rq2 & queued2 & d2 & S2 & Hset & Hi2 & Hm2 & Hd2).
  rewrite (proj2 (Z.eqb_neq lvl FATAL)) by done. apply wp_ret. eapply (upd_context_ok s2 c2); [apply S2|].
  exists v. split_and!; [done|by destruct Hst; split|]. exists (set_implementation i c2), rq2, queued2, d2.
  split_and!; [|done|done|lia|done]. apply (sending_context s2 c2); [done|]. by destruct (sn_ok _ _ _ _ _ _ _ _ S2).
Qed.
End Queue.
