(* ===== verification/LogPipeline.v ===== *)
(** * From a call of LOG to a reader of the log file

    A process that logs through the queue, the log writer that empties the queue
    into a file (the loop of [BinaryLogReaderMain]), and a reader of the file. *)

From stdpp Require Import sets.
From S2P Require Import Prelude Options SharedMem Ring RawQueue QueuePool QueueOps QueueSpec.
From S2P Require Import QueueRead QueueIndex QueueCreate QueueStore QueueSystem QueueFeed.
From S2P Require Import ByteOrder QueueTypes QueueTypesProofs TypeCache Time TimeProofs Serial.
From S2P Require Import LogFile LogFileProofs LogWriter LogWriterProofs LogTypes LogLive LogFront.
From S2P Require Import LogFrontProofs LogAccount.

Record pipeline := mkPipeline { pl_front : front; pl_live : live }.

Inductive pipe_op := Send (lvl : Z) (r : request) | Turn | Look.

Section Pipeline.
Context (pname tname : bytes) (getpid : Z) (now : nat → Time) (old_name old_data : nat → bytes).
Context (stack : bytes) (nesting : nat) (print : request → res bytes).
Context (sys_read : file → Z → Z) (uninitialised wstack : bytes) (wpid : Z) (futex_wait : file → Z → Z * file).

(** One turn of the loop of [BinaryLogReaderMain]. *)
Definition writer_turn (fuel : nat) (s : pipeline) : res pipeline :=
  let f := pl_front s in
  '(r, h) ← ReadMessage 1 (queue (fr_proc f)) (of_Option kNonBlock) (fr_shm f);
  match (r : rres) with
  | RWait => Err Abort
  | RDone msg =>
      if msg =? 0 then Ok (mkPipeline (mkFront h (fr_cells f) (fr_types f) (fr_proc f)) (pl_live s))
      else
        v ← of_option Undefined (fr_cells f !! msg);
        '(_, g) ← log_message sys_read uninitialised wstack wpid fuel v (lv_logger (pl_live s));
        '(_, h) ← FreeMessage 1 (queue (fr_proc f)) msg h;
        Ok (mkPipeline (mkFront h (fr_cells f) (fr_types f) (fr_proc f)) (mkLive g (lv_reader (pl_live s))))
  end.

Definition pipe_step (fuel : nat) (op : pipe_op) (s : pipeline) : res (option record * pipeline) :=
  match op with
  | Send lvl r =>
      '(_, f) ← log_do pname tname getpid now old_name old_data stack nesting print lvl r (pl_front s);
      Ok (None, mkPipeline f (pl_live s))
  | Turn => s ← writer_turn fuel s; Ok (None, s)
  | Look =>
      '(o, l) ← live_step sys_read uninitialised wstack wpid futex_wait fuel Read (pl_live s);
      Ok (o, mkPipeline (pl_front s) l)
  end.

Fixpoint pipe_run (fuel : nat) (ops : list pipe_op) (s : pipeline) : res (list (option record) * pipeline) :=
  match ops with
  | [] => Ok ([], s)
  | op :: ops =>
      '(o, s) ← pipe_step fuel op s;
      '(os, s) ← pipe_run fuel ops s;
      Ok (o :: os, s)
  end.

Definition sends (ops : list pipe_op) : list (Z * request) :=
  omap (λ op, match op with Send lvl r => Some (lvl, r) | _ => None end) ops.

(** ** The invariant *)

Context (Hname : ∀ k, Z.of_nat (length (old_name k)) = LOG_MESSAGE_NAME_LEN).
Context (Hdata : ∀ k, Z.of_nat (length (old_data k)) = LOG_MESSAGE_LEN).
Context (Hnow : ∀ k, 0 ≤ sec_ (now k) < 2 ^ 31 ∧ 0 ≤ nsec_ (now k) < kNSecInSec).
Context (Hstack : length wstack = 1024%nat).
Context (c0 : gmap Z CacheEntry) (n : nat).
Context (this : Z) (pool : gset Z) (cap : Z) (Hpool : cap + 2 < Z.of_nat (size pool)) (Hcap : cap < 2 ^ 31 - 8).
Context (impl_ nx : Z) (Himpl : impl_ ≠ 0) (p0 : process).
Notation sending := (sending c0 n this pool cap).

(** The messages [ms] were logged, the file holds [items], of whose records the
    reader has [seen] the first. *)
Record flowing (s : pipeline) (ms items queued d : list LogMessage) (seen rest : list record) (k : Z) : Prop := {
  fl_sending : ∃ c rq, sending (pl_front s) c rq ∅ queued ms items d ∧ implementation c = impl_ ∧
    messages_ rq ≤ 2 * k;
  fl_stack : implementations (fr_proc (pl_front s)) !! impl_ = Some (mkImpl nx QueueImpl);
  fl_cache : p_cache (fr_proc (pl_front s)) = p_cache p0;
  fl_dropped : Z.of_nat (length d) ≤ k;
  fl_live : live_inv wpid c0 (pl_live s) (seen, rest);
  fl_log : ∃ lops los, log_specs wpid c0 lops ([], []) los (seen, rest) ∧ logged_messages lops = items }.

Lemma log_specs_snoc lops q los q' op o q'' : log_specs wpid c0 lops q los q' → log_spec wpid c0 op q' o q'' →
  log_specs wpid c0 (lops ++ [op]) q (los ++ [o]) q''.
Proof.
  induction 1 as [q|op' q o' q1 ops os q2 H _ IH]; intros Hs; cbn [app]; econstructor; eauto. constructor.
Qed.

Lemma send_ok fuel lvl r s ms items queued d seen rest k : flowing s ms items queued d seen rest k →
  0 ≤ lvl < 2 ^ 8 → lvl ≠ FATAL → request_ok nesting c0 n p0 r → 2 * k + 2 < 2 ^ 31 →
  ∃ s' v queued' d', pipe_step fuel (Send lvl r) s = Ok (None, s') ∧ level v = lvl ∧ carries r v ∧
    flowing s' (ms ++ [v]) items queued' d' seen rest (k + 1) ∧ pl_live s' = pl_live s.
Proof.
  intros [(c & rq & S & Hi & Hm) Hst Hca Hd Hlv Hlog] Hl Hf Hr Hk.
  assert (Hr' : request_ok nesting c0 n (fr_proc (pl_front s)) r).
  { destruct r; [done| |done]. cbn [request_ok] in *. by rewrite Hca. }
  destruct (proj1 (wp_run _ _ _) (log_do_ok pname tname getpid now old_name old_data stack nesting Hname Hdata Hnow c0 n
    this pool cap Hpool Hcap print (pl_front s) c rq queued ms items d lvl r impl_ nx S Hi Himpl Hst Hl Hf Hr'
    ltac:(lia) ltac:(lia)))
    as ([] & f & E & v & Hcar & Hstamp & c' & rq' & queued' & d' & S' & [Hs1 Hs2] & Hi' & Hm' & Hd').
  exists (mkPipeline f (pl_live s)), v, queued', d'. cbn [pipe_step]. rewrite E, res_bind_Ok.
  split_and!; [done|apply Hstamp|done| |done]. split; cbn [pl_front pl_live]; try done; [|by rewrite Hs1|by rewrite Hs2|lia].
  exists c', rq'. split_and!; [done|congruence|lia].
Qed.

Lemma look_ok fuel s ms items queued d seen rest k : flowing s ms items queued d seen rest k →
  ∃ s' o seen' rest', pipe_step fuel Look s = Ok (o, s') ∧ flowing s' ms items queued d seen' rest' k ∧
    seen' = seen ++ omap (λ o, o) [o] ∧ filesize (lv_logger (pl_live s')) = filesize (lv_logger (pl_live s)).
Proof.
  intros [Hsn Hst Hca Hd Hlv (lops & los & Hlog & Hit)].
  destruct (live_read_ok sys_read uninitialised wstack wpid futex_wait c0 fuel (pl_live s) (seen, rest) Hlv)
    as (o & l & [seen' rest'] & E & Sp & Hlv' & Hf).
  exists (mkPipeline (pl_front s) l), o, seen', rest'. cbn [pipe_step]. rewrite E, res_bind_Ok.
  split_and!; [done| | |done].
  - split; try done. exists (lops ++ [Read]), (los ++ [o]). split; [by eapply log_specs_snoc|].
    unfold logged_messages. rewrite omap_app, app_nil_r. done.
  - inversion Sp; subst; cbn; by rewrite ?app_nil_r.
Qed.

(** The queue has changed, and nothing else of the process. *)
Definition with_shm (f : front) (h : shm) : front := mkFront h (fr_cells f) (fr_types f) (fr_proc f).

Lemma sending_shm f h c rq rq' queued queued' ms items items' d : sending f c rq ∅ queued ms items d →
  queue_inv h this rq' pool ∅ → ident rq' = ident rq →
  Forall2 (λ m v, fr_cells f !! m = Some v) (contents rq') queued' → Forall (loggable c0 n) queued' →
  items' ++ queued' = items ++ queued →
  sending (with_shm f h) c rq' ∅ queued' ms items' d.
Proof.
  intros [[I Hq Hc Hce] Hcx Ho Hl Hr Ha] I' Hid Hce' Hl' Heq. split; try done; [|by rewrite Heq].
  split; try done. by rewrite (ident_cap _ _ Hid).
Qed.

Lemma turn_ok s ms items queued d seen rest k P : flowing s ms items queued d seen rest k →
  2 ≤ P → (∀ i, 2 + type_count c0 n i ≤ P) → 2 * k < 2 ^ 31 →
  filesize (lv_logger (pl_live s)) + kPageSize * P < 2 ^ 62 →
  ∃ s' items' queued' rest', pipe_step (S n) Turn s = Ok (None, s') ∧
    flowing s' ms items' queued' d seen rest' k ∧
    filesize (lv_logger (pl_live s')) ≤ filesize (lv_logger (pl_live s)) + kPageSize * P.
Proof.
  intros [(c & rq & S & Hi & Hm) Hst Hca Hd Hlv (lops & los & Hlog & Hit)] HP2 HP Hk Hsz.
  pose proof S as [[I Hq Hc Hce] Hcx Ho Hl Hr Ha].
  assert (Hrf : references rq ∅ < references_max).
  { unfold references, references_max. rewrite (right_id_L ∅ (⊎)), size_list_disj, contents_length.
    pose proof (count_bound rq (qi_ring _ _ _ _ _ I)). lia. }
  destruct (proj1 (wp_run _ _ _) (DoReadMessage_refines (fr_shm (pl_front s)) this rq pool ∅ I 0 (of_Option kNonBlock) Hrf))
    as (r & h & E & rq1 & HO).
  cbn [pipe_step]. unfold writer_turn. rewrite Hq, ReadMessage_valid, E, res_bind_Ok by done.
  unfold read_outcome in HO.
  change (opt_and (of_Option kNonBlock) kFromEnd) with false in HO.
  change (opt_and (of_Option kNonBlock) kPeek) with false in HO.
  destruct (contents rq) as [|m l] eqn:Hcont; cbn in HO.
  - destruct HO as [-> [N1 N2 N3 N4 N5 N6 N7]]. cbn iota beta. change (nothing_result (of_Option kNonBlock)) with (RDone 0).
    cbn [Z.eqb]. rewrite res_bind_Ok. eexists _, items, queued, rest. split_and!; [done| |cbn; unfold kPageSize; lia].
    split; try done; [|by exists lops, los]. exists c, rq1. split_and!; [|done|lia].
    eapply (sending_shm (pl_front s)); [exact S|done|done|by rewrite N2, Hcont|done|done].
  - destruct HO as [-> [R1 R2 R3 R4 R5 R6]]. apply Forall2_cons_inv_l in Hce as (v & queued' & Hv & Hce & ->).
    assert (Hin : m ∈ {[+ m +]} ⊎ (∅ : gmultiset Z)) by apply ms_add_self.
    rewrite (proj2 (Z.eqb_neq m 0)) by (by eapply held_message_nonzero). rewrite Hv. cbn [of_option]. rewrite res_bind_Ok.
    apply Forall_cons in Hl as [Hlv1 Hl].
    assert (Hpg : message_pages c0 n v ≤ P).
    { unfold message_pages. destruct (m_payload v) as [|i sl b|]; [lia|apply HP|lia]. }
    destruct (live_log_ok sys_read uninitialised wstack wpid futex_wait c0 Hstack n v (pl_live s) (seen, rest) Hlv Hlv1)
      as (l' & [seen' rest'] & El & Sp & Hlv' & Hf); [unfold kPageSize in *; lia|].
    cbn [live_step] in El.
    destruct (log_message sys_read uninitialised wstack wpid (Datatypes.S n) v (lv_logger (pl_live s))) as [[u g]|e] eqn:Eg;
      [|done]. rewrite res_bind_Ok in El. injection El as <-. rewrite res_bind_Ok.
    destruct (proj1 (wp_run _ _ _) (FreeMessage_post h this rq1 pool _ R1 0 m Hin)) as ([] & h2 & E2 & rq2 & [F1 F2 F3 F4 F5 F6]).
    rewrite E2, res_bind_Ok, res_bind_Ok. rewrite give_back in F1.
    assert (seen' = seen) as -> by (inversion Sp; done).
    eexists _, (items ++ [v]), queued', rest'. split_and!; [done| |cbn [pl_live]; unfold kPageSize in *; lia].
    split; try done.
    + exists c, rq2. split_and!; [|done|lia].
      eapply (sending_shm (pl_front s)); [exact S|done|congruence|by rewrite F2, R2|done|by rewrite <-app_assoc].
    + exists (lops ++ [Log v]), (los ++ [None]). split; [by eapply log_specs_snoc|].
      unfold logged_messages in *. rewrite omap_app, Hit. done.
Qed.

Lemma pipe_run_ok P ops s ms items queued d seen rest k : flowing s ms items queued d seen rest k →
  2 ≤ P → (∀ i, 2 + type_count c0 n i ≤ P) → 2 * (k + Z.of_nat (length ops)) < 2 ^ 31 →
  filesize (lv_logger (pl_live s)) + kPageSize * (P * Z.of_nat (length ops)) < 2 ^ 62 → 0 ≤ k →
  (∀ lvl r, Send lvl r ∈ ops → 0 ≤ lvl < 2 ^ 8 ∧ lvl ≠ FATAL ∧ request_ok nesting c0 n p0 r) →
  ∃ os s' new items' queued' d' seen' rest' k', pipe_run (S n) ops s = Ok (os, s') ∧
    flowing s' (ms ++ new) items' queued' d' seen' rest' k' ∧ seen' = seen ++ omap (λ o, o) os ∧
    Forall2 (λ x v, level v = x.1 ∧ carries x.2 v) (sends ops) new.
Proof.
  intros F HP2 HP. revert s ms items queued d seen rest k F.
  induction ops as [|op ops IH]; intros s ms items queued d seen rest k F Hk Hsz Hk0 Hops.
  - exists [], s, [], items, queued, d, seen, rest, k. cbn. rewrite !app_nil_r. split_and!; done || constructor.
  - cbn [length] in Hk, Hsz. cbn [pipe_run]. unfold kPageSize in *.
    assert (0 ≤ P * Z.of_nat (length ops)) by nia. assert (0 ≤ P) by lia. destruct op as [lvl r| |].
    + destruct (Hops lvl r) as (Hl & Hf & Hr); [set_solver|].
      destruct (send_ok (S n) lvl r s ms items queued d seen rest k F Hl Hf Hr ltac:(lia))
        as (s1 & v & queued1 & d1 & E1 & Hlv & Hcar & F1 & El).
      destruct (IH s1 _ _ _ _ _ _ _ F1) as (os & s2 & new & items2 & queued2 & d2 & seen2 & rest2 & k2 & E2 & F2 & -> & HF);
        [lia|rewrite El; lia|lia|set_solver|].
      exists (None :: os), s2, (v :: new), items2, queued2, d2, (seen ++ omap (λ o, o) os), rest2, k2.
      rewrite E1, res_bind_Ok, E2, res_bind_Ok. split_and!; [done| |done|by constructor].
      by rewrite <-app_assoc in F2.
    + destruct (turn_ok s ms items queued d seen rest k P F HP2 HP ltac:(lia)) as (s1 & items1 & queued1 & rest1 & E1 & F1 & Hs1);
        [unfold kPageSize; lia|].
      destruct (IH s1 _ _ _ _ _ _ _ F1) as (os & s2 & new & items2 & queued2 & d2 & seen2 & rest2 & k2 & E2 & F2 & -> & HF);
        [lia|unfold kPageSize in *; lia|lia|set_solver|].
      exists (None :: os), s2, new, items2, queued2, d2, (seen ++ omap (λ o, o) os), rest2, k2.
      rewrite E1, res_bind_Ok, E2, res_bind_Ok. done.
    + destruct (look_ok (S n) s ms items queued d seen rest k F) as (s1 & o & seen1 & rest1 & E1 & F1 & -> & Hs1).
      destruct (IH s1 _ _ _ _ _ _ _ F1) as (os & s2 & new & items2 & queued2 & d2 & seen2 & rest2 & k2 & E2 & F2 & -> & HF);
        [lia|rewrite Hs1; lia|lia|set_solver|].
      exists (o :: os), s2, new, items2, queued2, d2, ((seen ++ omap (λ o, o) [o]) ++ omap (λ o, o) os), rest2, k2.
      rewrite E1, res_bind_Ok, E2, res_bind_Ok. split_and!; [done|done| |done].
      rewrite <-app_assoc. f_equal. by destruct o.
Qed.
End Pipeline.

(** ** Setting up *)

Section Register.
Context (pname tname : bytes) (getpid : Z) (old_name old_data : nat → bytes).
Context (Hname : ∀ k, Z.of_nat (length (old_name k)) = LOG_MESSAGE_NAME_LEN).
Context (Hdata : ∀ k, Z.of_nat (length (old_data k)) = LOG_MESSAGE_LEN).
Context (Hmy : Z.of_nat (length (GetMyName pname tname)) < LOG_MESSAGE_NAME_LEN).
Notation Get := (LogFront.Get pname tname getpid old_name old_data).

(** A process that has not logged yet. *)
Definition fresh_process (types : gmap Z CacheEntry) : process :=
  mkProcess None false ∅ 0 0 types 0 0 kZero kZero 0 [].

(** The first [Get] makes the context. *)
Lemma Get_new s : my_context (fr_proc s) = None → delete_current_context (fr_proc s) = false →
  ∃ c, Get s = Ok (c, with_context s c) ∧ context_ok c ∧ implementation c = global_top_implementation (fr_proc s) ∧
    cx_sequence c = 0.
Proof.
  intros Hc Hd. unfold LogFront.Get, get_proc. mstep. rewrite Hd. mstep. rewrite Hc.
  pose proof (Hname (ticks (fr_proc s))) as HN. pose proof (Hdata (ticks (fr_proc s))) as HD.
  unfold Context_new, Reset. cbn [ck_message].
  rewrite put_first by (unfold LOG_MESSAGE_LEN in *; cbn; lia). mstep.
  unfold upd_proc, ReloadThreadName, get_proc. mstep. cbn [fr_proc set_context my_context cx_name].
  unfold LOG_MESSAGE_NAME_LEN in *. destruct (Z.ltb_spec 100 (Z.of_nat (length (GetMyName pname tname)) + 1)); [lia|].
  rewrite put_first by (rewrite ?length_app; cbn; lia). mstep.
  cbn [fr_proc set_context my_context of_option fmap option_fmap option_map]. mstep.
  eexists. split; [reflexivity|]. split; [|done].
  split; cbn [cx_name name_size cx_sequence set_cx_source set_cx_name]; unfold LOG_MESSAGE_NAME_LEN.
  - rewrite !length_app, length_drop, ?length_app. cbn [length]. lia.
  - lia.
  - lia.
Qed.

Lemma SetGlobalImplementation_ok s c i : has_context s c → root_implementation (fr_proc s) ≠ 0 →
  SetGlobalImplementation pname tname getpid old_name old_data i s =
    Ok (tt, mkFront (fr_shm s) (fr_cells s) (fr_types s)
      (set_top i (set_context (Some (set_implementation i c)) (fr_proc s)))).
Proof.
  intros Hc Hr. unfold SetGlobalImplementation. mstep. unfold get_proc. rewrite (proj2 (Z.eqb_neq _ 0)) by done. mstep.
  rewrite (Get_eq _ _ _ _ _ s c Hc). unfold upd_context, upd_proc. by rewrite (proj1 Hc).
Qed.

Definition log_key : queue_key := mkKey "LoggingQueue" sizeof_LogMessage 1323 40000.

(** What the first [RegisterQueueImplementation] leaves: the queue is empty, and the
    root implementation is behind the queue's. *)
Definition registered (f : front) (c : Context) (rq : RawQueue) (P : gset Z) (r i : Z) (types : gmap Z CacheEntry)
    : Prop :=
  queue_inv (fr_shm f) (queue (fr_proc f)) rq P ∅ ∧ contents rq = [] ∧ messages_ rq = 0 ∧
  queue_length_ rq = 40000 ∧ Z.of_nat (size P) = 40020 ∧ has_context f c ∧ context_ok c ∧ implementation c = i ∧
  implementations (fr_proc f) !! i = Some (mkImpl r QueueImpl) ∧ p_cache (fr_proc f) = types ∧
  dropped_messages (fr_proc f) = 0.

Lemma DoInit_ok s r : my_context (fr_proc s) = None → delete_current_context (fr_proc s) = false → r ≠ 0 →
  wp (DoInit pname tname getpid old_name old_data r) (λ _ s', ∃ c,
    s' = mkFront (fr_shm s) (fr_cells s) (fr_types s) (set_top r (set_context (Some c)
      (set_root r (set_impls (<[r := mkImpl 0 (RootImpl true)]> (implementations (fr_proc s))) (fr_proc s))))) ∧
    context_ok c ∧ implementation c = r) s.
Proof.
  intros Hc Hd Hr. unfold DoInit. apply wp_bind. unfold wp at 1, upd_proc.
  unfold SetGlobalImplementation. apply wp_bind. unfold wp at 1, get_proc. cbn [fr_proc root_implementation set_root].
  rewrite (proj2 (Z.eqb_neq r 0)) by done.
  match goal with |- wp _ _ ?s1 => destruct (Get_new s1 Hc Hd) as (c & E & Hok & _) end.
  apply wp_bind. unfold wp at 1. rewrite E. apply wp_bind. eapply (upd_context_ok _ c); [done|].
  unfold wp, upd_proc. exists (set_implementation r c). split_and!; [done|by destruct Hok|done].
Qed.

Lemma AddImplementation_ok s c r i : has_context s c → implementation c = r → r ≠ 0 → context_ok c →
  root_implementation (fr_proc s) = r → r ≠ i →
  implementations (fr_proc s) !! i = Some (mkImpl 0 QueueImpl) →
  wp (AddImplementation pname tname getpid old_name old_data i) (λ _ s', ∃ c',
    fr_shm s' = fr_shm s ∧ queue (fr_proc s') = queue (fr_proc s) ∧ p_cache (fr_proc s') = p_cache (fr_proc s) ∧
    dropped_messages (fr_proc s') = dropped_messages (fr_proc s) ∧ has_context s' c' ∧ context_ok c' ∧
    implementation c' = i ∧ implementations (fr_proc s') !! i = Some (mkImpl r QueueImpl)) s.
Proof.
  intros Hc Hi Hr Hok Hroot Hri Him. unfold AddImplementation. apply wp_bind, (Get_ok _ _ _ _ _ s c); [done|].
  apply wp_bind. unfold wp at 1, get_proc. apply wp_bind. eapply wp_lift; [by rewrite Him|]. cbn [next_ negb Z.eqb].
  rewrite Hi, (proj2 (Z.eqb_neq r 0)) by done. cbn [negb]. apply wp_bind. unfold set_next. apply wp_bind.
  unfold wp at 1, get_proc. apply wp_bind. eapply wp_lift; [by rewrite Him|]. cbn [i_kind]. unfold wp at 1, upd_proc.
  apply wp_bind. unfold wp at 1. erewrite (SetGlobalImplementation_ok _ c); [|done|cbn; congruence].
  unfold wp, have_other_implementation, upd_proc. exists (set_implementation i c).
  split_and!; try done; [by destruct Hc|by destruct Hok|]. cbn. rewrite Hroot, lookup_alter_ne by done. by rewrite lookup_insert_eq.
Qed.

Lemma RegisterQueueImplementation_ok s cells types cache l pool held r i :
  store_inv s l pool held → find_key (queue_objects s) log_key l = None →
  room_for s (queue_bytes (k_name log_key) (k_length log_key) (k_queue_length log_key)) →
  r ≠ 0 → i ≠ 0 → r ≠ i →
  wp (RegisterQueueImplementation pname tname getpid old_name old_data r i) (λ _ f, ∃ c rq P,
    registered f c rq P r i cache) (mkFront s cells types (fresh_process cache)).
Proof.
  intros SI Hk Hroom Hr Hi Hri. unfold RegisterQueueImplementation. apply wp_bind. unfold wp at 1, get_proc.
  apply wp_bind. cbn [fr_proc root_implementation fresh_process Z.eqb].
  eapply wp_mono; [by apply DoInit_ok|]. intros [] s1 (c & -> & Hok & Hci).
  apply wp_bind, wp_on_shm. cbn [fr_shm]. eapply wp_mono.
  { apply (wp_Fetch s l pool held log_key SI); [|done]. unfold queue_params, log_key, sizeof_LogMessage. cbn. lia. }
  unfold fetch_post. rewrite Hk. intros q h (rq & P & [N1 N2 N3 N4 [N5 N5'] N6 N7]).
  apply wp_bind. unfold wp at 1, upd_proc. 
  assert (Hq0 : q ≠ 0) by (eapply qchain_nonzero; [apply (si_chain _ _ _ _ N2)|set_solver]).
  rewrite (proj2 (Z.eqb_neq q 0)) by done. apply wp_bind. unfold wp at 1, upd_proc. eapply wp_mono.
  { eapply (AddImplementation_ok _ c r i); try done. cbn. by rewrite lookup_insert_eq. }
  intros [] f (c' & F1 & F2 & F3 & F4 & F5 & F6 & F7 & F8). exists c', rq, P. unfold registered.
  rewrite F1, F2, F3, F4. split_and!; try done.
  - destruct (si_queue _ _ _ _ N2 q) as (rq' & I); [set_solver|]. 
    pose proof (qi_object _ _ _ _ _ I) as Ho. rewrite N3 in Ho. injection Ho as <-.
    by rewrite upd_pool_eq, upd_held_eq in I.
  - unfold matches, queue_matches in N4. rewrite !andb_true_iff, !Z.eqb_eq in N4. apply N4.
Qed.
End Register.
