(* ===== verification/PipelineTheorems.v ===== *)
(** * What logging guarantees, from the call to the file *)

From stdpp Require Import sets.
From S2P Require Import Prelude Options SharedMem Ring RawQueue QueuePool QueueOps QueueSpec.
From S2P Require Import QueueRead QueueIndex QueueCreate QueueStore QueueSystem QueueFeed.
From S2P Require Import ByteOrder QueueTypes QueueTypesProofs TypeCache Time TimeProofs Serial.
From S2P Require Import TypesTheorems LogFile LogFileProofs LogWriter LogWriterProofs LogTypes LogLive LogFront.
From S2P Require Import LogTheorems LogFrontProofs LogAccount LogPipeline.


Module SamplePipeline.
(** A segment of 64 MiB, as its creator leaves it. *)
Definition core : aos_core := mkCore true (SHM_START + sizeof_aos_shm_core) 0x4000000 SHM_START "".
Definition sc : aos_shm_core :=
  mkShmCore 1 (mkTimespec 0 0) Unlocked (SHM_START + 0x4000000) (mkGlobal Unlocked 0) (mkGlobal Unlocked 0).
Definition segment : shm := initial_shm core sc.
Definition pname : bytes := chars "robot".
Definition tname : bytes := chars "vision".
Definition now (k : nat) : Time := mkTime (Z.of_nat (Nat.min k 1000)) 5.
Definition old_name (k : nat) : bytes := replicate 100 7.
Definition old_data (k : nat) : bytes := replicate 400 7.
Definition known_types : gmap Z CacheEntry := {[7 := mkEntry SampleTypes.t7 true]}.
Definition serialize (buf : bytes) : res (Z * bytes) := Ok (7, buf).
Definition print (r : request) : res bytes := Ok [].
Definition ops : list pipe_op :=
  [Send 1 (Text (chars "hi")); Turn; Look; Send 0 (Struct (chars "at") 7 SampleTypes.t7 serialize); Turn; Look; Look;
   Send 2 (Matrix (chars "m") 0x00012001 1 2 [5; 6]); Turn; Look].

Lemma segment_inv : store_inv segment [] (λ _, ∅) (λ _, ∅).
Proof. split; try done; [constructor|set_solver..]. Qed.

Lemma segment_room : room_for segment (queue_bytes (k_name log_key) (k_length log_key) (k_queue_length log_key)).
Proof. split; vm_compute; congruence. Qed.

Lemma counts j : 2 + type_count (cache SampleTypes.s) 1 j ≤ 3.
Proof.
  cbn [type_count]. destruct (decide (j = 7)) as [->|Hj]; [vm_compute; congruence|].
  replace (cache SampleTypes.s !! j) with (@None CacheEntry); [lia|]. symmetry. by apply lookup_singleton_ne.
Qed.

Lemma requests lvl r : Send lvl r ∈ ops →
  0 ≤ lvl < 2 ^ 8 ∧ lvl ≠ FATAL ∧ request_ok 1 (cache SampleTypes.s) 1 (fresh_process known_types) r.
Proof.
  unfold ops. intros H. repeat apply elem_of_cons in H as [H|H].
  all: first [discriminate H|by apply elem_of_nil in H|injection H as -> ->; split; [lia|split; [done|]]].
  - vm_compute. reflexivity.
  - cbn [request_ok]. change (id SampleTypes.t7) with 7. split; [lia|]. split; [exact SampleLog.known7|]. split; [lia|].
    split; [|split; [lia|split; [vm_compute; congruence|]]].
    + exists (mkEntry SampleTypes.t7 true). split; [apply lookup_singleton_eq|reflexivity].
    + intros buf Hb. exists 7, buf. split_and!; [done|done|lia|lia].
  - cbn [request_ok]. change (Sizeof 73729) with 1. split; [reflexivity|]. do 3 (split; [lia|]).
    split; [apply elem_of_cons; by left|]. split; vm_compute; congruence.
Qed.
End SamplePipeline.


(** ** A full queue *)

Module SampleFull.
(** A queue with room for two messages stands in for the one of 40000. *)
Definition start : res front :=
  '(q, h) ← Fetch "LoggingQueue" sizeof_LogMessage 1323 2 SamplePipeline.segment;
  '(_, f) ← DoInit SamplePipeline.pname SamplePipeline.tname 42 SamplePipeline.old_name SamplePipeline.old_data 100
    (mkFront h ∅ ∅ (fresh_process SamplePipeline.known_types));
  '(_, f) ← upd_proc (λ p, set_queue_ q (set_impls (<[200 := mkImpl 0 QueueImpl]> (implementations p)) p)) f;
  '(_, f) ← AddImplementation SamplePipeline.pname SamplePipeline.tname 42 SamplePipeline.old_name
    SamplePipeline.old_data 200 f;
  Ok f.

Definition say (c : Z) : pipe_op := Send 1 (Text [c]).
Definition outcome : res (list bytes * Z) :=
  f ← start;
  live ← live_start 4096 SampleLog.sys_read [] SampleTypes.s;
  '(os, s) ← pipe_run SamplePipeline.pname SamplePipeline.tname 42 SamplePipeline.now SamplePipeline.old_name
    SamplePipeline.old_data [] 1 SamplePipeline.print SampleLog.sys_read [] SampleLog.stack 43 SampleLog.no_wait 2
    [say 65; say 66; say 67; say 68; Turn; Turn; say 69; Turn; Turn; Look; Look; Look; Look; Look]
    (mkPipeline f live);
  Ok (map r_message (omap (M := list) (λ o, o) os), dropped_messages (fr_proc (pl_front s))).

(** Two of five messages do not fit; the log says so when there is room again. *)
Example reported : outcome = Ok ([[65]; [66]; chars "2 logs starting at 2.5 dropped" ++ [10]; [69]], 0).
Proof. vm_compute. reflexivity. Qed.
End SampleFull.

(** ** Corking *)

(** [LOG_CORK] collects texts: as long as all of them together are
    shorter than 396 bytes they are kept one behind the other; one that does
    not fit is cut and ends in dots and a newline, so that 399 bytes are in
    use; after that any text that is not empty is written outside of the
    array, because the room left (1) minus 4 is a huge size_t. *)
Theorem VCork_overruns pname tname getpid old_name old_data s function text line f text' :
  corked s function text → same_function f function → 0 ∉ text' → Z.of_nat (length text') < 2 ^ 31 →
  (Z.of_nat (length text) + Z.of_nat (length text') < LOG_MESSAGE_LEN - 4 →
   ∃ s', VCork pname tname getpid old_name old_data line f text' s = Ok (tt, s') ∧
     corked s' (Some f) (text ++ text')) ∧
  (Z.of_nat (length text) < LOG_MESSAGE_LEN - 4 ≤ Z.of_nat (length text) + Z.of_nat (length text') →
   ∃ s', VCork pname tname getpid old_name old_data line f text' s = Ok (tt, s') ∧
     corked s' (Some f) (text ++ take (395 - length text) text' ++ continued) ∧
     ∀ line' more, more ≠ [] → Z.of_nat (length more) < 2 ^ 31 →
       VCork pname tname getpid old_name old_data line' f more s' = Err Undefined).
Proof.
  intros HC Hs Hn Hl. split; intros Hfit.
  - by apply (VCork_fits _ _ _ _ _ _ function).
  - destruct (VCork_cut pname tname getpid old_name old_data s function text line f text') as (s' & E & HC'); [done..|].
    exists s'. split_and!; [done|done|]. intros line' more Hne Hlm.
    eapply VCork_full; [exact HC'|by right| |done|done].
    unfold LOG_MESSAGE_LEN in Hfit. rewrite !length_app, length_take. cbn. lia.
Qed.

Module SampleCork.
Definition k : cork := mkCork (replicate 400 0) 2147483647 (-1) None.
Definition s : front :=
  mkFront SamplePipeline.segment ∅ ∅
    (set_context (Some (mkContext 100 (replicate 100 0) 5 42 0 k)) (fresh_process ∅)).
Definition long : bytes := replicate 500 65.
End SampleCork.

Lemma VCork_overruns_witness :
  ∃ s', VCork [] [] 42 SamplePipeline.old_name SamplePipeline.old_data 10 (chars "f") SampleCork.long SampleCork.s
      = Ok (tt, s') ∧
    VCork [] [] 42 SamplePipeline.old_name SamplePipeline.old_data 11 (chars "f") [66] s' = Err Undefined.
Proof.
  destruct (proj2 (VCork_overruns [] [] 42 SamplePipeline.old_name SamplePipeline.old_data SampleCork.s None [] 10
    (chars "f") SampleCork.long
    ltac:(exists (mkContext 100 (replicate 100 0) 5 42 0 SampleCork.k), (replicate 399 0); split_and!;
          [split; reflexivity|reflexivity|reflexivity|apply not_elem_of_nil|reflexivity])
    ltac:(left; reflexivity)
    ltac:(unfold SampleCork.long; intros [H _]%elem_of_replicate; discriminate H) ltac:(reflexivity)))
    as (s' & E & _ & Hm).
  - split; [reflexivity|]. vm_compute. congruence.
  - exists s'. split; [exact E|]. apply Hm; [discriminate|reflexivity].
Defined.
