(* ===== verification/Starter.v ===== *)
(** * The starter: aos/linux_code/starter/starter.cc and aos/common/util/run_command.cc

    The program that starts all others, restarts those that die and those whose
    binaries change.  Its objects are kept in lists, an address being an index;
    the kernel, libc's pipes and libevent are the class [Unix].  libevent calls
    one handler at a time: [dispatch] below is such a call.  Log messages are left
    out, except that [LOG(FATAL)] ends the program. *)

From S2P Require Import Prelude SharedMem ByteOrder QueueTypes Time Serial.

Definition SIGHUP : Z := 1.
Definition SIGINT : Z := 2.
Definition SIGQUIT : Z := 3.
Definition SIGABRT : Z := 6.
Definition SIGKILL : Z := 9.
Definition SIGPIPE : Z := 13.
Definition SIGTERM : Z := 15.
Definition SIGCONT : Z := 18.
Definition SIGXCPU : Z := 24.
Definition SIGCHLD : Z := 17.
Definition IN_MODIFY : Z := 0x2.
Definition IN_ATTRIB : Z := 0x4.
Definition IN_CREATE : Z := 0x100.
Definition IN_DELETE_SELF : Z := 0x400.
Definition IN_MOVE_SELF : Z := 0x800.
Definition IN_IGNORED : Z := 0x8000.
Definition ENOENT : Z := 2.

(** ** What the operating system gives *)

(** What a forked process does: run a binary, or a command in a shell with the
    standard files redirected to /dev/null. *)
Inductive program := Execv (path : bytes) (argv : list bytes) | Shell (command : bytes).

Inductive si_code := CLD_EXITED | CLD_KILLED | CLD_DUMPED | CLD_STOPPED | CLD_OTHER.

Record siginfo := mkInfo { si_pid : Z; si_status : Z; si_code_ : si_code }.

(** An event of the inotify descriptor; [ie_name] is there if [len > 0]. *)
Record inotify_event := mkEvent { ie_wd : Z; ie_mask : Z; ie_name : option bytes }.

(** A stream: the bytes still to come and whether they end in an error. *)
Record FILE := mkFILE { f_left : bytes; f_fails : bool; f_eof : bool; f_error : bool }.

Definition fread (n : Z) (f : FILE) : bytes * FILE :=
  (take (Z.to_nat n) (f_left f),
   if Z.of_nat (length (f_left f)) <? n
   then mkFILE [] (f_fails f) (negb (f_fails f) || f_eof f) (f_fails f || f_error f)
   else mkFILE (drop (Z.to_nat n) (f_left f)) (f_fails f) (f_eof f) (f_error f)).

Class Unix (K : Type) := {
  (** [time::Time::Now()] *)
  sys_now : K → Time * K;
  (** [fork()] in the parent; what the child goes on to do. *)
  sys_fork : program → K → Z * K;
  sys_kill : Z → Z → K → Z * K;
  (** [waitid(P_ALL, 0, &infop, WEXITED | WSTOPPED | WNOHANG)]; [None] is a failure. *)
  sys_waitid : K → option siginfo * K;
  (** [waitpid(pid, &stat, 0)]: the result, the status and [errno]. *)
  sys_waitpid : Z → K → (Z * Z * Z) * K;
  (** [unlink]: 0 or [errno]. *)
  sys_unlink : bytes → K → Z * K;
  sys_link : bytes → bytes → K → Z * K;
  (** [st_mtime], unless [stat] fails. *)
  sys_stat : bytes → K → option Z * K;
  sys_inotify_init1 : K → Z * K;
  sys_inotify_add_watch : Z → bytes → Z → K → Z * K;
  sys_inotify_rm_watch : Z → Z → K → Z * K;
  (** FIONREAD and [read]: their results, the size that is there, and the events. *)
  sys_inotify_read : Z → K → (Z * Z * Z * list inotify_event) * K;
  (** [popen]: what can be read; and, for later, what [pclose] will return. *)
  sys_popen : bytes → K → option (FILE * Z) * K;
  (** [evtimer_add] *)
  sys_evtimer_add : Z * Z → K → Z * K;
  sys_getpid : K → Z;
  sys_sigprocmask : Z → bool → K → Z * K;
  sys_sleep : Time → K → K;
  sys_fopen : bytes → K → bool * K;
  sys_fprintf : bytes → bytes → K → K;
  (** The contents of a file to read, and whether reading fails at its end. *)
  sys_ifstream : bytes → K → option (bytes * bool) * K }.

(** ** The objects *)

Inductive callback := cb_Run | cb_StaticFileModified.

Record FileWatch := mkWatch {
  filename_ : bytes;
  callback_ : callback;
  value_ : option nat;
  create_ : bool;
  check_filename_ : bytes;
  watch_ : Z;
  watch_to_remove_ : Z }.

Record Child := mkChild {
  restarts_ : list Time;
  pid_ : Z;
  args_ : list bytes;
  original_binary_ : bytes;
  binary_ : bytes;
  watcher_ : option nat;
  stat_at_start_ : Z;
  stat_at_start_valid_ : bool }.

(** What a timer of [Timeout] calls. *)
Inductive timer := StaticStart (self : nat) | StaticCheckDied (self : nat) (old_pid : Z).

#[global] Instance timer_eq_dec : EqDecision timer.
Proof. solve_decision. Defined.

Definition kProcessDieTime : Time := mkTime 2 0.
Definition kRestartWaitTime : Time := mkTime 1 500000000.
Definition kMaxRestartsTime : Time := mkTime 4 0.
Definition kMaxRestartsNumber : nat := 3.
Definition kResumeWait : Time := mkTime 5 0.

(** A death that was handled: whose, when it was noticed, when it was decided what
    to do, and whether that was to start the child again at once. *)
Record death := mkDeath { d_child : nat; d_time : Time; d_decided : Time; d_started : bool }.

Section Starter.
Context {K : Type} `{!Unix K}.

(** The order in which a [std::set<Child *>] is walked through. *)
Context (by_address : gset nat → list nat).

(** The globals.  [objects] and [watches] are the heap; [restart_timeout] says
    whether the timer exists and whether it is pending; [timeouts] are the pending
    timers; [deaths] is a history variable that no code reads. *)
Record starter := mkStarter {
  os : K;
  notify_fd : option Z;
  watches : list FileWatch;
  watchers : gmap Z (option nat);
  objects : list Child;
  children : list nat;
  core : option nat;
  restart_timeout : option bool;
  waiting_to_restart : gset nat;
  timeouts : list (Z * Z * timer);
  sigchld : bool;
  deaths : list death }.

Notation MS := (ST starter).

Definition set_os (k : K) (s : starter) : starter :=
  mkStarter k (notify_fd s) (watches s) (watchers s) (objects s) (children s) (core s)
    (restart_timeout s) (waiting_to_restart s) (timeouts s) (sigchld s) (deaths s).
Definition set_notify_fd (fd : option Z) (s : starter) : starter :=
  mkStarter (os s) fd (watches s) (watchers s) (objects s) (children s) (core s)
    (restart_timeout s) (waiting_to_restart s) (timeouts s) (sigchld s) (deaths s).
Definition set_watches (ws : list FileWatch) (s : starter) : starter :=
  mkStarter (os s) (notify_fd s) ws (watchers s) (objects s) (children s) (core s)
    (restart_timeout s) (waiting_to_restart s) (timeouts s) (sigchld s) (deaths s).
Definition set_watchers (m : gmap Z (option nat)) (s : starter) : starter :=
  mkStarter (os s) (notify_fd s) (watches s) m (objects s) (children s) (core s)
    (restart_timeout s) (waiting_to_restart s) (timeouts s) (sigchld s) (deaths s).
Definition set_objects (cs : list Child) (s : starter) : starter :=
  mkStarter (os s) (notify_fd s) (watches s) (watchers s) cs (children s) (core s)
    (restart_timeout s) (waiting_to_restart s) (timeouts s) (sigchld s) (deaths s).
Definition set_children (l : list nat) (s : starter) : starter :=
  mkStarter (os s) (notify_fd s) (watches s) (watchers s) (objects s) l (core s)
    (restart_timeout s) (waiting_to_restart s) (timeouts s) (sigchld s) (deaths s).
Definition set_core (c : option nat) (s : starter) : starter :=
  mkStarter (os s) (notify_fd s) (watches s) (watchers s) (objects s) (children s) c
    (restart_timeout s) (waiting_to_restart s) (timeouts s) (sigchld s) (deaths s).
Definition set_restart_timeout (r : option bool) (s : starter) : starter :=
  mkStarter (os s) (notify_fd s) (watches s) (watchers s) (objects s) (children s) (core s)
    r (waiting_to_restart s) (timeouts s) (sigchld s) (deaths s).
Definition set_waiting (w : gset nat) (s : starter) : starter :=
  mkStarter (os s) (notify_fd s) (watches s) (watchers s) (objects s) (children s) (core s)
    (restart_timeout s) w (timeouts s) (sigchld s) (deaths s).
Definition set_timeouts (t : list (Z * Z * timer)) (s : starter) : starter :=
  mkStarter (os s) (notify_fd s) (watches s) (watchers s) (objects s) (children s) (core s)
    (restart_timeout s) (waiting_to_restart s) t (sigchld s) (deaths s).
Definition set_sigchld (b : bool) (s : starter) : starter :=
  mkStarter (os s) (notify_fd s) (watches s) (watchers s) (objects s) (children s) (core s)
    (restart_timeout s) (waiting_to_restart s) (timeouts s) b (deaths s).
Definition add_death (d : death) (s : starter) : starter :=
  mkStarter (os s) (notify_fd s) (watches s) (watchers s) (objects s) (children s) (core s)
    (restart_timeout s) (waiting_to_restart s) (timeouts s) (sigchld s) (deaths s ++ [d]).

Definition os_call {A} (f : K → A * K) : MS A := λ s, let '(a, k) := f (os s) in Ok (a, set_os k s).

(** A failed CHECK or [LOG(FATAL)] unless [b]. *)
Definition require (b : bool) : MS unit := if b then mret tt else st_stop Fatal.

(** Members through a pointer. *)
Definition get_watch (w : nat) : MS FileWatch := λ s,
  match watches s !! w with Some o => Ok (o, s) | None => Err Undefined end.
Definition upd_watch (w : nat) (f : FileWatch → FileWatch) : MS unit :=
  st_modify (λ s, set_watches (alter f w (watches s)) s).
Definition get_child (c : nat) : MS Child := λ s,
  match objects s !! c with Some o => Ok (o, s) | None => Err Undefined end.
Definition upd_child (c : nat) (f : Child → Child) : MS unit :=
  st_modify (λ s, set_objects (alter f c (objects s)) s).

Definition set_watch (watch to_remove : Z) (o : FileWatch) : FileWatch :=
  mkWatch (filename_ o) (callback_ o) (value_ o) (create_ o) (check_filename_ o) watch to_remove.
Definition set_pid (pid : Z) (o : Child) : Child :=
  mkChild (restarts_ o) pid (args_ o) (original_binary_ o) (binary_ o) (watcher_ o)
    (stat_at_start_ o) (stat_at_start_valid_ o).
Definition set_restarts (l : list Time) (o : Child) : Child :=
  mkChild l (pid_ o) (args_ o) (original_binary_ o) (binary_ o) (watcher_ o)
    (stat_at_start_ o) (stat_at_start_valid_ o).
Definition set_binaries (original binary : bytes) (o : Child) : Child :=
  mkChild (restarts_ o) (pid_ o) (args_ o) original binary (watcher_ o)
    (stat_at_start_ o) (stat_at_start_valid_ o).
Definition set_watcher (w : nat) (o : Child) : Child :=
  mkChild (restarts_ o) (pid_ o) (args_ o) (original_binary_ o) (binary_ o) (Some w)
    (stat_at_start_ o) (stat_at_start_valid_ o).
Definition set_stat (mtime : Z) (o : Child) : Child :=
  mkChild (restarts_ o) (pid_ o) (args_ o) (original_binary_ o) (binary_ o) (watcher_ o) mtime true.

(** ** FileWatch *)

Definition RemoveWatch (this : nat) : MS unit :=
  o ← get_watch this;
  _ ← require (negb (watch_ o =? -1));
  _ ← require (watch_to_remove_ o =? -1);
  s ← st_get;
  _ ← os_call (sys_inotify_rm_watch (default 0 (notify_fd s)) (watch_ o));
  upd_watch this (set_watch (-1) (watch_ o)).

Definition FileWatch_destroy (this : nat) : MS unit :=
  o ← get_watch this;
  if negb (watch_ o =? -1) then RemoveWatch this else mret tt.

(** [Init], through [init_once]. *)
Definition init_once_Get : MS unit :=
  s ← st_get;
  match notify_fd s with
  | Some _ => mret tt
  | None => fd ← os_call sys_inotify_init1; st_modify (set_notify_fd (Some fd))
  end.

(** [watchers[watch]] makes an entry if there is none. *)
Definition RemoveWatchFromMap (this : nat) : MS unit :=
  o ← get_watch this;
  watch ← (if watch_to_remove_ o =? -1
           then _ ← require (negb (watch_ o =? -1)); mret (watch_ o)
           else mret (watch_to_remove_ o));
  s ← st_get;
  let entry := default None (watchers s !! watch) in
  _ ← (if negb (bool_decide (entry = Some this))
       then st_modify (set_watchers (<[watch := entry]> (watchers s)))
       else st_modify (set_watchers (delete watch (watchers s))));
  if watch_to_remove_ o =? -1
  then upd_watch this (set_watch (-1) (watch_to_remove_ o))
  else upd_watch this (set_watch (watch_ o) (-1)).

Definition watch_mask (create : bool) : Z :=
  if create then IN_CREATE
  else Z.lor (Z.lor (Z.lor IN_ATTRIB IN_MODIFY) IN_DELETE_SELF) IN_MOVE_SELF.

Definition CreateWatch (this : nat) : MS unit :=
  o ← get_watch this;
  _ ← require (watch_ o =? -1);
  s ← st_get;
  watch ← os_call (sys_inotify_add_watch (default 0 (notify_fd s)) (filename_ o) (watch_mask (create_ o)));
  _ ← upd_watch this (set_watch watch (watch_to_remove_ o));
  _ ← require (negb (watch =? -1));
  st_modify (λ s, set_watchers (<[watch := Some this]> (watchers s)) s).

Definition FileWatch_new (filename : bytes) (callback : callback) (value : option nat)
    (create : bool) (check_filename : bytes) : MS nat :=
  s ← st_get;
  let this := length (watches s) in
  _ ← st_modify (set_watches
    (watches s ++ [mkWatch filename callback value create check_filename (-1) (-1)]));
  _ ← init_once_Get;
  _ ← CreateWatch this;
  mret this.

Definition WatchDeleted (this : nat) : MS unit :=
  _ ← RemoveWatchFromMap this;
  CreateWatch this.

(** ** RunCommand and Timeout *)

Definition newline : Z := 10.

Definition ends_line (b : bytes) : bool := bool_decide (last b = Some newline).

(** The loop: [result] is what was read, in a buffer of [result_size] bytes. *)
Fixpoint read_output (fuel : nat) (result_size : Z) (result : bytes) (pipe : FILE) : res bytes :=
  match fuel with
  | O => Err Fuel
  | S fuel =>
      let read := Z.of_nat (length result) in
      let result_size := if read =? result_size then u64 (result_size * 2) else result_size in
      let '(data, pipe) := fread (result_size - read) pipe in
      if (Z.of_nat (length data) <? result_size - read) && f_error pipe then Err Fatal
      else
        let result := result ++ data in
        if ends_line result then Ok result
        else if f_eof pipe then Err Fatal
        else read_output fuel result_size result pipe
  end.

(** Up to the first \n, and up to the first \0 of what is left. *)
Fixpoint first_line (b : bytes) : bytes :=
  match b with
  | [] => []
  | c :: b => if (c =? newline) || (c =? 0) then [] else c :: first_line b
  end.

Definition RunCommand (command : bytes) : MS bytes :=
  pipe ← os_call (sys_popen command);
  match pipe with
  | None => st_stop Fatal
  | Some (pipe, child_status) =>
      result ← st_lift (read_output (S (length (f_left pipe))) 128 [] pipe);
      _ ← require (negb (child_status =? -1));
      _ ← require (child_status =? 0);
      mret (first_line result)
  end.

Definition Timeout (time : Time) (callback : timer) : MS unit :=
  r ← os_call (sys_evtimer_add (ToTimeval time));
  _ ← require (r =? 0);
  st_modify (λ s, set_timeouts (timeouts s ++ [(ToTimeval time, callback)]) s).

(** ** Child *)

(** [strchrnul(start, ' ')], over and over. *)
Fixpoint split_args (s : bytes) : list bytes :=
  match s with
  | [] => [[]]
  | c :: s =>
      if c =? 0 then [[]]
      else if c =? 32 then [] :: split_args s
      else match split_args s with a :: l => (c :: a) :: l | [] => [[c]] end
  end.

Definition Start (this : nat) : MS unit :=
  o ← get_child this;
  go ← (if negb (pid_ o =? -1) then
          r ← os_call (sys_kill (pid_ o) SIGKILL);
          if r =? -1 then mret false
          else _ ← upd_child this (set_pid (-1)); mret true
        else mret true);
  if negb go then mret tt
  else
    e ← os_call (sys_unlink (binary_ o));
    _ ← require (negb (negb (e =? 0) && negb (e =? ENOENT)));
    r ← os_call (sys_link (original_binary_ o) (binary_ o));
    _ ← require (r =? 0);
    st ← os_call (sys_stat (original_binary_ o));
    match st with
    | None => st_stop Fatal
    | Some mtime =>
        _ ← upd_child this (set_stat mtime);
        pid ← os_call (sys_fork (Execv (binary_ o) (args_ o)));
        _ ← upd_child this (set_pid pid);
        require (negb (pid =? -1))
    end.

Definition Child_new (command : bytes) : MS nat :=
  s ← st_get;
  let this := length (objects s) in
  let args := split_args command in
  _ ← st_modify (λ s, set_restart_timeout (Some (default false (restart_timeout s))) s);
  _ ← st_modify (λ s, set_objects (objects s ++ [mkChild [] (-1) args [] [] None 0 false]) s);
  original_binary ← RunCommand (chars "which " ++ default [] (args !! 0%nat));
  _ ← upd_child this (set_binaries original_binary (original_binary ++ chars ".stm"));
  w ← FileWatch_new original_binary cb_StaticFileModified (Some this) false [];
  _ ← upd_child this (set_watcher w);
  _ ← Start this;
  mret this.

(** [restarts_] after one more death at [t], and the one that was popped. *)
Definition push_restart (l : list Time) (t : Time) : list Time * option Time :=
  let l := l ++ [t] in
  if (kMaxRestartsNumber <? length l)%nat then (tail l, head l) else (l, None).

Definition ProcessDied (this : nat) : MS unit :=
  _ ← upd_child this (set_pid (-1));
  now ← os_call sys_now;
  o ← get_child this;
  let '(restarts, popped) := push_restart (restarts_ o) now in
  _ ← upd_child this (set_restarts restarts);
  '(decided, too_often) ←
    (match popped with
     | Some oldest =>
         now ← os_call sys_now;
         d ← st_lift (Time_sub now oldest);
         mret (now, Time_leb d kMaxRestartsTime)
     | None => mret (now, false)
     end);
  _ ← st_modify (add_death (mkDeath this now decided (negb too_often)));
  if (too_often : bool) then Timeout kResumeWait (StaticStart this) else Start this.

Definition FileModified (this : nat) : MS unit :=
  r ← os_call (sys_evtimer_add (ToTimeval kRestartWaitTime));
  _ ← require (r =? 0);
  _ ← st_modify (λ s, set_restart_timeout (const true <$> restart_timeout s) s);
  st_modify (λ s, set_waiting (waiting_to_restart s ∪ {[this]}) s).

Definition DoRestart (this : nat) : MS unit :=
  o ← get_child this;
  changed ← (if stat_at_start_valid_ o then
               st ← os_call (sys_stat (original_binary_ o));
               match st with
               | None => st_stop Fatal
               | Some mtime => mret (negb (mtime =? stat_at_start_ o))
               end
             else mret true);
  if negb changed then mret tt
  else
    s ← st_get;
    if bool_decide (core s = Some this) then st_stop Abort
    else if negb (pid_ o =? -1) then
      _ ← os_call (sys_kill (pid_ o) SIGTERM);
      Timeout kProcessDieTime (StaticCheckDied this (pid_ o))
    else mret tt.

Fixpoint DoRestart_all (l : list nat) : MS unit :=
  match l with [] => mret tt | c :: l => _ ← DoRestart c; DoRestart_all l end.

Definition StaticDoRestart : MS unit :=
  s ← st_get;
  _ ← (match core s with
       | Some c => if bool_decide (c ∈ waiting_to_restart s)
                   then _ ← DoRestart c; st_modify (λ s, set_waiting (waiting_to_restart s ∖ {[c]}) s)
                   else mret tt
       | None => mret tt
       end);
  s ← st_get;
  _ ← DoRestart_all (by_address (waiting_to_restart s));
  st_modify (set_waiting ∅).

Definition CheckDied (this : nat) (old_pid : Z) : MS unit :=
  o ← get_child this;
  if pid_ o =? old_pid then _ ← os_call (sys_kill old_pid SIGKILL); mret tt else mret tt.

(** ** Signals *)

Definition kNiceWaitTime : Time := mkTime 1 0.

Definition KillChildren (try_nice : bool) : MS unit :=
  s ← st_get;
  _ ← (if try_nice then
         _ ← os_call (sys_sigprocmask SIGTERM true);
         _ ← os_call (sys_kill (- sys_getpid (os s)) SIGTERM);
         os_call (λ k, (tt, sys_sleep kNiceWaitTime k))
       else mret tt);
  _ ← os_call (sys_kill (- sys_getpid (os s)) SIGKILL);
  mret tt.

Definition ExitHandler : MS unit := KillChildren true.

Definition KillChildrenSignalHandler (signum : Z) : MS unit :=
  KillChildren (bool_decide (signum ∈ [SIGHUP; SIGINT; SIGQUIT; SIGABRT; SIGPIPE; SIGTERM; SIGXCPU])).

Fixpoint find_pid (pid : Z) (l : list nat) : MS (option nat) :=
  match l with
  | [] => mret None
  | c :: l => o ← get_child c; if pid =? pid_ o then mret (Some c) else find_pid pid l
  end.

Definition FindChild (pid : Z) : MS (option nat) :=
  s ← st_get;
  r ← find_pid pid (children s);
  match r with
  | Some c => mret (Some c)
  | None =>
      match core s with
      | None => st_stop Undefined
      | Some c => o ← get_child c; mret (if pid =? pid_ o then Some c else None)
      end
  end.

(** One turn of the loop: whether there is another one. *)
Definition sigchld_turn : MS bool :=
  r ← os_call sys_waitid;
  match r with
  | None => mret true
  | Some infop =>
      if si_pid infop =? 0 then mret false
      else
        child ← FindChild (si_pid infop);
        match child with
        | None => mret false
        | Some c =>
            match si_code_ infop with
            | CLD_EXITED | CLD_DUMPED | CLD_KILLED =>
                s ← st_get;
                _ ← require (negb (bool_decide (core s = Some c)));
                _ ← ProcessDied c;
                mret true
            | CLD_STOPPED => _ ← os_call (sys_kill (si_pid infop) SIGCONT); mret true
            | CLD_OTHER => _ ← os_call (sys_kill (si_pid infop) SIGKILL); mret true
            end
        end
  end.

Fixpoint SigCHLDReceived (fuel : nat) : MS unit :=
  match fuel with
  | O => st_stop Fuel
  | S fuel => again ← sigchld_turn; if (again : bool) then SigCHLDReceived fuel else mret tt
  end.

(** ** Main and Run *)

(** The lines that end in \n. *)
Fixpoint complete_lines (cur s : bytes) : list bytes :=
  match s with
  | [] => []
  | c :: s => if c =? newline then cur :: complete_lines [] s else complete_lines (cur ++ [c]) s
  end.

Fixpoint start_children (l : list bytes) : MS unit :=
  match l with
  | [] => mret tt
  | name :: l =>
      c ← Child_new name;
      _ ← st_modify (λ s, set_children (children s ++ [c]) s);
      start_children l
  end.

Context (child_list_file : bytes).

(** [aos::InitNRT] attaches to the shared memory and touches nothing here. *)
Definition Run (watch : nat) : MS unit :=
  _ ← RemoveWatch watch;
  file ← os_call (sys_ifstream child_list_file);
  match file with
  | None => st_stop Fatal
  | Some (contents, fails) =>
      _ ← start_children (complete_lines [] contents);
      _ ← require (negb fails);
      st_modify (set_sigchld true)
  end.

(** The callback gets the object itself if [value_] is NULL. *)
Definition run_callback (this : nat) (o : FileWatch) : MS unit :=
  match callback_ o, value_ o with
  | cb_Run, None => Run this
  | cb_StaticFileModified, Some c => FileModified c
  | _, _ => st_stop Undefined
  end.

Definition FileNotified (this : nat) (filename : option bytes) : MS unit :=
  o ← get_watch this;
  _ ← require (negb (watch_ o =? -1));
  match check_filename_ o with
  | [] => run_callback this o
  | _ :: _ =>
      match filename with
      | None => mret tt
      | Some f => if bool_decide (f = check_filename_ o) then run_callback this o else mret tt
      end
  end.

Definition notify (e : inotify_event) : MS unit :=
  s ← st_get;
  match watchers s !! ie_wd e with
  | None => mret tt
  | Some None => st_stop Undefined
  | Some (Some w) =>
      if negb (Z.land (ie_mask e) IN_IGNORED =? 0) then WatchDeleted w
      else FileNotified w (ie_name e)
  end.

Fixpoint notify_all (l : list inotify_event) : MS unit :=
  match l with [] => mret tt | e :: l => _ ← notify e; notify_all l end.

Definition INotifyReadable : MS unit :=
  s ← st_get;
  '(fionread, to_read, ret, events) ← os_call (sys_inotify_read (default 0 (notify_fd s)));
  _ ← require (negb (fionread <? 0));
  _ ← require (negb (ret <? 0));
  if negb (u64 ret =? to_read) then mret tt else notify_all events.

(** aos::util::RunCommand; [eintr] is how often [waitpid] may be interrupted. *)
Fixpoint wait_for (eintr : nat) (pid : Z) : MS Z :=
  match eintr with
  | O => st_stop Fuel
  | S eintr =>
      '(r, stat, errno) ← os_call (sys_waitpid pid);
      if r =? -1 then (if negb (errno =? 4) then mret (-1) else wait_for eintr pid) else mret stat
  end.

Definition util_RunCommand (eintr : nat) (command : bytes) : MS Z :=
  r ← os_call (sys_sigprocmask SIGCHLD true);
  _ ← require (negb (r =? -1));
  pid ← os_call (sys_fork (Shell command));
  result ← (if pid =? -1 then mret (-1) else wait_for eintr pid);
  r ← os_call (sys_sigprocmask SIGCHLD false);
  _ ← require (negb (r =? -1));
  mret result.

Definition WIFEXITED (status : Z) : bool := Z.land status 0x7f =? 0.
Definition WEXITSTATUS (status : Z) : Z := Z.shiftr (Z.land status 0xff00) 8.

Definition core_touch_file (pid : Z) : bytes :=
  chars "/tmp/starter." ++ decimal pid ++ chars ".core_touch_file".

(** Up to [event_base_dispatch]. *)
Definition Main (eintr : nat) : MS unit :=
  s ← st_get;
  let file := core_touch_file (sys_getpid (os s)) in
  result ← util_RunCommand eintr (chars "touch '" ++ file ++ chars "'");
  _ ← require (negb (result =? -1));
  _ ← require (WIFEXITED result && (WEXITSTATUS result =? 0));
  _ ← FileWatch_new file cb_Run None false [];
  c ← Child_new (chars "core " ++ file);
  _ ← st_modify (set_core (Some c));
  pid_file ← os_call (sys_fopen (chars "/tmp/starter.pid"));
  _ ← require pid_file;
  o ← get_child c;
  os_call (λ k, (tt, sys_fprintf (chars "/tmp/starter.pid") (decimal (pid_ o)) k)).

Definition starter_init (k : K) : starter :=
  mkStarter k None [] ∅ [] [] None None ∅ [] false [].

(** ** The event loop *)

Inductive event := EvINotify | EvTimeout (i : nat) | EvRestart | EvSigchld (fuel : nat).

(** A timer is taken off before its callback runs. *)
Definition run_timeout (i : nat) : MS unit :=
  s ← st_get;
  match timeouts s !! i with
  | None => st_stop Undefined
  | Some (_, t) =>
      _ ← st_modify (set_timeouts (delete i (timeouts s)));
      match t with
      | StaticStart c => Start c
      | StaticCheckDied c old_pid => CheckDied c old_pid
      end
  end.

Definition dispatch (e : event) : MS unit :=
  match e with
  | EvINotify => INotifyReadable
  | EvTimeout i => run_timeout i
  | EvRestart => _ ← st_modify (λ s, set_restart_timeout (const false <$> restart_timeout s) s); StaticDoRestart
  | EvSigchld fuel => SigCHLDReceived fuel
  end.

(** What libevent may call: handlers of events that are registered. *)
Definition ready (s : starter) (e : event) : Prop :=
  match e with
  | EvINotify => is_Some (notify_fd s)
  | EvTimeout i => (i < length (timeouts s))%nat
  | EvRestart => restart_timeout s = Some true
  | EvSigchld _ => sigchld s = true
  end.
End Starter.

Arguments starter : clear implicits.
Arguments starter_init {K} _.
Arguments set_os {K} _ _.
