(* ===== verification/StarterProofs.v ===== *)
(** * The starter: every child is supervised

    The laws of the operating system the starter relies on, the invariant of its
    objects, and that every handler keeps it. *)

From Stdlib Require Import Sorted.
From S2P Require Import Prelude SharedMem ByteOrder QueueTypes Time TimeProofs Serial Starter.

(** ** Laws of the system calls *)

Definition good_time (t : Time) : Prop := valid t ∧ 0 ≤ ToNSec t < (2 ^ 31 - 1) * G.

(** [procs]: the processes that were forked and not waited for; [clock]: the time;
    [stops]: how many more times a process will be reported as stopped before the
    handler that is running returns. *)
Class UnixLaws (K : Type) `{!Unix K} := {
  procs : K → gset Z;
  clock : K → Z;
  stops : K → nat;
  (** What no call but [fork] and the two that wait changes. *)
  quiet (k k' : K) : Prop := procs k' = procs k ∧ clock k ≤ clock k' ∧ (stops k' ≤ stops k)%nat;
  u_now k : good_time (sys_now k).1 ∧ clock k ≤ ToNSec (sys_now k).1 ≤ clock (sys_now k).2 ∧
    quiet k (sys_now k).2;
  u_fork p k : ((sys_fork p k).1 = -1 ∧ quiet k (sys_fork p k).2) ∨
    (0 < (sys_fork p k).1 ∧ (sys_fork p k).1 ∉ procs k ∧
     procs (sys_fork p k).2 = procs k ∪ {[(sys_fork p k).1]} ∧
     clock k ≤ clock (sys_fork p k).2 ∧ (stops (sys_fork p k).2 ≤ stops k)%nat);
  (** [waitid] fails only if there is no child; the process whose end it reports is gone. *)
  u_waitid k : let '(r, k') := sys_waitid k in clock k ≤ clock k' ∧
    match r with
    | None => procs k = ∅ ∧ quiet k k'
    | Some i =>
        (si_pid i = 0 ∧ quiet k k') ∨
        (0 < si_pid i ∧ si_pid i ∈ procs k ∧
         if match si_code_ i with CLD_EXITED | CLD_KILLED | CLD_DUMPED => true | _ => false end
         then procs k' = procs k ∖ {[si_pid i]} ∧ (stops k' ≤ stops k)%nat
         else procs k' = procs k ∧ (stops k' < stops k)%nat)
    end;
  u_waitpid pid k : if (sys_waitpid pid k).1.1.1 =? -1 then quiet k (sys_waitpid pid k).2
    else procs (sys_waitpid pid k).2 = procs k ∖ {[pid]} ∧
      clock k ≤ clock (sys_waitpid pid k).2 ∧ (stops (sys_waitpid pid k).2 ≤ stops k)%nat;
  u_kill p sig k : quiet k (sys_kill p sig k).2;
  u_unlink f k : quiet k (sys_unlink f k).2;
  u_link f g k : quiet k (sys_link f g k).2;
  u_stat f k : quiet k (sys_stat f k).2;
  u_inotify_init1 k : quiet k (sys_inotify_init1 k).2;
  u_add_watch fd f m k : quiet k (sys_inotify_add_watch fd f m k).2;
  u_rm_watch fd w k : quiet k (sys_inotify_rm_watch fd w k).2;
  u_inotify_read fd k : quiet k (sys_inotify_read fd k).2;
  u_popen c k : quiet k (sys_popen c k).2;
  (** A new stream; what a command prints fits into memory. *)
  u_popen_new c k f st : (sys_popen c k).1 = Some (f, st) →
    f_eof f = false ∧ f_error f = false ∧ Z.of_nat (length (f_left f)) < 2 ^ 62;
  u_evtimer_add t k : quiet k (sys_evtimer_add t k).2;
  u_sigprocmask n b k : quiet k (sys_sigprocmask n b k).2;
  u_sleep t k : quiet k (sys_sleep t k);
  u_fopen f k : quiet k (sys_fopen f k).2;
  u_fprintf f t k : quiet k (sys_fprintf f t k);
  u_ifstream f k : quiet k (sys_ifstream f k).2 }.

#[export] Hint Resolve u_kill u_unlink u_link u_stat u_inotify_init1 u_add_watch u_rm_watch
  u_inotify_read u_popen u_evtimer_add u_sigprocmask u_sleep u_fopen u_fprintf u_ifstream : aos.

(** ** Rules *)

Definition lawful (e : stop) : Prop := match e with Fatal | Abort => True | _ => False end.

Section Rules.
Context {K : Type} `{!Unix K}.
Implicit Types s : starter K.

Lemma wpe_os {A} E (f : K → A * K) (Q : A → starter K → Prop) s :
  Q (f (os s)).1 (set_os (f (os s)).2 s) → wpe E (os_call f) Q s.
Proof. unfold wpe, os_call. by destruct (f (os s)). Qed.

Lemma wpe_require (E : stop → Prop) b (Q : unit → starter K → Prop) s :
  E Fatal → (b = true → Q tt s) → wpe E (require b) Q s.
Proof. destruct b; [|done]. intros _ H. by apply H. Qed.

Lemma wpe_modify E (f : starter K → starter K) (Q : unit → starter K → Prop) s :
  Q tt (f s) → wpe E (st_modify f) Q s.
Proof. done. Qed.

Lemma wpe_child E c o (Q : Child → starter K → Prop) s :
  objects s !! c = Some o → Q o s → wpe E (get_child c) Q s.
Proof. unfold wpe, get_child. by intros ->. Qed.

Lemma wpe_watch E w o (Q : FileWatch → starter K → Prop) s :
  watches s !! w = Some o → Q o s → wpe E (get_watch w) Q s.
Proof. unfold wpe, get_watch. by intros ->. Qed.
End Rules.

(** One step of the program. *)
Ltac wstep :=
  match goal with
  | |- wpe _ (_ ≫= _) _ _ => apply wpe_bind
  | |- wpe _ (mret _) _ _ => apply wpe_ret
  | |- wpe _ (os_call _) _ _ => apply wpe_os
  | |- wpe _ (require _) _ _ => let H := fresh "Hreq" in apply wpe_require; [by repeat left|intros H]
  | |- wpe _ (st_modify _) _ _ => apply wpe_modify
  | |- wpe _ (upd_child _ _) _ _ => apply wpe_modify
  | |- wpe _ (upd_watch _ _) _ _ => apply wpe_modify
  | |- wpe _ st_get _ _ => apply wpe_get
  | |- wpe _ (st_stop _) _ _ => apply wpe_stop; by repeat left
  end; cbn beta.
Ltac wsteps := repeat wstep.

(** ** The invariant *)

(** The last three. *)
Definition last3 {A} (l : list A) : list A := drop (length l - 3) l.

Definition of_child (c : nat) (l : list death) : list death := filter (λ d, d_child d = c) l.

Definition start_count (c : nat) (l : list (Z * Z * timer)) : nat :=
  length (filter (λ t, t.2 = StaticStart c) l).

#[global] Arguments of_child : simpl never.
#[global] Arguments start_count : simpl never.

Definition timer_child (t : timer) : nat :=
  match t with StaticStart c => c | StaticCheckDied c _ => c end.

(** A death is followed by a start at once unless the third death before it was
    noticed at most four seconds ago. *)
Definition throttled (l : list death) : Prop := ∀ i d, l !! i = Some d →
  d_started d = match l !! (i - 3)%nat with
                | Some d0 => if (i <? 3)%nat then true
                             else bool_decide (4 * G < ToNSec (d_decided d) - ToNSec (d_time d0))
                | None => true
                end.

(** Times that were read in this order, up to [now]. *)
Definition times_ok (now : Z) (l : list Time) : Prop :=
  Forall (λ t, good_time t ∧ ToNSec t ≤ now) l ∧ StronglySorted (λ t u, ToNSec t ≤ ToNSec u) l.

Lemma times_later now now' l : now ≤ now' → times_ok now l → times_ok now' l.
Proof.
  intros H [Hf Hs]. split; [|done]. eapply Forall_impl; [exact Hf|]. cbn. intros t [? ?]. split; [done|lia].
Qed.

Section Invariant.
Context {K : Type} `{!Unix K} `{!UnixLaws K}.
Implicit Types (s : starter K) (c w : nat) (o : Child).

(** A child runs, or will be started by a timer, or ([X]) is being started. *)
Definition child_ok (X : option nat) s c o : Prop :=
  (0 < pid_ o ∧ pid_ o ∈ procs (os s) ∧ start_count c (timeouts s) = 0%nat ∧ X ≠ Some c) ∨
  (pid_ o = -1 ∧ start_count c (timeouts s) = (if decide (X = Some c) then 0 else 1)%nat).

Definition watch_ok s (o : FileWatch) : Prop :=
  (watch_to_remove_ o ≠ -1 → watch_ o = -1) ∧
  match callback_ o, value_ o with
  | cb_Run, None => True
  | cb_StaticFileModified, Some c => (c < length (objects s))%nat
  | _, _ => False
  end.

(** [X] is being started, [Y] is not in [children] yet, [C] is the value of [core]. *)
Record inv (C X Y : option nat) s : Prop := {
  i_child c o : objects s !! c = Some o → child_ok X s c o;
  i_inj c1 c2 o1 o2 : objects s !! c1 = Some o1 → objects s !! c2 = Some o2 →
    pid_ o1 = pid_ o2 → pid_ o1 ≠ -1 → c1 = c2;
  i_procs p : p ∈ procs (os s) → 0 < p ∧ ∃ c o, objects s !! c = Some o ∧ pid_ o = p;
  i_core : core s = C;
  i_core_runs c : core s = Some c → ∃ o, objects s !! c = Some o ∧ 0 < pid_ o;
  i_children : Forall (λ c, c < length (objects s))%nat (children s);
  i_listed c : (c < length (objects s))%nat → c ∈ children s ∨ core s = Some c ∨ Y = Some c;
  i_waiting c : c ∈ waiting_to_restart s → (c < length (objects s))%nat;
  i_timers : Forall (λ t, timer_child t.2 < length (objects s))%nat (timeouts s);
  i_watches : Forall (watch_ok s) (watches s);
  i_watchers wd e : watchers s !! wd = Some e → wd ≠ -1 ∧ ∃ w (o : FileWatch), e = Some w ∧ watches s !! w = Some o ∧
    (if watch_to_remove_ o =? -1 then watch_ o else watch_to_remove_ o) = wd;
  i_hist c o : objects s !! c = Some o → restarts_ o = last3 (d_time <$> of_child c (deaths s));
  i_times c : times_ok (clock (os s)) (d_time <$> of_child c (deaths s));
  i_deaths : Forall (λ d, d_child d < length (objects s))%nat (deaths s);
  i_throttled c : throttled (of_child c (deaths s)) }.

(** Time passes, processes change state. *)
Definition keeps (k k' : K) : Prop := procs k' = procs k ∧ clock k ≤ clock k'.

Lemma quiet_keeps k k' : quiet k k' → keeps k k'.
Proof. intros (? & ? & ?). by split. Qed.

Lemma inv_os C X Y s k : keeps (os s) k → inv C X Y s → inv C X Y (set_os k s).
Proof.
  intros [Hp Hc] []. split; cbn; try done.
  - intros c o Ho. unfold child_ok. cbn. rewrite Hp. by apply i_child0.
  - by rewrite Hp.
  - intros c. by eapply times_later, i_times0.
Qed.

(** Fields that the invariant does not look at. *)
Lemma inv_update C X Y s c f :
  (∀ o, pid_ (f o) = pid_ o ∧ restarts_ (f o) = restarts_ o) →
  inv C X Y s → inv C X Y (set_objects (alter f c (objects s)) s).
Proof.
  intros Hf []. 
  assert (Hl : ∀ c' o, alter f c (objects s) !! c' = Some o →
    ∃ o', objects s !! c' = Some o' ∧ pid_ o = pid_ o' ∧ restarts_ o = restarts_ o').
  { intros c' o H. destruct (decide (c = c')) as [<-|Hn].
    - rewrite list_lookup_alter_eq in H. apply fmap_Some in H as (o' & ? & ->). exists o'. naive_solver.
    - rewrite list_lookup_alter_ne in H by done. eauto. }
  split; cbn; try rewrite length_alter; try done.
  - intros c' o H. apply Hl in H as (o' & H & Hp & _). unfold child_ok. cbn. rewrite Hp. by apply i_child0.
  - intros c1 c2 o1 o2 H1 H2. apply Hl in H1 as (o1' & H1 & -> & _). apply Hl in H2 as (o2' & H2 & -> & _). eauto.
  - intros p Hin. destruct (i_procs0 p Hin) as (? & c' & o & Ho & <-). split; [done|]. destruct (decide (c = c')) as [<-|Hn].
    + exists c, (f o). rewrite list_lookup_alter_eq, Ho. split; [done|]. apply Hf.
    + exists c', o. by rewrite list_lookup_alter_ne.
  - intros c' Hc'. destruct (i_core_runs0 c' Hc') as (o & Ho & Hpos). destruct (decide (c = c')) as [<-|Hn].
    + exists (f o). rewrite list_lookup_alter_eq, Ho. split; [done|]. by rewrite (proj1 (Hf o)).
    + exists o. by rewrite list_lookup_alter_ne.
  - eapply Forall_impl; [exact i_watches0|]. intros o [? Hm]. split; [done|]. cbn. by rewrite length_alter.
  - intros c' o H. apply Hl in H as (o' & H & _ & ->). eauto.
Qed.
Lemma inv_quiet C X Y s k : quiet (os s) k → inv C X Y s → inv C X Y (set_os k s).
Proof. intros. by apply inv_os; [apply quiet_keeps|]. Qed.

(** ** Starting a process *)

(** What a handler may do to the object [c], to the other objects and to the system. *)
Record touches (c : nat) s s' : Prop := {
  t_other c' : c' ≠ c → objects s' !! c' = objects s !! c';
  t_restarts : restarts_ <$> objects s' !! c = restarts_ <$> objects s !! c;
  t_clock : clock (os s) ≤ clock (os s');
  t_stops : (stops (os s') ≤ stops (os s))%nat }.

Lemma touches_refl c s : touches c s s.
Proof. by split. Qed.

(** Fields that do not matter. *)
Lemma touches_same c s s' : os s' = os s → objects s' = objects s → touches c s s'.
Proof. intros E1 E2. by split; rewrite ?E1, ?E2. Qed.

Lemma touches_trans c s1 s2 s3 : touches c s1 s2 → touches c s2 s3 → touches c s1 s3.
Proof.
  intros [] []. split; [|congruence|lia|lia]. intros c' Hc'.
  rewrite t_other1 by done. by apply t_other0.
Qed.

Lemma touches_os c s k : clock (os s) ≤ clock k → (stops k ≤ stops (os s))%nat → touches c s (set_os k s).
Proof. by split. Qed.

Lemma touches_update c s f : (∀ o, restarts_ (f o) = restarts_ o) →
  touches c s (set_objects (alter f c (objects s)) s).
Proof.
  intros Hf. split; cbn; [|rewrite list_lookup_alter_eq|lia|lia].
  - intros. by rewrite list_lookup_alter_ne.
  - destruct (objects s !! c); [|done]. cbn. by rewrite Hf.
Qed.

(** The object [c] changes, with the system and the history. *)
Definition change (f : Child → Child) c (k : K) (ds : list death) s : starter K :=
  mkStarter k (notify_fd s) (watches s) (watchers s) (alter f c (objects s)) (children s) (core s)
    (restart_timeout s) (waiting_to_restart s) (timeouts s) (sigchld s) ds.

Lemma inv_change C X X' Y s f c o k ds :
  inv C X Y s → objects s !! c = Some o → clock (os s) ≤ clock k →
  (** the object *)
  child_ok X' (change f c k ds s) c (f o) →
  (core s = Some c → 0 < pid_ (f o)) →
  restarts_ (f o) = last3 (d_time <$> of_child c ds) → times_ok (clock k) (d_time <$> of_child c ds) →
  (** the others *)
  (∀ c' o', c' ≠ c → objects s !! c' = Some o' → child_ok X s c' o' → child_ok X' (change f c k ds s) c' o') →
  (∀ c' o', c' ≠ c → objects s !! c' = Some o' → pid_ o' = pid_ (f o) → pid_ o' = -1) →
  (** the system *)
  (∀ p, p ∈ procs k → (p = pid_ (f o) ∧ 0 < p) ∨ (p ∈ procs (os s) ∧ p ≠ pid_ o)) →
  (** the history *)
  (∀ c', c' ≠ c → of_child c' ds = of_child c' (deaths s)) →
  Forall (λ d, d_child d < length (objects s))%nat ds → throttled (of_child c ds) →
  inv C X' Y (change f c k ds s).
Proof.
  intros [] Ho Hclk Hok Hcore Hr Ht Hother Hpid Hprocs Hds Hdl Hth.
  assert (Hl : ∀ c' o', alter f c (objects s) !! c' = Some o' →
    (c' = c ∧ o' = f o) ∨ (c' ≠ c ∧ objects s !! c' = Some o')).
  { intros c' o' H. destruct (decide (c = c')) as [<-|Hn].
    - rewrite list_lookup_alter_eq, Ho in H. injection H as <-. by left.
    - rewrite list_lookup_alter_ne in H by done. by right. }
  split; cbn; try rewrite length_alter; try done.
  - intros c' o' [[-> ->]|[Hn H]]%Hl; [done|]. apply Hother; eauto.
  - intros c1 c2 o1 o2 [[-> ->]|[Hn1 H1]]%Hl [[-> ->]|[Hn2 H2]]%Hl E Hne; [done| | |by eauto].
    + exfalso. apply Hne. rewrite E. by eapply Hpid.
    + exfalso. apply Hne. by eapply Hpid.
  - intros p [[-> ?]|[Hp Hne]]%Hprocs; (split; [try done|]).
    + exists c, (f o). by rewrite list_lookup_alter_eq, Ho.
    + by apply i_procs0.
    + destruct (i_procs0 p Hp) as (? & c' & o' & H & <-). exists c', o'. split; [|done].
      rewrite list_lookup_alter_ne; [done|]. intros <-. rewrite Ho in H. by injection H as <-.
  - intros c' Hc'. destruct (decide (c = c')) as [<-|Hn].
    + exists (f o). rewrite list_lookup_alter_eq, Ho. split; [done|by apply Hcore].
    + destruct (i_core_runs0 c' Hc') as (o' & ? & ?). exists o'. by rewrite list_lookup_alter_ne.
  - eapply Forall_impl; [exact i_watches0|]. intros x [? Hm]. split; [done|]. cbn. by rewrite length_alter.
  - intros c' o' [[-> ->]|[Hn H]]%Hl; [done|]. rewrite Hds by done. eauto.
  - intros c'. destruct (decide (c' = c)) as [->|Hn]; [done|]. rewrite Hds by done. by eapply times_later, i_times0.
  - intros c'. destruct (decide (c' = c)) as [->|Hn]; [done|]. rewrite Hds by done. apply i_throttled0.
Qed.

(** The pid that [fork] returned goes into the object that is being started. *)
Lemma inv_forked C Y s c o pid k :
  inv C (Some c) Y s → objects s !! c = Some o → 0 < pid → pid ∉ procs (os s) →
  procs k = procs (os s) ∪ {[pid]} → clock (os s) ≤ clock k →
  inv C None Y (set_objects (alter (set_pid pid) c (objects s)) (set_os k s)).
Proof.
  intros I Ho Hpos Hnew Hp Hc. pose proof I as [].
  assert (Hpid : pid_ o = -1 ∧ start_count c (timeouts s) = 0%nat).
  { destruct (i_child0 c o Ho) as [(_ & _ & _ & ?)|[? Hc0]]; [done|]. by rewrite decide_True in Hc0. }
  apply (inv_change C (Some c) None Y s (set_pid pid) c o k (deaths s)); try done.
  - left. cbn. rewrite Hp. set_solver.
  - exact (i_hist0 c o Ho).
  - exact (times_later _ _ _ Hc (i_times0 c)).
  - intros c' o' Hn H [(? & ? & ? & _)|[? Hs]]; [left|right]; cbn.
    + rewrite Hp. set_solver.
    + split; [done|]. rewrite decide_False in Hs by congruence. by rewrite decide_False.
  - intros c' o' Hn H E. destruct (i_child0 c' o' H) as [(_ & ? & _)|[? _]]; [|done]. cbn in E. congruence.
  - intros p. rewrite Hp. intros [Hi| ->%elem_of_singleton]%elem_of_union; [right|by left].
    split; [done|]. destruct (i_procs0 p Hi). lia.
Qed.

(** The process of [c] was waited for. *)
Lemma inv_died C Y s c o k :
  inv C None Y s → objects s !! c = Some o → 0 < pid_ o → core s ≠ Some c →
  procs k = procs (os s) ∖ {[pid_ o]} → clock (os s) ≤ clock k →
  inv C (Some c) Y (set_objects (alter (set_pid (-1)) c (objects s)) (set_os k s)).
Proof.
  intros I Ho Hpos Hcore Hp Hc. pose proof I as [].
  apply (inv_change C None (Some c) Y s (set_pid (-1)) c o k (deaths s)); try done.
  - right. split; [done|]. rewrite decide_True by done.
    by destruct (i_child0 c o Ho) as [(_ & _ & ? & _)|[? _]]; [|lia].
  - exact (i_hist0 c o Ho).
  - exact (times_later _ _ _ Hc (i_times0 c)).
  - intros c' o' Hn H [(? & ? & ? & _)|[? Hs]]; [left|right]; cbn.
    + split_and!; [done| |done|congruence]. rewrite Hp. apply elem_of_difference. split; [done|].
      intros E%elem_of_singleton. apply Hn. eapply i_inj0; [done|done|done|lia].
    + split; [done|]. rewrite decide_False in Hs by done. by rewrite decide_False by congruence.
  - intros p. rewrite Hp. set_solver.
Qed.
End Invariant.
