(* ===== verification/StarterDeaths.v ===== *)
(** * The starter: every handler keeps the invariant *)

From Stdlib Require Import Sorted.
From S2P Require Import Prelude SharedMem ByteOrder QueueTypes Time TimeProofs Serial Starter StarterProofs.

Section Handlers.
Context {K : Type} `{!Unix K} `{!UnixLaws K}.
Implicit Types (s : starter K) (c w : nat) (o : Child) (C X Y : option nat).

Lemma quiet_touches c s k : quiet (os s) k → touches c s (set_os k s).
Proof. intros (? & ? & ?). by apply touches_os. Qed.

(** The stages of [Start] before [fork]: calls, and fields that do not matter. *)
Definition stage C X Y c s s' : Prop :=
  inv C X Y s' ∧ touches c s s' ∧ is_Some (objects s' !! c).

Lemma stage_os C X Y c s s' k : stage C X Y c s s' → quiet (os s') k → stage C X Y c s (set_os k s').
Proof.
  intros (? & ? & ?) ?. split_and!; [by apply inv_quiet| |done].
  eapply touches_trans; [done|by apply quiet_touches].
Qed.

Lemma stage_update C X Y c s s' f :
  (∀ o, pid_ (f o) = pid_ o ∧ restarts_ (f o) = restarts_ o) → stage C X Y c s s' →
  stage C X Y c s (set_objects (alter f c (objects s')) s').
Proof.
  intros Hf (? & ? & [o Ho]). split_and!; [by apply inv_update| |].
  - eapply touches_trans; [done|apply touches_update]. intros. apply Hf.
  - cbn. rewrite list_lookup_alter_eq, Ho. eauto.
Qed.

Lemma Start_ok C Y c o s :
  inv C (Some c) Y s → objects s !! c = Some o →
  wpe lawful (Start c) (λ _ s', inv C None Y s' ∧ touches c s s' ∧
    ∃ o', objects s' !! c = Some o' ∧ 0 < pid_ o') s.
Proof.
  intros I Ho. assert (Hpid : pid_ o = -1).
  { destruct (i_child _ _ _ _ I c o Ho) as [(_ & _ & _ & ?)|[? _]]; done. }
  assert (St : stage C (Some c) Y c s s) by (split_and!; eauto using touches_refl).
  unfold Start. wstep. eapply wpe_child; [done|]. rewrite Hpid. cbn [Z.eqb negb Pos.eqb].
  do 2 wstep. cbn [negb]. do 2 wstep. set (s1 := set_os _ s).
  assert (stage C (Some c) Y c s s1) as S1 by (apply stage_os; eauto with aos). clearbody s1.
  do 4 wstep. set (s2 := set_os _ s1).
  assert (stage C (Some c) Y c s s2) as S2 by (apply stage_os; eauto with aos). clearbody s2.
  do 4 wstep. destruct (sys_stat _ _) as [[mtime|] k3] eqn:E3; [|by apply wpe_stop]. cbn [fst snd].
  assert (stage C (Some c) Y c s (set_os k3 s2)) as S3.
  { apply stage_os; [done|]. change k3 with (Some mtime, k3).2. rewrite <-E3. apply u_stat. }
  do 2 wstep. set (s4 := set_objects _ _).
  assert (stage C (Some c) Y c s s4) as (I4 & T4 & [o4 Ho4]).
  { by apply (stage_update C (Some c) Y c s (set_os k3 s2) (set_stat mtime)). }
  clearbody s4. do 2 wstep. destruct (sys_fork _ _) as [pid k5] eqn:E5. cbn [fst snd]. do 3 wstep.
  pose proof (u_fork (Execv (binary_ o) (args_ o)) (os s4)) as Hf. rewrite E5 in Hf. cbn [fst snd] in Hf.
  destruct Hf as [[-> _]|(Hpos & Hnew & Hp & Hc & Hs)]; [done|]. split_and!.
  - by apply (inv_forked C Y s4 c o4 pid k5).
  - eapply touches_trans; [done|]. eapply touches_trans; [by apply (touches_os c s4 k5)|].
    by apply (touches_update c (set_os k5 s4) (set_pid pid)).
  - exists (set_pid pid o4). cbn. by rewrite list_lookup_alter_eq, Ho4.
Qed.

(** ** Timers *)

Lemma start_count_app c l1 l2 : start_count c (l1 ++ l2) = (start_count c l1 + start_count c l2)%nat.
Proof. unfold start_count. by rewrite filter_app, length_app. Qed.

Lemma start_count_one c t x :
  start_count c [(t, x)] = (if decide (x = StaticStart c) then 1 else 0)%nat.
Proof. unfold start_count. rewrite filter_cons. cbn. by case_decide. Qed.

Lemma inv_start_later C Y c o s t :
  inv C (Some c) Y s → objects s !! c = Some o →
  inv C None Y (set_timeouts (timeouts s ++ [(t, StaticStart c)]) s).
Proof.
  intros [] Ho. split; try done.
  - intros c' o' Ho'. unfold child_ok. cbn [set_timeouts timeouts os]. rewrite start_count_app, start_count_one.
    destruct (i_child c' o' Ho') as [(? & ? & E & ?)|[? E]]; rewrite E.
    + rewrite (decide_False (P := StaticStart c = StaticStart c')) by congruence. left. by rewrite Nat.add_0_r.
    + right. split; [done|]. do 3 case_decide; (done || congruence).
  - cbn. rewrite Forall_app. split; [done|]. constructor; [|done]. by eapply lookup_lt_Some.
Qed.

Lemma inv_check_later C X Y c p s t :
  inv C X Y s → (c < length (objects s))%nat →
  inv C X Y (set_timeouts (timeouts s ++ [(t, StaticCheckDied c p)]) s).
Proof.
  intros [] Hc. split; try done.
  - intros c' o' Ho'. unfold child_ok. cbn [set_timeouts timeouts os]. rewrite start_count_app, start_count_one, decide_False by done.
    rewrite Nat.add_0_r. by apply i_child.
  - cbn. rewrite Forall_app. split; [done|]. by constructor.
Qed.

(** A timer is taken off: if it starts a child then that one is [X]. *)
Lemma inv_fire C Y s i t x :
  inv C None Y s → timeouts s !! i = Some (t, x) →
  inv C (match x with StaticStart c => Some c | _ => None end) Y (set_timeouts (delete i (timeouts s)) s) ∧
  (timer_child x < length (objects s))%nat.
Proof.
  intros [] Hi. apply list_elem_of_split_length in Hi as (l1 & l2 & El & ->).
  rewrite El, delete_middle in *.
  assert (Hx : (timer_child x < length (objects s))%nat).
  { by apply Forall_app in i_timers as [_ [? _]%Forall_cons]. }
  split; [|done]. split; try done.
  - intros c' o' Ho'. unfold child_ok. cbn [set_timeouts timeouts os].
    pose proof (i_child c' o' Ho') as Hc. unfold child_ok in Hc. rewrite El in Hc.
    change ((t, x) :: l2) with ([(t, x)] ++ l2) in Hc. rewrite !start_count_app, start_count_one in *.
    destruct Hc as [(? & ? & E & ?)|[? E]].
    + left. case_decide; [lia|]. split_and!; [done|done|lia|]. destruct x; [|done]. congruence.
    + right. split; [done|]. destruct x as [c|c old]; repeat case_decide; (congruence || lia).
  - cbn. apply Forall_app in i_timers as [? [? ?]%Forall_cons]. by apply Forall_app.
Qed.

Lemma Timeout_start_ok C Y c o s t :
  inv C (Some c) Y s → objects s !! c = Some o →
  wpe lawful (Timeout t (StaticStart c)) (λ _ s', inv C None Y s' ∧ touches c s s' ∧ objects s' = objects s) s.
Proof.
  intros I Ho. unfold Timeout. wsteps. split_and!; [| |done].
  - eapply inv_start_later; [apply inv_quiet; eauto with aos|done].
  - eapply touches_trans; [apply quiet_touches, u_evtimer_add|by apply touches_same].
Qed.

Lemma Timeout_check_ok C X Y c p s t :
  inv C X Y s → (c < length (objects s))%nat →
  wpe lawful (Timeout t (StaticCheckDied c p)) (λ _ s', inv C X Y s') s.
Proof.
  intros I Hc. unfold Timeout. wsteps. apply inv_check_later; [|done]. apply inv_quiet; eauto with aos.
Qed.

(** ** Restarting after a change *)

Lemma FileModified_ok C X Y c s :
  inv C X Y s → (c < length (objects s))%nat → wpe lawful (FileModified c) (λ _ s', inv C X Y s') s.
Proof.
  intros I Hc. unfold FileModified. wsteps.
  pose proof (inv_quiet _ _ _ _ _ (u_evtimer_add (ToTimeval kRestartWaitTime) (os s)) I) as [].
  split; try done. cbn. intros c' [?| ->%elem_of_singleton]%elem_of_union; [by apply i_waiting|done].
Qed.

Lemma DoRestart_ok C X Y c s :
  inv C X Y s → (c < length (objects s))%nat →
  wpe lawful (DoRestart c) (λ _ s', inv C X Y s' ∧ objects s' = objects s ∧
    waiting_to_restart s' = waiting_to_restart s) s.
Proof.
  intros I Hc. apply lookup_lt_is_Some in Hc as Ho. destruct Ho as [o Ho].
  unfold DoRestart. wstep. eapply wpe_child; [done|]. wstep.
  apply (wpe_mono _ _ (λ _ s', inv C X Y s' ∧ objects s' = objects s ∧
    waiting_to_restart s' = waiting_to_restart s)).
  { destruct (stat_at_start_valid_ o); wsteps; [|done].
    assert (inv C X Y (set_os (sys_stat (original_binary_ o) (os s)).2 s)) by (apply inv_quiet; eauto with aos).
    destruct (sys_stat _ _) as [[m|] k]; cbn [fst snd] in *; [by wstep|by apply wpe_stop]. }
  intros changed s1 (I1 & E1 & E2). destruct (negb changed); wsteps; [done|]. case_bool_decide; [by apply wpe_stop|].
  destruct (negb (pid_ o =? -1)); wsteps; [|done].
  set (s2 := set_os _ s1). assert (inv C X Y s2) as I2 by (apply inv_quiet; eauto with aos).
  unfold Timeout. wsteps. split; [|by cbn]. apply inv_check_later; [apply inv_quiet; eauto with aos|].
  cbn. by rewrite E1.
Qed.

Lemma DoRestart_all_ok C X Y l s :
  inv C X Y s → Forall (λ c, c < length (objects s))%nat l →
  wpe lawful (DoRestart_all l) (λ _ s', inv C X Y s') s.
Proof.
  revert s. induction l as [|c l IH]; intros s I Hl; cbn; [by wstep|]. apply Forall_cons in Hl as [Hc Hl].
  wstep. eapply wpe_mono; [by apply DoRestart_ok|]. cbn. intros _ s1 (I1 & E1 & _). apply IH; [done|].
  by rewrite E1.
Qed.

Lemma inv_wait_less C X Y s W :
  inv C X Y s → W ⊆ waiting_to_restart s → inv C X Y (set_waiting W s).
Proof. intros [] HW. split; try done. cbn. intros c Hc. apply i_waiting. set_solver. Qed.

Lemma StaticDoRestart_ok by_address C X Y s :
  (∀ W c, c ∈ by_address W → c ∈ W) → inv C X Y s →
  wpe lawful (StaticDoRestart by_address) (λ _ s', inv C X Y s') s.
Proof.
  intros Hby I. unfold StaticDoRestart. do 3 wstep.
  apply (wpe_mono _ _ (λ _ s', inv C X Y s')).
  { destruct (core s) as [c|]; [|by wstep]. case_bool_decide as Hin; [|by wstep]. wstep.
    eapply wpe_mono; [apply DoRestart_ok; [done|by eapply i_waiting]|]. cbn. intros _ s1 (I1 & _ & _).
    wstep. apply inv_wait_less; [done|set_solver]. }
  intros _ s1 I1. do 3 wstep. eapply wpe_mono; [apply DoRestart_all_ok; [done|]|].
  - apply Forall_forall. intros c Hc%Hby. by eapply i_waiting.
  - cbn. intros _ s2 I2. wstep. by apply inv_wait_less; [|set_solver].
Qed.

Lemma CheckDied_ok C X Y c p s :
  inv C X Y s → (c < length (objects s))%nat → wpe lawful (CheckDied c p) (λ _ s', inv C X Y s') s.
Proof.
  intros I Hc. apply lookup_lt_is_Some in Hc as [o Ho].
  unfold CheckDied. wstep. eapply wpe_child; [done|]. case_match; wsteps; [|done]. apply inv_quiet; eauto with aos.
Qed.

Lemma run_timeout_ok C s i :
  inv C None None s → (i < length (timeouts s))%nat → wpe lawful (run_timeout i) (λ _ s', inv C None None s') s.
Proof.
  intros I Hi. unfold run_timeout. do 2 wstep.
  apply lookup_lt_is_Some in Hi as [[t x] Hi]. rewrite Hi.
  destruct (inv_fire _ _ _ _ _ _ I Hi) as [I1 Hx]. do 2 wstep. destruct x as [c|c p]; cbn in Hx.
  - apply lookup_lt_is_Some in Hx as [o Ho]. eapply wpe_mono; [by eapply Start_ok|]. by intros _ s' [? _].
  - by apply CheckDied_ok.
Qed.
End Handlers.

(** ** The starter: deaths and restarts *)


(** ** The three last deaths *)

Lemma last3_snoc {A} (l : list A) (x : A) :
  last3 (l ++ [x]) = (if (length l <? 3)%nat then l else tail (last3 l)) ++ [x].
Proof.
  unfold last3. rewrite length_app. cbn [length]. destruct (Nat.ltb_spec (length l) 3).
  - by replace (length l + 1 - 3)%nat with 0%nat by lia.
  - rewrite drop_app_le by lia. f_equal. replace (length l + 1 - 3)%nat with (S (length l - 3)) by lia.
    by rewrite <-drop_drop_tail || (rewrite <-Nat.add_1_r, <-drop_drop; by destruct (drop _ l)).
Qed.

Lemma last3_length {A} (l : list A) : length (last3 l) = Nat.min 3 (length l).
Proof. unfold last3. rewrite length_drop. lia. Qed.

Lemma last3_head {A} (l : list A) : (3 ≤ length l)%nat → head (last3 l) = l !! (length l - 3)%nat.
Proof.
  intros H. unfold last3. rewrite <-(Nat.add_0_r (length l - 3)) at 2. rewrite <-lookup_drop.
  by destruct (drop _ l).
Qed.

Lemma push_restart_last3 l t :
  push_restart (last3 l) t =
    (last3 (l ++ [t]), if (length l <? 3)%nat then None else l !! (length l - 3)%nat).
Proof.
  unfold push_restart, kMaxRestartsNumber. rewrite length_app, last3_length, last3_snoc. cbn [length].
  destruct (Nat.ltb_spec (length l) 3) as [H|H].
  - rewrite (proj2 (Nat.ltb_ge 3 (Nat.min 3 (length l) + 1))) by lia. unfold last3. by replace (length l - 3)%nat with 0%nat by lia.
  - rewrite (proj2 (Nat.ltb_lt 3 (Nat.min 3 (length l) + 1))) by lia. rewrite <-last3_head by done.
    pose proof (last3_length l) as Hl. destruct (last3 l); [cbn [length] in Hl; lia|done].
Qed.

Lemma times_snoc now l t : times_ok now l → good_time t → now ≤ ToNSec t → times_ok (ToNSec t) (l ++ [t]).
Proof.
  intros [Hf Hs] Ht Hn. split.
  - apply Forall_app. split; [|constructor; [split; [done|lia]|done]].
    eapply Forall_impl; [exact Hf|]. cbn. intros u [? ?]. split; [done|lia].
  - induction l as [|u m IH]; cbn; [by repeat constructor|].
    apply Forall_cons in Hf as [[_ Hu] Mf]. inversion Hs; subst. constructor; [by apply IH|].
    apply Forall_app. split; [done|]. constructor; [lia|done].
Qed.

Lemma of_child_snoc c ds d :
  of_child c (ds ++ [d]) = of_child c ds ++ (if decide (d_child d = c) then [d] else []).
Proof. unfold of_child. rewrite filter_app, filter_cons. by case_decide. Qed.

(** The decision that keeps the restarts throttled. *)
Definition decides (l : list death) (d : death) : Prop :=
  d_started d = match l !! (length l - 3)%nat with
                | Some d0 => if (length l <? 3)%nat then true
                             else bool_decide (4 * G < ToNSec (d_decided d) - ToNSec (d_time d0))
                | None => true
                end.

Lemma throttled_snoc l d : throttled l → decides l d → throttled (l ++ [d]).
Proof.
  intros Ht Hd i d' Hi. destruct (decide (i < length l)%nat) as [Hlt|Hge].
  - rewrite lookup_app_l in Hi by done. rewrite lookup_app_l by lia. by apply Ht.
  - apply lookup_lt_Some in Hi as Hl. rewrite length_app in Hl. cbn in Hl.
    assert (i = length l) as -> by lia. rewrite lookup_app_r, Nat.sub_diag in Hi by done. injection Hi as <-.
    rewrite Hd. destruct (decide (length l = 0)%nat) as [E|E].
    + destruct l; [done|cbn in E; lia].
    + by rewrite lookup_app_l by lia.
Qed.

Section Deaths.
Context {K : Type} `{!Unix K} `{!UnixLaws K}.
Implicit Types (s : starter K) (c : nat) (o : Child) (C X Y : option nat).

(** The death goes into the history. *)
Lemma inv_record C X Y s c o t k d :
  inv C X Y s → objects s !! c = Some o → good_time t →
  clock (os s) ≤ ToNSec t ≤ clock k → procs k = procs (os s) →
  d_child d = c → d_time d = t → decides (of_child c (deaths s)) d →
  inv C X Y (change (set_restarts (push_restart (restarts_ o) t).1) c k (deaths s ++ [d]) s).
Proof.
  intros I Ho Ht Hc Hp <- <- Hd. pose proof I as []. set (c := d_child d) in *.
  assert (Hds : of_child c (deaths s ++ [d]) = of_child c (deaths s) ++ [d]).
  { by rewrite of_child_snoc, decide_True. }
  assert (Hr : (push_restart (restarts_ o) (d_time d)).1 = last3 (d_time <$> of_child c (deaths s ++ [d]))).
  { rewrite (i_hist c o Ho), push_restart_last3, Hds, fmap_app. done. }
  apply (inv_change C X X Y s _ c o); try done.
  - lia.
  - pose proof (i_child c o Ho) as H. unfold child_ok in *. cbn. by rewrite Hp.
  - intros Hcore. destruct (i_core_runs c Hcore) as (o' & Ho' & ?). rewrite Ho in Ho'. by injection Ho' as <-.
  - rewrite Hds, fmap_app. eapply (times_later (ToNSec (d_time d))); [lia|].
    eapply times_snoc; [exact (i_times c)|done|apply Hc].
  - intros c' o' Hn Ho' H. unfold child_ok in *. cbn. by rewrite Hp.
  - intros c' o' Hn Ho' E. cbn in E. destruct (decide (pid_ o' = -1)); [done|]. exfalso. apply Hn. by eapply i_inj.
  - intros p. rewrite Hp. intros Hi. cbn. destruct (decide (p = pid_ o)) as [->|]; [left|by right].
    destruct (i_procs _ Hi). done.
  - intros c' Hn. rewrite of_child_snoc, decide_False by (intros E; by apply Hn). by rewrite app_nil_r.
  - apply Forall_app. split; [done|]. constructor; [|done]. by eapply lookup_lt_Some.
  - rewrite Hds. by apply throttled_snoc.
Qed.

Lemma decides_popped c o t t' s :
  restarts_ o = last3 (d_time <$> of_child c (deaths s)) → 
  decides (of_child c (deaths s)) (mkDeath c t t'
    match (push_restart (restarts_ o) t).2 with
    | Some oldest => bool_decide (4 * G < ToNSec t' - ToNSec oldest)
    | None => true
    end).
Proof.
  intros Hr. rewrite Hr, push_restart_last3. unfold decides. cbn [snd d_started d_decided]. rewrite length_fmap.
  destruct (Nat.ltb_spec (length (of_child c (deaths s))) 3).
  - by case_match.
  - rewrite list_lookup_fmap. by destruct (of_child c (deaths s) !! _).
Qed.

Lemma push_popped l t now oldest :
  times_ok now l → (push_restart (last3 l) t).2 = Some oldest → good_time oldest.
Proof.
  intros [Hf _]. rewrite push_restart_last3. cbn [snd]. case_match; [done|]. intros Ho.
  by apply (Forall_lookup_1 _ _ _ _ Hf Ho).
Qed.

(** The test of [ProcessDied]. *)
Lemma too_often_eq now oldest : good_time now → good_time oldest →
  ∃ d, Time_sub now oldest = Ok d ∧
    Time_leb d kMaxRestartsTime = negb (bool_decide (4 * G < ToNSec now - ToNSec oldest)).
Proof.
  intros [V1 B1] [V2 B2]. eexists. split; [apply sub_eq; [done|done|unfold roomy; lia]|].
  rewrite leb_ns, ToNSec_of_ns.
  - change (ToNSec kMaxRestartsTime) with (4 * G). destruct (Z.leb_spec (ToNSec now - ToNSec oldest) (4 * G));
      symmetry; [apply negb_true_iff, bool_decide_eq_false|apply negb_false_iff, bool_decide_eq_true]; lia.
  - apply of_ns_valid. unfold roomy. lia.
  - unfold valid, in_signed. cbn. lia.
Qed.

Lemma alter_insert {A} (f : A → A) (i : nat) (x : A) (l : list A) : l !! i = Some x → alter f i l = <[i := f x]> l.
Proof. revert i. induction l as [|y l IH]; intros [|i] [=]; cbn; subst; f_equal; auto. Qed.

(** What [touches] leaves of the list of objects. *)
Lemma touches_insert c s s' o : touches c s s' → objects s !! c = Some o →
  ∃ o', objects s' = <[c := o']> (objects s) ∧ restarts_ o' = restarts_ o.
Proof.
  intros [Ho Hr _ _] E. rewrite E in Hr. destruct (objects s' !! c) as [o'|] eqn:E'; [|done].
  injection Hr as Hr. exists o'. split; [|done]. apply list_eq. intros i.
  destruct (decide (i = c)) as [->|Hn].
  - rewrite list_lookup_insert_eq; [done|]. by eapply lookup_lt_Some.
  - rewrite list_lookup_insert_ne by done. by apply Ho.
Qed.

(** What a death leaves: [o] is the object before, [k] the system when the process
    has been waited for. *)
Definition after_death c o (k : K) s s' : Prop :=
  ∃ t o', objects s' = <[c := o']> (objects s) ∧ restarts_ o' = (push_restart (restarts_ o) t).1 ∧
    good_time t ∧ clock k ≤ ToNSec t ≤ clock (os s') ∧ (stops (os s') ≤ stops k)%nat ∧
    ∀ oldest, (push_restart (restarts_ o) t).2 = Some oldest →
      clock (os s') - ToNSec oldest ≤ 4 * G → pid_ o' = -1.

(** The end of [ProcessDied]: the history is written, the child is started or will be. *)
Lemma finish_death C Y c o t t' k s (too_often : bool) :
  inv C (Some c) Y s → objects s !! c = Some o → pid_ o = -1 → good_time t →
  clock (os s) ≤ ToNSec t ≤ ToNSec t' → ToNSec t' ≤ clock k → procs k = procs (os s) → (stops k ≤ stops (os s))%nat →
  negb too_often = match (push_restart (restarts_ o) t).2 with
    | Some oldest => bool_decide (4 * G < ToNSec t' - ToNSec oldest) | None => true end →
  wpe lawful (if too_often then Timeout kResumeWait (StaticStart c) else Start c)
    (λ _ s', inv C None Y s' ∧ after_death c o (os s) s s')
    (change (set_restarts (push_restart (restarts_ o) t).1) c k
       (deaths s ++ [mkDeath c t t' (negb too_often)]) s).
Proof.
  intros I Ho Hpid Ht Hc1 Hc2 Hp Hst Hto. set (s1 := change _ _ _ _ _). set (l := (push_restart (restarts_ o) t).1).
  assert (inv C (Some c) Y s1) as I1.
  { apply inv_record; try done; [lia|]. rewrite Hto. apply decides_popped. by eapply i_hist. }
  assert (Ho1 : objects s1 !! c = Some (set_restarts l o)) by (cbn; by rewrite list_lookup_alter_eq, Ho).
  assert (Hal : objects s1 = <[c := set_restarts l o]> (objects s)) by (by apply alter_insert).
  assert (Hend : ∀ s', touches c s1 s' → (too_often = true → objects s' = objects s1) → after_death c o (os s) s s').
  { intros s' T Ho'. destruct (touches_insert c s1 s' _ T Ho1) as (o' & E' & Er).
    destruct T as [_ _ T1 T2]. change (clock k ≤ clock (os s')) in T1. change (stops (os s') ≤ stops k)%nat in T2.
    exists t, o'. rewrite E', Hal, list_insert_insert_eq.
    split_and!; [done|done|done|lia|lia|lia|]. intros oldest Hpop Hlt. rewrite Hpop in Hto.
    rewrite bool_decide_eq_false_2 in Hto by lia. apply negb_false_iff in Hto. rewrite Ho' in E' by done.
    rewrite Hal in E'. apply (f_equal (.!! c)) in E'. apply lookup_lt_Some in Ho.
    rewrite list_insert_insert_eq, !list_lookup_insert_eq in E' by done. by injection E' as <-. }
  destruct too_often.
  - eapply wpe_mono; [by eapply Timeout_start_ok|]. intros _ s' (? & ? & ?). auto.
  - eapply wpe_mono; [by eapply Start_ok|]. intros _ s' (? & ? & _). split; [done|by apply Hend].
Qed.

Lemma ProcessDied_ok C Y c o k s :
  inv C None Y s → objects s !! c = Some o → 0 < pid_ o → core s ≠ Some c →
  procs k = procs (os s) ∖ {[pid_ o]} → clock (os s) ≤ clock k →
  wpe lawful (ProcessDied c) (λ _ s', inv C None Y s' ∧ after_death c o k s s') (set_os k s).
Proof.
  intros I Ho Hpos Hcore Hp Hclk. unfold ProcessDied. do 2 wstep. set (s1 := set_objects _ _).
  assert (inv C (Some c) Y s1) as I1 by (by apply (inv_died C Y s c o k)).
  assert (Ho1 : objects s1 !! c = Some (set_pid (-1) o)) by (cbn; by rewrite list_lookup_alter_eq, Ho).
  assert (Hk1 : os s1 = k) by done.
  assert (Hs1 : ∀ s', after_death c (set_pid (-1) o) (os s1) s1 s' → after_death c o k s s').
  { intros s' (t & o' & E & H). exists t, o'. split; [|exact H]. rewrite E.
    change (objects s1) with (alter (set_pid (-1)) c (objects s)). rewrite (alter_insert _ _ _ _ Ho). apply list_insert_insert_eq. }
  clearbody s1.
  assert (Hmono : ∀ (m : ST (starter K) unit) s2,
    wpe lawful m (λ _ s', inv C None Y s' ∧ after_death c (set_pid (-1) o) (os s1) s1 s') s2 →
    wpe lawful m (λ _ s', inv C None Y s' ∧ after_death c o k s s') s2).
  { intros m s2 H. eapply wpe_mono; [exact H|]. intros _ s' [? ?]. auto. }
  do 2 wstep. pose proof (u_now (os s1)) as Hnow. destruct (sys_now (os s1)) as [t k2]. cbn [fst snd] in *.
  destruct Hnow as (Gt & Ht & Q2p & Q2c & Q2s). wstep. eapply wpe_child; [exact Ho1|].
  destruct (push_restart (restarts_ (set_pid (-1) o)) t) as [l popped] eqn:Epush. do 3 wstep.
  destruct popped as [oldest|].
  - do 2 wstep. cbn [os set_objects set_os]. pose proof (u_now k2) as Hnow. destruct (sys_now k2) as [t' k4].
    cbn [fst snd] in *. destruct Hnow as (Gt' & Ht' & Q4p & Q4c & Q4s).
    assert (Gold : good_time oldest).
    { apply (push_popped _ t _ _ (i_times _ _ _ _ I1 c)). by rewrite <-(i_hist _ _ _ _ I1 c _ Ho1), Epush. }
    destruct (too_often_eq t' oldest Gt' Gold) as (d & Ed & Ele). wstep. apply (wpe_lift _ _ d); [done|]. do 3 wstep.
    apply Hmono.
    replace l with (push_restart (restarts_ (set_pid (-1) o)) t).1 by (by rewrite Epush).
    apply (finish_death C Y c _ t t' k4 s1); try done; try lia; try congruence.
    rewrite Epush, Ele. cbn [snd]. by rewrite negb_involutive.
  - do 3 wstep. apply Hmono.
    replace l with (push_restart (restarts_ (set_pid (-1) o)) t).1 by (by rewrite Epush).
    apply (finish_death C Y c _ t t k2 s1 false); try done; try lia. by rewrite Epush.
Qed.

(** ** SIGCHLD *)

Lemma find_pid_eq s pid l :
  Forall (λ c, c < length (objects s))%nat l →
  ∃ r, find_pid pid l s = Ok (r, s) ∧
    match r with
    | Some c => c ∈ l ∧ pid_ <$> objects s !! c = Some pid
    | None => ∀ c o, c ∈ l → objects s !! c = Some o → pid_ o ≠ pid
    end.
Proof.
  induction 1 as [|c l Hc Hl (r & E & IH)]; cbn [find_pid]; [exists None; set_solver|].
  apply lookup_lt_is_Some in Hc as [o Ho]. erewrite st_bind_step by (unfold get_child; by rewrite Ho).
  destruct (Z.eqb_spec pid (pid_ o)) as [->|Hn].
  - exists (Some c). split; [done|]. rewrite Ho. split; [set_solver|done].
  - exists r. split; [done|]. destruct r as [c'|].
    + split; [set_solver|]. apply IH.
    + intros c' o' [->|?]%elem_of_cons Ho'; [congruence|by eapply IH].
Qed.

(** A child that is waited for is always found. *)
Lemma FindChild_found (C : nat) s k pid :
  inv (Some C) None None s → pid ∈ procs (os s) →
  ∃ c o, FindChild pid (set_os k s) = Ok (Some c, set_os k s) ∧ objects s !! c = Some o ∧ pid_ o = pid ∧ 0 < pid.
Proof.
  intros [] Hp. destruct (i_procs pid Hp) as (Hpos & c & o & Ho & Hpid).
  destruct (i_core_runs C i_core) as (oc & Hoc & _). unfold FindChild.
  erewrite st_bind_step by done. cbn [children set_os core].
  destruct (find_pid_eq (set_os k s) pid (children s) i_children) as (r & E & Hr).
  erewrite st_bind_step by exact E. destruct r as [c'|].
  - destruct Hr as [_ (o' & ? & Ho')%fmap_Some]. exists c', o'. done.
  - rewrite i_core. erewrite st_bind_step by (unfold get_child; cbn; by rewrite Hoc).
    assert (c = C) as ->.
    { destruct (i_listed c (lookup_lt_Some _ _ _ Ho)) as [Hc|[Hc|Hc]]; [|congruence|done].
      by destruct (Hr c o Hc Ho). }
    rewrite Ho in Hoc. injection Hoc as <-. rewrite Hpid, Z.eqb_refl. by exists C, o.
Qed.

(** What a turn of the loop that is not the last one does. *)
Inductive turn s s' : Prop :=
| turn_stopped : objects s' = objects s → clock (os s) ≤ clock (os s') →
    (stops (os s') < stops (os s))%nat → turn s s'
| turn_died c o k : objects s !! c = Some o → 0 < pid_ o → clock (os s) ≤ clock k →
    (stops k ≤ stops (os s))%nat → after_death c o k s s' → turn s s'.

Lemma core_in_procs (C : nat) s : inv (Some C) None None s → procs (os s) ≠ ∅.
Proof.
  intros []. destruct (i_core_runs C i_core) as (o & Ho & Hpos).
  destruct (i_child C o Ho) as [(_ & ? & _)|[? _]]; [set_solver|lia].
Qed.

Lemma sigchld_turn_ok (C : nat) s :
  inv (Some C) None None s →
  wpe lawful sigchld_turn (λ again s', inv (Some C) None None s' ∧ (again = true → turn s s')) s.
Proof.
  intros I. unfold sigchld_turn. do 2 wstep. pose proof (u_waitid (os s)) as Hw.
  destruct (sys_waitid (os s)) as [r k] eqn:Ew. cbn [fst snd]. destruct Hw as [Hclk Hw]. destruct r as [i|].
  2:{ destruct Hw as [Hp _]. by destruct (core_in_procs C s I). }
  destruct Hw as [[-> Hq]|(Hpos & Hin & Hw)].
  { cbn [Z.eqb]. wstep. split; [by apply inv_quiet|done]. }
  rewrite (proj2 (Z.eqb_neq _ 0)) by lia.
  destruct (FindChild_found C s k _ I Hin) as (c & o & Ef & Ho & Hpid & _).
  wstep. unfold wpe at 1. rewrite Ef.
  assert (Hstop : ∀ sig, (procs k = procs (os s) ∧ (stops k < stops (os s))%nat) →
    wpe lawful (_ ← os_call (sys_kill (si_pid i) sig); mret true)
      (λ again s', inv (Some C) None None s' ∧ (again = true → turn s s')) (set_os k s)).
  { intros sig [Hp Hst]. wsteps. pose proof (u_kill (si_pid i) sig k) as (Q1 & Q2 & Q3). split.
    - apply (inv_os _ _ _ s); [|done]. split; cbn; [congruence|lia].
    - intros _. apply turn_stopped; cbn; [done|lia|lia]. }
  assert (Hdied : procs k = procs (os s) ∖ {[si_pid i]} ∧ (stops k ≤ stops (os s))%nat →
    wpe lawful (s1 ← st_get; _ ← require (negb (bool_decide (core s1 = Some c))); _ ← ProcessDied c; mret true)
      (λ again s', inv (Some C) None None s' ∧ (again = true → turn s s')) (set_os k s)).
  { intros [Hp Hst]. do 4 wstep. wstep. apply negb_true_iff, bool_decide_eq_false in Hreq.
    eapply wpe_mono; [apply (ProcessDied_ok (Some C) None c o k s); try done; [lia|by rewrite Hpid]|].
    cbn. intros _ s' [I' A']. wstep. split; [done|]. intros _. eapply turn_died; try done. congruence. }
  destruct (si_code_ i); auto.
Qed.

Lemma SigCHLDReceived_ok (C : nat) fuel s :
  inv (Some C) None None s →
  wpe (λ e, lawful e ∨ e = Fuel) (SigCHLDReceived fuel) (λ _ s', inv (Some C) None None s') s.
Proof.
  revert s. induction fuel as [|fuel IH]; intros s I; cbn; [apply wpe_stop; by right|]. wstep.
  eapply (wpe_weaken _ lawful); [auto|]. eapply wpe_mono; [by apply sigchld_turn_ok|].
  cbn. intros [] s' [I' _]; [by apply IH|by wstep].
Qed.

(** ** The loop ends

    [n] turns that all ask for another one. *)
Inductive runs : nat → starter K → starter K → Prop :=
| runs_O s : runs 0 s s
| runs_S n s s1 s' : sigchld_turn s = Ok (true, s1) → runs n s1 s' → runs (S n) s s'.

Lemma out_of_turns (C : nat) fuel s : inv (Some C) None None s →
  SigCHLDReceived fuel s = Err Fuel → ∃ s', runs fuel s s'.
Proof.
  revert s. induction fuel as [|fuel IH]; intros s I; cbn; [eexists; constructor|].
  pose proof (sigchld_turn_ok C s I) as Ht. unfold wpe in Ht.
  unfold mbind, st_bind. destruct (sigchld_turn s) as [[[] s1]|e] eqn:E; [|done|].
  - intros [s' H]%IH; [|apply Ht]. exists s'. by econstructor.
  - by intros [= ->].
Qed.

Definition recent (t0 : Z) (l : list Time) : nat := length (filter (λ t, t0 ≤ ToNSec t) l).

(** How many more deaths a child can have until it is not started at once. *)
Definition lives (t0 : Z) o : nat := if pid_ o =? -1 then 0 else 4 - recent t0 (restarts_ o).

Definition all_lives (t0 : Z) s : nat := sum_list_with (lives t0) (objects s).

Lemma recent_snoc t0 l t : t0 ≤ ToNSec t → recent t0 (l ++ [t]) = S (recent t0 l).
Proof. intros H. unfold recent. rewrite filter_app, filter_cons, decide_True by done. rewrite length_app. cbn. lia. Qed.

Lemma recent_cons t0 u l : recent t0 (u :: l) = ((if decide (t0 ≤ ToNSec u)%Z then 1 else 0) + recent t0 l)%nat.
Proof. unfold recent. rewrite filter_cons. by case_decide. Qed.

Lemma recent_length t0 l : (recent t0 l ≤ length l)%nat.
Proof. apply length_filter. Qed.

Lemma sum_insert {A} (f : A → nat) l i x y : l !! i = Some x →
  (sum_list_with f (<[i := y]> l) + f x = sum_list_with f l + f y)%nat.
Proof.
  revert i. induction l as [|z l IH]; intros [|i]; cbn; [done|done| |].
  - intros [= ->]. lia.
  - intros H%IH. rewrite <-!Nat.add_assoc. f_equal. exact H.
Qed.

Lemma lives_decrease t0 c o k s s' :
  t0 ≤ clock k → after_death c o k s s' → clock (os s') - t0 ≤ 4 * G →
  objects s !! c = Some o → 0 < pid_ o → (length (restarts_ o) ≤ 3)%nat →
  (all_lives t0 s' < all_lives t0 s)%nat.
Proof.
  intros Hk (t & o' & Eo & Er & _ & Ht & _ & Hthr) Hend Ho Hpos Hlen. unfold all_lives. rewrite Eo.
  pose proof (sum_insert (lives t0) _ _ _ o' Ho) as Hsum. enough (lives t0 o' < lives t0 o)%nat by lia. clear Hsum.
  pose proof (recent_length t0 (restarts_ o)) as Hrec. unfold lives at 2. rewrite (proj2 (Z.eqb_neq _ (-1))) by lia.
  enough (pid_ o' = -1 ∨ recent t0 (restarts_ o') = S (recent t0 (restarts_ o))) as [E|E].
  { unfold lives. rewrite E, Z.eqb_refl. lia. }
  { unfold lives. case_match; lia. }
  rewrite Er. unfold push_restart in *. destruct (Nat.ltb_spec kMaxRestartsNumber (length (restarts_ o ++ [t]))) as [Hl|Hl].
  2:{ right. apply recent_snoc. lia. }
  unfold kMaxRestartsNumber in Hl. rewrite length_app in Hl. cbn [length] in Hl.
  destruct (restarts_ o) as [|oldest rest] eqn:Ero; [cbn in Hl; lia|]. cbn [app fst snd tail head] in *.
  destruct (decide (t0 ≤ ToNSec oldest)); [left; apply (Hthr oldest); [done|lia]|right].
  rewrite recent_snoc, recent_cons, decide_False by lia. done.
Qed.

(** Every 4 turns per child, and the reports of stopped processes, take more than
    four seconds. *)
Lemma runs_bounded (C : nat) t0 n s s' :
  runs n s s' → inv (Some C) None None s → t0 ≤ clock (os s) → clock (os s') - t0 ≤ 4 * G →
  (n ≤ all_lives t0 s + stops (os s))%nat ∧ clock (os s) ≤ clock (os s').
Proof.
  induction 1 as [s|n s s1 s' E Hr IH]; intros I Ht Hend; [lia|].
  pose proof (wpe_ok _ _ _ _ _ _ (sigchld_turn_ok C s I) E) as [I1 Hturn]. specialize (Hturn eq_refl).
  assert (Hclk : clock (os s) ≤ clock (os s1)).
  { destruct Hturn as [? ? ?|c o k ? ? ? ? (t & o' & ? & ? & ? & ? & _)]; lia. }
  destruct (IH I1 ltac:(lia) Hend) as [Hn Hc]. split; [|lia]. destruct Hturn as [Eo _ Hst|c o k Ho Hpos Hk Hst A].
  - unfold all_lives in *. rewrite Eo in Hn. lia.
  - pose proof A as (t & o' & _ & _ & _ & _ & Hst' & _).
    assert (all_lives t0 s1 < all_lives t0 s)%nat; [|lia]. eapply lives_decrease; [|done| |done|done|]; [lia|lia|].
    rewrite (i_hist _ _ _ _ I c o Ho), last3_length. lia.
Qed.
End Deaths.

(** ** The output of a command *)

Lemma fread_length n f : 0 ≤ n → Z.of_nat (length (fread n f).1) = Z.min n (Z.of_nat (length (f_left f))).
Proof. intros. unfold fread. cbn [fst]. rewrite length_take. lia. Qed.

(** [fread] gives all that was asked for, or there is nothing left. *)
Lemma fread_rest n f : 0 ≤ n →
  f_left f = (fread n f).1 ++ f_left (fread n f).2 ∧ f_fails (fread n f).2 = f_fails f ∧
  if Z.of_nat (length (f_left f)) <? n
  then f_left (fread n f).2 = [] ∧ f_eof (fread n f).2 = (negb (f_fails f) || f_eof f) ∧
       f_error (fread n f).2 = (f_fails f || f_error f)
  else f_eof (fread n f).2 = f_eof f ∧ f_error (fread n f).2 = f_error f.
Proof.
  intros Hn. unfold fread. cbn [fst snd]. destruct (Z.ltb_spec (Z.of_nat (length (f_left f))) n); cbn.
  - by rewrite take_ge, app_nil_r by lia.
  - by rewrite take_drop.
Qed.

(** The loop reads on until a read ends in a newline; it never runs out of turns, and
    fails only if reading does or the output does not end in a newline. *)
Lemma read_output_spec fuel size result pipe :
  (length (f_left pipe) < fuel)%nat → 128 ≤ size → Z.of_nat (length result) ≤ size →
  size < 2 ^ 63 → size ≤ 2 * Z.of_nat (length result) + 128 →
  Z.of_nat (length result + length (f_left pipe)) < 2 ^ 62 → f_eof pipe = false → f_error pipe = false →
  match read_output fuel size result pipe with
  | Ok r => ends_line r = true ∧ ∃ rest, result ++ f_left pipe = r ++ rest
  | Err e => e = Fatal ∧ (f_fails pipe = true ∨ ends_line (result ++ f_left pipe) = false)
  end.
Proof.
  revert size result pipe. induction fuel as [|fuel IH]; intros size result pipe Hf H1 H2 H3 H4 H5 He1 He2; [lia|].
  cbn [read_output]. set (size' := if Z.of_nat (length result) =? size then _ else _).
  set (n := size' - Z.of_nat (length result)).
  assert (Hs : Z.of_nat (length result) < size' ∧ 128 ≤ size' ∧ size' < 2 ^ 63 ∧ size' ≤ 2 * Z.of_nat (length result) + 128).
  { subst size'. destruct (Z.eqb_spec (Z.of_nat (length result)) size); [|lia].
    rewrite uwrap_small by (unfold in_unsigned; lia). lia. }
  pose proof (fread_rest n pipe ltac:(lia)) as (Hr & Hfails & Hfl). pose proof (fread_length n pipe ltac:(lia)) as Hl.
  destruct (fread n pipe) as [data pipe'] eqn:Ef. cbn [fst snd] in *.
  destruct (Z.ltb_spec (Z.of_nat (length (f_left pipe))) n) as [Hlt|Hge].
  - rewrite (proj2 (Z.ltb_lt _ n)) by lia. destruct Hfl as (Hnil & -> & ->). rewrite Hr, Hnil, app_nil_r, He2.
    destruct (f_fails pipe); cbn [negb orb andb]; [split; [done|by left]|].
    destruct (ends_line (result ++ data)) eqn:El; [|split; [done|by right]].
    split; [done|]. exists []. by rewrite app_nil_r.
  - rewrite (proj2 (Z.ltb_ge _ n)) by lia. cbn [andb]. destruct Hfl as [Eo Er]. rewrite Hr.
    destruct (ends_line (result ++ data)) eqn:El; [split; [done|]; exists (f_left pipe'); by rewrite app_assoc|].
    rewrite Eo, He1, app_assoc, <-Hfails. rewrite Hr, length_app in Hf, H5. 
    apply IH; rewrite ?length_app; (lia || congruence).
Qed.

Lemma first_line_eq line rest : newline ∉ line → 0 ∉ line → first_line (line ++ newline :: rest) = line.
Proof.
  induction line as [|c line IH]; intros H1 H2; [done|]. cbn [app first_line].
  rewrite (proj2 (Z.eqb_neq c newline)), (proj2 (Z.eqb_neq c 0)) by set_solver. cbn. f_equal. apply IH; set_solver.
Qed.

(** The arguments are the command cut at its spaces. *)
Lemma split_args_join s : 0 ∉ s →
  ∃ a l, split_args s = a :: l ∧ a ++ concat (cons 32 <$> l) = s ∧ Forall (λ a, 32 ∉ a) (a :: l).
Proof.
  induction s as [|c s IH]; intros H; cbn [split_args]; [exists [], []; split_and!; [done|done|constructor; [set_solver|done]]|].
  rewrite (proj2 (Z.eqb_neq c 0)) by set_solver. destruct IH as (a & l & -> & E & Hl); [set_solver|].
  destruct (Z.eqb_spec c 32) as [->|Hc].
  - exists [], (a :: l). split_and!; [done|cbn; by rewrite E|]. constructor; [set_solver|done].
  - exists (c :: a), l. split_and!; [done|cbn; by rewrite E|]. apply Forall_cons in Hl as [Ha Hl].
    constructor; [set_solver|done].
Qed.

Section Watch.
Context {K : Type} `{!Unix K} `{!UnixLaws K}.
Implicit Types (s : starter K) (c w : nat) (o : FileWatch) (C X Y : option nat).

Lemma RunCommand_ok command s :
  wpe lawful (RunCommand command) (λ _ s', ∃ k, s' = set_os k s ∧ quiet (os s) k) s.
Proof.
  unfold RunCommand. do 2 wstep. pose proof (u_popen command (os s)) as Hq.
  pose proof (u_popen_new command (os s)) as Hnew.
  destruct (sys_popen command (os s)) as [[[pipe st]|] k] eqn:E; cbn [fst snd] in *; [|by apply wpe_stop].
  destruct (Hnew pipe st eq_refl) as (He1 & He2 & Hfit). wstep.
  pose proof (read_output_spec (S (length (f_left pipe))) 128 [] pipe) as Hr. cbn [length] in Hr.
  specialize (Hr ltac:(lia) ltac:(lia) ltac:(lia) ltac:(lia) ltac:(lia) ltac:(lia) He1 He2).
  destruct (read_output _ _ _ _) as [result|e]; [|by destruct Hr as [-> _]; apply wpe_stop].
  apply (wpe_lift _ _ result); [done|]. wsteps. by exists k.
Qed.

(** A command that prints lines and succeeds: its first line is the result. *)
Lemma RunCommand_line command s pipe k line more :
  sys_popen command (os s) = (Some (pipe, 0), k) → f_fails pipe = false →
  f_left pipe = line ++ newline :: more → ends_line (f_left pipe) = true → newline ∉ line → 0 ∉ line →
  RunCommand command s = Ok (line, set_os k s).
Proof.
  intros E Hf Hl He H1 H2. pose proof (u_popen_new command (os s) pipe 0) as Hnew. rewrite E in Hnew.
  destruct (Hnew eq_refl) as (He1 & He2 & Hfit). unfold RunCommand, os_call, require. mstep. rewrite E.
  pose proof (read_output_spec (S (length (f_left pipe))) 128 [] pipe) as Hr. cbn [length] in Hr.
  specialize (Hr ltac:(lia) ltac:(lia) ltac:(lia) ltac:(lia) ltac:(lia) ltac:(lia) He1 He2).
  destruct (read_output _ _ _ _) as [result|e]; [|cbn [app] in Hr; destruct Hr as [_ [?|?]]; congruence].
  cbn [negb Z.eqb]. f_equal. f_equal. destruct Hr as [Hend [rest Erest]]. cbn [app] in Erest. rewrite Hl in Erest.
  unfold ends_line in Hend. apply bool_decide_eq_true, last_Some in Hend as [pre ->].
  assert (line `prefix_of` pre) as [x ->].
  { rewrite <-app_assoc in Erest. apply app_eq_inv in Erest as [(x & -> & Hx)|(x & -> & Hx)]; [|by exists x].
    destruct x as [|c x]; [exists []; by rewrite !app_nil_r|]. injection Hx as <- _. set_solver. }
  rewrite <-app_assoc. destruct x as [|c x]; cbn [app].
  - by apply first_line_eq.
  - rewrite <-!app_assoc in Erest. apply (app_inv_head line) in Erest. injection Erest as <- _. by apply first_line_eq.
Qed.

(** ** Watches *)

(** An entry of the map belongs to the object it points to. *)
Definition entry_ok (ws : list FileWatch) (wd : Z) (e : option nat) : Prop :=
  wd ≠ -1 ∧ ∃ w o, e = Some w ∧ ws !! w = Some o ∧
    (if watch_to_remove_ o =? -1 then watch_ o else watch_to_remove_ o) = wd.

Lemma inv_watches C X Y s ws wm :
  inv C X Y s → Forall (watch_ok s) ws → (∀ wd e, wm !! wd = Some e → entry_ok ws wd e) →
  inv C X Y (set_watchers wm (set_watches ws s)).
Proof. intros [] Hw Hm. by split. Qed.

Lemma watch_ok_set s o a b : watch_ok s o → (b ≠ -1 → a = -1) → watch_ok s (set_watch a b o).
Proof. intros [_ ?] ?. by split. Qed.

Lemma Forall_alter_watch s f w (ws : list FileWatch) :
  Forall (watch_ok s) ws → (∀ o, ws !! w = Some o → watch_ok s o → watch_ok s (f o)) →
  Forall (watch_ok s) (alter f w ws).
Proof. intros H Hf. by apply Forall_alter. Qed.

(** An object whose fields change is no concern of the other entries. *)
Lemma entry_other ws f w wd w' : w' ≠ w → entry_ok ws wd (Some w') → entry_ok (alter f w ws) wd (Some w').
Proof.
  intros Hn (? & w1 & o & [= <-] & ? & ?). split; [done|]. exists w', o. by rewrite list_lookup_alter_ne.
Qed.

Lemma CreateWatch_ok C X Y w o s :
  inv C X Y s → watches s !! w = Some o → watch_ o = -1 → watch_to_remove_ o = -1 →
  wpe lawful (CreateWatch w) (λ _ s', inv C X Y s' ∧ objects s' = objects s ∧
    ∃ o', watches s' !! w = Some o' ∧ watchers s' !! watch_ o' = Some (Some w) ∧
      watch_to_remove_ o' = -1 ∧ filename_ o' = filename_ o ∧ callback_ o' = callback_ o) s.
Proof.
  intros I Hw E1 E2. unfold CreateWatch. wstep. eapply wpe_watch; [done|]. do 6 wstep.
  set (r := sys_inotify_add_watch _ _ _ (os s)). assert (Hq : quiet (os s) r.2) by apply u_add_watch.
  destruct r as [wd k]. cbn [fst snd] in *. wsteps. pose proof (inv_quiet _ _ _ _ _ Hq I) as I1. pose proof I1 as [].
  rewrite E2. apply negb_true_iff, Z.eqb_neq in Hreq0. cbn. split_and!; [|done|].
  - apply (inv_watches C X Y (set_os k s)); [done| |].
    + apply Forall_alter_watch; [done|]. intros o' Ho' ?. by apply watch_ok_set.
    + cbn. intros wd' e. rewrite lookup_insert. case_decide as Hd.
      * intros [= <-]. subst wd'. split; [done|]. exists w, (set_watch wd (-1) o).
        by rewrite list_lookup_alter_eq, Hw.
      * intros He. destruct (i_watchers wd' e He) as (? & w' & o' & -> & Hw' & Hwd').
        apply entry_other; [|by split; [|exists w', o']]. intros ->. cbn in Hw'. rewrite Hw in Hw'. injection Hw' as <-.
        rewrite E2, Z.eqb_refl, E1 in Hwd'. done.
  - exists (set_watch wd (-1) o). rewrite list_lookup_alter_eq, Hw. cbn. by rewrite lookup_insert_eq.
Qed.

(** [WatchDeleted] is called on the object the map gives for the event's watch. *)
Lemma WatchDeleted_ok C X Y wd w s :
  inv C X Y s → watchers s !! wd = Some (Some w) →
  wpe lawful (WatchDeleted w) (λ _ s', inv C X Y s' ∧ objects s' = objects s ∧
    ∃ o o', watches s !! w = Some o ∧ watches s' !! w = Some o' ∧ watchers s' !! watch_ o' = Some (Some w) ∧
      filename_ o' = filename_ o ∧ callback_ o' = callback_ o) s.
Proof.
  intros I Hwd. pose proof I as []. destruct (i_watchers wd _ Hwd) as (Hne & w' & o & [= <-] & Ho & Ewd).
  pose proof (Forall_lookup_1 _ _ _ _ i_watches Ho) as [Hrm _].
  set (s1 := set_watchers (delete wd (watchers s)) (set_watches (alter (set_watch (-1) (-1)) w (watches s)) s)).
  assert (I1 : inv C X Y s1).
  { apply inv_watches; [done| |].
    - apply Forall_alter_watch; [done|]. intros o' _ ?. by apply watch_ok_set.
    - intros wd' e. rewrite lookup_delete. case_decide; [done|]. intros He.
      destruct (i_watchers wd' e He) as (? & w' & o' & -> & Hw' & Hwd'). apply entry_other; [|by split; [|exists w', o']].
      intros ->. rewrite Ho in Hw'. injection Hw' as <-. congruence. }
  assert (Hrun : RemoveWatchFromMap w s = Ok (tt, s1)).
  { unfold RemoveWatchFromMap, get_watch, upd_watch, require. mstep. rewrite Ho.
    destruct (Z.eqb_spec (watch_to_remove_ o) (-1)) as [E|E]; subst wd.
    - rewrite (proj2 (Z.eqb_neq _ _) Hne). cbn [negb]. rewrite Hwd. cbn [default].
      rewrite bool_decide_eq_true_2 by done. cbn. by rewrite E.
    - rewrite Hwd. cbn [default]. rewrite bool_decide_eq_true_2 by done. cbn. by rewrite (Hrm E). }
  unfold WatchDeleted. wstep. unfold wpe at 1. rewrite Hrun.
  eapply wpe_mono; [apply (CreateWatch_ok C X Y w (set_watch (-1) (-1) o)); try done|].
  - cbn. by rewrite list_lookup_alter_eq, Ho.
  - intros _ s' (? & ? & o' & ? & ? & _ & ? & ?). split_and!; [done|done|]. by exists o, o'.
Qed.

Lemma RemoveWatch_ok C X Y w o s :
  inv C X Y s → watches s !! w = Some o →
  wpe lawful (RemoveWatch w) (λ _ s', inv C X Y s' ∧ objects s' = objects s) s.
Proof.
  intros I Ho. unfold RemoveWatch. wstep. eapply wpe_watch; [done|]. do 8 wstep. wsteps.
  set (k := (sys_inotify_rm_watch _ _ _).2). assert (Hq : quiet (os s) k) by apply u_rm_watch.
  pose proof (inv_quiet _ _ _ _ _ Hq I) as I1. pose proof I1 as []. apply Z.eqb_eq in Hreq0.
  split; [|done].
  change (inv C X Y (set_watchers (watchers s) (set_watches (alter (set_watch (-1) (watch_ o)) w (watches s)) (set_os k s)))).
  apply (inv_watches C X Y (set_os k s) (alter (set_watch (-1) (watch_ o)) w (watches s)) (watchers s)); [done| |].
  - apply Forall_alter_watch; [done|]. intros o' _ ?. by apply watch_ok_set.
  - intros wd e He. destruct (i_watchers wd e He) as (Hne & w' & o' & -> & Hw' & Hwd').
    destruct (decide (w' = w)) as [->|Hn]; [|apply entry_other; [done|by split; [|exists w', o']]].
    cbn in Hw'. rewrite Ho in Hw'. injection Hw' as <-. rewrite Hreq0, Z.eqb_refl in Hwd'. split; [done|].
    exists w, (set_watch (-1) (watch_ o) o). cbn. rewrite list_lookup_alter_eq, Ho.
    split_and!; [done|done|]. cbn. by rewrite (proj2 (Z.eqb_neq _ _)) by congruence.
Qed.

Lemma inv_notify_fd C X Y s fd : inv C X Y s → inv C X Y (set_notify_fd fd s).
Proof. intros []. by split. Qed.

Lemma FileWatch_new_ok C X Y filename callback value create check s :
  inv C X Y s → watch_ok s (mkWatch filename callback value create check (-1) (-1)) →
  wpe lawful (FileWatch_new filename callback value create check)
    (λ _ s', inv C X Y s' ∧ objects s' = objects s) s.
Proof.
  intros I Hok. unfold FileWatch_new. set (o := mkWatch _ _ _ _ _ _ _) in *. do 4 wstep.
  set (s1 := set_watches _ s).
  assert (I1 : inv C X Y s1).
  { pose proof I as []. apply (inv_watches C X Y s (watches s ++ [o]) (watchers s)); [done| |].
    - apply Forall_app. split; [done|]. constructor; [exact Hok|done].
    - intros wd e He. destruct (i_watchers wd e He) as (? & w' & o' & -> & ? & ?). split; [done|].
      exists w', o'. split_and!; [done| |done]. by apply lookup_app_l_Some. }
  wstep. apply (wpe_mono _ _ (λ _ s2, inv C X Y s2 ∧ objects s2 = objects s ∧ watches s2 = watches s1)).
  { unfold init_once_Get. do 2 wstep. destruct (notify_fd s1); wsteps; [done|]. split_and!; [|done|done].
    apply inv_notify_fd, inv_quiet; [apply u_inotify_init1|done]. }
  intros _ s2 (I2 & E2 & W2). wstep.
  eapply wpe_mono; [apply (CreateWatch_ok C X Y _ o); [done| |done|done]|].
  - rewrite W2. cbn. rewrite lookup_app_r, Nat.sub_diag by done. done.
  - cbn. intros _ s3 (? & E3 & _). wstep. split; [done|congruence].
Qed.

(** ** Children *)

Lemma start_count_none c l : Forall (λ t, timer_child t.2 ≠ c) l → start_count c l = 0%nat.
Proof.
  induction 1 as [|[t x] l Hx _ IH]; [done|]. change ((t, x) :: l) with ([(t, x)] ++ l).
  rewrite start_count_app, start_count_one, IH, decide_False; [done|]. intros ->. by apply Hx.
Qed.

Lemma of_child_none c l : Forall (λ d, d_child d ≠ c) l → of_child c l = [].
Proof. induction 1 as [|d l Hd _ IH]; [done|]. unfold of_child in *. by rewrite filter_cons, decide_False. Qed.

Lemma inv_restart_timeout C X Y s r : inv C X Y s → inv C X Y (set_restart_timeout r s).
Proof. intros []. by split. Qed.

(** A new object; it is not in [children] yet and has no process yet. *)
Lemma inv_alloc C s args :
  inv C None None s →
  inv C (Some (length (objects s))) (Some (length (objects s)))
    (set_objects (objects s ++ [mkChild [] (-1) args [] [] None 0 false]) s).
Proof.
  intros []. set (n := length (objects s)). set (new := mkChild _ _ _ _ _ _ _ _).
  assert (Hl : ∀ c (o : Child), (objects s ++ [new]) !! c = Some o → (objects s !! c = Some o ∧ c ≠ n) ∨ (c = n ∧ o = new)).
  { intros c o [H|[H1 H2]]%lookup_app_Some; [left|right].
    - split; [done|]. apply lookup_lt_Some in H. subst n. lia.
    - apply list_lookup_singleton_Some in H2 as [? <-]. split; [subst n; lia|done]. }
  assert (Hlen : length (objects s ++ [new]) = S n) by (rewrite length_app; cbn; subst n; lia).
  split; cbn -[of_child start_count]; rewrite ?Hlen; try done.
  - intros c o [[H Hn]|[-> ->]]%Hl.
    + destruct (i_child c o H) as [(? & ? & ? & _)|[? E]]; [left|right].
      * split_and!; [done..|congruence].
      * split; [done|]. rewrite decide_False in E by done. by rewrite decide_False by congruence.
    + right. split; [done|]. rewrite decide_True by done. apply start_count_none.
      eapply Forall_impl; [exact i_timers|]. cbn. subst n. lia.
  - intros c1 c2 o1 o2 [[H1 _]|[-> ->]]%Hl [[H2 _]|[-> ->]]%Hl; cbn; [by eauto|congruence|done|done].
  - intros p Hp. destruct (i_procs p Hp) as (? & c & o & Ho & ?). split; [done|]. exists c, o.
    split; [by apply lookup_app_l_Some|done].
  - intros c Hc. destruct (i_core_runs c Hc) as (o & Ho & ?). exists o. split; [by apply lookup_app_l_Some|done].
  - eapply Forall_impl; [exact i_children|]. cbn. subst n. lia.
  - intros c Hc. destruct (decide (c = n)) as [->|]; [by right; right|].
    destruct (i_listed c) as [|[|]]; [subst n; lia|by left|by right; left|done].
  - intros c Hc%i_waiting. subst n. lia.
  - eapply Forall_impl; [exact i_timers|]. cbn. subst n. lia.
  - eapply Forall_impl; [exact i_watches|]. intros o [? Hm]. split; [done|]. cbn. rewrite Hlen. subst n.
    destruct (callback_ o), (value_ o); try done. lia.
  - intros c o [[H Hn]|[-> ->]]%Hl; [by eauto|]. rewrite of_child_none; [done|].
    eapply Forall_impl; [exact i_deaths|]. cbn. subst n. lia.
  - eapply Forall_impl; [exact i_deaths|]. cbn. subst n. lia.
Qed.

Lemma Child_new_ok C command s :
  inv C None None s →
  wpe lawful (Child_new command) (λ c s', inv C None (Some c) s' ∧
    ∃ o : Child, objects s' !! c = Some o ∧ 0 < pid_ o) s.
Proof.
  intros I. unfold Child_new. set (n := length (objects s)). do 5 wstep. wstep. set (s1 := set_objects _ _).
  assert (I1 : inv C (Some n) (Some n) s1) by (exact (inv_alloc C _ _ (inv_restart_timeout _ _ _ _ _ I))).
  assert (L1 : (n < length (objects s1))%nat) by (cbn; rewrite length_app; cbn; subst n; lia).
  clearbody s1. wstep. eapply wpe_mono; [apply RunCommand_ok|]. cbn. intros binary s2 (k & -> & Hq).
  do 2 wstep. set (s3 := set_objects _ _).
  assert (I3 : inv C (Some n) (Some n) s3) by (by apply inv_update; [|apply inv_quiet]).
  assert (L3 : (n < length (objects s3))%nat) by (cbn; by rewrite length_alter).
  clearbody s3. wstep. eapply wpe_mono; [by apply (FileWatch_new_ok C (Some n) (Some n))|].
  cbn. intros w s4 (I4 & E4). do 2 wstep. set (s5 := set_objects _ _).
  assert (I5 : inv C (Some n) (Some n) s5) by (by apply inv_update).
  assert (L5 : (n < length (objects s5))%nat) by (cbn; by rewrite length_alter, E4).
  clearbody s5. wstep. apply lookup_lt_is_Some in L5 as [o5 Ho5].
  eapply wpe_mono; [by eapply Start_ok|]. cbn. intros _ s6 (I6 & _ & H6). wstep. done.
Qed.

Lemma inv_push_child C c s :
  inv C None (Some c) s → (c < length (objects s))%nat → inv C None None (set_children (children s ++ [c]) s).
Proof.
  intros [] Hc. split; try done; cbn.
  - apply Forall_app. split; [done|]. by constructor.
  - intros c' Hc'. destruct (i_listed c' Hc') as [?|[?|[= <-]]]; [left; set_solver|by right; left|left; set_solver].
Qed.

Lemma start_children_ok C l s :
  inv C None None s → wpe lawful (start_children l) (λ _ s', inv C None None s') s.
Proof.
  revert s. induction l as [|name l IH]; intros s I; cbn; [by wstep|]. wstep.
  eapply wpe_mono; [by apply Child_new_ok|]. cbn. intros c s1 (I1 & o & Ho & _). do 2 wstep. apply IH.
  apply inv_push_child; [done|by eapply lookup_lt_Some].
Qed.

Lemma inv_sigchld C X Y s b : inv C X Y s → inv C X Y (set_sigchld b s).
Proof. intros []. by split. Qed.

Section Program.
Context (by_address : gset nat → list nat) (child_list_file : bytes).
Context (Hby : ∀ W c, c ∈ by_address W → c ∈ W).

Lemma Run_ok C w o s :
  inv C None None s → watches s !! w = Some o →
  wpe lawful (Run child_list_file w) (λ _ s', inv C None None s') s.
Proof.
  intros I Ho. unfold Run. wstep. eapply wpe_mono; [by eapply RemoveWatch_ok|]. cbn. intros _ s1 [I1 _].
  do 2 wstep. pose proof (u_ifstream child_list_file (os s1)) as Hq.
  destruct (sys_ifstream _ _) as [[[contents fails]|] k]; cbn [fst snd] in *; [|by apply wpe_stop].
  wstep. eapply wpe_mono; [apply start_children_ok, inv_quiet; [exact Hq|done]|]. cbn. intros _ s2 I2.
  wsteps. by apply inv_sigchld.
Qed.

Lemma notify_ok C e s :
  inv C None None s → wpe lawful (notify child_list_file e) (λ _ s', inv C None None s') s.
Proof.
  intros I. unfold notify. do 2 wstep. destruct (watchers s !! ie_wd e) as [x|] eqn:Ex; [|by wstep].
  destruct (i_watchers _ _ _ _ I _ _ Ex) as (_ & w & o & -> & Ho & _).
  pose proof (Forall_lookup_1 _ _ _ _ (i_watches _ _ _ _ I) Ho) as [_ Hcb].
  destruct (negb _).
  { eapply wpe_mono; [by eapply WatchDeleted_ok|]. by intros _ s' [? _]. }
  assert (Hrun : wpe lawful (run_callback child_list_file w o) (λ _ s', inv C None None s') s).
  { unfold run_callback. destruct (callback_ o), (value_ o); try done; [by eapply Run_ok|by apply FileModified_ok]. }
  unfold FileNotified. wstep. eapply wpe_watch; [done|]. do 2 wstep.
  destruct (check_filename_ o); [done|]. destruct (ie_name e); [|by wstep]. case_bool_decide; [done|by wstep].
Qed.

Lemma notify_all_ok C l s :
  inv C None None s → wpe lawful (notify_all child_list_file l) (λ _ s', inv C None None s') s.
Proof.
  revert s. induction l as [|e l IH]; intros s I; cbn; [by wstep|]. wstep.
  eapply wpe_mono; [by apply notify_ok|]. cbn. intros _ s1 I1. by apply IH.
Qed.

Lemma INotifyReadable_ok C s :
  inv C None None s → wpe lawful (INotifyReadable child_list_file) (λ _ s', inv C None None s') s.
Proof.
  intros I. unfold INotifyReadable. do 4 wstep.
  set (r := sys_inotify_read _ (os s)). assert (Hq : quiet (os s) r.2) by apply u_inotify_read.
  destruct r as [[[[? ?] ?] ?] k]. cbn [fst snd] in *. do 4 wstep.
  pose proof (inv_quiet _ _ _ _ _ Hq I). destruct (negb (u64 _ =? _)); [by wstep|by apply notify_all_ok].
Qed.

Lemma dispatch_ok (C : nat) e s :
  inv (Some C) None None s → ready s e →
  wpe (λ e, lawful e ∨ e = Fuel) (dispatch by_address child_list_file e) (λ _ s', inv (Some C) None None s') s.
Proof.
  intros I Hr. destruct e as [|i| |fuel]; [| | |by apply SigCHLDReceived_ok];
    (eapply (wpe_weaken _ lawful); [by auto|]); cbn in *.
  - by apply INotifyReadable_ok.
  - by apply run_timeout_ok.
  - do 2 wstep. by apply StaticDoRestart_ok; [|apply inv_restart_timeout].
Qed.
End Program.

(** ** Main *)

Lemma inv_init k : procs k = ∅ → inv None None None (starter_init k).
Proof.
  intros Hk. split; cbn; rewrite ?Hk; try done; try by constructor; try (intros; lia); try set_solver. intros c. split; constructor.
Qed.

Lemma wait_for_ok n pid s :
  procs (os s) = {[pid]} →
  wpe (λ e, lawful e ∨ e = Fuel) (wait_for n pid)
    (λ r s', ∃ k, s' = set_os k s ∧ (r ≠ -1 → procs k = ∅)) s.
Proof.
  revert s. induction n as [|n IH]; intros s Hp; cbn; [apply wpe_stop; by right|]. do 2 wstep.
  pose proof (u_waitpid pid (os s)) as Hw. destruct (sys_waitpid pid (os s)) as [[[r st] errno] k]. cbn [fst snd] in *.
  destruct (r =? -1).
  - destruct (negb _); [wstep; by exists k|]. destruct Hw as (Q & _).
    eapply wpe_mono; [apply (IH (set_os k s)); cbn; congruence|]. cbn. intros r' s' (k' & -> & ?). by exists k'.
  - wstep. exists k. split; [done|]. intros _. destruct Hw as [-> _]. rewrite Hp. set_solver.
Qed.

Lemma util_RunCommand_ok n command s :
  procs (os s) = ∅ →
  wpe (λ e, lawful e ∨ e = Fuel) (util_RunCommand n command)
    (λ r s', ∃ k, s' = set_os k s ∧ (r ≠ -1 → procs k = ∅)) s.
Proof.
  intros Hp. unfold util_RunCommand. do 4 wstep. set (k1 := (sys_sigprocmask SIGCHLD true (os s)).2).
  assert (H1 : procs k1 = ∅) by (rewrite <-Hp; apply u_sigprocmask). clearbody k1. do 2 wstep. cbn [os set_os].
  pose proof (u_fork (Shell command) k1) as Hf. destruct (sys_fork (Shell command) k1) as [pid k2]. cbn [fst snd] in *.
  wstep. apply (wpe_mono _ _ (λ r s', ∃ k, s' = set_os k s ∧ (r ≠ -1 → procs k = ∅))).
  - destruct Hf as [[-> _]|(Hpos & _ & Hk2 & _)]; [cbn [Z.eqb Pos.eqb]; wstep; by exists k2|].
    rewrite (proj2 (Z.eqb_neq pid (-1))) by lia.
    eapply wpe_mono; [apply (wait_for_ok n pid (set_os k2 (set_os k1 s))); cbn; rewrite Hk2, H1; set_solver|].
    cbn. intros r s' (k & -> & ?). by exists k.
  - cbn. intros r s' (k & -> & Hr). wsteps. cbn [os set_os].
    exists (sys_sigprocmask SIGCHLD false k).2. split; [done|]. intros Hne. rewrite <-(Hr Hne). apply u_sigprocmask.
Qed.

Lemma Main_ok n k :
  procs k = ∅ →
  wpe (λ e, lawful e ∨ e = Fuel) (Main n) (λ _ s', ∃ C : nat, inv (Some C) None None s') (starter_init k).
Proof.
  intros Hk. unfold Main. do 3 wstep. eapply wpe_mono; [by apply util_RunCommand_ok|].
  cbn. intros r s1 (k1 & -> & Hr). do 4 wstep. apply negb_true_iff, Z.eqb_neq in Hreq.
  pose proof (inv_init k1 (Hr Hreq)) as I1. change (set_os k1 (starter_init k)) with (starter_init k1).
  set (s1 := starter_init k1) in *. clearbody s1. wstep.
  eapply (wpe_weaken _ lawful); [by auto|].
  eapply wpe_mono; [by apply (FileWatch_new_ok None None None)|]. cbn. intros w s2 [I2 _]. wstep.
  eapply (wpe_weaken _ lawful); [by auto|].
  eapply wpe_mono; [by apply Child_new_ok|]. cbn. intros c s3 (I3 & o & Ho & Hpos). do 4 wstep.
  set (s4 := set_os _ _).
  assert (I4 : inv (Some c) None None s4).
  { apply inv_quiet; [apply u_fopen|]. destruct I3. split; try done; cbn.
    - intros c' [= <-]. eauto.
    - intros c' Hc'. destruct (i_listed c' Hc') as [?|[?|?]]; [by left|congruence|by right; left]. }
  assert (Ho4 : objects s4 !! c = Some o) by done. clearbody s4. do 3 wstep. eapply wpe_child; [done|].
  wsteps. exists c. apply inv_quiet; [apply u_fprintf|done].
Qed.
End Watch.
