(* ===== verification/StarterTheorems.v ===== *)
(** * What the starter guarantees

    First a small operating system in which the laws of [UnixLaws] hold (commands print
    one line, the clock stands still, and a script says which processes die and which
    events inotify reports), for the examples; then the theorems. *)

From Stdlib Require Import Sorted.
From stdpp Require Import sorting.
From S2P Require Import Prelude SharedMem ByteOrder QueueTypes Time TimeProofs Serial Starter StarterProofs.
From S2P Require Import StarterDeaths.

Module SampleUnix.

Record kernel := mkKernel {
  k_pids : list Z; k_watches : Z; k_dead : list Z; k_events : list inotify_event }.

Definition top (l : list Z) : Z := foldr Z.max 0 l.

Lemma top_fresh l : 0 ≤ top l ∧ ∀ x, x ∈ l → x ≤ top l.
Proof.
  unfold top. induction l as [|y l [? IH]]; cbn; [split; [lia|set_solver]|]. split; [lia|].
  intros x [->|?%IH]%elem_of_cons; lia.
Qed.

Definition remove (p : Z) (l : list Z) : list Z := filter (λ q, q ≠ p) l.

#[global] Instance sample_unix : Unix kernel := {|
  sys_now k := (mkTime 7 0, k);
  sys_fork p k := (1 + top (k_pids k), mkKernel (1 + top (k_pids k) :: k_pids k) (k_watches k) (k_dead k) (k_events k));
  sys_kill p sig k := (0, k);
  sys_waitid k := match k_dead k with
    | p :: dead => if bool_decide (p ∈ k_pids k) && (0 <? p)
                   then (Some (mkInfo p 1 CLD_EXITED), mkKernel (remove p (k_pids k)) (k_watches k) dead (k_events k))
                   else (Some (mkInfo 0 0 CLD_OTHER), k)
    | [] => (Some (mkInfo 0 0 CLD_OTHER), k)
    end;
  sys_waitpid p k := if p =? -1 then ((-1, 0, 10), k) else ((p, 0, 0), mkKernel (remove p (k_pids k)) (k_watches k) (k_dead k) (k_events k));
  sys_unlink f k := (2, k);
  sys_link f g k := (0, k);
  sys_stat f k := (Some 5, k);
  sys_inotify_init1 k := (3, k);
  sys_inotify_add_watch fd f m k := (k_watches k, mkKernel (k_pids k) (k_watches k + 1) (k_dead k) (k_events k));
  sys_inotify_rm_watch fd w k := (0, k);
  sys_inotify_read fd k := ((0, 16, 16, k_events k), mkKernel (k_pids k) (k_watches k) (k_dead k) []);
  sys_popen c k := (Some (mkFILE (chars "/bin/a" ++ [newline]) false false false, 0), k);
  sys_evtimer_add t k := (0, k);
  sys_getpid k := 100;
  sys_sigprocmask n b k := (0, k);
  sys_sleep t k := k;
  sys_fopen f k := (true, k);
  sys_fprintf f t k := k;
  sys_ifstream f k := (Some (chars "reader -v" ++ [newline], false), k) |}.

Lemma elem_remove p q l : q ∈ remove p l ↔ q ≠ p ∧ q ∈ l.
Proof. unfold remove. rewrite list_elem_of_filter. done. Qed.

#[global] Program Instance sample_laws : UnixLaws kernel := {|
  procs k := list_to_set (k_pids k);
  clock k := 7 * G;
  stops k := 0%nat |}.
Next Obligation. intros k. unfold good_time, valid, in_signed. cbn. split_and!; (done || lia). Qed.
Next Obligation.
  intros p k. right. cbn. destruct (top_fresh (k_pids k)) as [? Ht]. split_and!; [lia| |set_solver|lia|lia].
  rewrite elem_of_list_to_set. intros ?%Ht. lia.
Qed.
Next Obligation.
  intros k. cbn. destruct (k_dead k) as [|p dead]; [cbn; auto with lia|].
  case_bool_decide as Hp; cbn; [|auto with lia]. destruct (Z.ltb_spec 0 p); cbn; [|auto with lia].
  split; [lia|]. right. split_and!; [done|by apply elem_of_list_to_set| |lia].
  apply set_eq. intros x. rewrite elem_of_difference, !elem_of_list_to_set, elem_remove. set_solver.
Qed.
Next Obligation.
  intros p k. cbn. destruct (Z.eqb_spec p (-1)) as [->|Hp]; cbn; [auto with lia|].
  rewrite (proj2 (Z.eqb_neq p (-1)) Hp). split_and!; [|lia|lia].
  apply set_eq. intros x. rewrite elem_of_difference, !elem_of_list_to_set, elem_remove. set_solver.
Qed.
Solve Obligations with (intros; cbn in *; simplify_eq; cbn; split_and?; (done || lia)).

End SampleUnix.

(** ** What the starter promises *)


(** ** The program running *)

Section Running.
Context {K : Type} `{!Unix K} `{!UnixLaws K}.
Context (by_address : gset nat → list nat) (child_list_file : bytes).
Implicit Types s : starter K.

(** libevent calls a handler whose event is there; or time passes and processes
    change their state. *)
Inductive starter_step s : starter K → Prop :=
| step_event e s' : ready s e → dispatch by_address child_list_file e s = Ok (tt, s') → starter_step s s'
| step_system k : keeps (os s) k → starter_step s (set_os k s).

Definition starter_reachable s : Prop :=
  ∃ k n s0, procs k = ∅ ∧ Main n (starter_init k) = Ok (tt, s0) ∧ steps starter_step s0 s.

Lemma reachable_inv s :
  (∀ W c, c ∈ by_address W → c ∈ W) → starter_reachable s → ∃ C : nat, inv (Some C) None None s.
Proof.
  intros Hby (k & n & s0 & Hk & HM & Hs). destruct (wpe_ok _ _ _ _ _ _ (Main_ok n k Hk) HM) as [C I].
  exists C. revert I. revert Hs. apply steps_invariant. clear s. intros s s' I [e s1 Hr Hd|k' Hk'].
  - exact (wpe_ok _ _ _ _ _ _ (dispatch_ok by_address child_list_file Hby C e s I Hr) Hd).
  - by apply inv_os.
Qed.
End Running.

(** Deaths in a window of time that were followed by a start at once. *)
Definition in_window (t : Z) (d : death) : Prop :=
  d_started d = true ∧ t ≤ ToNSec (d_time d) ∧ ToNSec (d_decided d) ≤ t + 4 * G.
#[global] Instance in_window_dec t d : Decision (in_window t d).
Proof. unfold in_window. apply _. Defined.

Lemma sorted_lookup {A} (R : A → A → Prop) l i j x y :
  StronglySorted R l → l !! i = Some x → l !! j = Some y → (i < j)%nat → R x y.
Proof.
  intros Hs Hi Hj Hlt. rewrite <-(take_drop j l) in Hs.
  apply (StronglySorted_app_1_elem_of _ _ _ x y Hs).
  - apply list_elem_of_lookup. exists i. by rewrite lookup_take_lt.
  - apply list_elem_of_lookup. exists 0%nat. by rewrite lookup_drop, Nat.add_0_r.
Qed.

(** If the times go up, one of three deaths in the window is third from the end or
    before it. *)
Lemma third_last_in_window t (l : list death) :
  StronglySorted (λ t u, ToNSec t ≤ ToNSec u) (d_time <$> l) → (3 ≤ length (filter (in_window t) l))%nat →
  ∃ d, l !! (length l - 3)%nat = Some d ∧ t ≤ ToNSec (d_time d).
Proof.
  intros Hs Hn. set (m := (length l - 2)%nat).
  assert (H : ∃ d, d ∈ take m l ∧ in_window t d).
  { rewrite <-(take_drop m l), filter_app, length_app in Hn.
    pose proof (length_filter (in_window t) (drop m l)) as Hd. rewrite length_drop in Hd.
    destruct (filter (in_window t) (take m l)) as [|d f] eqn:E; [cbn in Hn; lia|].
    assert (d ∈ filter (in_window t) (take m l)) as [? ?]%list_elem_of_filter by (rewrite E; set_solver). eauto. }
  destruct H as (d & (i & Hi)%list_elem_of_lookup & (_ & Ht & _)). apply lookup_take_Some in Hi as [Hi Hlt].
  assert (Hl : is_Some (l !! (length l - 3)%nat)) by (apply lookup_lt_is_Some; lia). destruct Hl as [d3 Hd3].
  exists d3. split; [done|]. destruct (decide (i = length l - 3)%nat) as [->|Hne]; [congruence|].
  enough (ToNSec (d_time d) ≤ ToNSec (d_time d3)) by lia.
  apply (sorted_lookup _ _ i (length l - 3)%nat _ _ Hs); rewrite ?list_lookup_fmap, ?Hi, ?Hd3; [done|done|lia].
Qed.

(** At most three of them. *)
Lemma window_bound now l t :
  throttled l → times_ok now (d_time <$> l) → (length (filter (in_window t) l) ≤ 3)%nat.
Proof.
  induction l as [|d l IH] using rev_ind; intros Ht Hs; [cbn; lia|].
  assert (Hpre : throttled l).
  { intros i d' Hi. pose proof (Ht i d' (lookup_app_l_Some _ _ _ _ Hi)) as E. apply lookup_lt_Some in Hi.
    by rewrite lookup_app_l in E by lia. }
  rewrite fmap_app in Hs. destruct Hs as [[Hf _]%Forall_app Hs]. apply StronglySorted_app_1_l in Hs.
  specialize (IH Hpre (conj Hf Hs)). rewrite filter_app, length_app, filter_cons. case_decide as Hd; [|cbn; lia].
  cbn [length filter list_filter]. destruct (decide (length (filter (in_window t) l) = 3)%nat) as [E|E]; [|lia].
  exfalso. destruct (third_last_in_window t l Hs) as (d0 & Hd0 & Ht0); [lia|]. destruct Hd as (Hst & _ & Hdec).
  pose proof (length_filter (in_window t) l).
  pose proof (Ht (length l) d) as Hrule. rewrite lookup_app_r, Nat.sub_diag in Hrule by done. specialize (Hrule eq_refl).
  rewrite Hst, lookup_app_l, Hd0, (proj2 (Nat.ltb_ge _ _)) in Hrule by lia.
  symmetry in Hrule. apply bool_decide_eq_true in Hrule. lia.
Qed.

(** ** A run: Main, core touches its file, the list is read, the reader dies four times *)

Module SampleRun.
Import SampleUnix.

Definition order (W : gset nat) : list nat := elements W.
Definition list_file : bytes := chars "start_list.txt".

Lemma order_ok W c : c ∈ order W → c ∈ W.
Proof. unfold order. by rewrite elem_of_elements. Qed.

Definition boot : kernel := mkKernel [] 1 [] [mkEvent 1 IN_ATTRIB None].

Definition state (m : ST (starter kernel) unit) (s : starter kernel) : starter kernel :=
  match m s with Ok (_, s') => s' | Err _ => s end.

Definition s_main := Eval vm_compute in state (Main 1) (starter_init boot).
Definition s_run := Eval vm_compute in state (dispatch order list_file EvINotify) s_main.
Definition s_dying := Eval vm_compute in set_os (mkKernel (k_pids (os s_run)) (k_watches (os s_run)) [2; 2; 2; 2] []) s_run.
Definition s_dead := Eval vm_compute in state (dispatch order list_file (EvSigchld 6)) s_dying.

(** The watch of core's file is removed, and the kernel confirms it. *)
Definition s_removed := Eval vm_compute in state (RemoveWatch 0) s_main.
Definition s_ignored := Eval vm_compute in state (notify list_file (mkEvent 1 IN_IGNORED None)) s_removed.

Lemma main_reachable : starter_reachable order list_file s_main.
Proof. exists boot, 1%nat, s_main. split_and!; [done|vm_compute; reflexivity|constructor]. Qed.

Lemma dying_reachable : starter_reachable order list_file s_dying.
Proof.
  destruct main_reachable as (k & n & s0 & Hk & HM & Hs). exists k, n, s0. split_and!; [done|done|].
  eapply steps_app; [exact Hs|]. apply (steps_cons _ _ s_run).
  - apply (step_event _ _ _ EvINotify); [by exists 3|vm_compute; reflexivity].
  - apply steps_one. apply (step_system _ _ s_run). split; [done|cbn; lia].
Qed.

Lemma dead_reachable : starter_reachable order list_file s_dead.
Proof.
  destruct dying_reachable as (k & n & s0 & Hk & HM & Hs). exists k, n, s0. split_and!; [done|done|].
  eapply steps_app; [exact Hs|]. apply steps_one.
  apply (step_event _ _ _ (EvSigchld 6)); [done|vm_compute; reflexivity].
Qed.
End SampleRun.

(** ** Theorems *)

(** C9: in every state the starter can reach, each child either has a process that
    no other child has and that the kernel still knows, and no timer to start it, or
    it has no process and exactly one timer that will start it; every process the
    starter forked and has not waited for belongs to a child that [FindChild] finds;
    [core] runs; and no handler that libevent may call runs into undefined
    behaviour.  So the code that kills a child before starting it a second time is
    never needed, and no report of [waitid] is lost. *)
Theorem children_supervised {K} `{!Unix K} `{!UnixLaws K} by_address child_list_file (s : starter K) :
  (∀ W c, c ∈ by_address W → c ∈ W) → starter_reachable by_address child_list_file s →
  (∀ c o, objects s !! c = Some o →
    (0 < pid_ o ∧ pid_ o ∈ procs (os s) ∧ start_count c (timeouts s) = 0%nat) ∨
    (pid_ o = -1 ∧ start_count c (timeouts s) = 1%nat)) ∧
  (∀ c1 c2 o1 o2, objects s !! c1 = Some o1 → objects s !! c2 = Some o2 →
    pid_ o1 = pid_ o2 → pid_ o1 ≠ -1 → c1 = c2) ∧
  (∀ pid, pid ∈ procs (os s) → ∃ c o, FindChild pid s = Ok (Some c, s) ∧ objects s !! c = Some o ∧ pid_ o = pid) ∧
  (∃ c o, core s = Some c ∧ objects s !! c = Some o ∧ 0 < pid_ o) ∧
  (∀ e, ready s e → dispatch by_address child_list_file e s ≠ Err Undefined).
Proof.
  intros Hby Hr. destruct (reachable_inv by_address child_list_file s Hby Hr) as [C I]. pose proof I as [].
  split_and!; [|done| | |].
  - intros c o Ho. destruct (i_child c o Ho) as [(? & ? & ? & _)|[? E]]; [by left|right].
    rewrite decide_False in E by done. done.
  - intros pid Hp. destruct (FindChild_found C s (os s) pid I Hp) as (c & o & E & ? & ? & _).
    exists c, o. replace (set_os (os s) s) with s in E by by destruct s. done.
  - destruct (i_core_runs C i_core) as (o & ? & ?). by exists C, o.
  - intros e He Hu. pose proof (dispatch_ok by_address child_list_file Hby C e s I He) as Hd.
    unfold wpe in Hd. rewrite Hu in Hd. by destruct Hd.
Qed.

Lemma children_supervised_witness :
  ∃ o, objects SampleRun.s_dead !! 1%nat = Some o ∧ pid_ o = -1 ∧ start_count 1 (timeouts SampleRun.s_dead) = 1%nat.
Proof.
  destruct (children_supervised SampleRun.order SampleRun.list_file SampleRun.s_dead
    SampleRun.order_ok SampleRun.dead_reachable) as [H _].
  eexists. split; [reflexivity|]. destruct (H 1%nat _ eq_refl) as [[Hp _]|H1]; [by vm_compute in Hp|exact H1].
Defined.



(** C13: the handler of SIGCHLD ends.  Its loop, which goes on as long as [waitid]
    has something to report, makes at most four turns per child and one per report
    of a stopped process within any four seconds: with that many turns it has
    returned or ended the program, unless four seconds have passed meanwhile; and as
    [core] is always there, [waitid] never fails. *)
Theorem sigchld_returns {K} `{!Unix K} `{!UnixLaws K} by_address child_list_file (s : starter K) fuel :
  (∀ W c, c ∈ by_address W → c ∈ W) → starter_reachable by_address child_list_file s →
  (4 * length (objects s) + stops (os s) < fuel)%nat →
  match SigCHLDReceived fuel s with
  | Ok (_, s') => ∃ C : nat, inv (Some C) None None s'
  | Err Fuel => ∃ s', runs fuel s s' ∧ 4 * G < clock (os s') - clock (os s)
  | Err e => e = Fatal ∨ e = Abort
  end.
Proof.
  intros Hby Hr Hf. destruct (reachable_inv by_address child_list_file s Hby Hr) as [C I].
  pose proof (SigCHLDReceived_ok C fuel s I) as H. unfold wpe in H.
  destruct (SigCHLDReceived fuel s) as [[[] s']|e] eqn:E; [by exists C|].
  destruct e; [by left|by right|by destruct H|].
  destruct (out_of_turns C fuel s I E) as [s' Hs']. exists s'. split; [done|].
  destruct (decide (clock (os s') - clock (os s) ≤ 4 * G)) as [Hle|]; [|lia].
  destruct (runs_bounded C (clock (os s)) fuel s s' Hs' I (Z.le_refl _) Hle) as [Hb _].
  assert (all_lives (clock (os s)) s ≤ 4 * length (objects s))%nat; [|lia].
  unfold all_lives. clear. induction (objects s) as [|o l IH]; cbn; [lia|].
  assert (lives (clock (os s)) o ≤ 4)%nat by (unfold lives; case_match; lia). lia.
Qed.

Lemma sigchld_returns_witness :
  match SigCHLDReceived 9 SampleRun.s_dying with
  | Ok (_, s') => ∃ C : nat, inv (Some C) None None s'
  | Err _ => False
  end.
Proof.
  pose proof (sigchld_returns SampleRun.order SampleRun.list_file SampleRun.s_dying 9
    SampleRun.order_ok SampleRun.dying_reachable ltac:(cbn; lia)) as H.
  destruct (SigCHLDReceived 9 SampleRun.s_dying) as [[u s']|e] eqn:E; [exact H|by vm_compute in E].
Defined.

(** [RemoveWatch] does not get rid of a watch.  The entry of the map stays until
    the kernel confirms the removal (IN_IGNORED); that makes [WatchDeleted] create
    the watch again, so that later changes of the file call the callback again, and
    any other event of the watch that was still queued ends the program. *)
Theorem removed_watch {K} `{!Unix K} `{!UnixLaws K} by_address child_list_file (s s1 : starter K) w o e :
  (∀ W c, c ∈ by_address W → c ∈ W) → starter_reachable by_address child_list_file s → watches s !! w = Some o → watchers s !! watch_ o = Some (Some w) →
  RemoveWatch w s = Ok (tt, s1) → ie_wd e = watch_ o →
  if Z.land (ie_mask e) IN_IGNORED =? 0
  then notify child_list_file e s1 = Err Fatal
  else ∀ s2, notify child_list_file e s1 = Ok (tt, s2) →
    ∃ o2, watches s2 !! w = Some o2 ∧ watch_ o2 ≠ -1 ∧ watchers s2 !! watch_ o2 = Some (Some w) ∧
      callback_ o2 = callback_ o ∧ filename_ o2 = filename_ o.
Proof.
  intros Hby Hr Ho Hm HR He. destruct (reachable_inv by_address child_list_file s Hby Hr) as [C I].
  pose proof (wpe_ok _ _ _ _ _ _ (RemoveWatch_ok _ _ _ _ _ _ I Ho) HR) as [I1 _].
  assert (Hs1 : watches s1 !! w = Some (set_watch (-1) (watch_ o) o) ∧ watchers s1 = watchers s).
  { revert HR. unfold RemoveWatch, get_watch, require, os_call, upd_watch. mstep. rewrite Ho.
    destruct (negb _); [|done]. destruct (watch_to_remove_ o =? -1); [|done].
    destruct (sys_inotify_rm_watch _ _ _) as [r k]. intros [= <-]. cbn. by rewrite list_lookup_alter_eq, Ho. }
  destruct Hs1 as [Ho1 Hw1]. rewrite <-Hw1, <-He in Hm.
  assert (Hn : notify child_list_file e s1 = (if negb (Z.land (ie_mask e) IN_IGNORED =? 0) then WatchDeleted w
      else FileNotified child_list_file w (ie_name e)) s1).
  { unfold notify. mstep. by rewrite Hm. }
  rewrite Hn. destruct (Z.land (ie_mask e) IN_IGNORED =? 0); cbn [negb].
  - unfold FileNotified, get_watch, require. mstep. by rewrite Ho1.
  - intros s2 H2. pose proof (wpe_ok _ _ _ _ _ _ (WatchDeleted_ok _ _ _ _ _ _ I1 Hm) H2) as (I2 & _ & o1 & o2 & E1 & E2 & E3 & E4 & E5).
    rewrite Ho1 in E1. injection E1 as <-. exists o2. split_and!; [done| |done|done|done].
    apply (i_watchers _ _ _ _ I2 _ _ E3).
Qed.

Lemma removed_watch_witness :
  notify SampleRun.list_file (mkEvent 1 IN_ATTRIB None) SampleRun.s_removed = Err Fatal ∧
  ∃ o, watches SampleRun.s_ignored !! 0%nat = Some o ∧ watch_ o ≠ -1 ∧ callback_ o = cb_Run.
Proof.
  split.
  - apply (removed_watch SampleRun.order SampleRun.list_file SampleRun.s_main SampleRun.s_removed 0 _
      (mkEvent 1 IN_ATTRIB None) SampleRun.order_ok SampleRun.main_reachable eq_refl); reflexivity.
  - assert (E : notify SampleRun.list_file (mkEvent 1 IN_IGNORED None) SampleRun.s_removed =
      Ok (tt, SampleRun.s_ignored)) by (vm_compute; reflexivity).
    destruct (removed_watch SampleRun.order SampleRun.list_file SampleRun.s_main SampleRun.s_removed 0 _
      (mkEvent 1 IN_IGNORED None) SampleRun.order_ok SampleRun.main_reachable eq_refl eq_refl eq_refl eq_refl
      SampleRun.s_ignored E) as (o & H1 & H2 & _ & H3 & _). by exists o.
Defined.
