(* ===== verification/Actions.v ===== *)
(** * Actions: aos/common/actions/actor.h, actions.h and actions.cc

    A client asks an actor, in another process, to do something by sending a goal
    with a nonzero number in [run], and follows it by the statuses the actor sends.
    The two queues are used through the description that the typed queues are shown
    to satisfy (TypedTheorems): the list of all messages sent, and what each queue
    object has seen of it.

    The actor is a machine that makes one operation on a queue per step; the client
    is a program, and [sched] says how many steps the actor makes before each of the
    client's operations, so that the two are interleaved in every way. *)

From S2P Require Import Prelude SharedMem Time TypedQueueProofs.

(** ** Messages *)

Record Goal (P : Type) := mkGoal { g_run : Z; g_params : P }.
Arguments mkGoal {P} _ _.
Arguments g_run {P} _.
Arguments g_params {P} _.

Record Status := mkStatus { running : Z; last_running : Z; success : bool }.

(** ** The two sides *)

(** Where the actor is: in [CheckInitialRunning] (before the fetch, and waiting), at
    the end of [Initialize], in [WaitForActionRequest] (waiting, and about to answer
    a cancellation), in [RunIteration] (before the first status, in [RunAction], after
    it), in [WaitForStop]. *)
Inductive actor_pc :=
| AtInit | AtInitWait (initially_running : Z) | AtInitSend
| AtRequest | AtRequestSend
| AtStart | AtAction (running_id : Z) | AtEnd (running_id : Z)
| AtStop (running_id : Z).

Record ActorBase (P : Type) := mkActor { abort_ : bool; a_goal : view (Goal P); a_pc : actor_pc }.
Arguments mkActor {P} _ _ _.
Arguments abort_ {P} _.
Arguments a_goal {P} _.
Arguments a_pc {P} _.

(** What the code of an action does next: call [ShouldCancel], or return. *)
Inductive code_step := Check_ | Finish (ok : bool).

Record TypedAction (P : Type) := mkAction {
  goal_ : bool;
  has_started_ : bool;
  sent_started_ : bool;
  sent_cancel_ : bool;
  interrupted_ : bool;
  run_value_ : Z;
  params_ : P;
  old_run_value_ : Z }.
Arguments mkAction {P} _ _ _ _ _ _ _ _.
Arguments goal_ {P} _.
Arguments has_started_ {P} _.
Arguments sent_started_ {P} _.
Arguments sent_cancel_ {P} _.
Arguments interrupted_ {P} _.
Arguments run_value_ {P} _.
Arguments params_ {P} _.
Arguments old_run_value_ {P} _.

(** [c_status]: the client's status object; [run_counter_] is shared by its actions. *)
Record system (P : Type) := mkSystem {
  goals : list (Goal P);
  statuses : list Status;
  the_actor : ActorBase P;
  c_status : view Status;
  run_counter_ : Z;
  current_action_ : option (TypedAction P);
  next_action_ : option (TypedAction P);
  sched : list nat;
  moves : list code_step }.
Arguments mkSystem {P} _ _ _ _ _ _ _ _ _.
Arguments goals {P} _.
Arguments statuses {P} _.
Arguments the_actor {P} _.
Arguments c_status {P} _.
Arguments run_counter_ {P} _.
Arguments current_action_ {P} _.
Arguments next_action_ {P} _.
Arguments sched {P} _.
Arguments moves {P} _.

Section Actions.
Context {P : Type} (no_params : P) (goal_cap status_cap pid : Z).

Notation MS := (ST (system P)).

Definition set_goals (l : list (Goal P)) (s : system P) : system P :=
  mkSystem l (statuses s) (the_actor s) (c_status s) (run_counter_ s) (current_action_ s) (next_action_ s) (sched s) (moves s).
Definition set_statuses (l : list Status) (s : system P) : system P :=
  mkSystem (goals s) l (the_actor s) (c_status s) (run_counter_ s) (current_action_ s) (next_action_ s) (sched s) (moves s).
Definition set_actor (a : ActorBase P) (s : system P) : system P :=
  mkSystem (goals s) (statuses s) a (c_status s) (run_counter_ s) (current_action_ s) (next_action_ s) (sched s) (moves s).
Definition set_c_status (v : view Status) (s : system P) : system P :=
  mkSystem (goals s) (statuses s) (the_actor s) v (run_counter_ s) (current_action_ s) (next_action_ s) (sched s) (moves s).
Definition set_run_counter (c : Z) (s : system P) : system P :=
  mkSystem (goals s) (statuses s) (the_actor s) (c_status s) c (current_action_ s) (next_action_ s) (sched s) (moves s).
Definition set_current (a : option (TypedAction P)) (s : system P) : system P :=
  mkSystem (goals s) (statuses s) (the_actor s) (c_status s) (run_counter_ s) a (next_action_ s) (sched s) (moves s).
Definition set_next_action (a : option (TypedAction P)) (s : system P) : system P :=
  mkSystem (goals s) (statuses s) (the_actor s) (c_status s) (run_counter_ s) (current_action_ s) a (sched s) (moves s).
Definition set_sched (l : list nat) (s : system P) : system P :=
  mkSystem (goals s) (statuses s) (the_actor s) (c_status s) (run_counter_ s) (current_action_ s) (next_action_ s) l (moves s).
Definition set_moves (l : list code_step) (s : system P) : system P :=
  mkSystem (goals s) (statuses s) (the_actor s) (c_status s) (run_counter_ s) (current_action_ s) (next_action_ s) (sched s) l.

(** ** ActorBase *)

Definition goal_run (a : ActorBase P) : res Z :=
  match v_value (a_goal a) with Some g => Ok (g_run g) | None => Err Undefined end.

(** The test of the loop. *)
Definition WaitForActionRequest (a : ActorBase P) : actor_pc :=
  match v_value (a_goal a) with
  | Some g => if g_run g =? 0 then AtRequest else AtStart
  | None => AtRequest
  end.

Definition at_pc (a : ActorBase P) (pc : actor_pc) : ActorBase P := mkActor (abort_ a) (a_goal a) pc.

Definition WaitForStop (a : ActorBase P) (running_id : Z) : res actor_pc :=
  r ← goal_run a; Ok (if r =? running_id then AtStop running_id else WaitForActionRequest a).

(** [status.MakeWithBuilder()...Send()] *)
Definition send_status (a : ActorBase P) (run last : Z) (s : system P) : system P :=
  set_statuses (statuses s ++ [mkStatus run last (negb (abort_ a))]) s.

(** [goal.FetchNextBlocking()]: [None] if there is nothing to fetch yet. *)
Definition goal_FetchNextBlocking (a : ActorBase P) (s : system P) : option (ActorBase P) :=
  let '(b, v) := spec_next goal_cap (goals s) (a_goal a) in
  if b then Some (mkActor (abort_ a) v (a_pc a)) else None.

Definition goal_FetchNext (a : ActorBase P) (s : system P) : ActorBase P :=
  mkActor (abort_ a) (spec_next goal_cap (goals s) (a_goal a)).2 (a_pc a).

(** [ShouldCancel]: the object afterwards and the answer. *)
Definition ShouldCancel (a : ActorBase P) (s : system P) : res (bool * ActorBase P) :=
  let a := goal_FetchNext a s in
  r ← goal_run a; Ok (r =? 0, a).

Definition actor_step (s : system P) : res (system P) :=
  let a := the_actor s in
  let wait (k : ActorBase P → res actor_pc) : res (system P) :=
    match goal_FetchNextBlocking a s with
    | None => Ok s
    | Some a => pc ← k a; Ok (set_actor (at_pc a pc) s)
    end in
  match a_pc a with
  | AtInit =>
      let '(b, v) := spec_latest (goals s) (a_goal a) in
      let a := mkActor (abort_ a) v (a_pc a) in
      pc ← (if b then r ← goal_run a; Ok (if negb (r =? 0) then AtInitWait r else AtInitSend)
            else Ok AtInitSend);
      Ok (set_actor (at_pc a pc) s)
  | AtInitWait initially_running =>
      wait (λ a, r ← goal_run a; Ok (if r =? initially_running then AtInitWait r else AtInitSend))
  | AtInitSend => Ok (set_actor (at_pc a (WaitForActionRequest a)) (send_status a 0 0 s))
  | AtRequest => wait (λ a, r ← goal_run a; Ok (if r =? 0 then AtRequestSend else AtStart))
  | AtRequestSend => Ok (set_actor (at_pc a (WaitForActionRequest a)) (send_status a 0 0 s))
  | AtStart =>
      match v_value (a_goal a) with
      | None => Err Fatal
      | Some g => Ok (set_actor (at_pc a (AtAction (g_run g))) (send_status a (g_run g) 0 s))
      end
  | AtAction running_id =>
      match moves s with
      | [] => Ok s
      | Check_ :: ms =>
          '(_, a) ← ShouldCancel a s; Ok (set_moves ms (set_actor a s))
      | Finish ok :: ms =>
          Ok (set_moves ms (set_actor (mkActor (negb ok) (a_goal a) (AtEnd running_id)) s))
      end
  | AtEnd running_id =>
      r ← goal_run a;
      pc ← WaitForStop a running_id;
      Ok (set_actor (at_pc a pc)
            (if (r =? 0) || (r =? running_id) then send_status a 0 running_id s else s))
  | AtStop running_id => wait (λ a, WaitForStop a running_id)
  end.

Fixpoint actor_steps (n : nat) (s : system P) : res (system P) :=
  match n with O => Ok s | S n => s ← actor_step s; actor_steps n s end.

(** [WaitUntil], for an action's code: [done] is the condition, which may take time
    and let others run, and [now] reads the clock. *)
Definition clear_abort (s : system P) : system P :=
  set_actor (mkActor false (a_goal (the_actor s)) (a_pc (the_actor s))) s.

Fixpoint WaitUntil (fuel : nat) (done : MS bool) (now : MS Time) (end_time : Time) : MS bool :=
  match fuel with
  | O => st_stop Fuel
  | S fuel =>
      d ← done;
      s ← st_get;
      '(c, a) ← st_lift (ShouldCancel (the_actor s) s);
      _ ← st_modify (set_actor a);
      if (c : bool) || abort_ a then _ ← st_modify clear_abort; mret true
      else if (d : bool) then mret false
      else if negb (Time_eqb end_time kZero) then
        t ← now;
        if Time_geb t end_time then mret false else WaitUntil fuel done now end_time
      else WaitUntil fuel done now end_time
  end.

(** [WaitOrCancel]: [loop] is a turn of the control loop. *)
Definition WaitOrCancel (fuel : nat) (loop : MS unit) (now : MS Time) (duration : Time) : MS bool :=
  t ← now;
  end_time ← st_lift (Time_add t duration);
  b ← WaitUntil fuel (_ ← loop; mret false) now end_time;
  mret (negb b).

(** ** The client's operations on the queues *)

(** The actor's steps before the next operation. *)
Definition others : MS unit := λ s,
  match sched s with
  | [] => Ok (tt, s)
  | n :: l => match actor_steps n (set_sched l s) with Ok s => Ok (tt, s) | Err e => Err e end
  end.

Definition status_FetchNext : MS bool :=
  _ ← others;
  s ← st_get;
  let '(b, v) := spec_next status_cap (statuses s) (c_status s) in
  _ ← st_modify (set_c_status v);
  mret b.

Definition status_FetchLatest : MS bool :=
  _ ← others;
  s ← st_get;
  let '(b, v) := spec_latest (statuses s) (c_status s) in
  _ ← st_modify (set_c_status v);
  mret b.

Fixpoint status_FetchNextBlocking (fuel : nat) : MS unit :=
  match fuel with
  | O => st_stop Fuel
  | S fuel => b ← status_FetchNext; if (b : bool) then mret tt else status_FetchNextBlocking fuel
  end.

(** A write that overrides old messages always succeeds. *)
Definition send_goal (g : Goal P) : MS bool :=
  _ ← others;
  _ ← st_modify (λ s, set_goals (goals s ++ [g]) s);
  mret true.

(** ** TypedAction *)

Definition next_run_value (counter : Z) : Z := u32 (Z.lor counter (Z.shiftl (Z.land pid 0xFFFF) 16)).

(** [old_run_value_] is not initialised; it is not read before [DoStart]. *)
Definition TypedAction_new (params : P) : MS (TypedAction P) :=
  s ← st_get;
  _ ← st_modify (set_run_counter (u16 (run_counter_ s + 1)));
  _ ← status_FetchLatest;
  mret (mkAction true false false false false (next_run_value (run_counter_ s)) params 0).

Definition set_flags (started interrupted : bool) (a : TypedAction P) : TypedAction P :=
  mkAction (goal_ a) started (sent_started_ a) (sent_cancel_ a) interrupted (run_value_ a) (params_ a) (old_run_value_ a).

Definition DoCancel (a : TypedAction P) : MS (TypedAction P) :=
  if negb (sent_started_ a) then mret a
  else if interrupted_ a then mret a
  else if sent_cancel_ a then mret a
  else
    _ ← send_goal (mkGoal 0 no_params);
    mret (mkAction (goal_ a) (has_started_ a) (sent_started_ a) true (interrupted_ a) (run_value_ a)
            (params_ a) (old_run_value_ a)).

Definition CheckStarted (a : TypedAction P) (status : option Status) : TypedAction P :=
  if has_started_ a then a
  else
    match status with
    | None => a
    | Some st =>
        if (running st =? run_value_ a) || ((running st =? 0) && (last_running st =? run_value_ a))
        then set_flags true (interrupted_ a) a
        else if negb (old_run_value_ a =? 0) && (running st =? old_run_value_ a) then a
        else set_flags true true a
    end.

(** Whether it warns; it changes nothing. *)
Definition CheckInterrupted (a : TypedAction P) (status : option Status) : bool :=
  match status with
  | Some st => negb (interrupted_ a) && has_started_ a && negb (running st =? 0) && negb (running st =? run_value_ a)
  | None => false
  end.

(** [while (status.FetchNext()) { CheckStarted(); ... }] *)
Fixpoint follow (fuel : nat) (a : TypedAction P) : MS (TypedAction P) :=
  match fuel with
  | O => st_stop Fuel
  | S fuel =>
      b ← status_FetchNext;
      if (b : bool) then s ← st_get; follow fuel (CheckStarted a (v_value (c_status s))) else mret a
  end.

Definition DoRunning (fuel : nat) (a : TypedAction P) : MS (bool * TypedAction P) :=
  if negb (sent_started_ a) then mret (false, a)
  else
    a ← (if has_started_ a then _ ← status_FetchNext; mret a else follow fuel a);
    if interrupted_ a then mret (false, a)
    else if negb (has_started_ a) then mret (true, a)
    else
      s ← st_get;
      mret (match v_value (c_status s) with Some st => running st =? run_value_ a | None => false end, a).

Definition DoCheckIteration (fuel : nat) (blocking : bool) (a : TypedAction P) : MS (bool * TypedAction P) :=
  if negb (sent_started_ a) then st_stop Fatal
  else if interrupted_ a then mret (true, a)
  else
    s ← st_get;
    let a := CheckStarted a (v_value (c_status s)) in
    b ← (if blocking then _ ← status_FetchNextBlocking fuel; mret true else status_FetchNext);
    if negb b then mret (false, a)
    else
      s ← st_get;
      let a := CheckStarted a (v_value (c_status s)) in
      mret (has_started_ a && match v_value (c_status s) with
                              | Some st => negb (running st =? run_value_ a) | None => false end, a).

Fixpoint wait_done (n fuel : nat) (a : TypedAction P) : MS (TypedAction P) :=
  match n with
  | O => st_stop Fuel
  | S n => '(b, a) ← DoCheckIteration fuel true a; if (b : bool) then mret a else wait_done n fuel a
  end.

(** The log message in front of the loop reads the status that was fetched. *)
Definition DoWaitUntilDone (n fuel : nat) (a : TypedAction P) : MS (TypedAction P) :=
  if negb (sent_started_ a) then st_stop Fatal
  else
    _ ← status_FetchNext;
    s ← st_get;
    match v_value (c_status s) with
    | None => st_stop Undefined
    | Some _ => wait_done n fuel a
    end.

Definition DoStart (a : TypedAction P) : MS (TypedAction P) :=
  if goal_ a then
    b ← send_goal (mkGoal (run_value_ a) (params_ a));
    _ ← status_FetchNext;
    s ← st_get;
    let old := match v_value (c_status s) with
               | Some st => if negb (running st =? 0) then running st else 0 | None => 0 end in
    mret (mkAction false (has_started_ a || negb b) true (sent_cancel_ a) (interrupted_ a) (run_value_ a)
            (params_ a) old)
  else mret a.

(** [DoGetState]: the flags, [run_value_] and [old_run_value_]. *)
Definition GetState (a : TypedAction P) : bool * bool * bool * bool * Z * Z :=
  (has_started_ a, sent_started_ a, sent_cancel_ a, interrupted_ a, run_value_ a, old_run_value_ a).

(** ** ActionQueue *)

(** A [unique_ptr] that gives up what it held: the destructor cancels. *)
Definition destroy (a : option (TypedAction P)) : MS unit :=
  match a with Some a => _ ← DoCancel a; mret tt | None => mret tt end.

Definition EnqueueAction (action : TypedAction P) : MS unit :=
  s ← st_get;
  match current_action_ s with
  | Some c =>
      c ← DoCancel c;
      _ ← st_modify (set_current (Some c));
      s ← st_get;
      _ ← st_modify (set_next_action (Some action));
      destroy (next_action_ s)
  | None =>
      a ← DoStart action;
      st_modify (set_current (Some a))
  end.

Definition CancelCurrentAction : MS unit :=
  s ← st_get;
  match current_action_ s with
  | Some c => c ← DoCancel c; st_modify (set_current (Some c))
  | None => mret tt
  end.

Definition CancelAllActions : MS unit :=
  _ ← CancelCurrentAction;
  s ← st_get;
  _ ← st_modify (set_next_action None);
  destroy (next_action_ s).

Definition Tick (fuel : nat) : MS unit :=
  s ← st_get;
  match current_action_ s with
  | None => mret tt
  | Some c =>
      '(r, c) ← DoRunning fuel c;
      _ ← st_modify (set_current (Some c));
      if (r : bool) then mret tt
      else
        s ← st_get;
        _ ← st_modify (λ s, set_next_action None (set_current (next_action_ s) s));
        _ ← destroy (Some c);
        match next_action_ s with
        | None => mret tt
        | Some a => a ← DoStart a; st_modify (set_current (Some a))
        end
  end.

Definition ActionQueue_Running (s : system P) : bool := bool_decide (is_Some (current_action_ s)).

Definition GetCurrentActionState (s : system P) : option (bool * bool * bool * bool * Z * Z) := GetState <$> current_action_ s.
Definition GetNextActionState (s : system P) : option (bool * bool * bool * bool * Z * Z) := GetState <$> next_action_ s.

(** ** Clients *)

Inductive call := CEnqueue (params : P) | CCancelCurrent | CCancelAll | CTick (fuel : nat).

Definition do_call (c : call) : MS unit :=
  match c with
  | CEnqueue p => a ← TypedAction_new p; EnqueueAction a
  | CCancelCurrent => CancelCurrentAction
  | CCancelAll => CancelAllActions
  | CTick fuel => Tick fuel
  end.
End Actions.
