(* ===== verification/ActionsProofs.v ===== *)
(** * Actions: the protocol between a client and its actor *)

From S2P Require Import Prelude SharedMem Time TypedQueueProofs Actions.

(** ** What is on the queues *)

Definition st_pair (st : Status) : Z * Z := (running st, last_running st).

(** The goals of actions that are over, and the statuses they get. *)
Definition goal_seq (past : list Z) : list Z := flat_map (λ r, [r; 0]) past.
Definition pairs_of (past : list Z) : list (Z * Z) := flat_map (λ r, [(r, 0); (0, r)]) past.

(** The action that is going on, and whether it was cancelled. *)
Definition cur_goals (cur : option (Z * bool)) : list Z :=
  match cur with Some (r, z) => r :: if z then [0] else [] | None => [] end.

Lemma goal_seq_app l1 l2 : goal_seq (l1 ++ l2) = goal_seq l1 ++ goal_seq l2.
Proof. apply flat_map_app. Qed.
Lemma pairs_of_app l1 l2 : pairs_of (l1 ++ l2) = pairs_of l1 ++ pairs_of l2.
Proof. apply flat_map_app. Qed.
Lemma goal_seq_length l : length (goal_seq l) = (2 * length l)%nat.
Proof. unfold goal_seq. induction l; cbn; lia. Qed.
Lemma pairs_of_length l : length (pairs_of l) = (2 * length l)%nat.
Proof. unfold pairs_of. induction l; cbn; lia. Qed.

(** How far the actor is: behind (it has not seen yet that the last action was
    stopped), waiting, and through the action [r] up to its end. *)
Inductive phase {P} (past : list Z) : option (Z * bool) → list (Z * Z) → ActorBase P → Prop :=
| ph_behind past' r' cur b v :
    past = past' ++ [r'] → v_index v = 2 * Z.of_nat (length past) - 1 → g_run <$> v_value v = Some r' →
    phase past cur [] (mkActor b v (AtStop r'))
| ph_wait cur b v :
    v_index v = 2 * Z.of_nat (length past) → (v_value v = None ∨ g_run <$> v_value v = Some 0) →
    phase past cur [] (mkActor b v AtRequest)
| ph_start r z b v :
    v_index v = 2 * Z.of_nat (length past) + 1 → g_run <$> v_value v = Some r →
    phase past (Some (r, z)) [] (mkActor b v AtStart)
| ph_action r z b v pc :
    (pc = AtAction r ∨ pc = AtEnd r) →
    (v_index v = 2 * Z.of_nat (length past) + 1 ∧ g_run <$> v_value v = Some r) ∨
    (z = true ∧ v_index v = 2 * Z.of_nat (length past) + 2 ∧ g_run <$> v_value v = Some 0) →
    phase past (Some (r, z)) [(r, 0)] (mkActor b v pc)
| ph_done r z b v :
    v_index v = 2 * Z.of_nat (length past) + 1 → g_run <$> v_value v = Some r →
    phase past (Some (r, z)) [(r, 0); (0, r)] (mkActor b v (AtStop r))
| ph_stopped r b v :
    v_index v = 2 * Z.of_nat (length past) + 2 → g_run <$> v_value v = Some 0 →
    phase past (Some (r, true)) [(r, 0); (0, r)] (mkActor b v AtRequest).

Section Protocol.
Context {P : Type} (no_params : P) (goal_cap status_cap pid : Z).
Context (Hgcap : 3 ≤ goal_cap) (Hscap : 2 ≤ status_cap).
Implicit Types (s : system P) (past : list Z) (cur : option (Z * bool)) (tail bs : list (Z * Z)).

(** The queues and the actor: [bs] are the statuses from before. *)
Record shared bs past cur tail s : Prop := {
  sh_goals : g_run <$> goals s = goal_seq past ++ cur_goals cur;
  sh_statuses : st_pair <$> statuses s = bs ++ pairs_of past ++ tail;
  sh_phase : phase past cur tail (the_actor s);
  sh_past : Forall (λ r, r ≠ 0) past;
  sh_cur : match cur with Some (r, _) => r ≠ 0 | None => True end }.

(** What the actor leaves alone. *)
Definition same_client s s' : Prop :=
  goals s' = goals s ∧ c_status s' = c_status s ∧ run_counter_ s' = run_counter_ s ∧
  current_action_ s' = current_action_ s ∧ next_action_ s' = next_action_ s ∧ sched s' = sched s.

Lemma same_client_refl s : same_client s s.
Proof. done. Qed.

(** Fetching the goal at [n], if it is there: the queue is never full. *)
Lemma next_goal bs past cur tail s (v : view (Goal P)) n :
  shared bs past cur tail s → v_index v = Z.of_nat n → 2 * Z.of_nat (length past) - 1 ≤ Z.of_nat n →
  match (goal_seq past ++ cur_goals cur) !! n with
  | Some r => ∃ g, spec_next goal_cap (goals s) v = (true, mkView (v_index v + 1) (Some g)) ∧ g_run g = r
  | None => spec_next goal_cap (goals s) v = (false, v)
  end.
Proof.
  intros [Hg _ _ _ _] Hv Hn. rewrite <-Hg, list_lookup_fmap.
  assert (Hlen : Z.of_nat (length (goals s)) ≤ 2 * Z.of_nat (length past) + 2).
  { apply (f_equal length) in Hg. rewrite length_fmap, length_app, goal_seq_length in Hg.
    destruct cur as [[r []]|]; cbn in Hg; lia. }
  unfold spec_next. destruct (goals s !! n) as [g|] eqn:E; cbn.
  - apply lookup_lt_Some in E as Hlt. rewrite (proj2 (Z.leb_gt _ _)) by lia.
    rewrite Z.max_l by lia. rewrite Hv, Nat2Z.id, E. by exists g.
  - apply lookup_ge_None in E. by rewrite (proj2 (Z.leb_le _ _)) by lia.
Qed.

(** The goals by position. *)
Lemma goal_cur past cur i : (goal_seq past ++ cur_goals cur) !! (2 * length past + i)%nat = cur_goals cur !! i.
Proof. rewrite lookup_app_r; rewrite goal_seq_length; [|lia]. f_equal. lia. Qed.

Lemma goal_stop past' r' cur : (goal_seq (past' ++ [r']) ++ cur_goals cur) !! (2 * length past' + 1)%nat = Some 0.
Proof.
  rewrite goal_seq_app, <-app_assoc, lookup_app_r; rewrite goal_seq_length; [|lia].
  by replace (2 * length past' + 1 - 2 * length past')%nat with 1%nat by lia.
Qed.

Lemma shared_actor bs past cur tail s a :
  shared bs past cur tail s → phase past cur tail a → shared bs past cur tail (set_actor a s).
Proof. intros [] ?. by split. Qed.

Lemma shared_moves bs past cur tail s l : shared bs past cur tail s → shared bs past cur tail (set_moves l s).
Proof. intros []. by split. Qed.

(** A status is sent. *)
Lemma shared_status bs past cur tail s a b run last :
  shared bs past cur tail s → phase past cur (tail ++ [(run, last)]) a →
  shared bs past cur (tail ++ [(run, last)])
    (set_actor a (set_statuses (statuses s ++ [mkStatus run last b]) s)).
Proof. intros [] ?. split; try done. cbn. by rewrite fmap_app, sh_statuses0, <-!app_assoc. Qed.

(** The goal an action's code sees: its own, or its cancellation. *)
Definition in_action past r (z : bool) (v : view (Goal P)) : Prop :=
  (v_index v = 2 * Z.of_nat (length past) + 1 ∧ g_run <$> v_value v = Some r) ∨
  (z = true ∧ v_index v = 2 * Z.of_nat (length past) + 2 ∧ g_run <$> v_value v = Some 0).

Lemma in_action_next bs past r z tail s v :
  shared bs past (Some (r, z)) tail s → in_action past r z v → in_action past r z (spec_next goal_cap (goals s) v).2.
Proof.
  intros S [[Hi Hv]|(-> & Hi & Hv)].
  - pose proof (next_goal _ _ _ _ _ v (2 * length past + 1) S) as Hn. rewrite goal_cur in Hn.
    specialize (Hn ltac:(lia) ltac:(lia)). destruct z; cbn in Hn; [|rewrite Hn; by left].
    destruct Hn as (g & -> & Hg). right. cbn. split_and!; [done|lia|by rewrite Hg].
  - pose proof (next_goal _ _ _ _ _ v (2 * length past + 2) S) as Hn. rewrite goal_cur in Hn.
    specialize (Hn ltac:(lia) ltac:(lia)). cbn in Hn. rewrite Hn. by right.
Qed.

(** One step of the actor. *)
Definition stepped bs past cur tail s (r : res (system P)) : Prop :=
  ∃ tail' s', r = Ok s' ∧ shared bs past cur tail' s' ∧ tail `prefix_of` tail' ∧ same_client s s'.

Lemma stepped_same bs past cur tail s : shared bs past cur tail s → stepped bs past cur tail s (Ok s).
Proof. intros. by exists tail, s. Qed.

Lemma stepped_actor bs past cur tail s a :
  shared bs past cur tail s → phase past cur tail a → stepped bs past cur tail s (Ok (set_actor a s)).
Proof. intros. exists tail, (set_actor a s). split_and!; [done|by apply shared_actor|done|done]. Qed.

Lemma stepped_status bs past cur tail s a b run last :
  shared bs past cur tail s → phase past cur (tail ++ [(run, last)]) a →
  stepped bs past cur tail s (Ok (set_actor a (set_statuses (statuses s ++ [mkStatus run last b]) s))).
Proof. intros. eexists _, _. split; [done|]. split; [by apply shared_status|]. split; [by eexists|done]. Qed.

Lemma actor_step_ok bs past cur tail s :
  shared bs past cur tail s → stepped bs past cur tail s (actor_step goal_cap s).
Proof.
  intros S. pose proof (sh_phase _ _ _ _ _ S) as Hp. pose proof (sh_past _ _ _ _ _ S) as Hpast.
  pose proof (sh_cur _ _ _ _ _ S) as Hcur. destruct s as [gs sts act cst ctr ca na sc ms]. cbn in Hp.
  inversion Hp as [past' r' ? b v Epast Hi Hv|? b v Hi Hv|r z b v Hi Hv|r z b v pc Hpc Hv|r z b v Hi Hv|r b v Hi Hv]; subst act cur tail;
    unfold actor_step, goal_FetchNextBlocking; cbn [the_actor a_pc a_goal abort_ goals].
  - (* behind *)
    assert (r' ≠ 0) by (rewrite Epast in Hpast; by apply Forall_app in Hpast as [_ [? _]%Forall_cons]).
    pose proof (next_goal _ _ _ _ _ v (2 * length past' + 1) S) as Hn. cbn [goals] in Hn.
    rewrite Epast in Hn at 2. rewrite goal_stop in Hn.
    destruct Hn as (g & -> & Hg); [rewrite Hi, Epast, length_app; cbn; lia|rewrite Epast, length_app; cbn; lia|].
    unfold WaitForStop, WaitForActionRequest, goal_run. cbn [a_goal v_value res_bind mbind]. rewrite Hg.
    rewrite (proj2 (Z.eqb_neq 0 r')) by done. cbn. rewrite ?Hg. cbn. apply (stepped_actor _ _ _ _ _ _ S).
    apply ph_wait; cbn; [lia|right; by rewrite Hg].
  - (* waiting *)
    pose proof (next_goal _ _ _ _ _ v (2 * length past + 0) S) as Hn. cbn [goals] in Hn. rewrite goal_cur in Hn.
    specialize (Hn ltac:(lia) ltac:(lia)). destruct cur0 as [[r z]|]; cbn in Hn; [|rewrite Hn; by apply stepped_same].
    destruct Hn as (g & -> & Hg). unfold goal_run. cbn. rewrite Hg, (proj2 (Z.eqb_neq r 0)) by done. cbn.
    apply (stepped_actor _ _ _ _ _ _ S). apply ph_start; cbn; [lia|by rewrite Hg].
  - (* starting *)
    apply fmap_Some in Hv as (g & Hv & ->). rewrite Hv. unfold send_status. cbn.
    apply (stepped_status _ _ _ _ _ _ _ _ _ S). cbn. apply ph_action; [by left|left]. cbn. by rewrite Hv.
  - (* in the action *)
    change (in_action past r z v) in Hv. destruct Hpc as [->| ->].
    + destruct ms as [|[|ok] ms]; [by apply stepped_same| |].
      * pose proof (in_action_next _ _ _ _ _ _ v S Hv) as Hv'. cbn [goals] in Hv'.
        unfold ShouldCancel, goal_run, goal_FetchNext. cbn [a_goal abort_ a_pc goals].
        set (v' := (spec_next goal_cap gs v).2) in *.
        assert (is_Some (v_value v')) as [g ->].
        { destruct Hv' as [[_ H]|(_ & _ & H)]; apply fmap_Some in H as (g & -> & _); eauto. }
        cbn. eexists _, _. split; [done|]. split; [|done]. apply shared_moves, (shared_actor _ _ _ _ _ _ S), ph_action; [by left|done].
      * eexists _, _. split; [done|]. split; [|done]. apply shared_moves, (shared_actor _ _ _ _ _ _ S), ph_action; [by right|done].
    + unfold WaitForStop, WaitForActionRequest, goal_run, send_status. cbn [a_goal abort_].
      destruct Hv as [[Hi Hv]|(-> & Hi & Hv)]; apply fmap_Some in Hv as (g & Eg & Hg); rewrite Eg, <-Hg; cbn.
      * rewrite Z.eqb_refl, orb_true_r. apply (stepped_status _ _ _ _ _ _ _ _ _ S). apply ph_done; cbn; [done|by rewrite Eg, Hg].
      * replace (match r with 0 => true | _ => false end) with false by (by destruct r). apply (stepped_status _ _ _ _ _ _ _ _ _ S).
        apply ph_stopped; cbn; [done|by rewrite Eg; cbn; f_equal].
  - (* done *)
    pose proof (next_goal _ _ _ _ _ v (2 * length past + 1) S) as Hn. cbn [goals] in Hn. rewrite goal_cur in Hn.
    specialize (Hn ltac:(lia) ltac:(lia)). destruct z; cbn in Hn; [|rewrite Hn; by apply stepped_same].
    destruct Hn as (g & -> & Hg). unfold WaitForStop, WaitForActionRequest, goal_run. cbn. rewrite Hg.
    rewrite (proj2 (Z.eqb_neq 0 r)) by done. cbn. apply (stepped_actor _ _ _ _ _ _ S).
    apply ph_stopped; cbn; [lia|by rewrite Hg].
  - (* stopped *)
    pose proof (next_goal _ _ _ _ _ v (2 * length past + 2) S) as Hn. cbn [goals] in Hn. rewrite goal_cur in Hn.
    specialize (Hn ltac:(lia) ltac:(lia)). cbn in Hn. rewrite Hn. by apply stepped_same.
Qed.

Lemma actor_steps_ok bs past cur tail n s :
  shared bs past cur tail s → stepped bs past cur tail s (actor_steps goal_cap n s).
Proof.
  revert tail s. induction n as [|n IH]; intros tail s S; [by apply stepped_same|]. cbn [actor_steps].
  destruct (actor_step_ok _ _ _ _ _ S) as (t1 & s1 & -> & S1 & [x ->] & C1). cbn.
  destruct (IH _ _ S1) as (t2 & s2 & -> & S2 & [y ->] & C2). exists ((tail ++ x) ++ y), s2.
  split_and!; [done|done|exists (x ++ y); by rewrite app_assoc|]. unfold same_client in *. naive_solver congruence.
Qed.

(** The actor's steps before an operation of the client. *)
Lemma others_ok bs past cur tail s (Q : unit → system P → Prop) :
  shared bs past cur tail s →
  (∀ tail' s', shared bs past cur tail' s' → tail `prefix_of` tail' → goals s' = goals s →
    c_status s' = c_status s → run_counter_ s' = run_counter_ s → current_action_ s' = current_action_ s →
    next_action_ s' = next_action_ s → Q tt s') →
  wp (others goal_cap) Q s.
Proof.
  intros S HQ. unfold wp, others. destruct (sched s) as [|n l]; [by apply (HQ tail)|].
  assert (S' : shared bs past cur tail (set_sched l s)) by (destruct S; by split).
  destruct (actor_steps_ok _ _ _ _ n _ S') as (t1 & s1 & -> & S1 & Ht & (? & ? & ? & ? & ? & _)). by eapply HQ.
Qed.

(** ** What the client has seen of the statuses *)

(** [k]: how many of the current action's statuses. *)
Record mid bs past cur tail (k : Z) s : Prop := {
  m_shared : shared bs past cur tail s;
  m_before : Forall (λ p, p.1 = 0) bs;
  m_index : v_index (c_status s) = Z.of_nat (length bs + 2 * length past) + k;
  m_pos : 0 ≤ v_index (c_status s);
  m_most : k ≤ Z.of_nat (length tail);
  m_value : st_pair <$> v_value (c_status s) =
    if v_index (c_status s) =? 0 then None else (st_pair <$> statuses s) !! Z.to_nat (v_index (c_status s) - 1) }.

(** What the client alone changes. *)
Definition keeps s s' : Prop :=
  goals s' = goals s ∧ run_counter_ s' = run_counter_ s ∧
  current_action_ s' = current_action_ s ∧ next_action_ s' = next_action_ s.

Lemma keeps_trans s1 s2 s3 : keeps s1 s2 → keeps s2 s3 → keeps s1 s3.
Proof. unfold keeps. naive_solver congruence. Qed.

Lemma tail_shape past cur tail (a : ActorBase P) :
  phase past cur tail a →
  match cur with
  | None => tail = []
  | Some (r, _) => tail = [] ∨ tail = [(r, 0)] ∨ tail = [(r, 0); (0, r)]
  end.
Proof. intros H. destruct H; try destruct cur as [[]|]; auto. Qed.

Lemma statuses_length bs past cur tail s :
  shared bs past cur tail s → length (statuses s) = (length bs + 2 * length past + length tail)%nat.
Proof.
  intros S. pose proof (f_equal length (sh_statuses _ _ _ _ _ S)) as H.
  rewrite length_fmap, !length_app, pairs_of_length in H. lia.
Qed.

(** The statuses of the current action, by position. *)
Lemma status_at bs past cur tail s (i : nat) :
  shared bs past cur tail s →
  (st_pair <$> statuses s) !! (length bs + 2 * length past + i)%nat = tail !! i.
Proof.
  intros [_ -> _ _ _]. rewrite lookup_app_r by lia. rewrite lookup_app_r; rewrite pairs_of_length; [|lia].
  f_equal. lia.
Qed.

Lemma mid_seen bs past cur tail k s :
  mid bs past cur tail k s → 0 < k → st_pair <$> v_value (c_status s) = tail !! Z.to_nat (k - 1).
Proof.
  intros [S _ Hi Hp _ ->] Hk. rewrite (proj2 (Z.eqb_neq _ 0)) by lia.
  rewrite <-(status_at _ _ _ _ _ _ S). f_equal. lia.
Qed.

Lemma pairs_end past : last (pairs_of past) = (λ r, (0, r)) <$> last past.
Proof.
  induction past as [|r l IH] using rev_ind; [done|].
  rewrite pairs_of_app, !last_app. by cbn.
Qed.

(** Nothing of the current action yet: the last status is that of an action of the
    past, or from before. *)
Lemma mid_old bs past cur tail s st :
  mid bs past cur tail 0 s → v_value (c_status s) = Some st →
  st_pair st ∈ bs ∨ running st = 0 ∧ last_running st ∈ past.
Proof using Type.
  clear goal_cap Hgcap status_cap Hscap pid.
  intros [S Hb Hi Hp _ Hv] E. rewrite E in Hv. cbn in Hv.
  destruct (Z.eqb_spec (v_index (c_status s)) 0) as [|Hn]; [done|].
  rewrite (sh_statuses _ _ _ _ _ S), app_assoc, lookup_app_l in Hv by (rewrite length_app, pairs_of_length; lia).
  replace (Z.to_nat (v_index (c_status s) - 1)) with (pred (length (bs ++ pairs_of past))) in Hv
    by (rewrite length_app, pairs_of_length; lia).
  rewrite <-last_lookup, last_app, pairs_end in Hv. destruct (last past) as [r|] eqn:Er; cbn in Hv.
  - right. injection Hv as -> ->. apply last_Some in Er as [l ->]. split; [done|set_solver].
  - left. symmetry in Hv. apply last_Some in Hv as [l ->]. set_solver.
Qed.

(** It says that nothing is running. *)
Lemma mid_unseen bs past cur tail s st :
  mid bs past cur tail 0 s → v_value (c_status s) = Some st → running st = 0.
Proof.
  intros M E. destruct (mid_old _ _ _ _ _ _ M E) as [H|[? _]]; [|done].
  pose proof (m_before _ _ _ _ _ _ M) as Hb. rewrite Forall_forall in Hb. by apply Hb in H.
Qed.

Lemma mid_some bs past cur tail s : mid bs past cur tail 0 s → bs ≠ [] → is_Some (v_value (c_status s)).
Proof.
  intros [S _ Hi _ _ Hv] Hb. destruct bs as [|p bs]; [done|]. cbn in Hi.
  rewrite (proj2 (Z.eqb_neq _ 0)) in Hv by lia. apply (fmap_is_Some st_pair). rewrite Hv.
  apply lookup_lt_is_Some. rewrite length_fmap, (statuses_length _ _ _ _ _ S). cbn. lia.
Qed.

Lemma prefix_keeps_value bs past cur tail tail' s s' i :
  shared bs past cur tail s → shared bs past cur tail' s' → tail `prefix_of` tail' →
  (i < length bs + 2 * length past + length tail)%nat →
  (st_pair <$> statuses s') !! i = (st_pair <$> statuses s) !! i.
Proof.
  intros [_ -> _ _ _] [_ -> _ _ _] [x ->] Hi. rewrite !app_assoc. apply lookup_app_l.
  rewrite !length_app, pairs_of_length. lia.
Qed.

(** The actor runs. *)
Lemma others_mid bs past cur tail k s (Q : unit → system P → Prop) :
  mid bs past cur tail k s →
  (∀ tail' s', mid bs past cur tail' k s' → tail `prefix_of` tail' → keeps s s' → Q tt s') →
  wp (others goal_cap) Q s.
Proof.
  intros [S Hb Hi Hp Hm Hv] HQ. apply (others_ok _ _ _ _ _ _ S). intros tail' s' S' Ht Hg Hc Hr Hca Hna.
  apply (HQ tail'); [|done|done]. pose proof (prefix_length _ _ Ht). split; rewrite ?Hc; try done; [lia|].
  rewrite Hv. destruct (Z.eqb_spec (v_index (c_status s)) 0); [done|]. symmetry.
  apply (prefix_keeps_value _ _ _ _ _ _ _ _ S S' Ht). lia.
Qed.
End Protocol.

(** ** Actions: the client's side *)


Section Client.
Context {P : Type} (no_params : P) (goal_cap status_cap pid : Z).
Context (Hgcap : 3 ≤ goal_cap) (Hscap : 2 ≤ status_cap).
Implicit Types (s : system P) (past : list Z) (cur : option (Z * bool)) (tail bs : list (Z * Z)).

Lemma mid_tail_max bs past cur tail k s : mid bs past cur tail k s → (length tail ≤ 2)%nat.
Proof.
  intros M. pose proof (tail_shape _ _ _ _ (sh_phase _ _ _ _ _ (m_shared _ _ _ _ _ _ M))) as Hs.
  destruct cur as [[r z]|]; [|subst; cbn; lia]. destruct Hs as [->|[->| ->]]; cbn; lia.
Qed.

(** ** Fetching statuses *)

Lemma mid_view bs past cur tail k k' s (v : view Status) :
  mid bs past cur tail k s → 0 < k' ≤ Z.of_nat (length tail) →
  v_index v = Z.of_nat (length bs + 2 * length past) + k' →
  v_value v = statuses s !! Z.to_nat (v_index v - 1) →
  mid bs past cur tail k' (set_c_status v s).
Proof.
  intros [[? ? ? ? ?] Hb _ _ _ _] Hk Hi Hv. split; cbn; try done; try lia.
  rewrite (proj2 (Z.eqb_neq _ 0)) by lia. by rewrite Hv, list_lookup_fmap.
Qed.

Lemma status_FetchNext_ok bs past cur tail k s (Q : bool → system P → Prop) :
  mid bs past cur tail k s → 0 ≤ k →
  (∀ (b : bool) tail' s', mid bs past cur tail' (if b then k + 1 else k) s' → tail `prefix_of` tail' → keeps s s' →
     (if b then k < Z.of_nat (length tail') else k = Z.of_nat (length tail')) → Q b s') →
  wp (status_FetchNext goal_cap status_cap) Q s.
Proof.
  intros M Hk HQ. unfold status_FetchNext. apply wp_bind. apply (others_mid _ Hgcap _ _ _ _ _ _ _ M).
  intros tail' s' M' Ht K. apply wp_bind, wp_get. unfold spec_next.
  pose proof (statuses_length _ _ _ _ _ (m_shared _ _ _ _ _ _ M')) as Hlen.
  pose proof (m_index _ _ _ _ _ _ M') as Hi. pose proof (m_most _ _ _ _ _ _ M') as Hm.
  pose proof (mid_tail_max _ _ _ _ _ _ M').
  destruct (Z.leb_spec (Z.of_nat (length (statuses s'))) (v_index (c_status s'))) as [Hle|Hlt];
    apply wp_bind; apply wp_modify; apply wp_ret.
  - apply (HQ false tail'); [|done|done|lia]. by destruct s'.
  - rewrite Z.max_l by lia. apply (HQ true tail'); [|done|done|lia].
    eapply mid_view; [done|lia|cbn; lia|]. cbn. f_equal. lia.
Qed.

Lemma mid_latest bs past cur tail k s :
  mid bs past cur tail k s →
  mid bs past cur tail (Z.of_nat (length tail)) (set_c_status (spec_latest (statuses s) (c_status s)).2 s).
Proof.
  intros M. pose proof (statuses_length _ _ _ _ _ (m_shared _ _ _ _ _ _ M)) as Hlen.
  pose proof M as [[? ? ? ? ?] ? Hi Hp Hm ?]. unfold spec_latest.
  destruct (Z.leb_spec (Z.of_nat (length (statuses s))) (v_index (c_status s))) as [Hle|Hlt]; cbn.
  - replace (Z.of_nat (length tail)) with k by lia. by destruct s.
  - split; cbn; try done; try lia. rewrite (proj2 (Z.eqb_neq _ 0)) by lia.
    rewrite last_lookup, list_lookup_fmap. do 2 f_equal. lia.
Qed.

Lemma status_FetchLatest_ok bs past cur tail k s (Q : bool → system P → Prop) :
  mid bs past cur tail k s →
  (∀ b tail' s', mid bs past cur tail' (Z.of_nat (length tail')) s' → tail `prefix_of` tail' → keeps s s' → Q b s') →
  wp (status_FetchLatest goal_cap) Q s.
Proof.
  intros M HQ. unfold status_FetchLatest. apply wp_bind. apply (others_mid _ Hgcap _ _ _ _ _ _ _ M).
  intros tail' s' M' Ht K. apply wp_bind, wp_get. pose proof (mid_latest _ _ _ _ _ _ M') as M2.
  destruct (spec_latest (statuses s') (c_status s')) as [b v]. apply wp_bind, wp_modify, wp_ret. by apply (HQ b tail').
Qed.

(** ** The client's actions *)

(** Not started yet. *)
Definition fresh (a : TypedAction P) : Prop :=
  goal_ a = true ∧ has_started_ a = false ∧ sent_started_ a = false ∧ sent_cancel_ a = false ∧
  interrupted_ a = false ∧ run_value_ a ≠ 0.

(** Started, with [k] of its statuses seen. *)
Definition started (a : TypedAction P) (k : Z) : Prop :=
  goal_ a = false ∧ sent_started_ a = true ∧ interrupted_ a = false ∧ 0 ≤ k ∧ (has_started_ a = true → 1 ≤ k).

Definition id_of (a : TypedAction P) : Z * bool := (run_value_ a, sent_cancel_ a).

Definition cancelled (a : TypedAction P) : TypedAction P :=
  mkAction (goal_ a) (has_started_ a) (sent_started_ a) true (interrupted_ a) (run_value_ a) (params_ a)
    (old_run_value_ a).

Lemma cancelled_started a k : started a k → started (cancelled a) k.
Proof. by destruct a. Qed.

(** What the client's calls other than [Tick] and [EnqueueAction] keep. *)
Definition same_queue s s' : Prop :=
  run_counter_ s' = run_counter_ s ∧ current_action_ s' = current_action_ s ∧ next_action_ s' = next_action_ s.

Lemma keeps_same s s' : keeps s s' → same_queue s s'.
Proof. unfold keeps, same_queue. naive_solver. Qed.

Lemma same_queue_trans s1 s2 s3 : same_queue s1 s2 → same_queue s2 s3 → same_queue s1 s3.
Proof. unfold same_queue. naive_solver congruence. Qed.

(** A goal is sent: the cancellation of the current action, or a new action. *)
Lemma mid_goal bs past cur cur' tail k s (g : Goal P) :
  mid bs past cur tail k s →
  cur_goals cur' = cur_goals cur ++ [g_run g] →
  match cur' with Some (r, _) => r ≠ 0 | None => True end →
  (∀ a : ActorBase P, phase past cur tail a → phase past cur' tail a) →
  mid bs past cur' tail k (set_goals (goals s ++ [g]) s).
Proof.
  intros [[Hg Hs Hp Hpast _] Hb Hi Hpos Hm Hv] Hcur Hne Hph. split; cbn; try done. split; cbn; try done.
  - by rewrite fmap_app, Hg, Hcur, <-app_assoc.
  - by apply Hph.
Qed.

Lemma DoCancel_ok bs past tail k s a (Q : TypedAction P → system P → Prop) :
  started a k → mid bs past (Some (id_of a)) tail k s →
  (∀ tail' s', mid bs past (Some (run_value_ a, true)) tail' k s' → tail `prefix_of` tail' → same_queue s s' →
     Q (cancelled a) s') →
  wp (DoCancel no_params goal_cap a) Q s.
Proof.
  intros (Hg & Hs & Hi & Hk & Hh) M HQ. unfold DoCancel, id_of in *. rewrite Hs, Hi. cbn [negb].
  destruct (sent_cancel_ a) eqn:Ec.
  - apply wp_ret. assert (a = cancelled a) as -> by (destruct a; cbn in *; by subst). by apply (HQ tail).
  - apply wp_bind. unfold send_goal. apply wp_bind. apply (others_mid _ Hgcap _ _ _ _ _ _ _ M).
    intros tail' s' M' Ht K. apply wp_bind, wp_modify, wp_ret, wp_ret.
    match goal with |- Q ?x _ => assert (x = cancelled a) as -> by (unfold cancelled; by rewrite ?Hs, ?Hi) end.
    apply (HQ tail'); [|done|by apply keeps_same in K].
    apply (mid_goal _ _ _ _ _ _ _ _ M'); [done|apply (sh_cur _ _ _ _ _ (m_shared _ _ _ _ _ _ M'))|].
    intros ac Hp. inversion Hp; subst; by econstructor; intuition eauto.
Qed.

Lemma DoCancel_fresh s a : fresh a → DoCancel no_params goal_cap a s = Ok (a, s).
Proof. intros (_ & _ & Hs & _). unfold DoCancel. by rewrite Hs. Qed.

(** ** Starting an action *)

Lemma DoStart_ok bs past s a (Q : TypedAction P → system P → Prop) :
  fresh a → mid bs past None [] 0 s →
  (∀ a' tail' k' s', mid bs past (Some (run_value_ a, false)) tail' k' s' → same_queue s s' → k' ≤ 1 →
     started a' k' → has_started_ a' = false → id_of a' = (run_value_ a, false) → Q a' s') →
  wp (DoStart goal_cap status_cap a) Q s.
Proof.
  intros (Hg & Hh & Hs & Hc & Hi & Hr) M HQ. unfold DoStart. rewrite Hg. apply wp_bind. unfold send_goal.
  apply wp_bind. apply (others_mid _ Hgcap _ _ _ _ _ _ _ M). intros tail1 s1 M1 _ K1.
  apply wp_bind, wp_modify, wp_ret, wp_bind.
  assert (tail1 = []) as -> by apply (tail_shape _ _ _ _ (sh_phase _ _ _ _ _ (m_shared _ _ _ _ _ _ M1))).
  assert (M2 : mid bs past (Some (run_value_ a, false)) [] 0 (set_goals (goals s1 ++ [mkGoal (run_value_ a) (params_ a)]) s1)).
  { apply (mid_goal _ _ _ _ _ _ _ _ M1); [done|done|]. intros ac Hp. inversion Hp; subst; by econstructor. }
  apply (status_FetchNext_ok _ _ _ _ _ _ _ M2); [lia|]. intros b tail' s' M3 _ K3 _.
  apply wp_bind, wp_get, wp_ret. eapply HQ; [exact M3|..].
  - apply keeps_same in K1, K3. exact (same_queue_trans _ _ _ K1 K3).
  - destruct b; lia.
  - split_and!; cbn; try done; [destruct b; lia|by rewrite Hh].
  - cbn. by rewrite Hh.
  - unfold id_of. cbn. by rewrite Hc.
Qed.

(** ** Following an action *)

(** The status that was just fetched tells that the action has started. *)
Lemma CheckStarted_seen bs past tail k s a :
  mid bs past (Some (id_of a)) tail k s → 0 < k →
  CheckStarted a (v_value (c_status s)) = set_flags true (interrupted_ a) a.
Proof.
  intros M Hk. pose proof (mid_seen _ _ _ _ _ _ M Hk) as Hv. pose proof (m_most _ _ _ _ _ _ M) as Hm.
  pose proof (tail_shape _ _ _ _ (sh_phase _ _ _ _ _ (m_shared _ _ _ _ _ _ M))) as Hs. cbn in Hs.
  unfold CheckStarted. destruct (has_started_ a) eqn:Eh; [by destruct a; cbn in *; subst|].
  assert (st_pair <$> v_value (c_status s) = Some (run_value_ a, 0) ∨ st_pair <$> v_value (c_status s) = Some (0, run_value_ a)) as Hc.
  { rewrite Hv. destruct Hs as [->|[->| ->]]; cbn in Hm; [lia|..].
    - replace k with 1 by lia. by left.
    - destruct (decide (k = 1)) as [->|]; [by left|]. replace k with 2 by lia. by right. }
  destruct (v_value (c_status s)) as [st|]; [|by destruct Hc]. unfold st_pair in Hc. cbn in Hc.
  destruct Hc as [[= -> _]|[= -> ->]]; rewrite ?Z.eqb_refl; [done|]. by rewrite orb_true_r.
Qed.

Definition set_started (b : bool) (a : TypedAction P) : TypedAction P := set_flags (has_started_ a || b) (interrupted_ a) a.

Lemma set_started_ok a b k : started a k → (b = true → 1 ≤ k) → started (set_started b a) k.
Proof.
  intros (? & ? & ? & ? & Hh) Hb. split_and!; cbn; try done. intros [?|?]%orb_true_iff; auto.
Qed.

Lemma set_started_false a : set_started false a = a.
Proof. destruct a. unfold set_started, set_flags. cbn. by rewrite orb_false_r. Qed.

Lemma started_later a k k' : started a k → k ≤ k' → started a k'.
Proof. intros (? & ? & ? & ? & Hh) ?. split_and!; try done; [lia|]. intros He. specialize (Hh He). lia. Qed.

Lemma follow_statuses_ok bs past fuel : ∀ tail k s a (Q : TypedAction P → system P → Prop),
  mid bs past (Some (id_of a)) tail k s → started a k → 2 - k < Z.of_nat fuel →
  (∀ tail' s', mid bs past (Some (id_of a)) tail' (Z.of_nat (length tail')) s' → tail `prefix_of` tail' → keeps s s' →
     Q (set_started (k <? Z.of_nat (length tail')) a) s') →
  wp (follow goal_cap status_cap fuel a) Q s.
Proof.
  induction fuel as [|fuel IH]; intros tail k s a Q M Ha Hf HQ.
  { pose proof (m_most _ _ _ _ _ _ M). pose proof (mid_tail_max _ _ _ _ _ _ M). lia. }
  cbn [follow]. apply wp_bind. pose proof Ha as (_ & _ & _ & Hk & _).
  apply (status_FetchNext_ok _ _ _ _ _ _ _ M Hk). intros b tail1 s1 M1 Ht1 K1 Hb. destruct b.
  - apply wp_bind, wp_get. rewrite (CheckStarted_seen _ _ _ _ _ _ M1) by lia.
    assert (E : set_flags true (interrupted_ a) a = set_started true a) by (unfold set_started; by rewrite orb_true_r).
    rewrite E. apply (IH tail1 (k + 1)); [done| |lia|].
    + apply set_started_ok; [|lia]. eapply started_later; [done|lia].
    + intros tail2 s2 M2 Ht2 K2. pose proof (prefix_length _ _ Ht2).
      replace (set_started _ (set_started true a)) with (set_started (k <? Z.of_nat (length tail2)) a).
      { apply (HQ tail2); [done|by etrans|by eapply keeps_trans]. }
      rewrite (proj2 (Z.ltb_lt _ _)) by lia. unfold set_started. cbn. by rewrite orb_true_r.
  - apply wp_ret. subst k. specialize (HQ tail1 s1 M1 Ht1 K1). by rewrite Z.ltb_irrefl, set_started_false in HQ.
Qed.

(** [Running]: whether the action goes on, as far as the client knows. *)
Definition over (a : TypedAction P) (k : Z) : bool := has_started_ a && (k =? 2).

Lemma running_seen bs past tail k s a :
  mid bs past (Some (id_of a)) tail k s → started a k → has_started_ a = true →
  match v_value (c_status s) with Some st => running st =? run_value_ a | None => false end = negb (over a k).
Proof.
  intros M (_ & _ & _ & Hk & Hh) Eh. specialize (Hh Eh). unfold over. rewrite Eh. cbn.
  pose proof (mid_seen _ _ _ _ _ _ M ltac:(lia)) as Hv. pose proof (m_most _ _ _ _ _ _ M) as Hm.
  pose proof (sh_cur _ _ _ _ _ (m_shared _ _ _ _ _ _ M)) as Hr. cbn in Hr.
  pose proof (tail_shape _ _ _ _ (sh_phase _ _ _ _ _ (m_shared _ _ _ _ _ _ M))) as [->|[->| ->]]; cbn in Hm; [lia|..].
  - replace k with 1 in * by lia. apply fmap_Some in Hv as (st & -> & [= -> _]). by rewrite Z.eqb_refl.
  - destruct (decide (k = 1)) as [->|].
    + apply fmap_Some in Hv as (st & -> & [= -> _]). by rewrite Z.eqb_refl.
    + replace k with 2 in * by lia. apply fmap_Some in Hv as (st & -> & [= E _]).
      rewrite <-E, (proj2 (Z.eqb_neq 0 _)) by congruence. done.
Qed.

Lemma DoRunning_ok bs past fuel tail k s a (Q : bool * TypedAction P → system P → Prop) :
  mid bs past (Some (id_of a)) tail k s → started a k → (3 ≤ fuel)%nat →
  (∀ (b : bool) tail' k' s', let a' := set_started b a in
     mid bs past (Some (id_of a)) tail' k' s' → tail `prefix_of` tail' → keeps s s' → started a' k' → k ≤ k' →
     (b = true → k < k') → (if has_started_ a then k' = Z.min (k + 1) (Z.of_nat (length tail')) else
      k' = Z.of_nat (length tail') ∧ b = (k <? k')) → Q (negb (over a' k'), a') s') →
  wp (DoRunning goal_cap status_cap fuel a) Q s.
Proof.
  intros M Ha Hf HQ. pose proof Ha as (_ & Hs & Hi & Hk & Hh). unfold DoRunning. rewrite Hs. cbn [negb].
  apply wp_bind. destruct (has_started_ a) eqn:Eh.
  - apply wp_bind. apply (status_FetchNext_ok _ _ _ _ _ _ _ M Hk). intros b tail1 s1 M1 Ht1 K1 Hb. apply wp_ret.
    rewrite Hi, Eh. cbn [negb]. apply wp_bind, wp_get, wp_ret.
    assert (Ha1 : started a (if b then k + 1 else k)) by (eapply started_later; [done|destruct b; lia]).
    rewrite (running_seen _ _ _ _ _ _ M1 Ha1 Eh).
    replace (over a) with (over (set_started false a)) by (by rewrite set_started_false).
    rewrite <-(set_started_false a) at 2. apply (HQ false tail1); try done; rewrite ?set_started_false; try done.
    + destruct b; lia.
    + destruct b; lia.
  - apply (follow_statuses_ok _ _ _ _ _ _ _ _ M Ha); [lia|]. intros tail1 s1 M1 Ht1 K1.
    set (b := k <? Z.of_nat (length tail1)).
    assert (Hb : b = true → k < Z.of_nat (length tail1)) by (intros; by apply Z.ltb_lt).
    assert (Hm : k ≤ Z.of_nat (length tail1)).
    { pose proof (m_most _ _ _ _ _ _ M). pose proof (prefix_length _ _ Ht1). lia. }
    assert (Ha1 : started (set_started b a) (Z.of_nat (length tail1))).
    { apply set_started_ok; [by eapply started_later|]. intros ?%Hb. lia. }
    pose proof (HQ b tail1 _ s1 M1 Ht1 K1 Ha1 Hm Hb) as HQ'. rewrite ?Eh in HQ'. specialize (HQ' (conj eq_refl eq_refl)).
    cbn [interrupted_ set_started set_flags]. rewrite Hi.
    destruct (has_started_ (set_started b a)) eqn:Es; cbn [negb].
    + apply wp_bind, wp_get, wp_ret. rewrite (running_seen _ _ _ _ _ (set_started b a) M1 Ha1 Es). done.
    + apply wp_ret. unfold over in HQ'. by rewrite Es in HQ'.
Qed.

(** An action that is over, cancelled or not, is in the past once its goal was reset. *)
Lemma mid_finish bs past r tail s :
  mid bs past (Some (r, true)) tail 2 s → mid bs (past ++ [r]) None [] 0 s.
Proof.
  intros [[Hg Hs Hp Hpast Hr] Hb Hi Hpos Hm Hv].
  assert (tail = [(r, 0); (0, r)]) as ->.
  { pose proof (tail_shape _ _ _ _ Hp) as [->|[->| ->]]; cbn in Hm; [lia|lia|done]. }
  split; try done; [|rewrite length_app; cbn; lia]. split.
  - by rewrite Hg, goal_seq_app, app_nil_r.
  - by rewrite Hs, pairs_of_app, app_nil_r.
  - inversion Hp; subst; [eapply ph_behind; [done|rewrite length_app; cbn; lia|done]|].
    apply ph_wait; [rewrite length_app; cbn; lia|by right].
  - apply Forall_app. by rewrite Forall_singleton.
  - done.
Qed.

(** ** The queue of actions *)

(** The values of the actions that were made, from the [c0]-th on. *)
Context (c0 : Z) (Hpid : Z.land pid 0xFFFF ≠ 0).

Definition made (n : nat) : list Z := (λ i, next_run_value pid (u16 (c0 + Z.of_nat i))) <$> seq 0 n.

#[local] Arguments made : simpl never.

Lemma made_S n : made (S n) = made n ++ [next_run_value pid (u16 (c0 + Z.of_nat n))].
Proof. unfold made. by rewrite seq_S, fmap_app. Qed.

Definition queued s : list Z :=
  option_list (run_value_ <$> current_action_ s) ++ option_list (run_value_ <$> next_action_ s).

(** [n]: the actions made; [past]: those that are over; [k]: the statuses seen of the
    one that is going on. *)
Record inv bs (n : nat) past tail (k : Z) s : Prop := {
  i_mid : mid bs past (id_of <$> current_action_ s) tail k s;
  i_cur : ∀ a, current_action_ s = Some a → started a k;
  i_next : ∀ a, next_action_ s = Some a → fresh a ∧ is_Some (current_action_ s);
  i_order : (past ++ queued s) `sublist_of` made n;
  i_counter : run_counter_ s = u16 (c0 + Z.of_nat n) }.

Lemma next_run_value_pos c : 0 ≤ c < 2^16 → next_run_value pid c ≠ 0.
Proof.
  intros Hc. unfold next_run_value. assert (0 ≤ Z.land pid 0xFFFF < 2^16).
  { change 0xFFFF with (Z.ones 16). rewrite Z.land_ones by lia. apply Z.mod_pos_bound. lia. }
  assert (0 ≤ Z.lor c (Z.land pid 0xFFFF ≪ 16) < 2^32) as Hb.
  { split; [apply Z.lor_nonneg; split; [lia|]; apply Z.shiftl_nonneg; lia|].
    apply Z.log2_lt_cancel. rewrite Z.log2_lor, Z.log2_shiftl, Z.log2_pow2 by (try apply Z.shiftl_nonneg; lia).
    pose proof (Z.log2_lt_pow2 (Z.land pid 65535) 16 ltac:(lia)).
    destruct (decide (c = 0)) as [->|]; [cbn; lia|]. pose proof (Z.log2_lt_pow2 c 16 ltac:(lia)). lia. }
  unfold u32. rewrite Z.mod_small by lia. intros [_ E]%Z.lor_eq_0_iff. rewrite Z.shiftl_mul_pow2 in E by lia. lia.
Qed.

Lemma TypedAction_new_ok bs n past tail k s params (Q : TypedAction P → system P → Prop) :
  inv bs n past tail k s →
  (∀ a tail' s', fresh a → run_value_ a = next_run_value pid (u16 (c0 + Z.of_nat n)) →
     mid bs past (id_of <$> current_action_ s') tail' (Z.of_nat (length tail')) s' → tail `prefix_of` tail' →
     run_counter_ s' = u16 (c0 + Z.of_nat (S n)) →
     current_action_ s' = current_action_ s → next_action_ s' = next_action_ s → Q a s') →
  wp (TypedAction_new goal_cap pid params) Q s.
Proof.
  intros [M _ _ _ Hc] HQ. unfold TypedAction_new. apply wp_bind, wp_get, wp_bind, wp_modify, wp_bind.
  assert (M1 : mid bs past (id_of <$> current_action_ s) tail k (set_run_counter (u16 (run_counter_ s + 1)) s)).
  { destruct M as [[]]. by split. }
  apply (status_FetchLatest_ok _ _ _ _ _ _ _ M1). intros _ tail' s' M' Ht (_ & Er & Ec & En). apply wp_ret.
  cbn in Er, Ec, En.
  apply (HQ _ tail'); cbn; try done.
  - split_and!; try done. apply next_run_value_pos. rewrite Hc. apply Z.mod_pos_bound. lia.
  - by rewrite Hc.
  - by rewrite Ec.
  - rewrite Er, Hc. unfold u16. rewrite Zplus_mod_idemp_l. f_equal. lia.
Qed.

(** The queue's own fields are not the protocol's. *)
Lemma mid_fields bs past cur tail k s s' :
  mid bs past cur tail k s → goals s' = goals s → statuses s' = statuses s → the_actor s' = the_actor s →
  c_status s' = c_status s → mid bs past cur tail k s'.
Proof.
  intros [[H1 H2 H3 H4 H5] H6 H7 H8 H9 H10] Eg Es Ea Ec.
  by split; [split; rewrite ?Eg, ?Es, ?Ea|..]; rewrite ?Ec, ?Es.
Qed.

(** A client is stuck if it fetched both statuses of its action before it looked. *)
Definition stuck (k : Z) (r : Z) s : Prop :=
  k = 2 ∧ ∃ c, current_action_ s = Some c ∧ run_value_ c = r ∧ has_started_ c = false.

(** What a call does to the invariant. *)
Definition call_post bs (n : nat) past tail k s (s' : system P) : Prop :=
  ∃ past' tail' k', inv bs n past' tail' k' s' ∧ past `prefix_of` past' ∧
    (∀ r, stuck k r s → past' = past ∧ stuck k' r s').

Lemma sublist_replace_last {A} (l1 l2 l : list A) x : (l1 ++ l2) `sublist_of` l → (l1 ++ [x]) `sublist_of` (l ++ [x]).
Proof.
  intros H. apply sublist_app; [|done]. etrans; [|exact H]. by apply sublist_inserts_r.
Qed.

Lemma EnqueueAction_ok bs n past tail k s a :
  mid bs past (id_of <$> current_action_ s) tail k s → k = Z.of_nat (length tail) →
  (∀ c, current_action_ s = Some c → started c k) →
  (∀ c, next_action_ s = Some c → fresh c ∧ is_Some (current_action_ s)) →
  (past ++ queued s) `sublist_of` made n →
  run_counter_ s = u16 (c0 + Z.of_nat (S n)) →
  fresh a → run_value_ a = next_run_value pid (u16 (c0 + Z.of_nat n)) →
  wp (EnqueueAction no_params goal_cap status_cap a) (λ _ s', call_post bs (S n) past tail k s s') s.
Proof.
  intros M Hk Hcur Hnext Hord Hctr Hf Hr. unfold EnqueueAction. apply wp_bind, wp_get.
  destruct (current_action_ s) as [c|] eqn:Ec.
  - apply wp_bind. cbn in M. apply (DoCancel_ok _ _ _ _ _ _ _ (Hcur c eq_refl) M).
    intros tail' s1 M1 Ht (E1 & E2 & E3). apply wp_bind, wp_modify, wp_bind, wp_get, wp_bind, wp_modify.
    assert (HQ : call_post bs (S n) past tail k s (set_next_action (Some a) (set_current (Some (cancelled c)) s1))).
    { exists past, tail', k. split; [|split; [done|]].
      - split; cbn.
        + by eapply mid_fields.
        + intros ? [= <-]. by apply cancelled_started, Hcur.
        + intros ? [= <-]. eauto.
        + unfold queued in *. cbn in *. rewrite made_S, <-Hr. rewrite Ec in Hord. cbn in Hord.
          rewrite cons_middle, app_assoc in Hord |- *. by eapply sublist_replace_last.
        + by rewrite E1.
      - intros r (-> & c' & Ec' & Hrv & Hh). split; [done|]. split; [done|].
        exists (cancelled c). assert (c' = c) as -> by congruence. by destruct c. }
    cbn. rewrite E3. destruct (next_action_ s) as [na|] eqn:En; cbn [destroy]; [|by apply wp_ret].
    apply wp_bind. unfold wp. rewrite DoCancel_fresh by apply (Hnext na eq_refl). by apply wp_ret.
  - cbn in M. assert (tail = []) as -> by apply (tail_shape _ _ _ _ (sh_phase _ _ _ _ _ (m_shared _ _ _ _ _ _ M))).
    cbn in Hk. subst k. apply wp_bind. apply (DoStart_ok _ _ _ _ _ Hf M).
    intros a' tail' k' s' M' (E1 & E2 & E3) _ Ha' _ Hid. apply wp_modify. exists past, tail', k'. split; [|split; [done|]].
    + split; cbn.
      * rewrite Hid. by eapply mid_fields.
      * by intros ? [= <-].
      * intros b Eb. rewrite E3 in Eb. destruct (Hnext b Eb) as [_ [? ?]]. congruence.
      * unfold queued in *. cbn. rewrite made_S, <-Hr, E3. rewrite Ec in Hord. injection Hid as -> _.
        destruct (next_action_ s) as [b|] eqn:En; [destruct (Hnext b eq_refl) as [_ [? ?]]; congruence|].
        cbn in *. by eapply sublist_replace_last.
      * by rewrite E1.
    + intros r (? & ? & ? & _). congruence.
Qed.

Lemma cancelled_stuck k r s s' c :
  stuck k r s → current_action_ s = Some c → current_action_ s' = Some (cancelled c) → stuck k r s'.
Proof. intros (-> & c' & Ec & Hr & Hh) E ?. split; [done|]. exists (cancelled c). by assert (c' = c) as -> by congruence. Qed.

Lemma CancelCurrentAction_ok bs n past tail k s :
  inv bs n past tail k s →
  wp (CancelCurrentAction no_params goal_cap)
    (λ _ s', call_post bs n past tail k s s' ∧ next_action_ s' = next_action_ s) s.
Proof.
  intros I. pose proof I as [M Hcur Hnext Hord Hctr]. unfold CancelCurrentAction. apply wp_bind, wp_get.
  destruct (current_action_ s) as [c|] eqn:Ec.
  - apply wp_bind. apply (DoCancel_ok _ _ _ _ _ _ _ (Hcur c eq_refl) M).
    intros tail' s1 M1 Ht (E1 & E2 & E3). apply wp_modify. split; [|done]. exists past, tail', k. split; [|split; [done|]].
    + split; cbn.
      * by eapply mid_fields.
      * intros ? [= <-]. by apply cancelled_started, Hcur.
      * intros b Eb. rewrite E3 in Eb. split; [by apply Hnext|eauto].
      * unfold queued in *. cbn in *. by rewrite E3, Ec in *.
      * by rewrite E1.
    + intros r Hs. split; [done|]. by eapply cancelled_stuck.
  - apply wp_ret. split; [|done]. exists past, tail, k. split_and!; [by split; rewrite ?Ec|done|]. by split.
Qed.

Lemma CancelAllActions_ok bs n past tail k s :
  inv bs n past tail k s → wp (CancelAllActions no_params goal_cap) (λ _ s', call_post bs n past tail k s s') s.
Proof.
  intros I. unfold CancelAllActions. apply wp_bind. eapply wp_mono; [by apply (CancelCurrentAction_ok _ _ _ _ _ _ I)|].
  intros [] s1 [(past' & tail' & k' & I1 & Hp & Hs) En]. apply wp_bind, wp_get, wp_bind, wp_modify.
  assert (HQ : call_post bs n past tail k s (set_next_action None s1)).
  { exists past', tail', k'. split; [|split; [done|]].
    - destruct I1 as [M Hcur Hnext Hord Hctr]. split; cbn; try done; [by eapply mid_fields|].
      etrans; [|exact Hord]. unfold queued. cbn. rewrite app_nil_r, app_assoc. by apply sublist_inserts_r.
    - intros r Hr. destruct (Hs r Hr) as [-> (Hk & c & Hc)]. split; [done|]. split; [done|]. by exists c. }
  destruct (next_action_ s1) as [b|] eqn:Eb; cbn [destroy]; [|by apply wp_ret].
  apply wp_bind. unfold wp. rewrite DoCancel_fresh by apply (i_next _ _ _ _ _ _ I1 b Eb). by apply wp_ret.
Qed.

(** After [Tick]: an action whose end the client can see is replaced by the next one. *)
Definition tick_post bs (n : nat) past tail k s (s' : system P) : Prop :=
  call_post bs n past tail k s s' ∧
  ∀ c, current_action_ s = Some c → length tail = 2%nat → has_started_ c = true ∨ k < 2 →
    next_action_ s' = None ∧ run_value_ <$> current_action_ s' = run_value_ <$> next_action_ s ∧
    ∃ tail' k', inv bs n (past ++ [run_value_ c]) tail' k' s'.

(** The action that is over makes room for the next one. *)
Lemma Tick_over bs n past tail s c na :
  mid bs past (Some (id_of c)) tail 2 s → started c 2 →
  current_action_ s = na → next_action_ s = None → (∀ a, na = Some a → fresh a) →
  (past ++ [run_value_ c] ++ option_list (run_value_ <$> na)) `sublist_of` made n →
  run_counter_ s = u16 (c0 + Z.of_nat n) →
  wp (_ ← destroy no_params goal_cap (Some c);
      match na with
      | None => mret tt
      | Some a => a ← DoStart goal_cap status_cap a; st_modify (set_current (Some a))
      end)
    (λ _ s', next_action_ s' = None ∧ run_value_ <$> current_action_ s' = run_value_ <$> na ∧
       ∃ tail' k', inv bs n (past ++ [run_value_ c]) tail' k' s') s.
Proof.
  intros M Hc Ena Enn Hf Hord Hctr. apply wp_bind. cbn [destroy]. apply wp_bind. apply (DoCancel_ok _ _ _ _ _ _ _ Hc M).
  intros tail1 s1 M1%mid_finish _ (E1 & E2 & E3). apply wp_ret. destruct na as [a|].
  - apply wp_bind. apply (DoStart_ok _ _ _ _ _ (Hf a eq_refl) M1). intros a' tail2 k2 s2 M2 (F1 & F2 & F3) _ Ha2 _ Hid.
    apply wp_modify. cbn. split_and!; [congruence|by injection Hid as -> _|]. exists tail2, k2. split; cbn.
    + rewrite Hid. by eapply mid_fields.
    + by intros ? [= <-].
    + intros b Eb. congruence.
    + unfold queued. cbn. rewrite F3, E3, Enn. injection Hid as -> _. cbn in Hord. by rewrite <-app_assoc.
    + congruence.
  - apply wp_ret. split_and!; [congruence|by rewrite E2, Ena|]. exists [], 0. split.
    + rewrite E2, Ena. done.
    + intros b Eb. congruence.
    + intros b Eb. congruence.
    + unfold queued. rewrite E2, E3, Ena, Enn. cbn in *. by rewrite app_nil_r.
    + congruence.
Qed.

Lemma Tick_ok bs n past tail k s fuel :
  inv bs n past tail k s → (3 ≤ fuel)%nat →
  wp (Tick no_params goal_cap status_cap fuel) (λ _ s', tick_post bs n past tail k s s') s.
Proof.
  intros I Hfuel. pose proof I as [M Hcur Hnext Hord Hctr]. unfold Tick. apply wp_bind, wp_get.
  destruct (current_action_ s) as [c|] eqn:Ec.
  2:{ apply wp_ret. split; [|by intros c Hc; congruence]. exists past, tail, k. by split; [split; rewrite ?Ec|]. }
  apply wp_bind. apply (DoRunning_ok _ _ _ _ _ _ _ _ M (Hcur c eq_refl) Hfuel).
  intros b tail1 k1 s1 a1 M1 Ht1 (Eg & E1 & E2 & E3) Ha1 Hk1 Hb1 Hshape. subst a1.
  apply wp_bind, wp_modify. unfold over. destruct (has_started_ (set_started b c) && (k1 =? 2)) eqn:Eo; cbn [negb].
  - apply andb_true_iff in Eo as [Eh ->%Z.eqb_eq]. apply wp_bind, wp_get, wp_bind, wp_modify. cbn [next_action_ set_current].
    rewrite E3. eapply wp_mono.
    { apply (Tick_over bs n past tail1 _ (set_started b c) (next_action_ s)); cbn; try done.
      - by eapply mid_fields.
      - intros a Ea. by apply Hnext.
      - unfold queued in Hord. rewrite Ec in Hord. by cbn in Hord.
      - congruence. }
    cbn beta. intros [] s' (F1 & F2 & tail' & k' & I'). split; [|intros c' Ec' _ _; assert (c' = c) as -> by congruence; eauto].
    exists (past ++ [run_value_ c]), tail', k'. split_and!; [done|by eexists|].
    intros r (-> & c' & Ec' & _ & Hh). assert (c' = c) as -> by congruence. exfalso. rewrite Hh in Hshape. destruct Hshape as [_ Hb].
    cbn in Eh. rewrite Hh, Hb in Eh. done.
  - apply wp_ret. split.
    + exists past, tail1, k1. split; [|split; [done|]].
      * split; cbn.
        -- by eapply mid_fields.
        -- by intros ? [= <-].
        -- intros a Ea. rewrite E3 in Ea. split; [by apply Hnext|eauto].
        -- unfold queued in *. cbn. rewrite E3. by rewrite Ec in Hord.
        -- congruence.
      * intros r (-> & c' & Ec' & Hrv & Hh). assert (c' = c) as -> by congruence. split; [done|]. rewrite Hh in Hshape. destruct Hshape as [Hk' Hb].
        pose proof (m_most _ _ _ _ _ _ M1). pose proof (mid_tail_max _ _ _ _ _ _ M1).
        replace k1 with 2 in * by lia. cbn in Hb. subst b. split; [done|]. eexists. split; [done|].
        rewrite set_started_false. done.
    + intros c' Ec' Hlen Hk. assert (c' = c) as -> by congruence. exfalso. pose proof (prefix_length _ _ Ht1).
      pose proof (mid_tail_max _ _ _ _ _ _ M1). assert (length tail1 = 2%nat) as Hl by lia.
      rewrite Hl in Hshape. pose proof (Hcur c eq_refl) as (_ & _ & _ & _ & Hh). cbn in Eo.
      destruct (has_started_ c) eqn:Es.
      * specialize (Hh eq_refl). replace k1 with 2 in Eo by lia. done.
      * destruct Hk as [|Hk]; [done|]. destruct Hshape as [-> ->]. rewrite (proj2 (Z.ltb_lt _ _)) in Eo by lia. done.
Qed.

(** ** Any client *)

Definition enough (c : call (P := P)) : Prop := match c with CTick fuel => (3 ≤ fuel)%nat | _ => True end.
Definition enqueues (c : call (P := P)) : nat := match c with CEnqueue _ => 1 | _ => 0 end.

Lemma do_call_ok bs n past tail k s c :
  inv bs n past tail k s → enough c →
  wp (do_call no_params goal_cap status_cap pid c) (λ _ s', call_post bs (enqueues c + n) past tail k s s') s.
Proof.
  intros I Hc. destruct c as [params| | |fuel]; cbn [do_call enqueues Nat.add].
  - apply wp_bind. apply (TypedAction_new_ok _ _ _ _ _ _ _ _ I).
    intros a tail' s' Ha Hr M' Ht Hctr Ec En. pose proof I as [M Hcur Hnext Hord _].
    pose proof (m_most _ _ _ _ _ _ M). pose proof (prefix_length _ _ Ht). pose proof (mid_tail_max _ _ _ _ _ _ M').
    eapply wp_mono; [apply (EnqueueAction_ok _ n _ _ _ _ a M' eq_refl); try done|].
    + intros c. rewrite Ec. intros Hc'. eapply started_later; [by apply Hcur|lia].
    + intros c. rewrite Ec, En. apply Hnext.
    + unfold queued in *. by rewrite Ec, En.
    + cbn beta. intros [] s2 (past2 & tail2 & k2 & I2 & Hp & Hs). exists past2, tail2, k2. split_and!; [done|done|].
      intros r (-> & c & Hcc). apply Hs. split; [lia|]. exists c. by rewrite Ec.
  - eapply wp_mono; [by apply (CancelCurrentAction_ok _ _ _ _ _ _ I)|]. by intros [] ? [? _].
  - by apply CancelAllActions_ok.
  - eapply wp_mono; [by apply (Tick_ok _ _ _ _ _ _ _ I Hc)|]. by intros [] ? [? _].
Qed.

Fixpoint do_calls (cs : list (call (P := P))) : ST (system P) unit :=
  match cs with [] => mret tt | c :: cs => _ ← do_call no_params goal_cap status_cap pid c; do_calls cs end.

Lemma do_calls_ok bs cs : ∀ n past tail k s,
  inv bs n past tail k s → Forall enough cs →
  wp (do_calls cs) (λ _ s', call_post bs (sum_list (enqueues <$> cs) + n) past tail k s s') s.
Proof.
  induction cs as [|c cs IH]; intros n past tail k s I Hcs; cbn [do_calls fmap list_fmap sum_list].
  { apply wp_ret. exists past, tail, k. split_and!; [done..|]. by intros r Hr. }
  apply Forall_cons in Hcs as [Hc Hcs]. apply wp_bind. eapply wp_mono; [by apply (do_call_ok _ _ _ _ _ _ _ I Hc)|].
  cbn beta. intros [] s1 (past1 & tail1 & k1 & I1 & Hp1 & Hs1). eapply wp_mono; [by apply (IH _ _ _ _ _ I1 Hcs)|].
  cbn beta. intros [] s2 (past2 & tail2 & k2 & I2 & Hp2 & Hs2). exists past2, tail2, k2. split_and!; [|by etrans|].
  - match goal with |- inv _ ?m _ _ _ _ => replace m with (sum_list (enqueues <$> cs) + (enqueues c + n))%nat; [done|] end.
    cbn. lia.
  - intros r Hr. destruct (Hs1 r Hr) as [-> Hr1]. by destruct (Hs2 r Hr1) as [-> Hr2].
Qed.

(** ** The values of actions *)

Lemma next_run_value_low c : 0 ≤ c < 2^16 → next_run_value pid c mod 2^16 = c.
Proof.
  intros Hc. unfold next_run_value, u32. rewrite <-Znumtheory.Zmod_div_mod by (try lia; by exists (2^16)).
  rewrite <-Z.land_ones, Z.land_lor_distr_l, !Z.land_ones, Z.shiftl_mul_pow2, Z_mod_mult by lia.
  by rewrite Z.lor_0_r, Z.mod_small.
Qed.

Lemma made_distinct n : Z.of_nat n ≤ 2^16 → NoDup (made n).
Proof.
  intros Hn. apply NoDup_fmap_2_strong; [|apply NoDup_seq].
  intros i j Hi%elem_of_seq Hj%elem_of_seq E. apply (f_equal (λ v, v mod 2^16)) in E.
  rewrite !next_run_value_low in E by (apply Z.mod_pos_bound; lia). unfold u16 in E.
  pose proof (Z.div_mod (c0 + Z.of_nat i) (2^16) ltac:(lia)). pose proof (Z.div_mod (c0 + Z.of_nat j) (2^16) ltac:(lia)).
  rewrite E in *. nia.
Qed.
End Client.
