(* ===== verification/ActionsTheorems.v ===== *)
(** * Actions: what clients and actors promise each other *)

From S2P Require Import Prelude SharedMem Time TypedQueueProofs Actions ActionsProofs.

(** ** From the start *)

Section Start.
Context {P : Type} (no_params : P) (goal_cap status_cap pid : Z).

(** Empty queues, an actor about to be initialised, and a client that has made
    nothing yet. *)
Definition start (c0 : Z) (sc : list nat) (ms : list code_step) : system P :=
  mkSystem [] [] (mkActor false (mkView 0 None) AtInit) (mkView 0 None) c0 None None sc ms.

(** After [Initialize]. *)
Definition ready (c0 : Z) (sc : list nat) (ms : list code_step) : system P :=
  mkSystem [] [mkStatus 0 0 true] (mkActor false (mkView 0 None) AtRequest) (mkView 0 None) c0 None None sc ms.

Lemma start_ready c0 sc ms : actor_steps goal_cap 2 (start c0 sc ms) = Ok (ready c0 sc ms).
Proof. done. Qed.

Lemma ready_inv c0 sc ms : inv pid c0 [(0, 0)] 0 [] [] (-1) (ready (u16 c0) sc ms).
Proof.
  split; cbn; try done; [|by rewrite Z.add_0_r]. split; cbn; try done; [|by repeat constructor].
  split; cbn; try done. apply ph_wait; cbn; [lia|by left].
Qed.
End Start.

(** Whether the client fetched all the statuses of an action that, as far as it
    knows, has not started. *)
Definition lost {P} (s : system P) (c : TypedAction P) : bool :=
  negb (has_started_ c) && (v_index (c_status s) =? Z.of_nat (length (statuses s))).

(** ** Waiting for the end of an action *)

Section Waiting.
Context {P : Type} (no_params : P) (goal_cap status_cap : Z).
Context (Hgcap : 3 ≤ goal_cap) (Hscap : 2 ≤ status_cap).

(** How far the actor is from the code of the action. *)
Definition distance (pc : actor_pc) : nat :=
  match pc with AtStop _ => 3 | AtRequest => 2 | AtStart => 1 | _ => 0 end.

(** A step towards it. *)
Lemma actor_step_towards bs past r z (s : system P) :
  shared bs past (Some (r, z)) [] s → moves s = [] →
  ∃ s' tail', actor_step goal_cap s = Ok s' ∧ moves s' = [] ∧ same_client s s' ∧ shared bs past (Some (r, z)) tail' s' ∧
    (tail' = [] ∧ (distance (a_pc (the_actor s')) < distance (a_pc (the_actor s)))%nat ∨
     tail' = [(r, 0)] ∧ a_pc (the_actor s') = AtAction r).
Proof.
  intros S Hms. destruct (actor_step_ok _ Hgcap _ _ _ _ _ S) as (tail' & s' & E & S' & _ & C').
  exists s', tail'. assert (Hm : moves s' = [] ∧
    (distance (a_pc (the_actor s')) < distance (a_pc (the_actor s)) ∧ statuses s' = statuses s ∨
     a_pc (the_actor s') = AtAction r ∧ length (statuses s') = 1 + length (statuses s))%nat).
  { pose proof (sh_phase _ _ _ _ _ S) as Hp. pose proof (sh_cur _ _ _ _ _ S) as Hr. pose proof (sh_past _ _ _ _ _ S) as Hpast.
    destruct s as [gs sts act cst ctr ca na sc ms]. cbn in Hp, Hms. subst ms. revert E.
    inversion Hp as [past' r' ? b v Epast Hi Hv|? b v Hi Hv|? ? b v Hi Hv| | |]; subst act;
      unfold actor_step, goal_FetchNextBlocking; cbn [the_actor a_pc a_goal abort_ goals].
    - assert (r' ≠ 0) by (rewrite Epast in Hpast; by apply Forall_app in Hpast as [_ [? _]%Forall_cons]).
      pose proof (next_goal _ Hgcap _ _ _ _ _ v (2 * length past' + 1) S) as Hn. cbn [goals] in Hn.
      rewrite Epast in Hn at 2. rewrite goal_stop in Hn.
      destruct Hn as (g & -> & Hg); [rewrite Hi, Epast, length_app; cbn; lia|rewrite Epast, length_app; cbn; lia|].
      unfold WaitForStop, WaitForActionRequest, goal_run. cbn [a_goal v_value res_bind mbind]. rewrite Hg.
      rewrite (proj2 (Z.eqb_neq 0 r')) by done. cbn. rewrite ?Hg. cbn. intros [= <-]. split; [done|left]. cbn. split; [lia|done].
    - pose proof (next_goal _ Hgcap _ _ _ _ _ v (2 * length past + 0) S) as Hn. cbn [goals] in Hn. rewrite goal_cur in Hn.
      specialize (Hn ltac:(lia) ltac:(lia)). cbn in Hn.
      destruct Hn as (g & -> & Hg). unfold goal_run. cbn. rewrite Hg, (proj2 (Z.eqb_neq r 0)) by done. cbn.
      intros [= <-]. split; [done|left]. cbn. split; [lia|done].
    - apply fmap_Some in Hv as (g & -> & ->). intros [= <-]. split; [done|right]. cbn. by rewrite length_app, Nat.add_comm. }
  destruct Hm as [Hm1 Hm2]. split_and!; try done.
  pose proof (statuses_length _ _ _ _ _ S) as L. pose proof (statuses_length _ _ _ _ _ S') as L'. cbn in L.
  pose proof (tail_shape _ _ _ _ (sh_phase _ _ _ _ _ S')) as [->|[->| ->]]; cbn in L'.
  - left. destruct Hm2 as [[? _]|[_ ?]]; [done|lia].
  - right. destruct Hm2 as [[_ E2]|[? _]]; [rewrite E2 in L'; lia|done].
  - exfalso. destruct Hm2 as [[_ E2]|[_ ?]]; [rewrite E2 in L'|]; lia.
Qed.

(** The actor makes its way into the action's code, and stays there. *)
Lemma actor_stays n (s : system P) r :
  a_pc (the_actor s) = AtAction r → moves s = [] → actor_steps goal_cap n s = Ok s.
Proof.
  intros Hpc Hms. induction n as [|n IH]; [done|]. cbn. unfold actor_step. by rewrite Hpc, Hms.
Qed.

Lemma actor_steps_towards bs past r z n : ∀ s : system P,
  shared bs past (Some (r, z)) [] s → moves s = [] → (distance (a_pc (the_actor s)) < n)%nat →
  ∃ s', actor_steps goal_cap n s = Ok s' ∧ moves s' = [] ∧ same_client s s' ∧
    shared bs past (Some (r, z)) [(r, 0)] s' ∧ a_pc (the_actor s') = AtAction r.
Proof.
  induction n as [|n IH]; intros s S Hms Hn; [lia|]. cbn [actor_steps].
  destruct (actor_step_towards _ _ _ _ _ S Hms) as (s1 & tail1 & -> & Hm1 & C1 & S1 & [[-> Hd]|[-> Hpc]]); cbn.
  - destruct (IH s1 S1 Hm1 ltac:(lia)) as (s' & E & Hm' & C' & ?). exists s'. split_and!; try done; try naive_solver.
    unfold same_client in *. naive_solver congruence.
  - exists s1. by rewrite (actor_stays n _ _ Hpc Hm1).
Qed.

(** *** The actor is slow: it makes no step before an operation *)

Lemma wp_eq {A} (m : ST (system P) A) Q s a s' : m s = Ok (a, s') → Q a s' → wp m Q s.
Proof. intros E ?. unfold wp. by rewrite E. Qed.

Lemma others_none (s : system P) l : sched s = 0%nat :: l → others goal_cap s = Ok (tt, set_sched l s).
Proof. intros E. unfold others. by rewrite E. Qed.

Lemma FetchNext_none (s : system P) l (Q : bool → system P → Prop) :
  sched s = 0%nat :: l → v_index (c_status s) = Z.of_nat (length (statuses s)) →
  Q false (set_sched l s) → wp (status_FetchNext goal_cap status_cap) Q s.
Proof.
  intros E Hi HQ. unfold status_FetchNext. apply wp_bind. eapply wp_eq; [by apply others_none|].
  apply wp_bind, wp_get. unfold spec_next. cbn. rewrite Hi, Z.leb_refl. apply wp_bind, wp_modify, wp_ret.
  by destruct s.
Qed.

Lemma mid_all_seen bs past cur tail k (s : system P) :
  mid bs past cur tail k s → k = Z.of_nat (length tail) → v_index (c_status s) = Z.of_nat (length (statuses s)).
Proof. intros M ->. rewrite (m_index _ _ _ _ _ _ M), (statuses_length _ _ _ _ _ (m_shared _ _ _ _ _ _ M)). lia. Qed.

Lemma FetchLatest_none bs past cur tail k (s : system P) l (Q : bool → system P → Prop) :
  sched s = 0%nat :: l → mid bs past cur tail k s →
  (∀ b s', mid bs past cur tail (Z.of_nat (length tail)) s' → sched s' = l → moves s' = moves s → Q b s') →
  wp (status_FetchLatest goal_cap) Q s.
Proof.
  intros E M HQ. unfold status_FetchLatest. apply wp_bind. eapply wp_eq; [by apply others_none|].
  apply wp_bind, wp_get. assert (M' : mid bs past cur tail k (set_sched l s)) by by eapply mid_fields.
  apply mid_latest in M'. destruct (spec_latest (statuses (set_sched l s)) (c_status (set_sched l s))) as [b v].
  apply wp_bind, wp_modify, wp_ret. by apply HQ.
Qed.

(** An action is made and started. *)
Lemma DoStart_none bs past (s : system P) a l :
  fresh a → mid bs past None [] 0 s → bs ≠ [] → sched s = 0%nat :: 0%nat :: l →
  wp (DoStart goal_cap status_cap a)
    (λ a' s', mid bs past (Some (id_of a')) [] 0 s' ∧ started a' 0 ∧ has_started_ a' = false ∧ old_run_value_ a' = 0 ∧
       run_value_ a' = run_value_ a ∧ c_status s' = c_status s ∧ moves s' = moves s ∧ sched s' = l) s.
Proof.
  intros (Hgo & Hh & Hss & Hc & Hint & Hr) M Hbs Hsc. unfold DoStart. rewrite Hgo. apply wp_bind. unfold send_goal.
  apply wp_bind. eapply wp_eq; [by apply others_none|]. apply wp_bind, wp_modify, wp_ret, wp_bind.
  pose proof (mid_all_seen _ _ _ _ _ _ M eq_refl) as Hi. eapply FetchNext_none; [done|done|].
  apply wp_bind, wp_get, wp_ret. cbn [c_status set_sched set_goals].
  destruct (mid_some _ _ _ _ _ M Hbs) as [st Hst]. rewrite Hst, (mid_unseen _ _ _ _ _ _ M Hst). cbn [Z.eqb negb].
  split; [|split_and!; cbn; rewrite ?Hh; done]. unfold id_of. cbn. rewrite Hc.
  eapply mid_fields; [apply (mid_goal _ _ None (Some (run_value_ a, false)) _ _ _ (mkGoal (run_value_ a) (params_ a)) M)|..]; try done.
  intros ac Hp. inversion Hp; subst; by econstructor.
Qed.

(** The actor gets into the action before the fetch, and the client sees it. *)
Lemma FetchNext_running bs past (s : system P) r z m (Q : bool → system P → Prop) :
  mid bs past (Some (r, z)) [] 0 s → moves s = [] → sched s = [m] → (4 ≤ m)%nat →
  (∀ s' st, a_pc (the_actor s') = AtAction r → moves s' = [] → v_value (c_status s') = Some st → running st = r → Q true s') →
  wp (status_FetchNext goal_cap status_cap) Q s.
Proof.
  intros M Hms Hsc Hm HQ. unfold status_FetchNext. apply wp_bind.
  assert (S : shared bs past (Some (r, z)) [] (set_sched [] s)).
  { destruct (m_shared _ _ _ _ _ _ M). by split. }
  destruct (actor_steps_towards _ _ _ _ m _ S Hms) as (s1 & E & Hm1 & (_ & Hcs & _) & S1 & Hpc).
  { destruct (a_pc _); cbn; lia. }
  eapply (wp_eq _ _ _ tt s1); [unfold others; by rewrite Hsc, E|]. apply wp_bind, wp_get.
  pose proof (statuses_length _ _ _ _ _ S1) as L. pose proof (status_at _ _ _ _ _ 0 S1) as Hst.
  pose proof (m_index _ _ _ _ _ _ M) as Hi. cbn in L, Hcs.
  unfold spec_next. rewrite Hcs, (proj2 (Z.leb_gt _ _)) by lia. apply wp_bind, wp_modify, wp_ret.
  rewrite Z.max_l by lia. rewrite list_lookup_fmap in Hst. cbn in Hst. apply fmap_Some in Hst as (st & Hst & [= Hr _]).
  eapply HQ; cbn; [done|done| |done]. rewrite <-Hst. f_equal. lia.
Qed.

(** The old status is taken for another action's: the wait ends with the first status. *)
Lemma DoWaitUntilDone_early bs past (s : system P) a st m n fuel :
  mid bs past (Some (id_of a)) [] 0 s → started a 0 → has_started_ a = false → old_run_value_ a = 0 →
  v_value (c_status s) = Some st → last_running st ≠ run_value_ a → moves s = [] → sched s = [0; m]%nat →
  (4 ≤ m)%nat → (2 ≤ n)%nat → (1 ≤ fuel)%nat →
  wp (DoWaitUntilDone goal_cap status_cap n fuel a)
    (λ a' s', a_pc (the_actor s') = AtAction (run_value_ a') ∧ moves s' = [] ∧
       DoCancel no_params goal_cap a' s' = Ok (a', s')) s.
Proof.
  intros M Ha Hh Hold Hst Hlast Hms Hsc Hm Hn Hf. pose proof Ha as (_ & Hss & Hint & _ & _).
  destruct n as [|[|n]]; [lia..|]. destruct fuel as [|fuel]; [lia|]. unfold DoWaitUntilDone. rewrite Hss. cbn [negb].
  apply wp_bind, (FetchNext_none _ _ _ Hsc (mid_all_seen _ _ _ _ _ _ M eq_refl)).
  apply wp_bind, wp_get. cbn [c_status set_sched]. rewrite Hst. cbn [wait_done]. apply wp_bind.
  assert (Hr : run_value_ a ≠ 0) by apply (sh_cur _ _ _ _ _ (m_shared _ _ _ _ _ _ M)).
  assert (E : CheckStarted a (Some st) = set_flags true true a).
  { unfold CheckStarted. rewrite Hh, Hold, (mid_unseen _ _ _ _ _ _ M Hst).
    rewrite (proj2 (Z.eqb_neq 0 (run_value_ a))), (proj2 (Z.eqb_neq (last_running st) _)) by done. done. }
  unfold DoCheckIteration at 1. rewrite Hss, Hint. cbn [negb]. apply wp_bind, wp_get. cbn [c_status set_sched].
  rewrite Hst, E. apply wp_bind, wp_bind. cbn [status_FetchNextBlocking]. apply wp_bind.
  eapply (FetchNext_running bs past _ (run_value_ a) (sent_cancel_ a) m); [by eapply mid_fields|done|done|done|].
  intros s' st' Hpc Hm' Hst' Hr'. apply wp_ret, wp_ret. cbn [negb]. apply wp_bind, wp_get, wp_ret.
  cbn. rewrite Hst', Hr', Z.eqb_refl. cbn [negb]. apply wp_bind. unfold DoCheckIteration. cbn. rewrite Hss. cbn.
  apply wp_ret, wp_ret. split_and!; [done..|]. unfold DoCancel. cbn. by rewrite Hss.
Qed.
End Waiting.

(** The last status is that of the end of the current action. *)
Lemma finished_tail {P} bs n past tail k pid c0 (s : system P) c :
  inv pid c0 bs n past tail k s → Forall (λ p, p.2 = 0) bs → NoDup (past ++ queued s) →
  current_action_ s = Some c → st_pair <$> last (statuses s) = Some (0, run_value_ c) → length tail = 2%nat.
Proof.
  intros [M _ _ _ _] Hbs Hnd Ec Hlast. rewrite Ec in M. cbn in M. pose proof (m_shared _ _ _ _ _ _ M) as [_ Hst Hph _ Hr].
  cbn in Hr. pose proof (fmap_last st_pair (statuses s)) as Hl. rewrite Hlast, Hst, app_assoc in Hl.
  pose proof (tail_shape _ _ _ _ Hph) as [->|[->| ->]]; [exfalso..|done].
  - rewrite app_nil_r, last_app, pairs_end in Hl. destruct (last past) as [r|] eqn:Er; cbn in Hl.
    + injection Hl as ->. apply last_Some in Er as [l ->]. unfold queued in Hnd. rewrite Ec in Hnd. cbn in Hnd.
      rewrite <-app_assoc in Hnd. apply NoDup_app in Hnd as (_ & _ & [Hn _]%NoDup_cons). set_solver.
    + apply last_Some in Hl as [l ->]. apply Forall_app in Hbs as [_ [Hb _]%Forall_cons]. cbn in Hb. congruence.
  - rewrite last_snoc in Hl. injection Hl as ?. congruence.
Qed.

(** ** What is promised *)

Definition enqueued {P} (cs : list (call (P := P))) : nat := sum_list (enqueues <$> cs).

(** C25: From the time the actor is initialised, whatever a client calls on its queue of
    actions, however the steps of the actor fall between the client's operations, and
    whatever the code of the actions does: every call returns; the goals that were sent
    are those of the actions in [past] and of the current one, each followed by exactly
    one cancellation before the next; the actor has run all of [past], each exactly once,
    from its start to its end, before the next one was asked for, and nothing but the
    current action since; and they are in the order in which they were made (an action is
    left out only if it was replaced or dropped while it waited), all with different
    values as long as no more than 65536 were made. *)
Theorem actions_in_order {P} (no_params : P) goal_cap status_cap pid c0 sc ms cs :
  3 ≤ goal_cap → 2 ≤ status_cap → Z.land pid 0xFFFF ≠ 0 → Forall enough cs →
  ∃ s0 s, actor_steps goal_cap 2 (start (u16 c0) sc ms) = Ok s0 ∧
    do_calls no_params goal_cap status_cap pid cs s0 = Ok (tt, s) ∧
    ∃ past tail,
      g_run <$> goals s = flat_map (λ r, [r; 0]) past ++ cur_goals (id_of <$> current_action_ s) ∧
      st_pair <$> statuses s = (0, 0) :: flat_map (λ r, [(r, 0); (0, r)]) past ++ tail ∧
      tail `prefix_of` flat_map (λ r, [(r, 0); (0, r)]) (option_list (run_value_ <$> current_action_ s)) ∧
      (past ++ queued s) `sublist_of` made pid c0 (enqueued cs) ∧
      (Z.of_nat (enqueued cs) ≤ 2^16 → NoDup (past ++ queued s)).
Proof.
  intros Hg Hs Hp Hcs. exists (ready (u16 c0) sc ms).
  pose proof (do_calls_ok no_params goal_cap status_cap pid Hg Hs c0 Hp _ _ _ _ _ _ _ (ready_inv pid c0 sc ms) Hcs) as W.
  apply wp_run in W as ([] & s & E & past & tail & k & [M _ _ Hord _] & _ & _). rewrite Nat.add_0_r in Hord.
  exists s. split; [done|]. split; [done|]. exists past, tail. pose proof (m_shared _ _ _ _ _ _ M) as [Hgs Hst Hph _ _].
  split; [done|]. split; [done|]. split; [|split; [done|]].
  - apply tail_shape in Hph. destruct (current_action_ s) as [c|]; cbn in *; [|by subst].
    destruct Hph as [->|[->| ->]]; [apply prefix_nil|by exists [(0, run_value_ c)]|done].
  - intros Hn. eapply sublist_NoDup; [|exact Hord]. by apply made_distinct.
Qed.

Lemma actions_in_order_witness :
  ∃ s0 s, actor_steps 16 2 (start (P := unit) (u16 0) [0; 0; 3]%nat [Finish true]) = Ok s0 ∧
    do_calls tt 16 16 971 [CEnqueue tt; CCancelCurrent; CEnqueue tt; CTick 3] s0 = Ok (tt, s) ∧
    ∃ past tail,
      g_run <$> goals s = flat_map (λ r, [r; 0]) past ++ cur_goals (id_of <$> current_action_ s) ∧
      st_pair <$> statuses s = (0, 0) :: flat_map (λ r, [(r, 0); (0, r)]) past ++ tail ∧
      tail `prefix_of` flat_map (λ r, [(r, 0); (0, r)]) (option_list (run_value_ <$> current_action_ s)) ∧
      (past ++ queued s) `sublist_of` made 971 0 2 ∧ (2 ≤ 2^16 → NoDup (past ++ queued s)).
Proof.
  apply (actions_in_order tt 16 16 971 0 [0; 0; 3]%nat [Finish true] [CEnqueue tt; CCancelCurrent; CEnqueue tt; CTick 3]).
  - lia.
  - lia.
  - vm_compute. discriminate.
  - repeat constructor.
Defined.

(** C27: When the actor has sent the last status of the current action, one [Tick] ends that
    action and starts the next one that waits, or leaves the queue empty, unless the
    client fetched both of its statuses before it looked at either (the constructor of
    another action does that): then no call ever ends it, and every later action waits
    forever, although the actor is idle. *)
Theorem finished_action_followed {P} (no_params : P) goal_cap status_cap pid c0 sc ms cs s c fuel :
  3 ≤ goal_cap → 2 ≤ status_cap → Z.land pid 0xFFFF ≠ 0 → Forall enough cs → Z.of_nat (enqueued cs) ≤ 2^16 → (3 ≤ fuel)%nat →
  do_calls no_params goal_cap status_cap pid cs (ready (u16 c0) sc ms) = Ok (tt, s) →
  current_action_ s = Some c → st_pair <$> last (statuses s) = Some (0, run_value_ c) →
  if lost s c then
    ∀ cs', Forall enough cs' →
      ∃ s', do_calls no_params goal_cap status_cap pid cs' s = Ok (tt, s') ∧
        run_value_ <$> current_action_ s' = Some (run_value_ c)
  else
    ∃ s', Tick no_params goal_cap status_cap fuel s = Ok (tt, s') ∧
      run_value_ <$> current_action_ s' = run_value_ <$> next_action_ s ∧ next_action_ s' = None.
Proof.
  intros Hg Hs Hp Hcs Hnum Hf E Ec Hlast.
  pose proof (do_calls_ok no_params goal_cap status_cap pid Hg Hs c0 Hp _ _ _ _ _ _ _ (ready_inv pid c0 sc ms) Hcs) as W.
  unfold wp in W. rewrite E in W. destruct W as (past & tail & k & I & _ & _). pose proof I as [M Hcur _ Hord _].
  pose proof (statuses_length _ _ _ _ _ (m_shared _ _ _ _ _ _ M)) as L. pose proof (m_index _ _ _ _ _ _ M) as Hi.
  pose proof (m_most _ _ _ _ _ _ M) as Hm. pose proof (mid_tail_max _ _ _ _ _ _ M) as Hm2.
  assert (Ht : length tail = 2%nat).
  { eapply finished_tail; [exact I|by repeat constructor| |done|done].
    eapply sublist_NoDup; [|exact Hord]. rewrite Nat.add_0_r. by apply made_distinct. }
  assert (El : lost s c = negb (has_started_ c) && (k =? 2)).
  { unfold lost. f_equal. destruct (Z.eqb_spec k 2), (Z.eqb_spec (v_index (c_status s)) (Z.of_nat (length (statuses s)))); lia. }
  rewrite El. destruct (negb (has_started_ c) && (k =? 2)) eqn:Eb.
  - apply andb_true_iff in Eb as [Hh%negb_true_iff ->%Z.eqb_eq]. intros cs' Hcs'.
    pose proof (do_calls_ok no_params goal_cap status_cap pid Hg Hs c0 Hp _ _ _ _ _ _ _ I Hcs') as W.
    apply wp_run in W as ([] & s' & E' & past' & tail' & k' & _ & _ & Hst). exists s'. split; [done|].
    destruct (Hst (run_value_ c)) as [_ (_ & c' & -> & Hr & _)]; [|by cbn; rewrite Hr]. split; [done|]. by exists c.
  - pose proof (Tick_ok no_params goal_cap status_cap pid Hg Hs c0 _ _ _ _ _ _ _ I Hf) as W.
    apply wp_run in W as ([] & s' & E' & _ & Hend). exists s'. split; [done|].
    destruct (Hend c Ec Ht) as (? & ? & _); [|done]. apply andb_false_iff in Eb as [Hh%negb_false_iff|?%Z.eqb_neq]; [by left|].
    right. lia.
Qed.

(** The actor does all of the first action before the second one is made. *)
Lemma finished_action_followed_witness :
  let cs := [CEnqueue tt; CEnqueue tt] in
  let r := next_run_value 971 0 in
  ∃ s c, do_calls tt 16 16 971 cs (ready (u16 0) [0; 0; 0; 4]%nat [Finish true]) = Ok (tt, s) ∧
    current_action_ s = Some c ∧ run_value_ c = r ∧ st_pair <$> last (statuses s) = Some (0, r) ∧ lost s c = true ∧
    ∃ s', do_calls tt 16 16 971 [CTick 3; CCancelAll; CEnqueue tt; CTick 3] s = Ok (tt, s') ∧
      run_value_ <$> current_action_ s' = Some r.
Proof.
  intros cs r. destruct (do_calls tt 16 16 971 cs (ready (u16 0) [0; 0; 0; 4]%nat [Finish true])) as [[[] s]|e] eqn:E;
    [|vm_compute in E; discriminate].
  destruct (current_action_ s) as [c|] eqn:Ec; [|vm_compute in E; injection E as <-; discriminate].
  assert (Hr : run_value_ c = r) by (vm_compute in E; injection E as <-; injection Ec as <-; reflexivity).
  assert (Hlast : st_pair <$> last (statuses s) = Some (0, r)) by (vm_compute in E; injection E as <-; reflexivity).
  assert (Hlost : lost s c = true).
  { vm_compute in E; injection E as <-; injection Ec as <-; reflexivity. }
  exists s, c. split_and!; [done..|].
  pose proof (finished_action_followed tt 16 16 971 0 [0; 0; 0; 4]%nat [Finish true] cs s c 3) as H. rewrite Hlost, Hr in H.
  apply H; try done; try lia; repeat constructor.
Defined.

(** [Start] and then [WaitUntilDone]: if the actor has not answered yet when the client
    begins to wait, the status that was there before is taken for that of another
    action, and the wait returns with the first status of the action. The action is then
    still running, and it is not cancelled when the client gives the action up. *)
Theorem wait_until_done_early {P} (no_params : P) goal_cap status_cap pid c0 sc ms cs s params m n fuel :
  3 ≤ goal_cap → 2 ≤ status_cap → Z.land pid 0xFFFF ≠ 0 → Forall enough cs → Z.of_nat (enqueued cs) < 2^16 →
  do_calls no_params goal_cap status_cap pid cs (ready (u16 c0) sc ms) = Ok (tt, s) →
  current_action_ s = None → moves s = [] → sched s = [0; 0; 0; 0; m]%nat →
  (4 ≤ m)%nat → (2 ≤ n)%nat → (1 ≤ fuel)%nat →
  ∃ a s', (a ← TypedAction_new goal_cap pid params;
           a ← DoStart goal_cap status_cap a;
           DoWaitUntilDone goal_cap status_cap n fuel a) s = Ok (a, s') ∧
    a_pc (the_actor s') = AtAction (run_value_ a) ∧ moves s' = [] ∧
    DoCancel no_params goal_cap a s' = Ok (a, s').
Proof.
  intros Hg Hs Hp Hcs Hnum E Ec Hms Hsc Hm Hn Hf.
  pose proof (do_calls_ok no_params goal_cap status_cap pid Hg Hs c0 Hp _ _ _ _ _ _ _ (ready_inv pid c0 sc ms) Hcs) as W.
  unfold wp in W. rewrite E in W. destruct W as (past & tail & k & I & _ & _). rewrite Nat.add_0_r in I.
  pose proof I as [M _ _ Hord Hctr]. rewrite Ec in M. cbn in M.
  assert (tail = []) as -> by apply (tail_shape _ _ _ _ (sh_phase _ _ _ _ _ (m_shared _ _ _ _ _ _ M))).
  apply wp_run, wp_bind. unfold TypedAction_new. apply wp_bind, wp_get, wp_bind, wp_modify, wp_bind.
  eapply FetchLatest_none; [done|by eapply mid_fields|]. intros b s1 M1 Hsc1 Hms1. apply wp_ret, wp_bind.
  set (r := next_run_value pid (run_counter_ s)). eapply wp_mono.
  { eapply DoStart_none; [|exact M1|done|exact Hsc1]. split_and!; try done. cbn.
    apply next_run_value_pos; [done|]. rewrite Hctr. apply Z.mod_pos_bound. lia. }
  cbn beta. intros a s2 (M2 & Ha & Hh & Hold & Hr & Hcs2 & Hms2 & Hsc2). cbn in Hr.
  destruct (mid_some _ _ _ _ _ M1) as [st Hst]; [done|]. rewrite <-Hcs2 in Hst.
  eapply DoWaitUntilDone_early; try done; [|by rewrite Hms2, Hms1].
  assert (Hnd : NoDup (made pid c0 (S (enqueued cs)))) by (apply made_distinct; lia).
  rewrite made_S in Hnd. apply NoDup_app in Hnd as (_ & Hnd & _). rewrite Hr.
  destruct (mid_old _ _ _ _ _ _ M2 Hst) as [Hb|[_ Hb]].
  - apply list_elem_of_singleton in Hb. injection Hb as _ ->. symmetry. rewrite <-Hr. apply (sh_cur _ _ _ _ _ (m_shared _ _ _ _ _ _ M2)).
  - intros Heq. apply (Hnd (last_running st)); [|rewrite Heq; unfold r; rewrite Hctr; set_solver].
    eapply elem_of_sublist; [|exact Hord]. set_solver.
Qed.

Lemma wait_until_done_early_witness :
  ∃ a s', (a ← TypedAction_new 16 971 tt;
           a ← DoStart 16 16 a;
           DoWaitUntilDone 16 16 2 1 a) (ready (u16 0) [0; 0; 0; 0; 4]%nat []) = Ok (a, s') ∧
    a_pc (the_actor s') = AtAction (run_value_ a) ∧ moves s' = [] ∧ DoCancel tt 16 a s' = Ok (a, s').
Proof.
  apply (wait_until_done_early tt 16 16 971 0 [0; 0; 0; 0; 4]%nat [] [] (ready (u16 0) [0; 0; 0; 0; 4]%nat []) tt 4 2 1);
    first [lia | reflexivity | by apply Forall_nil | vm_compute; lia].
Defined.
