(* ===== verification/LogDisplay.v ===== *)
(** * Reading logs: aos/common/logging/log_displayer.cc

    The program that prints a log file, with its options, its filters and the texts
    it prints. *)

From S2P Require Import Prelude SharedMem ByteOrder QueueTypes TypeCache Serial LogFile LogWriter.

(** ** Levels: aos/common/logging/logging.h and implementations.h *)

Definition DEBUG : Z := 0.
Definition INFO : Z := 1.
Definition WARNING : Z := 2.
Definition ERROR_level : Z := 255.
Definition LOG_UNKNOWN : Z := 5.

Definition log_levels : list (bytes * Z) :=
  [(chars "DEBUG", DEBUG); (chars "INFO", INFO); (chars "WARNING", WARNING); (chars "ERROR", ERROR_level);
   (chars "FATAL", FATAL); (chars "LOG_UNKNOWN", LOG_UNKNOWN)].

Definition log_gt_important (left right : Z) : bool :=
  let left := if left =? ERROR_level then 3 else left in
  let right := if right =? ERROR_level then 3 else right in
  right <? left.

Definition log_str (level : Z) : bytes :=
  match list_find (λ p : bytes * Z, p.2 = level) log_levels with Some (_, p) => p.1 | None => chars "unknown" end.

Definition str_log (str : bytes) : Z :=
  match list_find (λ p : bytes * Z, p.1 = str) log_levels with Some (_, p) => p.2 | None => LOG_UNKNOWN end.

(** ** Numbers: aos/common/util/string_to_num.h *)

Definition is_digit (c : Z) : bool := (48 <=? c) && (c <=? 57).
Definition is_blank (c : Z) : bool := ((9 <=? c) && (c <=? 13)) || (c =? 32).

Fixpoint skip_blanks (s : bytes) : bytes :=
  match s with c :: s' => if is_blank c then skip_blanks s' else s | [] => [] end.

(** The value of the digits in front, and what is behind them. *)
Fixpoint read_digits (s : bytes) (acc : Z) : Z * bytes :=
  match s with
  | c :: s' => if is_digit c then read_digits s' (10 * acc + (c - 48)) else (acc, s)
  | [] => (acc, [])
  end.

(** [>>] of a signed number of [w] bits, which must use up the string. *)
Definition StringToNumber (w : Z) (input : bytes) : option Z :=
  let s := skip_blanks input in
  let '(negative, s) :=
    match s with c :: s' => if c =? 45 then (true, s') else if c =? 43 then (false, s') else (false, s) | [] => (false, s) end in
  match s with
  | c :: _ =>
      if is_digit c then
        let '(v, rest) := read_digits s 0 in
        let v := if (negative : bool) then - v else v in
        if bool_decide (rest = []) && (- 2 ^ (w - 1) <=? v) && (v <? 2 ^ (w - 1)) then Some v else None
      else None
  | [] => None
  end.

(** ** Options *)

Record options := mkOptions {
  filter_name : option bytes;
  filter_exact_name : option bytes;
  filter_length : Z;
  filter_level : Z;
  opt_follow : bool;
  skip_to_end : bool;
  display_max : Z;
  source_pid : Z }.

Definition default_options : options := mkOptions None None 0 INFO false false 0 (-1).

(** The [switch] over what [getopt_long] returns: the option and its argument. *)
Definition parse_option (o : options) (c : Z) (optarg : bytes) : res options :=
  if c =? 110 (* n *) then
    Ok (mkOptions (Some optarg) None (Z.of_nat (length optarg)) (filter_level o) (opt_follow o) (skip_to_end o)
          (display_max o) (source_pid o))
  else if c =? 78 (* N *) then Err Undefined (* strlen of the name that was just set to nullptr *)
  else if c =? 108 (* l *) then
    let level := str_log optarg in
    if level =? LOG_UNKNOWN then Err Abort
    else Ok (mkOptions (filter_name o) (filter_exact_name o) (filter_length o) level (opt_follow o) (skip_to_end o)
               (display_max o) (source_pid o))
  else if c =? 112 (* p *) then
    match StringToNumber 32 optarg with
    | None => Err Abort
    | Some v =>
        if v <? 0 then Err Abort
        else Ok (mkOptions (filter_name o) (filter_exact_name o) (filter_length o) (filter_level o) (opt_follow o)
                   (skip_to_end o) (display_max o) v)
    end
  else if c =? 102 (* f *) then
    Ok (mkOptions (filter_name o) (filter_exact_name o) (filter_length o) (filter_level o) true true
          (display_max o) (source_pid o))
  else if c =? 116 (* t *) then
    Ok (mkOptions (filter_name o) (filter_exact_name o) (filter_length o) (filter_level o) false (skip_to_end o)
          (display_max o) (source_pid o))
  else if c =? 98 (* b *) then
    Ok (mkOptions (filter_name o) (filter_exact_name o) (filter_length o) (filter_level o) (opt_follow o) false
          (display_max o) (source_pid o))
  else if c =? 101 (* e *) then
    Ok (mkOptions (filter_name o) (filter_exact_name o) (filter_length o) (filter_level o) (opt_follow o) true
          (display_max o) (source_pid o))
  else if c =? 109 (* m *) then
    match StringToNumber 32 optarg with
    | None => Err Abort
    | Some v =>
        if v <=? 0 then Err Abort
        else Ok (mkOptions (filter_name o) (filter_exact_name o) (filter_length o) (filter_level o) (opt_follow o)
                   (skip_to_end o) v (source_pid o))
    end
  else if c =? 63 (* ? *) then Ok o
  else Err Abort (* h exits; o, 0 and everything else abort *).

Fixpoint parse_options (o : options) (given : list (Z * bytes)) : res options :=
  match given with
  | [] => Ok o
  | (c, optarg) :: given => o ← parse_option o c optarg; parse_options o given
  end.

(** ** Texts *)

(** [%.*s] of the given bytes. *)
Fixpoint cut_nul (bs : bytes) : bytes :=
  match bs with b :: bs => if b =? 0 then [] else b :: cut_nul bs | [] => [] end.

(** [%0wd] and [%-ws] *)
Definition print_padded (w : nat) (z : Z) : bytes :=
  let digits := dec_digits 20 (Z.abs z) in
  if z <? 0 then 45 :: replicate (w - 1 - length digits) 48 ++ digits
  else replicate (w - length digits) 48 ++ digits.
Definition print_left (w : nat) (s : bytes) : bytes := s ++ replicate (w - length s) 32.

(** A header's fields. *)
Record LogFileMessageHeader := mkHeader {
  h_time_sec : Z; h_time_nsec : Z; h_source : Z; h_name_size : Z; h_message_size : Z;
  h_sequence : Z; h_type : Z; h_level : Z }.

(** [AOS_LOGGING_BASE_FORMAT]; the time is printed as an int32_t, in microseconds. *)
Definition base_text (h : LogFileMessageHeader) (name : bytes) : bytes :=
  cut_nul name ++ chars "(" ++ decimal (h_source h) ++ chars ")(" ++ print_padded 5 (h_sequence h) ++ chars "): " ++
  print_left 7 (log_str (h_level h)) ++ chars " at " ++ print_padded 10 (swrap 32 (h_time_sec h)) ++ chars "." ++
  print_padded 6 (swrap 32 (u32 (h_time_nsec h + 500) / 1000)) ++ chars "s: ".

(** ** The program *)

(** What is on standard output: what the program prints, and what it logs itself. *)
Inductive output := Printed (text : bytes) | Logged (level : Z) (text : bytes).

Record displayer := mkDisplayer {
  d_log : log; d_types : types; d_stdout : list output; d_stderr : list bytes }.
Abbreviation MD := (ST displayer).

Definition on_reader {A} (m : ML A) : MD A := λ s,
  match m (d_log s) with
  | Ok (a, l) => Ok (a, mkDisplayer l (d_types s) (d_stdout s) (d_stderr s))
  | Err e => Err e
  end.
Definition on_type_cache {A} (m : MT A) : MD A := λ s,
  match m (d_types s) with
  | Ok (a, t) => Ok (a, mkDisplayer (d_log s) t (d_stdout s) (d_stderr s))
  | Err e => Err e
  end.
Definition print (out : output) : MD unit :=
  st_modify (λ s, mkDisplayer (d_log s) (d_types s) (d_stdout s ++ [out]) (d_stderr s)).
Definition complain (text : bytes) : MD unit :=
  st_modify (λ s, mkDisplayer (d_log s) (d_types s) (d_stdout s) (d_stderr s ++ [text])).

(** [filter_name] and [filter_exact_name] *)
Definition name_matches (o : options) (name : bytes) : bool :=
  match filter_name o with
  | Some f =>
      let compare_length := Z.to_nat (Z.min (filter_length o) (Z.of_nat (length name))) in
      bool_decide (take compare_length f = take compare_length name) &&
      (if bool_decide (compare_length < length name)%nat then bool_decide (name !! compare_length = Some 46) else true)
  | None => true
  end &&
  match filter_exact_name o with
  | Some f => (filter_length o =? Z.of_nat (length name)) && bool_decide (take (Z.to_nat (filter_length o)) f = name)
  | None => true
  end.

(** The fields through [msg]. *)
Definition load_header (c : mapping) (p : Z) : ML LogFileMessageHeader :=
  sec ← load_int c (p + off_time_sec) 4;
  nsec ← load_int c (p + off_time_nsec) 4;
  source ← load_int c (p + off_source) 4;
  name_size ← load_int c (p + off_name_size) 4;
  message_size ← load_int c (p + off_message_size) 4;
  sequence ← load_int c (p + off_sequence) 2;
  type ← load_int c (p + off_type) 2;
  level ← load_int c (p + off_level) 1;
  mret (mkHeader sec nsec (swrap 32 source) name_size message_size sequence type level).

(** [n] bytes at [i], if they are there. *)
Definition guard_take (i n : nat) (bs : bytes) : option bytes :=
  if bool_decide (i + n <= length bs)%nat then Some (take n (drop i bs)) else None.

Section Display.
Context (SystemPageSize : Z) (sys_read : file → Z → Z) (uninitialised : bytes) (futex_wait : file → Z → Z * file).
(** [PrintField] is generated; [type_fuel] bounds the nesting of types. *)
Context (PrintField : Z → bytes → Z → Z → res printed) (type_fuel : nat).

(** [type_cache::Get]: no shared memory is attached, so that it only looks. *)
Definition cached (t : types) (type_id : Z) : res MessageType :=
  match TypeCache.Get type_id t with Ok (x, _) => Ok x | Err e => Err e end.

(** The text of a type, in the current version or the one without lengths. *)
Definition decode_type (bs : bytes) : res (bool * option MessageType) :=
  '(t, _) ← Deserialize bs (Z.of_nat (length bs)) true;
  match (t : option MessageType) with
  | Some t => Ok (true, Some t)
  | None => '(t, _) ← Deserialize bs (Z.of_nat (length bs)) false; Ok (false, t)
  end.

Definition add_type (bs : bytes) : MD unit :=
  '(current, t) ← st_lift (decode_type bs);
  _ ← (if (current : bool) then mret tt else print (Logged INFO (chars "Trying old version of type decoding.")));
  match t with
  | None => print (Logged WARNING (chars "Error deserializing MessageType"))
  | Some t => on_type_cache (Add t)
  end.

Definition sizeof_buffer : Z := 2048.

(** The [switch]: what it prints, and whether it warns about extra bytes.  Reading
    behind the message is undefined. *)
Definition message_text (t : types) (h : LogFileMessageHeader) (name message : bytes) : res (bytes * bool) :=
  if h_type h =? kString then Ok (base_text h name ++ cut_nul message, false)
  else if h_type h =? kStruct then
    match le_combine <$> guard_take 0 4 message, le_combine <$> guard_take 4 4 message with
    | Some type_id, Some string_length =>
        if Z.of_nat (length message) <? 8 + string_length then Err Undefined
        else
          let text := take (Z.to_nat string_length) (drop 8 message) in
          let input := drop (Z.to_nat (8 + string_length)) message in
          type ← cached t type_id;
          r ← PrintMessage PrintField (cached t) type_fuel sizeof_buffer input (Z.of_nat (length input)) type;
          match (r : printed) with
          | None => Err Fatal
          | Some (out, output_length, input_length) =>
              Ok (base_text h name ++ cut_nul text ++ chars ": " ++
                  cut_nul (take (Z.to_nat (sizeof_buffer - output_length)) out) ++ [10], 0 <? input_length)
          end
    | _, _ => Err Undefined
    end
  else if h_type h =? kMatrix then
    match le_combine <$> guard_take 0 4 message, le_combine <$> guard_take 4 4 message,
          le_combine <$> guard_take 8 2 message, le_combine <$> guard_take 10 2 message with
    | Some type, Some string_length, Some rows, Some cols =>
        if Z.of_nat (length message) <? 12 + string_length then Err Undefined
        else
          let text := take (Z.to_nat string_length) (drop 12 message) in
          let data := drop (Z.to_nat (12 + string_length)) message in
          if negb (Z.of_nat (length data) =? u32 (Sizeof type * rows * cols)) then Err Fatal
          else
            r ← PrintMatrix PrintField sizeof_buffer data type rows cols;
            match (r : option (bytes * Z)) with
            | None => Err Fatal
            | Some (out, output_length) =>
                Ok (base_text h name ++ cut_nul text ++ chars ": " ++
                    cut_nul (take (Z.to_nat (sizeof_buffer - output_length)) out) ++ [10], false)
            end
    | _, _, _, _ => Err Undefined
    end
  else Ok ([], false).

Definition display_message (h : LogFileMessageHeader) (name message : bytes) : MD unit :=
  s ← st_get;
  '(text, extra) ← st_lift (message_text (d_types s) h name message);
  _ ← (if (extra : bool) then print (Logged WARNING (chars "extra bytes on message")) else mret tt);
  print (Printed text).

(** The [do ... while]: [n] bounds the messages, [wait_fuel] the waits for one. *)
Fixpoint display_loop (n wait_fuel : nat) (o : options) (skipping : bool) (displayed : Z) : MD Z :=
  match n with
  | O => st_stop Fuel
  | S n =>
      msg ← on_reader (ReadNextMessage sys_read uninitialised futex_wait wait_fuel (opt_follow o));
      match msg with
      | None => _ ← complain (chars "reached end of file"); mret 0
      | Some p =>
          a ← on_reader get_acc;
          let c := current_ a in
          h ← on_reader (load_header c p);
          let continue := display_loop n wait_fuel o in
          if h_type h =? kStructType then
            bs ← on_reader (page_load c (p + sizeof_LogFileMessageHeader) (Z.to_nat (h_message_size h)));
            _ ← add_type bs;
            continue skipping displayed
          else if (0 <=? source_pid o) && negb (h_source h =? source_pid o) then continue skipping displayed
          else
            skipping ← (if skipping then
                          last ← on_reader IsLastPage;
                          _ ← (if (last : bool) then complain (chars "done skipping old logs") else mret tt);
                          mret (negb last)
                        else mret false);
            if (skipping : bool) then continue skipping displayed
            else if log_gt_important (filter_level o) (h_level h) then continue skipping displayed
            else
              name ← on_reader (page_load c (p + sizeof_LogFileMessageHeader) (Z.to_nat (h_name_size h)));
              if negb (name_matches o name) then continue skipping displayed
              else if negb (display_max o =? 0) && (display_max o <=? displayed) then
                _ ← complain (chars "Not displaying the rest of the messages."); mret 0
              else
                message ← on_reader (page_load c (p + sizeof_LogFileMessageHeader + h_name_size h)
                                       (Z.to_nat (h_message_size h)));
                _ ← display_message h name message;
                continue skipping (if display_max o =? 0 then displayed else displayed + 1)
      end
  end.

(** [main]: what [getopt_long] finds, the other arguments, and what [open] does with a
    name ([None] for -1). *)
Definition displayer_main (n wait_fuel : nat) (given : list (Z * bytes)) (args : list bytes)
    (open : bytes → option file) (stdin : file) (t : types) : res (Z * displayer) :=
  o ← parse_options default_options given;
  let filename := default (chars "aos_log-current") (args !! 0%nat) in
  let extra := if bool_decide (tail args = []) then [] else [chars "non-option ARGV-elements: " ++ mjoin (tail args)] in
  let none := mkDisplayer (mkLog stdin (LogFileAccessor_init false)) t [] extra in
  if bool_decide (filename = chars "-") && skip_to_end o then Ok (1, mkDisplayer (d_log none) t [] (extra ++ [chars "Can't skip to end of stdin!"]))
  else
    match (if bool_decide (filename = chars "-") then Some stdin else open filename) with
    | None => Err Fatal
    | Some f =>
        let s := mkDisplayer (mkLog f (LogFileAccessor_init false)) t []
                   (extra ++ [chars "displaying down to level " ++ log_str (filter_level o) ++ chars " from file " ++ filename]) in
        (_ ← on_reader (LogFileAccessor_new SystemPageSize sys_read uninitialised);
         _ ← (if skip_to_end o then
                _ ← complain (chars "skipping old logs...");
                on_reader (SkipToLastSeekablePage sys_read uninitialised)
              else mret tt);
         display_loop n wait_fuel o (skip_to_end o) 0) s
    end.
End Display.
