(* ===== verification/LogDisplayTheorems.v ===== *)
(** * What the log displayer prints

    First a log as the list of its records and what the loop prints of it, then the
    displayer on logs that the log writer wrote. *)


From stdpp Require Import sets.
From S2P Require Import Prelude SharedMem ByteOrder QueueTypes QueueTypesProofs TypeCache TypesTheorems Serial.
From S2P Require Import LogFile LogFileProofs LogWriter LogWriterProofs LogTypes LogLive LogTheorems LogDisplay.

(** ** A log as a list of records *)

Definition header_of (r : record) : LogFileMessageHeader :=
  mkHeader (r_sec r) (r_nsec r) (swrap 32 (r_source r)) (Z.of_nat (length (r_name r))) (Z.of_nat (length (r_message r)))
    (r_sequence r) (r_type r) (r_level r).

(** Which messages the options ask for. *)
Definition wanted (o : options) (r : record) : bool :=
  negb ((0 <=? source_pid o) && negb (swrap 32 (r_source r) =? source_pid o)) &&
  negb (log_gt_important (filter_level o) (r_level r)) && name_matches o (r_name r).

Definition full (o : options) (displayed : Z) : bool := negb (display_max o =? 0) && (display_max o <=? displayed).
Definition count_one (o : options) (displayed : Z) : Z := if display_max o =? 0 then displayed else displayed + 1.

Definition with_log (l : log) (s : displayer) : displayer := mkDisplayer l (d_types s) (d_stdout s) (d_stderr s).

Section Spec.
Context (PrintField : Z → bytes → Z → Z → res printed) (type_fuel : nat).

(** The program on a list of records. *)
Fixpoint display_records (o : options) (displayed : Z) (rs : list record) : MD Z :=
  match rs with
  | [] => _ ← complain (chars "reached end of file"); mret 0
  | r :: rs =>
      if r_type r =? kStructType then _ ← add_type (r_message r); display_records o displayed rs
      else if negb (wanted o r) then display_records o displayed rs
      else if full o displayed then _ ← complain (chars "Not displaying the rest of the messages."); mret 0
      else
        _ ← display_message PrintField type_fuel (header_of r) (r_name r) (r_message r);
        display_records o (count_one o displayed) rs
  end.

(** Operations that do not look at the file. *)
Definition log_free {A} (m : MD A) : Prop :=
  ∀ l s, m (with_log l s) = match m s with Ok (a, s') => Ok (a, with_log l s') | Err e => Err e end.
Definition keeps_log {A} (m : MD A) : Prop := ∀ s a s', m s = Ok (a, s') → d_log s' = d_log s.

Lemma print_log_free out : log_free (print out).
Proof. done. Qed.

Lemma complain_log_free t : log_free (complain t).
Proof. done. Qed.

Lemma add_type_log_free bs : log_free (add_type bs).
Proof.
  intros l s. unfold add_type. mstep. destruct (decode_type bs) as [[[] [t|]]|]; cbn; try done.
  all: unfold on_type_cache, Add; cbn; by destruct (cache (d_types s) !! id t).
Qed.

Lemma display_message_log_free h n m : log_free (display_message PrintField type_fuel h n m).
Proof.
  intros l s. unfold display_message. mstep. cbn [d_types with_log].
  by destruct (message_text PrintField type_fuel (d_types s) h n m) as [[text []]|].
Qed.

(** A turn that does not look at the file, and the rest on the state it leaves. *)
Lemma log_free_bind {A B} (m : MD A) (f g : A → MD B) l s :
  log_free m →
  (∀ a s', m s = Ok (a, s') →
     match f a s' with
     | Ok (b, s2) => ∃ l', g a (with_log l s') = Ok (b, with_log l' s2)
     | Err e => g a (with_log l s') = Err e
     end) →
  match (m ≫= f) s with
  | Ok (b, s2) => ∃ l', (m ≫= g) (with_log l s) = Ok (b, with_log l' s2)
  | Err e => (m ≫= g) (with_log l s) = Err e
  end.
Proof.
  intros Hm Hf. unfold mbind, st_bind. rewrite Hm. destruct (m s) as [[a s']|]; [|done]. cbn. by apply Hf.
Qed.
End Spec.

(** ** Loading a record *)

Section Load.
Context (l : log) (h a : Z) (r : record).
Context (Hr : record_at (l_file l) h r) (Hst : stands l a) (Hcur : current_ (l_acc l) = Mapped (page_start h)).
Context (Hfit : h mod kPageSize + record_size r ≤ kPageSize).

Lemma same_page : page_start a = page_start h.
Proof. pose proof (st_current _ _ Hst). congruence. Qed.

Lemma load_field off n : 0 ≤ off → off + Z.of_nat n ≤ 32 →
  load_int (Mapped (page_start h)) (h mod kPageSize + off) n l = Ok (int_at (l_file l) (h + off) n, l).
Proof.
  intros H0 H1. pose proof (page_mod h). pose proof (record_size_pos r).
  assert (W : wp (load_int (Mapped (page_start h)) (h mod kPageSize + off) n) (λ v l', v = int_at (l_file l) (h + off) n ∧ l' = l) l).
  { rewrite <-same_page. apply (load_int_ok Hst); [lia|lia|]. rewrite same_page. split; [|done].
    rewrite (page_split h) at 3. f_equal. lia. }
  apply wp_run in W as (v & l' & E & -> & ->). done.
Qed.

Lemma load_header_record : load_header (Mapped (page_start h)) (h mod kPageSize) l = Ok (header_of r, l).
Proof.
  unfold load_header. mstep. rewrite !load_field by (unfold off_time_sec, off_time_nsec, off_source, off_name_size,
    off_message_size, off_sequence, off_type, off_level; lia).
  destruct Hr as (-> & -> & -> & -> & -> & -> & -> & -> & _). done.
Qed.

Lemma page_load_in off n : 0 ≤ off → h mod kPageSize + off + Z.of_nat n ≤ kPageSize →
  page_load (Mapped (page_start h)) (h mod kPageSize + off) n l = Ok (bytes_at (l_file l) (h + off) n, l).
Proof.
  intros H0 H1. pose proof (page_mod h). pose proof (st_in _ _ Hst) as Hin. unfold next_page in Hin. rewrite same_page in Hin.
  unfold page_load. destruct (Z.ltb_spec (h mod kPageSize + off) 0); [lia|].
  destruct (Z.ltb_spec kPageSize (h mod kPageSize + off + Z.of_nat n)); [lia|]. cbn [orb].
  destruct (Z.ltb_spec (f_size (l_file l)) (page_start h + (h mod kPageSize + off) + Z.of_nat n)); [lia|].
  do 3 f_equal. pose proof (page_split h). lia.
Qed.

Lemma load_name : page_load (Mapped (page_start h)) (h mod kPageSize + sizeof_LogFileMessageHeader)
  (Z.to_nat (h_name_size (header_of r))) l = Ok (r_name r, l).
Proof.
  cbn [h_name_size header_of]. rewrite Nat2Z.id. unfold record_size in *.
  rewrite page_load_in by (unfold sizeof_LogFileMessageHeader in *; lia).
  by destruct Hr as (_ & _ & _ & _ & _ & _ & _ & _ & -> & _).
Qed.

Lemma load_message : page_load (Mapped (page_start h)) (h mod kPageSize + sizeof_LogFileMessageHeader + h_name_size (header_of r))
  (Z.to_nat (h_message_size (header_of r))) l = Ok (r_message r, l).
Proof.
  cbn [h_name_size h_message_size header_of]. rewrite Nat2Z.id. unfold record_size in *. rewrite <-Z.add_assoc.
  rewrite page_load_in by (unfold sizeof_LogFileMessageHeader in *; lia).
  destruct Hr as (_ & _ & _ & _ & _ & _ & _ & _ & _ & H). rewrite Z.add_assoc. by rewrite H.
Qed.
End Load.

(** ** The loop *)

Section Loop.
Context (SystemPageSize : Z) (sys_read : file → Z → Z) (uninitialised : bytes) (futex_wait : file → Z → Z * file).
Context (PrintField : Z → bytes → Z → Z → res printed) (type_fuel : nat).
Notation display_loop := (display_loop sys_read uninitialised futex_wait PrintField type_fuel).
Notation display_records := (display_records PrintField type_fuel).

(** The logger gives the records of types no name. *)
Definition type_unnamed (r : record) : Prop := r_type r = kStructType → r_name r = [].

Lemma on_reader_ok {A B} (m : ML A) (f : A → MD B) s l a :
  m (d_log s) = Ok (a, l) → (on_reader m ≫= f) s = f a (with_log l s).
Proof. intros E. unfold on_reader, mbind, st_bind. by rewrite E. Qed.

Lemma with_log_same s : with_log (d_log s) s = s.
Proof. by destruct s. Qed.

Lemma with_log_twice l l' s : with_log l (with_log l' s) = with_log l s.
Proof. done. Qed.

(** The program prints the same from the file as from the list of its records. *)
Lemma display_loop_ok o rs e wf : opt_follow o = false → Forall type_unnamed rs → ∀ n displayed l a s,
  stands l a → writable_ (l_acc l) = false → logged (l_file l) a rs e → (length rs < n)%nat →
  match display_records o displayed rs s with
  | Ok (c, s') => ∃ l', display_loop n (S wf) o false displayed (with_log l s) = Ok (c, with_log l' s')
  | Err er => display_loop n (S wf) o false displayed (with_log l s) = Err er
  end.
Proof.
  intros Ho. induction rs as [|r rs IH]; intros Hun n displayed l a s Hst Hw Hl Hn; destruct n as [|n]; [cbn in Hn; lia| |cbn in Hn; lia|];
    cbn [LogDisplay.display_loop]; rewrite Ho;
    destruct (proj1 (wp_run _ _ _) (ReadNextMessage_ok sys_read uninitialised futex_wait l a _ e wf Hst Hw Hl))
      as (p & l1 & E1 & Hf1 & Hw1 & Hp); rewrite (on_reader_ok _ _ (with_log l s) _ _ E1), with_log_twice.
  - destruct Hp as [-> _]. by exists l1.
  - destruct Hp as (h & a' & -> & Hr & Hst1 & Hcur & Hfit & Hl1).
    rewrite (on_reader_ok _ _ (with_log l1 s) l1 (l_acc l1)) by done. rewrite Hcur, with_log_twice.
    rewrite <-Hf1 in Hr, Hl1. rewrite (on_reader_ok _ _ (with_log l1 s) l1 (header_of r)) by (by eapply load_header_record).
    rewrite with_log_twice. apply Forall_cons in Hun as [Hu Hun]. cbn in Hn.
    assert (IH' : ∀ displayed s, match display_records o displayed rs s with
      | Ok (c, s') => ∃ l', display_loop n (S wf) o false displayed (with_log l1 s) = Ok (c, with_log l' s')
      | Err er => display_loop n (S wf) o false displayed (with_log l1 s) = Err er end).
    { intros. eapply IH; [done|exact Hst1|done|done|lia]. }
    cbn [LogDisplayTheorems.display_records]. cbn [h_type header_of]. destruct (Z.eqb_spec (r_type r) kStructType) as [Ht|Ht].
    + rewrite (on_reader_ok _ _ (with_log l1 s) l1 (r_message r)).
      2:{ pose proof (load_message l1 h a' r Hr Hst1 Hcur Hfit) as E. cbn [h_name_size header_of] in E. rewrite (Hu Ht) in E at 1.
          cbn in E |- *. by rewrite Z.add_0_r in E. }
      rewrite with_log_twice. apply log_free_bind; [apply add_type_log_free|]. intros [] s' _. apply IH'.
    + unfold wanted. cbn [h_source header_of h_level].
      destruct ((0 <=? source_pid o) && negb (swrap 32 (r_source r) =? source_pid o)); cbn [negb andb]; [apply IH'|].
      rewrite st_bind_step with (a := false) (s1 := with_log l1 s) by done. cbn iota.
      destruct (log_gt_important (filter_level o) (r_level r)); cbn [negb andb]; [apply IH'|].
      rewrite (on_reader_ok _ _ (with_log l1 s) l1 (r_name r)) by (by eapply load_name). rewrite with_log_twice.
      destruct (name_matches o (r_name r)); cbn [negb]; [|apply IH'].
      unfold full. destruct (negb (display_max o =? 0) && (display_max o <=? displayed)).
      * by exists l1.
      * rewrite (on_reader_ok _ _ (with_log l1 s) l1 (r_message r)) by (by eapply load_message). rewrite with_log_twice.
        apply log_free_bind; [apply display_message_log_free|]. intros [] s' _. apply IH'.
Qed.
End Loop.

(** ** Logs of strings *)

Definition line (r : record) : bytes := base_text (header_of r) (r_name r) ++ cut_nul (r_message r).

(** The first ones that [display_max] allows. *)
Definition allowed {A} (o : options) (displayed : Z) (l : list A) : list A :=
  if display_max o =? 0 then l else take (Z.to_nat (display_max o - displayed)) l.

Definition plain (r : record) : Prop :=
  r_type r = kString ∨ r_type r = kStructType ∧ ∃ t, decode_type (r_message r) = Ok (true, Some t).

Lemma allowed_full {A} o displayed (l : list A) : full o displayed = true → allowed o displayed l = [].
Proof.
  unfold full, allowed. intros [H1 H2]%andb_true_iff. apply negb_true_iff in H1. rewrite H1. apply Z.leb_le in H2.
  by replace (Z.to_nat (display_max o - displayed)) with 0%nat by lia.
Qed.

Lemma allowed_cons {A} o displayed (x : A) l : full o displayed = false →
  allowed o displayed (x :: l) = x :: allowed o (count_one o displayed) l.
Proof.
  unfold full, allowed, count_one. destruct (display_max o =? 0); [done|]. cbn. intros H%Z.leb_gt.
  replace (Z.to_nat (display_max o - displayed)) with (S (Z.to_nat (display_max o - (displayed + 1)))) by lia. done.
Qed.

Definition add_line (r : record) (s : displayer) : displayer :=
  mkDisplayer (d_log s) (d_types s) (d_stdout s ++ [Printed (line r)]) (d_stderr s).

Lemma display_string PrintField type_fuel r s : r_type r = kString →
  display_message PrintField type_fuel (header_of r) (r_name r) (r_message r) s = Ok (tt, add_line r s).
Proof.
  intros Ht. unfold display_message, message_text. cbn [h_type header_of]. by rewrite Ht.
Qed.

Lemma add_known_type bs t s : decode_type bs = Ok (true, Some t) →
  ∃ s', add_type bs s = Ok (tt, s') ∧ d_stdout s' = d_stdout s.
Proof.
  intros Hd. unfold add_type. mstep. rewrite Hd. unfold on_type_cache, Add. cbn. destruct (cache (d_types s) !! id t); eauto.
Qed.

Lemma display_strings PrintField type_fuel o rs : Forall plain rs → ∀ displayed s,
  ∃ s', display_records PrintField type_fuel o displayed rs s = Ok (0, s') ∧
    d_stdout s' = d_stdout s ++
      ((λ r, Printed (line r)) <$> allowed o displayed (filter (λ r, wanted o r = true) (filter (λ r, r_type r ≠ kStructType) rs))).
Proof.
  induction 1 as [|r rs Hr _ IH]; intros displayed s; cbn [display_records].
  { eexists. split; [done|]. unfold allowed. cbn. destruct (display_max o =? 0); rewrite ?take_nil; by rewrite app_nil_r. }
  destruct Hr as [Ht|(Ht & t & Hd)]; rewrite Ht.
  - rewrite filter_cons_True by (rewrite Ht; done). destruct (wanted o r) eqn:Ew; cbn [Z.eqb kString kStructType negb].
    + rewrite filter_cons_True by done. destruct (full o displayed) eqn:Ef.
      { eexists. split; [done|]. rewrite allowed_full by done. by rewrite app_nil_r. }
      rewrite allowed_cons by done. rewrite (st_bind_step _ _ _ _ _ (display_string _ _ r s Ht)).
      destruct (IH (count_one o displayed) (add_line r s)) as (s' & E & Hs').
      exists s'. split; [exact E|]. rewrite Hs'. cbn. by rewrite <-app_assoc.
    + rewrite filter_cons_False by (by rewrite Ew). apply IH.
  - rewrite filter_cons_False by (intros Hn; by apply Hn). rewrite Z.eqb_refl.
    destruct (add_known_type _ _ s Hd) as (s1 & E1 & <-). rewrite (st_bind_step _ _ _ _ _ E1). apply IH.
Qed.

(** ** What the logger wrote *)

Section Written.
Context (SystemPageSize : Z) (sys_read : file → Z → Z) (uninitialised stack : bytes) (getpid : Z).
Context (c : gmap Z CacheEntry).

(** The writer opens a new file. *)
Definition new_logger (t : types) : res logger :=
  '(_, w) ← LogFileAccessor_new SystemPageSize sys_read uninitialised
              (mkLog (mkFile 0 ∅ 0 true) (LogFileAccessor_init true));
  Ok (mkLogger w t ∅ 0).

(** The records that messages and types leave. *)
Definition from_logger (r : record) : Prop := (∃ i, tells c getpid i r) ∨ ∃ m, r = record_of m.

Lemma tells_plain i r : tells c getpid i r → type_unnamed r ∧ r_type r = kStructType ∧ ∃ t, decode_type (r_message r) = Ok (true, Some t).
Proof.
  intros (x & _ & Hwf & _ & ->). split_and!; [done|done|]. exists (ce_type x). unfold decode_type. cbn [type_record r_message].
  rewrite <-(app_nil_r (encode_type (ce_type x))) at 1. rewrite Deserialize_encoded; [done|done|].
  rewrite encode_type_length. destruct Hwf as [_ _ Hn _ _ Hs]. unfold in_unsigned in *. lia.
Qed.

Lemma from_logger_unnamed r : from_logger r → type_unnamed r.
Proof. intros [[i Hi]|[m ->]]; [by eapply tells_plain|]. intros H. cbn in H. by destruct (m_payload m). Qed.

Context (Hpage : 0 < SystemPageSize) (Hmod : kPageSize mod SystemPageSize = 0) (Hstack : length stack = 1024%nat).

Lemma page_size_ok : (kPageSize <? SystemPageSize) || negb (kPageSize mod SystemPageSize =? 0) = false.
Proof.
  rewrite Hmod. cbn. rewrite orb_false_r. apply Z.ltb_ge. apply Z.mod_divide in Hmod; [|lia]. by apply Z.divide_pos_le.
Qed.

Lemma new_logger_ok t : cache t = c →
  ∃ g, new_logger t = Ok g ∧ ready c getpid [] g 0 [] 0 ∧ filesize g = kPageSize.
Proof.
  intros Ht.
  unfold new_logger, LogFileAccessor_new. rewrite page_size_ok, MapNextPage_eq by done. rewrite res_bind_Ok. cbn iota beta.
  eexists. split; [done|]. unfold next_offset. cbn [l_file l_acc LogFileAccessor_init writable_ offset_].
  change (swrap 64 (0 + kPageSize)) with kPageSize. set (f := ftruncate _ _). split; [|done].
  assert (Hpg : paged f) by (split; done). assert (H0 : next_page 0 = kPageSize) by done.
  split; [|by right]. split; cbn [lg_log lg_types written_type_ids clear_type_ids_cookie]; try done.
  split; try done; first [by apply logged_end|by split].
Qed.

(** The pages that messages need at most. *)
Definition pages_of (n : nat) (ms : list LogMessage) : Z := foldr (λ m k, message_pages c n m + k) 0 ms.

Lemma pages_of_nonneg n ms : 0 ≤ pages_of n ms.
Proof. induction ms as [|m ms IH]; cbn [pages_of foldr]; [lia|]. fold (pages_of n ms). pose proof (message_pages_pos stack c Hstack n m). lia. Qed.

Lemma log_messages_ok n ms : Forall (loggable c n) ms → ∀ g rs e,
  ready c getpid [] g 0 rs e → Forall from_logger rs → filesize g + kPageSize * pages_of n ms < 2 ^ 62 →
  wp (log_messages sys_read uninitialised stack getpid (S n) ms) (λ _ g', ∃ rs' e',
    ready c getpid [] g' 0 rs' e' ∧ Forall from_logger rs' ∧
    filter (λ r, r_type r ≠ kStructType) rs' = filter (λ r, r_type r ≠ kStructType) rs ++ (record_of <$> ms)) g.
Proof.
  induction 1 as [|m ms Hm _ IH]; intros g rs e R F Hsz; cbn [log_messages].
  { apply wp_ret. exists rs, e. by rewrite app_nil_r. }
  pose proof (pages_of_nonneg n ms). cbn [pages_of foldr] in Hsz. fold (pages_of n ms) in Hsz. apply wp_bind.
  eapply wp_mono; [apply (log_message_ok c getpid [] sys_read uninitialised stack Hstack n m g 0 rs e R Hm); unfold kPageSize in *; lia|].
  cbn beta. intros [] g1 (ts & e1 & R1 & Hts & _ & Hs1).
  eapply wp_mono; [apply (IH g1 _ _ R1); [|unfold kPageSize in *; lia]|].
  - rewrite !Forall_app, Forall_singleton. split_and!; [done| |right; eauto]. eapply Forall_impl; [exact Hts|]. by left.
  - cbn beta. intros [] g2 (rs2 & e2 & R2 & F2 & Hf2). exists rs2, e2. split_and!; [done|done|]. rewrite Hf2, !filter_app.
    assert (filter (λ r, r_type r ≠ kStructType) ts = []) as ->.
    { clear -Hts. induction Hts as [|r ts [i Hi] _ IHF]; [done|]. rewrite filter_cons_False; [exact IHF|].
      intros Hn. by apply Hn, (tells_plain i). }
    rewrite filter_cons_True by (cbn; by destruct (m_payload m)). cbn. by rewrite <-app_assoc.
Qed.

(** A reader that opens the file stands at its start. *)
Lemma open_reader_ok f : paged f → kPageSize ≤ f_size f →
  ∃ l, LogFileAccessor_new SystemPageSize sys_read uninitialised (mkLog f (LogFileAccessor_init false)) = Ok (tt, l) ∧
    l_file l = f ∧ stands l 0 ∧ writable_ (l_acc l) = false.
Proof.
  intros Hpg Hsz. unfold LogFileAccessor_new. rewrite page_size_ok, MapNextPage_eq by (done || apply Hpg).
  eexists. split; [done|]. split; [done|]. split; [|done]. by split.
Qed.
End Written.

(** ** The options *)

(** A name prefix: the process itself, its threads (a dot and more), and any process
    whose name is a prefix of what was asked for. *)
Theorem name_prefix_matches f len level follow skip mx pid name :
  len = Z.of_nat (length f) →
  name_matches (mkOptions (Some f) None len level follow skip mx pid) name = true ↔
  name `prefix_of` f ∨ ∃ rest, name = f ++ 46 :: rest.
Proof.
  intros ->. unfold name_matches. cbn [filter_name filter_exact_name filter_length]. rewrite andb_true_r, andb_true_iff, bool_decide_eq_true.
  rewrite <-Nat2Z.inj_min, Nat2Z.id. destruct (decide (length name ≤ length f)%nat) as [Hle|Hgt].
  - rewrite Nat.min_r, (firstn_all name), bool_decide_eq_false_2 by lia. split.
    + intros [E _]. left. rewrite <-E. apply prefix_take.
    + intros [[k ->]|[rest ->]]; [by rewrite take_app_length|]. rewrite length_app in Hle. cbn in Hle. lia.
  - rewrite Nat.min_l, (firstn_all f), bool_decide_eq_true_2 by lia. rewrite bool_decide_eq_true. split.
    + intros [E H46]. right. exists (drop (S (length f)) name).
      rewrite <-(take_drop (length f) name) at 1. rewrite <-E. f_equal. by apply drop_S.
    + intros [Hp%prefix_length|[rest ->]]; [lia|]. rewrite take_app_length. split; [done|]. by apply list_lookup_middle.
Qed.

Lemma read_digits_app ds rest acc : Forall (λ d, is_digit d = true) ds → (∀ d, head rest = Some d → is_digit d = false) →
  read_digits (ds ++ rest) acc = (foldl (λ a d, 10 * a + (d - 48)) acc ds, rest).
Proof.
  intros H Hr. revert acc. induction H as [|d ds Hd _ IH]; intros acc; cbn.
  - destruct rest as [|r rest]; [done|]. cbn. by rewrite (Hr r eq_refl).
  - by rewrite Hd.
Qed.

Lemma dec_digits_ok fuel : ∀ n, 0 ≤ n < 10 ^ Z.of_nat fuel → (0 < fuel)%nat →
  Forall (λ d, is_digit d = true) (dec_digits fuel n) ∧
  foldl (λ a d, 10 * a + (d - 48)) 0 (dec_digits fuel n) = n ∧ dec_digits fuel n ≠ [].
Proof.
  induction fuel as [|fuel IH]; intros n Hn Hf; [lia|]. cbn [dec_digits]. destruct (Z.ltb_spec n 10) as [Hlt|Hge].
  - split_and!; [apply Forall_singleton; unfold is_digit; lia|cbn; lia|done].
  - rewrite Nat2Z.inj_succ, Z.pow_succ_r in Hn by lia. pose proof (Z.div_mod n 10 ltac:(lia)). pose proof (Z.mod_pos_bound n 10 ltac:(lia)).
    assert (0 < fuel)%nat by (destruct fuel; [cbn in Hn; lia|lia]).
    destruct (IH (n / 10)) as (HF & HE & _); [split; [apply Z.div_pos; lia|apply Z.div_lt_upper_bound; lia]|done|].
    split_and!.
    + apply Forall_app. split; [done|]. apply Forall_singleton. unfold is_digit. lia.
    + rewrite foldl_app, HE. cbn. lia.
    + by destruct (dec_digits fuel (n / 10)).
Qed.

Lemma digit_cases d : is_digit d = true → is_blank d = false ∧ d ≠ 45 ∧ d ≠ 43.
Proof. unfold is_digit, is_blank. lia. Qed.

(** Numbers: what [%d] prints is read back. *)
Theorem StringToNumber_decimal w z : 1 ≤ w ≤ 64 → - 2 ^ (w - 1) ≤ z < 2 ^ (w - 1) → StringToNumber w (decimal z) = Some z.
Proof.
  intros Hw Hz. assert (2 ^ (w - 1) ≤ 2 ^ 63) by (apply Z.pow_le_mono_r; lia).
  destruct (dec_digits_ok 20 (Z.abs z)) as (HF & HE & HN); [lia|lia|].
  pose proof (read_digits_app _ [] 0 HF ltac:(done)) as Hrd. rewrite app_nil_r, HE in Hrd.
  unfold StringToNumber, decimal. destruct (Z.ltb_spec z 0) as [Hlt|Hge].
  - rewrite Z.abs_neq in * by lia. cbn [skip_blanks]. change (is_blank 45) with false. cbn iota. change (45 =? 45) with true. cbn iota.
    destruct (dec_digits 20 (- z)) as [|d ds]; [done|]. apply Forall_cons in HF as [Hd _]. rewrite Hd, Hrd.
    rewrite bool_decide_eq_true_2, (proj2 (Z.leb_le _ _)), (proj2 (Z.ltb_lt _ _)) by (done || lia). cbn. f_equal. lia.
  - rewrite Z.abs_eq in * by lia. destruct (dec_digits 20 z) as [|d ds]; [done|]. apply Forall_cons in HF as [Hd _].
    destruct (digit_cases d Hd) as (Hb & H1 & H2). cbn [skip_blanks]. rewrite Hb.
    rewrite (proj2 (Z.eqb_neq d 45)), (proj2 (Z.eqb_neq d 43)) by done. rewrite Hd, Hrd.
    by rewrite bool_decide_eq_true_2, (proj2 (Z.leb_le _ _)), (proj2 (Z.ltb_lt _ _)) by (done || lia).
Qed.

(** ** From the logger to the screen *)

Lemma written_plain c getpid rs ms :
  Forall (from_logger getpid c) rs → filter (λ r, r_type r ≠ kStructType) rs = filter (λ r, r_type r ≠ kStructType) [] ++ (record_of <$> ms) →
  Forall (λ m, payload_type (m_payload m) = kString) ms → Forall plain rs.
Proof.
  rewrite !Forall_forall. intros F Hf Hms r Hr. destruct (F r Hr) as [[i Hi]|[m ->]].
  - right. by eapply tells_plain.
  - left. assert (Hin : record_of m ∈ filter (λ r, r_type r ≠ kStructType) rs).
    { apply list_elem_of_filter. split; [|done]. cbn. by destruct (m_payload m). }
    rewrite Hf in Hin. cbn in Hin. apply list_elem_of_fmap in Hin as (m' & -> & Hm'). cbn. by apply Hms.
Qed.

Lemma allowed_records o ms :
  allowed o 0 (filter (λ r, wanted o r = true) (record_of <$> ms)) =
  record_of <$> allowed o 0 (filter (λ m, wanted o (record_of m) = true) ms).
Proof.
  assert (filter (λ r, wanted o r = true) (record_of <$> ms) = record_of <$> filter (λ m, wanted o (record_of m) = true) ms) as ->.
  { induction ms as [|m ms IH]; [done|]. cbn [fmap list_fmap]. rewrite !filter_cons. case_decide; [|done]. cbn. by f_equal. }
  unfold allowed. destruct (display_max o =? 0); [done|]. by rewrite fmap_take.
Qed.


Module SampleDisplay.
Definition ms : list LogMessage :=
  [SampleLog.hello; mkMessage 5 1500 3 3 7 0 255 [97; 46; 98] (PString [104; 111; 10]);
   mkMessage 6 0 2 2 7 1 0 [109; 110] (PString [104; 10])].
Definition written : file :=
  match (g ← new_logger 4096 SampleLog.sys_read [] SampleTypes.s;
         log_messages SampleLog.sys_read [] SampleLog.stack 42 2 ms g) with
  | Ok (_, g) => l_file (lg_log g)
  | Err _ => mkFile 0 ∅ 0 true
  end.
Definition given : list (Z * bytes) := [(110, chars "a"); (109, chars "5"); (108, chars "WARNING")].
Definition opts : options := mkOptions (Some (chars "a")) None 1 WARNING false false 5 (-1).
Definition no_fields (o : Z) (b : bytes) (i t : Z) : res printed := Err Fatal.

Lemma display_loggable : Forall (loggable (cache SampleTypes.s) 1) ms.
Proof. repeat (apply Forall_cons_2; [split; [vm_compute; reflexivity|exact Logic.I]|]). apply Forall_nil_2. Qed.

(** The error of thread b of process a. *)
Example shown :
  match displayer_main 4096 SampleLog.sys_read [] SampleLog.no_wait no_fields 1 4 1 given [] (λ _, Some written)
          (mkFile 0 ∅ 0 true) SampleTypes.s with
  | Ok (c, d) => c = 0 ∧ d_stdout d = [Printed (chars "a.b(7)(00000): ERROR   at 0000000005.000002s: ho" ++ [10])]
  | Err _ => False
  end.
Proof. vm_compute. split; reflexivity. Qed.
End SampleDisplay.

