(* ===== verification/LogReplay.v ===== *)
(** * Replaying logs: aos/common/logging/replay.h and replay.cc

    A [LogReplayer] reads a log file and gives the structs that were logged with a
    certain text by a certain process to handlers, which can put them back on a
    queue. *)

From S2P Require Import Prelude Options SharedMem RawQueue ByteOrder QueueTypes Time TypedQueue LogFile LogWriter LogDisplay.

(** ** std::string *)

Definition npos : Z := 2 ^ 64 - 1.

Definition find_first_of (c : Z) (s : bytes) (from : Z) : Z :=
  match list_find (λ x, x = c) (drop (Z.to_nat from) s) with
  | Some (i, _) => from + Z.of_nat i
  | None => npos
  end.

(** [substr] from behind the end throws. *)
Definition substr (s : bytes) (pos : Z) : res bytes :=
  if Z.of_nat (length s) <? pos then Err Abort else Ok (drop (Z.to_nat pos) s).

(** The text behind the file and the line. *)
Definition without_place (message_text : bytes) : res bytes :=
  let split_index := u64 (find_first_of 58 message_text 0 + 2) in
  let split_index := u64 (find_first_of 58 message_text split_index + 2) in
  substr message_text split_index.

(** ** Handlers *)

(** What is generated for a message: its type, size, decoder and the time it carries. *)
Record struct_class (T : Type) := mkStruct {
  GetType_id : Z;
  T_Size : Z;
  T_Deserialize : bytes → res (Z * T);
  set_sent_time : Time → T → T }.
Arguments mkStruct {T} _ _ _ _.
Arguments GetType_id {T} _.
Arguments T_Size {T} _.
Arguments T_Deserialize {T} _ _.
Arguments set_sent_time {T} _ _ _.

Section Replay.
(** [W]: what the handlers work on. *)
Context {W : Type}.

(** [HandleStruct(log_time, type_id, data, data_size)]; [data] is what can be read. *)
Definition StructHandler : Type := Time → Z → bytes → Z → ST W unit.

Definition HandleStruct {T} (C : struct_class T) (handler : T → ST W unit) : StructHandler :=
  λ log_time type_id data data_size,
    if negb (type_id =? GetType_id C) then st_stop Fatal
    else if negb (data_size =? T_Size C) then st_stop Fatal
    else
      '(n, message) ← st_lift (T_Deserialize C data);
      if negb (data_size =? n) then st_stop Fatal
      else handler (set_sent_time C log_time message).

Record LogReplayer := mkReplayer {
  handlers_ : gmap (bytes * bytes) StructHandler;
  reader_ : option log;
  rp_world : W }.
Notation MR := (ST LogReplayer).

Definition AddHandler (process_name log_message : bytes) (h : StructHandler) : MR unit := λ s,
  match handlers_ s !! (process_name, log_message) with
  | Some _ => Err Fatal
  | None => Ok (tt, mkReplayer (<[(process_name, log_message) := h]> (handlers_ s)) (reader_ s) (rp_world s))
  end.

Definition on_file {A} (m : ML A) : MR A := λ s,
  match reader_ s with
  | None => Err Undefined
  | Some l => match m l with Ok (a, l) => Ok (a, mkReplayer (handlers_ s) (Some l) (rp_world s)) | Err e => Err e end
  end.

Definition on_world {A} (m : ST W A) : MR A := λ s,
  match m (rp_world s) with Ok (a, w) => Ok (a, mkReplayer (handlers_ s) (reader_ s) w) | Err e => Err e end.

Section Process.
Context (SystemPageSize : Z) (sys_read : file → Z → Z) (uninitialised : bytes) (futex_wait : file → Z → Z * file).

Definition OpenFile (f : file) : MR unit := λ s,
  match LogFileAccessor_new SystemPageSize sys_read uninitialised (mkLog f (LogFileAccessor_init false)) with
  | Ok (_, l) => Ok (tt, mkReplayer (handlers_ s) (Some l) (rp_world s))
  | Err e => Err e
  end.
Definition CloseCurrentFile : MR unit := st_modify (λ s, mkReplayer (handlers_ s) None (rp_world s)).
Definition HasCurrentFile (s : LogReplayer) : bool := bool_decide (is_Some (reader_ s)).

(** True at the end of the file. *)
Definition ProcessMessage : MR bool :=
  message ← on_file (ReadNextMessage sys_read uninitialised futex_wait 1 false);
  match message with
  | None => mret true
  | Some p =>
      a ← on_file get_acc;
      let c := current_ a in
      h ← on_file (load_header c p);
      if negb (h_type h =? kStruct) then mret false
      else
        let position := p + sizeof_LogFileMessageHeader in
        process ← on_file (page_load c position (Z.to_nat (h_name_size h)));
        let position := position + h_name_size h in
        type_id ← on_file (load_int c position 4);
        let position := position + 4 in
        message_length ← on_file (load_int c position 4);
        let position := position + 4 in
        message_text ← on_file (page_load c position (Z.to_nat message_length));
        let position := position + message_length in
        message_text ← st_lift (without_place message_text);
        s ← st_get;
        match handlers_ s !! (process, message_text) with
        | None => mret false
        | Some handler =>
            log_time ← st_lift (Time_new (h_time_sec h) (h_time_nsec h));
            let size := u64 (h_message_size h - (4 + 4 + message_length)) in
            data ← on_file (page_load c position (Z.to_nat (Z.min size (kPageSize - position))));
            _ ← on_world (handler log_time type_id data size);
            mret false
        end
  end.

(** [ProcessMessage] until it returns true. *)
Fixpoint replay (n : nat) : MR unit :=
  match n with
  | O => st_stop Fuel
  | S n => b ← ProcessMessage; if (b : bool) then mret tt else replay n
  end.
End Process.
End Replay.
Arguments StructHandler : clear implicits.
Arguments LogReplayer : clear implicits.

(** ** QueueDumpStructHandler *)

Section Dump.
Context {V : Type} (T : message_class).

Definition QueueDump_new (queue_name : string) : ST (world V) Z :=
  raw (Fetch queue_name (sizeof_T T) (kHash T) (kQueueLength T)).

(** [operator()]; the debugging text is left out. *)
Definition QueueDump (queue : Z) (message : Message V) : ST (world V) unit :=
  raw_message ← raw (GetMessage queue);
  if raw_message =? 0 then st_stop Fatal
  else
    _ ← store_cell raw_message message;
    r ← raw (WriteMessage 1 queue raw_message (of_Option kOverride));
    match r with
    | WDone true => mret tt
    | WDone false => st_stop Fatal
    | WWait => st_stop Abort
    end.

Definition AddDirectQueueSender (C : struct_class (Message V)) (process_name log_message : bytes) (queue_name : string)
    : ST (LogReplayer (world V)) unit :=
  queue ← on_world (QueueDump_new queue_name);
  AddHandler process_name log_message (HandleStruct C (QueueDump queue)).
End Dump.
