(* ===== verification/LogReplayTheorems.v ===== *)
(** * From one process's log to another's queue

    First what replaying a log does with its records, then the logs of one process replayed
    onto the queues of another. *)


From S2P Require Import Prelude Options SharedMem Ring RawQueue QueuePool QueueOps QueueSpec QueueRead.
From S2P Require Import QueueIndex QueueCreate QueueStore QueueSystem QueueFeed QueueTheorems ByteOrder.
From S2P Require Import QueueTypes QueueTypesProofs TypeCache TypesTheorems Time TypedQueue TypedQueueProofs.
From S2P Require Import TypedTheorems Serial LogFile LogFileProofs LogWriter LogWriterProofs LogTypes LogLive.
From S2P Require Import LogTheorems LogDisplay LogDisplayTheorems LogReplay.

(** ** Structs as they are logged *)

(** The type, the text and the data of a struct's record. *)
Definition struct_parts (message : bytes) : option (Z * bytes * bytes) :=
  let text_length := le_combine (take 4 (drop 4 message)) in
  if bool_decide (8 ≤ length message)%nat && (0 <=? text_length) && (8 + text_length <=? Z.of_nat (length message))
  then Some (le_combine (take 4 message), take (Z.to_nat text_length) (drop 8 message),
             drop (Z.to_nat (8 + text_length)) message)
  else None.

Definition struct_ok (r : record) : Prop := r_type r = kStruct → is_Some (struct_parts (r_message r)).

Section Spec.
Context {W : Type} (hs : gmap (bytes * bytes) (StructHandler W)).

(** What is done with a record. *)
Definition replay_record (r : record) : ST W unit :=
  if negb (r_type r =? kStruct) then mret tt
  else match struct_parts (r_message r) with
       | None => st_stop Undefined
       | Some (type_id, text, data) =>
           key ← st_lift (without_place text);
           match hs !! (r_name r, key) with
           | None => mret tt
           | Some h => t ← st_lift (Time_new (r_sec r) (r_nsec r)); h t type_id data (Z.of_nat (length data))
           end
       end.

Fixpoint replay_records (rs : list record) : ST W unit :=
  match rs with [] => mret tt | r :: rs => _ ← replay_record r; replay_records rs end.
End Spec.

(** ** Loading a struct *)

Lemma bytes_at_drop f m : ∀ a i, (i ≤ m)%nat → drop i (bytes_at f a m) = bytes_at f (a + Z.of_nat i) (m - i).
Proof.
  induction m as [|m IH]; intros a [|i] Hi; cbn [bytes_at drop Nat.sub]; [by rewrite ?Z.add_0_r|lia|by rewrite Z.add_0_r|].
  rewrite IH by lia. f_equal. lia.
Qed.

Lemma bytes_at_take f n : ∀ a m, (n ≤ m)%nat → take n (bytes_at f a m) = bytes_at f a n.
Proof. induction n as [|n IH]; intros a [|m] H; cbn [bytes_at take]; [done|done|lia|]. f_equal. apply IH. lia. Qed.

Section LoadBody.
Context (l : log) (h a : Z) (r : record).
Context (Hr : record_at (l_file l) h r) (Hst : stands l a) (Hcur : current_ (l_acc l) = Mapped (page_start h)).
Context (Hfit : h mod kPageSize + record_size r ≤ kPageSize).
Let position := h mod kPageSize + sizeof_LogFileMessageHeader + h_name_size (header_of r).

Lemma load_body i n : (i + n ≤ length (r_message r))%nat →
  page_load (Mapped (page_start h)) (position + Z.of_nat i) n l = Ok (take n (drop i (r_message r)), l).
Proof.
  intros Hin. pose proof Hr as (_ & _ & _ & _ & _ & _ & _ & _ & _ & Hm). rewrite <-Hm at 1.
  rewrite bytes_at_drop, bytes_at_take by lia. subst position. cbn [h_name_size header_of].
  rewrite <-!Z.add_assoc. unfold record_size, sizeof_LogFileMessageHeader in *.
  rewrite (page_load_in l h a Hst Hcur) by lia. repeat f_equal; lia.
Qed.

Lemma load_body_int i n : (i + n ≤ length (r_message r))%nat →
  load_int (Mapped (page_start h)) (position + Z.of_nat i) n l = Ok (le_combine (take n (drop i (r_message r))), l).
Proof. intros Hin. unfold load_int. mstep. by rewrite load_body. Qed.
End LoadBody.

(** ** The loop *)

Section Loop.
Context {W : Type} (hs : gmap (bytes * bytes) (StructHandler W)).
Context (sys_read : file → Z → Z) (uninitialised : bytes) (futex_wait : file → Z → Z * file).
Notation ProcessMessage := (ProcessMessage sys_read uninitialised futex_wait).
Notation replay := (replay sys_read uninitialised futex_wait).

Lemma on_file_ok {A B} (m : ML A) (f : A → ST (LogReplayer W) B) l w a l' :
  m l = Ok (a, l') → (on_file m ≫= f) (mkReplayer hs (Some l) w) = f a (mkReplayer hs (Some l') w).
Proof. intros E. unfold on_file, mbind, st_bind. cbn. by rewrite E. Qed.

(** The result of handling, as the replayer sees it. *)
Definition handled l (r : res (unit * W)) : res (bool * LogReplayer W) :=
  match r with Ok (_, w) => Ok (false, mkReplayer hs (Some l) w) | Err e => Err e end.

Lemma ProcessMessage_ok l a r rs e w :
  stands l a → writable_ (l_acc l) = false → logged (l_file l) a (r :: rs) e → struct_ok r →
  ∃ l' a', ProcessMessage (mkReplayer hs (Some l) w) = handled l' (replay_record hs r w) ∧
    stands l' a' ∧ writable_ (l_acc l') = false ∧ logged (l_file l') a' rs e.
Proof.
  intros Hst Hw Hl Hok.
  destruct (proj1 (wp_run _ _ _) (ReadNextMessage_ok sys_read uninitialised futex_wait l a _ e 0 Hst Hw Hl))
    as (p & l1 & E1 & Hf1 & Hw1 & h & a' & -> & Hr & Hst1 & Hcur & Hfit & Hl1). rewrite <-Hf1 in Hr, Hl1.
  exists l1, a'. split_and!; [|done..]. unfold LogReplay.ProcessMessage. rewrite (on_file_ok _ _ _ _ _ _ E1).
  rewrite (on_file_ok _ _ _ _ (l_acc l1) l1) by done. rewrite Hcur.
  rewrite (on_file_ok _ _ _ _ (header_of r) l1) by (by eapply load_header_record).
  unfold replay_record. cbn [h_type header_of]. destruct (Z.eqb_spec (r_type r) kStruct) as [Ht|Ht]; cbn [negb]; [|done].
  destruct (Hok Ht) as [[[ty text] data] Hp]. rewrite Hp. unfold struct_parts in Hp.
  set (tl := le_combine (take 4 (drop 4 (r_message r)))) in *.
  destruct (bool_decide (8 ≤ length (r_message r))%nat && (0 <=? tl) && (8 + tl <=? Z.of_nat (length (r_message r)))) eqn:Eb; [|done].
  apply andb_true_iff in Eb as [[Hb1%bool_decide_eq_true Hb2%Z.leb_le]%andb_true_iff Hb3%Z.leb_le].
  pose proof (load_body_int l1 h a' r Hr Hst1 Hcur Hfit 0 4 ltac:(lia)) as E2. rewrite Z.add_0_r, drop_0 in E2.
  pose proof (load_body_int l1 h a' r Hr Hst1 Hcur Hfit 4 4 ltac:(lia)) as E3.
  pose proof (load_body l1 h a' r Hr Hst1 Hcur Hfit 8 (Z.to_nat tl) ltac:(lia)) as E4.
  pose proof (load_body l1 h a' r Hr Hst1 Hcur Hfit (Z.to_nat (8 + tl)) (length (r_message r) - Z.to_nat (8 + tl)) ltac:(lia)) as E5.
  injection Hp as <- <- <-.
  rewrite (on_file_ok _ _ _ _ (r_name r) l1) by (by eapply load_name).
  rewrite (on_file_ok _ _ _ _ _ l1 E2), (on_file_ok _ _ _ _ _ l1 E3). fold tl.
  rewrite (on_file_ok _ _ _ _ (take (Z.to_nat tl) (drop 8 (r_message r))) l1).
  2:{ rewrite <-E4. f_equal. lia. }
  mstep. destruct (without_place _) as [key|]; [|done]. cbn [handlers_].
  destruct (hs !! (r_name r, key)) as [hd|]; [|done]. cbn [h_time_sec h_time_nsec header_of].
  destruct (Time_new (r_sec r) (r_nsec r)) as [t|]; [|done]. cbn [h_message_size header_of].
  set (p8 := h mod kPageSize + sizeof_LogFileMessageHeader + h_name_size (header_of r) + 4 + 4 + tl).
  assert (Hsz : u64 (Z.of_nat (length (r_message r)) - (4 + 4 + tl)) = Z.of_nat (length (r_message r) - Z.to_nat (8 + tl))).
  { rewrite uwrap_small; [lia|]. unfold in_unsigned. pose proof (page_mod h). unfold record_size, sizeof_LogFileMessageHeader, kPageSize in *. lia. }
  rewrite Hsz. assert (Hmin : Z.min (Z.of_nat (length (r_message r) - Z.to_nat (8 + tl))) (kPageSize - p8) = Z.of_nat (length (r_message r) - Z.to_nat (8 + tl))).
  { apply Z.min_l. unfold p8. cbn [h_name_size header_of]. unfold record_size in Hfit. lia. }
  unfold on_file at 1. cbn [reader_]. fold p8. rewrite Hmin, Nat2Z.id.
  replace p8 with (h mod kPageSize + sizeof_LogFileMessageHeader + h_name_size (header_of r) + Z.of_nat (Z.to_nat (8 + tl))) by (unfold p8; lia).
  rewrite E5. cbn iota beta. rewrite (take_ge (drop (Z.to_nat (8 + tl)) (r_message r))) by (rewrite length_drop; lia). unfold on_world. cbn [rp_world handlers_ reader_].
  rewrite length_drop. by destruct (hd _ _ _ _ w) as [[[] w']|].
Qed.

(** Handling the file is handling the list of its records. *)
Lemma replay_ok rs e : Forall struct_ok rs → ∀ n l a w,
  stands l a → writable_ (l_acc l) = false → logged (l_file l) a rs e → (length rs < n)%nat →
  match replay_records hs rs w with
  | Ok (_, w') => ∃ l', replay n (mkReplayer hs (Some l) w) = Ok (tt, mkReplayer hs (Some l') w')
  | Err er => replay n (mkReplayer hs (Some l) w) = Err er
  end.
Proof.
  induction 1 as [|r rs Hr _ IH]; intros n l a w Hst Hw Hl Hn; (destruct n as [|n]; [cbn in Hn; lia|]); cbn [LogReplay.replay replay_records].
  - destruct (proj1 (wp_run _ _ _) (ReadNextMessage_ok sys_read uninitialised futex_wait l a _ e 0 Hst Hw Hl))
      as (p & l1 & E1 & _ & _ & -> & _). exists l1. unfold LogReplay.ProcessMessage.
    unfold mbind at 1, st_bind. by rewrite (on_file_ok _ _ _ _ _ _ E1).
  - destruct (ProcessMessage_ok l a r rs e w Hst Hw Hl Hr) as (l1 & a1 & E1 & Hst1 & Hw1 & Hl1).
    unfold mbind, st_bind. rewrite E1. destruct (replay_record hs r w) as [[[] w1]|]; cbn; [|done].
    cbn in Hn. apply (IH n l1 a1 w1); try done. lia.
Qed.
End Loop.

(** ** The messages of the logger *)

Lemma struct_parts_logged m t sl ser : message_okb m = true → m_payload m = PStruct t sl ser →
  struct_parts (r_message (record_of m)) =
    Some (t, take (Z.to_nat sl) ser, take (Z.to_nat (message_length m)) (drop (Z.to_nat sl) ser)).
Proof.
  intros Hok Hp. unfold message_okb in Hok. rewrite Hp in Hok. cbn [payload_okb] in Hok.
  rewrite !andb_true_iff, !Z.leb_le, !Z.ltb_lt in Hok.
  unfold LOG_MESSAGE_LEN in *. cbn [record_of r_message]. rewrite Hp. cbn [payload_bytes].
  unfold struct_parts. set (body := take (Z.to_nat (sl + message_length m)) ser).
  assert (Hlen : length body = Z.to_nat (sl + message_length m)) by (unfold body; rewrite length_take; lia).
  rewrite drop_app_length' by (by rewrite le_split_length). rewrite take_app_length' by (by rewrite le_split_length).
  rewrite !take_app_length' by (by rewrite le_split_length).
  rewrite !le_combine_split. change (256 ^ Z.of_nat 4) with (2 ^ 32). rewrite (Z.mod_small sl), (Z.mod_small t) by lia.
  rewrite bool_decide_eq_true_2, (proj2 (Z.leb_le 0 sl)), (proj2 (Z.leb_le (8 + sl) _)) by (rewrite ?length_app, ?le_split_length; lia). cbn [andb].
  assert (drop 8 (le_split 4 t ++ le_split 4 sl ++ body) = body) as Hd.
  { rewrite app_assoc. apply drop_app_length'. by rewrite length_app, !le_split_length. }
  replace (Z.to_nat (8 + sl)) with (8 + Z.to_nat sl)%nat by lia. rewrite <-drop_drop, Hd. unfold body.
  rewrite take_take, Nat.min_l by lia. do 2 f_equal. replace (Z.to_nat (sl + message_length m)) with (Z.to_nat sl + Z.to_nat (message_length m))%nat by lia.
  by rewrite <-take_drop_commute.
Qed.

(** ** Putting a message on a queue *)

Section Dump.
Context {V : Type} (T : message_class) (this : Z) (pool : gset Z) (cap : Z).
Implicit Types w : world V.

Lemma wp_QueueDump w q held written sent v :
  typed_inv this pool cap w q held written sent → (size held ≤ spare)%nat → messages_ q + 1 < 2 ^ 31 →
  wp (QueueDump this v) (λ _ w', ∃ m q', typed_inv this pool cap w' q' held (written ++ [m]) (sent ++ [v]) ∧
    messages_ q' = messages_ q + 1 ∧ m ≠ 0) w.
Proof.
  intros F Hs Hmax. pose proof (typed_free _ _ _ _ _ _ _ _ F Hs) as Hfree.
  destruct (typed_references _ _ _ _ _ _ _ _ F Hs) as [_ Hr]. unfold QueueDump. apply wp_bind, wp_raw.
  eapply wp_mono; [eapply (GetMessage_post (mem w) this q pool held); [apply F|done..]|].
  cbn beta. intros m s1 (q1 & [G1 [G2a G2b] G3 G4 G5 G6 G7 G8]). rewrite (proj2 (Z.eqb_neq m 0)) by done.
  apply wp_bind, wp_store_cell; [done|]. apply wp_bind, wp_raw. unfold wp at 1. rewrite WriteMessage_valid by done.
  eapply wp_mono; [eapply (DoWriteMessage_refines _ this q1 pool ({[+ m +]} ⊎ held)); [exact G1|apply ms_add_self|by rewrite G5]|].
  cbn beta. intros r s2 (q2 & [W1 W2 W3 W4 W5 W6]). change (mode_of (of_Option kOverride)) with Overriding in W2.
  rewrite G4, (ident_cap _ _ G6), (ti_cap _ _ _ _ _ _ _ _ F) in W2.
  assert (r = WDone true) as ->.
  { unfold spec_write in W2. by destruct (_ <? _); injection W2 as <- _. }
  cbn [held_after] in W1. rewrite give_back_held in W1. apply wp_ret. exists m, q2. split_and!; [|by rewrite W3, G5|done].
  eapply (typed_inv_sent _ _ _ w _ q q2); [done|exact W1|done|done|done|by rewrite W3, G5|by rewrite W4].
Qed.
End Dump.

(** A new queue. *)
Lemma wp_QueueDump_new {V} (T : message_class) name s (c : gmap Z (Message V)) l pool held :
  store_inv s l pool held → find_key (queue_objects s) (key T name) l = None →
  queue_params (sizeof_T T) (kQueueLength T) → kQueueLength T < 2 ^ 31 - 64 →
  room_for s (queue_bytes name (sizeof_T T) (kQueueLength T)) →
  wp (QueueDump_new T name) (λ t w, t ≠ 0 ∧ ∃ P q, typed_inv t P (kQueueLength T) w q ∅ [] [] ∧ messages_ q = 0) (mkWorld s c).
Proof.
  intros SI Hnew Hpar Hcap Hroom. unfold QueueDump_new. apply wp_raw. cbn [mem].
  eapply wp_mono; [exact (wp_Fetch s l pool held (key T name) SI Hpar Hroom)|].
  intros t s1 HP. unfold fetch_post in HP. rewrite Hnew in HP. destruct HP as (q & P & [N1 N2 N3 N4 [N5 Hm0] N6 N7]).
  destruct (si_queue _ _ _ _ N2 t ltac:(set_solver)) as [q' I]. rewrite upd_pool_eq, upd_held_eq in I.
  pose proof (qi_object _ _ _ _ _ I) as Hq. assert (q' = q) as -> by congruence.
  split; [eapply qchain_nonzero; [apply N2|set_solver]|]. exists P, q. split; [|done]. split; try done.
  - by apply (matches_length (key T name)).
  - unfold kExtraMessages in N6. unfold spare. cbn in N6. lia.
  - split; [by rewrite Hm0|by rewrite N5].
  - rewrite N5. cbn. unfold queue_params in Hpar. lia.
  - rewrite N5. constructor.
Qed.

(** ** Replaying into it *)

Section Resend.
Context {V : Type} (C : struct_class (Message V)) (process log_message : bytes).

(** The message on the queue for a logged one, if it is for this handler. *)
Definition resent (m : LogMessage) : option (Message V) :=
  match m_payload m with
  | PStruct _ sl ser =>
      if bool_decide (take (Z.to_nat (name_length m)) (m_name m) = process) &&
         match without_place (take (Z.to_nat sl) ser) with Ok text => bool_decide (text = log_message) | Err _ => false end
      then match Time_new (u32 (seconds m)) (u32 (nseconds m)),
                 T_Deserialize C (take (Z.to_nat (message_length m)) (drop (Z.to_nat sl) ser)) with
           | Ok t, Ok (_, v) => Some (set_sent_time C t v)
           | _, _ => None
           end
      else None
  | _ => None
  end.

(** A struct that is logged with a place and a text; for this handler it must be of
    its type. *)
Definition replayable (m : LogMessage) : Prop :=
  match m_payload m with
  | PStruct t sl ser =>
      ∃ text, without_place (take (Z.to_nat sl) ser) = Ok text ∧
        (take (Z.to_nat (name_length m)) (m_name m) = process → text = log_message →
         t = GetType_id C ∧ message_length m = T_Size C ∧ (∃ tm, Time_new (u32 (seconds m)) (u32 (nseconds m)) = Ok tm) ∧
         ∃ v, T_Deserialize C (take (Z.to_nat (message_length m)) (drop (Z.to_nat sl) ser)) = Ok (T_Size C, v))
  | _ => True
  end.

Context (this : Z) (pool : gset Z) (cap : Z).
Let hs : gmap (bytes * bytes) (StructHandler (world V)) := {[(process, log_message) := HandleStruct C (QueueDump this)]}.

Lemma replay_message_ok w q held written sent m :
  typed_inv this pool cap w q held written sent → (size held ≤ spare)%nat → messages_ q + 1 < 2 ^ 31 →
  message_okb m = true → replayable m → Forall (λ m, m ≠ 0) written →
  wp (replay_record hs (record_of m)) (λ _ w', ∃ written' q',
    typed_inv this pool cap w' q' held written' (sent ++ option_list (resent m)) ∧ messages_ q' ≤ messages_ q + 1 ∧
    Forall (λ m, m ≠ 0) written') w.
Proof.
  intros F Hs Hmax Hok Hre Hnz. unfold replay_record, replayable, resent in *. cbn [r_type record_of].
  assert (HQ : ∃ written' q', typed_inv this pool cap w q' held written' (sent ++ option_list None) ∧ messages_ q' ≤ messages_ q + 1 ∧
    Forall (λ m, m ≠ 0) written').
  { exists written, q. rewrite app_nil_r. split_and!; [done|lia|done]. }
  destruct (m_payload m) as [b|t sl ser|a r cl sl d] eqn:Ep; [by apply wp_ret| |by apply wp_ret]. cbn [payload_type Z.eqb kStruct negb].
  rewrite (struct_parts_logged m t sl ser Hok Ep). destruct Hre as (text & Ht & Hre). apply wp_bind. eapply wp_lift; [exact Ht|].
  cbn [r_name record_of]. set (nm := take (Z.to_nat (name_length m)) (m_name m)) in *. rewrite Ht.
  unfold hs. destruct (decide ((process, log_message) = (nm, text))) as [[= -> ->]|Hne].
  - rewrite lookup_singleton_eq, !bool_decide_eq_true_2 by done. cbn [andb].
    destruct (Hre eq_refl eq_refl) as (-> & Hml & [tm Htm] & v & Hv). rewrite Htm, Hv. apply wp_bind. cbn [r_sec r_nsec record_of].
    eapply wp_lift; [exact Htm|]. unfold HandleStruct. rewrite Z.eqb_refl. cbn [negb].
    assert (Hlen : Z.of_nat (length (take (Z.to_nat (message_length m)) (drop (Z.to_nat sl) ser))) = T_Size C).
    { rewrite <-Hml, length_take, length_drop. unfold message_okb in Hok. rewrite Ep in Hok. cbn [payload_okb] in Hok. lia. }
    rewrite Hlen, Z.eqb_refl. cbn [negb]. apply wp_bind. eapply wp_lift; [exact Hv|]. cbn iota beta. rewrite Z.eqb_refl. cbn [negb].
    eapply wp_mono; [by apply (wp_QueueDump this pool cap w q held written sent)|]. cbn beta.
    intros [] w' (m' & q' & F' & Hq' & Hm'). exists (written ++ [m']), q'. split_and!; [done|lia|].
    apply Forall_app. by rewrite Forall_singleton.
  - rewrite lookup_singleton_ne by done. apply wp_ret.
    destruct (bool_decide (nm = process)) eqn:E1; [|done]. apply bool_decide_eq_true in E1.
    rewrite bool_decide_eq_false_2; [done|]. intros ->. congruence.
Qed.

(** All records: those of the messages, and the types between them. *)
Lemma replay_records_ok rs : ∀ ms w q held written sent,
  Forall (λ r, r_type r = kStructType ∨ ∃ m, r = record_of m) rs →
  filter (λ r, r_type r ≠ kStructType) rs = record_of <$> ms →
  typed_inv this pool cap w q held written sent → (size held ≤ spare)%nat → messages_ q + Z.of_nat (length ms) < 2 ^ 31 →
  Forall (λ m, message_okb m = true ∧ replayable m) ms → Forall (λ m, m ≠ 0) written →
  wp (replay_records hs rs) (λ _ w', ∃ written' q',
    typed_inv this pool cap w' q' held written' (sent ++ omap resent ms) ∧ Forall (λ m, m ≠ 0) written') w.
Proof.
  induction rs as [|r rs IH]; intros ms w q held written sent Hrs Hf F Hs Hmax Hms Hnz; cbn [replay_records].
  { destruct ms as [|m ms]; [|done]. apply wp_ret. exists written, q. by rewrite app_nil_r. }
  apply Forall_cons in Hrs as [Hr Hrs]. apply wp_bind. destruct (decide (r_type r = kStructType)) as [Ht|Ht].
  - rewrite filter_cons_False in Hf by (by intros Hn). unfold replay_record at 1. rewrite Ht. cbn. apply wp_ret. by eapply IH.
  - rewrite filter_cons_True in Hf by done. destruct ms as [|m ms]; [done|]. cbn [fmap list_fmap] in Hf. injection Hf as -> Hf.
    apply Forall_cons in Hms as [[Hok Hre] Hms]. cbn [length] in Hmax.
    eapply wp_mono; [apply (replay_message_ok w q held written sent m); (done || lia)|]. cbn beta.
    intros [] w' (written' & q' & F' & Hq' & Hnz'). eapply wp_mono; [apply (IH ms w' q' held written' _ Hrs Hf F' Hs); [lia|done|done]|].
    cbn beta. intros [] w2 (written2 & q2 & F2 & Hnz2). exists written2, q2. split; [|done].
    replace (sent ++ omap resent (m :: ms)) with ((sent ++ option_list (resent m)) ++ omap resent ms); [done|].
    cbn [omap list_omap]. destruct (resent m); cbn; by rewrite <-?app_assoc, ?app_nil_r.
Qed.
End Resend.

(** The structs of a log that was written can be taken apart. *)
Lemma written_structs getpid c n rs ms :
  Forall (from_logger getpid c) rs → filter (λ r, r_type r ≠ kStructType) rs = record_of <$> ms → Forall (loggable c n) ms →
  Forall struct_ok rs ∧ Forall (λ r, r_type r = kStructType ∨ ∃ m, r = record_of m) rs.
Proof.
  rewrite !Forall_forall. intros F Hf Hms. split; intros r Hr.
  - intros Ht. assert (Hin : r ∈ filter (λ r, r_type r ≠ kStructType) rs) by (apply list_elem_of_filter; split; [by rewrite Ht|done]).
    rewrite Hf in Hin. apply list_elem_of_fmap in Hin as (m & -> & Hm). cbn in Ht. destruct (m_payload m) as [|ty sl ser|] eqn:Ep; try done.
    rewrite (struct_parts_logged m ty sl ser) by (done || apply (Hms m Hm)). eauto.
  - destruct (F r Hr) as [[i Hi]|[m ->]]; [left; by eapply tells_plain|right; eauto].
Qed.

Lemma length_omap_le {A B} (f : A → option B) l : (length (omap f l) ≤ length l)%nat.
Proof. induction l as [|x l IH]; cbn; [lia|]. destruct (f x); cbn; lia. Qed.

(** Objects that have found the queue and read nothing yet. *)
Lemma attached_bus {V} (T : message_class) name this pool cap (w : world V) q written sent k :
  typed_inv this pool cap w q ∅ written sent → this ≠ 0 → Forall (λ m, m ≠ 0) written → (k ≤ spare)%nat →
  bus_inv this pool cap w q (replicate k (attached name this)) written sent (replicate k (mkView 0 None)).
Proof.
  intros F H0 Hnz Hk. assert (all_owned (replicate k (attached name this)) = ∅) as Hown.
  { clear. induction k as [|k IH]; [done|]. cbn [replicate all_owned]. rewrite IH. apply (own_zero ∅). }
  split; [by rewrite Hown| |by rewrite length_replicate].
  apply (Forall2_replicate _ k). split; try done; cbn; [lia|]. intros i m Hm _. by eapply Forall_lookup_1 in Hnz.
Qed.

(** ** From log to queue *)

(** C21: Replaying a log: the logger has written any messages, over any number of pages; a
    replayer adds a direct sender for one text of one process, opens the file and
    processes messages until it is told that there are no more.  Then it has stopped
    without an error, and whatever up to 19 objects of [Queue<T>] then fetch from the
    queue is what they would fetch had exactly the structs that were logged with that
    text by that process been sent, decoded, in the order they were logged and with the
    times at which they were logged; nothing else of the log shows.  (The structs of
    that text are of the queue's type.) *)
Theorem replayed_log {V} (T : message_class) (zero : V) (C : struct_class (Message V)) process log_message name
    SystemPageSize sys_read uninitialised stack getpid futex_wait t n ms s c l pool held :
  0 < SystemPageSize → kPageSize mod SystemPageSize = 0 → length stack = 1024%nat →
  Forall (loggable (cache t) n) ms → Forall (replayable C process log_message) ms →
  kPageSize * (1 + pages_of (cache t) n ms) < 2 ^ 62 → Z.of_nat (length ms) < 2 ^ 30 →
  store_inv s l pool held → find_key (queue_objects s) (key T name) l = None →
  queue_params (sizeof_T T) (kQueueLength T) → kQueueLength T < 2 ^ 31 - 64 →
  room_for s (queue_bytes name (sizeof_T T) (kQueueLength T)) →
  ∃ g g' turns queue rp,
    new_logger SystemPageSize sys_read uninitialised t = Ok g ∧
    log_messages sys_read uninitialised stack getpid (S n) ms g = Ok (tt, g') ∧
    (_ ← AddDirectQueueSender T C process log_message name;
     _ ← OpenFile SystemPageSize sys_read uninitialised (l_file (lg_log g'));
     replay sys_read uninitialised futex_wait turns) (mkReplayer ∅ None (mkWorld s c)) = Ok (tt, rp) ∧
    ∀ k acts, (1 ≤ k ≤ spare)%nat → Forall (λ a, (actor a < k)%nat) acts → Z.of_nat (length acts) < 2 ^ 30 →
      ∃ w', run T zero (replicate k (attached name queue)) acts (rp_world rp) =
        Ok (spec_run zero (kQueueLength T) (omap (resent C process log_message) ms) (replicate k (mkView 0 None)) acts, w').
Proof.
  intros Hp Hmod Hst Hms Hre Hsz Hcount SI Hnew Hpar Hcap Hroom.
  destruct (new_logger_ok SystemPageSize sys_read uninitialised stack getpid (cache t) Hp Hmod Hst t eq_refl) as (g & E & R & Hfs).
  pose proof (log_messages_ok sys_read uninitialised stack getpid (cache t) Hst n ms Hms g [] 0 R (Forall_nil_2 _)) as L.
  apply wp_run in L as ([] & g' & E' & rs & e & R' & F & Hf); [|unfold kPageSize in *; lia]. cbn [filter list_filter app] in Hf.
  pose proof R' as [[[Hstands _ _ Hl _ Hlast] _ _ _ _] _].
  destruct (open_reader_ok SystemPageSize sys_read uninitialised stack Hp Hmod Hst (l_file (lg_log g'))) as (lr & El & Hfl & Hs0 & Hwl).
  { apply Hstands. }
  { rewrite Hlast. pose proof (next_page_mono 0 e (st_pos _ _ Hstands)). by change (next_page 0) with kPageSize in *. }
  destruct (proj1 (wp_run _ _ _) (wp_QueueDump_new T name s c l pool held SI Hnew Hpar Hcap Hroom))
    as (queue & w1 & Eq & Hq0 & P & q & TI & Hq).
  destruct (written_structs getpid (cache t) n rs ms F Hf Hms) as [Hso Hkind].
  pose proof (replay_records_ok C process log_message queue P (kQueueLength T) rs ms w1 q ∅ [] [] Hkind Hf TI) as W.
  apply wp_run in W as ([] & w2 & Ew & written & q2 & F2 & Hnz);
    [|rewrite gmultiset_size_empty; unfold spare; lia|lia| |done].
  2:{ rewrite Forall_forall in *. intros m Hm. split; [apply (Hms m Hm)|by apply Hre]. }
  pose proof (replay_ok {[(process, log_message) := HandleStruct C (QueueDump queue)]} sys_read uninitialised futex_wait rs e Hso (S (length rs)) lr 0 w1 Hs0 Hwl) as L.
  rewrite Ew in L. rewrite <-Hfl in Hl. destruct (L Hl) as [l' L']; [lia|].
  exists g, g', (S (length rs)), queue. eexists. split; [done|]. split; [done|]. split.
  - rewrite (st_bind_step _ _ _ tt (mkReplayer {[(process, log_message) := HandleStruct C (QueueDump queue)]} None w1)).
    2:{ unfold AddDirectQueueSender, on_world, mbind, st_bind. cbn [rp_world]. rewrite Eq. done. }
    rewrite (st_bind_step _ _ _ tt (mkReplayer {[(process, log_message) := HandleStruct C (QueueDump queue)]} (Some lr) w1)).
    2:{ unfold OpenFile. by rewrite El. }
    exact L'.
  - intros k acts Hk Hact Hlen. cbn [rp_world].
    pose proof (wp_run_bus T zero queue P (kQueueLength T) acts w2 q2 _ written _ _ (attached_bus T name queue P _ w2 q2 written _ k F2 Hq0 Hnz ltac:(lia))) as W.
    apply wp_run in W as (res & w' & Er & ->); [eauto| |by rewrite length_replicate].
    destruct (ti_history _ _ _ _ _ _ _ _ F2) as [Hh _]. pose proof (ti_sent _ _ _ _ _ _ _ _ F2) as Hsent. rewrite Hh, <-Hsent.
    cbn [app]. pose proof (length_omap_le (resent C process log_message) ms). lia.
Qed.

Module SampleReplay.
Definition C : struct_class (Message Z) :=
  mkStruct 7 2 (λ bs, match bs with a :: b :: _ => Ok (2, TypedQueue.mkMessage kZero (a + 256 * b)) | _ => Err Undefined end)
    (λ t m, TypedQueue.mkMessage t (body m)).
Definition go (seconds a b : Z) : LogMessage :=
  mkMessage seconds 8 2 2 100 2 3 [109; 110] (PStruct 7 8 (chars "a: 1: go" ++ [a; b])).
Definition ms : list LogMessage := [go 5 1 2; SampleLog.hello; SampleLog.pair; go 9 3 4].

Lemma replay_loggable : Forall (loggable (cache SampleTypes.s) 1) ms.
Proof.
  repeat (apply Forall_cons_2; [split; [vm_compute; reflexivity|first [exact Logic.I|exact SampleLog.known7]]|]).
  apply Forall_nil_2.
Qed.

Lemma all_replayable : Forall (replayable C [109; 110] (chars "go")) ms.
Proof.
  repeat (apply Forall_cons_2; [cbn [replayable m_payload go SampleLog.hello SampleLog.pair]|]); [..|apply Forall_nil_2].
  - exists (chars "go"). split; [reflexivity|]. intros _ _. split_and!; [reflexivity..|eexists; reflexivity|eexists; reflexivity].
  - exact Logic.I.
  - exists (chars "b"). split; [reflexivity|]. intros _ E. vm_compute in E. discriminate.
  - exists (chars "go"). split; [reflexivity|]. intros _ _. split_and!; [reflexivity..|eexists; reflexivity|eexists; reflexivity].
Qed.
End SampleReplay.

Lemma replayed_log_witness : ∃ file turns queue rp w',
  (_ ← AddDirectQueueSender sample_class SampleReplay.C [109; 110] (chars "go") "sensors";
   _ ← OpenFile 4096 SampleLog.sys_read [] file;
   replay SampleLog.sys_read [] SampleLog.no_wait turns) (mkReplayer ∅ None (mkWorld Fresh.s ∅)) = Ok (tt, rp) ∧
  run sample_class 0 (replicate 1 (attached "sensors" queue)) [ANext 0; ANext 0; ANext 0] (rp_world rp) =
    Ok ([(true, Some (TypedQueue.mkMessage (mkTime 5 8) 513)); (true, Some (TypedQueue.mkMessage (mkTime 9 8) 1027));
         (false, Some (TypedQueue.mkMessage (mkTime 9 8) 1027))], w').
Proof.
  destruct (replayed_log sample_class 0 SampleReplay.C [109; 110] (chars "go") "sensors" 4096 SampleLog.sys_read [] SampleLog.stack 42
    SampleLog.no_wait SampleTypes.s 1 SampleReplay.ms Fresh.s ∅ [] (λ _, ∅) (λ _, ∅)) as (g & g' & turns & queue & rp & _ & _ & Er & H).
  - lia.
  - reflexivity.
  - reflexivity.
  - exact SampleReplay.replay_loggable.
  - exact SampleReplay.all_replayable.
  - vm_compute. reflexivity.
  - cbn. lia.
  - exact Fresh.fresh_inv.
  - reflexivity.
  - unfold queue_params. cbn. lia.
  - cbn. lia.
  - split; vm_compute; congruence.
  - destruct (H 1%nat [ANext 0; ANext 0; ANext 0]) as [w' Hw'].
    + unfold spare. lia.
    + repeat constructor.
    + cbn. lia.
    + exists (l_file (lg_log g')), turns, queue, rp, w'. split; [exact Er|]. rewrite Hw'. reflexivity.
Defined.
