(* ===== verification/Utilities.v ===== *)
(** * Small utilities

    aos/common/util/wrapping_counter.cc, aos/common/transaction.h,
    aos/common/util/linked_list.h, aos/common/network/team_number.cc, and what they
    guarantee. *)


From S2P Require Import Prelude Options ByteOrder QueueTypes Serial LogFile LogWriter LogAccount LogDisplay.
From S2P Require Import LogDisplayTheorems.

(** ** WrappingCounter *)

Record WrappingCounter := mkCounter { count_ : Z; last_count_ : Z }.

Definition WrappingCounter_new (initial_count : Z) : WrappingCounter := mkCounter initial_count 0.

(** [count_ & 0xffffff00] is unsigned. *)
Definition counter_Update (current : Z) (c : WrappingCounter) : res WrappingCounter :=
  count ← (if current <? last_count_ c then i32 (count_ c + 0x100) else Ok (count_ c));
  let count := swrap 32 (Z.lor (Z.land (u32 count) 0xffffff00) current) in
  Ok (mkCounter count current).

Definition counter_Reset (value : Z) (c : WrappingCounter) : WrappingCounter := mkCounter value (last_count_ c).

Fixpoint counter_Updates (currents : list Z) (c : WrappingCounter) : res WrappingCounter :=
  match currents with [] => Ok c | x :: xs => c ← counter_Update x c; counter_Updates xs c end.

(** ** Transactions

    Memory is a map from addresses of pointers to their values.  The parts of an
    operation are instructions, so that it can be interrupted between any two. *)

Abbreviation pointers := (gmap Z Z).

(** [RestorePointerWork] *)
Record work := mkWork { pointer_ : Z; value_ : Z }.

(** [WorkStack<RestorePointerWork, number_works>] and the memory it watches over. *)
Record WorkStack := mkStack { ws_memory : pointers; stack_index_ : nat; stack_ : list work }.

Inductive instruction :=
| CheckRoom                        (* if (stack_index_ >= number_works) *)
| SetPointer (p : Z)               (* stack_.at(stack_index_).pointer_ = p *)
| SetValue (p : Z)                 (* stack_.at(stack_index_).value_ = *p *)
| Bump                             (* ++stack_index_ *)
| Copy (dst src : Z)               (* *dst = *src *)
| Put (dst v : Z).                 (* *dst = v *)

Definition load (m : pointers) (p : Z) : res Z := match m !! p with Some v => Ok v | None => Err Undefined end.

(** [array::at] throws. *)
Definition upd_slot (f : work → work) (s : WorkStack) : res WorkStack :=
  match stack_ s !! stack_index_ s with
  | Some w => Ok (mkStack (ws_memory s) (stack_index_ s) (<[stack_index_ s := f w]> (stack_ s)))
  | None => Err Abort
  end.

(** Stores go to memory that is there. *)
Definition store (p v : Z) (s : WorkStack) : res WorkStack :=
  match ws_memory s !! p with
  | Some _ => Ok (mkStack (<[p := v]> (ws_memory s)) (stack_index_ s) (stack_ s))
  | None => Err Undefined
  end.

Definition execute (i : instruction) (s : WorkStack) : res WorkStack :=
  match i with
  | CheckRoom => if bool_decide (length (stack_ s) ≤ stack_index_ s)%nat then Err Fatal else Ok s
  | SetPointer p => upd_slot (λ w, mkWork p (value_ w)) s
  | SetValue p => v ← load (ws_memory s) p; upd_slot (λ w, mkWork (pointer_ w) v) s
  | Bump => Ok (mkStack (ws_memory s) (S (stack_index_ s)) (stack_ s))
  | Copy dst src => v ← load (ws_memory s) src; store dst v s
  | Put dst v => store dst v s
  end.

Fixpoint execute_all (l : list instruction) (s : WorkStack) : res WorkStack :=
  match l with [] => Ok s | i :: l => s ← execute i s; execute_all l s end.

Definition AddWork (p : Z) : list instruction := [CheckRoom; SetPointer p; SetValue p; Bump].

Definition DropWork (s : WorkStack) : WorkStack := mkStack (ws_memory s) 0 (stack_ s).
Definition HasWork (s : WorkStack) : bool := negb (stack_index_ s =? 0)%nat.

(** [while (current > 0)]; it stops after [todo] works, as if interrupted. *)
Fixpoint do_works (todo current : nat) (s : WorkStack) : res WorkStack :=
  match todo, current with
  | O, _ | _, O => Ok s
  | S todo, S current =>
      match stack_ s !! current with
      | None => Err Abort
      | Some w => s ← store (pointer_ w) (value_ w) s; do_works todo current s
      end
  end.

Definition CompleteWork (s : WorkStack) : res WorkStack :=
  s ← do_works (stack_index_ s) (stack_index_ s) s;
  Ok (DropWork s).

(** ** LinkedList

    An element's address is that of its next pointer; [head_at] is the address of
    [head_]; NULL is 0. *)

Section LinkedList.
Context (head_at : Z).

(** [restore_pointers->AddWork(p)], if there is one. *)
Definition save (restoring : bool) (p : Z) : list instruction := if restoring then AddWork p else [].

Definition list_Add (restoring : bool) (t : Z) : list instruction :=
  save restoring t ++ [Copy t head_at] ++ save restoring head_at ++ [Put head_at t].

(** [while ( *pointer != nullptr)] *)
Fixpoint find_pointer (fuel : nat) (m : pointers) (pointer t : Z) : res Z :=
  match fuel with
  | O => Err Fuel
  | S fuel =>
      v ← load m pointer;
      if v =? 0 then Err Fatal
      else if v =? t then Ok pointer
      else find_pointer fuel m v t
  end.

Definition list_Remove (fuel : nat) (restoring : bool) (m : pointers) (t : Z) : res (list instruction) :=
  pointer ← find_pointer fuel m head_at t;
  Ok (save restoring pointer ++ [Copy pointer t]).

(** The elements [Each] visits, and what [Find] returns. *)
Fixpoint each_from (fuel : nat) (m : pointers) (c : Z) : res (list Z) :=
  match fuel with
  | O => Err Fuel
  | S fuel =>
      if c =? 0 then Ok []
      else next ← load m c; rest ← each_from fuel m next; Ok (c :: rest)
  end.

Fixpoint find_from (fuel : nat) (m : pointers) (f : Z → bool) (c : Z) : res Z :=
  match fuel with
  | O => Err Fuel
  | S fuel =>
      if c =? 0 then Ok 0
      else if f c then Ok c
      else next ← load m c; find_from fuel m f next
  end.

Definition list_Each (fuel : nat) (m : pointers) : res (list Z) := h ← load m head_at; each_from fuel m h.
Definition list_Find (fuel : nat) (m : pointers) (f : Z → bool) : res Z := h ← load m head_at; find_from fuel m f h.
Definition list_Empty (m : pointers) : res bool := h ← load m head_at; Ok (h =? 0).
End LinkedList.

(** ** ParseTeamNumber *)

(** [substr(pos, n)] *)
Definition substr_n (s : bytes) (pos n : Z) : bytes := take (Z.to_nat (Z.min n (Z.of_nat (length s)))) (drop (Z.to_nat pos) s).

(** [Some] of the team number, or [None] for -1. *)
Definition ParseTeamNumber (hostname : bytes) : option Z :=
  match list_find (λ c, c = 45) hostname with
  | None => None
  | Some (i, _) =>
      let i := Z.of_nat i in
      let size := Z.of_nat (length hostname) in
      let num_as_s :=
        if bool_decide (last hostname = Some 67) then substr_n hostname (i + 1) (u64 (size - 5 - i))
        else drop (Z.to_nat (i + 1)) hostname in
      match StringToNumber 32 num_as_s with
      | None => None
      | Some num =>
          if bool_decide (take (Z.to_nat i) hostname = chars "roboRIO") && bool_decide (decimal num = num_as_s)
          then Some (u16 num) else None
      end
  end.

(** [DoGetTeamNumber]: [env] is [AOS_TEAM_NUMBER], if it is set, as [StringToNumber] reads
    it into a [uint16_t]. *)
Definition DoGetTeamNumber (override_team : Z) (env : option (option Z)) (hostname : bytes) : res Z :=
  if negb (override_team =? 0) then Ok override_team
  else match env with
       | Some r => of_option Fatal r
       | None => of_option Fatal (ParseTeamNumber hostname)
       end.

(** ** Transactions *)

(** What [DoWork] of all works does, the last one first. *)
Definition restore (ws : list work) (m : pointers) : pointers := foldr (λ w m, <[pointer_ w := value_ w]> m) m ws.

Definition works (s : WorkStack) : list work := take (stack_index_ s) (stack_ s).

Lemma restore_app ws1 ws2 m : restore (ws1 ++ ws2) m = restore ws1 (restore ws2 m).
Proof. apply foldr_app. Qed.

(** What is saved does not depend on the memory any more. *)
Lemma restore_saved ws m m' p : p ∈ pointer_ <$> ws → restore ws m !! p = restore ws m' !! p.
Proof.
  induction ws as [|w ws IH]; cbn; intros H; [by apply elem_of_nil in H|].
  destruct (decide (pointer_ w = p)) as [->|Hne]; [by rewrite !lookup_insert_eq|].
  rewrite !lookup_insert_ne by done. apply IH. by apply elem_of_cons in H as [?|?].
Qed.

Lemma restore_other ws m p : p ∉ pointer_ <$> ws → restore ws m !! p = m !! p.
Proof.
  induction ws as [|w ws IH]; cbn; intros H; [done|]. rewrite lookup_insert_ne by set_solver. apply IH. set_solver.
Qed.

Lemma restore_over ws m m' : (∀ p, p ∉ pointer_ <$> ws → m !! p = m' !! p) → restore ws m = restore ws m'.
Proof.
  intros H. apply map_eq. intros p. destruct (decide (p ∈ pointer_ <$> ws)); [by apply restore_saved|].
  rewrite !restore_other by done. by apply H.
Qed.

(** A transaction that started from memory [m0] and has saved the pointers [saved]. *)
Record started_from (m0 : pointers) (saved : list Z) (s : WorkStack) : Prop := {
  sf_undo : restore (works s) (ws_memory s) = m0;
  sf_index : (stack_index_ s ≤ length (stack_ s))%nat;
  sf_saved : ∀ p, p ∈ saved → p ∈ pointer_ <$> works s;
  sf_there : ∀ p, is_Some (ws_memory s !! p) ↔ is_Some (m0 !! p);
  sf_known : ∀ p, p ∈ pointer_ <$> works s → is_Some (m0 !! p) }.

(** Instructions that only store where the pointer was saved before. *)
Inductive protected : list Z → list instruction → Prop :=
| prot_nil saved : protected saved []
| prot_work saved p l : protected (p :: saved) l → protected saved (AddWork p ++ l)
| prot_copy saved dst src l : dst ∈ saved → protected saved l → protected saved (Copy dst src :: l)
| prot_put saved dst v l : dst ∈ saved → protected saved l → protected saved (Put dst v :: l).

Lemma upd_slot_ok f s s' : upd_slot f s = Ok s' →
  ws_memory s' = ws_memory s ∧ stack_index_ s' = stack_index_ s ∧ length (stack_ s') = length (stack_ s) ∧ works s' = works s ∧
  ∃ w, stack_ s !! stack_index_ s = Some w ∧ stack_ s' !! stack_index_ s = Some (f w).
Proof.
  unfold upd_slot. destruct (stack_ s !! stack_index_ s) as [w|] eqn:E; [|done]. intros [= <-]. unfold works. cbn.
  split_and!; [done|done|by rewrite length_insert|by rewrite take_insert_ge|].
  exists w. split; [done|]. apply list_lookup_insert_eq. by eapply lookup_lt_Some.
Qed.

Lemma upd_slot_some f s w : stack_ s !! stack_index_ s = Some w →
  upd_slot f s = Ok (mkStack (ws_memory s) (stack_index_ s) (<[stack_index_ s := f w]> (stack_ s))).
Proof. intros E. unfold upd_slot. by rewrite E. Qed.

(** The slot that is being filled does not count yet. *)
Lemma started_slot m0 saved f s s' : started_from m0 saved s → upd_slot f s = Ok s' → started_from m0 saved s'.
Proof. intros [] (Em & Ei & El & Ew & _)%upd_slot_ok. split; rewrite ?Ew, ?Em, ?Ei, ?El; done. Qed.

Lemma started_store m0 saved p v s s' : started_from m0 saved s → p ∈ saved → store p v s = Ok s' → started_from m0 saved s'.
Proof.
  intros [Hu Hi Hs Ht Hk] Hp. unfold store. destruct (ws_memory s !! p) eqn:E; [|done]. intros [= <-].
  split; cbn [ws_memory stack_index_ stack_]; try done.
  - change (works (mkStack (<[p := v]> (ws_memory s)) (stack_index_ s) (stack_ s))) with (works s).
    rewrite <-Hu. apply restore_over. intros q Hq. rewrite lookup_insert_ne; [done|]. intros <-. by apply Hq, Hs.
  - intros q. destruct (decide (q = p)) as [->|]; [|by rewrite lookup_insert_ne].
    rewrite lookup_insert_eq, <-Ht, E. split; eauto.
Qed.

(** A work that is complete: the pointer is saved with its value. *)
Lemma started_work m0 saved p s s1 s2 v : started_from m0 saved s → ws_memory s !! p = Some v →
  upd_slot (λ w, mkWork p (value_ w)) s = Ok s1 → upd_slot (λ w, mkWork (pointer_ w) v) s1 = Ok s2 →
  started_from m0 (p :: saved) (mkStack (ws_memory s2) (S (stack_index_ s2)) (stack_ s2)).
Proof.
  intros [Hu Hi Hs Ht Hk] Hv (Em1 & Ei1 & El1 & Ew1 & Es1)%upd_slot_ok (Em2 & Ei2 & El2 & Ew2 & Es2)%upd_slot_ok.
  destruct Es1 as (w & E & Es1). destruct Es2 as (w' & E' & Es2). rewrite Ei1 in E', Es2. rewrite Es1 in E'. injection E' as <-.
  assert (Hw : works (mkStack (ws_memory s2) (S (stack_index_ s2)) (stack_ s2)) = works s ++ [mkWork p v]).
  { unfold works in *. cbn. rewrite Ei2, Ei1 in *. rewrite (take_S_r _ _ _ Es2), Ew2, Ew1. done. }
  pose proof (lookup_lt_Some _ _ _ E) as Hlt.
  split; rewrite ?Hw; cbn [ws_memory stack_index_ stack_].
  - rewrite restore_app, Em2, Em1. cbn. by rewrite insert_id.
  - rewrite Ei2, Ei1, El2, El1. lia.
  - intros q [->|Hq]%elem_of_cons; rewrite fmap_app; [set_solver|]. apply Hs in Hq. set_solver.
  - intros q. by rewrite Em2, Em1.
  - intros q. rewrite fmap_app, elem_of_app. intros [Hq|Hq]; [by apply Hk|]. apply list_elem_of_singleton in Hq as ->.
    apply Ht. cbn. eauto.
Qed.

(** Wherever the instructions are interrupted, the transaction can be undone. *)
Lemma protected_prefix m0 saved l : protected saved l → ∀ k s s',
  started_from m0 saved s → execute_all (take k l) s = Ok s' → ∃ saved', started_from m0 saved' s'.
Proof.
  induction 1 as [saved|saved p l _ IH|saved dst src l Hd _ IH|saved dst v l Hd _ IH]; intros k s s' S E.
  - rewrite take_nil in E. injection E as <-. eauto.
  - destruct k as [|[|[|[|k]]]]; cbn in E.
    + injection E as <-. eauto.
    + case_bool_decide; [done|]. injection E as <-. eauto.
    + case_bool_decide; [done|]. cbn in E. destruct (upd_slot _ s) as [s1|] eqn:E1; [|done]. injection E as <-.
      eexists. by eapply started_slot.
    + case_bool_decide; [done|]. cbn in E. destruct (upd_slot _ s) as [s1|] eqn:E1; [|done]. cbn in E.
      destruct (load (ws_memory s1) p) as [v|]; [|done]. cbn in E. destruct (upd_slot _ s1) as [s2|] eqn:E2; [|done]. injection E as <-.
      eexists. eapply started_slot; [by eapply started_slot|done].
    + case_bool_decide; [done|]. cbn in E. destruct (upd_slot _ s) as [s1|] eqn:E1; [|done]. cbn in E.
      destruct (load (ws_memory s1) p) as [v|] eqn:Ev; [|done]. cbn in E. destruct (upd_slot _ s1) as [s2|] eqn:E2; [|done]. cbn in E.
      eapply IH; [|exact E]. eapply (started_work m0 saved p s s1 s2 v); try done.
      destruct (upd_slot_ok _ _ _ E1) as (<- & _). unfold load in Ev. by destruct (ws_memory s1 !! p); [injection Ev as ->|].
  - destruct k as [|k]; cbn in E; [injection E as <-; eauto|]. destruct (load (ws_memory s) src) as [v|]; [|done]. cbn in E.
    destruct (store dst v s) as [s1|] eqn:E1; [|done]. eapply IH; [|exact E]. by eapply started_store.
  - destruct k as [|k]; cbn in E; [injection E as <-; eauto|].
    destruct (store dst v s) as [s1|] eqn:E1; [|done]. eapply IH; [|exact E]. by eapply started_store.
Qed.

(** Undoing the last [j] of the first [n] works. *)
Lemma do_works_ok j : ∀ n s, (j ≤ n)%nat → (n ≤ length (stack_ s))%nat →
  (∀ p, p ∈ pointer_ <$> take n (stack_ s) → is_Some (ws_memory s !! p)) →
  do_works j n s = Ok (mkStack (restore (drop (n - j) (take n (stack_ s))) (ws_memory s)) (stack_index_ s) (stack_ s)).
Proof.
  induction j as [|j IH]; intros n s Hj Hn Hp.
  - rewrite Nat.sub_0_r, drop_ge by (rewrite length_take; lia). by destruct s.
  - destruct n as [|n]; [lia|]. cbn [do_works]. destruct (lookup_lt_is_Some_2 (stack_ s) n) as [w Hw]; [lia|]. rewrite Hw.
    rewrite (take_S_r _ _ _ Hw) in Hp. rewrite fmap_app in Hp.
    unfold store. destruct (Hp (pointer_ w)) as [x ->]; [set_solver|]. cbn [mbind res_bind].
    rewrite IH; cbn [stack_ ws_memory stack_index_]; [|lia|lia|].
    + do 2 f_equal. rewrite (take_S_r _ _ _ Hw), drop_app_le by (rewrite length_take; lia). cbn [Nat.sub].
      rewrite restore_app. done.
    + intros p Hin. destruct (decide (p = pointer_ w)) as [->|]; [rewrite lookup_insert_eq; eauto|].
      rewrite lookup_insert_ne by done. apply Hp. set_solver.
Qed.

Lemma pointers_drop p n ws : p ∈ pointer_ <$> drop n ws → p ∈ pointer_ <$> ws.
Proof.
  intros (w & -> & [i Hi]%list_elem_of_lookup)%list_elem_of_fmap. rewrite lookup_drop in Hi.
  apply list_elem_of_fmap. exists w. split; [done|]. by eapply list_elem_of_lookup_2.
Qed.

Lemma restore_there p ws m : p ∈ pointer_ <$> ws → is_Some (restore ws m !! p).
Proof.
  induction ws as [|w ws IH]; cbn; intros Hin; [by apply elem_of_nil in Hin|].
  destruct (decide (pointer_ w = p)) as [->|]; [rewrite lookup_insert_eq; eauto|]. rewrite lookup_insert_ne by done. apply IH. set_solver.
Qed.

Lemma started_undone m0 saved j s : started_from m0 saved s → (j ≤ stack_index_ s)%nat →
  ∃ s', do_works j (stack_index_ s) s = Ok s' ∧ started_from m0 saved s' ∧ stack_index_ s' = stack_index_ s ∧
    (j = stack_index_ s → ws_memory s' = m0).
Proof.
  intros [Hu Hi Hs Ht Hk] Hj. rewrite do_works_ok; [|done|done|].
  2:{ intros p Hp. by apply Ht, Hk. }
  eexists. split; [done|]. fold (works s). split; [|split; [done|]].
  - split; cbn [ws_memory stack_index_ stack_]; try done.
    + change (works (mkStack _ (stack_index_ s) (stack_ s))) with (works s). rewrite <-Hu. apply restore_over.
      intros p Hp. apply restore_other. intros Hin. by eapply Hp, pointers_drop.
    + intros p. rewrite <-Ht. destruct (decide (p ∈ pointer_ <$> drop (stack_index_ s - j) (works s))) as [Hin|Hin]; [|by rewrite restore_other].
      split; intros _; [by eapply Ht, Hk, pointers_drop|by apply restore_there].
  - intros ->. cbn. rewrite Nat.sub_diag, drop_0. exact Hu.
Qed.

(** ** Lists *)

(** The elements that are linked from [c] on. *)
Fixpoint chain (m : pointers) (c : Z) (xs : list Z) : Prop :=
  match xs with
  | [] => c = 0
  | x :: xs => c = x ∧ x ≠ 0 ∧ ∃ next, m !! x = Some next ∧ chain m next xs
  end.

Lemma linked_insert m c xs p v : chain m c xs → p ∉ xs → chain (<[p := v]> m) c xs.
Proof.
  revert c. induction xs as [|x xs IH]; intros c; cbn; [done|]. intros (-> & H0 & n & Hn & Hc) Hp. split_and!; [done..|].
  exists n. rewrite lookup_insert_ne by set_solver. split; [done|]. apply IH; set_solver.
Qed.

Section Lists.
Context (head_at : Z).

Definition listed (m : pointers) (xs : list Z) : Prop :=
  ∃ h, m !! head_at = Some h ∧ chain m h xs ∧ NoDup (head_at :: xs).

(** An operation's instructions with a work stack do to memory what they do without. *)
Lemma save_ok restoring p l s v :
  ws_memory s !! p = Some v → (restoring = true → (stack_index_ s < length (stack_ s))%nat) →
  ∃ s', execute_all (save restoring p ++ l) s = execute_all l s' ∧ ws_memory s' = ws_memory s ∧ length (stack_ s') = length (stack_ s) ∧
    stack_index_ s' = (if restoring then S (stack_index_ s) else stack_index_ s).
Proof.
  intros Hv Hr. destruct restoring; [|by exists s]. specialize (Hr eq_refl). unfold save, AddWork. cbn [app execute_all execute].
  rewrite bool_decide_eq_false_2 by lia. rewrite res_bind_Ok. destruct (lookup_lt_is_Some_2 _ _ Hr) as [w Hw].
  rewrite (upd_slot_some _ _ _ Hw), res_bind_Ok. cbn [ws_memory]. unfold load. rewrite Hv, res_bind_Ok.
  erewrite upd_slot_some by (by apply list_lookup_insert_eq). rewrite !res_bind_Ok.
  eexists. split; [done|]. cbn. by rewrite !length_insert.
Qed.

(** [Add] puts the element in front. *)
Lemma list_Add_ok restoring t s xs :
  listed (ws_memory s) xs → t ∉ head_at :: xs → t ≠ 0 → is_Some (ws_memory s !! t) →
  (restoring = true → (stack_index_ s + 2 ≤ length (stack_ s))%nat) →
  ∃ s', execute_all (list_Add head_at restoring t) s = Ok s' ∧ listed (ws_memory s') (t :: xs) ∧
    length (stack_ s') = length (stack_ s) ∧ stack_index_ s' = (if restoring then 2 + stack_index_ s else stack_index_ s)%nat ∧
    ∀ p, is_Some (ws_memory s' !! p) ↔ is_Some (ws_memory s !! p).
Proof.
  intros (h & Hh & Hc & Hnd) Ht H0 [v Hv] Hr. unfold list_Add.
  destruct (save_ok restoring t ([Copy t head_at] ++ save restoring head_at ++ [Put head_at t]) s v Hv) as (s1 & -> & M1 & L1 & I1);
    [intros ->; specialize (Hr eq_refl); lia|]. cbn [app execute_all execute]. unfold load at 1. rewrite M1, Hh, res_bind_Ok.
  unfold store at 1. rewrite M1, Hv, res_bind_Ok.
  match goal with |- ∃ _, execute_all _ ?s2 = _ ∧ _ => destruct (save_ok restoring head_at [Put head_at t] s2 h) as (s3 & -> & M3 & L3 & I3) end.
  { cbn. by rewrite lookup_insert_ne by set_solver. }
  { intros ->. specialize (Hr eq_refl). cbn. rewrite I1, L1. lia. }
  cbn [execute_all execute]. unfold store. rewrite M3. cbn [ws_memory]. rewrite lookup_insert_ne by set_solver. rewrite Hh, res_bind_Ok.
  eexists. split; [done|]. cbn [ws_memory stack_ stack_index_]. split_and!.
  - exists t. rewrite lookup_insert_eq. split; [done|]. split.
    + cbn. split_and!; [done..|]. exists h. rewrite lookup_insert_ne by set_solver. rewrite lookup_insert_eq. split; [done|].
      apply NoDup_cons in Hnd as [? ?]. apply linked_insert; [apply linked_insert; [done|set_solver]|done].
    + apply NoDup_cons in Hnd as [? ?]. apply NoDup_cons. split; [set_solver|]. apply NoDup_cons. split; [set_solver|done].
  - by rewrite L3, <-L1.
  - rewrite I3. cbn [stack_index_]. rewrite I1. by destruct restoring.
  - intros p. destruct (decide (p = head_at)) as [->|]; [rewrite lookup_insert_eq, Hh; split; eauto|]. rewrite lookup_insert_ne by done.
    destruct (decide (p = t)) as [->|]; [rewrite lookup_insert_eq, Hv; split; eauto|]. by rewrite lookup_insert_ne.
Qed.

(** [Remove] finds the pointer to the element and takes the element out. *)
Lemma find_pointer_ok fuel : ∀ m p c xs t,
  m !! p = Some c → chain m c xs → NoDup (p :: xs) → t ∈ xs → (length xs < fuel)%nat →
  ∃ q nt c', find_pointer fuel m p t = Ok q ∧ m !! t = Some nt ∧ q ∈ p :: xs ∧ is_Some (m !! q) ∧
    <[q := nt]> m !! p = Some c' ∧ chain (<[q := nt]> m) c' (filter (λ x, x ≠ t) xs).
Proof.
  induction fuel as [|fuel IH]; intros m p c xs t Hp Hc Hnd Ht Hf; [lia|]. destruct xs as [|x xs]; [by apply elem_of_nil in Ht|].
  destruct Hc as (-> & H0 & n & Hn & Hc). cbn [find_pointer]. unfold load. rewrite Hp, res_bind_Ok, (proj2 (Z.eqb_neq x 0)) by done.
  apply NoDup_cons in Hnd as [Hpx Hnd]. destruct (Z.eqb_spec x t) as [->|Hxt].
  - exists p, n, n. split_and!; [done|done|set_solver|eauto|by rewrite lookup_insert_eq|].
    apply NoDup_cons in Hnd as [Htx _]. rewrite filter_cons_False by (by intros H; apply H).
    assert (filter (λ x, x ≠ t) xs = xs) as ->.
    { clear -Htx. induction xs as [|y xs IH]; [done|]. rewrite filter_cons_True by set_solver. f_equal. apply IH. set_solver. }
    apply linked_insert; [done|set_solver].
  - destruct (IH m x n xs t Hn Hc Hnd) as (q & nt & c' & -> & Hnt & Hq & Hqs & Hc' & Hch); [set_solver|cbn in Hf; lia|].
    assert (q ≠ p) by set_solver. exists q, nt, x. split_and!; [done|done|set_solver|done|by rewrite lookup_insert_ne|].
    rewrite filter_cons_True by done. cbn. split_and!; [done..|]. exists c'. done.
Qed.

Lemma find_pointer_missing fuel : ∀ m p c xs t,
  m !! p = Some c → chain m c xs → t ∉ xs → (length xs < fuel)%nat → find_pointer fuel m p t = Err Fatal.
Proof.
  induction fuel as [|fuel IH]; intros m p c xs t Hp Hc Ht Hf; [lia|]. cbn [find_pointer]. unfold load. rewrite Hp, res_bind_Ok.
  destruct xs as [|x xs]; cbn in Hc; [by subst|]. destruct Hc as (-> & H0 & n & Hn & Hc).
  rewrite (proj2 (Z.eqb_neq x 0)), (proj2 (Z.eqb_neq x t)) by set_solver. apply (IH m x n xs); [done|done|set_solver|cbn in Hf; lia].
Qed.

Lemma list_Remove_ok fuel restoring t s xs :
  listed (ws_memory s) xs → t ∈ xs → (length xs < fuel)%nat → (restoring = true → (stack_index_ s + 1 ≤ length (stack_ s))%nat) →
  ∃ l s', list_Remove head_at fuel restoring (ws_memory s) t = Ok l ∧ execute_all l s = Ok s' ∧
    listed (ws_memory s') (filter (λ x, x ≠ t) xs) ∧ length (stack_ s') = length (stack_ s) ∧
    stack_index_ s' = (if restoring then 1 + stack_index_ s else stack_index_ s)%nat ∧
    ∀ p, is_Some (ws_memory s' !! p) ↔ is_Some (ws_memory s !! p).
Proof.
  intros (h & Hh & Hc & Hnd) Ht Hf Hr. unfold list_Remove.
  destruct (find_pointer_ok fuel _ _ _ _ t Hh Hc Hnd Ht Hf) as (q & nt & c' & -> & Hnt & Hq & [v Hv] & Hc' & Hch). rewrite res_bind_Ok.
  destruct (save_ok restoring q [Copy q t] s v Hv) as (s1 & E & M1 & L1 & I1); [intros ->; specialize (Hr eq_refl); lia|].
  eexists _, (mkStack (<[q := nt]> (ws_memory s)) (stack_index_ s1) (stack_ s1)). split; [done|]. rewrite E. split.
  { cbn [execute_all execute]. unfold load, store. rewrite M1, Hnt, res_bind_Ok, Hv. done. }
  cbn [ws_memory stack_ stack_index_]. split_and!; [|done|by rewrite I1; destruct restoring|].
  - exists c'. split_and!; [done|done|]. apply NoDup_cons in Hnd as [? ?]. apply NoDup_cons. split; [|by apply NoDup_filter].
    rewrite list_elem_of_filter. naive_solver.
  - intros p. destruct (decide (p = q)) as [->|]; [rewrite lookup_insert_eq, Hv; split; eauto|]. by rewrite lookup_insert_ne.
Qed.

(** [Each] visits the elements in order, [Find] returns the first one that fits. *)
Lemma each_from_ok fuel : ∀ m c xs, chain m c xs → (length xs < fuel)%nat → each_from fuel m c = Ok xs.
Proof.
  induction fuel as [|fuel IH]; intros m c [|x xs] Hc Hf; cbn in Hf; [lia..| |]; cbn [each_from]; [by rewrite Hc|].
  destruct Hc as (-> & H0 & n & Hn & Hc). rewrite (proj2 (Z.eqb_neq x 0)) by done. unfold load. rewrite Hn, res_bind_Ok.
  rewrite (IH m n xs) by (done || lia). done.
Qed.

Lemma find_from_ok fuel f : ∀ m c xs, chain m c xs → (length xs < fuel)%nat →
  find_from fuel m f c = Ok (default 0 (head (filter (λ x, f x = true) xs))).
Proof.
  induction fuel as [|fuel IH]; intros m c [|x xs] Hc Hf; cbn in Hf; [lia..| |]; cbn [find_from]; [by rewrite Hc|].
  destruct Hc as (-> & H0 & n & Hn & Hc). rewrite (proj2 (Z.eqb_neq x 0)) by done. rewrite filter_cons. destruct (f x) eqn:Ef.
  - by rewrite decide_True.
  - rewrite decide_False by done. unfold load. rewrite Hn, res_bind_Ok. apply IH; [done|lia].
Qed.

(** *** Sequences of operations *)

Inductive list_op := LAdd (t : Z) | LRemove (t : Z).

(** The instructions of operations one after the other, all with the same work stack. *)
Fixpoint list_ops (fuel : nat) (ops : list list_op) (s : WorkStack) : res (list instruction) :=
  match ops with
  | [] => Ok []
  | op :: ops =>
      l ← match op with LAdd t => Ok (list_Add head_at true t) | LRemove t => list_Remove head_at fuel true (ws_memory s) t end;
      s ← execute_all l s;
      rest ← list_ops fuel ops s;
      Ok (l ++ rest)
  end.

Definition op_spec (xs : list Z) (op : list_op) : list Z :=
  match op with LAdd t => t :: xs | LRemove t => filter (λ x, x ≠ t) xs end.
Fixpoint ops_valid (m0 : pointers) (xs : list Z) (ops : list list_op) : Prop :=
  match ops with
  | [] => True
  | op :: ops =>
      match op with LAdd t => t ∉ head_at :: xs ∧ t ≠ 0 ∧ is_Some (m0 !! t) | LRemove t => t ∈ xs end ∧
      ops_valid m0 (op_spec xs op) ops
  end.
Fixpoint ops_works (ops : list list_op) : nat :=
  match ops with [] => 0 | LAdd _ :: ops => 2 + ops_works ops | LRemove _ :: ops => 1 + ops_works ops end.

Lemma protected_app saved l1 l2 : protected saved l1 → (∀ saved', protected saved' l2) → protected saved (l1 ++ l2).
Proof.
  intros H1 H2. induction H1; [apply H2|rewrite <-app_assoc; by apply prot_work|by apply prot_copy|by apply prot_put].
Qed.

Lemma list_Add_protected saved t : protected saved (list_Add head_at true t).
Proof.
  apply (prot_work saved t), prot_copy; [set_solver|]. apply (prot_work _ head_at), prot_put; [set_solver|]. constructor.
Qed.

Lemma list_Remove_protected saved fuel m t l : list_Remove head_at fuel true m t = Ok l → protected saved l.
Proof.
  unfold list_Remove. destruct (find_pointer fuel m head_at t) as [q|]; [|done]. intros [= <-].
  apply (prot_work saved q), prot_copy; [set_solver|]. constructor.
Qed.

Lemma list_ops_protected fuel ops : ∀ s l saved, list_ops fuel ops s = Ok l → protected saved l.
Proof.
  induction ops as [|op ops IH]; intros s l saved; cbn [list_ops]; [intros [= <-]; constructor|].
  destruct (match op with LAdd t => Ok (list_Add head_at true t) | LRemove t => list_Remove head_at fuel true (ws_memory s) t end) as [l1|] eqn:E1; [|done].
  rewrite res_bind_Ok. destruct (execute_all l1 s) as [s1|]; [|done]. rewrite res_bind_Ok.
  destruct (list_ops fuel ops s1) as [l2|] eqn:E2; [|done]. intros [= <-]. apply protected_app; [|intros; by eapply IH].
  destruct op; [injection E1 as <-; apply list_Add_protected|by eapply list_Remove_protected].
Qed.

Lemma execute_all_app l1 l2 s : execute_all (l1 ++ l2) s = (s ← execute_all l1 s; execute_all l2 s).
Proof.
  revert s. induction l1 as [|i l1 IH]; intros s; cbn; [done|]. destruct (execute i s) as [s1|]; [|done]. rewrite !res_bind_Ok. apply IH.
Qed.

Lemma list_ops_ok fuel m0 ops : ∀ xs s,
  listed (ws_memory s) xs → (∀ p, is_Some (ws_memory s !! p) ↔ is_Some (m0 !! p)) → ops_valid m0 xs ops →
  (length xs + length ops < fuel)%nat → (stack_index_ s + ops_works ops ≤ length (stack_ s))%nat →
  ∃ l s', list_ops fuel ops s = Ok l ∧ execute_all l s = Ok s' ∧ listed (ws_memory s') (foldl op_spec xs ops).
Proof.
  induction ops as [|op ops IH]; intros xs s HL Hd HV Hf Hw; cbn [list_ops foldl].
  { exists [], s. done. }
  destruct HV as [Hop HV]. cbn [length ops_works] in Hf, Hw.
  assert (∃ l1 s1, match op with LAdd t => Ok (list_Add head_at true t) | LRemove t => list_Remove head_at fuel true (ws_memory s) t end = Ok l1 ∧
    execute_all l1 s = Ok s1 ∧ listed (ws_memory s1) (op_spec xs op) ∧ length (stack_ s1) = length (stack_ s) ∧
    (stack_index_ s1 + ops_works ops ≤ length (stack_ s1))%nat ∧ (length (op_spec xs op) ≤ S (length xs))%nat ∧
    ∀ p, is_Some (ws_memory s1 !! p) ↔ is_Some (ws_memory s !! p)) as (l1 & s1 & -> & E1 & HL1 & HS1 & HW1 & HX1 & HD1).
  { destruct op as [t|t].
    - destruct Hop as (Ht & H0 & Hm). destruct (list_Add_ok true t s xs HL Ht H0) as (s1 & E1 & HL1 & HS1 & HI1 & HD1); [by apply Hd|lia|].
      eexists _, s1. split_and!; [done|done|done|done|rewrite HS1, HI1; lia|cbn; lia|done].
    - destruct (list_Remove_ok fuel true t s xs HL Hop) as (l1 & s1 & E0 & E1 & HL1 & HS1 & HI1 & HD1); [lia|lia|].
      eexists l1, s1. split_and!; [done|done|done|done|rewrite HS1, HI1; lia| |done]. cbn [op_spec].
      pose proof (length_filter (λ x, x ≠ t) xs). lia. }
  rewrite res_bind_Ok, E1, res_bind_Ok. destruct (IH _ s1 HL1) as (l2 & s2 & -> & E2 & HL2); [|done|lia|done|].
  { intros p. rewrite HD1. apply Hd. }
  exists (l1 ++ l2), s2. rewrite res_bind_Ok, execute_all_app, E1, res_bind_Ok. done.
Qed.

(** Undoing can be interrupted too, any number of times: attempt number [i] got as far as
    the last [js !! i] works. *)
Fixpoint undo_attempts (js : list nat) (s : WorkStack) : res WorkStack :=
  match js with [] => Ok s | j :: js => s ← do_works j (stack_index_ s) s; undo_attempts js s end.

Lemma do_works_min j : ∀ n s, do_works j n s = do_works (j `min` n) n s.
Proof.
  induction j as [|j IH]; intros [|n] s; cbn; [done..|]. destruct (stack_ s !! n) as [w|]; [|done].
  destruct (store (pointer_ w) (value_ w) s) as [s'|]; [|done]. apply IH.
Qed.

Lemma undo_attempts_ok m0 saved js : ∀ s, started_from m0 saved s → ∃ s', undo_attempts js s = Ok s' ∧ started_from m0 saved s'.
Proof.
  induction js as [|j js IH]; intros s S; cbn [undo_attempts]; [eauto|]. rewrite do_works_min.
  destruct (started_undone m0 saved (j `min` stack_index_ s) s S) as (s' & -> & S' & _); [lia|]. rewrite res_bind_Ok. eauto.
Qed.

Lemma CompleteWork_ok m0 saved s : started_from m0 saved s → ∃ s', CompleteWork s = Ok s' ∧ ws_memory s' = m0 ∧ HasWork s' = false.
Proof.
  intros S. unfold CompleteWork. destruct (started_undone m0 saved (stack_index_ s) s S) as (s' & -> & _ & _ & Hm); [lia|].
  rewrite res_bind_Ok. eexists. split; [done|]. split; [by apply Hm|done].
Qed.

Lemma execute_all_take k l s s' : execute_all l s = Ok s' → ∃ s1, execute_all (take k l) s = Ok s1.
Proof.
  rewrite <-(take_drop k l) at 1. rewrite execute_all_app. destruct (execute_all (take k l) s) as [s1|]; [eauto|done].
Qed.

Lemma op_spec_length ops : ∀ xs, (length (foldl op_spec xs ops) ≤ length xs + length ops)%nat.
Proof.
  induction ops as [|op ops IH]; intros xs; cbn; [lia|]. specialize (IH (op_spec xs op)).
  destruct op as [t|t]; cbn [op_spec length] in *; [lia|]. pose proof (length_filter (λ x, x ≠ t) xs). lia.
Qed.

(** A transaction starts with no work. *)
Lemma started_empty s : HasWork s = false → started_from (ws_memory s) [] s.
Proof.
  unfold HasWork. intros E. apply negb_false_iff, Nat.eqb_eq in E.
  split; unfold works; rewrite ?E; cbn; try done; try lia; intros p Hp; by apply elem_of_nil in Hp.
Qed.

(** C20: Additions to and removals from a linked list that share a stack of restoring works
    are a transaction.  On a list of elements in memory, when no work is left over from
    before and there is room for two works an addition and one a removal, the operations
    run through and leave the list they should.  And if they are interrupted between any two
    instructions (also half way through the saving of a pointer), and the undoing is itself
    interrupted however often and wherever, one [CompleteWork] that runs to its end puts
    every pointer back to what it was before the first operation and leaves no work. *)
Theorem list_transaction fuel ops xs s k js :
  listed (ws_memory s) xs → HasWork s = false → ops_valid (ws_memory s) xs ops →
  (length xs + length ops < fuel)%nat → (ops_works ops ≤ length (stack_ s))%nat →
  ∃ l s', list_ops fuel ops s = Ok l ∧ execute_all l s = Ok s' ∧
    list_Each head_at fuel (ws_memory s') = Ok (foldl op_spec xs ops) ∧
    ∃ s1 s2 s3, execute_all (take k l) s = Ok s1 ∧ undo_attempts js s1 = Ok s2 ∧ CompleteWork s2 = Ok s3 ∧
      ws_memory s3 = ws_memory s ∧ HasWork s3 = false.
Proof.
  intros HL HW HV Hf Hr. pose proof (started_empty s HW) as S. unfold HasWork in HW. apply negb_false_iff, Nat.eqb_eq in HW.
  destruct (list_ops_ok fuel (ws_memory s) ops xs s) as (l & s' & El & Es & HL'); [done..|by rewrite HW|].
  exists l, s'. split_and!; [done|done| |].
  - destruct HL' as (h & Hh & Hc & _). unfold list_Each, load. rewrite Hh, res_bind_Ok. apply each_from_ok; [done|].
    pose proof (op_spec_length ops xs). lia.
  - destruct (execute_all_take k l s s' Es) as [s1 E1].
    destruct (protected_prefix _ [] l (list_ops_protected _ _ _ _ _ El) k s s1 S E1) as [saved S1].
    destruct (undo_attempts_ok _ _ js s1 S1) as (s2 & E2 & S2). destruct (CompleteWork_ok _ _ s2 S2) as (s3 & E3 & ? & ?). eauto 10.
Qed.
End Lists.

Lemma list_transaction_witness : ∃ l, list_ops 100 10 [LAdd 3; LRemove 1; LAdd 4] (mkStack (list_to_map [(100, 2); (1, 0); (2, 1); (3, 7); (4, 8)]) 0 (replicate 5 (mkWork 0 0))) = Ok l ∧
    ∃ s1 s2 s3, execute_all (take 13 l) (mkStack (list_to_map [(100, 2); (1, 0); (2, 1); (3, 7); (4, 8)]) 0 (replicate 5 (mkWork 0 0))) = Ok s1 ∧
      undo_attempts [1; 2]%nat s1 = Ok s2 ∧ CompleteWork s2 = Ok s3 ∧ HasWork s3 = false ∧
      ws_memory s3 = (list_to_map [(100, 2); (1, 0); (2, 1); (3, 7); (4, 8)] : pointers).
Proof.
  destruct (list_transaction 100 10 [LAdd 3; LRemove 1; LAdd 4] [2; 1] (mkStack (list_to_map [(100, 2); (1, 0); (2, 1); (3, 7); (4, 8)]) 0 (replicate 5 (mkWork 0 0))) 13 [1; 2]%nat)
    as (l & s' & El & _ & _ & s1 & s2 & s3 & E1 & E2 & E3 & Hm & HH).
  - exists 2. split; [reflexivity|]. split; [|apply (bool_decide_unpack _); vm_compute; exact I].
    cbn. split_and!; [done|lia|]. exists 1. split; [reflexivity|]. split_and!; [done|lia|]. exists 0. split; reflexivity.
  - reflexivity.
  - cbn. split_and!; [apply (bool_decide_unpack _); vm_compute; exact I|lia|eexists; reflexivity|set_solver|apply (bool_decide_unpack _); vm_compute; exact I|lia|eexists; reflexivity|exact I].
  - cbn. lia.
  - cbn. lia.
  - exists l. split; [exact El|]. exists s1, s2, s3. split_and!; assumption.
Defined.


(** ** WrappingCounter *)

Lemma low_byte_replaced x c : in_unsigned 32 x → 0 ≤ c < 256 → Z.lor (Z.land x 0xffffff00) c = x - x mod 256 + c.
Proof.
  intros [Hx0 Hx] Hc. replace (x - x mod 256) with (Z.shiftl (Z.shiftr x 8) 8).
  2:{ rewrite Z.shiftl_mul_pow2, Z.shiftr_div_pow2 by lia. change (2 ^ 8) with 256. pose proof (Z.div_mod x 256). lia. }
  assert (Z.land x 0xffffff00 = Z.shiftl (Z.shiftr x 8) 8) as ->.
  { apply Z.bits_inj'. intros i Hi. rewrite Z.land_spec, Z.shiftl_spec by lia.
    change 0xffffff00 with (Z.shiftl (Z.ones 24) 8). rewrite Z.shiftl_spec by lia.
    destruct (Z.ltb_spec i 8); [rewrite !(Z.testbit_neg_r _ (i - 8)) by lia; apply andb_false_r|].
    rewrite Z.shiftr_spec by lia. rewrite Z.sub_add.
    destruct (Z.ltb_spec i 32); [rewrite Z.ones_spec_low, andb_true_r by lia; done|].
    rewrite (u32_testbit_high x i) by (done || lia). done. }
  symmetry. apply Z.add_nocarry_lor. apply Z.bits_inj'. intros i Hi. rewrite Z.land_spec, Z.shiftl_spec, Z.bits_0 by lia.
  destruct (Z.ltb_spec i 8); [rewrite Z.testbit_neg_r by lia; done|]. rewrite <-(Z.mod_small c (2 ^ 8)) by (cbn; lia).
  rewrite Z.mod_pow2_bits_high by lia. apply andb_false_r.
Qed.

(** What the counter sees of totals that grow by [ds]. *)
Fixpoint raw_counts (total : Z) (ds : list Z) : list Z :=
  match ds with [] => [] | d :: ds => (total + d) mod 256 :: raw_counts (total + d) ds end.

Definition counter_at (total : Z) : WrappingCounter := mkCounter total (total mod 256).

Lemma counter_step total d : 0 ≤ total → 0 ≤ d < 256 → total + d < 2 ^ 31 →
  counter_Update ((total + d) mod 256) (counter_at total) = Ok (counter_at (total + d)).
Proof.
  intros H0 Hd Hm. pose proof (Z.div_mod total 256 ltac:(lia)). pose proof (Z.mod_pos_bound total 256 ltac:(lia)).
  pose proof (Z.div_mod (total + d) 256 ltac:(lia)). pose proof (Z.mod_pos_bound (total + d) 256 ltac:(lia)).
  unfold counter_Update, counter_at. cbn [last_count_ count_].
  set (r := (total + d) mod 256) in *. set (q := (total + d) / 256) in *.
  assert (Hfin : ∀ c, 0 ≤ c < 2 ^ 31 → c - c mod 256 + r = total + d →
    Ok (mkCounter (swrap 32 (Z.lor (Z.land (u32 c) 0xffffff00) r)) r) = Ok (mkCounter (total + d) r)).
  { intros c Hc E. rewrite uwrap_small by (unfold in_unsigned; lia). rewrite low_byte_replaced by (unfold in_unsigned; lia).
    rewrite E, swrap_small; [done|lia|unfold in_signed; lia]. }
  destruct (Z.ltb_spec r (total mod 256)).
  - assert (q = total / 256 + 1) by lia. rewrite chk_ok by (unfold in_signed; lia). rewrite res_bind_Ok. apply Hfin; [lia|].
    replace (total + 0x100) with (total + 1 * 256) by lia. rewrite Z.mod_add by lia. lia.
  - assert (q = total / 256) by lia. rewrite res_bind_Ok. apply Hfin; lia.
Qed.

(** A counter that starts at a multiple of 256 follows any total that does not go down, does
    not grow by 256 or more between two updates and stays below 2^31. *)
Theorem counter_follows ds : ∀ total, 0 ≤ total → Forall (λ d, 0 ≤ d < 256) ds → total + foldr Z.add 0 ds < 2 ^ 31 →
  counter_Updates (raw_counts total ds) (counter_at total) = Ok (counter_at (total + foldr Z.add 0 ds)).
Proof.
  induction ds as [|d ds IH]; intros total H0 HF Hs; cbn [raw_counts counter_Updates foldr] in *; [by rewrite Z.add_0_r|].
  apply Forall_cons in HF as [Hd HF]. assert (0 ≤ foldr Z.add 0 ds) by (clear -HF; induction HF; cbn; lia).
  rewrite counter_step, res_bind_Ok, IH by (done || lia). by rewrite Z.add_assoc.
Qed.

Lemma counter_new initial : initial mod 256 = 0 → WrappingCounter_new initial = counter_at initial.
Proof. unfold counter_at. by intros ->. Qed.

(** A reset to anything else is forgotten by the next update, also one with the raw value
    that was seen last. *)
Theorem counter_forgets_reset value raw c : 0 ≤ value < 256 → 0 ≤ raw < 256 → last_count_ c = raw →
  counter_Update raw (counter_Reset value c) = Ok (counter_at raw).
Proof.
  intros Hv Hr <-. unfold counter_Update, counter_Reset, counter_at. cbn [last_count_ count_]. rewrite Z.ltb_irrefl, res_bind_Ok.
  rewrite uwrap_small by (unfold in_unsigned; lia). rewrite low_byte_replaced by (unfold in_unsigned; lia).
  rewrite !Z.mod_small by lia. rewrite Z.sub_diag. rewrite swrap_small; [done|lia|unfold in_signed; lia].
Qed.

(** ** Team numbers *)

Lemma list_find_dash (l r : bytes) : Forall (λ c, c ≠ 45) l → list_find (λ c, c = 45) (l ++ 45 :: r) = Some (length l, 45).
Proof.
  induction 1 as [|c l Hc _ IH]; cbn; [done|]. rewrite decide_False by done. by rewrite IH.
Qed.

Lemma decimal_length z : 0 ≤ z < 2 ^ 31 → (length (decimal z) ≤ 20)%nat.
Proof. intros Hz. unfold decimal. rewrite (proj2 (Z.ltb_ge z 0)) by lia. apply dec_digits_length. Qed.

Lemma decimal_last z c : 0 ≤ z < 2 ^ 31 → last (decimal z) = Some c → is_digit c = true.
Proof.
  intros Hz. unfold decimal. rewrite (proj2 (Z.ltb_ge z 0)) by lia.
  destruct (dec_digits_ok 20 z) as (HF & _); [change (10 ^ Z.of_nat 20) with 100000000000000000000; lia|lia|]. generalize dependent (dec_digits 20 z). intros l HF [l' ->]%last_Some.
  by apply Forall_app in HF as [_ [? _]%Forall_cons].
Qed.

(** The number of both forms of hostname, as a [uint16_t]: a number of more than 16 bits is
    not refused. *)
Theorem team_hostnames n : 0 ≤ n < 2 ^ 31 →
  ParseTeamNumber (chars "roboRIO-" ++ decimal n) = Some (u16 n) ∧
  ParseTeamNumber (chars "roboRIO-" ++ decimal n ++ chars "-FRC") = Some (u16 n).
Proof.
  intros Hn. pose proof (StringToNumber_decimal 32 n ltac:(lia) ltac:(change (32 - 1) with 31; lia)) as E.
  assert (decimal n ≠ []) as Hne by (intros He; rewrite He in E; discriminate E).
  set (ds := decimal n) in *.
  change (chars "roboRIO-" ++ ds) with (chars "roboRIO" ++ 45 :: ds). change (chars "roboRIO-" ++ ds ++ chars "-FRC") with (chars "roboRIO" ++ 45 :: (ds ++ chars "-FRC")).
  split; unfold ParseTeamNumber; rewrite list_find_dash by (repeat constructor; done); change (length (chars "roboRIO")) with 7%nat.
  - rewrite bool_decide_eq_false_2.
    2:{ intros HL. change (chars "roboRIO" ++ 45 :: ds) with (chars "roboRIO-" ++ ds) in HL. rewrite last_app in HL.
        destruct (last ds) as [c|] eqn:El; [|by apply last_None in El]. pose proof (decimal_last n c ltac:(lia) El) as Hd.
        injection HL as ->. done. }
    change (drop _ (chars "roboRIO" ++ 45 :: ds)) with ds. rewrite E. change (take _ (chars "roboRIO" ++ 45 :: ds)) with (chars "roboRIO").
    rewrite !bool_decide_eq_true_2 by done. done.
  - rewrite bool_decide_eq_true_2.
    2:{ change (chars "roboRIO" ++ 45 :: (ds ++ chars "-FRC")) with (chars "roboRIO-" ++ ds ++ chars "-FRC"). by rewrite !last_app. }
    assert (substr_n (chars "roboRIO" ++ 45 :: (ds ++ chars "-FRC")) (Z.of_nat 7 + 1)
      (u64 (Z.of_nat (length (chars "roboRIO" ++ 45 :: (ds ++ chars "-FRC"))) - 5 - Z.of_nat 7)) = ds) as ->.
    { unfold substr_n. change (drop _ (chars "roboRIO" ++ 45 :: (ds ++ chars "-FRC"))) with (ds ++ chars "-FRC").
      rewrite length_app. cbn [length]. rewrite length_app. change (length (chars "roboRIO")) with 7%nat. change (length (chars "-FRC")) with 4%nat.
      pose proof (decimal_length n Hn) as Hlen. fold ds in Hlen.
      rewrite uwrap_small by (unfold in_unsigned; lia). 
      replace (Z.to_nat _) with (length ds) by lia. by rewrite take_app_length. }
    rewrite E. change (take _ (chars "roboRIO" ++ _)) with (chars "roboRIO"). rewrite !bool_decide_eq_true_2 by done. done.
Qed.
