(* ===== verification/Joystick.v ===== *)
(** * Joysticks

    aos/common/input/driver_station_data.cc and .h (the class [Data] with its edges),
    aos/input/joystick_input.cc ([JoystickInput::Run]), over the message of
    aos/common/messages/robot_state.q; then what the log of joystick input says: edges are
    exactly the changes of a button, and the logged lines are enough to follow the state of
    the driver's station. *)


From S2P Require Import Prelude.

Module DriverStation.

(** Axes are only passed on: [double] and its conversion to [float] are parameters. *)
Section Data.
Context {double float : Type} (to_float : double → float) (d0 : double).

Record Joystick := mkJoystick { buttons : Z; axis : list double; pov : Z }.

Record JoystickState := mkJoysticks {
  joysticks : list Joystick; test_mode : bool; fms_attached : bool; enabled : bool; autonomous : bool;
  team_id : Z; fake : bool }.

Definition kJoysticks : Z := 4.
Definition kButtons : Z := 12.
Definition kAxes : Z := 4.

(** [JoystickFeature]: [ButtonLocation], [POVLocation], [JoystickAxis] *)
Record JoystickFeature := mkFeature { joystick : Z; number : Z }.

Inductive ControlBit := kTestMode | kFmsAttached | kAutonomous | kEnabled.

#[global] Instance ControlBit_eq_dec : EqDecision ControlBit.
Proof. solve_decision. Defined.

Record Data := mkData { current_values_ : JoystickState; old_values_ : JoystickState }.

Definition no_joystick : Joystick := mkJoystick 0 (replicate 4 d0) 0.
Definition no_values : JoystickState := mkJoysticks (replicate 4 no_joystick) false false false false 0 false.

Definition Data_new : Data := mkData no_values no_values.

Definition Update (new_values : JoystickState) (d : Data) : Data := mkData new_values (current_values_ d).

(** [a[i]] of an array *)
Definition at_index {A} (l : list A) (i : Z) : res A :=
  if i <? 0 then Err Undefined else of_option Undefined (l !! Z.to_nat i).

(** A shift by less than nothing or by all of the bits of an [int] is undefined. *)
Definition GetButton (location : JoystickFeature) (values : JoystickState) : res bool :=
  j ← at_index (joysticks values) (joystick location - 1);
  if (0 <=? number location - 1) && (number location - 1 <? 32)
  then Ok (negb (Z.land (buttons j) (Z.shiftl 1 (number location - 1)) =? 0)) else Err Undefined.

Definition DoGetPOV (location : JoystickFeature) (values : JoystickState) : res bool :=
  j ← at_index (joysticks values) (joystick location - 1);
  Ok (pov j =? number location).

Definition GetControlBitValue (bit : ControlBit) (values : JoystickState) : bool :=
  match bit with
  | kTestMode => test_mode values
  | kFmsAttached => fms_attached values
  | kAutonomous => autonomous values
  | kEnabled => enabled values
  end.

Definition IsPressed (location : JoystickFeature) (d : Data) : res bool := GetButton location (current_values_ d).

(** [&&] does not look at the current values when the old ones decide. *)
Definition PosEdge (location : JoystickFeature) (d : Data) : res bool :=
  old ← GetButton location (old_values_ d);
  if (old : bool) then Ok false else GetButton location (current_values_ d).
Definition NegEdge (location : JoystickFeature) (d : Data) : res bool :=
  old ← GetButton location (old_values_ d);
  if (old : bool) then (b ← GetButton location (current_values_ d); Ok (negb b)) else Ok false.

Definition POV_IsPressed (location : JoystickFeature) (d : Data) : res bool := DoGetPOV location (current_values_ d).
Definition POV_PosEdge (location : JoystickFeature) (d : Data) : res bool :=
  old ← DoGetPOV location (old_values_ d);
  if (old : bool) then Ok false else DoGetPOV location (current_values_ d).
Definition POV_NegEdge (location : JoystickFeature) (d : Data) : res bool :=
  old ← DoGetPOV location (old_values_ d);
  if (old : bool) then (b ← DoGetPOV location (current_values_ d); Ok (negb b)) else Ok false.

Definition GetPOV (j : Z) (d : Data) : res Z := j ← at_index (joysticks (current_values_ d)) (j - 1); Ok (pov j).
Definition GetOldPOV (j : Z) (d : Data) : res Z := j ← at_index (joysticks (old_values_ d)) (j - 1); Ok (pov j).

Definition GetControlBit (bit : ControlBit) (d : Data) : bool := GetControlBitValue bit (current_values_ d).
Definition Bit_PosEdge (bit : ControlBit) (d : Data) : bool :=
  negb (GetControlBitValue bit (old_values_ d)) && GetControlBitValue bit (current_values_ d).
Definition Bit_NegEdge (bit : ControlBit) (d : Data) : bool :=
  GetControlBitValue bit (old_values_ d) && negb (GetControlBitValue bit (current_values_ d)).

Definition GetAxis (a : JoystickFeature) (d : Data) : res float :=
  j ← at_index (joysticks (current_values_ d)) (joystick a - 1);
  v ← at_index (axis j) (number a - 1);
  Ok (to_float v).

(** ** JoystickInput

    What [Run] does that can be seen: the lines it logs and the calls of [RunIteration]. *)

Inductive joystick_event :=
| LogPosEdge (j button : Z)
| LogNegEdge (j button : Z)
| LogPOV (j old new : Z)
| LogBitPosEdge (bit : ControlBit)
| LogBitNegEdge (bit : ControlBit)
| RunIteration (d : Data).

(** [for (int i = 1; i <= n; ++i)] *)
Fixpoint for_from (n : nat) (i : Z) (body : Z → res (list joystick_event)) : res (list joystick_event) :=
  match n with
  | O => Ok []
  | S n => l ← body i; rest ← for_from n (i + 1) body; Ok (l ++ rest)
  end.
Definition for_to (n : Z) (body : Z → res (list joystick_event)) := for_from (Z.to_nat n) 1 body.

Definition button_events (d : Data) (j button : Z) : res (list joystick_event) :=
  let location := mkFeature j button in
  pos ← PosEdge location d;
  neg ← NegEdge location d;
  Ok ((if (pos : bool) then [LogPosEdge j button] else []) ++ (if (neg : bool) then [LogNegEdge j button] else [])).

Definition POV_events (d : Data) (j : Z) : res (list joystick_event) :=
  new ← GetPOV j d;
  old ← GetOldPOV j d;
  Ok (if negb (new =? old) then [LogPOV j old new] else []).

Definition joystick_events (d : Data) (j : Z) : res (list joystick_event) :=
  l ← for_to kButtons (button_events d j);
  p ← POV_events d j;
  Ok (l ++ p).

Definition bit_events (d : Data) (bit : ControlBit) : list joystick_event :=
  (if Bit_PosEdge bit d then [LogBitPosEdge bit] else []) ++ (if Bit_NegEdge bit d then [LogBitNegEdge bit] else []).

(** One turn of [while (true)], with the message [FetchAnother] got. *)
Definition Run_turn (new_values : JoystickState) (d : Data) : res (Data * list joystick_event) :=
  let d := Update new_values d in
  l ← for_to kJoysticks (joystick_events d);
  Ok (d, l ++ bit_events d kFmsAttached ++ bit_events d kAutonomous ++ bit_events d kEnabled ++ [RunIteration d]).

Fixpoint Run_turns (msgs : list JoystickState) (d : Data) : res (Data * list joystick_event) :=
  match msgs with
  | [] => Ok (d, [])
  | x :: msgs =>
      '(d, l) ← Run_turn x d;
      '(d, rest) ← Run_turns msgs d;
      Ok (d, l ++ rest)
  end.

Definition Run (msgs : list JoystickState) : res (Data * list joystick_event) := Run_turns msgs Data_new.
End Data.

End DriverStation.

Import DriverStation.

Section Theorems.
Context {double : Type} (d0 : double).
Abbreviation joystick_message := (@JoystickState double).
Abbreviation station := (@Data double).
Abbreviation logged_event := (@joystick_event double).

(** ** What is watched *)

Inductive key := KButton (j b : Z) | KPov (j : Z) | KBit (bit : ControlBit).

#[local] Instance key_eq_dec : EqDecision key.
Proof. solve_decision. Defined.

Definition upto (n : nat) : list Z := Z.of_nat <$> seq 1 n.
Definition watched_of (j : Z) : list key := (KButton j <$> upto 12) ++ [KPov j].
Definition watched : list key := flat_map watched_of (upto 4) ++ (KBit <$> [kFmsAttached; kAutonomous; kEnabled]).

Lemma watched_NoDup : NoDup watched.
Proof. apply (bool_decide_unpack _). vm_compute. exact I. Qed.

Definition b2z (b : bool) : Z := if b then 1 else 0.

(** The value of a key in a message. *)
Definition value (s : joystick_message) (k : key) : Z :=
  match k with
  | KButton j b => match joysticks s !! Z.to_nat (j - 1) with Some x => b2z (Z.testbit (buttons x) (b - 1)) | None => 0 end
  | KPov j => match joysticks s !! Z.to_nat (j - 1) with Some x => pov x | None => 0 end
  | KBit bit => b2z (GetControlBitValue bit s)
  end.

Definition well_formed (s : joystick_message) : Prop := length (joysticks s) = 4%nat.

(** A line of the log as a change of a key, from a value to a value. *)
Definition change (e : logged_event) : option (key * Z * Z) :=
  match e with
  | LogPosEdge j b => Some (KButton j b, 0, 1)
  | LogNegEdge j b => Some (KButton j b, 1, 0)
  | LogPOV j old new => Some (KPov j, old, new)
  | LogBitPosEdge bit => Some (KBit bit, 0, 1)
  | LogBitNegEdge bit => Some (KBit bit, 1, 0)
  | RunIteration _ => None
  end.

(** A reader of the log that starts with everything at 0; [None] when a line does not
    read_log on from what was read before. *)
Abbreviation view := (key → Z).

Definition set (v : view) (k : key) (z : Z) : view := λ k', if decide (k' = k) then z else v k'.

Fixpoint read_log (v : view) (l : list logged_event) : option view :=
  match l with
  | [] => Some v
  | e :: l =>
      match change e with
      | None => read_log v l
      | Some (k, old, new) => if bool_decide (v k = old ∧ old ≠ new) then read_log (set v k new) l else None
      end
  end.

(** ** One message *)

Lemma at_index_ok {A} (l : list A) j x : 1 ≤ j → l !! Z.to_nat (j - 1) = Some x → at_index l (j - 1) = Ok x.
Proof. intros Hj Hx. unfold at_index. rewrite (proj2 (Z.ltb_ge _ _)) by lia. by rewrite Hx. Qed.

Lemma button_bit x i : 0 ≤ i → negb (Z.land x (Z.shiftl 1 i) =? 0) = Z.testbit x i.
Proof.
  intros Hi. rewrite Z.shiftl_1_l. destruct (Z.testbit x i) eqn:E.
  - apply negb_true_iff, Z.eqb_neq. intros H. apply (f_equal (λ z, Z.testbit z i)) in H.
    rewrite Z.land_spec, Z.pow2_bits_true, E, Z.bits_0 in H by lia. done.
  - apply negb_false_iff, Z.eqb_eq. apply Z.bits_inj'. intros k Hk. rewrite Z.land_spec, Z.bits_0.
    destruct (decide (k = i)) as [->|]; [by rewrite E|]. rewrite Z.pow2_bits_false by lia. apply andb_false_r.
Qed.

Section Turn.
Context (d : station).
Hypothesis Hold : well_formed (old_values_ d).
Hypothesis Hnew : well_formed (current_values_ d).

Lemma joystick_at s j : well_formed s → 1 ≤ j ≤ 4 → ∃ x, joysticks s !! Z.to_nat (j - 1) = Some x.
Proof using. intros Hs Hj. apply lookup_lt_is_Some. rewrite Hs. lia. Qed.

Lemma GetButton_ok s j b : well_formed s → 1 ≤ j ≤ 4 → 1 ≤ b ≤ 12 →
  ∃ p, GetButton (mkFeature j b) s = Ok p ∧ value s (KButton j b) = b2z p.
Proof using.
  intros Hs Hj Hb. destruct (joystick_at s j Hs Hj) as [x Hx]. exists (Z.testbit (buttons x) (b - 1)). cbn [value]. rewrite Hx.
  split; [|done]. unfold GetButton. cbn [joystick number]. rewrite (at_index_ok _ _ _ (proj1 Hj) Hx), res_bind_Ok.
  rewrite (proj2 (Z.leb_le _ _)), (proj2 (Z.ltb_lt _ _)) by lia. cbn [andb]. by rewrite button_bit by lia.
Qed.

(** What a turn logs of a key: nothing, or the line of its change. *)
Definition logged_for (k : key) (l : list logged_event) : Prop :=
  (l = [] ∧ value (old_values_ d) k = value (current_values_ d) k) ∨
  ∃ e, l = [e] ∧ change e = Some (k, value (old_values_ d) k, value (current_values_ d) k) ∧
    value (old_values_ d) k ≠ value (current_values_ d) k.

Lemma button_events_ok j b : 1 ≤ j ≤ 4 → 1 ≤ b ≤ 12 → ∃ l, button_events d j b = Ok l ∧ logged_for (KButton j b) l.
Proof.
  intros Hj Hb. destruct (GetButton_ok _ j b Hold Hj Hb) as (p & Ep & Vp). destruct (GetButton_ok _ j b Hnew Hj Hb) as (q & Eq & Vq).
  unfold button_events, PosEdge, NegEdge. rewrite Ep, Eq, !res_bind_Ok.
  destruct p, q; cbn; eexists; (split; [reflexivity|]); unfold logged_for; rewrite Vp, Vq; cbn; eauto 10.
  all: right; eexists; split; [done|]; split; [done|lia].
Qed.

Lemma POV_events_ok j : 1 ≤ j ≤ 4 → ∃ l, POV_events d j = Ok l ∧ logged_for (KPov j) l.
Proof.
  intros Hj. destruct (joystick_at _ j Hold Hj) as [x Hx]. destruct (joystick_at _ j Hnew Hj) as [y Hy].
  unfold POV_events, GetPOV, GetOldPOV. rewrite (at_index_ok _ _ _ (proj1 Hj) Hx), (at_index_ok _ _ _ (proj1 Hj) Hy). cbn.
  eexists. split; [reflexivity|]. unfold logged_for. cbn [value]. rewrite Hx, Hy.
  destruct (Z.eqb_spec (pov y) (pov x)) as [E|E]; [by left|]. right. eexists. split; [reflexivity|]. split; [reflexivity|congruence].
Qed.

Lemma bit_events_ok bit : logged_for (KBit bit) (bit_events d bit).
Proof using.
  unfold bit_events, Bit_PosEdge, Bit_NegEdge, logged_for. cbn [value].
  destruct (GetControlBitValue bit (old_values_ d)), (GetControlBitValue bit (current_values_ d)); cbn;
    [by left| right; eexists; split; [done|]; split; [done|lia] ..|by left].
Qed.

(** What is logged of several keys, in order. *)
Inductive logged : list key → list logged_event → Prop :=
| logged_nil : logged [] []
| logged_cons k ks l rest : logged_for k l → logged ks rest → logged (k :: ks) (l ++ rest).

Lemma logged_app ks1 ks2 l1 l2 : logged ks1 l1 → logged ks2 l2 → logged (ks1 ++ ks2) (l1 ++ l2).
Proof using. induction 1 as [|k ks l rest H _ IH]; intros H2; [done|]. cbn. rewrite <-app_assoc. constructor; auto. Qed.

Lemma logged_one k l : logged_for k l → logged [k] l.
Proof using. intros H. rewrite <-(app_nil_r l). constructor; [done|constructor]. Qed.

(** A loop logs what its turns log. *)
Lemma for_from_logged n (body : Z → res (list logged_event)) (ks : Z → list key) : ∀ i,
  (∀ x, i ≤ x < i + Z.of_nat n → ∃ l, body x = Ok l ∧ logged (ks x) l) →
  ∃ l, for_from n i body = Ok l ∧ logged (flat_map ks ((λ k, i + Z.of_nat k) <$> seq 0 n)) l.
Proof using.
  induction n as [|n IH]; intros i H; cbn [for_from]; [exists []; split; [done|constructor]|].
  destruct (H i ltac:(lia)) as (l & -> & Hl). rewrite res_bind_Ok. destruct (IH (i + 1)) as (r & -> & Hr); [intros; apply H; lia|].
  rewrite res_bind_Ok. exists (l ++ r). split; [done|]. cbn [seq fmap list_fmap flat_map]. rewrite Z.add_0_r. apply logged_app; [done|].
  rewrite <-fmap_S_seq, <-list_fmap_compose. erewrite list_fmap_ext; [exact Hr|]. intros k x _. cbn. lia.
Qed.

Lemma for_to_logged n (body : Z → res (list logged_event)) (ks : Z → list key) :
  (∀ x, 1 ≤ x ≤ Z.of_nat n → ∃ l, body x = Ok l ∧ logged (ks x) l) → ∃ l, for_to (Z.of_nat n) body = Ok l ∧ logged (flat_map ks (upto n)) l.
Proof using.
  intros H. unfold for_to. rewrite Nat2Z.id. destruct (for_from_logged n body ks 1) as (l & E & Hl); [intros; apply H; lia|].
  exists l. split; [done|]. unfold upto. rewrite <-fmap_S_seq, <-list_fmap_compose. erewrite list_fmap_ext; [exact Hl|]. intros k x _. cbn. lia.
Qed.

Lemma joystick_events_logged j : 1 ≤ j ≤ 4 → ∃ l, joystick_events d j = Ok l ∧ logged (watched_of j) l.
Proof.
  intros Hj. unfold joystick_events. change kButtons with (Z.of_nat 12).
  destruct (for_to_logged 12 (button_events d j) (λ b, [KButton j b])) as (l & -> & Hl).
  { intros b Hb. destruct (button_events_ok j b) as (l & -> & Hl); [lia|lia|]. eauto using logged_one. }
  rewrite res_bind_Ok. destruct (POV_events_ok j Hj) as (p & -> & Hp). rewrite res_bind_Ok. eexists. split; [done|].
  apply (logged_app _ _ _ _ Hl (logged_one _ _ Hp)).
Qed.

Lemma turn_logged : ∃ l, for_to kJoysticks (joystick_events d) = Ok l ∧
  logged watched (l ++ bit_events d kFmsAttached ++ bit_events d kAutonomous ++ bit_events d kEnabled).
Proof.
  change kJoysticks with (Z.of_nat 4).
  destruct (for_to_logged 4 (joystick_events d) watched_of) as (l & -> & Hl); [intros j Hj; apply joystick_events_logged; lia|].
  exists l. split; [done|]. apply (logged_app _ _ _ _ Hl). cbn [fmap list_fmap].
  constructor; [apply bit_events_ok|]. constructor; [apply bit_events_ok|]. apply logged_one, bit_events_ok.
Qed.

(** A reader that knew the old values of keys knows the new ones after their lines. *)
Lemma read_logged ks l rest : logged ks l → NoDup ks → ∀ v, (∀ k, k ∈ ks → v k = value (old_values_ d) k) →
  ∃ v', read_log v (l ++ rest) = read_log v' rest ∧ (∀ k, k ∈ ks → v' k = value (current_values_ d) k) ∧ (∀ k, k ∉ ks → v' k = v k).
Proof using.
  clear d0 Hold Hnew. induction 1 as [|k ks l l' Hk _ IH]; intros Hnd v Hv.
  { exists v. split; [done|]. split; [intros k H; by apply elem_of_nil in H|done]. }
  apply NoDup_cons in Hnd as [Hk' Hnd]. rewrite <-app_assoc. destruct Hk as [[-> Hk]|(e & -> & He & Hne)].
  - destruct (IH Hnd v) as (v' & E & H1 & H2); [intros; apply Hv; set_solver|]. exists v'. split; [done|]. split.
    + intros k0 [->|Hin]%elem_of_cons; [|auto]. rewrite H2, Hv by set_solver. done.
    + intros k0 Hin. apply H2. set_solver.
  - destruct (IH Hnd (set v k (value (current_values_ d) k))) as (v' & E & H1 & H2).
    { intros k0 Hin. unfold set. rewrite decide_False by (intros ->; done). apply Hv. set_solver. }
    exists v'. cbn [app read_log]. rewrite He, bool_decide_eq_true_2 by (split; [apply Hv; set_solver|done]). split; [done|]. split.
    + intros k0 [->|Hin]%elem_of_cons; [|auto]. rewrite H2 by done. unfold set. by rewrite decide_True.
    + intros k0 Hin. rewrite H2 by set_solver. unfold set. rewrite decide_False by set_solver. done.
Qed.
End Turn.

Lemma Run_turn_ok x (d : station) v : well_formed x → well_formed (current_values_ d) →
  (∀ k, k ∈ watched → v k = value (current_values_ d) k) →
  ∃ l, Run_turn x d = Ok (Update x d, l ++ [RunIteration (Update x d)]) ∧ Forall (λ e, is_Some (change e)) l ∧
    ∀ rest, ∃ v', read_log v (l ++ rest) = read_log v' rest ∧ (∀ k, k ∈ watched → v' k = value x k).
Proof.
  intros Hx Hd Hv. unfold Run_turn. destruct (turn_logged (Update x d) Hd Hx) as (l & -> & Hl). rewrite res_bind_Ok.
  revert Hl. generalize (bit_events (Update x d) kFmsAttached), (bit_events (Update x d) kAutonomous), (bit_events (Update x d) kEnabled).
  intros b1 b2 b3 Hl. exists (l ++ b1 ++ b2 ++ b3). split; [rewrite <-!app_assoc; reflexivity|]. split.
  - clear -Hl. induction Hl as [|k ks l' r [[-> _]|(e & -> & He & _)] _ IH]; [constructor|done|]. constructor; [eauto|done].
  - intros rest. destruct (read_logged (Update x d) watched _ rest Hl watched_NoDup v Hv) as (v' & E & H1 & _). eauto.
Qed.

Definition iterations (l : list logged_event) : list station := omap (λ e, match e with RunIteration d => Some d | _ => None end) l.

Lemma iterations_logged l d : Forall (λ e, is_Some (change e)) l → iterations (l ++ [RunIteration d]) = [d].
Proof. induction 1 as [|e l [c Hc] _ IH]; [done|]. by destruct e. Qed.

Lemma iterations_app l1 l2 : iterations (l1 ++ l2) = iterations l1 ++ iterations l2.
Proof. apply omap_app. Qed.

(** What [RunIteration] is to see of messages. *)
Fixpoint updates (msgs : list joystick_message) (d : station) : list station :=
  match msgs with [] => [] | x :: msgs => Update x d :: updates msgs (Update x d) end.

Lemma Run_turns_ok msgs : ∀ (d : station) v, Forall well_formed msgs → well_formed (current_values_ d) →
  (∀ k, k ∈ watched → v k = value (current_values_ d) k) →
  ∃ d' l v', Run_turns msgs d = Ok (d', l) ∧ read_log v l = Some v' ∧ iterations l = updates msgs d ∧
    current_values_ d' = default (current_values_ d) (last msgs) ∧ ∀ k, k ∈ watched → v' k = value (current_values_ d') k.
Proof.
  induction msgs as [|x msgs IH]; intros d v HF Hd Hv; cbn [Run_turns]; [by exists d, [], v|].
  apply Forall_cons in HF as [Hx HF]. destruct (Run_turn_ok x d v Hx Hd Hv) as (l & -> & Hl & Hfo). rewrite res_bind_Ok.
  destruct (IH (Update x d) (value x) HF Hx ltac:(done)) as (d' & r & v0 & E0 & _). rewrite E0, res_bind_Ok.
  destruct (Hfo ([RunIteration (Update x d)] ++ r)) as (v1 & E1 & H1). 
  destruct (IH (Update x d) v1 HF Hx H1) as (d'' & r' & v' & E' & Ef & Ei & Ec & Hv'). rewrite E0 in E'. injection E' as <- <-.
  exists d', ((l ++ [RunIteration (Update x d)]) ++ r), v'. split_and!; [done| | | |done].
  - rewrite <-app_assoc, E1. exact Ef.
  - rewrite iterations_app, (iterations_logged l _ Hl), Ei. done.
  - rewrite Ec. cbn [current_values_ Update]. destruct msgs as [|y msgs]; [done|]. rewrite last_cons_cons. by destruct (last (y :: msgs)) eqn:E; [|apply last_None in E].
Qed.

(** [JoystickInput::Run] on any messages: no access is out of bounds; [RunIteration] is called
    once per message, with its values and those of the one before; and every logged line is a
    real change from what the lines before it said, so that a reader of the log alone knows
    at any time each of the twelve buttons, the POV of each joystick and the control bits
    except for the test mode, which is not logged. *)
Theorem joystick_log msgs : Forall well_formed msgs →
  ∃ d l v, Run d0 msgs = Ok (d, l) ∧ iterations l = updates msgs (Data_new d0) ∧
    read_log (λ _, 0) l = Some v ∧ ∀ k, k ∈ watched → v k = value (default (no_values d0) (last msgs)) k.
Proof.
  intros HF. destruct (Run_turns_ok msgs (Data_new d0) (λ _, 0) HF) as (d & l & v & E & Ef & Ei & Ec & Hv).
  - reflexivity.
  - intros k Hk. clear -Hk. apply list_elem_of_lookup in Hk as [i Hi].
    assert (Forall (λ k, 0 = value (no_values d0) k) watched) as HA by (repeat constructor).
    rewrite Forall_lookup in HA. eapply HA, Hi.
  - exists d, l, v. split_and!; [done|done|done|]. intros k Hk. rewrite (Hv k Hk), Ec. done.
Qed.
End Theorems.
