(* ===== verification/Controls.v ===== *)
(** * Control loops: aos/common/controls/control_loop.h, control_loop-tmpl.h, util/log_interval.h

    A control loop waits for a position, looks at the newest goal, robot state and joystick
    packet, decides whether the motors may be driven, lets the subclass compute, and sends
    an output and a status.  The queues are used through the description that the typed
    queues are shown to satisfy (TypedTheorems).  All other processes are a [schedule]: what
    they send, and what the clock shows, before each of the loop's operations. *)

From stdpp Require Import functions.
From S2P Require Import Prelude SharedMem ByteOrder QueueTypes Time TypedQueue TypedQueueProofs Double Joystick.
Import DriverStation.

Module Controls.

Record RobotState := mkRobot {
  reader_pid : Z; outputs_enabled : bool; browned_out : bool; is_3v3_active : bool; is_5v_active : bool;
  voltage_3v3 : double; voltage_5v : double; voltage_roborio_in : double; voltage_battery : double }.

Abbreviation joystick_packet := (Message (@JoystickState double)).
Abbreviation robot_packet := (Message RobotState).

(** ** SimpleLogInterval *)

(** [context_]: whether it is not NULL. *)
Record SimpleLogInterval := mkSimple { interval_ : LogInterval; context_ : bool }.

(** The five of a loop. *)
Inductive which := no_driver_station_ | driver_station_old_ | no_sensor_state_ | motors_off_log_ | no_goal_.

#[global] Instance which_eq_dec : EqDecision which.
Proof. solve_decision. Defined.

(** [InSeconds(0.1)], [InMS(100)] *)
Definition kStaleLogInterval : Time := mkTime 0 100000000.
Definition kPwmDisableTime : Time := mkTime 0 100000000.
Definition kDSPacketTimeoutMs : Z := 500.

Section ControlLoop.
(** Goals, positions, outputs and statuses, and what a subclass keeps. *)
Context {GoalType PositionType OutputType StatusType X : Type} (zero_output : OutputType) (zero_status : StatusType) (position_length : Z).

(** The overridable [Zero], and [RunIteration]: from the subclass's state, [reset_] (which
    [WasReset] reads and clears), the goal, the position, the output (unless it is NULL) and
    the status, to what they are afterwards (the output does not matter if it was NULL). *)
Context (Zero : OutputType → OutputType).
Context (RunIteration : X → bool → option (Message GoalType) → Message PositionType → option OutputType → StatusType → X * bool * OutputType * StatusType).

Inductive log_line :=
| LPosition (position : Message PositionType)
| LGoal (goal : Message GoalType)
| LNewReader (new old : Z)
| LEnabledWhileDisabled
| LDisabledWhileEnabled
| LOutput (output : OutputType)
| LStatus (status : StatusType)
| LTimes (w : which) (times : Z).

(** What others do between two operations of the loop. *)
Record env := mkEnv {
  e_positions : list (Message PositionType); e_goals : list (Message GoalType); e_robot : list robot_packet;
  e_joystick : list joystick_packet; e_clock : Time }.

Record shared := mkShared {
  positions : list (Message PositionType); goals : list (Message GoalType);
  robot_states : list robot_packet; joystick_states : list joystick_packet;
  outputs : list (Message OutputType); statuses : list (Message StatusType);
  clock : Time; schedule : list env }.

(** The queue objects of this process. *)
Record objects := mkObjects {
  position_o : view (Message PositionType); goal_o : view (Message GoalType);
  robot_state_o : view robot_packet; joystick_state_o : view joystick_packet }.

Record ControlLoop := mkLoop {
  reset_ : bool; sensor_reader_pid_ : Z; last_pwm_sent_ : Time;
  intervals : which → SimpleLogInterval; subclass : X }.

Record system := mkSystem { world : shared; seen : objects; this : ControlLoop; logged : list log_line }.

Notation MS := (ST system).

Definition set_world (f : shared → shared) (s : system) : system := mkSystem (f (world s)) (seen s) (this s) (logged s).
Definition set_seen (o : objects) (s : system) : system := mkSystem (world s) o (this s) (logged s).
Definition set_this (f : ControlLoop → ControlLoop) (s : system) : system := mkSystem (world s) (seen s) (f (this s)) (logged s).

Definition ControlLoop_new (x : X) : ControlLoop :=
  mkLoop false 0 (mkTime 0 0) (λ _, mkSimple (LogInterval_new kStaleLogInterval) false) x.

(** [LOG] and [LOG_STRUCT] *)
Definition LOG (l : log_line) : MS unit := st_modify (λ s, mkSystem (world s) (seen s) (this s) (logged s ++ [l])).

(** ** The others *)

Definition step_env (w : shared) : shared :=
  match schedule w with
  | [] => w
  | e :: rest =>
      mkShared (positions w ++ e_positions e) (goals w ++ e_goals e) (robot_states w ++ e_robot e)
        (joystick_states w ++ e_joystick e) (outputs w) (statuses w) (e_clock e) rest
  end.

Definition others : MS unit := st_modify (set_world step_env).

Definition Now : MS Time := _ ← others; s ← st_get; mret (clock (world s)).

(** ** Queues *)

Record queue_of (V : Type) := mkQueueOf {
  sent_on : shared → list (Message V);
  seen_of : objects → view (Message V);
  set_seen_of : view (Message V) → objects → objects }.
Arguments sent_on {V} _ _.
Arguments seen_of {V} _ _.
Arguments set_seen_of {V} _ _ _.

Definition position : queue_of PositionType :=
  mkQueueOf PositionType positions position_o (λ v o, mkObjects v (goal_o o) (robot_state_o o) (joystick_state_o o)).
Definition goal : queue_of GoalType :=
  mkQueueOf GoalType goals goal_o (λ v o, mkObjects (position_o o) v (robot_state_o o) (joystick_state_o o)).
Definition robot_state : queue_of RobotState :=
  mkQueueOf _ robot_states robot_state_o (λ v o, mkObjects (position_o o) (goal_o o) v (joystick_state_o o)).
Definition joystick_state : queue_of (@JoystickState double) :=
  mkQueueOf _ joystick_states joystick_state_o (λ v o, mkObjects (position_o o) (goal_o o) (robot_state_o o) v).

Definition show {V} (q : queue_of V) (v : view (Message V)) : MS unit := st_modify (λ s, set_seen (set_seen_of q v (seen s)) s).

Definition get {V} (q : queue_of V) : MS (option (Message V)) := s ← st_get; mret (v_value (seen_of q (seen s))).

Definition FetchLatest {V} (q : queue_of V) : MS bool :=
  _ ← others;
  s ← st_get;
  let '(b, v) := spec_latest (sent_on q (world s)) (seen_of q (seen s)) in
  _ ← show q v; mret b.

(** It waits for at most [n] turns of the others; [false] if nothing came. *)
Fixpoint FetchNextBlocking {V} (cap : Z) (q : queue_of V) (n : nat) : MS bool :=
  s ← st_get;
  let '(b, v) := spec_next cap (sent_on q (world s)) (seen_of q (seen s)) in
  if b then _ ← show q v; mret true
  else match n with
       | O => mret false
       | S n => _ ← others; FetchNextBlocking cap q n
       end.

(** [false]: nothing comes for as long as the schedule says anything about. *)
Definition FetchAnother {V} (cap : Z) (q : queue_of V) : MS bool :=
  b ← FetchLatest q;
  if (b : bool) then mret true else s ← st_get; FetchNextBlocking cap q (length (schedule (world s))).

Definition IsNewerThanMS {V} (q : queue_of V) (age : Z) : MS bool :=
  limit ← st_lift (InMS age);
  m ← get q;
  match m with
  | None => mret false
  | Some m => now ← Now; d ← st_lift (Time_sub now (sent_time m)); mret (Time_ltb d limit)
  end.

(** [Send] of a message that [MakeMessage] gave. *)
Definition send_output (o : OutputType) : MS unit :=
  now ← Now;
  st_modify (set_world (λ w, mkShared (positions w) (goals w) (robot_states w) (joystick_states w)
    (outputs w ++ [mkMessage now o]) (statuses w) (clock w) (schedule w))).
Definition send_status (x : StatusType) : MS unit :=
  now ← Now;
  st_modify (set_world (λ w, mkShared (positions w) (goals w) (robot_states w) (joystick_states w)
    (outputs w) (statuses w ++ [mkMessage now x]) (clock w) (schedule w))).
Definition send_goal (g : GoalType) : MS unit :=
  now ← Now;
  st_modify (set_world (λ w, mkShared (positions w) (goals w ++ [mkMessage now g]) (robot_states w) (joystick_states w)
    (outputs w) (statuses w) (clock w) (schedule w))).

(** ** Occasional messages *)

Definition set_interval (w : which) (x : SimpleLogInterval) : MS unit :=
  st_modify (set_this (λ l, mkLoop (reset_ l) (sensor_reader_pid_ l) (last_pwm_sent_ l) (<[w := x]> (intervals l)) (subclass l))).

(** The macro [LOG_INTERVAL]: [SimpleLogInterval::WantToLog]; the clock is read for the first
    one only. *)
Definition LOG_INTERVAL (w : which) : MS unit :=
  s ← st_get;
  let x := intervals (this s) w in
  now ← (if count_ (interval_ x) =? 0 then Now else mret (last_done_ (interval_ x)));
  i ← st_lift (WantToLog (interval_ x) now);
  set_interval w (mkSimple i true).

Definition PrintInterval (w : which) : MS unit :=
  s ← st_get;
  let x := intervals (this s) w in
  now ← Now;
  '(r, i) ← st_lift (ShouldLog (interval_ x) now);
  if (r : bool) then
    if context_ x then
      let '(times, i) := Count i in
      _ ← LOG (LTimes w times);
      set_interval w (mkSimple i false)
    else st_stop Fatal
  else set_interval w (mkSimple i (context_ x)).

(** ** The loop *)

Definition WasReset : MS bool :=
  s ← st_get;
  if reset_ (this s)
  then _ ← st_modify (set_this (λ l, mkLoop false (sensor_reader_pid_ l) (last_pwm_sent_ l) (intervals l) (subclass l))); mret true
  else mret false.

Definition ZeroOutputs : MS unit := send_output (Zero zero_output).

Definition set_last_pwm (t : Time) : MS unit :=
  st_modify (set_this (λ l, mkLoop (reset_ l) (sensor_reader_pid_ l) t (intervals l) (subclass l))).

Definition check_reader (robot : robot_packet) : MS unit :=
  s ← st_get;
  if negb (sensor_reader_pid_ (this s) =? reader_pid (body robot)) then
    _ ← LOG (LNewReader (reader_pid (body robot)) (sensor_reader_pid_ (this s)));
    st_modify (set_this (λ l, mkLoop true (reader_pid (body robot)) (last_pwm_sent_ l) (intervals l) (subclass l)))
  else mret tt.

(** [joystick_state->enabled] *)
Definition joystick_enabled : MS bool :=
  m ← get joystick_state;
  match m with Some m => mret (enabled (body m)) | None => st_stop Undefined end.

(** "Check to see if we got a driver station packet recently." *)
Definition driver_station (robot : robot_packet) : MS bool :=
  new ← FetchLatest joystick_state;
  if (new : bool) then
    en ← joystick_enabled;
    _ ← (if outputs_enabled (body robot)
         then if (en : bool) then set_last_pwm (sent_time robot) else LOG LEnabledWhileDisabled
         else if (en : bool) then LOG LDisabledWhileEnabled else mret tt);
    mret en
  else
    newer ← IsNewerThanMS joystick_state kDSPacketTimeoutMs;
    if (newer : bool) then joystick_enabled
    else
      m ← get joystick_state;
      _ ← (match m with Some _ => LOG_INTERVAL driver_station_old_ | None => LOG_INTERVAL no_driver_station_ end);
      mret false.

(** The motors are considered off some time after the last pulse. *)
Definition motors_check (en : bool) : MS bool :=
  now ← Now;
  s ← st_get;
  d ← st_lift (Time_sub now (last_pwm_sent_ (this s)));
  if Time_geb d kPwmDisableTime then
    m ← get joystick_state;
    _ ← (match m with Some m => if enabled (body m) then LOG_INTERVAL motors_off_log_ else mret tt | None => mret tt end);
    mret false
  else mret en.

Definition run_iteration (goal : option (Message GoalType)) (position : Message PositionType) (output : option OutputType) : MS (OutputType * StatusType) :=
  s ← st_get;
  let '(x, r, o, st) := RunIteration (subclass (this s)) (reset_ (this s)) goal position output zero_status in
  _ ← st_modify (set_this (λ l, mkLoop r (sensor_reader_pid_ l) (last_pwm_sent_ l) (intervals l) x));
  mret (o, st).

(** With an output message, or with NULL and then [ZeroOutputs]. *)
Definition compute (en : bool) (goal : option (Message GoalType)) (position : Message PositionType) : MS unit :=
  st ← (if en then
          '(o, st) ← run_iteration goal position (Some zero_output);
          _ ← LOG (LOutput o);
          _ ← send_output o;
          mret st
        else
          '(_, st) ← run_iteration goal position None;
          _ ← ZeroOutputs;
          mret st);
  _ ← LOG (LStatus st);
  send_status st.

(** [false]: it waits for a position that does not come.  [MakeMessage] asserts that it got
    a message, so that the status is never NULL. *)
Definition Iterate : MS bool :=
  _ ← PrintInterval no_goal_;
  _ ← PrintInterval driver_station_old_;
  _ ← PrintInterval no_sensor_state_;
  _ ← PrintInterval no_driver_station_;
  _ ← PrintInterval motors_off_log_;
  got ← FetchAnother position_length position;
  if negb got then mret false
  else
    p ← get position;
    p ← st_lift (of_option Undefined p);
    _ ← LOG (LPosition p);
    _ ← FetchLatest goal;
    g ← get goal;
    _ ← (match g with Some g => LOG (LGoal g) | None => LOG_INTERVAL no_goal_ end);
    _ ← FetchLatest robot_state;
    robot ← get robot_state;
    match robot with
    | None => _ ← LOG_INTERVAL no_sensor_state_; mret true
    | Some robot =>
        _ ← check_reader robot;
        en ← driver_station robot;
        en ← motors_check en;
        _ ← compute en g p;
        mret true
    end.

(** [while (true)], until it waits for ever or for [n] turns. *)
Fixpoint Run (n : nat) : MS unit :=
  match n with
  | O => st_stop Fuel
  | S n => go ← Iterate; if (go : bool) then Run n else mret tt
  end.

(** ** Over the network *)

(** The generated [Serialize] and [Deserialize] of the goal's class. *)
Context (goal_Size : Z) (goal_Serialize : GoalType → bytes → res bytes) (goal_Deserialize : bytes → GoalType → res GoalType) (zero_goal : GoalType).

(** [goal->]: the object shows nothing before the first fetch. *)
Definition Serialize (buffer : bytes) : MS bytes :=
  g ← get goal;
  match g with Some g => st_lift (goal_Serialize (body g) buffer) | None => st_stop Undefined end.

Definition SerializeZeroMessage (buffer : bytes) : MS bytes := st_lift (goal_Serialize zero_goal buffer).

Definition Deserialize (buffer : bytes) : MS unit := g ← st_lift (goal_Deserialize buffer zero_goal); send_goal g.
End ControlLoop.

Arguments sent_on {GoalType PositionType OutputType StatusType V} _ _.
Arguments seen_of {GoalType PositionType OutputType StatusType V} _ _.
Arguments set_seen_of {GoalType PositionType OutputType StatusType V} _ _ _.
End Controls.
