(* ===== verification/ControlTheorems.v ===== *)
(** * When a control loop drives the motors *)

From stdpp Require Import functions.
From S2P Require Import Prelude SharedMem ByteOrder QueueTypes Time TimeProofs TypedQueue TypedQueueProofs Double.
From S2P Require Import Joystick Controls.
Import DriverStation Controls.

(** ** Times whose differences are times *)

Definition good (t : Time) : Prop := valid t ∧ 0 ≤ ToNSec t < (2 ^ 31 - 1) * G.

Lemma good_small sec nsec : 0 ≤ sec < 2 ^ 31 - 1 → 0 ≤ nsec < G → good (mkTime sec nsec).
Proof. intros. split; [split; [unfold in_signed; cbn; lia|done]|unfold ToNSec, kNSecInSec; cbn; lia]. Qed.

Lemma good_zero : good (mkTime 0 0).
Proof. apply good_small; lia. Qed.

Lemma good_sub a b : good a → good b → Time_sub a b = Ok (of_ns (ToNSec a - ToNSec b)).
Proof. intros [Va Ha] [Vb Hb]. apply sub_eq; [done..|unfold roomy; lia]. Qed.

Lemma good_diff a b : good a → good b → valid (of_ns (ToNSec a - ToNSec b)).
Proof. intros [Va Ha] [Vb Hb]. apply of_ns_valid. unfold roomy. lia. Qed.

Section Loop.
Context {GoalType PositionType OutputType StatusType X : Type}.
Context (zero_output : OutputType) (zero_status : StatusType) (position_length : Z) (Zero : OutputType → OutputType).
Context (RunIteration : X → bool → option (Message GoalType) → Message PositionType → option OutputType → StatusType →
  X * bool * OutputType * StatusType).

Notation system := (@Controls.system GoalType PositionType OutputType StatusType X).
Notation shared := (@Controls.shared GoalType PositionType OutputType StatusType).
Notation queue_of := (@Controls.queue_of GoalType PositionType OutputType StatusType).
Notation env := (@Controls.env GoalType PositionType).
Implicit Types (s : system) (w : shared) (k : Z).

(** ** What others may do *)

(** Their messages carry proper times, and the clock does not go back. *)
Definition good_env (now : Time) (e : env) : Prop :=
  Forall (λ m, good (sent_time m)) (e_robot e) ∧ Forall (λ m, good (sent_time m)) (e_joystick e) ∧
  good (e_clock e) ∧ ToNSec now ≤ ToNSec (e_clock e).

Fixpoint good_schedule (now : Time) (l : list env) : Prop :=
  match l with [] => True | e :: l => good_env now e ∧ good_schedule (e_clock e) l end.

Record good_world w : Prop := {
  gw_clock : good (clock w);
  gw_schedule : good_schedule (clock w) (schedule w);
  gw_robot : Forall (λ m, good (sent_time m)) (robot_states w);
  gw_joystick : Forall (λ m, good (sent_time m)) (joystick_states w) }.

(** All positions there will ever be. *)
Definition total_positions w : nat := length (positions w) + sum_list_with (λ e, length (e_positions e)) (schedule w).

(** Time passes: queues grow, but for the loop's own. *)
Record later w w' : Prop := {
  lt_positions : positions w `prefix_of` positions w';
  lt_goals : goals w `prefix_of` goals w';
  lt_robot : robot_states w `prefix_of` robot_states w';
  lt_joystick : joystick_states w `prefix_of` joystick_states w';
  lt_outputs : outputs w' = outputs w;
  lt_statuses : statuses w' = statuses w;
  lt_clock : ToNSec (clock w) ≤ ToNSec (clock w');
  lt_total : total_positions w' = total_positions w }.

#[local] Instance later_preorder : PreOrder later.
Proof.
  split.
  - intros w. by split.
  - intros w1 w2 w3 [] []. split; try (by etrans); congruence.
Qed.

Lemma later_step w : good_world w → later w (step_env w).
Proof.
  intros [_ Hs _ _]. unfold step_env. destruct (schedule w) as [|e l] eqn:E; [done|]. destruct Hs as [(_ & _ & _ & ?) _].
  split; cbn; try apply prefix_app_r; try done. unfold total_positions. cbn. rewrite E. cbn. rewrite length_app. lia.
Qed.

Lemma good_step w : good_world w → good_world (step_env w).
Proof.
  intros [Hc Hs Hr Hj]. unfold step_env. destruct (schedule w) as [|e l] eqn:E; [split; [done|by rewrite E|done|done]|].
  destruct Hs as [(? & ? & ? & ?) ?]. split; cbn; [done|done|by apply Forall_app..].
Qed.

(** ** The invariant *)

Definition view_ok {V} (sent : list V) (v : view V) : Prop :=
  0 ≤ v_index v ≤ Z.of_nat (length sent) ∧
  ∀ m, v_value v = Some m → 1 ≤ v_index v ∧ sent !! Z.to_nat (v_index v - 1) = Some m.

Lemma view_ok_later {V} (l l' : list V) v : l `prefix_of` l' → view_ok l v → view_ok l' v.
Proof.
  intros [k ->] [Hi Hv]. split; [rewrite length_app; lia|]. intros m Hm. destruct (Hv m Hm) as [H1 H2]. split; [done|].
  by apply lookup_app_l_Some.
Qed.

Lemma view_ok_in {V} (l : list V) v m : view_ok l v → v_value v = Some m → m ∈ l.
Proof. intros [_ Hv] Hm. by eapply list_elem_of_lookup_2, Hv. Qed.

Lemma spec_latest_ok {V} (l : list V) v b v' : view_ok l v → spec_latest l v = (b, v') →
  view_ok l v' ∧ v_index v ≤ v_index v' ∧ (b = true → v_index v < v_index v' ∧ is_Some (v_value v')) ∧ (b = false → v' = v).
Proof.
  intros Hv. unfold spec_latest. destruct (Z.leb_spec (Z.of_nat (length l)) (v_index v)); intros [= <- <-]; [done|].
  destruct Hv as [Hi _]. destruct (last l) as [m|] eqn:E.
  2:{ apply last_None in E as ->. cbn in *. lia. }
  split_and!; cbn; [|lia|eauto|done]. split; [cbn; lia|]. cbn. intros m' [= <-]. split; [lia|].
  rewrite last_lookup in E. rewrite <-E. f_equal. lia.
Qed.

Lemma spec_next_ok {V} cap (l : list V) v b v' : 1 ≤ cap → view_ok l v → spec_next cap l v = (b, v') →
  view_ok l v' ∧ (b = true → v_index v < v_index v' ∧ is_Some (v_value v')) ∧ (b = false → v' = v).
Proof.
  intros Hc Hv. unfold spec_next. destruct (Z.leb_spec (Z.of_nat (length l)) (v_index v)); intros [= <- <-]; [done|].
  destruct Hv as [Hi _]. set (n := Z.max (v_index v) (Z.of_nat (length l) - cap)).
  destruct (lookup_lt_is_Some_2 l (Z.to_nat n)) as [m Hm]; [lia|]. split_and!; cbn; [|intros _; split; [lia|by rewrite Hm]|done].
  split; [cbn; lia|]. cbn. intros m' Hm'. split; [lia|]. by replace (n + 1 - 1) with n by lia.
Qed.

(** An interval that has something to print knows where it comes from. *)
Record interval_ok k (x : SimpleLogInterval) : Prop := {
  io_count : 0 ≤ count_ (interval_ x) ≤ k;
  io_last : good (last_done_ (interval_ x));
  io_interval : li_interval (interval_ x) = kStaleLogInterval;
  io_context : 0 < count_ (interval_ x) → context_ x = true }.

Definition pwm_ok w (t : Time) : Prop :=
  t = mkTime 0 0 ∨ ∃ r, r ∈ robot_states w ∧ outputs_enabled (body r) = true ∧ sent_time r = t.

Record inv k s : Prop := {
  iv_world : good_world (world s);
  iv_position : view_ok (positions (world s)) (position_o (seen s));
  iv_goal : view_ok (goals (world s)) (goal_o (seen s));
  iv_robot : view_ok (robot_states (world s)) (robot_state_o (seen s));
  iv_joystick : view_ok (joystick_states (world s)) (joystick_state_o (seen s));
  iv_intervals : ∀ x, interval_ok k (intervals (this s) x);
  iv_pwm : pwm_ok (world s) (last_pwm_sent_ (this s)) }.

(** What matters of the loop itself. *)
Definition core (l : @ControlLoop X) : bool * Z * Time * X := (reset_ l, sensor_reader_pid_ l, last_pwm_sent_ l, subclass l).

(** Only time has passed and something may have been logged. *)
Record same s s' : Prop := {
  sm_later : later (world s) (world s');
  sm_seen : seen s' = seen s;
  sm_core : core (this s') = core (this s) }.

#[local] Instance same_preorder : PreOrder same.
Proof.
  split.
  - intros s. by split.
  - intros s1 s2 s3 [] []. split; [by etrans|congruence..].
Qed.

Lemma pwm_ok_later w w' t : later w w' → pwm_ok w t → pwm_ok w' t.
Proof.
  intros L [->|(r & Hr & ? & ?)]; [by left|]. right. exists r. split_and!; try done.
  destruct (lt_robot _ _ L) as [l ->]. set_solver.
Qed.

Lemma pwm_ok_good w t : good_world w → pwm_ok w t → good t.
Proof.
  intros [_ _ Hr _] [->|(r & Hin & _ & <-)]; [apply good_zero|]. rewrite Forall_forall in Hr. by apply Hr.
Qed.

Lemma inv_same k k' s s' : inv k s → same s s' → good_world (world s') → (∀ x, interval_ok k' (intervals (this s') x)) → inv k' s'.
Proof.
  intros [] [L Es Ec] Hw Hi. injection Ec as ? ? Ep ?.
  split; rewrite ?Es, ?Ep; try done; try (by eapply view_ok_later; [apply L|]). by eapply pwm_ok_later.
Qed.

(** ** Steps that only take time *)

Lemma wp_others k s (Q : unit → system → Prop) :
  inv k s → (∀ s', same s s' → inv k s' → logged s' = logged s → Q tt s') → wp others Q s.
Proof.
  intros I HQ. unfold others. apply wp_modify. pose proof (iv_world _ _ I) as Hw.
  assert (same s (set_world step_env s)) by (split; [by apply later_step|done..]).
  apply HQ; [done| |done]. eapply inv_same; [done|done|by apply good_step|apply I].
Qed.

Lemma wp_Now k s (Q : Time → system → Prop) :
  inv k s → (∀ s', same s s' → inv k s' → Q (clock (world s')) s') → wp Now Q s.
Proof. intros I HQ. unfold Now. apply wp_bind, (wp_others k); [done|]. intros s' S' I' _. by apply HQ. Qed.

Lemma wp_LOG k s l (Q : unit → system → Prop) : inv k s → (∀ s', same s s' → inv k s' → Q tt s') → wp (LOG l) Q s.
Proof.
  intros I HQ. apply wp_modify, HQ; [by split|]. eapply inv_same; [exact I|by split|apply I|apply I].
Qed.

Lemma wp_shown {V} (q : queue_of V) s (Q : option (Message V) → system → Prop) :
  Q (v_value (seen_of q (seen s))) s → wp (get q) Q s.
Proof. done. Qed.

Lemma interval_ok_mono k k' x : k ≤ k' → interval_ok k x → interval_ok k' x.
Proof. intros Hk []. split; try done. lia. Qed.

Lemma inv_mono k k' s : k ≤ k' → inv k s → inv k' s.
Proof. intros Hk []. split; try done. intros x. by eapply interval_ok_mono. Qed.

Lemma wp_set_interval k x i s (Q : unit → system → Prop) :
  inv k s → interval_ok k i → (∀ s', same s s' → inv k s' → Q tt s') → wp (set_interval x i) Q s.
Proof.
  intros I Hi HQ. apply wp_modify, HQ; [by split|]. eapply inv_same; [exact I|by split|apply I|].
  intros y. cbn. destruct (decide (y = x)) as [->|Hne]; [by rewrite fn_lookup_insert|].
  rewrite fn_lookup_insert_ne by done. apply I.
Qed.

Lemma wp_LOG_INTERVAL k x s (Q : unit → system → Prop) : 0 ≤ k < 2 ^ 31 - 1 →
  inv k s → (∀ s', same s s' → inv (k + 1) s' → Q tt s') → wp (LOG_INTERVAL x) Q s.
Proof.
  intros Hk I HQ. unfold LOG_INTERVAL. apply wp_bind, wp_get.
  set (y := intervals (this s) x). destruct (iv_intervals _ _ I x) as [Hc Hl Hi Hx]. fold y in Hc, Hl, Hi, Hx.
  assert (Hgo : ∀ now s1, same s s1 → inv k s1 → (count_ (interval_ y) = 0 → good now) →
    wp (i ← st_lift (WantToLog (interval_ y) now); set_interval x (mkSimple i true)) Q s1).
  { intros now s1 S1 I1 Hn. apply wp_bind. eapply wp_lift.
    { unfold WantToLog. rewrite (chk_ok 32) by (unfold in_signed; cbn; lia). reflexivity. }
    eapply (wp_set_interval (k + 1)); [eapply inv_mono; [|done]; lia| |].
    - split; cbn; [lia| |done|done]. destruct (Z.eqb_spec (count_ (interval_ y)) 0); auto.
    - intros s2 S2 I2. apply HQ; [by etrans|done]. }
  apply wp_bind. destruct (Z.eqb_spec (count_ (interval_ y)) 0).
  - apply (wp_Now k); [done|]. intros s1 S1 I1. apply Hgo; [done|done|intros _; apply I1].
  - apply wp_ret, Hgo; [done|done|done].
Qed.

(** Printing never fails: a count comes with its context. *)
Lemma wp_PrintInterval k x s (Q : unit → system → Prop) : 0 ≤ k →
  inv k s → (∀ s', same s s' → inv k s' → Q tt s') → wp (PrintInterval x) Q s.
Proof.
  intros Hk I HQ. unfold PrintInterval. apply wp_bind, wp_get.
  set (y := intervals (this s) x). destruct (iv_intervals _ _ I x) as [Hc Hl Hi Hx]. fold y in Hc, Hl, Hi, Hx.
  apply wp_bind, (wp_Now k); [done|]. intros s1 S1 I1. pose proof (gw_clock _ (iv_world _ _ I1)) as Hg.
  apply wp_bind. eapply wp_lift. { unfold ShouldLog. rewrite good_sub by done. reflexivity. }
  cbn beta iota. destruct (Time_geb _ _ && (0 <? count_ (interval_ y))) eqn:E.
  - apply andb_true_iff in E as [_ E%Z.ltb_lt]. rewrite (Hx E). cbn [Count]. apply wp_bind, (wp_LOG k); [done|]. intros s2 S2 I2.
    eapply (wp_set_interval k); [done| |].
    + split; cbn; [lia|done|done|lia].
    + intros s3 S3 I3. apply HQ; [by do 2 (etrans; [done|])|done].
  - eapply (wp_set_interval k); [done|by split|]. intros s2 S2 I2. apply HQ; [by etrans|done].
Qed.

(** ** Fetching *)

(** What the proofs need of each of the four queues. *)
Record lawful {V} (q : queue_of V) : Prop := {
  lw_get : ∀ v o, seen_of q (set_seen_of q v o) = v;
  lw_same : ∀ o, set_seen_of q (seen_of q o) o = o;
  lw_later : ∀ w w', later w w' → sent_on q w `prefix_of` sent_on q w';
  lw_view : ∀ k s, inv k s → view_ok (sent_on q (world s)) (seen_of q (seen s));
  lw_set : ∀ k s v, inv k s → view_ok (sent_on q (world s)) v → inv k (set_seen (set_seen_of q v (seen s)) s) }.

Ltac lawful := split; [done|by intros []|by intros ?? []|by intros ?? []|intros ??? [] ?; by split].

Lemma lawful_position : lawful position.
Proof. lawful. Qed.
Lemma lawful_goal : lawful goal.
Proof. lawful. Qed.
Lemma lawful_robot_state : lawful robot_state.
Proof. lawful. Qed.
Lemma lawful_joystick_state : lawful joystick_state.
Proof. lawful. Qed.

(** One queue object has moved on, and time has passed. *)
Record fetched {V} (q : queue_of V) (b : bool) s s' : Prop := {
  ft_later : later (world s) (world s');
  ft_core : core (this s') = core (this s);
  ft_seen : ∃ v, seen s' = set_seen_of q v (seen s);
  ft_index : v_index (seen_of q (seen s)) ≤ v_index (seen_of q (seen s'));
  ft_new : b = true → v_index (seen_of q (seen s)) < v_index (seen_of q (seen s')) ∧ is_Some (v_value (seen_of q (seen s')));
  ft_old : b = false → seen_of q (seen s') = seen_of q (seen s) }.

Lemma wp_latest_of {V} (q : queue_of V) k s (Q : bool → system → Prop) : lawful q → inv k s →
  (∀ b s', fetched q b s s' → inv k s' → Q b s') → wp (FetchLatest q) Q s.
Proof.
  intros L I HQ. unfold FetchLatest. apply wp_bind, (wp_others k); [done|]. intros s1 S1 I1 _. apply wp_bind, wp_get.
  destruct (spec_latest (sent_on q (world s1)) (seen_of q (seen s1))) as [b v] eqn:E.
  destruct (spec_latest_ok _ _ _ _ (lw_view q L _ _ I1) E) as (Hv & Hi & Hb & Hf). rewrite (sm_seen _ _ S1) in Hi, Hb, Hf.
  apply wp_bind, wp_modify, wp_ret, HQ; [|by apply L].
  split; cbn; rewrite ?(sm_seen _ _ S1), ?(lw_get _ L); try done; [apply S1|apply S1|by exists v].
Qed.

Lemma wp_FetchNextBlocking {V} cap (q : queue_of V) n : 1 ≤ cap → lawful q → ∀ k s (Q : bool → system → Prop), inv k s →
  (∀ b s', fetched q b s s' → inv k s' → Q b s') → wp (FetchNextBlocking cap q n) Q s.
Proof.
  intros Hc L. induction n as [|n IH]; intros k s Q I HQ; cbn [FetchNextBlocking]; apply wp_bind, wp_get;
    destruct (spec_next cap (sent_on q (world s)) (seen_of q (seen s))) as [b v] eqn:E;
    destruct (spec_next_ok _ _ _ _ _ Hc (lw_view q L _ _ I) E) as (Hv & Hb & Hf);
    (destruct b;
      [apply wp_bind, wp_modify, wp_ret, HQ; [|by apply L];
       split; cbn; rewrite ?(lw_get _ L); try done; [by exists v|destruct (Hb eq_refl); lia]|]).
  - apply wp_ret, HQ; [|done]. split; try done. exists v. by rewrite (Hf eq_refl), (lw_same _ L).
  - apply wp_bind, (wp_others k); [done|]. intros s1 S1 I1 _. apply (IH k); [done|]. intros b s2 F2 I2. apply HQ; [|done].
    destruct F2 as [F1 F3 [v' F4] F5 F6 F7]. destruct S1 as [S1 S2 S3].
    split; rewrite ?S2 in *; [by etrans|congruence|by exists v'|done..].
Qed.

Lemma fetched_trans {V} (q : queue_of V) s1 s2 s3 b : lawful q →
  fetched q false s1 s2 → fetched q b s2 s3 → fetched q b s1 s3.
Proof.
  intros L [A1 A2 [v A3] A4 A5 A6] [B1 B2 [v' B3] B4 B5 B6]. specialize (A6 eq_refl).
  assert (seen s2 = seen s1) as E by (rewrite A3, (lw_get _ L) in A6; rewrite A3, A6; apply L).
  split; rewrite ?E in *; [by etrans|congruence|by exists v'|done..].
Qed.

Lemma wp_FetchAnother {V} cap (q : queue_of V) k s (Q : bool → system → Prop) : 1 ≤ cap → lawful q → inv k s →
  (∀ b s', fetched q b s s' → inv k s' → Q b s') → wp (FetchAnother cap q) Q s.
Proof.
  intros Hc L I HQ. unfold FetchAnother. apply wp_bind, (wp_latest_of q k); [done..|]. intros [] s1 F1 I1; [by apply wp_ret, HQ|].
  apply wp_bind, wp_get, (wp_FetchNextBlocking cap q _ Hc L k); [done|]. intros b s2 F2 I2. apply HQ; [|done].
  by eapply fetched_trans.
Qed.

(** ** One turn *)

Definition reader_changed (robot : robot_packet) (pid : Z) : bool := negb (pid =? reader_pid (body robot)).

Lemma wp_check_reader robot k s (Q : unit → system → Prop) : inv k s →
  (∀ s', later (world s) (world s') → seen s' = seen s → inv k s' →
     core (this s') = (reader_changed robot (sensor_reader_pid_ (this s)) || reset_ (this s), reader_pid (body robot),
                       last_pwm_sent_ (this s), subclass (this s)) → Q tt s') →
  wp (check_reader robot) Q s.
Proof.
  intros I HQ. unfold check_reader, reader_changed in *. apply wp_bind, wp_get.
  destruct (Z.eqb_spec (sensor_reader_pid_ (this s)) (reader_pid (body robot))) as [E|E]; cbn [negb] in *.
  - apply wp_ret, HQ; [done..|]. unfold core. cbn. by rewrite E.
  - apply wp_bind, (wp_LOG k); [done|]. intros s1 [S1 S2 S3] I1. injection S3 as ? ? E3 E4. apply wp_modify, HQ; cbn; [done|done| |].
    + destruct I1. by split.
    + unfold core. cbn. by rewrite E3, E4.
Qed.

Definition kTimeout : Z := 500000000.
Definition kPwm : Z := 100000000.

(** Whether the joystick packet allows outputs: it says so, and it is new or young. *)
Definition allowed (j : option joystick_packet) (new : bool) (checked : Time) : bool :=
  match j with
  | Some j => enabled (body j) && (new || (ToNSec checked - ToNSec (sent_time j) <? kTimeout))
  | None => false
  end.

(** The last pulse that is known of. *)
Definition next_pwm (robot : robot_packet) (j : option joystick_packet) (new : bool) (pwm : Time) : Time :=
  match j with
  | Some j => if new && outputs_enabled (body robot) && enabled (body j) then sent_time robot else pwm
  | None => pwm
  end.

Record decided (robot : robot_packet) (en new : bool) (checked : Time) s s' : Prop := {
  dc_later : later (world s) (world s');
  dc_seen : ∃ v, seen s' = set_seen_of (joystick_state : queue_of _) v (seen s);
  dc_core : core (this s') = (reset_ (this s), sensor_reader_pid_ (this s),
    next_pwm robot (v_value (joystick_state_o (seen s'))) new (last_pwm_sent_ (this s)), subclass (this s));
  dc_allowed : en = allowed (v_value (joystick_state_o (seen s'))) new checked;
  dc_checked : ToNSec checked ≤ ToNSec (clock (world s')) }.

Lemma InMS_timeout : InMS kDSPacketTimeoutMs = Ok (of_ns kTimeout).
Proof. reflexivity. Qed.

Lemma wp_joystick_enabled m s (Q : bool → system → Prop) :
  v_value (joystick_state_o (seen s)) = Some m → Q (enabled (body m)) s → wp joystick_enabled Q s.
Proof. intros Hm HQ. unfold joystick_enabled. apply wp_bind, wp_shown. cbn. rewrite Hm. by apply wp_ret. Qed.

Lemma wp_driver_station robot k s (Q : bool → system → Prop) : 0 ≤ k < 2 ^ 31 - 1 → inv k s → robot ∈ robot_states (world s) →
  (∀ en new checked s', decided robot en new checked s s' → inv (k + 1) s' → Q en s') → wp (driver_station robot) Q s.
Proof.
  intros Hk I Hr HQ. unfold driver_station. apply wp_bind, (wp_latest_of joystick_state k); [apply lawful_joystick_state|done|].
  intros [] s1 [F1 F2 F3 F4 F5 F6] I1; cbn in F5, F6.
  - destruct (F5 eq_refl) as [_ [j Hj]]. apply wp_bind, (wp_joystick_enabled j); [done|]. injection F2 as Er Ei Ep Ex.
    assert (Hout : ∀ s2, same s1 s2 → inv k s2 → next_pwm robot (Some j) true (last_pwm_sent_ (this s)) = last_pwm_sent_ (this s) →
      Q (enabled (body j)) s2).
    { intros s2 [S1 S2 S3] I2 Hn. injection S3 as ? ? ? ?. apply (HQ _ true (clock (world s2))); [|by eapply inv_mono; [|done]; lia].
      split; rewrite ?S2, ?Hj; [by etrans|done| |by cbn; rewrite andb_true_r|done]. rewrite Hn. unfold core. congruence. }
    apply wp_bind. destruct (outputs_enabled (body robot)) eqn:Eo, (enabled (body j)) eqn:En.
    + apply wp_modify, wp_ret. apply (HQ _ true (clock (world s1))).
      * split; cbn; rewrite ?Hj; cbn; rewrite ?Eo, ?En; try done. unfold core. cbn. congruence.
      * eapply (inv_mono k); [lia|]. destruct I1. split; try done. right. exists robot. split_and!; [|done|done].
        cbn. destruct (lt_robot _ _ F1) as [l ->]. set_solver.
    + apply (wp_LOG k); [done|]. intros s2 S2 I2. apply wp_ret, Hout; [done|done|]. cbn. by rewrite En, andb_false_r.
    + apply (wp_LOG k); [done|]. intros s2 S2 I2. apply wp_ret, Hout; [done|done|]. cbn. by rewrite Eo.
    + apply wp_ret, wp_ret, Hout; [done|done|]. cbn. by rewrite Eo.
  - specialize (F6 eq_refl). injection F2 as Er Ei Ep Ex.
    assert (Hout : ∀ en checked s2, same s1 s2 → inv (k + 1) s2 → ToNSec checked ≤ ToNSec (clock (world s2)) →
      en = allowed (v_value (joystick_state_o (seen s1))) false checked → Q en s2).
    { intros en checked s2 [S1 S2 S3] I2 Hc He. injection S3 as ? ? ? ?. apply (HQ _ false checked); [|done].
      split; rewrite ?S2; [by etrans|done| |done|done]. unfold core, next_pwm. cbn [andb]. case_match; congruence. }
    apply wp_bind. unfold IsNewerThanMS. apply wp_bind. eapply wp_lift; [apply InMS_timeout|]. apply wp_bind, wp_shown. cbn [seen_of joystick_state].
    destruct (v_value (joystick_state_o (seen s1))) as [j|] eqn:Hj.
    + apply wp_bind, (wp_Now k); [done|]. intros s2 S2 I2. pose proof (gw_clock _ (iv_world _ _ I2)) as Hg.
      assert (good (sent_time j)) as Hgj.
      { pose proof (gw_joystick _ (iv_world _ _ I1)) as HF. rewrite Forall_forall in HF. apply HF. by eapply view_ok_in; [apply I1|]. }
      apply wp_bind. eapply wp_lift; [by apply good_sub|]. apply wp_ret.
      rewrite ltb_ns, !ToNSec_of_ns by (try apply good_diff; try apply of_ns_valid; unfold roomy, kTimeout; done || lia).
      assert (Hj2 : v_value (joystick_state_o (seen s2)) = Some j) by (by rewrite (sm_seen _ _ S2)).
      destruct (Z.ltb_spec (ToNSec (clock (world s2)) - ToNSec (sent_time j)) kTimeout) as [Hlt|Hge].
      * apply (wp_joystick_enabled j); [done|]. apply (Hout _ (clock (world s2))); [done|by eapply inv_mono; [|done]; lia|done|].
        cbn. by rewrite (proj2 (Z.ltb_lt _ _)), andb_true_r.
      * apply wp_bind, wp_shown. cbn [seen_of joystick_state]. rewrite Hj2. apply wp_bind, (wp_LOG_INTERVAL k); [done|done|]. intros s3 S3 I3.
        apply wp_ret, (Hout _ (clock (world s2))); [by etrans|done|apply S3|]. cbn. by rewrite (proj2 (Z.ltb_ge _ _)), andb_false_r.
    + apply wp_ret. apply wp_bind, wp_shown. cbn [seen_of joystick_state]. rewrite Hj. apply wp_bind, (wp_LOG_INTERVAL k); [done|done|].
      intros s3 S3 I3. apply wp_ret, (Hout _ (clock (world s3))); done.
Qed.

Lemma wp_motors_check en k s (Q : bool → system → Prop) : 0 ≤ k < 2 ^ 31 - 1 → inv k s →
  (∀ now s', same s s' → inv (k + 1) s' → ToNSec (clock (world s)) ≤ ToNSec now ≤ ToNSec (clock (world s')) →
     Q (en && (ToNSec now - ToNSec (last_pwm_sent_ (this s)) <? kPwm)) s') → wp (motors_check en) Q s.
Proof.
  intros Hk I HQ. unfold motors_check. apply wp_bind, (wp_Now k); [done|]. intros s1 S1 I1. apply wp_bind, wp_get.
  pose proof (gw_clock _ (iv_world _ _ I1)) as Hg. pose proof (pwm_ok_good _ _ (iv_world _ _ I1) (iv_pwm _ _ I1)) as Hp.
  apply wp_bind. eapply wp_lift; [by apply good_sub|].
  assert (last_pwm_sent_ (this s1) = last_pwm_sent_ (this s)) as Ep by (pose proof (sm_core _ _ S1) as E; by injection E). rewrite Ep in *.
  change kPwmDisableTime with (of_ns kPwm). pose proof (lt_clock _ _ (sm_later _ _ S1)).
  rewrite geb_ns, !ToNSec_of_ns by (try apply good_diff; try apply of_ns_valid; unfold roomy, kPwm; done || lia).
  destruct (Z.leb_spec kPwm (ToNSec (clock (world s1)) - ToNSec (last_pwm_sent_ (this s)))) as [Hle|Hlt].
  - assert (Hout : ∀ s2, same s1 s2 → inv (k + 1) s2 → Q false s2).
    { intros s2 S2 I2. pose proof (HQ (clock (world s1)) s2) as H'. rewrite (proj2 (Z.ltb_ge _ _)), andb_false_r in H' by done.
      pose proof (lt_clock _ _ (sm_later _ _ S2)). apply H'; [by etrans|done|lia]. }
    apply wp_bind, wp_shown. cbn [seen_of joystick_state]. apply wp_bind. destruct (v_value _) as [m|]; [destruct (enabled (body m))|].
    + apply (wp_LOG_INTERVAL k); [done|done|]. intros s2 S2 I2. by apply wp_ret, Hout.
    + apply wp_ret, wp_ret, Hout; [done|]. eapply inv_mono; [|done]; lia.
    + apply wp_ret, wp_ret, Hout; [done|]. eapply inv_mono; [|done]; lia.
  - apply wp_ret. pose proof (HQ (clock (world s1)) s1) as H'. rewrite (proj2 (Z.ltb_lt _ _)), andb_true_r in H' by done.
    apply H'; [done|eapply inv_mono; [|done]; lia|lia].
Qed.

(** *** What a turn sends *)

(** As [later], with new outputs and statuses. *)
Record grown (os : list (Message OutputType)) (ss : list (Message StatusType)) w w' : Prop := {
  gr_positions : positions w `prefix_of` positions w';
  gr_goals : goals w `prefix_of` goals w';
  gr_robot : robot_states w `prefix_of` robot_states w';
  gr_joystick : joystick_states w `prefix_of` joystick_states w';
  gr_outputs : outputs w' = outputs w ++ os;
  gr_statuses : statuses w' = statuses w ++ ss;
  gr_clock : ToNSec (clock w) ≤ ToNSec (clock w');
  gr_total : total_positions w' = total_positions w }.

Lemma later_grown w w' : later w w' → grown [] [] w w'.
Proof. intros []. split; rewrite ?app_nil_r; done. Qed.

Lemma grown_trans os ss os' ss' w1 w2 w3 : grown os ss w1 w2 → grown os' ss' w2 w3 → grown (os ++ os') (ss ++ ss') w1 w3.
Proof.
  intros [A1 A2 A3 A4 A5 A6 A7 A8] [B1 B2 B3 B4 B5 B6 B7 B8].
  split; try (by etrans); rewrite ?B5, ?B6, ?A5, ?A6, ?app_assoc; congruence || done.
Qed.

Lemma wp_send_output k o s (Q : unit → system → Prop) : inv k s →
  (∀ now s', grown [mkMessage now o] [] (world s) (world s') → seen s' = seen s → core (this s') = core (this s) → inv k s' →
     ToNSec (clock (world s)) ≤ ToNSec now ≤ ToNSec (clock (world s')) → Q tt s') → wp (send_output o) Q s.
Proof.
  intros I HQ. unfold send_output. apply wp_bind, (wp_Now k); [done|]. intros s1 [[] S2 S3] I1.
  apply wp_modify, (HQ (clock (world s1))); cbn; [|done|done| |done].
  - split; cbn; rewrite ?app_nil_r; try done. congruence.
  - destruct I1 as [[] ? ? ? ? ? ?]. by split; [split|..].
Qed.

Lemma wp_send_status k x s (Q : unit → system → Prop) : inv k s →
  (∀ now s', grown [] [mkMessage now x] (world s) (world s') → seen s' = seen s → core (this s') = core (this s) → inv k s' →
     ToNSec (clock (world s)) ≤ ToNSec now ≤ ToNSec (clock (world s')) → Q tt s') → wp (send_status x) Q s.
Proof.
  intros I HQ. unfold send_status. apply wp_bind, (wp_Now k); [done|]. intros s1 [[] S2 S3] I1.
  apply wp_modify, (HQ (clock (world s1))); cbn; [|done|done| |done].
  - split; cbn; rewrite ?app_nil_r; try done. congruence.
  - destruct I1 as [[] ? ? ? ? ? ?]. by split; [split|..].
Qed.

Definition given (en : bool) : option OutputType := if en then Some zero_output else None.

(** The output and the status, and the loop afterwards. *)
Record computed (en : bool) (g : option (Message GoalType)) (p : Message PositionType)
    (o : Message OutputType) (st : Message StatusType) s s' : Prop := {
  cp_grown : grown [o] [st] (world s) (world s');
  cp_seen : seen s' = seen s;
  cp_result : let '(x, r, out, status) := RunIteration (subclass (this s)) (reset_ (this s)) g p (given en) zero_status in
    core (this s') = (r, sensor_reader_pid_ (this s), last_pwm_sent_ (this s), x) ∧
    body o = (if en then out else Zero zero_output) ∧ body st = status;
  cp_time : ToNSec (clock (world s)) ≤ ToNSec (sent_time o) ≤ ToNSec (sent_time st) }.

Lemma wp_compute en g p k s (Q : unit → system → Prop) : inv k s →
  (∀ o st s', computed en g p o st s s' → inv k s' → Q tt s') → wp (compute zero_output zero_status Zero RunIteration en g p) Q s.
Proof.
  intros I HQ. unfold compute.
  assert (Hrun : ∀ (Q' : OutputType * StatusType → system → Prop),
    (let '(x, r, out, status) := RunIteration (subclass (this s)) (reset_ (this s)) g p (given en) zero_status in
     ∀ s', later (world s) (world s') → seen s' = seen s → inv k s' →
       core (this s') = (r, sensor_reader_pid_ (this s), last_pwm_sent_ (this s), x) → Q' (out, status) s') →
    wp (run_iteration zero_status RunIteration g p (given en)) Q' s).
  { intros Q' H'. unfold run_iteration. apply wp_bind, wp_get. destruct (RunIteration _ _ _ _ _ _) as [[[x r] out] status].
    apply wp_bind, wp_modify, wp_ret, H'; [done|done| |done]. destruct I. by split. }
  destruct (RunIteration (subclass (this s)) (reset_ (this s)) g p (given en) zero_status) as [[[x r] out] status] eqn:ER.
  assert (Hend : ∀ o s1, grown [o] [] (world s) (world s1) → seen s1 = seen s → inv k s1 →
    core (this s1) = (r, sensor_reader_pid_ (this s), last_pwm_sent_ (this s), x) → body o = (if en then out else Zero zero_output) →
    ToNSec (clock (world s)) ≤ ToNSec (sent_time o) ≤ ToNSec (clock (world s1)) →
    wp (_ ← LOG (LStatus status); send_status status) Q s1).
  { intros o s1 G1 E1 I1 C1 B1 T1. apply wp_bind, (wp_LOG k); [done|]. intros s2 [L2 E2 C2] I2. apply (wp_send_status k); [done|].
    intros now s3 G3 E3 C3 I3 T3. apply (HQ o (mkMessage now status)); [|done]. split.
    - exact (grown_trans _ _ _ _ _ _ _ (grown_trans _ _ _ _ _ _ _ G1 (later_grown _ _ L2)) G3).
    - congruence.
    - rewrite ER. split_and!; [congruence|done|done].
    - cbn. pose proof (lt_clock _ _ L2). lia. }
  apply wp_bind. destruct en.
  - apply wp_bind, Hrun. intros s1 L1 E1 I1 C1. apply wp_bind, (wp_LOG k); [done|]. intros s2 [L2 E2 C2] I2. apply wp_bind, (wp_send_output k); [done|].
    intros now s3 G3 E3 C3 I3 T3. pose proof (lt_clock _ _ L1). pose proof (lt_clock _ _ L2).
    apply wp_ret, (Hend (mkMessage now out)); [|congruence|done|congruence|done|cbn; lia].
    exact (grown_trans _ _ _ _ _ _ _ (later_grown _ _ (transitivity L1 L2)) G3).
  - apply wp_bind, Hrun. intros s1 L1 E1 I1 C1. apply wp_bind, (wp_send_output k); [done|].
    intros now s3 G3 E3 C3 I3 T3. pose proof (lt_clock _ _ L1).
    apply wp_ret, (Hend (mkMessage now (Zero zero_output))); [|congruence|done|congruence|done|cbn; lia].
    exact (grown_trans _ _ _ _ _ _ _ (later_grown _ _ L1) G3).
Qed.

(** *** A whole turn *)

Record turn := mkTurn {
  t_index : Z; t_position : Message PositionType; t_goal : option (Message GoalType);
  t_robot : robot_packet; t_joystick : option joystick_packet; t_new : bool; t_checked : Time;
  t_pwm : Time; t_now : Time; t_output : Message OutputType; t_status : Message StatusType }.

(** Whether the motors are driven. *)
Definition drives (t : turn) : bool :=
  allowed (t_joystick t) (t_new t) (t_checked t) && (ToNSec (t_now t) - ToNSec (t_pwm t) <? kPwm).

(** Everything a turn looked at was on the queues, and things happened in order. *)
Record turn_ok w (t : turn) : Prop := {
  to_position : positions w !! Z.to_nat (t_index t - 1) = Some (t_position t);
  to_goal : ∀ g, t_goal t = Some g → g ∈ goals w;
  to_robot : t_robot t ∈ robot_states w;
  to_joystick : ∀ j, t_joystick t = Some j → j ∈ joystick_states w;
  to_pwm : pwm_ok w (t_pwm t);
  to_time : ToNSec (t_checked t) ≤ ToNSec (t_now t) ≤ ToNSec (sent_time (t_output t)) ∧
    ToNSec (sent_time (t_output t)) ≤ ToNSec (sent_time (t_status t)) }.

(** The turns one after the other, from what the loop knew before to what it knows
    afterwards: positions go forward; the last pulse is that of the newest robot state with
    outputs enabled that came with a new packet that says enabled; a new sensor reader
    resets; the subclass computes what is sent. *)
Fixpoint explained (c : bool * Z * Time * X) (i : Z) (ts : list turn) (c' : bool * Z * Time * X) : Prop :=
  match ts with
  | [] => c' = c
  | t :: ts =>
      let '(r, pid, pwm, x) := c in
      i < t_index t ∧ t_pwm t = next_pwm (t_robot t) (t_joystick t) (t_new t) pwm ∧
      let '(x', r', out, status) :=
        RunIteration x (reader_changed (t_robot t) pid || r) (t_goal t) (t_position t) (given (drives t)) zero_status in
      body (t_output t) = (if drives t then out else Zero zero_output) ∧ body (t_status t) = status ∧
      explained (r', reader_pid (body (t_robot t)), t_pwm t, x') (t_index t) ts c'
  end.

Lemma explained_weaken c i j ts c' : i ≤ j → explained c j ts c' → explained c i ts c'.
Proof.
  destruct ts as [|t ts]; [done|]. destruct c as [[[r pid] pwm] x]. cbn. intros Hij (H1 & H2 & H3). split_and!; [lia|done|done].
Qed.

Lemma explained_app ts1 ts2 c c1 c2 i j : explained c i ts1 c1 → Forall (λ t, t_index t ≤ j) ts1 → i ≤ j →
  explained c1 j ts2 c2 → explained c i (ts1 ++ ts2) c2.
Proof.
  revert c i. induction ts1 as [|t ts IH]; intros c i; cbn [app].
  - intros -> _ Hij H. by eapply explained_weaken.
  - intros H1 [Ht HF]%Forall_cons Hij H2. destruct c as [[[r pid] pwm] x]. cbn in *. destruct H1 as (A1 & A2 & A3).
    destruct (RunIteration _ _ _ _ _ _) as [[[x' r'] out] status]. destruct A3 as (A3 & A4 & A5). split_and!; [done..|].
    by apply IH.
Qed.

Lemma turn_ok_grown os ss w w' t : grown os ss w w' → turn_ok w t → turn_ok w' t.
Proof.
  intros [[l1 E1] [l2 E2] [l3 E3] [l4 E4] _ _ _ _] [A1 A2 A3 A4 A5 A6].
  assert (robot_states w ⊆ robot_states w') by (rewrite E3; set_solver).
  split; [rewrite E1; by apply lookup_app_l_Some| | | | |done].
  - intros g Hg. rewrite E2. apply elem_of_app. auto.
  - auto.
  - intros j Hj. rewrite E4. apply elem_of_app. auto.
  - destruct A5 as [?|(r & ? & ? & ?)]; [by left|]. right. exists r. auto.
Qed.

(** Several turns. *)
Record turned (ts : list turn) s s' : Prop := {
  tu_grown : grown (t_output <$> ts) (t_status <$> ts) (world s) (world s');
  tu_ok : Forall (turn_ok (world s')) ts;
  tu_explained : explained (core (this s)) (v_index (position_o (seen s))) ts (core (this s'));
  tu_below : Forall (λ t, t_index t ≤ v_index (position_o (seen s'))) ts;
  tu_index : v_index (position_o (seen s)) ≤ v_index (position_o (seen s')) }.

Lemma turned_trans ts1 ts2 s1 s2 s3 : turned ts1 s1 s2 → turned ts2 s2 s3 → turned (ts1 ++ ts2) s1 s3.
Proof.
  intros [A1 A2 A3 A4 A5] [B1 B2 B3 B4 B5]. split.
  - rewrite !fmap_app. by eapply grown_trans.
  - apply Forall_app. split; [|done]. eapply Forall_impl; [exact A2|]. intros t. by apply (turn_ok_grown _ _ _ _ _ B1).
  - by eapply explained_app.
  - apply Forall_app. split; [|done]. eapply Forall_impl; [exact A4|]. cbn. lia.
  - lia.
Qed.

Lemma turned_none s s' : later (world s) (world s') → core (this s') = core (this s) →
  v_index (position_o (seen s)) ≤ v_index (position_o (seen s')) → turned [] s s'.
Proof. intros L C Hi. split; cbn; [by apply later_grown|done|done|done|done]. Qed.

Abbreviation Iterate := (Controls.Iterate zero_output zero_status position_length Zero RunIteration).
Abbreviation Run := (Controls.Run zero_output zero_status position_length Zero RunIteration).

Lemma wp_prints k s (m : ST system bool) (Q : bool → system → Prop) : 0 ≤ k → inv k s →
  (∀ s', same s s' → inv k s' → wp m Q s') →
  wp (_ ← PrintInterval no_goal_; _ ← PrintInterval driver_station_old_; _ ← PrintInterval no_sensor_state_;
      _ ← PrintInterval no_driver_station_; _ ← PrintInterval motors_off_log_; m) Q s.
Proof.
  intros Hk I HQ.
  do 5 (apply wp_bind, (wp_PrintInterval k); [done|eassumption|]; intros ? ? ?). apply HQ; [|done].
  repeat (etrans; [eassumption|]). done.
Qed.

(** The part of a turn from the robot state on. *)
Lemma wp_drive robot g p k s (Q : bool → system → Prop) : 0 ≤ k < 2 ^ 31 - 4 → inv k s →
  robot ∈ robot_states (world s) → (∀ x, g = Some x → x ∈ goals (world s)) → v_value (position_o (seen s)) = Some p →
  (∀ t s', inv (k + 2) s' →
     grown [t_output t] [t_status t] (world s) (world s') → turn_ok (world s') t →
     explained (core (this s)) (v_index (position_o (seen s)) - 1) [t] (core (this s')) →
     t_index t = v_index (position_o (seen s)) → position_o (seen s') = position_o (seen s) → Q true s') →
  wp (_ ← check_reader robot; en ← driver_station robot; en ← motors_check en;
      _ ← compute zero_output zero_status Zero RunIteration en g p; mret true) Q s.
Proof.
  intros Hk I Hr Hg Hp HQ. apply wp_bind, (wp_check_reader robot k); [done|]. intros s1 L1 E1 I1 C1.
  apply wp_bind, (wp_driver_station robot k); [lia|done| |].
  { destruct (lt_robot _ _ L1) as [l ->]. set_solver. }
  intros en new checked s2 [L2 [v E2] C2 En Hc] I2. apply wp_bind, (wp_motors_check en (k + 1)); [lia|done|].
  intros now s3 [L3 E3 C3] I3 Hn. rewrite <-Z.add_assoc in I3.
  assert (HG : grown [] [] (world s) (world s3)) by (eapply later_grown; do 2 (etrans; [eassumption|]); done).
  apply wp_bind, (wp_compute _ _ _ (k + 2)); [done|]. intros o st s4 [G4 E4 R4 T4] I4. apply wp_ret.
  set (j := v_value (joystick_state_o (seen s2))) in *.
  pose proof (lt_clock _ _ L3) as T3. injection C1 as C11 C12 C13 C14. injection C2 as C21 C22 C23 C24. injection C3 as C31 C32 C33 C34.
  assert (HG4 : grown [o] [st] (world s) (world s4)) by exact (grown_trans _ _ _ _ _ _ _ HG G4).
  set (t := mkTurn (v_index (position_o (seen s))) p g robot j new checked (last_pwm_sent_ (this s2)) now o st).
  assert (Hd : drives t = en && (ToNSec now - ToNSec (last_pwm_sent_ (this s2)) <? kPwm)) by (unfold drives; cbn; by rewrite En).
  apply (HQ t s4); [done|done| | |done|].
  - split; cbn.
    + assert (Hv : view_ok (positions (world s)) (position_o (seen s))) by apply I.
      destruct (proj2 Hv _ Hp) as [_ Hl]. destruct HG4 as [[l ->] _ _ _ _ _ _ _]. by apply lookup_app_l_Some.
    + intros x Hx. destruct HG4 as [_ [l ->] _ _ _ _ _ _]. apply elem_of_app. auto.
    + destruct HG4 as [_ _ [l ->] _ _ _ _ _]. set_solver.
    + intros y Hy. pose proof (iv_joystick _ _ I2) as Hv. apply (view_ok_in _ _ y Hv) in Hy.
      destruct (lt_joystick _ _ L3) as [l3 E]. destruct (gr_joystick _ _ _ _ G4) as [l4 E'].
      rewrite E', E, !elem_of_app. auto.
    + pose proof (iv_pwm _ _ I4) as Hpw. destruct (RunIteration _ _ _ _ _ _) as [[[x' r'] out] status]. destruct R4 as (R4 & _).
      injection R4 as _ _ R43 _. by rewrite <-C33, <-R43.
    + lia.
  - unfold core at 1. cbn [explained]. rewrite Hd. cbn [t_index t_pwm t_robot t_joystick t_new t_goal t_position t_output t_status t].
    assert (RE : RunIteration (subclass (this s)) (reader_changed robot (sensor_reader_pid_ (this s)) || reset_ (this s)) g p
        (given (en && (ToNSec now - ToNSec (last_pwm_sent_ (this s2)) <? kPwm))) zero_status =
      RunIteration (subclass (this s3)) (reset_ (this s3)) g p (given (en && (ToNSec now - ToNSec (last_pwm_sent_ (this s2)) <? kPwm))) zero_status) by congruence.
    rewrite RE. destruct (RunIteration _ _ _ _ _ _) as [[[x' r'] out] status]. destruct R4 as (R4 & B4 & B5).
    split_and!; [lia|congruence|done|done|]. rewrite R4. congruence.
  - rewrite E4, E3, E2. cbn. by rewrite E1.
Qed.

Lemma wp_Iterate k s (Q : bool → system → Prop) : 1 ≤ position_length → 0 ≤ k < 2 ^ 31 - 8 → inv k s →
  (∀ b ts s', turned ts s s' → inv (k + 4) s' →
     (b = true → v_index (position_o (seen s)) < v_index (position_o (seen s'))) → Q b s') → wp Iterate Q s.
Proof.
  intros Hl Hk I HQ. apply (wp_prints k); [lia|done|]. intros s1 [L1 E1 C1] I1.
  apply wp_bind, (wp_FetchAnother position_length position k); [done|apply lawful_position|done|].
  intros got s2 [L2 C2 [v2 E2] Hi2 Hb2 Hf2] I2. cbn [seen_of position] in Hi2, Hb2, Hf2. rewrite E1 in Hi2, Hb2, Hf2, E2.
  assert (L12 : later (world s) (world s2)) by (by etrans). assert (C12 : core (this s2) = core (this s)) by congruence.
  destruct got; cbn [negb].
  2:{ apply wp_ret, (HQ false []); [by apply turned_none|eapply inv_mono; [|done]; lia|done]. }
  destruct (Hb2 eq_refl) as [Hlt [p Hp]].
  apply wp_bind, wp_shown. cbn [seen_of position]. rewrite Hp. apply wp_bind. eapply wp_lift; [done|].
  apply wp_bind, (wp_LOG k); [done|]. intros s3 [L3 E3 C3] I3.
  apply wp_bind, (wp_latest_of goal k); [apply lawful_goal|done|]. intros bg s4 [L4 C4 [v4 E4] _ _ _] I4.
  apply wp_bind, wp_shown. cbn [seen_of goal]. set (g := v_value (goal_o (seen s4))).
  assert (L24 : later (world s2) (world s4)) by (by etrans).
  apply wp_bind.
  enough (Hrest : ∀ s5, same s4 s5 → inv (k + 1) s5 → wp (_ ← FetchLatest robot_state; robot ← get robot_state;
    match robot with
    | None => _ ← LOG_INTERVAL no_sensor_state_; mret true
    | Some robot => _ ← check_reader robot; en ← driver_station robot; en ← motors_check en;
        _ ← compute zero_output zero_status Zero RunIteration en g p; mret true
    end) Q s5).
  { destruct g as [g'|] eqn:Eg.
    - apply (wp_LOG k); [done|]. intros s5 S5 I5. apply Hrest; [done|]. eapply inv_mono; [|done]. lia.
    - apply (wp_LOG_INTERVAL k); [lia|done|]. intros s5 S5 I5. by apply Hrest. }
  intros s5 [L5 E5 C5] I5. apply wp_bind, (wp_latest_of robot_state (k + 1)); [apply lawful_robot_state|done|].
  intros br s6 [L6 C6 [v6 E6] _ _ _] I6. apply wp_bind, wp_shown. cbn [seen_of robot_state].
  assert (Hpos : position_o (seen s6) = position_o (seen s2)) by (rewrite E6, E5, E4, E3; done).
  assert (L26 : later (world s) (world s6)) by (etrans; [exact L12|]; etrans; [exact L24|]; by etrans).
  assert (C26 : core (this s6) = core (this s)) by congruence.
  assert (Htn : turned [] s s6) by (apply turned_none; [done|done|rewrite Hpos; lia]).
  destruct (v_value (robot_state_o (seen s6))) as [robot|] eqn:Er.
  - apply (wp_drive robot g p (k + 1)); [lia|done| | |by rewrite Hpos|].
    + eapply view_ok_in; [apply I6|done].
    + intros x Hx. assert (x ∈ goals (world s4)) as Hin by (eapply view_ok_in; [apply I4|done]).
      destruct (lt_goals _ _ (transitivity L5 L6)) as [l ->]. set_solver.
    + intros t s7 I7 G7 O7 X7 Ht P7. apply (HQ true [t]); [|eapply inv_mono; [|done]; lia|intros _; by rewrite P7, Hpos].
      split; cbn [fmap list_fmap].
      * exact (grown_trans _ _ _ _ _ _ _ (later_grown _ _ L26) G7).
      * by constructor.
      * rewrite <-C26. eapply explained_weaken; [|exact X7]. rewrite Hpos. lia.
      * constructor; [|done]. rewrite P7, Ht. done.
      * rewrite P7, Hpos. lia.
  - apply wp_bind, (wp_LOG_INTERVAL (k + 1)); [lia|done|]. intros s7 [L7 E7 C7] I7. apply wp_ret, (HQ true []).
    + apply turned_none; [by etrans|congruence|rewrite E7, Hpos; lia].
    + eapply inv_mono; [|done]. lia.
    + intros _. rewrite E7, Hpos. lia.
Qed.

(** The loop waits for a position that does not come before it has had more turns than
    there are positions. *)
Lemma wp_Run n : ∀ k s (Q : unit → system → Prop), 1 ≤ position_length → 0 ≤ k → k + 4 * Z.of_nat n < 2 ^ 31 - 8 → inv k s →
  Z.of_nat (total_positions (world s)) - v_index (position_o (seen s)) < Z.of_nat n →
  (∀ ts s', turned ts s s' → Q tt s') → wp (Run n) Q s.
Proof.
  induction n as [|n IH]; intros k s Q Hl Hk Hn I Ht HQ.
  { pose proof (iv_position _ _ I) as [Hi _]. unfold total_positions in Ht. lia. }
  cbn [Controls.Run]. apply wp_bind, (wp_Iterate k); [done|lia|done|]. intros [] ts s1 T1 I1 Hlt; [|by apply wp_ret, (HQ ts)].
  specialize (Hlt eq_refl). pose proof (gr_total _ _ _ _ (tu_grown _ _ _ T1)) as Htot.
  apply (IH (k + 4)); [done|lia|lia|done|rewrite Htot; lia|]. intros ts' s2 T2. apply (HQ (ts ++ ts')). by eapply turned_trans.
Qed.

(** A loop before its first turn. *)
Definition at_rest (x : X) (w : shared) : system :=
  mkSystem w (mkObjects (mkView 0 None) (mkView 0 None) (mkView 0 None) (mkView 0 None)) (ControlLoop_new x) [].

Lemma at_rest_inv x w : good_world w → inv 0 (at_rest x w).
Proof.
  intros Hw. split; cbn; try (by split; [cbn; lia|]); [done| |by left].
  intros i. split; cbn; [lia|apply good_zero|done|lia].
Qed.

(** The last pulse that a turn goes by was reported in an earlier turn (or this one) that
    came with a new packet, or there was none yet. *)
Definition pulse (pwm : Time) (t0 : turn) : Prop :=
  t_new t0 = true ∧ outputs_enabled (body (t_robot t0)) = true ∧ sent_time (t_robot t0) = pwm ∧
  ∃ j, t_joystick t0 = Some j ∧ enabled (body j) = true.

Lemma explained_pulse ts : ∀ r pid pwm x i c' t, explained (r, pid, pwm, x) i ts c' → t ∈ ts →
  t_pwm t = pwm ∨ ∃ t0, t0 ∈ ts ∧ pulse (t_pwm t) t0.
Proof.
  induction ts as [|t1 ts IH]; intros r pid pwm x i c' t; [by intros _ []%elem_of_nil|].
  cbn [explained]. intros (_ & Hp & H). destruct (RunIteration _ _ _ _ _ _) as [[[x' r'] out] status]. destruct H as (_ & _ & H).
  assert (H1 : t_pwm t1 = pwm ∨ pulse (t_pwm t1) t1).
  { unfold next_pwm in Hp. destruct (t_joystick t1) as [j|] eqn:Ej; [|by left].
    destruct (t_new t1 && outputs_enabled (body (t_robot t1)) && enabled (body j)) eqn:E; [|by left].
    rewrite !andb_true_iff in E. destruct E as [[? ?] ?]. right. split_and!; [done|done|done|eauto]. }
  intros [->|Hin]%elem_of_cons; [destruct H1; [by left|right; exists t1; set_solver]|].
  destruct (IH _ _ _ _ _ _ _ H Hin) as [Ht|(t0 & Ht0 & Hpu)]; [|right; exists t0; set_solver].
  destruct H1 as [H1|H1]; [left; congruence|]. right. exists t1. rewrite Ht. set_solver.
Qed.

End Loop.

(** A loop that doubles the difference of goal and position. *)
Definition sample_iteration (x : unit) (r : bool) (g : option (Message Z)) (p : Message Z) (o : option Z) (st : Z) : unit * bool * Z * Z :=
  (tt, false, match g with Some g => 2 * (body g - body p) | None => 0 end, if o then 1 else 2).

Definition sample_robot (sec : Z) : robot_packet :=
  mkMessage (mkTime sec 0) (mkRobot 7 true false true true (double_of_Z 0) (double_of_Z 0) (double_of_Z 0) (double_of_Z 0)).
Definition sample_packet (sec : Z) : joystick_packet :=
  mkMessage (mkTime sec 0) (mkJoysticks [] false false true false 0 false).

(** A packet, a robot state, a goal and a position at 10 s. *)
Definition sample_world : @shared Z Z Z Z :=
  mkShared [] [] [] [] [] [] (mkTime 10 0)
    [mkEnv [mkMessage (mkTime 10 0) 3] [mkMessage (mkTime 10 0) 8] [sample_robot 10] [sample_packet 10] (mkTime 10 5)].

