(* ===== verification/ThreadLocal.v ===== *)
(** * Once and thread-local objects: aos/common/once-tmpl.h, aos/linux_code/complex_thread_local.h and .cc

    [Once::Get] runs a function once for all threads that ask.  [ComplexThreadLocal] keeps
    an object per type in each thread, on a list of destructors that the thread runs when it
    exits. *)

From stdpp Require Import functions.
From S2P Require Import Prelude.

(** ** Once *)

Module Once.
Section Once.
Context {T : Type}.

(** The [n]th call of [function_] runs for [turns n] more turns and returns [function_ n]. *)
Context (function_ : nat → T) (turns : nat → nat).

(** Where a thread is in [Get]. *)
Inductive pc :=
| Exchange
| Running (n k : nat)
| StoreDone
| LoadDone
| LoadResult
| Returned (r : T).

Record Once := mkOnce { run_ : bool; done_ : bool; result_ : T; calls : nat }.

Record system := mkSystem { once : Once; threads : nat → pc }.

Definition Reset (o : Once) : Once := mkOnce false false (result_ o) (calls o).

(** One step of [Get]. *)
Definition Get_step (o : Once) (p : pc) : Once * pc :=
  match p with
  | Exchange =>
      if run_ o then (o, LoadDone)
      else (mkOnce true (done_ o) (result_ o) (S (calls o)), Running (calls o) (turns (calls o)))
  | Running n (S k) => (o, Running n k)
  | Running n O => (mkOnce (run_ o) (done_ o) (function_ n) (calls o), StoreDone)
  | StoreDone => (mkOnce (run_ o) true (result_ o) (calls o), LoadResult)
  | LoadDone => if done_ o then (o, LoadResult) else (o, LoadDone)
  | LoadResult => (o, Returned (result_ o))
  | Returned r => (o, Returned r)
  end.

Definition turn (i : nat) (s : system) : system :=
  let '(o, p) := Get_step (once s) (threads s i) in mkSystem o (<[i := p]> (threads s)).

(** The threads take their turns in any order. *)
Definition run (schedule : list nat) (s : system) : system := fold_left (λ s i, turn i s) schedule s.

(** All threads call [Get] on memory that is 0 or was [Reset]. *)
Definition start (o : Once) : system := mkSystem (Reset o) (λ _, Exchange).

(** ** What holds at every moment *)

Section Inv.
Context (c : nat).

Definition is_runner (p : pc) : Prop := match p with Running _ _ | StoreDone => True | _ => False end.

(** What [p] says about the object. *)
Definition agrees (o : Once) (p : pc) : Prop :=
  match p with
  | Exchange => True
  | Running n k => run_ o = true ∧ done_ o = false ∧ n = c ∧ (k ≤ turns c)%nat
  | StoreDone => run_ o = true ∧ done_ o = false ∧ result_ o = function_ c
  | LoadDone => run_ o = true
  | LoadResult => done_ o = true
  | Returned r => done_ o = true ∧ r = function_ c
  end.

Record inv (s : system) : Prop := {
  inv_agrees : ∀ i, agrees (once s) (threads s i);
  inv_one : ∀ i j, is_runner (threads s i) → is_runner (threads s j) → i = j;
  inv_calls : calls (once s) = if run_ (once s) then S c else c;
  inv_done : done_ (once s) = true → run_ (once s) = true ∧ result_ (once s) = function_ c;
  inv_runner : run_ (once s) = true → done_ (once s) = false → ∃ i, is_runner (threads s i) }.

Lemma inv_start o : calls o = c → inv (start o).
Proof. intros Hc. split; cbn; try done. Qed.

Lemma turn_lookup i s j : threads (turn i s) j = if decide (j = i) then (Get_step (once s) (threads s i)).2 else threads s j.
Proof.
  unfold turn. destruct (Get_step _ _) as [o p]. cbn. case_decide as E; [subst; by rewrite fn_lookup_insert|by rewrite fn_lookup_insert_ne].
Qed.

Lemma turn_once i s : once (turn i s) = (Get_step (once s) (threads s i)).1.
Proof. unfold turn. by destruct (Get_step _ _). Qed.

(** The thread whose turn it is, and the others. *)
Lemma inv_intro i s o p : Get_step (once s) (threads s i) = (o, p) →
  agrees o p → (∀ j, j ≠ i → agrees o (threads s j)) →
  (∀ j, j ≠ i → is_runner p → ¬ is_runner (threads s j)) → (∀ j k, is_runner (threads s j) → is_runner (threads s k) → j = k) →
  (calls o = if run_ o then S c else c) → (done_ o = true → run_ o = true ∧ result_ o = function_ c) →
  (run_ o = true → done_ o = false → is_runner p ∨ ∃ j, j ≠ i ∧ is_runner (threads s j)) → inv (turn i s).
Proof.
  intros E Hp Ho H1 H2 Hc Hd Hr. assert (Et : ∀ j, threads (turn i s) j = if decide (j = i) then p else threads s j).
  { intros j. by rewrite turn_lookup, E. }
  assert (Eo : once (turn i s) = o) by by rewrite turn_once, E.
  split; rewrite ?Eo; try done.
  - intros j. rewrite Et. case_decide; [done|auto].
  - intros j k. rewrite !Et. destruct (decide (j = i)), (decide (k = i)); subst; intros A B; [done|by destruct (H1 k)|by destruct (H1 j)|auto].
  - intros R D. destruct (Hr R D) as [Hi|(j & Hj & Hi)]; [exists i|exists j]; rewrite Et; by case_decide.
Qed.

(** Only the thread that runs the function changes what the others rely on. *)
Lemma inv_turn i s : inv s → inv (turn i s).
Proof.
  intros [I1 I2 I3 I4 I5]. pose proof (I1 i) as Hi. destruct s as [[rn dn re ca] th]. cbn in *.
  assert (Hkeep : ∀ j, j ≠ i → is_runner (th i) → ¬ is_runner (th j)) by (intros j Hj H1 H2; apply Hj; auto).
  destruct (th i) as [|n [|k]| | | |r] eqn:Ei; cbn in Hi.
  - destruct rn.
    + eapply inv_intro; cbn; rewrite ?Ei; cbn; try done. intros _ D. right. destruct (I5 eq_refl D) as [j Hj]. exists j. split; [|done].
      intros ->. by rewrite Ei in Hj.
    + assert (Ho : ∀ j, th j = Exchange).
      { intros j. specialize (I1 j). destruct (th j); cbn in I1; naive_solver. }
      eapply inv_intro; cbn; rewrite ?Ei; cbn; try done.
      * destruct dn; [by destruct (I4 eq_refl)|]. by subst.
      * intros j _. by rewrite Ho.
      * intros j _ _. rewrite Ho. by intros [].
      * by subst.
      * intros D. by destruct (I4 D).
      * by left.
  - destruct Hi as (-> & -> & -> & ?). eapply inv_intro; cbn; rewrite ?Ei; cbn; try done; [|by left].
    intros j Hj. specialize (I1 j). specialize (Hkeep j Hj I). destruct (th j); cbn in *; naive_solver.
  - destruct Hi as (-> & -> & -> & ?). eapply inv_intro; cbn; rewrite ?Ei; cbn; try done; [by split_and!; try lia|by left].
  - destruct Hi as (-> & -> & ->). eapply inv_intro; cbn; rewrite ?Ei; cbn; try done.
    intros j Hj. specialize (I1 j). specialize (Hkeep j Hj I). destruct (th j); cbn in *; naive_solver.
  - subst rn. destruct dn eqn:Ed.
    + eapply inv_intro; cbn; rewrite ?Ei; cbn; done.
    + eapply inv_intro; cbn; rewrite ?Ei; cbn; try done. intros _ _. right. destruct (I5 eq_refl eq_refl) as [j Hj]. exists j. split; [|done].
      intros ->. by rewrite Ei in Hj.
  - subst dn. destruct (I4 eq_refl) as [-> ->]. eapply inv_intro; cbn; rewrite ?Ei; cbn; done.
  - destruct Hi as [-> ->]. eapply inv_intro; cbn; rewrite ?Ei; cbn; done.
Qed.

Lemma inv_run schedule : ∀ s, inv s → inv (run schedule s).
Proof. induction schedule as [|i l IH]; intros s I; cbn; [done|]. apply IH. by apply inv_turn. Qed.

Lemma run_cons i l s : run (i :: l) s = run l (turn i s).
Proof. done. Qed.

Lemma run_app l1 l2 s : run (l1 ++ l2) s = run l2 (run l1 s).
Proof. apply fold_left_app. Qed.

(** ** Everybody returns *)

Definition need (p : pc) : nat :=
  match p with Exchange => 3 | LoadDone => 2 | LoadResult => 1 | Returned _ => 0 | _ => 3 end.

Lemma need_le p : (need p ≤ 3)%nat.
Proof. destruct p; cbn; repeat constructor. Qed.

Lemma done_turn i s : inv s → done_ (once s) = true →
  done_ (once (turn i s)) = true ∧ ∀ j, (need (threads (turn i s) j) ≤ need (threads s j) ∧ (j = i → need (threads (turn i s) j) ≤ need (threads s j) - 1))%nat.
Proof.
  intros I D. pose proof (inv_agrees _ I i) as Hi. rewrite turn_once. destruct (inv_done _ I D) as [R _].
  assert (Hs : done_ (Get_step (once s) (threads s i)).1 = true ∧ (need (Get_step (once s) (threads s i)).2 ≤ need (threads s i) - 1)%nat).
  { destruct (threads s i) as [|n [|k]| | | |r]; cbn in *; rewrite ?R, ?D; cbn; try (split; [done|lia]); destruct Hi as (_ & Hi & _); congruence. }
  destruct Hs as [? Hs]. split; [done|]. intros j. rewrite turn_lookup. destruct (decide (j = i)) as [->|]; split; [lia|by intros _|done|done].
Qed.

Lemma done_run l : ∀ s, inv s → done_ (once s) = true →
  done_ (once (run l s)) = true ∧ ∀ j, (need (threads (run l s) j) ≤ need (threads s j) ∧ (j ∈ l → need (threads (run l s) j) ≤ need (threads s j) - 1))%nat.
Proof.
  induction l as [|i l IH]; intros s I D; [cbn|rewrite run_cons].
  { split; [done|]. intros j. split; [done|]. by intros ?%not_elem_of_nil. }
  destruct (done_turn i s I D) as [D1 H1]. destruct (IH (turn i s) (inv_turn i s I) D1) as [D2 H2].
  split; [done|]. intros j. destruct (H1 j) as [A1 A2], (H2 j) as [B1 B2]. split; [lia|].
  intros [->|Hj]%elem_of_cons; [specialize (A2 eq_refl); lia|specialize (B2 Hj); lia].
Qed.

Section Fair.
Context (n : nat).

Definition rest (p : pc) : nat := match p with Running _ k => S (S k) | StoreDone => 1 | _ => 0 end.

(** [done_] is set, or will be after [r] turns of the right thread. *)
Definition ahead (r : nat) (s : system) : Prop :=
  done_ (once s) = true ∨ (∃ i, (i < n)%nat ∧ is_runner (threads s i) ∧ (rest (threads s i) ≤ r)%nat) ∨
  (run_ (once s) = false ∧ (turns c + 3 ≤ r)%nat).

(** The turn of the one that is waited for. *)
Lemma ahead_runner r s i : inv s → (i < n)%nat → is_runner (threads s i) → (rest (threads s i) ≤ S r)%nat → ahead r (turn i s).
Proof.
  intros I Hi Hr Hk. destruct (threads s i) as [|m [|k]| | | |x] eqn:E; try done.
  - right. left. exists i. rewrite turn_lookup, E. cbn in *. destruct (decide (i = i)); [|done]. cbn. split_and!; [done|done|lia].
  - right. left. exists i. rewrite turn_lookup, E. cbn in *. destruct (decide (i = i)); [|done]. cbn. split_and!; [done|done|lia].
  - left. rewrite turn_once, E. done.
Qed.

Lemma ahead_first r s i : inv s → (i < n)%nat → run_ (once s) = false → (turns c + 3 ≤ S r)%nat → ahead r (turn i s).
Proof.
  intros I Hi Hr Hk. right. left. exists i. rewrite turn_lookup. destruct (decide (i = i)); [|done].
  pose proof (inv_agrees _ I i) as Ha. pose proof (inv_calls _ I) as Hc. rewrite Hr in Hc.
  destruct (threads s i) as [|m k| | | |x] eqn:E; cbn in Ha; try (destruct Ha; congruence); try congruence.
  - cbn. rewrite Hr, Hc. cbn. split_and!; [done|done|lia].
  - by destruct (inv_done _ I Ha) as [? _]; congruence.
  - destruct Ha as [Ha _]. by destruct (inv_done _ I Ha) as [? _]; congruence.
Qed.

Lemma ahead_turn r s i : inv s → (i < n)%nat → ahead r s → ahead r (turn i s).
Proof.
  intros I Hi [D|[(j & Hj & Hr & Hk)|[R Hk]]].
  - left. by apply done_turn.
  - destruct (decide (j = i)) as [->|Hne]; [apply ahead_runner; [done|done|done|lia]|].
    right. left. exists j. rewrite turn_lookup. by destruct (decide (j = i)).
  - apply ahead_first; [done|done|done|lia].
Qed.

Lemma ahead_run r l : ∀ s, inv s → Forall (λ i, (i < n)%nat) l → ahead r s → ahead r (run l s).
Proof.
  induction l as [|i l IH]; intros s I HF A; [done|]. apply Forall_cons in HF as [Hi HF].
  rewrite run_cons. apply IH; [by apply inv_turn|done|by apply ahead_turn].
Qed.

Lemma run_other l : ∀ s i, i ∉ l → threads (run l s) i = threads s i.
Proof.
  induction l as [|j l IH]; intros s i Hi; [done|]. rewrite run_cons, IH by set_solver. rewrite turn_lookup.
  case_decide; [set_solver|done].
Qed.

(** Every thread has a turn in a round. *)
Definition round (l : list nat) : Prop := Forall (λ i, (i < n)%nat) l ∧ ∀ i, (i < n)%nat → i ∈ l.

Lemma ahead_round r l s : (0 < n)%nat → inv s → round l → ahead (S r) s → ahead r (run l s).
Proof.
  intros Hn I [HF Hl] [D|[(j & Hj & Hr & Hk)|[R Hk]]].
  - left. by apply done_run.
  - destruct (list_elem_of_split_l l j (Hl j Hj)) as (l1 & l2 & -> & Hl1).
    apply Forall_app in HF as [HF1 HF2]. apply Forall_cons in HF2 as [_ HF2]. rewrite run_app, run_cons.
    pose proof (inv_run l1 s I) as I1. apply ahead_run; [by apply inv_turn|done|].
    apply ahead_runner; [done|done|by rewrite run_other|by rewrite run_other].
  - destruct l as [|i l]; [by destruct (not_elem_of_nil 0%nat (Hl 0%nat Hn))|]. apply Forall_cons in HF as [Hi HF]. rewrite run_cons.
    apply ahead_run; [by apply inv_turn|done|]. by apply ahead_first.
Qed.

Lemma rounds_done rounds : ∀ s, (0 < n)%nat → inv s → Forall round rounds → ahead (length rounds) s → done_ (once (run (concat rounds) s)) = true.
Proof.
  induction rounds as [|l rounds IH]; intros s Hn I HF A; cbn [concat length] in *.
  - destruct A as [D|[(i & _ & Hr & Hk)|[_ Hk]]]; [done| |lia]. destruct (threads s i); cbn in *; try done; lia.
  - apply Forall_cons in HF as [Hl HF]. rewrite run_app. apply IH; [done|by apply inv_run|done|by apply ahead_round].
Qed.

Lemma rounds_return rounds : ∀ s, inv s → done_ (once s) = true → Forall round rounds →
  ∀ i, (i < n)%nat → (need (threads (run (concat rounds) s) i) ≤ need (threads s i) - length rounds)%nat.
Proof.
  induction rounds as [|l rounds IH]; intros s I D HF i Hi; cbn; [lia|].
  apply Forall_cons in HF as [Hl HF]. rewrite run_app. destruct (done_run l s I D) as [D1 H1].
  specialize (IH (run l s) (inv_run l s I) D1 HF i Hi). destruct (H1 i) as [_ H2]. specialize (H2 (proj2 Hl i Hi)). lia.
Qed.
End Fair.
End Inv.

(** C33: Any number of threads call [Get] on an object that was zeroed or [Reset], and take
    their steps in any order.  [function_] is called at most once, every thread that has
    returned got what that call returned, after it was finished; and when each of them gets
    a turn as often as the function needs and six more times, all of them have returned. *)
Theorem Get_runs_once o schedule : let s := run schedule (start o) in
  (calls (once s) ≤ S (calls o))%nat ∧
  (∀ i r, threads s i = Returned r → r = function_ (calls o) ∧ calls (once s) = S (calls o) ∧ done_ (once s) = true ∧ result_ (once s) = r) ∧
  (∀ n rounds, Forall (λ i, (i < n)%nat) schedule → Forall (round n) rounds → length rounds = (turns (calls o) + 6)%nat →
    ∀ i, (i < n)%nat → threads (run (concat rounds) s) i = Returned (function_ (calls o))).
Proof.
  cbn. set (s := run schedule (start o)).
  assert (I : inv (calls o) s) by by apply inv_run, inv_start. split_and!.
  - rewrite (inv_calls _ _ I). destruct (run_ _); lia.
  - intros i r E. pose proof (inv_agrees _ _ I i) as Ha. rewrite E in Ha. destruct Ha as [D ->].
    destruct (inv_done _ _ I D) as [R Hr]. rewrite (inv_calls _ _ I), R. done.
  - intros n rounds Hs Hr Hlen i Hi.
    assert (A : ahead (calls o) n (turns (calls o) + 3) s).
    { apply ahead_run; [by apply inv_start|done|]. right. right. split; [done|lia]. }
    rewrite <-(take_drop (turns (calls o) + 3) rounds), concat_app, run_app.
    set (r1 := take _ rounds). set (r2 := drop _ rounds).
    assert (Hr1 : Forall (round n) r1) by by apply Forall_take. assert (Hr2 : Forall (round n) r2) by by apply Forall_drop.
    assert (L1 : length r1 = (turns (calls o) + 3)%nat) by (unfold r1; rewrite length_take; lia).
    assert (L2 : length r2 = 3%nat) by (unfold r2; rewrite length_drop; lia).
    pose proof (inv_run _ (concat r1) s I) as I1.
    assert (D : done_ (once (run (concat r1) s)) = true) by (apply (rounds_done (calls o) n); [lia|done|done|by rewrite L1]).
    pose proof (rounds_return (calls o) n r2 _ I1 D Hr2 i Hi) as HN. pose proof (inv_run _ (concat r2) _ I1) as I2.
    pose proof (need_le (threads (run (concat r1) s) i)) as HN0.
    assert (E0 : need (threads (run (concat r2) (run (concat r1) s)) i) = 0%nat) by lia.
    pose proof (inv_agrees _ _ I2 i) as Ha.
    destruct (threads (run (concat r2) _) i); cbn in E0; try discriminate. by destruct Ha as [_ ->].
Qed.
End Once.
End Once.

(** Three threads; the function needs one more turn and returns 5. *)
Lemma Get_runs_once_witness :
  let s := Once.run (λ _, 5) (λ _, 1%nat) (concat (replicate 7 [2; 0; 1]%nat)) (Once.start (Once.mkOnce false false 0 0)) in
  Once.calls (Once.once s) = 1%nat ∧ Once.threads s 0%nat = Once.Returned 5.
Proof.
  destruct (Once.Get_runs_once (λ _, 5) (λ _, 1%nat) (Once.mkOnce false false 0 0) []) as (_ & _ & H).
  split; [vm_compute; reflexivity|]. apply (H 3%nat (replicate 7 [2; 0; 1]%nat)); [constructor| |reflexivity|lia].
  apply Forall_replicate. split; [repeat constructor|]. intros i Hi. destruct i as [|[|[|i]]]; [| | |lia]; set_solver.
Defined.

(** ** Thread-local objects *)

Module ThreadLocal.
Section ThreadLocal.
Context {V : Type}.

(** What happens to the objects of a thread: type [t]'s is made or destroyed. *)
Inductive event := Constructed (t : nat) (v : V) | Destructed (t : nat) (v : V).

(** The three [__thread] variables of [ComplexThreadLocal<t>]: [initialized], [storage]
    ([None]: no object lives there), and the [next] of [destructor], whose [function] and
    [param] destroy the [storage]. *)
Record slot := mkSlot { initialized : bool; storage : option V; next : option nat }.

(** One thread: its variables, and what it keeps under [key_once.Get()]: the first
    [ComplexThreadLocalDestructor], by its type. *)
Record thread := mkThread { slots : nat → slot; specific : option nat; events : list event }.

(** What [pthread_setspecific] returns; it takes no memory that was not there before. *)
Context (pthread_setspecific : thread → Z).

Notation MS := (ST thread).

Definition new_thread : thread := mkThread (λ _, mkSlot false None None) None [].

Definition set_slot (t : nat) (f : slot → slot) : MS unit := st_modify (λ s, mkThread (<[t := f (slots s t)]> (slots s)) (specific s) (events s)).

(** [pthread_setspecific] in a [SIMPLE_CHECK] *)
Definition setspecific (d : option nat) : MS unit :=
  s ← st_get;
  if pthread_setspecific s =? 0 then st_modify (λ s, mkThread (slots s) d (events s)) else st_stop Abort.

Definition Add (t : nat) : MS unit :=
  s ← st_get;
  _ ← set_slot t (λ x, mkSlot (initialized x) (storage x) (specific s));
  setspecific (Some t).

(** The loop of [Remove]. *)
Fixpoint remove_loop (fuel : nat) (t : nat) (previous c : option nat) : MS unit :=
  match c with
  | None => st_stop Abort
  | Some d =>
      match fuel with
      | O => st_stop Fuel
      | S fuel =>
          s ← st_get;
          if (d =? t)%nat then
            match previous with
            | None => setspecific (next (slots s t))
            | Some p => set_slot p (λ x, mkSlot (initialized x) (storage x) (next (slots s t)))
            end
          else remove_loop fuel t (Some d) (next (slots s d))
      end
  end.

(** [fuel] is more than the number of objects. *)
Definition Remove (fuel : nat) (t : nat) : MS unit := s ← st_get; remove_loop fuel t None (specific s).

(** The destructor of an object that is not there is undefined. *)
Definition PlacementDelete (t : nat) : MS unit :=
  s ← st_get;
  match storage (slots s t) with
  | None => st_stop Undefined
  | Some v =>
      _ ← set_slot t (λ x, mkSlot (initialized x) None (next x));
      st_modify (λ s, mkThread (slots s) (specific s) (events s ++ [Destructed t v]))
  end.

Definition Create (t : nat) (v : V) : MS unit :=
  s ← st_get;
  if initialized (slots s t) then mret tt
  else
    _ ← set_slot t (λ x, mkSlot (initialized x) (Some v) (next x));
    _ ← st_modify (λ s, mkThread (slots s) (specific s) (events s ++ [Constructed t v]));
    _ ← Add t;
    set_slot t (λ x, mkSlot true (storage x) (next x)).

Definition Clear (fuel : nat) (t : nat) : MS unit :=
  s ← st_get;
  if negb (initialized (slots s t)) then mret tt
  else
    _ ← Remove fuel t;
    _ ← PlacementDelete t;
    set_slot t (λ x, mkSlot false (storage x) (next x)).

Definition created (t : nat) (s : thread) : bool := initialized (slots s t).

(** [NULL], or a pointer to the storage. *)
Definition get (t : nat) (s : thread) : option (option V) :=
  if initialized (slots s t) then Some (storage (slots s t)) else None.

Fixpoint ExecuteDestructorList (fuel : nat) (c : option nat) : MS unit :=
  match c with
  | None => mret tt
  | Some d =>
      match fuel with
      | O => st_stop Fuel
      | S fuel => _ ← PlacementDelete d; s ← st_get; ExecuteDestructorList fuel (next (slots s d))
      end
  end.

(** The end of a thread: its pointer is set to NULL and the list is run. *)
Definition exit_thread (fuel : nat) : MS unit :=
  s ← st_get;
  match specific s with
  | None => mret tt
  | Some d =>
      _ ← st_modify (λ s, mkThread (slots s) None (events s));
      ExecuteDestructorList fuel (Some d)
  end.

(** ** What a thread does *)

Inductive op := OCreate (t : nat) (v : V) | OClear (t : nat).

Definition do_op (fuel : nat) (o : op) : MS unit :=
  match o with OCreate t v => Create t v | OClear t => Clear fuel t end.

Fixpoint do_ops (fuel : nat) (l : list op) : MS unit :=
  match l with [] => mret tt | o :: l => _ ← do_op fuel o; do_ops fuel l end.

(** The specification: the objects that are there, newest first, and what happened. *)
Definition spec_op (o : op) (x : list (nat * V) * list event) : list (nat * V) * list event :=
  let '(objs, evs) := x in
  match o with
  | OCreate t v => if bool_decide (t ∈ objs.*1) then (objs, evs) else ((t, v) :: objs, evs ++ [Constructed t v])
  | OClear t =>
      (filter (λ p, p.1 ≠ t) objs, evs ++ ((λ p, Destructed p.1 p.2) <$> filter (λ p, p.1 = t) objs))
  end.

Definition spec_ops (l : list op) : list (nat * V) * list event := fold_left (λ x o, spec_op o x) l ([], []).

(** ** The list of destructors *)

(** [c] leads through [l] and then ends. *)
Fixpoint chain (sl : nat → slot) (c : option nat) (l : list nat) : Prop :=
  match l with [] => c = None | t :: l => c = Some t ∧ chain sl (next (sl t)) l end.

Record holds (objs : list (nat * V)) (s : thread) : Prop := {
  h_chain : chain (slots s) (specific s) objs.*1;
  h_nodup : NoDup objs.*1;
  h_slot : ∀ t, initialized (slots s t) = bool_decide (t ∈ objs.*1) ∧ ∀ v, storage (slots s t) = Some v ↔ (t, v) ∈ objs }.

Hypothesis Hset : ∀ s, pthread_setspecific s = 0.

Lemma chain_ext sl sl' c l : (∀ t, t ∈ l → next (sl' t) = next (sl t)) → chain sl c l → chain sl' c l.
Proof.
  revert c. induction l as [|t l IH]; intros c H; [done|]. intros [-> Hc]. split; [done|].
  rewrite H by set_solver. apply IH; [set_solver|done].
Qed.

Lemma wp_set_slot t f s (Q : unit → thread → Prop) : Q tt (mkThread (<[t := f (slots s t)]> (slots s)) (specific s) (events s)) → wp (set_slot t f) Q s.
Proof. intros HQ. by apply wp_modify. Qed.

Lemma wp_setspecific d s (Q : unit → thread → Prop) : Q tt (mkThread (slots s) d (events s)) → wp (setspecific d) Q s.
Proof. intros HQ. unfold setspecific. apply wp_bind, wp_get. rewrite Hset. by apply wp_modify. Qed.

Lemma wp_PlacementDelete t v s (Q : unit → thread → Prop) : storage (slots s t) = Some v →
  Q tt (mkThread (<[t := mkSlot (initialized (slots s t)) None (next (slots s t))]> (slots s)) (specific s) (events s ++ [Destructed t v])) →
  wp (PlacementDelete t) Q s.
Proof.
  intros Hv HQ. unfold PlacementDelete. apply wp_bind, wp_get. rewrite Hv.
  apply wp_bind, wp_set_slot. by apply wp_modify.
Qed.

Lemma wp_Create objs t v s : holds objs s →
  wp (Create t v) (λ _ s', let '(objs', evs) := spec_op (OCreate t v) (objs, events s) in holds objs' s' ∧ events s' = evs) s.
Proof.
  intros [H1 H2 H3]. unfold Create. apply wp_bind, wp_get. cbn. destruct (H3 t) as [-> Ht].
  case_bool_decide as E; [by apply wp_ret|].
  apply wp_bind, wp_set_slot. apply wp_bind, wp_modify. cbn. apply wp_bind. unfold Add. apply wp_bind, wp_get, wp_bind, wp_set_slot.
  apply wp_setspecific. cbn. apply wp_set_slot. cbn. rewrite !fn_lookup_insert. cbn.
  split; [|done]. split; cbn.
  - split; [done|]. rewrite fn_lookup_insert. cbn. eapply chain_ext; [|exact H1].
    intros u Hu. rewrite !fn_lookup_insert_ne by (intros ->; done). done.
  - by apply NoDup_cons.
  - intros u. destruct (decide (t = u)) as [->|Hne].
    + rewrite fn_lookup_insert. cbn. split; [by rewrite bool_decide_true by set_solver|].
      intros v'. split; [intros [= ->]; set_solver|]. intros [[= ->]|Hin]%elem_of_cons; [done|].
      destruct E. apply list_elem_of_fmap. by exists (u, v').
    + rewrite !fn_lookup_insert_ne by done. destruct (H3 u) as [Hi Hs]. rewrite Hi. split.
      * apply bool_decide_ext. set_solver.
      * intros v'. rewrite Hs. set_solver.
Qed.

(** Taking [t] out of the middle of the list, or from its front. *)
Lemma wp_remove_loop fuel t : ∀ l1 l2 previous c s (Q : unit → thread → Prop), t ∉ l1 → (length l1 < fuel)%nat →
  chain (slots s) c (l1 ++ t :: l2) → NoDup (l1 ++ t :: l2) →
  (match previous with Some p => p ∉ l1 ++ t :: l2 | None => True end) →
  (∀ s', events s' = events s →
    (∀ u, initialized (slots s' u) = initialized (slots s u) ∧ storage (slots s' u) = storage (slots s u)) →
    (∀ u, Some u ≠ previous → u ∉ l1 → next (slots s' u) = next (slots s u)) →
    (match l1, previous with
     | [], None => specific s' = next (slots s t)
     | [], Some p => specific s' = specific s ∧ next (slots s' p) = next (slots s t)
     | _, _ => specific s' = specific s ∧ (∀ u, Some u = previous → next (slots s' u) = next (slots s u)) ∧ chain (slots s') c (l1 ++ l2)
     end) → Q tt s') →
  wp (remove_loop fuel t previous c) Q s.
Proof.
  induction fuel as [|fuel IH]; intros l1 l2 previous c s Q Ht Hf Hc Hn Hp HQ; [lia|].
  destruct l1 as [|d l1]; destruct Hc as [-> Hc]; cbn [remove_loop]; apply wp_bind, wp_get.
  - rewrite Nat.eqb_refl. destruct previous as [p|].
    + apply wp_set_slot, HQ; cbn; [done| | |].
      * intros u. destruct (decide (p = u)) as [->|]; [by rewrite fn_lookup_insert|by rewrite fn_lookup_insert_ne].
      * intros u Hu _. rewrite fn_lookup_insert_ne; congruence.
      * by rewrite fn_lookup_insert.
    + by apply wp_setspecific, HQ.
  - apply not_elem_of_cons in Ht as [Hd Ht]. rewrite (proj2 (Nat.eqb_neq d t)) by done.
    apply NoDup_cons in Hn as [Hd1 Hn]. cbn [length] in Hf.
    apply (IH l1 l2 (Some d) _ s); [done|lia|done|done|done|]. intros s' E1 E2 E3 E4.
    assert (HP : match previous with Some p => next (slots s' p) = next (slots s p) | None => True end).
    { destruct previous as [p|]; [|done]. cbn in Hp. apply E3; [intros [= ->]; set_solver|set_solver]. }
    apply HQ; [done|done| |].
    + intros u Hu Hl. apply E3; [intros [= ->]|]; set_solver.
    + assert (HG : specific s' = specific s ∧ (∀ u, Some u = previous → next (slots s' u) = next (slots s u)) ∧ chain (slots s') (Some d) ((d :: l1) ++ l2)).
      2:{ by destruct previous. }
      destruct l1 as [|e l1].
      * destruct E4 as [E4 E5]. split_and!; [done|by intros u <-|]. cbn. split; [done|]. rewrite E5.
        cbn in Hc. destruct Hc as [_ Hc]. eapply chain_ext; [|exact Hc]. intros u Hu. apply E3; [intros [= ->]|]; set_solver.
      * destruct E4 as (E4 & E5 & E6). split_and!; [done|by intros u <-|]. cbn. split; [done|]. by rewrite E5.
Qed.

Lemma filter_absent t (objs : list (nat * V)) : t ∉ objs.*1 → filter (λ p, p.1 ≠ t) objs = objs ∧ filter (λ p, p.1 = t) objs = [].
Proof.
  induction objs as [|[u v] objs IH]; intros H; [done|]. cbn in H. apply not_elem_of_cons in H as [Hu H].
  destruct (IH H) as [E1 E2]. rewrite !filter_cons. cbn. rewrite decide_True, decide_False by congruence. by rewrite E1, E2.
Qed.

Lemma split_object t (objs : list (nat * V)) : t ∈ objs.*1 → NoDup objs.*1 →
  ∃ o1 v o2, objs = o1 ++ (t, v) :: o2 ∧ t ∉ o1.*1 ∧ t ∉ o2.*1 ∧
    filter (λ p, p.1 ≠ t) objs = o1 ++ o2 ∧ filter (λ p, p.1 = t) objs = [(t, v)].
Proof.
  intros ([u v] & -> & (o1 & o2 & ->)%list_elem_of_split)%list_elem_of_fmap Hn. cbn in *.
  rewrite fmap_app, fmap_cons, NoDup_app, NoDup_cons in Hn. destruct Hn as (_ & Hn & Hn2 & _). cbn in *.
  exists o1, v, o2. assert (u ∉ o1.*1) by (intros H; apply (Hn _ H); set_solver).
  destruct (filter_absent u o1) as [F1 F2]; [done|]. destruct (filter_absent u o2) as [F3 F4]; [done|].
  rewrite !filter_app, !filter_cons. cbn. rewrite decide_False, decide_True by tauto. by rewrite F1, F2, F3, F4.
Qed.

Lemma wp_Clear fuel objs t s : holds objs s → (length objs < fuel)%nat →
  wp (Clear fuel t) (λ _ s', let '(objs', evs) := spec_op (OClear t) (objs, events s) in holds objs' s' ∧ events s' = evs) s.
Proof.
  intros [H1 H2 H3] Hf. unfold Clear. apply wp_bind, wp_get. destruct (H3 t) as [-> Ht]. cbn [spec_op].
  case_bool_decide as E; cbn [negb].
  2:{ destruct (filter_absent t objs E) as [-> ->]. apply wp_ret. cbn. by rewrite app_nil_r. }
  destruct (split_object t objs E H2) as (o1 & v & o2 & -> & N1 & N2 & -> & ->).
  rewrite fmap_app, fmap_cons in H1, H2. cbn [fst] in H1, H2. rewrite length_app in Hf. cbn in Hf.
  apply wp_bind. unfold Remove. apply wp_bind, wp_get.
  eapply (wp_remove_loop fuel t o1.*1 o2.*1); [done|rewrite length_fmap; lia|done|done|done|].
  intros s1 E1 E2 E3 E4.
  assert (Hc : chain (slots s1) (specific s1) (o1 ++ o2).*1).
  { rewrite fmap_app. destruct o1 as [|[d w] o1]; cbn in *.
    - rewrite E4. destruct H1 as [_ H1]. eapply chain_ext; [|exact H1]. intros u Hu. apply E3; [done|set_solver].
    - destruct E4 as (-> & _ & E4). exact E4. }
  assert (Hv : storage (slots s1 t) = Some v) by (destruct (E2 t) as [_ ->]; apply Ht; set_solver).
  apply wp_bind, (wp_PlacementDelete t v); [done|]. apply wp_set_slot. cbn. rewrite fn_lookup_insert. cbn.
  split; [|by rewrite E1]. split; cbn.
  - eapply chain_ext; [|exact Hc]. intros u Hu. rewrite !fn_lookup_insert_ne; [done| |]; intros ->; rewrite fmap_app in Hu; set_solver.
  - rewrite fmap_app. apply NoDup_app in H2 as (? & Hd & [_ ?]%NoDup_cons). apply NoDup_app. split_and!; [done|set_solver|done].
  - intros u. destruct (decide (t = u)) as [->|Hne].
    + rewrite fn_lookup_insert. cbn. rewrite fmap_app. split; [by rewrite bool_decide_false by set_solver|].
      intros v'. split; [done|]. intros Hin. apply (list_elem_of_fmap_2 fst) in Hin. rewrite fmap_app in Hin. set_solver.
    + rewrite !fn_lookup_insert_ne by done. destruct (E2 u) as [-> ->], (H3 u) as [-> Hs]. split.
      * apply bool_decide_ext. rewrite !fmap_app, fmap_cons. set_solver.
      * intros v'. rewrite Hs. set_solver.
Qed.

Lemma holds_new : holds [] new_thread.
Proof. split; [done|constructor|]. intros t. cbn. split; [done|]. intros v. split; [done|]. by intros ?%not_elem_of_nil. Qed.

Lemma spec_length o x : (length (spec_op o x).1 ≤ S (length x.1))%nat.
Proof.
  destruct x as [objs evs], o as [t v|t]; cbn.
  - case_bool_decide; cbn; lia.
  - pose proof (length_filter (λ p : nat * V, p.1 ≠ t) objs). lia.
Qed.

Lemma wp_do_ops fuel l : ∀ objs s, holds objs s → (length objs + length l < fuel)%nat →
  wp (do_ops fuel l) (λ _ s', let '(objs', evs) := fold_left (λ x o, spec_op o x) l (objs, events s) in holds objs' s' ∧ events s' = evs ∧
    (length objs' ≤ length objs + length l)%nat) s.
Proof.
  induction l as [|o l IH]; intros objs s Hh Hf; cbn [do_ops].
  { apply wp_ret. cbn. split_and!; [done|done|lia]. }
  cbn [length] in *.
  assert (Hop : wp (do_op fuel o) (λ _ s', let '(objs', evs) := spec_op o (objs, events s) in holds objs' s' ∧ events s' = evs) s).
  { destruct o as [t v|t]; cbn [do_op]; [by apply wp_Create|]. apply wp_Clear; [done|lia]. }
  apply wp_bind. eapply wp_mono; [exact Hop|]. cbn beta. intros [] s1 H1. cbn [fold_left].
  pose proof (spec_length o (objs, events s)) as HL. cbn [fst] in HL.
  destruct (spec_op o (objs, events s)) as [objs1 evs1]. cbn [fst] in HL. destruct H1 as [H1 <-].
  eapply wp_mono; [apply (IH objs1 s1 H1); lia|]. cbn beta. intros _ s2.
  destruct (fold_left _ l _) as [objs2 evs2]. intros (? & ? & ?). split_and!; [done|done|lia].
Qed.

Lemma wp_ExecuteDestructorList fuel objs : ∀ s, (length objs ≤ fuel)%nat → NoDup objs.*1 → chain (slots s) (head objs.*1) objs.*1 →
  (∀ t v, (t, v) ∈ objs → storage (slots s t) = Some v) →
  wp (ExecuteDestructorList fuel (head objs.*1)) (λ _ s', events s' = events s ++ ((λ p, Destructed p.1 p.2) <$> objs) ∧
    specific s' = specific s ∧ (∀ t, initialized (slots s' t) = initialized (slots s t)) ∧
    (∀ t, storage (slots s' t) = if bool_decide (t ∈ objs.*1) then None else storage (slots s t))) s.
Proof.
  revert fuel. induction objs as [|[t v] objs IH]; intros fuel s Hf Hn Hc Hs.
  { destruct fuel; apply wp_ret; cbn; rewrite app_nil_r; done. }
  destruct fuel as [|fuel]; cbn [length] in Hf; [lia|]. cbn in Hn, Hc. destruct Hc as [_ Hc]. apply NoDup_cons in Hn as [Ht Hn].
  cbn. apply wp_bind, (wp_PlacementDelete t v); [apply Hs; set_solver|]. apply wp_bind, wp_get. cbn. rewrite fn_lookup_insert. cbn.
  assert (Eh : next (slots s t) = head objs.*1) by (destruct objs as [|[u w] objs]; [done|]; by destruct Hc).
  rewrite Eh in *. eapply wp_mono.
  { apply IH; cbn; [lia|done| |].
    - eapply chain_ext; [|exact Hc]. intros u Hu. rewrite fn_lookup_insert_ne by (intros ->; done). done.
    - intros u w Hu. rewrite fn_lookup_insert_ne; [apply Hs; set_solver|]. intros ->. apply Ht, list_elem_of_fmap. by exists (u, w). }
  cbn. intros _ s' (E1 & E2 & E3 & E4). rewrite E1, E2, <-app_assoc. split_and!; [done|done| |].
  - intros u. rewrite E3. destruct (decide (t = u)) as [->|]; [by rewrite fn_lookup_insert|by rewrite fn_lookup_insert_ne].
  - intros u. rewrite E4. destruct (decide (t = u)) as [->|Hne].
    + rewrite fn_lookup_insert. cbn. rewrite (bool_decide_true (u ∈ u :: _)) by set_solver. by case_bool_decide.
    + rewrite fn_lookup_insert_ne by done. assert (Hiff : u ∈ objs.*1 ↔ u ∈ t :: objs.*1) by set_solver. by rewrite (bool_decide_ext _ _ Hiff).
Qed.

Definition exits (objs : list (nat * V)) : list event := (λ p, Destructed p.1 p.2) <$> objs.

(** A thread that creates and clears thread-local objects in any order and then exits never
    dies and never destroys what is not there: the objects it finds with [get] are those of
    the specification, a stack in which each type occurs at most once; each object is
    destroyed once, by [Clear] or, newest first, when the thread exits. *)
Theorem thread_local_objects fuel l : (length l < fuel)%nat → let '(objs, evs) := spec_ops l in
  ∃ s s', do_ops fuel l new_thread = Ok (tt, s) ∧
    (∀ t v, get t s = Some (Some v) ↔ (t, v) ∈ objs) ∧ (∀ t, created t s = true ↔ t ∈ objs.*1) ∧ NoDup objs.*1 ∧ events s = evs ∧
    exit_thread fuel s = Ok (tt, s') ∧ events s' = evs ++ exits objs ∧ ∀ t, storage (slots s' t) = None.
Proof.
  intros Hf. pose proof (wp_do_ops fuel l [] new_thread holds_new Hf) as H. unfold spec_ops. cbn [events new_thread] in H.
  destruct (fold_left _ l _) as [objs evs]. apply wp_run in H as ([] & s & E & Hh & <- & HL). cbn in HL.
  pose proof Hh as [H1 H2 H3].
  assert (Hx : wp (exit_thread fuel) (λ _ s', events s' = events s ++ exits objs ∧ ∀ t, storage (slots s' t) = None) s).
  { unfold exit_thread. apply wp_bind, wp_get. destruct objs as [|[t v] objs].
    - cbn in H1. rewrite H1. apply wp_ret. split; [by rewrite app_nil_r|]. intros t.
      destruct (storage (slots s t)) as [v|] eqn:Ev; [|done]. by apply H3, not_elem_of_nil in Ev.
    - pose proof H1 as [-> _]. apply wp_bind, wp_modify. eapply wp_mono.
      { apply (wp_ExecuteDestructorList fuel ((t, v) :: objs)); cbn; [cbn in HL; lia|done|split; [done|apply H1]|]. intros u w Hu. by apply H3. }
      cbn beta. intros _ s' (-> & _ & _ & E4). split; [done|]. intros u. rewrite E4. case_bool_decide as Hu; [done|].
      cbn [slots]. destruct (storage (slots s u)) as [w|] eqn:Ew; [|done]. destruct Hu. apply list_elem_of_fmap. exists (u, w). split; [done|]. by apply H3. }
  apply wp_run in Hx as ([] & s' & E' & Hev & Hst). exists s, s'. split_and!; try done.
  - intros t v. unfold get. destruct (H3 t) as [-> Hs]. rewrite <-Hs. case_bool_decide as Ht; [split; [by intros [= ->]|by intros ->]|].
    split; [done|]. intros Hv. apply Hs in Hv. destruct Ht. apply list_elem_of_fmap. by exists (t, v).
  - intros t. unfold created. destruct (H3 t) as [-> _]. apply bool_decide_eq_true.
Qed.

(** The variables are not reset: an object that looks for another one while the thread
    exits still finds it created, after it was destroyed. *)
Lemma created_after_exit fuel l : (length l < fuel)%nat → ∀ t, t ∈ (spec_ops l).1.*1 →
  ∃ s s', do_ops fuel l new_thread = Ok (tt, s) ∧ exit_thread fuel s = Ok (tt, s') ∧ created t s' = true ∧ get t s' = Some None.
Proof.
  intros Hf t Ht. pose proof (wp_do_ops fuel l [] new_thread holds_new Hf) as H. unfold spec_ops in Ht. cbn [events new_thread] in H.
  destruct (fold_left _ l _) as [objs evs]. apply wp_run in H as ([] & s & E & [H1 H2 H3] & <- & HL). cbn in HL, Ht.
  destruct objs as [|[u v] objs]; [by apply not_elem_of_nil in Ht|].
  assert (Hx : wp (exit_thread fuel) (λ _ s', created t s' = true ∧ get t s' = Some None) s).
  { unfold exit_thread. apply wp_bind, wp_get. pose proof H1 as [-> _]. apply wp_bind, wp_modify. eapply wp_mono.
    { apply (wp_ExecuteDestructorList fuel ((u, v) :: objs)); cbn; [cbn in HL; lia|done|split; [done|apply H1]|]. intros u' w Hu. by apply H3. }
    cbn beta. intros _ s' (_ & _ & E3 & E4). unfold created, get. rewrite E3, E4. cbn [slots].
    destruct (H3 t) as [-> _]. rewrite !bool_decide_true by done. done. }
  apply wp_run in Hx as ([] & s' & E' & Hev & Hst). eauto 8.
Qed.
End ThreadLocal.
End ThreadLocal.

Lemma thread_local_objects_witness : ∃ s s',
  ThreadLocal.do_ops (λ _, 0) 9 [ThreadLocal.OCreate 1 10; ThreadLocal.OCreate 2 20; ThreadLocal.OCreate 1 11; ThreadLocal.OClear 1; ThreadLocal.OCreate 3 30] ThreadLocal.new_thread = Ok (tt, s) ∧
  ThreadLocal.exit_thread 9 s = Ok (tt, s') ∧
  ThreadLocal.events s' = [ThreadLocal.Constructed 1 10; ThreadLocal.Constructed 2 20; ThreadLocal.Destructed 1 10; ThreadLocal.Constructed 3 30;
    ThreadLocal.Destructed 3 30; ThreadLocal.Destructed 2 20].
Proof.
  destruct (ThreadLocal.thread_local_objects (V := Z) (λ _, 0) (λ _, eq_refl) 9
    [ThreadLocal.OCreate 1 10; ThreadLocal.OCreate 2 20; ThreadLocal.OCreate 1 11; ThreadLocal.OClear 1; ThreadLocal.OCreate 3 30] ltac:(cbn; lia))
    as (s & s' & E & _ & _ & _ & _ & E' & Ev & _).
  exists s, s'. split; [exact E|]. split; [exact E'|]. rewrite Ev. reflexivity.
Defined.
