(* ===== verification/StlMutex.v ===== *)
(** * Mutexes with the interface of the standard library: aos/common/stl_mutex.h

    [stl_mutex] remembers that an owner died until somebody calls [consistent], and
    [stl_recursive_mutex] counts how often its owner has locked it; both keep this in shared
    memory, next to an [aos_mutex].  Any number of tasks use one such mutex; a task may die
    between any two of its steps.  The operations of the [aos_mutex] are single steps here
    (SyncTheorems shows what they do): the kernel lets one task in at a time, and tells the
    next one when an owner died. *)

From stdpp Require Import functions relations.
From S2P Require Import Prelude.

Module StlMutex.

(** The [aos_mutex]: who holds it, and whether the one before died with it. *)
Record aos_mutex := mkNative { owner : option nat; died : bool }.

Record stl_mutex := mkStl { native_handle_ : aos_mutex; owner_died_ : bool }.

Record stl_recursive_mutex := mkRec { mutex_ : stl_mutex; recursive_locks_ : Z }.

Definition owner_died (r : stl_recursive_mutex) : bool := owner_died_ (mutex_ r).

(** What the task is about to do; [tr]: in [try_lock]. *)
Inductive pc :=
| Idle
| Islocked (tr : bool)
| Recurse (tr : bool)
| Acquire (tr : bool)
| Acquired (tr : bool) (ret : Z)
| Settle (tr : bool)
| Unlock
| UnlockStl
| UnlockNative
| Consistent
| Dead
| Failed.

(** [depth]: how often it has locked the mutex and not unlocked it; [result]: what its last
    [try_lock] returned. *)
Record task := mkTask { at_ : pc; depth : Z; result : bool }.

Record system := mkSystem { shared : stl_recursive_mutex; tasks : nat → task }.

(** The calls a task can make, a step of the call it is in, and its death. *)
Inductive action := lock | try_lock | unlock | consistent | go | die.

Definition mutex_islocked (i : nat) (m : aos_mutex) : bool := bool_decide (owner m = Some i).

(** [mutex_grab] and [mutex_trylock] of a mutex that is free. *)
Definition grant (i : nat) (m : aos_mutex) : Z * aos_mutex := (if died m then 1 else 0, mkNative (Some i) false).

Definition set_native (m : aos_mutex) (r : stl_recursive_mutex) : stl_recursive_mutex :=
  mkRec (mkStl m (owner_died_ (mutex_ r))) (recursive_locks_ r).
Definition set_owner_died (b : bool) (r : stl_recursive_mutex) : stl_recursive_mutex :=
  mkRec (mkStl (native_handle_ (mutex_ r)) b) (recursive_locks_ r).
Definition set_locks (n : Z) (r : stl_recursive_mutex) : stl_recursive_mutex := mkRec (mutex_ r) n.

(** One step of a call: the mutex, and where the task is then.  [None]: it waits.  [Failed]:
    a check failed (or the count would overflow) and the process is about to end. *)
Definition call_step (i : nat) (t : task) (r : stl_recursive_mutex) : option (stl_recursive_mutex * task) :=
  let m := native_handle_ (mutex_ r) in
  let goto p := mkTask p (depth t) (result t) in
  match at_ t with
  | Islocked tr => Some (r, goto (if mutex_islocked i m then Recurse tr else Acquire tr))
  | Recurse tr =>
      if owner_died r then Some (r, goto Failed)
      else if 2 ^ 31 - 1 <=? recursive_locks_ r then Some (r, goto Failed)
      else Some (set_locks (recursive_locks_ r + 1) r, mkTask Idle (depth t + 1) true)
  | Acquire tr =>
      match owner m with
      | None => let '(ret, m) := grant i m in Some (set_native m r, goto (Acquired tr ret))
      | Some j =>
          if tr then Some (r, mkTask Idle (depth t) false)
          else if (j =? i)%nat then Some (r, goto Failed) else None
      end
  | Acquired tr ret => Some (if ret =? 1 then set_owner_died true r else r, goto (Settle tr))
  | Settle tr =>
      if owner_died r then Some (set_locks 0 r, mkTask Idle (depth t + 1) true)
      else if recursive_locks_ r =? 0 then Some (r, mkTask Idle (depth t + 1) true)
      else Some (r, goto Failed)
  | Unlock =>
      if recursive_locks_ r =? 0 then Some (r, goto UnlockStl)
      else Some (set_locks (recursive_locks_ r - 1) r, mkTask Idle (depth t - 1) (result t))
  | UnlockStl => if owner_died r then Some (r, goto Failed) else Some (r, goto UnlockNative)
  | UnlockNative =>
      if mutex_islocked i m then Some (set_native (mkNative None false) r, mkTask Idle (depth t - 1) (result t))
      else Some (r, goto Failed)
  | Consistent => Some (set_owner_died false r, goto Idle)
  | Idle | Dead | Failed => None
  end.

Definition begin (a : action) : pc :=
  match a with lock => Islocked false | try_lock => Islocked true | unlock => Unlock | _ => Consistent end.

(** The kernel passes a dead owner's mutex on. *)
Definition bury (i : nat) (m : aos_mutex) : aos_mutex := if mutex_islocked i m then mkNative None true else m.

(** A task calls from [Idle], and unlocks and calls [consistent] only when it holds the mutex. *)
Definition step (i : nat) (a : action) (s : system) : option system :=
  let t := tasks s i in
  match a with
  | go => '(r, t') ← call_step i t (shared s); Some (mkSystem r (<[i := t']> (tasks s)))
  | die =>
      match at_ t with
      | Dead => None
      | _ => Some (mkSystem (set_native (bury i (native_handle_ (mutex_ (shared s)))) (shared s)) (<[i := mkTask Dead 0 (result t)]> (tasks s)))
      end
  | _ =>
      match at_ t with
      | Idle =>
          let may := match a with lock | try_lock => true | _ => 0 <? depth t end in
          if may then Some (mkSystem (shared s) (<[i := mkTask (begin a) (depth t) (result t)]> (tasks s))) else None
      | _ => None
      end
  end.

Definition start : system := mkSystem (mkRec (mkStl (mkNative None false) false) 0) (λ _, mkTask Idle 0 false).

Inductive reachable : system → Prop :=
| reach_start : reachable start
| reach_step s i a s' : reachable s → step i a s = Some s' → reachable s'.

(** An execution that can be evaluated. *)
Fixpoint execute (l : list (nat * action)) (s : system) : option system :=
  match l with [] => Some s | (i, a) :: l => s ← step i a s; execute l s end.

Lemma execute_reachable l : ∀ s s', reachable s → execute l s = Some s' → reachable s'.
Proof.
  induction l as [|[i a] l IH]; intros s s' R E; cbn in E; [by injection E as <-|].
  apply bind_Some in E as (s1 & E1 & E). apply (IH s1); [by eapply reach_step|done].
Qed.

(** ** The invariant *)

Definition holder (s : system) : option nat := owner (native_handle_ (mutex_ (shared s))).

(** What the task that holds the mutex knows. *)
Definition owner_ok (t : task) (r : stl_recursive_mutex) : Prop :=
  match at_ t with
  | Idle | Islocked _ | Recurse _ | Unlock | Consistent => depth t = recursive_locks_ r + 1 ∧ 0 ≤ recursive_locks_ r ∧ (owner_died r = true → recursive_locks_ r = 0)
  | UnlockStl => depth t = 1 ∧ recursive_locks_ r = 0
  | UnlockNative => depth t = 1 ∧ recursive_locks_ r = 0 ∧ owner_died r = false
  | Acquired _ ret => depth t = 0 ∧ (ret = 1 ∨ ret = 0 ∧ recursive_locks_ r = 0 ∧ owner_died r = false)
  | Settle _ => depth t = 0 ∧ (owner_died r = true ∨ recursive_locks_ r = 0)
  | Failed => owner_died r = true ∨ recursive_locks_ r = 2 ^ 31 - 1
  | Acquire _ | Dead => False
  end.

(** What the others are. *)
Definition other_ok (t : task) : Prop :=
  match at_ t with
  | Idle | Islocked _ | Acquire _ => depth t = 0
  | Dead => depth t = 0
  | _ => False
  end.

Record inv (s : system) : Prop := {
  inv_tasks : ∀ i, if bool_decide (holder s = Some i) then owner_ok (tasks s i) (shared s) else other_ok (tasks s i);
  inv_free : holder s = None → died (native_handle_ (mutex_ (shared s))) = false → recursive_locks_ (shared s) = 0 ∧ owner_died (shared s) = false;
  inv_held : holder s ≠ None → died (native_handle_ (mutex_ (shared s))) = false;
  inv_locks : 0 ≤ recursive_locks_ (shared s) < 2 ^ 31 }.

Lemma mutex_start : inv start.
Proof. split; cbn; [done|done|done|lia]. Qed.

Definition owned (r : stl_recursive_mutex) : option nat := owner (native_handle_ (mutex_ r)).
Definition left_dead (r : stl_recursive_mutex) : bool := died (native_handle_ (mutex_ r)).

(** A step of the task that holds the mutex, or has just got it. *)
Lemma inv_owner s i r t : inv s → (holder s = Some i ∨ holder s = None) → owned r = Some i → left_dead r = false →
  owner_ok t r → 0 ≤ recursive_locks_ r < 2 ^ 31 → inv (mkSystem r (<[i := t]> (tasks s))).
Proof.
  intros [I1 _ _ _] Hi Ho Hd Ht Hr. unfold owned, left_dead in *. split; unfold holder in *; cbn; rewrite ?Ho; try done.
  intros j. destruct (decide (i = j)) as [->|Hne]; [by rewrite bool_decide_true, fn_lookup_insert|].
  rewrite bool_decide_false, fn_lookup_insert_ne by congruence. specialize (I1 j). rewrite bool_decide_false in I1; [done|].
  destruct Hi as [-> | ->]; congruence.
Qed.

(** It lets go. *)
Lemma inv_release s i r t : inv s → holder s = Some i → owned r = None →
  (left_dead r = false → recursive_locks_ r = 0 ∧ owner_died r = false) →
  other_ok t → 0 ≤ recursive_locks_ r < 2 ^ 31 → inv (mkSystem r (<[i := t]> (tasks s))).
Proof.
  intros [I1 _ _ _] Hi Ho Hd Ht Hr. unfold owned, left_dead in *. split; unfold holder in *; cbn; rewrite ?Ho; try done.
  intros j. rewrite bool_decide_false by done. destruct (decide (i = j)) as [->|Hne]; [by rewrite fn_lookup_insert|].
  rewrite fn_lookup_insert_ne by done. specialize (I1 j). rewrite bool_decide_false in I1; [done|]. rewrite Hi. congruence.
Qed.

(** A step of another task. *)
Lemma inv_other s i t : inv s → holder s ≠ Some i → other_ok t → inv (mkSystem (shared s) (<[i := t]> (tasks s))).
Proof.
  intros [I1 I2 I3 I4] Hi Ht. split; unfold holder in *; cbn; try done.
  intros j. specialize (I1 j). destruct (decide (i = j)) as [->|Hne].
  - by rewrite bool_decide_false, fn_lookup_insert by done.
  - by rewrite fn_lookup_insert_ne by done.
Qed.

(** Every step of a call keeps the invariant. *)
Lemma inv_go s i r t : inv s → call_step i (tasks s i) (shared s) = Some (r, t) → inv (mkSystem r (<[i := t]> (tasks s))).
Proof.
  intros I E. pose proof (inv_tasks _ I i) as Ht. pose proof (inv_locks _ I) as Hl. pose proof (inv_held _ I) as Hh.
  pose proof (inv_free _ I) as Hfree. unfold holder in Hh, Hfree. unfold call_step, mutex_islocked in E.
  case_bool_decide as Ho; unfold holder in Ho.
  - rewrite Ho in *. specialize (Hh ltac:(done)). unfold owner_ok in Ht.
    destruct (at_ (tasks s i)) as [|tr|tr|tr|tr ret|tr| | | | | |] eqn:Ep; try done.
    + rewrite bool_decide_true in E by done. injection E as <- <-. apply inv_owner; auto.
    + destruct (owner_died (shared s)) eqn:Ed; [injection E as <- <-; apply inv_owner; auto; cbn; by left|].
      destruct (Z.leb_spec (2 ^ 31 - 1) (recursive_locks_ (shared s))); injection E as <- <-; apply inv_owner; auto; cbn.
      * right. lia.
      * split_and!; [lia|lia|]. unfold owner_died in *. cbn. congruence.
      * lia.
    + injection E as <- <-. destruct (Z.eqb_spec ret 1) as [->|]; apply inv_owner; auto; cbn; [by split; [tauto|left]|]. split; [tauto|].
      right. destruct Ht as [_ [?|(_ & ? & _)]]; [done|tauto].
    + destruct (owner_died (shared s)) eqn:Ed; [injection E as <- <-; apply inv_owner; auto; cbn; lia|].
      destruct Ht as [Hd [?|Hz]]; [done|]. rewrite Hz in E. cbn in E. injection E as <- <-. apply inv_owner; auto. cbn. rewrite Hz, Hd. split_and!; [lia|lia|done].
    + destruct (Z.eqb_spec (recursive_locks_ (shared s)) 0); injection E as <- <-; apply inv_owner; auto; cbn; [lia| |lia].
      split_and!; [lia|lia|]. intros Hd. destruct Ht as (_ & _ & Ht). specialize (Ht Hd). lia.
    + destruct (owner_died (shared s)) eqn:Ed; injection E as <- <-; apply inv_owner; auto; cbn; [by left|]. destruct Ht. by split_and!.
    + rewrite bool_decide_true in E by done. injection E as <- <-. destruct Ht as (Hd & Hr & Hod).
      eapply inv_release; [done|done|done|cbn; tauto|cbn; lia|cbn; lia].
    + injection E as <- <-. apply inv_owner; auto. cbn. split_and!; [tauto|tauto|]. done.
  - unfold other_ok in Ht. destruct (at_ (tasks s i)) as [|tr|tr|tr|tr ret|tr| | | | | |] eqn:Ep; try done.
    + rewrite bool_decide_false in E by done. injection E as <- <-. by apply inv_other.
    + destruct (owner (native_handle_ (mutex_ (shared s)))) as [j|] eqn:Eo.
      * destruct tr; [injection E as <- <-; apply inv_other; [done|unfold holder; congruence|done]|].
        destruct (Nat.eqb_spec j i) as [->|]; [done|done].
      * cbn in E. injection E as <- <-. apply inv_owner; auto. cbn. split; [done|].
        destruct (died _) eqn:Ed; [by left|right]. split; [done|]. by apply Hfree.
Qed.

Lemma inv_step s i a s' : inv s → step i a s = Some s' → inv s'.
Proof.
  intros I E. pose proof (inv_tasks _ I i) as Ht. pose proof (inv_locks _ I) as Hl. pose proof (inv_held _ I) as Hh. unfold step in E.
  assert (Hcall : ∀ p, at_ (tasks s i) = Idle → (0 < depth (tasks s i) ∨ p = Islocked true ∨ p = Islocked false) →
    p ∈ [Islocked true; Islocked false; Unlock; Consistent] → inv (mkSystem (shared s) (<[i := mkTask p (depth (tasks s i)) (result (tasks s i))]> (tasks s)))).
  { intros p Ep Hd Hp. case_bool_decide as Ho.
    - apply inv_owner; auto; [apply Hh; congruence|]. unfold owner_ok in *. rewrite Ep in Ht. cbn.
      rewrite !elem_of_cons in Hp. destruct Hp as [->|[->|[->|[->|?%elem_of_nil]]]]; done.
    - apply inv_other; [done|done|]. unfold other_ok in *. rewrite Ep in Ht. cbn.
      destruct Hd as [Hd|[-> | ->]]; [lia|done|done]. }
  destruct a.
  - destruct (at_ (tasks s i)) eqn:Ep; try done. injection E as <-. apply Hcall; [done|auto|set_solver].
  - destruct (at_ (tasks s i)) eqn:Ep; try done. injection E as <-. apply Hcall; [done|auto|set_solver].
  - destruct (at_ (tasks s i)) eqn:Ep; try done. destruct (Z.ltb_spec 0 (depth (tasks s i))); [|done]. injection E as <-. apply Hcall; [done|auto|set_solver].
  - destruct (at_ (tasks s i)) eqn:Ep; try done. destruct (Z.ltb_spec 0 (depth (tasks s i))); [|done]. injection E as <-. apply Hcall; [done|auto|set_solver].
  - apply bind_Some in E as ([r t] & E1 & [= <-]). by apply inv_go.
  - assert (Es' : s' = mkSystem (set_native (bury i (native_handle_ (mutex_ (shared s)))) (shared s)) (<[i := mkTask Dead 0 (result (tasks s i))]> (tasks s)))
      by (destruct (at_ (tasks s i)); congruence). subst s'. clear E. unfold bury, mutex_islocked.
    case_bool_decide as Ho.
    + rewrite bool_decide_true by done. eapply inv_release; done.
    + rewrite bool_decide_false by done. assert (set_native (native_handle_ (mutex_ (shared s))) (shared s) = shared s) as ->; [|by apply inv_other].
      unfold set_native. destruct (shared s) as [[n o] l]. done.
Qed.

Lemma inv_reachable s : reachable s → inv s.
Proof. induction 1; [apply mutex_start|by eapply inv_step]. Qed.

(** C22: Whatever any number of tasks do with a recursive mutex, and wherever they die: at most
    one of them has it locked, and [recursive_locks_] is how often it has locked it again.
    A mutex that nobody holds and whose last owner did not die has no locks left in it and
    is consistent.  No check fails for a task that does not lock or unlock a mutex it knows
    to be inconsistent (or more often than an [int] can count): the task that gets the mutex
    of a dead owner starts with a count of 0, and is told.  A task that is [Idle] unlocks the
    [aos_mutex] exactly with its last [unlock]. *)
Theorem recursive_mutex s : reachable s →
  (∀ i j, 0 < depth (tasks s i) → 0 < depth (tasks s j) → i = j) ∧
  (∀ i, at_ (tasks s i) = Idle → 0 < depth (tasks s i) ↔ holder s = Some i) ∧
  (∀ i, at_ (tasks s i) = Idle → 0 < depth (tasks s i) → recursive_locks_ (shared s) = depth (tasks s i) - 1 ∧
     (owner_died (shared s) = true → depth (tasks s i) = 1)) ∧
  (holder s = None → left_dead (shared s) = false → recursive_locks_ (shared s) = 0 ∧ owner_died (shared s) = false) ∧
  (∀ i, at_ (tasks s i) = Failed → holder s = Some i ∧ (owner_died (shared s) = true ∨ recursive_locks_ (shared s) = 2 ^ 31 - 1)) ∧
  (∀ i tr ret, at_ (tasks s i) = Acquired tr ret → ret = 0 → owner_died (shared s) = false ∧ recursive_locks_ (shared s) = 0).
Proof.
  intros R%inv_reachable. pose proof (inv_tasks _ R) as Ht.
  assert (Hheld : ∀ i, 0 < depth (tasks s i) → holder s = Some i).
  { intros i Hi. specialize (Ht i). case_bool_decide; [done|]. unfold other_ok in Ht. destruct (at_ (tasks s i)); try done; lia. }
  split_and!.
  - intros i j Hi%Hheld Hj%Hheld. congruence.
  - intros i Hi. split; [apply Hheld|]. intros Ho. specialize (Ht i). rewrite bool_decide_true in Ht by done. unfold owner_ok in Ht. rewrite Hi in Ht. lia.
  - intros i Hi Hd. specialize (Ht i). rewrite bool_decide_true in Ht by auto. unfold owner_ok in Ht. rewrite Hi in Ht.
    destruct Ht as (-> & ? & Ho). split; [lia|]. intros Hod. specialize (Ho Hod). lia.
  - apply R.
  - intros i Hi. specialize (Ht i). case_bool_decide; [|by unfold other_ok in Ht; rewrite Hi in Ht]. split; [done|].
    unfold owner_ok in Ht. by rewrite Hi in Ht.
  - intros i tr ret Hi ->. specialize (Ht i). case_bool_decide; [|by unfold other_ok in Ht; rewrite Hi in Ht].
    unfold owner_ok in Ht. rewrite Hi in Ht. destruct Ht as [_ [?|(_ & ? & ?)]]; done.
Qed.
End StlMutex.

(** Task 0 locks twice and dies; task 1 gets the mutex, inconsistent and with a count of 0. *)
Definition dead_owner : list (nat * StlMutex.action) :=
  let open_ i := [(i, StlMutex.lock); (i, StlMutex.go); (i, StlMutex.go); (i, StlMutex.go); (i, StlMutex.go)] in
  open_ 0%nat ++ [(0, StlMutex.lock); (0, StlMutex.go); (0, StlMutex.go); (0, StlMutex.die)]%nat ++ open_ 1%nat.

Lemma recursive_mutex_witness : ∃ s, StlMutex.execute dead_owner StlMutex.start = Some s ∧
  StlMutex.depth (StlMutex.tasks s 1%nat) = 1 ∧ StlMutex.owner_died (StlMutex.shared s) = true ∧ StlMutex.recursive_locks_ (StlMutex.shared s) = 0.
Proof.
  destruct (StlMutex.execute dead_owner StlMutex.start) as [s|] eqn:E; [|vm_compute in E; discriminate].
  destruct (StlMutex.recursive_mutex s) as (_ & _ & H & _); [by eapply StlMutex.execute_reachable; [constructor|]|].
  exists s. split; [reflexivity|]. destruct (H 1%nat) as [Hr _]; [vm_compute in E; injection E as <-; reflexivity..|].
  split_and!; [vm_compute in E; injection E as <-; reflexivity..|]. rewrite Hr. vm_compute in E. injection E as <-. reflexivity.
Defined.
