(* ===== verification/Events.v ===== *)
(** * Events: aos/vision/events/epoll_events.h and .cc, tcp_server.h and .cc

    An [EpollLoop] waits for its file descriptors and its timeouts; a [TCPServer] is one of
    its events, accepts connections and keeps them in an [intrusive_free_list].  Module
    [Timeouts] is the loop's timing, module [Server] the connections. *)

From stdpp Require Import functions.
From S2P Require Import Prelude.

Module Timeouts.

(** ** EpollTimeout *)

Record EpollTimeout := mkTimeout { start_time : Z; timeout : Z }.

Definition SetTimeout (t : Z) : EpollTimeout := mkTimeout (-1) t.

Definition GetTimeout (x : EpollTimeout) (cur_time : Z) : res (Z * EpollTimeout) :=
  if timeout x <? 0 then Ok (timeout x, x)
  else
    let x := if start_time x <? 0 then mkTimeout cur_time (timeout x) else x in
    d ← i64 (cur_time - start_time x);
    timeout_adj ← i64 (timeout x - d);
    Ok (if timeout_adj <? 0 then 0 else swrap 32 timeout_adj, x).

(** ** The loop

    The virtual functions of the clients are [client]: from its state and what is called to
    the new state and the [SetTimeout] calls it made. *)
Section Loop.
Context {X : Type}.

Inductive callback := CTick (i : nat) | CHit (i : nat) | CEvent (e : nat) (events : Z).

#[global] Instance callback_eq_dec : EqDecision callback.
Proof. solve_decision. Defined.

Context (client : X → callback → X * list (nat * Z)).

Record EpollLoop := mkLoop { timeouts_ : list EpollTimeout; client_state : X; called : list (callback * Z) }.

Notation ML := (ST EpollLoop).

Definition AddTimeout (x : EpollTimeout) : ML unit := st_modify (λ l, mkLoop (timeouts_ l ++ [x]) (client_state l) (called l)).

Definition set_all (sets : list (nat * Z)) (l : list EpollTimeout) : list EpollTimeout :=
  fold_left (λ l '(i, t), <[i := SetTimeout t]> l) sets l.

(** [now] is only there for the record. *)
Definition call (c : callback) (now : Z) : ML unit :=
  st_modify (λ l, let '(x, sets) := client (client_state l) c in mkLoop (set_all sets (timeouts_ l)) x (called l ++ [(c, now)])).

Definition look (i : nat) (cur_time : Z) : ML Z :=
  l ← st_get;
  x ← st_lift (of_option Undefined (timeouts_ l !! i));
  '(v, x) ← st_lift (GetTimeout x cur_time);
  _ ← st_modify (λ l, mkLoop (<[i := x]> (timeouts_ l)) (client_state l) (called l));
  mret v.

(** [for (EpollTimeout* timeout : timeouts_)], from the [i]th of [n] on. *)
Fixpoint calc_loop (n i : nat) (cur_time timeout_val : Z) : ML Z :=
  match n with
  | O => mret timeout_val
  | S n =>
      new_timeout ← look i cur_time;
      calc_loop n (S i) cur_time
        (if 0 <=? new_timeout then if timeout_val <? 0 then new_timeout else if new_timeout <? timeout_val then new_timeout else timeout_val
         else timeout_val)
  end.

Definition CalcTimeout (cur_time : Z) : ML Z := l ← st_get; calc_loop (length (timeouts_ l)) 0 cur_time (-1).

Fixpoint handle_loop (n i : nat) (cur_time : Z) : ML unit :=
  match n with
  | O => mret tt
  | S n =>
      _ ← call (CTick i) cur_time;
      new_timeout ← look i cur_time;
      _ ← (if new_timeout =? 0 then call (CHit i) cur_time else mret tt);
      handle_loop n (S i) cur_time
  end.

Definition HandleTimeouts (cur_time : Z) : ML unit := l ← st_get; handle_loop (length (timeouts_ l)) 0 cur_time.

Fixpoint dispatch (evs : list (nat * Z)) (now : Z) : ML unit :=
  match evs with [] => mret tt | (e, f) :: evs => _ ← call (CEvent e f) now; dispatch evs now end.

(** What the kernel does in a turn: when it is before [epoll_wait], the events it returns
    (none for a return of -1), and when it is then. *)
Record wait := mkWait { before : Z; ready : list (nat * Z); after : Z }.

(** One turn of [Run]; the result is the [timeout] of [epoll_wait]. *)
Definition Run_turn (w : wait) : ML Z :=
  timeout ← CalcTimeout (before w);
  _ ← HandleTimeouts (after w);
  _ ← dispatch (ready w) (after w);
  mret timeout.

Fixpoint Run (ws : list wait) : ML (list Z) :=
  match ws with [] => mret [] | w :: ws => v ← Run_turn w; vs ← Run ws; mret (v :: vs) end.

(** ** One timeout *)

(** Times that are far from the ends of an [int64_t]. *)
Definition time_ok (t : Z) : Prop := 0 ≤ t < 2 ^ 62.

Definition timeout_ok (now : Z) (x : EpollTimeout) : Prop := timeout x < 2 ^ 31 ∧ start_time x ≤ now ∧ - 2 ^ 31 ≤ timeout x.

Definition started (now : Z) (x : EpollTimeout) : EpollTimeout :=
  if timeout x <? 0 then x else if start_time x <? 0 then mkTimeout now (timeout x) else x.

(** How long it still runs. *)
Definition remaining (now : Z) (x : EpollTimeout) : Z := Z.max 0 (timeout x - (now - start_time x)).

Lemma GetTimeout_ok x now : time_ok now → timeout_ok now x →
  GetTimeout x now = Ok (if timeout x <? 0 then timeout x else remaining now (started now x), started now x).
Proof.
  unfold time_ok, timeout_ok. intros Hn (H1 & H2 & H3). unfold GetTimeout, started. destruct (Z.ltb_spec (timeout x) 0); [done|].
  set (y := if start_time x <? 0 then mkTimeout now (timeout x) else x).
  assert (Hy : timeout y = timeout x ∧ 0 ≤ start_time y ≤ now).
  { unfold y. destruct (Z.ltb_spec (start_time x) 0); cbn; lia. } destruct Hy as [Hy1 Hy2].
  rewrite (chk_ok 64 (now - start_time y)) by (unfold in_signed; lia). rewrite res_bind_Ok.
  rewrite (chk_ok 64 (timeout y - _)) by (unfold in_signed; lia). rewrite res_bind_Ok. do 2 f_equal. unfold remaining.
  destruct (Z.ltb_spec (timeout y - (now - start_time y)) 0); [lia|]. rewrite swrap_small by (unfold in_signed; lia). lia.
Qed.

Lemma started_ok now now' x : now ≤ now' → timeout_ok now x → timeout_ok now' (started now x).
Proof.
  unfold timeout_ok, started. intros. destruct (Z.ltb_spec (timeout x) 0); [lia|]. destruct (Z.ltb_spec (start_time x) 0); cbn; lia.
Qed.

Lemma started_twice now now' x : now ≤ now' → 0 ≤ now → started now' (started now x) = started now x.
Proof.
  intros. unfold started. destruct (Z.ltb_spec (timeout x) 0) as [E|E]; [by rewrite (proj2 (Z.ltb_lt _ _) E)|].
  destruct (Z.ltb_spec (start_time x) 0) as [E2|E2]; cbn.
  - rewrite (proj2 (Z.ltb_ge _ _) E). destruct (Z.ltb_spec now 0); [lia|done].
  - rewrite (proj2 (Z.ltb_ge _ _) E). by rewrite (proj2 (Z.ltb_ge _ _) E2).
Qed.

(** ** The earliest one *)

Definition value (now : Z) (x : EpollTimeout) : Z := if timeout x <? 0 then timeout x else remaining now (started now x).

(** The choice [CalcTimeout] makes. *)
Definition earlier (v new : Z) : Z := if 0 <=? new then if v <? 0 then new else if new <? v then new else v else v.

Definition all_ok (now : Z) (ts : list EpollTimeout) : Prop := Forall (timeout_ok now) ts.

Lemma loop_looks i now l x : time_ok now → timeouts_ l !! i = Some x → timeout_ok now x →
  look i now l = Ok (value now x, mkLoop (<[i := started now x]> (timeouts_ l)) (client_state l) (called l)).
Proof.
  intros Hn Hx Hok. unfold look, st_get, st_lift, mbind, st_bind. cbn. rewrite Hx. cbn. rewrite GetTimeout_ok by done. done.
Qed.

Lemma calc_loop_ok now : time_ok now → ∀ n i v l, (i + n = length (timeouts_ l))%nat → all_ok now (drop i (timeouts_ l)) →
  calc_loop n i now v l = Ok (fold_left (λ v x, earlier v (value now x)) (drop i (timeouts_ l)) v,
    mkLoop (take i (timeouts_ l) ++ (started now <$> drop i (timeouts_ l))) (client_state l) (called l)).
Proof.
  intros Hn. induction n as [|n IH]; intros i v [ts x cs] Hl Hok; cbn [timeouts_ client_state called] in *.
  { rewrite drop_ge, take_ge by lia. cbn. by rewrite app_nil_r. }
  destruct (lookup_lt_is_Some_2 ts i) as [y Hy]; [lia|]. cbn [calc_loop].
  rewrite (drop_S ts y i Hy) in *. apply Forall_cons in Hok as [Hy1 Hok].
  unfold mbind at 1, st_bind. rewrite (loop_looks i now _ y) by done. cbn [timeouts_ client_state called].
  rewrite IH; cbn [timeouts_ client_state called]; [|rewrite length_insert; lia|by rewrite drop_insert_lt by lia].
  rewrite drop_insert_lt by lia. cbn [fold_left fmap list_fmap]. do 3 f_equal.
  rewrite (take_S_r _ _ (started now y)) by (apply list_lookup_insert_eq; lia). rewrite take_insert_ge by lia. by rewrite <-app_assoc.
Qed.

(** [CalcTimeout] returns the shortest time that is left, or -1 if nothing is armed. *)
Lemma CalcTimeout_ok now l : time_ok now → all_ok now (timeouts_ l) → ∃ v,
  CalcTimeout now l = Ok (v, mkLoop (started now <$> timeouts_ l) (client_state l) (called l)) ∧
  (v = -1 ∧ Forall (λ x, timeout x < 0) (timeouts_ l) ∨
   Exists (λ x, 0 ≤ timeout x ∧ v = remaining now (started now x)) (timeouts_ l)) ∧
  Forall (λ x, 0 ≤ timeout x → 0 ≤ v ≤ remaining now (started now x)) (timeouts_ l).
Proof.
  intros Hn Hok. unfold CalcTimeout, st_get, mbind, st_bind. rewrite calc_loop_ok by done. rewrite drop_0, take_0. eexists. split; [done|].
  clear Hok. set (f := λ v x, earlier v (value now x)).
  assert (H : ∀ ts v, -1 ≤ v →
    (fold_left f ts v = v ∧ (v = -1 → Forall (λ x, timeout x < 0) ts) ∨ Exists (λ x, 0 ≤ timeout x ∧ fold_left f ts v = remaining now (started now x)) ts) ∧
    Forall (λ x, 0 ≤ timeout x → 0 ≤ fold_left f ts v ≤ remaining now (started now x)) ts ∧ (0 ≤ v → 0 ≤ fold_left f ts v ≤ v)).
  { clear l. induction ts as [|x ts IH]; intros v Hv; cbn [fold_left].
    { split_and!; [by left|constructor|lia]. }
    assert (Hf : if 0 <=? timeout x then 0 ≤ f v x ≤ remaining now (started now x) ∧ (0 ≤ v → f v x ≤ v) ∧ (f v x = v ∧ 0 ≤ v ∨ f v x = remaining now (started now x))
                 else f v x = v).
    { unfold f, earlier, value. destruct (Z.leb_spec 0 (timeout x)).
      - rewrite (proj2 (Z.ltb_ge (timeout x) 0)) by done. assert (0 ≤ remaining now (started now x)) by (unfold remaining; lia).
        rewrite (proj2 (Z.leb_le 0 _)) by done. destruct (Z.ltb_spec v 0); [split_and!; try lia; auto|].
        destruct (Z.ltb_spec (remaining now (started now x)) v); split_and!; try lia; auto.
      - rewrite (proj2 (Z.ltb_lt (timeout x) 0)) by done. destruct (Z.leb_spec 0 (timeout x)); [lia|done]. }
    destruct (Z.leb_spec 0 (timeout x)).
    - destruct Hf as (F1 & F2 & F3). destruct (IH (f v x)) as (I1 & I2 & I3); [lia|]. split_and!.
      + destruct I1 as [[I1 _]|I1]; [|right; by apply Exists_cons_tl].
        destruct F3 as [[F3 F4]|F3]; [left; split; [congruence|lia]|]. right. apply Exists_cons_hd. split; [done|congruence].
      + constructor; [intros _; lia|done].
      + intros. lia.
    - rewrite Hf. destruct (IH v Hv) as (I1 & I2 & I3). split_and!.
      + destruct I1 as [[I1 I4]|I1]; [left; split; [done|]|right; by apply Exists_cons_tl]. intros E. constructor; [done|auto].
      + constructor; [lia|done].
      + done. }
  destruct (H (timeouts_ l) (-1) ltac:(lia)) as (H1 & H2 & _). split; [|done]. destruct H1 as [[-> H1]|H1]; [left|right]; auto.
Qed.

(** ** A timeout that nobody sets again *)

Section Quiet.
Context (k : nat).

(** Clients set timeouts to [int]s. *)
Hypothesis Hclient : ∀ x c, Forall (λ '(i, t), i ≠ k ∧ - 2 ^ 31 ≤ t < 2 ^ 31) (client x c).2.

Lemma set_all_ok now sets : ∀ ts, 0 ≤ now → Forall (λ '(i, t), i ≠ k ∧ - 2 ^ 31 ≤ t < 2 ^ 31) sets → all_ok now ts →
  all_ok now (set_all sets ts) ∧ set_all sets ts !! k = ts !! k ∧ length (set_all sets ts) = length ts.
Proof.
  induction sets as [|[i t] sets IH]; intros ts Hn HF Hok; [done|]. apply Forall_cons in HF as [[Hi Ht] HF]. cbn.
  destruct (IH (<[i := SetTimeout t]> ts) Hn HF) as (H1 & H2 & H3).
  { apply Forall_insert; [done|]. unfold timeout_ok. cbn. lia. }
  unfold set_all in *. rewrite H2, H3, length_insert, list_lookup_insert_ne by done. done.
Qed.

(** The state after callbacks at [now]: the clock aside, [k] and its calls are as the code leaves them. *)
Definition hits (l : list (callback * Z)) : list Z := (filter (λ c, c.1 = CHit k) l).*2.

Lemma hits_app l1 l2 : hits (l1 ++ l2) = hits l1 ++ hits l2.
Proof. unfold hits. by rewrite filter_app, fmap_app. Qed.

Lemma call_ok c now l : 0 ≤ now → all_ok now (timeouts_ l) → ∃ l', call c now l = Ok (tt, l') ∧ all_ok now (timeouts_ l') ∧
  timeouts_ l' !! k = timeouts_ l !! k ∧ length (timeouts_ l') = length (timeouts_ l) ∧ called l' = called l ++ [(c, now)].
Proof.
  intros Hn Hok. unfold call, st_modify. destruct (client (client_state l) c) as [x sets] eqn:E.
  pose proof (Hclient (client_state l) c) as HF. rewrite E in HF. destruct (set_all_ok now sets (timeouts_ l) Hn HF Hok) as (H1 & H2 & H3).
  eexists. split; [done|]. cbn. done.
Qed.

Lemma handle_loop_ok now : time_ok now → ∀ n i l x, (i + n = length (timeouts_ l))%nat → all_ok now (timeouts_ l) → timeouts_ l !! k = Some x →
  ∃ l' new, handle_loop n i now l = Ok (tt, l') ∧ all_ok now (timeouts_ l') ∧ length (timeouts_ l') = length (timeouts_ l) ∧
    timeouts_ l' !! k = Some (if decide (i ≤ k)%nat then started now x else x) ∧
    called l' = called l ++ new ∧ hits new = if decide (i ≤ k)%nat then if value now x =? 0 then [now] else [] else [].
Proof.
  intros Hn. pose proof Hn as [Hn0 _]. induction n as [|n IH]; intros i l x Hl Hok Hx.
  { apply lookup_lt_Some in Hx as Hk. exists l, []. rewrite !decide_False, app_nil_r by lia. done. }
  cbn [handle_loop]. destruct (call_ok (CTick i) now l Hn0 Hok) as (l1 & E1 & O1 & K1 & L1 & C1). rewrite (st_bind_step _ _ _ _ _ E1).
  destruct (lookup_lt_is_Some_2 (timeouts_ l1) i) as [y Hy]; [lia|].
  assert (Hy1 : timeout_ok now y) by (by eapply Forall_lookup_1 in O1). rewrite (st_bind_step _ _ _ _ _ (loop_looks i now l1 y Hn Hy Hy1)).
  set (l2 := mkLoop (<[i := started now y]> (timeouts_ l1)) (client_state l1) (called l1)).
  assert (O2 : all_ok now (timeouts_ l2)) by (apply Forall_insert; [done|by eapply started_ok]).
  assert (K2 : timeouts_ l2 !! k = Some (if decide (i = k) then started now x else x)).
  { cbn. destruct (decide (i = k)) as [->|]; [|by rewrite list_lookup_insert_ne, K1 by done].
    rewrite list_lookup_insert_eq by lia. congruence. }
  assert (H : ∃ l3 new, (if value now y =? 0 then call (CHit i) now else mret tt) l2 = Ok (tt, l3) ∧ all_ok now (timeouts_ l3) ∧
    timeouts_ l3 !! k = timeouts_ l2 !! k ∧ length (timeouts_ l3) = length (timeouts_ l) ∧ called l3 = called l2 ++ new ∧
    hits new = if decide (i = k) then if value now x =? 0 then [now] else [] else []).
  { assert (Hyx : i = k → y = x) by (intros ->; congruence).
    destruct (value now y =? 0) eqn:Ev.
    - destruct (call_ok (CHit i) now l2 Hn0 O2) as (l3 & E3 & O3 & K3 & L3 & C3). exists l3, [(CHit i, now)].
      split_and!; [done|done|done| |done|]. { rewrite L3. cbn. by rewrite length_insert. }
      unfold hits. rewrite filter_cons. cbn. destruct (decide (i = k)) as [->|Hne].
      + rewrite decide_True by done. rewrite <-(Hyx eq_refl), Ev. done.
      + by rewrite decide_False by congruence.
    - exists l2, []. rewrite app_nil_r. split_and!; [done|done|done| |done|]. { cbn. by rewrite length_insert. }
      destruct (decide (i = k)) as [->|]; [|done]. by rewrite <-(Hyx eq_refl), Ev. }
  destruct H as (l3 & new3 & E3 & O3 & K3 & L3 & C3 & H3). rewrite (st_bind_step _ _ _ _ _ E3). rewrite K2 in K3.
  destruct (IH (S i) l3 _ ltac:(lia) O3 K3) as (l4 & new4 & E4 & O4 & L4 & K4 & C4 & H4).
  exists l4, ((CTick i, now) :: new3 ++ new4). split_and!; [done|done|lia| | |].
  - rewrite K4. repeat destruct (decide _); try done; lia.
  - rewrite C4, C3. cbn [called l2]. rewrite C1. by rewrite <-!app_assoc.
  - change ((CTick i, now) :: new3 ++ new4) with ([(CTick i, now)] ++ new3 ++ new4). rewrite !hits_app, H3, H4. cbn.
    repeat destruct (decide _); try done; try lia; by rewrite app_nil_r.
Qed.

Lemma loop_dispatches now evs : ∀ l, 0 ≤ now → all_ok now (timeouts_ l) → ∃ l' new, dispatch evs now l = Ok (tt, l') ∧ all_ok now (timeouts_ l') ∧
  length (timeouts_ l') = length (timeouts_ l) ∧ timeouts_ l' !! k = timeouts_ l !! k ∧ called l' = called l ++ new ∧ hits new = [].
Proof.
  induction evs as [|[e f] evs IH]; intros l Hn Hok; cbn [dispatch].
  { exists l, []. by rewrite app_nil_r. }
  destruct (call_ok (CEvent e f) now l Hn Hok) as (l1 & E1 & O1 & K1 & L1 & C1). rewrite (st_bind_step _ _ _ _ _ E1).
  destruct (IH l1 Hn O1) as (l2 & new & E2 & O2 & L2 & K2 & C2 & H2). exists l2, ((CEvent e f, now) :: new).
  split_and!; [done|done|lia|congruence|by rewrite C2, C1, <-app_assoc|]. change (_ :: new) with ([(CEvent e f, now)] ++ new). by rewrite hits_app, H2.
Qed.

Definition deadline (x : EpollTimeout) : Z := start_time x + timeout x.

Lemma all_ok_mono now now' ts : now ≤ now' → all_ok now ts → all_ok now' ts.
Proof. intros H Hok. eapply Forall_impl; [exact Hok|]. unfold timeout_ok. lia. Qed.

Lemma started_start now x : 0 ≤ now → 0 ≤ timeout x → start_time x ≤ now →
  0 ≤ start_time (started now x) ≤ now ∧ timeout (started now x) = timeout x.
Proof.
  intros. unfold started. rewrite (proj2 (Z.ltb_ge _ _)) by done. destruct (Z.ltb_spec (start_time x) 0); cbn; lia.
Qed.

(** A turn of the loop, as [k] sees it. *)
Lemma loop_turns w l x : time_ok (before w) → time_ok (after w) → before w ≤ after w → all_ok (before w) (timeouts_ l) →
  timeouts_ l !! k = Some x → 0 ≤ timeout x →
  let y := started (before w) x in
  ∃ v l' new, Run_turn w l = Ok (v, l') ∧ all_ok (after w) (timeouts_ l') ∧ length (timeouts_ l') = length (timeouts_ l) ∧
    timeouts_ l' !! k = Some y ∧ called l' = called l ++ new ∧
    hits new = (if deadline y <=? after w then [after w] else []) ∧ 0 ≤ v ≤ Z.max 0 (deadline y - before w).
Proof.
  intros Hb Ha Hba Hok Hx Ht y. pose proof Hb as [Hb0 _]. pose proof Ha as [Ha0 _].
  assert (Hxok : timeout_ok (before w) x) by (by eapply Forall_lookup_1 in Hok). pose proof Hxok as (_ & Hst & _).
  destruct (started_start (before w) x Hb0 Ht Hst) as [Hs1 Hs2]. fold y in Hs1, Hs2.
  destruct (CalcTimeout_ok (before w) l Hb Hok) as (v & E1 & _ & Hv). unfold Run_turn. rewrite (st_bind_step _ _ _ _ _ E1).
  set (l1 := mkLoop (started (before w) <$> timeouts_ l) (client_state l) (called l)).
  assert (O1 : all_ok (after w) (timeouts_ l1)).
  { apply Forall_fmap. eapply Forall_impl; [exact Hok|]. intros z Hz. by eapply started_ok. }
  assert (K1 : timeouts_ l1 !! k = Some y) by (cbn; by rewrite list_lookup_fmap, Hx).
  destruct (handle_loop_ok (after w) Ha (length (timeouts_ l1)) 0 l1 y eq_refl O1 K1) as (l2 & new2 & E2 & O2 & L2 & K2 & C2 & H2).
  assert (E2' : HandleTimeouts (after w) l1 = Ok (tt, l2)) by exact E2. rewrite (st_bind_step _ _ _ _ _ E2').
  destruct (loop_dispatches (after w) (ready w) l2 Ha0 O2) as (l3 & new3 & E3 & O3 & L3 & K3 & C3 & H3). rewrite (st_bind_step _ _ _ _ _ E3).
  rewrite decide_True in K2 by lia. rewrite decide_True in H2 by lia. unfold y in K2. rewrite started_twice in K2 by lia. fold y in K2.
  exists v, l3, (new2 ++ new3). split_and!; [done|done| |congruence| | | |].
  - rewrite L3, L2. cbn. by rewrite length_fmap.
  - by rewrite C3, C2, <-app_assoc.
  - rewrite hits_app, H2, H3, app_nil_r. unfold value. rewrite (proj2 (Z.ltb_ge (timeout y) 0)) by lia.
    unfold y at 1. rewrite started_twice by lia. fold y. unfold remaining, deadline.
    destruct (Z.eqb_spec (Z.max 0 (timeout y - (after w - start_time y))) 0), (Z.leb_spec (start_time y + timeout y) (after w)); done || lia.
  - eapply Forall_lookup_1 in Hv; [|exact Hx]. destruct (Hv Ht). lia.
  - eapply Forall_lookup_1 in Hv; [|exact Hx]. destruct (Hv Ht) as [_ Hv2]. fold y in Hv2. unfold remaining, deadline in *. lia.
Qed.

(** The clock does not go back. *)
Fixpoint in_time (now : Z) (ws : list wait) : Prop :=
  match ws with [] => True | w :: ws => time_ok (before w) ∧ time_ok (after w) ∧ now ≤ before w ≤ after w ∧ in_time (after w) ws end.

Lemma loop_runs ws : ∀ now l x, in_time now ws → all_ok now (timeouts_ l) → timeouts_ l !! k = Some x → 0 ≤ timeout x →
  let y := match ws with w :: _ => started (before w) x | [] => x end in
  ∃ vs l' new, Run ws l = Ok (vs, l') ∧ called l' = called l ++ new ∧
    hits new = after <$> filter (λ w, deadline y ≤ after w) ws ∧ Forall2 (λ v w, 0 ≤ v ≤ Z.max 0 (deadline y - before w)) vs ws.
Proof.
  induction ws as [|w ws IH]; intros now l x HT Hok Hx Ht y; cbn [Run].
  { exists [], l, []. rewrite app_nil_r. split_and!; [done|done|done|constructor]. }
  destruct HT as (Hb & Ha & [Hn Hba] & HT). pose proof Hb as [Hb0 _].
  destruct (loop_turns w l x Hb Ha Hba (all_ok_mono _ _ _ Hn Hok) Hx Ht) as (v & l1 & new1 & E1 & O1 & L1 & K1 & C1 & H1 & V1).
  fold y in K1, H1, V1. rewrite (st_bind_step _ _ _ _ _ E1).
  assert (Hxok : start_time x ≤ before w) by (apply (all_ok_mono _ _ _ Hn) in Hok; eapply Forall_lookup_1 in Hok; [|done]; by destruct Hok as (_ & ? & _)).
  destruct (started_start (before w) x Hb0 Ht Hxok) as [Hs1 Hs2]. fold y in Hs1, Hs2.
  destruct (IH (after w) l1 y HT O1 K1 ltac:(lia)) as (vs & l2 & new2 & E2 & C2 & H2 & V2). rewrite (st_bind_step _ _ _ _ _ E2).
  assert (Ey : match ws with w' :: _ => started (before w') y | [] => y end = y).
  { destruct ws as [|w' ws]; [done|]. destruct HT as (_ & _ & [? _] & _). unfold y. apply started_twice; lia. }
  rewrite Ey in *. exists (v :: vs), l2, (new1 ++ new2). split_and!; [done|by rewrite C2, C1, <-app_assoc| |by constructor].
  rewrite hits_app, H1, H2, filter_cons. destruct (Z.leb_spec (deadline y) (after w)); [rewrite decide_True by done|rewrite decide_False by lia]; done.
Qed.

(** For any number of turns of the loop, whatever events arrive and whatever the other
    timeouts and the clients do, as long as nobody sets timeout [k] again: the loop first
    looks at it before its first wait and counts from then.  [Hit] is called in exactly the
    turns that end at or after its deadline, once in each, and never before; and the loop
    never asks the kernel to wait beyond the deadline, nor for ever. *)
Theorem timeouts_on_time w ws now l x : in_time now (w :: ws) → all_ok now (timeouts_ l) → timeouts_ l !! k = Some x → 0 ≤ timeout x →
  let d := (if start_time x <? 0 then before w else start_time x) + timeout x in
  ∃ vs l' new, Run (w :: ws) l = Ok (vs, l') ∧ called l' = called l ++ new ∧
    hits new = after <$> filter (λ w, d ≤ after w) (w :: ws) ∧ Forall2 (λ v w, 0 ≤ v ≤ Z.max 0 (d - before w)) vs (w :: ws).
Proof.
  intros HT Hok Hx Ht. pose proof (loop_runs (w :: ws) now l x HT Hok Hx Ht) as H. cbn zeta in *. unfold started, deadline in H.
  rewrite (proj2 (Z.ltb_ge _ _) Ht) in H. destruct (start_time x <? 0); exact H.
Qed.
End Quiet.
End Loop.
End Timeouts.

(** A timeout of 30 ms, and another one that is set again to 20 ms whenever it is hit. *)
Definition sample_client (x : unit) (c : Timeouts.callback) : unit * list (nat * Z) :=
  (tt, match c with Timeouts.CHit 1 => [(1%nat, 20)] | _ => [] end).

Lemma timeouts_on_time_witness : ∃ vs l', Timeouts.Run sample_client
    [Timeouts.mkWait 100 [] 120; Timeouts.mkWait 120 [(7%nat, 1)] 125; Timeouts.mkWait 125 [] 131]
    (Timeouts.mkLoop [Timeouts.SetTimeout 30; Timeouts.SetTimeout 20] tt []) = Ok (vs, l') ∧
  vs = [20; 10; 5] ∧ Timeouts.hits 0 (Timeouts.called l') = [131].
Proof.
  destruct (Timeouts.timeouts_on_time sample_client 0) with (w := Timeouts.mkWait 100 [] 120)
    (ws := [Timeouts.mkWait 120 [(7%nat, 1)] 125; Timeouts.mkWait 125 [] 131]) (now := 100)
    (l := Timeouts.mkLoop [Timeouts.SetTimeout 30; Timeouts.SetTimeout 20] tt []) (x := Timeouts.SetTimeout 30)
    as (vs & l' & new & E & C & H & _).
  - intros [] [i|[|[|i]]|e f]; repeat constructor; cbn; lia.
  - cbn. unfold Timeouts.time_ok. lia.
  - repeat constructor; cbn; lia.
  - reflexivity.
  - cbn. lia.
  - exists vs, l'. split; [exact E|]. split; [vm_compute in E; injection E as <- <-; reflexivity|]. rewrite C. exact H.
Defined.

Module Server.

Definition EPOLLIN : Z := 1.
Definition EPOLLERR : Z := 8.
Definition EPOLLHUP : Z := 16.

(** A connection: its descriptor, and its links in [free_list]. *)
Record SocketConn := mkConn { fd_ : Z; next_ : option nat; prev_ : option nat }.

(** The connections that exist, by their addresses; [begin_] of [free_list]; the address the
    next one gets; what [epoll] watches, with the [data.ptr] of each; the open descriptors;
    and to which descriptors [broadcast] has sent. *)
Record server := mkServer {
  heap : gmap nat SocketConn; begin_ : option nat; fresh : nat; interest : gmap Z nat; open_fds : gset Z; sent : list Z }.

Notation MS := (ST server).

Definition set_heap (f : gmap nat SocketConn → gmap nat SocketConn) (s : server) : server :=
  mkServer (f (heap s)) (begin_ s) (fresh s) (interest s) (open_fds s) (sent s).
Definition set_begin (b : option nat) (s : server) : server := mkServer (heap s) b (fresh s) (interest s) (open_fds s) (sent s).
Definition set_kernel (i : gmap Z nat) (o : gset Z) (s : server) : server := mkServer (heap s) (begin_ s) (fresh s) i o (sent s).

Definition load (t : nat) : MS SocketConn := s ← st_get; st_lift (of_option Undefined (heap s !! t)).
Definition store (t : nat) (c : SocketConn) : MS unit := st_modify (set_heap (insert t c)).
Definition set_next (t : nat) (n : option nat) : MS unit := c ← load t; store t (mkConn (fd_ c) n (prev_ c)).
Definition set_prev (t : nat) (p : option nat) : MS unit := c ← load t; store t (mkConn (fd_ c) (next_ c) p).

(** ** intrusive_free_list *)

(** The constructor of [elem]. *)
Definition elem_new (t : nat) (fd : Z) : MS unit :=
  s ← st_get;
  _ ← store t (mkConn fd (begin_ s) None);
  _ ← (match begin_ s with Some n => set_prev n (Some t) | None => mret tt end);
  st_modify (set_begin (Some t)).

(** [delete t], with the destructor of [elem]. *)
Definition elem_delete (t : nat) : MS unit :=
  c ← load t;
  _ ← (match next_ c with Some n => set_prev n (prev_ c) | None => mret tt end);
  _ ← (match prev_ c with Some p => set_next p (next_ c) | None => st_modify (set_begin (next_ c)) end);
  st_modify (set_heap (delete t)).

(** [~intrusive_free_list] *)
Fixpoint list_delete (fuel : nat) : MS unit :=
  s ← st_get;
  match begin_ s, fuel with
  | None, _ => mret tt
  | Some _, O => st_stop Fuel
  | Some t, S fuel => _ ← elem_delete t; list_delete fuel
  end.

(** ** Events *)

(** [EpollLoop::Add], [Stop] and [close]: the kernel forgets a descriptor that is closed. *)
Definition Add (t : nat) : MS Z :=
  c ← load t;
  s ← st_get;
  if bool_decide (fd_ c ∈ open_fds s ∧ interest s !! fd_ c = None)
  then _ ← st_modify (λ s, set_kernel (<[fd_ c := t]> (interest s)) (open_fds s) s); mret 0
  else mret (-1).

Definition Stop (t : nat) : MS unit := c ← load t; st_modify (λ s, set_kernel (delete (fd_ c) (interest s)) (open_fds s) s).

Definition close (fd : Z) : MS unit := st_modify (λ s, set_kernel (delete fd (interest s)) (open_fds s ∖ {[fd]}) s).

(** [TCPServerBase::ReadEvent], when [accept] returns [infd]; [nonblock] is what
    [make_socket_non_blocking] returns. *)
Definition accept (infd nonblock : Z) : MS unit :=
  if infd =? -1 then mret tt
  else
    _ ← st_modify (λ s, set_kernel (interest s) (open_fds s ∪ {[infd]}) s);
    if nonblock =? -1 then st_stop Abort
    else
      s ← st_get;
      let t := fresh s in
      _ ← st_modify (λ s, mkServer (heap s) (begin_ s) (S (fresh s)) (interest s) (open_fds s) (sent s));
      _ ← elem_new t infd;
      r ← Add t;
      if r =? -1 then st_stop Abort else mret tt.

Definition EAGAIN : Z := 11.

(** [ReadContext::Read]: whether it sets [has_error_], from what [read] returns and [errno]. *)
Definition Read (r : Z * Z) : bool :=
  let '(count, errno) := r in
  if 0 <? count then false
  else if (count =? -1) && (errno =? EAGAIN) then false
  else true.

Definition has_error (reads : list (Z * Z)) : bool := existsb Read reads.

(** [EpollEvent::Event] of a connection, and [ReadEpollEvent::ReadEvent]; [reads]: the calls
    of [Read] that the connection's own [ReadEvent] makes. *)
Definition Event (t : nat) (events : Z) (reads : list (Z * Z)) : MS unit :=
  c ← load t;
  if negb (Z.land events EPOLLERR =? 0) || negb (Z.land events EPOLLHUP =? 0) || (Z.land events EPOLLIN =? 0)
  then close (fd_ c)
  else if has_error reads then _ ← Stop t; _ ← close (fd_ c); elem_delete t
  else mret tt.

Fixpoint broadcast_loop (fuel : nat) (a : option nat) : MS unit :=
  match a, fuel with
  | None, _ => mret tt
  | Some _, O => st_stop Fuel
  | Some t, S fuel =>
      c ← load t;
      _ ← st_modify (λ s, mkServer (heap s) (begin_ s) (fresh s) (interest s) (open_fds s) (sent s ++ [fd_ c]));
      c ← load t;
      broadcast_loop fuel (next_ c)
  end.

Definition broadcast (fuel : nat) : MS unit := s ← st_get; broadcast_loop fuel (begin_ s).

Inductive input := IAccept (infd nonblock : Z) | IEvent (t : nat) (events : Z) (reads : list (Z * Z)) | IBroadcast.

Definition handle (fuel : nat) (i : input) : MS unit :=
  match i with IAccept infd nb => accept infd nb | IEvent t ev e => Event t ev e | IBroadcast => broadcast fuel end.

Fixpoint handle_all (fuel : nat) (l : list input) : MS unit :=
  match l with [] => mret tt | i :: l => _ ← handle fuel i; handle_all fuel l end.

Definition new_server (opened : gset Z) : server := mkServer ∅ None 0 ∅ opened [].

(** ** The specification: the connections, newest first *)

Record spec := mkSpec { conns : list (nat * Z); count : nat; sends : list Z }.

Definition spec_input (i : input) (x : spec) : spec :=
  match i with
  | IAccept infd _ => if infd =? -1 then x else mkSpec ((count x, infd) :: conns x) (S (count x)) (sends x)
  | IEvent t _ reads => if has_error reads then mkSpec (filter (λ p, p.1 ≠ t) (conns x)) (count x) (sends x) else x
  | IBroadcast => mkSpec (conns x) (count x) (sends x ++ (conns x).*2)
  end.

(** What the kernel may report: [accept] gives a descriptor that is not open, events are
    those of connections, and none of them is an error or a hang-up. *)
Definition legal (opened : gset Z) (i : input) (x : spec) : Prop :=
  match i with
  | IAccept infd nb => infd ∉ (conns x).*2 ∧ infd ∉ opened ∧ nb ≠ -1
  | IEvent t ev _ => t ∈ (conns x).*1 ∧ Z.land ev EPOLLERR = 0 ∧ Z.land ev EPOLLHUP = 0 ∧ Z.land ev EPOLLIN ≠ 0
  | IBroadcast => True
  end.

Fixpoint all_legal (opened : gset Z) (l : list input) (x : spec) : Prop :=
  match l with [] => True | i :: l => legal opened i x ∧ all_legal opened l (spec_input i x) end.

Definition run_spec (l : list input) (x : spec) : spec := fold_left (λ x i, spec_input i x) l x.

(** ** The doubly linked list *)

(** From [b], whose predecessor is [p], through [l] to [e], whose predecessor is [q]. *)
Fixpoint seg (h : gmap nat SocketConn) (b p : option nat) (l : list nat) (e q : option nat) : Prop :=
  match l with
  | [] => b = e ∧ p = q
  | t :: l => b = Some t ∧ ∃ c, h !! t = Some c ∧ prev_ c = p ∧ seg h (next_ c) (Some t) l e q
  end.

Lemma seg_frame h h' b p l e q : (∀ t, t ∈ l → h' !! t = h !! t) → seg h b p l e q → seg h' b p l e q.
Proof.
  revert b p. induction l as [|t l IH]; intros b p H; [done|]. intros [-> (c & Hc & Hp & Hs)]. split; [done|].
  exists c. rewrite H by set_solver. split_and!; [done|done|]. apply IH; [set_solver|done].
Qed.

Lemma elems_app h l1 l2 : ∀ b p e q, seg h b p (l1 ++ l2) e q ↔ ∃ m r, seg h b p l1 m r ∧ seg h m r l2 e q.
Proof.
  induction l1 as [|t l1 IH]; intros b p e q; cbn; [naive_solver|]. split.
  - intros [-> (c & Hc & Hp & (m & r & H1 & H2)%IH)]. exists m, r. split; [|done]. split; [done|]. by exists c.
  - intros (m & r & [-> (c & Hc & Hp & H1)] & H2). split; [done|]. exists c. split_and!; [done|done|]. apply IH. eauto.
Qed.

(** A new predecessor for the first one, a new successor for the last one. *)
Lemma seg_set_prev h t l e q c p p' : seg h (Some t) p (t :: l) e q → h !! t = Some c → t ∉ l →
  seg (<[t := mkConn (fd_ c) (next_ c) p']> h) (Some t) p' (t :: l) e q.
Proof.
  intros [_ (c' & Hc' & Hp & Hs)] Hc Ht. split; [done|]. eexists. rewrite lookup_insert_eq. split_and!; [done|done|]. cbn.
  assert (c' = c) as -> by congruence. eapply seg_frame; [|exact Hs]. intros u Hu. rewrite lookup_insert_ne; [done|congruence].
Qed.

Lemma seg_set_next h b p l t e q c e' : seg h b p (l ++ [t]) e q → h !! t = Some c → t ∉ l →
  seg (<[t := mkConn (fd_ c) e' (prev_ c)]> h) b p (l ++ [t]) e' (Some t).
Proof.
  intros (m & r & H1 & [-> (c' & Hc' & Hp & _)])%elems_app Hc Ht. apply elems_app. exists (Some t), r. split.
  - eapply seg_frame; [|exact H1]. intros u Hu. rewrite lookup_insert_ne; [done|congruence].
  - split; [done|]. assert (c' = c) as -> by congruence. eexists. rewrite lookup_insert_eq. split_and!; [done|done|]. done.
Qed.

Lemma elems_last h l : ∀ b p e q, seg h b p l e q → q = match last l with Some u => Some u | None => p end.
Proof.
  induction l as [|t l IH]; intros b p e q; cbn; [naive_solver|]. intros [_ (c & _ & _ & H)]. rewrite (IH _ _ _ _ H).
  destruct l; [done|]. rewrite last_cons_cons. by destruct (last (n :: l)) eqn:E; [|by apply last_None in E].
Qed.

(** Changing links does not change descriptors. *)
Definition same_fds (h h' : gmap nat SocketConn) : Prop := ∀ u, fd_ <$> h' !! u = fd_ <$> h !! u.

Lemma same_fds_insert h t c n p : h !! t = Some c → same_fds h (<[t := mkConn (fd_ c) n p]> h).
Proof. intros Hc u. destruct (decide (u = t)) as [->|]; [by rewrite lookup_insert_eq, Hc|by rewrite lookup_insert_ne]. Qed.

Lemma wp_load_conn t c s (Q : SocketConn → server → Prop) : heap s !! t = Some c → Q c s → wp (load t) Q s.
Proof. intros Hc HQ. unfold load. apply wp_bind, wp_get. rewrite Hc. by eapply wp_lift. Qed.

Lemma wp_set_prev t c p s (Q : unit → server → Prop) : heap s !! t = Some c → Q tt (set_heap (insert t (mkConn (fd_ c) (next_ c) p)) s) → wp (set_prev t p) Q s.
Proof. intros Hc HQ. unfold set_prev. by apply wp_bind, (wp_load_conn t c), wp_modify. Qed.

Lemma wp_set_next_conn t c n s (Q : unit → server → Prop) : heap s !! t = Some c → Q tt (set_heap (insert t (mkConn (fd_ c) n (prev_ c))) s) → wp (set_next t n) Q s.
Proof. intros Hc HQ. unfold set_next. by apply wp_bind, (wp_load_conn t c), wp_modify. Qed.

(** What is behind an element, with another predecessor. *)
Lemma wp_relink_next l2 n p p' q s (Q : unit → server → Prop) : seg (heap s) n p l2 None q → NoDup l2 →
  (∀ h q', seg h n p' l2 None q' → same_fds (heap s) h → (∀ u, u ∉ l2 → h !! u = heap s !! u) → Q tt (set_heap (λ _, h) s)) →
  wp (match n with Some n => set_prev n p' | None => mret tt end) Q s.
Proof.
  intros Hs Hn HQ. destruct l2 as [|t l2].
  - destruct Hs as [-> _]. apply wp_ret. replace s with (set_heap (λ _, heap s) s) at 1 by by destruct s. apply (HQ _ p'); done.
  - pose proof Hs as [-> (c & Hc & _)]. apply NoDup_cons in Hn as [Ht Hn]. apply (wp_set_prev t c); [done|].
    unfold set_heap. eapply HQ; [by eapply seg_set_prev|by apply same_fds_insert|].
    intros u Hu. rewrite lookup_insert_ne; [done|set_solver].
Qed.

(** What is before it, with another successor. *)
Lemma wp_relink_prev l1 t r n' s (Q : unit → server → Prop) : seg (heap s) (begin_ s) None l1 (Some t) r → NoDup l1 →
  (∀ h b, seg h b None l1 n' r → same_fds (heap s) h → (∀ u, u ∉ l1 → h !! u = heap s !! u) →
    Q tt (mkServer h b (fresh s) (interest s) (open_fds s) (sent s))) →
  wp (match r with Some p => set_next p n' | None => st_modify (set_begin n') end) Q s.
Proof.
  intros Hs Hn HQ. destruct l1 as [|u l _] using rev_ind.
  - destruct Hs as [_ <-]. apply wp_modify. unfold set_begin. by apply HQ.
  - pose proof (elems_last _ _ _ _ _ _ Hs) as Er. rewrite last_snoc in Er. subst r.
    apply NoDup_app in Hn as (_ & Hn & _). assert (Hu : u ∉ l) by (intros ?; eapply Hn; set_solver).
    pose proof Hs as (m & r & _ & [_ (c & Hc & _)])%elems_app. apply (wp_set_next_conn u c); [done|]. unfold set_heap.
    apply HQ; [by eapply seg_set_next|by apply same_fds_insert|]. intros v Hv. rewrite lookup_insert_ne; [done|set_solver].
Qed.

Lemma wp_elem_delete t l1 l2 q s (Q : unit → server → Prop) : seg (heap s) (begin_ s) None (l1 ++ t :: l2) None q → NoDup (l1 ++ t :: l2) →
  (∀ h b q', seg h b None (l1 ++ l2) None q' → (∀ u, fd_ <$> h !! u = if decide (u = t) then None else fd_ <$> heap s !! u) →
    Q tt (mkServer h b (fresh s) (interest s) (open_fds s) (sent s))) → wp (elem_delete t) Q s.
Proof.
  intros (m & r & H1 & [-> (c & Hc & <- & H2)])%elems_app Hn HQ. apply NoDup_app in Hn as (Hn1 & Hd & [Ht Hn2]%NoDup_cons).
  unfold elem_delete. apply wp_bind, (wp_load_conn t c); [done|]. apply wp_bind.
  eapply (wp_relink_next l2); [exact H2|done|]. intros h1 q1 S1 F1 K1. apply wp_bind.
  eapply (wp_relink_prev l1 t (prev_ c) (next_ c)); [|done|].
  { eapply seg_frame; [|exact H1]. intros u Hu. apply K1. set_solver. }
  intros h2 b S2 F2 K2. cbn [heap set_heap] in F2, K2. apply wp_modify. unfold set_heap. cbn. eapply HQ.
  - apply elems_app. exists (next_ c), (prev_ c). split; (eapply seg_frame; [|first [exact S2|exact S1]]).
    + intros u Hu. rewrite lookup_delete_ne; [done|set_solver].
    + intros u Hu. rewrite lookup_delete_ne by set_solver. apply K2. set_solver.
  - intros u. case_decide as Hu; [subst; by rewrite lookup_delete_eq|]. rewrite lookup_delete_ne by done. by rewrite F2, F1.
Qed.

Lemma wp_elem_new t fd l q s (Q : unit → server → Prop) : seg (heap s) (begin_ s) None l None q → NoDup l → t ∉ l →
  (∀ h b q', seg h b None (t :: l) None q' → (∀ u, fd_ <$> h !! u = if decide (u = t) then Some fd else fd_ <$> heap s !! u) →
    Q tt (mkServer h b (fresh s) (interest s) (open_fds s) (sent s))) → wp (elem_new t fd) Q s.
Proof.
  intros Hs Hn Ht HQ. unfold elem_new. apply wp_bind, wp_get. apply wp_bind, wp_modify. apply wp_bind.
  eapply (wp_relink_next l _ None (Some t)); [|done|].
  { cbn. eapply seg_frame; [|exact Hs]. intros u Hu. rewrite lookup_insert_ne; [done|congruence]. }
  intros h q1 S1 F1 K1. apply wp_modify. unfold set_begin, set_heap in *. cbn in *. eapply HQ.
  - split; [done|]. eexists. rewrite K1 by done. rewrite lookup_insert_eq. split_and!; [done|done|exact S1].
  - intros u. rewrite F1. case_decide; [subst; by rewrite lookup_insert_eq|by rewrite lookup_insert_ne].
Qed.

(** ** The server *)

Section Connections.
Context (opened : gset Z).

(** The connections on the list are those that exist, those that [epoll] watches, and those
    whose descriptors are open, besides the descriptors of others. *)
Record good (x : spec) (s : server) : Prop := {
  g_list : ∃ q, seg (heap s) (begin_ s) None (conns x).*1 None q;
  g_ptrs : NoDup (conns x).*1;
  g_fds : NoDup (conns x).*2;
  g_heap : ∀ t fd, fd_ <$> heap s !! t = Some fd ↔ (t, fd) ∈ conns x;
  g_count : fresh s = count x ∧ ∀ t, t ∈ (conns x).*1 → (t < count x)%nat;
  g_interest : ∀ fd t, interest s !! fd = Some t ↔ (t, fd) ∈ conns x;
  g_open : ∀ fd, fd ∈ open_fds s ↔ fd ∈ opened ∨ fd ∈ (conns x).*2;
  g_apart : ∀ fd, fd ∈ (conns x).*2 → fd ∉ opened;
  g_sent : sent s = sends x }.

Lemma elem_fst (t : nat) (fd : Z) l : (t, fd) ∈ l → t ∈ l.*1.
Proof. intros H. apply list_elem_of_fmap. by exists (t, fd). Qed.
Lemma elem_snd (t : nat) (fd : Z) l : (t, fd) ∈ l → fd ∈ l.*2.
Proof. intros H. apply list_elem_of_fmap. by exists (t, fd). Qed.

Lemma fmap_fd_some s t fd : fd_ <$> heap s !! t = Some fd → ∃ c, heap s !! t = Some c ∧ fd_ c = fd.
Proof. destruct (heap s !! t) as [c|]; [|done]. intros [= <-]. by exists c. Qed.

Lemma wp_accept infd nb x s : good x s → legal opened (IAccept infd nb) x → wp (accept infd nb) (λ _ s', good (spec_input (IAccept infd nb) x) s') s.
Proof.
  intros G (L1 & L2 & L3). pose proof G as [[q G1] G2 G3 G4 [G5 G6] G7 G8 G9 G10]. unfold accept. cbn [spec_input].
  destruct (Z.eqb_spec infd (-1)); [by apply wp_ret|]. apply wp_bind, wp_modify.
  rewrite (proj2 (Z.eqb_neq nb (-1))) by done. apply wp_bind, wp_get, wp_bind, wp_modify. cbn. rewrite G5.
  assert (Hnew : count x ∉ (conns x).*1) by (intros Hin; specialize (G6 _ Hin); lia).
  apply wp_bind. eapply (wp_elem_new (count x) infd (conns x).*1); [exact G1|done|done|].
  intros h b q' S F. cbn. unfold Add. assert (∃ c, h !! count x = Some c ∧ fd_ c = infd) as (c & Hc & Ec).
  { apply (fmap_fd_some (mkServer h b 0 ∅ ∅ [])). cbn. rewrite F. by rewrite decide_True. }
  assert (Hno : interest s !! infd = None).
  { destruct (interest s !! infd) as [t|] eqn:E; [|done]. apply G7 in E. by apply elem_snd in E. }
  apply wp_bind, wp_bind, (wp_load_conn _ c); [done|]. apply wp_bind, wp_get. cbn. rewrite Ec, bool_decide_true by (split; [set_solver|done]).
  apply wp_bind, wp_modify, wp_ret. cbn. apply wp_ret. unfold set_kernel. cbn. split; cbn.
  - by exists q'.
  - by apply NoDup_cons.
  - by apply NoDup_cons.
  - intros t fd. rewrite F, elem_of_cons, <-G4. case_decide as E; [subst t|].
    + split; [intros [= ->]; by left|]. intros [[= ->]|E]; [done|]. apply G4, elem_fst in E. done.
    + split; [by right|]. intros [[= -> ->]|?]; done.
  - split; [done|]. intros t [->|Ht%G6]%elem_of_cons; lia.
  - intros fd t. rewrite elem_of_cons, <-G7. destruct (decide (fd = infd)) as [->|Hne].
    + rewrite lookup_insert_eq. split; [intros [= <-]; by left|]. intros [[= ->]|E]; [done|]. rewrite Hno in E. done.
    + rewrite lookup_insert_ne by done. split; [by right|]. intros [[= -> ->]|?]; done.
  - intros fd. rewrite elem_of_union, G8, elem_of_singleton, elem_of_cons. tauto.
  - intros fd [->|Hfd]%elem_of_cons; [done|by apply G9].
  - done.
Qed.

Lemma split_conn t (l : list (nat * Z)) : t ∈ l.*1 → NoDup l.*1 → ∃ l1 fd l2, l = l1 ++ (t, fd) :: l2 ∧ t ∉ l1.*1 ∧ t ∉ l2.*1 ∧ filter (λ p, p.1 ≠ t) l = l1 ++ l2.
Proof.
  intros ([u fd] & -> & (l1 & l2 & ->)%list_elem_of_split)%list_elem_of_fmap Hn. cbn in *.
  rewrite fmap_app, fmap_cons, NoDup_app, NoDup_cons in Hn. destruct Hn as (_ & Hn & Hn2 & _). cbn in *.
  assert (N1 : u ∉ l1.*1) by (intros H; apply (Hn _ H); set_solver).
  assert (HF : ∀ l : list (nat * Z), u ∉ l.*1 → filter (λ p, p.1 ≠ u) l = l).
  { intros l. induction l as [|[v w] l IH]; intros Hl; [done|]. cbn in Hl. rewrite filter_cons. cbn.
    rewrite decide_True by set_solver. by rewrite IH by set_solver. }
  exists l1, fd, l2. split_and!; [done|done|done|]. rewrite filter_app, filter_cons. cbn. rewrite decide_False by tauto. by rewrite !HF.
Qed.

Lemma wp_Event t ev e x s : good x s → legal opened (IEvent t ev e) x → wp (Event t ev e) (λ _ s', good (spec_input (IEvent t ev e) x) s') s.
Proof.
  intros G (Ht & E1 & E2 & E3). pose proof G as [[q G1] G2 G3 G4 [G5 G6] G7 G8 G9 G10].
  destruct (split_conn t (conns x) Ht G2) as (l1 & fd & l2 & El & N1 & N2 & EF).
  assert (∃ c, heap s !! t = Some c ∧ fd_ c = fd) as (c & Hc & Ec) by (apply fmap_fd_some, G4; rewrite El; set_solver).
  unfold Event. apply wp_bind, (wp_load_conn t c); [done|]. rewrite E1, E2, (proj2 (Z.eqb_neq _ _) E3). cbn [spec_input negb orb Z.eqb].
  destruct (has_error e); [|by apply wp_ret]. apply wp_bind. unfold Stop. apply wp_bind, (wp_load_conn t c); [done|]. apply wp_modify.
  apply wp_bind, wp_modify. unfold set_kernel. cbn. rewrite Ec, EF.
  rewrite El, fmap_app, fmap_cons in G1, G2. rewrite El, fmap_app, fmap_cons in G3. cbn [fst snd] in G1, G2, G3.
  eapply (wp_elem_delete t l1.*1 l2.*1); [exact G1|done|]. intros h b q' S F. cbn in *.
  pose proof G3 as (_ & Hd & [Hfd2 _]%NoDup_cons)%NoDup_app.
  assert (Hfd1 : fd ∉ l1.*2) by (intros H; apply (Hd _ H); set_solver).
  assert (Hin : ∀ u w, (u, w) ∈ l1 ++ l2 ↔ (u, w) ∈ conns x ∧ u ≠ t).
  { intros u w. rewrite El, <-EF. rewrite El in *. rewrite list_elem_of_filter. cbn. tauto. }
  assert (Hin2 : ∀ u w, (u, w) ∈ l1 ++ l2 ↔ (u, w) ∈ conns x ∧ w ≠ fd).
  { intros u w. split.
    - intros H. split; [by apply Hin|]. intros ->. apply elem_of_app in H as [H|H]; apply elem_snd in H; done.
    - rewrite El, !elem_of_app, elem_of_cons. intros [[?|[[= -> ->]|?]] Hne]; auto; done. }
  split; cbn.
  - exists q'. by rewrite fmap_app.
  - rewrite fmap_app. apply NoDup_app in G2 as (? & Hd' & [_ ?]%NoDup_cons). apply NoDup_app. split_and!; [done| |done].
    intros u Hu Hu2. apply (Hd' u Hu), elem_of_cons. by right.
  - rewrite fmap_app. apply NoDup_app in G3 as (? & Hd' & [_ ?]%NoDup_cons). apply NoDup_app. split_and!; [done| |done].
    intros u Hu Hu2. apply (Hd' u Hu), elem_of_cons. by right.
  - intros u w. rewrite F, Hin, <-G4. case_decide; [|tauto]. subst. split; [done|]. intros [_ ?]. done.
  - split; [done|]. intros u Hu. apply G6. rewrite El. rewrite !fmap_app, fmap_cons in *. set_solver.
  - intros w u. rewrite Hin2, <-G7. destruct (decide (w = fd)) as [->|].
    + rewrite !lookup_delete_eq. split; [done|]. intros [_ ?]. done.
    + rewrite !lookup_delete_ne by done. tauto.
  - intros w. rewrite elem_of_difference, G8, elem_of_singleton, El, !fmap_app, fmap_cons. cbn.
    assert (Hop : w = fd → w ∉ opened). { intros ->. apply G9. rewrite El, fmap_app. cbn. set_solver. }
    rewrite !elem_of_app, elem_of_cons. split; [tauto|]. intros [Hw|[Hw|Hw]]; (split; [tauto|]); intros ->; [by apply (Hop eq_refl)|by apply Hfd1|by apply Hfd2].
  - intros w Hw. apply G9. rewrite El. rewrite !fmap_app, fmap_cons in *. set_solver.
  - done.
Qed.

Lemma wp_broadcast_loop fuel l : ∀ b p q s, seg (heap s) b p l.*1 None q → (∀ t fd, (t, fd) ∈ l → fd_ <$> heap s !! t = Some fd) → (length l ≤ fuel)%nat →
  wp (broadcast_loop fuel b) (λ _ s', s' = mkServer (heap s) (begin_ s) (fresh s) (interest s) (open_fds s) (sent s ++ l.*2)) s.
Proof.
  revert fuel. induction l as [|[t fd] l IH]; intros fuel b p q s Hs Hh Hf.
  { destruct Hs as [-> _]. cbn. rewrite app_nil_r. destruct fuel; apply wp_ret; by destruct s. }
  destruct fuel as [|fuel]; cbn in Hf; [lia|]. destruct Hs as [-> (c & Hc & _ & Hs)]. cbn [broadcast_loop].
  cbn in Hc. assert (Ec : fd_ c = fd). { specialize (Hh t fd). rewrite Hc in Hh. cbn in Hh. assert (Some (fd_ c) = Some fd) by (apply Hh; set_solver). congruence. }
  apply wp_bind, (wp_load_conn t c); [done|]. apply wp_bind, wp_modify. apply wp_bind, (wp_load_conn t c); [done|].
  eapply wp_mono; [eapply (IH fuel); [exact Hs| |lia]|].
  - intros u w Hu. apply Hh. set_solver.
  - cbn. intros _ s' ->. by rewrite Ec, <-app_assoc.
Qed.

Lemma wp_handle fuel i x s : good x s → legal opened i x → (length (conns x) ≤ fuel)%nat → wp (handle fuel i) (λ _ s', good (spec_input i x) s') s.
Proof.
  intros G L Hf. destruct i as [infd nb|t ev e|]; cbn [handle]; [by apply wp_accept|by apply wp_Event|].
  pose proof G as [[q G1] G2 G3 G4 G5 G7 G8 G9 G10]. unfold broadcast. apply wp_bind, wp_get.
  eapply wp_mono; [eapply (wp_broadcast_loop fuel (conns x)); [exact G1| |done]|].
  - intros t fd Hin. by apply G4.
  - cbn beta. intros _ s' ->. split; cbn; try done; [by exists q|by rewrite G10].
Qed.

Lemma spec_conns i x : (length (conns (spec_input i x)) ≤ S (length (conns x)))%nat.
Proof.
  destruct i as [infd nb|t ev e|]; cbn; [destruct (infd =? -1); cbn; lia|destruct (has_error e); cbn; [|lia]|lia].
  pose proof (length_filter (λ p : nat * Z, p.1 ≠ t) (conns x)). lia.
Qed.

Lemma wp_handle_all fuel l : ∀ x s, good x s → all_legal opened l x → (length (conns x) + length l ≤ fuel)%nat →
  wp (handle_all fuel l) (λ _ s', good (run_spec l x) s' ∧ (length (conns (run_spec l x)) ≤ length (conns x) + length l)%nat) s.
Proof.
  induction l as [|i l IH]; intros x s G L Hf; cbn [handle_all].
  { apply wp_ret. split; [done|]. cbn. lia. }
  destruct L as [L1 L2]. cbn [length] in *. pose proof (spec_conns i x).
  apply wp_bind. eapply wp_mono; [apply wp_handle; [done|done|lia]|]. cbn beta. intros [] s1 G1.
  eapply wp_mono; [apply (IH (spec_input i x)); [done|done|lia]|]. cbn beta. intros _ s2 [G2 H2]. split; [done|].
  change (run_spec (i :: l) x) with (run_spec l (spec_input i x)). lia.
Qed.

(** [~intrusive_free_list] ends and leaves nothing. *)
Lemma wp_list_delete fuel l : ∀ s q, seg (heap s) (begin_ s) None l.*1 None q → NoDup l.*1 → (∀ t fd, fd_ <$> heap s !! t = Some fd ↔ (t, fd) ∈ l) →
  (length l ≤ fuel)%nat → wp (list_delete fuel) (λ _ s', heap s' = ∅ ∧ begin_ s' = None) s.
Proof.
  revert fuel. induction l as [|[t fd] l IH]; intros fuel s q Hs Hn Hh Hf.
  { destruct Hs as [Hb _]. assert (Hempty : heap s = ∅).
    { apply map_empty. intros t. destruct (heap s !! t) as [c|] eqn:E; [|done]. exfalso.
      apply (not_elem_of_nil (t, fd_ c)), Hh. by rewrite E. }
    destruct fuel; cbn [list_delete]; apply wp_bind, wp_get; rewrite Hb; by apply wp_ret. }
  destruct fuel as [|fuel]; cbn in Hf; [lia|]. cbn [list_delete]. apply wp_bind, wp_get. pose proof Hs as [-> _].
  apply wp_bind. eapply (wp_elem_delete t [] l.*1); [exact Hs|done|]. intros h b q' S F.
  cbn in Hn. apply NoDup_cons in Hn as [Ht Hn]. eapply (IH fuel _ q'); cbn; [exact S|done| |lia].
  intros u w. rewrite F. case_decide as E; [subst; split; [done|intros H; by apply elem_fst in H]|]. rewrite Hh, elem_of_cons.
  split; [intros [[= -> ->]|?]; done|by right].
Qed.

Lemma good_new : good (mkSpec [] 0 []) (new_server opened).
Proof.
  split; cbn; try done.
  - by exists None.
  - constructor.
  - constructor.
  - intros t fd. split; [done|]. by intros ?%not_elem_of_nil.
  - split; [done|]. by intros t ?%not_elem_of_nil.
  - intros fd t. split; [done|]. by intros ?%not_elem_of_nil.
  - intros fd. split; [by left|]. by intros [?|?%not_elem_of_nil].
  - by intros fd ?%not_elem_of_nil.
Qed.

End Connections.

(** A hang-up closes the descriptor and leaves the connection on the list: when the number
    is used again, the new client gets everything twice. *)
Lemma hang_up_leaves_connection : ∃ s,
  handle_all 9 [IAccept 5 0; IEvent 0 (EPOLLIN + EPOLLHUP) []; IAccept 5 0; IBroadcast] (new_server {[3]}) = Ok (tt, s) ∧ sent s = [5; 5].
Proof. eexists. split; [vm_compute; reflexivity|]. reflexivity. Qed.
End Server.

