(* ===== verification/Camera.v ===== *)
(** * The camera: aos/vision/image/reader.h and reader.cc

    [Reader] sets a V4L2 camera up, gives it ten buffers and hands every frame that the driver
    returns to [process_].  The driver is the class [Camera]: an [ioctl] gives what it reads,
    or the error. *)

From S2P Require Import Prelude.

(** [inl]: it failed, with this [errno]. *)
Class Camera (K : Type) := {
  sys_stat : K → option bool;
  sys_open : K → bool;
  querycap : K → Z + Z;
  cropcap : K → bool * K;
  s_crop : K → bool * K;
  s_fmt : Z → Z → K → bool * K;
  g_fmt : K → option (Z * Z);
  g_ctrl : Z → K → Z + Z;
  s_ctrl : Z → Z → K → bool * K;
  s_parm : Z → K → bool * K;
  reqbufs : Z → K → (Z + Z) * K;
  querybuf : Z → K → option (Z * Z);
  sys_mmap : Z → Z → K → option Z * K;
  qbuf : Z → K → bool * K;
  dqbuf : K → (Z + Z * Z) * K;
  streamon : K → bool * K;
  sys_select : K → (Z + bool) * K;
  sys_now : K → Z }.

Record CameraParams := mkParams { width : Z; height : Z; exposure : Z; brightness : Z; gain : Z; fps : Z }.

Record Buffer := mkBuffer { buf_start : Z; buf_length : Z }.

Definition kNumBuffers : nat := 10.

Definition V4L2_CAP_VIDEO_CAPTURE : Z := 1.
Definition V4L2_CAP_STREAMING : Z := 0x04000000.
Definition V4L2_CID_EXPOSURE_AUTO : Z := 0x009a0901.
Definition V4L2_EXPOSURE_MANUAL : Z := 1.
Definition V4L2_CID_EXPOSURE_ABSOLUTE : Z := 0x009a0902.
Definition V4L2_CID_BRIGHTNESS : Z := 0x00980900.
Definition V4L2_CID_GAIN : Z := 0x00980913.
Definition EINVAL : Z := 22.

(** What it does with buffers: a frame comes back, is handed to [process_], a buffer is given
    to the driver ([false]: it is lost). *)
Inductive frame_event := Dequeued (i : Z) (bytesused : Z) | Processed (start len time : Z) | Queued (i : Z) (ok : bool).

Section Reader.
Context {K : Type} `{Camera K}.

Record Reader := mkReader {
  kern : K; params_ : CameraParams; queued_ : Z; buffers_ : list Buffer; events : list frame_event }.

Notation MR := (ST Reader).

Definition with_kern {A} (f : K → A * K) : MR A := λ s, let '(a, k) := f (kern s) in Ok (a, mkReader k (params_ s) (queued_ s) (buffers_ s) (events s)).
Definition note (e : frame_event) : MR unit := st_modify (λ s, mkReader (kern s) (params_ s) (queued_ s) (buffers_ s) (events s ++ [e])).
Definition set_queued (f : Z → Z) : MR unit := st_modify (λ s, mkReader (kern s) (params_ s) (f (queued_ s)) (buffers_ s) (events s)).

(** ** Frames *)

Definition QueueBuffer (index : Z) : MR unit :=
  ok ← with_kern (qbuf index);
  _ ← note (Queued index ok);
  if (ok : bool) then set_queued (λ n, u32 (n + 1)) else mret tt.

(** [buffers_[buf.index].start] *)
Definition buffer_start (index : Z) : MR Z :=
  s ← st_get;
  if index <? 0 then st_stop Undefined
  else b ← st_lift (of_option Undefined (buffers_ s !! Z.to_nat index)); mret (buf_start b).

Definition ReadFrame : MR unit :=
  r ← with_kern dqbuf;
  match r with
  | inl _ => mret tt
  | inr (index, bytesused) =>
      _ ← note (Dequeued index bytesused);
      _ ← set_queued (λ n, u32 (n - 1));
      s ← st_get;
      let time := sys_now (kern s) in
      start ← buffer_start index;
      _ ← note (Processed start bytesused time);
      QueueBuffer index
  end.

(** The loop over the buffers, from the [n]th on; [fuel] more of them. *)
Fixpoint mmap_loop (fuel : nat) (n : Z) : MR unit :=
  match fuel with
  | O => mret tt
  | S fuel =>
      s ← st_get;
      match querybuf n (kern s) with
      | None => st_stop Fatal
      | Some (length, offset) =>
          start ← with_kern (sys_mmap length offset);
          match start with
          | None => st_stop Fatal
          | Some start =>
              _ ← st_modify (λ s, mkReader (kern s) (params_ s) (queued_ s) (buffers_ s ++ [mkBuffer start length]) (events s));
              mmap_loop fuel (n + 1)
          end
      end
  end.

(** [buffers_] is the part of the new array that is filled in. *)
Definition mmap_buffs : MR unit :=
  _ ← st_modify (λ s, mkReader (kern s) (params_ s) (queued_ s) [] (events s));
  mmap_loop kNumBuffers 0.

Fixpoint queue_loop (fuel : nat) (i : Z) : MR unit :=
  match fuel with O => mret tt | S fuel => _ ← QueueBuffer i; queue_loop fuel (i + 1) end.

Definition Start : MR unit :=
  _ ← queue_loop kNumBuffers 0;
  ok ← with_kern streamon;
  if (ok : bool) then mret tt else st_stop Fatal.

(** One turn of [while (true)]; [inr false]: [select] timed out. *)
Definition Run_turn : MR unit :=
  r ← with_kern sys_select;
  match r with inr true => ReadFrame | _ => mret tt end.

Fixpoint Run_turns (n : nat) : MR unit := match n with O => mret tt | S n => _ ← Run_turn; Run_turns n end.

Definition Run (n : nat) : MR unit := _ ← Start; _ ← mmap_buffs; Run_turns n.

(** ** Setting up *)

Definition init_mmap : MR unit :=
  r ← with_kern (reqbufs (Z.of_nat kNumBuffers));
  match r with
  | inl _ => st_stop Fatal
  | inr count =>
      _ ← set_queued (λ _, Z.of_nat kNumBuffers);
      if count <? Z.of_nat kNumBuffers then st_stop Fatal else mret tt
  end.

Definition SetCameraControl (id value : Z) : MR bool :=
  s ← st_get;
  let set := with_kern (s_ctrl id value) in
  match g_ctrl id (kern s) with
  | inr v => if v =? value then mret true else set
  | inl errno => if errno =? EINVAL then mret false else set
  end.

(** [if (!SetCameraControl(...)) LOG(FATAL, ...)] *)
Definition need_control (id value : Z) : MR unit := ok ← SetCameraControl id value; if (ok : bool) then mret tt else st_stop Fatal.

Definition Init : MR unit :=
  s ← st_get;
  match querycap (kern s) with
  | inl _ => st_stop Fatal
  | inr caps =>
      if Z.land caps V4L2_CAP_VIDEO_CAPTURE =? 0 then st_stop Fatal
      else if Z.land caps V4L2_CAP_STREAMING =? 0 then st_stop Fatal
      else
        can ← with_kern cropcap;
        _ ← (if (can : bool) then _ ← with_kern s_crop; mret tt else mret tt);
        let p := params_ s in
        ok ← with_kern (s_fmt (width p) (height p));
        if negb ok then st_stop Fatal
        else
          _ ← need_control V4L2_CID_EXPOSURE_AUTO V4L2_EXPOSURE_MANUAL;
          _ ← need_control V4L2_CID_EXPOSURE_ABSOLUTE (exposure p);
          _ ← need_control V4L2_CID_BRIGHTNESS (brightness p);
          _ ← need_control V4L2_CID_GAIN (gain p);
          ok ← with_kern (s_parm (fps p));
          if negb ok then st_stop Abort
          else init_mmap
  end.

(** [queued] and [buffers]: what is in the memory of the new object. *)
Definition Reader_new (k : K) (params : CameraParams) (queued : Z) (buffers : list Buffer) : res Reader :=
  match sys_stat k with
  | None | Some false => Err Fatal
  | Some true =>
      if negb (sys_open k) then Err Fatal
      else '(_, s) ← Init (mkReader k params queued buffers []); Ok s
  end.

Definition get_format : MR (Z * Z) :=
  s ← st_get; match g_fmt (kern s) with Some f => mret f | None => st_stop Fatal end.
End Reader.

(** ** Who has a buffer

    The driver: the buffers it [has] are those it was given and has not returned. *)
Class CameraLaws (K : Type) `{Camera K} := {
  has : K → list Z;
  law_qbuf i k ok k' : qbuf i k = (ok, k') → if ok then i ∉ has k ∧ has k' = i :: has k else has k' = has k;
  law_dqbuf k r k' : dqbuf k = (r, k') → match r with inr (i, _) => has k ≡ₚ i :: has k' | inl _ => has k' = has k end;
  law_mmap l o k r k' : sys_mmap l o k = (r, k') → has k' = has k;
  law_streamon k ok k' : streamon k = (ok, k') → has k' = has k;
  law_select k r k' : sys_select k = (r, k') → has k' = has k;
  law_reqbufs n k c k' : reqbufs n k = (inr c, k') → has k' = [] }.

Section Frames.
Context {K : Type} `{CameraLaws K}.

Notation MR := (ST (Reader (K := K))).

Lemma wpe_with_kern {A} E (f : K → A * K) s (Q : A → Reader → Prop) :
  (∀ a k, f (kern s) = (a, k) → Q a (mkReader k (params_ s) (queued_ s) (buffers_ s) (events s))) → wpe E (with_kern f) Q s.
Proof. intros HQ. unfold with_kern, wpe. destruct (f (kern s)) as [a k] eqn:Ef. by apply HQ. Qed.

Lemma wp_with_kern {A} (f : K → A * K) s (Q : A → Reader → Prop) :
  (∀ a k, f (kern s) = (a, k) → Q a (mkReader k (params_ s) (queued_ s) (buffers_ s) (events s))) → wp (with_kern f) Q s.
Proof. intros HQ. unfold with_kern, wp. destruct (f (kern s)) as [a k] eqn:Ef. by apply HQ. Qed.

(** A buffer that the driver refused is lost. *)
Definition refused (e : frame_event) : bool := match e with Queued _ false => true | _ => false end.
Definition lost (l : list frame_event) : nat := length (filter (λ e, refused e = true) l).

Lemma lost_app l1 l2 : lost (l1 ++ l2) = (lost l1 + lost l2)%nat.
Proof. unfold lost. by rewrite filter_app, length_app. Qed.

#[local] Arguments lost : simpl never.

Lemma lost_one e : lost [e] = if refused e then 1%nat else 0%nat.
Proof. unfold lost. cbn. by destruct (refused e). Qed.

(** [n] buffers are with the driver, or lost; [queued_] counts them on top of the ten that
    [init_mmap] starts with. *)
Record counted (n : nat) (s : Reader) : Prop := {
  c_nodup : NoDup (has (kern s));
  c_range : ∀ i, i ∈ has (kern s) → 0 ≤ i < Z.of_nat kNumBuffers;
  c_queued : queued_ s = Z.of_nat (kNumBuffers + length (has (kern s)));
  c_lost : (length (has (kern s)) + lost (events s) = n)%nat }.

Lemma NoDup_bounded (l : list Z) n : NoDup l → (∀ i, i ∈ l → 0 ≤ i < Z.of_nat n) → (length l ≤ n)%nat.
Proof.
  intros Hn Hl. assert (l ⊆+ seqZ 0 (Z.of_nat n)) as Hs; [|apply submseteq_length in Hs; rewrite length_seqZ in Hs; lia].
  apply NoDup_submseteq; [done|]. intros i Hi%Hl. apply elem_of_seqZ. lia.
Qed.

Lemma wp_QueueBuffer i n s (Q : unit → Reader → Prop) : counted n s → 0 ≤ i < Z.of_nat kNumBuffers →
  (∀ ok s', counted (S n) s' → events s' = events s ++ [Queued i ok] → buffers_ s' = buffers_ s → Q tt s') → wp (QueueBuffer i) Q s.
Proof.
  intros [C1 C2 C3 C4] Hi HQ. unfold QueueBuffer. apply wp_bind, wp_with_kern. intros ok k Eq. apply law_qbuf in Eq.
  apply wp_bind, wp_modify. destruct ok.
  - destruct Eq as [Hin Eq]. apply wp_modify. eapply HQ; [|done|done].
    assert (Hn : NoDup (i :: has (kern s))) by by apply NoDup_cons.
    assert (Hr : ∀ j, j ∈ i :: has (kern s) → 0 ≤ j < Z.of_nat kNumBuffers) by (intros j [->|?]%elem_of_cons; auto).
    pose proof (NoDup_bounded _ _ Hn Hr) as Hlen. cbn [length] in Hlen. unfold kNumBuffers in *.
    split; cbn; rewrite ?Eq; [done|done| |].
    + rewrite C3, uwrap_small; [cbn [length]; lia|unfold in_unsigned; lia].
    + rewrite lost_app, lost_one. cbn. lia.
  - apply wp_ret. eapply HQ; [|done|done]. split; cbn; rewrite ?Eq; [done|done|done|]. rewrite lost_app, lost_one. cbn. lia.
Qed.

(** The events of a frame: buffer [i] comes back, [process_] reads it, it goes out again. *)
Definition frame (bufs : list Buffer) (l : list frame_event) : Prop :=
  ∃ i len t b ok, l = [Dequeued i len; Processed (buf_start b) len t; Queued i ok] ∧ 0 ≤ i < Z.of_nat kNumBuffers ∧ bufs !! Z.to_nat i = Some b.

Lemma wp_ReadFrame s (Q : unit → Reader → Prop) : counted kNumBuffers s → length (buffers_ s) = kNumBuffers →
  (∀ l s', counted kNumBuffers s' → buffers_ s' = buffers_ s → events s' = events s ++ concat l → Forall (frame (buffers_ s)) l → Q tt s') → wp ReadFrame Q s.
Proof.
  intros C HB HQ. pose proof C as [C1 C2 C3 C4]. unfold ReadFrame. apply wp_bind, wp_with_kern. intros r k Er. apply law_dqbuf in Er.
  destruct r as [e|[i len]].
  { apply wp_ret. apply (HQ []); [|done|by rewrite app_nil_r|constructor]. split; cbn; by rewrite ?Er. }
  assert (Hi : 0 ≤ i < Z.of_nat kNumBuffers) by (apply C2; rewrite Er; set_solver).
  rewrite Er in C1. apply NoDup_cons in C1 as [Hin C1]. pose proof (Permutation_length Er) as Hlen. cbn [length] in Hlen.
  apply wp_bind, wp_modify. apply wp_bind, wp_modify. apply wp_bind, wp_get. cbn.
  destruct (lookup_lt_is_Some_2 (buffers_ s) (Z.to_nat i)) as [b Hb]; [rewrite HB; lia|].
  unfold buffer_start. apply wp_bind, wp_bind, wp_get. destruct (Z.ltb_spec i 0); [lia|]. cbn [buffers_]. rewrite Hb.
  apply wp_bind. eapply wp_lift; [done|]. apply wp_ret. apply wp_bind, wp_modify. cbn.
  eapply (wp_QueueBuffer i (Nat.pred kNumBuffers)); [|done|].
  - split; cbn; [done| | |].
    + intros j Hj. apply C2. rewrite Er. set_solver.
    + rewrite C3, uwrap_small; unfold in_unsigned, kNumBuffers in *; lia.
    + rewrite !lost_app, !lost_one. cbn. unfold kNumBuffers in *. lia.
  - intros ok s' C' E' B'. apply (HQ [[Dequeued i len; Processed (buf_start b) len (sys_now k); Queued i ok]]); [done|done| |].
    + rewrite E'. cbn. by rewrite <-!app_assoc.
    + constructor; [|done]. by exists i, len, (sys_now k), b, ok.
Qed.

Lemma wp_Run_turns n : ∀ s (Q : unit → Reader → Prop), counted kNumBuffers s → length (buffers_ s) = kNumBuffers →
  (∀ l s', counted kNumBuffers s' → buffers_ s' = buffers_ s → events s' = events s ++ concat l → Forall (frame (buffers_ s)) l → Q tt s') → wp (Run_turns n) Q s.
Proof.
  induction n as [|n IH]; intros s Q C HB HQ; cbn [Run_turns].
  { apply wp_ret. apply (HQ []); [done|done|by rewrite app_nil_r|constructor]. }
  assert (Hturn : wp Run_turn (λ _ s', counted kNumBuffers s' ∧ buffers_ s' = buffers_ s ∧ ∃ l, events s' = events s ++ concat l ∧ Forall (frame (buffers_ s)) l) s).
  { unfold Run_turn. apply wp_bind, wp_with_kern. intros r k Er. apply law_select in Er.
    assert (C' : counted kNumBuffers (mkReader k (params_ s) (queued_ s) (buffers_ s) (events s))).
    { destruct C. split; cbn; by rewrite ?Er. }
    destruct r as [e|[]].
    - apply wp_ret. split_and!; [done|done|]. exists []. by rewrite app_nil_r.
    - apply wp_ReadFrame; [done|done|]. intros l s' ????. eauto.
    - apply wp_ret. split_and!; [done|done|]. exists []. by rewrite app_nil_r. }
  apply wp_bind. eapply wp_mono; [exact Hturn|]. cbn beta. intros [] s1 (C1 & B1 & l1 & E1 & F1).
  apply IH; [done|by rewrite B1|]. intros l2 s2 C2 B2 E2 F2. apply (HQ (l1 ++ l2)); [done|congruence| |].
  - by rewrite E2, E1, concat_app, app_assoc.
  - apply Forall_app. split; [done|]. eapply Forall_impl; [exact F2|]. unfold frame. by rewrite B1.
Qed.

(** All buffers, in order. *)
Lemma wp_queue_loop fuel : ∀ i s (Q : unit → Reader → Prop), counted i s → (i + fuel = kNumBuffers)%nat →
  (∀ oks s', counted kNumBuffers s' → buffers_ s' = buffers_ s → events s' = events s ++ zip_with Queued (seqZ (Z.of_nat i) (Z.of_nat fuel)) oks → length oks = fuel → Q tt s') →
  wp (queue_loop fuel (Z.of_nat i)) Q s.
Proof.
  induction fuel as [|fuel IH]; intros i s Q C Hi HQ; cbn [queue_loop].
  { apply wp_ret. apply (HQ []); [by replace kNumBuffers with i by lia|done| |done]. by rewrite app_nil_r. }
  apply wp_bind, (wp_QueueBuffer _ i); [done|lia|]. intros ok s1 C1 E1 B1.
  replace (Z.of_nat i + 1) with (Z.of_nat (S i)) by lia. apply IH; [done|lia|]. intros oks s2 C2 B2 E2 L2.
  apply (HQ (ok :: oks)); [done|congruence| |by cbn; rewrite L2].
  rewrite seqZ_cons by lia. cbn. rewrite E2, E1, <-app_assoc. cbn. do 4 f_equal; lia.
Qed.

Lemma wpe_mmap_loop E fuel : E Fatal → ∀ n s (Q : unit → Reader → Prop), counted kNumBuffers s →
  (∀ s', counted kNumBuffers s' → events s' = events s → (length (buffers_ s') = length (buffers_ s) + fuel)%nat → Q tt s') → wpe E (mmap_loop fuel n) Q s.
Proof.
  intros HE. induction fuel as [|fuel IH]; intros n s Q C HQ; cbn [mmap_loop].
  { apply wpe_ret, HQ; [done|done|lia]. }
  apply wpe_bind, wpe_get. destruct (querybuf n (kern s)) as [[len off]|]; [|by apply wpe_stop].
  apply wpe_bind, wpe_with_kern. intros [start|] k Ek; [|by apply wpe_stop]. apply law_mmap in Ek.
  apply wpe_bind, wpe_wp, wp_modify. apply IH.
  - destruct C. split; cbn; by rewrite ?Ek.
  - cbn. intros s' C' E' L'. rewrite length_app in L'. cbn in L'. apply HQ; [done|done|lia].
Qed.

(** What [Init] leaves. *)
Lemma init_mmap_ok s : events s = [] → wpe (λ _, True) init_mmap (λ _ s', counted 0 s' ∧ events s' = []) s.
Proof.
  intros He. unfold init_mmap. apply wpe_bind, wpe_with_kern. intros [e|c] k Ek; [by apply wpe_stop|]. apply law_reqbufs in Ek.
  apply wpe_bind, wpe_wp, wp_modify. destruct (c <? _); [by apply wpe_stop|]. apply wpe_ret. split; [|done].
  split; cbn; rewrite ?Ek, ?He; cbn; [constructor|by intros i ?%not_elem_of_nil|done|done].
Qed.

Lemma wpe_need_control id v s (Q : unit → Reader → Prop) : (∀ s', events s' = events s → params_ s' = params_ s → Q tt s') → wpe (λ _, True) (need_control id v) Q s.
Proof.
  intros HQ. unfold need_control. apply wpe_bind. unfold SetCameraControl. apply wpe_bind, wpe_get.
  assert (Hset : wpe (λ _, True) (with_kern (s_ctrl id v)) (λ ok, wpe (λ _, True) (if (ok : bool) then mret tt else st_stop Fatal) Q) s).
  { apply wpe_with_kern. intros [] k _; [apply wpe_ret; by apply HQ|by apply wpe_stop]. }
  destruct (g_ctrl id (kern s)) as [e|x]; [destruct (e =? EINVAL)|destruct (x =? v)]; try exact Hset; apply wpe_ret; [by apply wpe_stop|].
  apply wpe_ret. by apply HQ.
Qed.

Lemma wpe_Init s : events s = [] → wpe (λ _, True) Init (λ _ s', counted 0 s' ∧ events s' = []) s.
Proof.
  intros He. unfold Init. apply wpe_bind, wpe_get. destruct (querycap _) as [?|caps]; [by apply wpe_stop|].
  destruct (_ =? 0); [by apply wpe_stop|]. destruct (_ =? 0); [by apply wpe_stop|].
  apply wpe_bind, wpe_with_kern. intros can k1 _. apply wpe_bind.
  assert (Hcrop : ∀ s1 (Q : unit → Reader → Prop), events s1 = [] → (∀ s', events s' = [] → Q tt s') →
    wpe (λ _, True) (if (can : bool) then _ ← with_kern s_crop; mret tt else mret tt : MR unit) Q s1).
  { intros s1 Q He1 HQ. destruct can; [apply wpe_bind, wpe_with_kern; intros a k _|]; apply wpe_ret; by apply HQ. }
  apply Hcrop; [done|]. intros s1 E1. apply wpe_bind, wpe_with_kern. intros [] k2 _; cbn [negb]; [|by apply wpe_stop].
  apply wpe_bind, wpe_need_control; intros s2 E2 _. apply wpe_bind, wpe_need_control; intros s3 E3 _.
  apply wpe_bind, wpe_need_control; intros s4 E4 _. apply wpe_bind, wpe_need_control; intros s5 E5 _. cbn in E2.
  apply wpe_bind, wpe_with_kern. intros [] k3 _; cbn [negb]; [|by apply wpe_stop]. apply init_mmap_ok. cbn. congruence.
Qed.

Lemma Reader_new_ok k p q b s : Reader_new k p q b = Ok s → counted 0 s ∧ events s = [].
Proof.
  unfold Reader_new. destruct (sys_stat k) as [[]|]; [|done|done]. destruct (sys_open k); [|done]. cbn [negb].
  intros ([[] s'] & E & [= <-])%res_bind_ok. pose proof (wpe_Init (mkReader k p q b []) eq_refl) as Hi. exact (wpe_ok (λ _, True) _ _ _ _ _ Hi E).
Qed.

(** A camera that was set up.  Either the driver refuses to start, or to map its buffers, and
    the program ends; or the loop runs for ever and nothing stops it.  Then the buffers are
    given to the driver in order, and after that only frames happen: the driver returns a
    buffer, [process_] reads that buffer, whole and mapped, while the driver does not have
    it, and the buffer goes back.  A buffer is with the driver or lost, and [queued_] is ten
    more than the number of those that are with the driver. *)
Theorem camera_frames k params queued buffers s : Reader_new k params queued buffers = Ok s →
  (∀ n, Run n s = Err Fatal) ∨
  ∀ n, ∃ s' oks frames, Run n s = Ok (tt, s') ∧ length oks = kNumBuffers ∧ length (buffers_ s') = kNumBuffers ∧
    events s' = zip_with Queued (seqZ 0 (Z.of_nat kNumBuffers)) oks ++ concat frames ∧ Forall (frame (buffers_ s')) frames ∧ counted kNumBuffers s'.
Proof.
  intros [C E]%Reader_new_ok.
  assert (Hstart : wpe (λ e, e = Fatal) (_ ← Start; mmap_buffs) (λ _ s', counted kNumBuffers s' ∧ length (buffers_ s') = kNumBuffers ∧
    ∃ oks, events s' = zip_with Queued (seqZ 0 (Z.of_nat kNumBuffers)) oks ∧ length oks = kNumBuffers) s).
  { apply wpe_bind. unfold Start. apply wpe_bind, wpe_wp. apply (wp_queue_loop kNumBuffers 0); [done|done|]. intros oks s1 C1 B1 E1 L1.
    rewrite E in E1. apply wpe_bind, wpe_with_kern. intros [] k2 Ek; [|by apply wpe_stop]. apply law_streamon in Ek. apply wpe_ret.
    unfold mmap_buffs. apply wpe_bind, wpe_wp, wp_modify. apply wpe_mmap_loop; [done| |].
    - destruct C1. split; cbn; by rewrite ?Ek.
    - cbn. intros s2 C2 E2 L2. split_and!; [done|done|]. exists oks. by rewrite E2, E1. }
  assert (Hrun : ∀ n, Run n s = match (_ ← Start; mmap_buffs) s with Ok (_, s1) => Run_turns n s1 | Err e => Err e end).
  { intros n. unfold Run, mbind, st_bind. destruct (Start s) as [[u s1]|e]; [|done]. by destruct (mmap_buffs s1) as [[v s2]|e]. }
  unfold wpe in Hstart. destruct ((_ ← Start; mmap_buffs) s) as [[u s1]|e] eqn:Es.
  - right. intros n. destruct Hstart as (C1 & B1 & oks & E1 & L1).
    assert (Hw : wp (Run_turns n) (λ _ s', ∃ l, counted kNumBuffers s' ∧ buffers_ s' = buffers_ s1 ∧ events s' = events s1 ++ concat l ∧ Forall (frame (buffers_ s1)) l) s1).
    { apply wp_Run_turns; [done|done|]. eauto. }
    apply wp_run in Hw as ([] & s' & E' & l & C' & B' & Ev & F). exists s', oks, l.
    split_and!; [by rewrite Hrun|done|by rewrite B'|by rewrite Ev, E1| |done].
    eapply Forall_impl; [exact F|]. unfold frame. by rewrite B'.
  - left. intros n. rewrite Hrun. by subst.
Qed.
End Frames.

(** A driver that returns the buffer it got last, with 100 bytes in it, and refuses buffer 9. *)
#[local] Instance sample_camera : Camera (list Z) := {|
  sys_stat _ := Some true; sys_open _ := true; querycap _ := inr (V4L2_CAP_VIDEO_CAPTURE + V4L2_CAP_STREAMING);
  cropcap k := (true, k); s_crop k := (false, k); s_fmt _ _ k := (true, k); g_fmt _ := Some (320, 240);
  g_ctrl _ _ := inl 5; s_ctrl _ _ k := (true, k); s_parm _ k := (true, k); reqbufs n _ := (inr n, []);
  querybuf n _ := Some (4096, n * 4096); sys_mmap len off k := (Some (1000000 + off), k);
  qbuf i k := if bool_decide (i ∈ k ∨ i = 9) then (false, k) else (true, i :: k);
  dqbuf k := match k with [] => (inl 11, k) | i :: k => (inr (i, 100), k) end;
  streamon k := (true, k); sys_select k := (inr true, k); sys_now k := Z.of_nat (length k) |}.

#[local] Instance sample_laws : CameraLaws (list Z).
Proof.
  refine {| has := λ k : list Z, k |}; cbn; try by intros; simplify_eq.
  - intros i k ok k'. case_bool_decide as Hi; intros [= <- <-]; [done|]. split; [tauto|done].
  - intros k r k'. destruct k as [|i k]; intros [= <- <-]; done.
Defined.

Lemma camera_frames_witness : ∃ s s' oks frames, Reader_new (K := list Z) [] (mkParams 320 240 10 128 0 30) 77 [] = Ok s ∧ Run 2 s = Ok (tt, s') ∧
  length oks = kNumBuffers ∧ events s' = zip_with Queued (seqZ 0 10) oks ++ concat frames ∧
  drop 10 (events s') = [Dequeued 8 100; Processed 1032768 100 8; Queued 8 true; Dequeued 8 100; Processed 1032768 100 8; Queued 8 true] ∧ queued_ s' = 19.
Proof.
  destruct (Reader_new (K := list Z) [] (mkParams 320 240 10 128 0 30) 77 []) as [s|] eqn:E; [|vm_compute in E; discriminate].
  destruct (camera_frames [] _ _ _ s E) as [H|H].
  - specialize (H 0%nat). vm_compute in E. injection E as <-. vm_compute in H. discriminate.
  - destruct (H 2%nat) as (s' & oks & frames & Er & L1 & _ & Ev & _). exists s, s', oks, frames. split; [done|].
    split; [exact Er|]. split; [exact L1|]. split; [exact Ev|]. clear Ev. vm_compute in E. injection E as <-. vm_compute in Er. injection Er as <-.
    split; reflexivity.
Defined.
